(* ===== verification/_CoqProject ===== *)
-Q . S2P
Prelude.v
GoStrings.v
SSRF.v
SSRFTheory.v
SSRFDial.v
KVStore.v
KVStoreTheory.v
LRUCache.v
LRUTheory.v
LRUConc.v
LRUKey.v
Schemas.v
CooldownPolicy.v
Cooldown.v
CooldownTheory.v
CooldownPlugin.v
KeySelection.v
KeySelectionTheory.v
Retry.v
RetryTheory.v
Request.v
Context.v
JsonScan.v
JsonParser.v
JsonParserTheory.v
Pipeline.v
PipelineTheory.v
Fallback.v
FallbackTheory.v
Gate.v
GateTheory.v
ProviderQueue.v
ProviderQueueTheory.v
ProviderQueueLive.v
Calendar.v
Windows.v
WindowsTheory.v
Optimistic.v
Ledger.v
GovStore.v
GovStoreTheory.v
GovRate.v
GovRateTheory.v
GovPolicy.v
GovPolicyTheory.v
GovResolver.v
GovResolverTheory.v
GovToolsTheory.v
GovTracker.v
GovTrackerTheory.v
KeyConfig.v
KeyConfigTheory.v
LiveModels.v
ModelCatalog.v
ModelCatalogTheory.v
GovBalance.v
GovRules.v
GovRulesTheory.v
GovBalanceTheory.v
Webhooks.v
WebhookNetwork.v
WebhooksTheory.v
Alerts.v
AlertsTheory.v
McpTools.v
McpClients.v
McpClientsNet.v
McpClientsTheory.v
McpAgent.v
McpToolsTheory.v
McpAgentTheory.v
Prices.v
PricesTheory.v
Flags.v
FlagsTheory.v
TempTokens.v
TempTokensTheory.v
