(* ===== verification/Prelude.v ===== *)
(** * A verification development for celer-route

    celer-route is a gateway in Go between clients and many providers of
    language models.  A request enters the core ([src/core/bifrost.go]), where
    plugins may route it; it is then attempted on the primary provider and, when
    that fails, on its fallbacks.  An attempt runs the plugin hooks, waits in
    the queue of its provider, and is executed by a retry loop that selects and
    rotates API keys.  The provider-cooldown plugin keeps keys that failed out
    of that selection for a while; an in-memory key/value store keeps sessions
    on one key; an LRU cache with single-flight fills serves the framework.  The
    queue of a provider has workers, and is replaced or removed while requests
    run.  A streamed answer passes a gate that plugins can pause, and may be
    repaired chunk by chunk by the JSON parser plugin.  What the gateway fetches
    for users goes through a guard that refuses internal addresses.  The
    governance plugin decides which requests a virtual key, its owners and
    their budgets and rate limits admit, and charges them afterwards by the price
    of the call; alerts on budgets and finished jobs leave through a queue of
    webhooks.  Tools of outside servers (MCP) are offered to the model, and an
    agent loop runs the calls that may run alone; a manager keeps the connections
    to those servers and checks them.  Operators toggle feature flags, and pages
    outside the dashboard are authorized by temporary tokens.  This development
    models these parts and proves what makes them correct.

    ** Files, and the code they model

    - [Prelude]: machine integers, results, tactics, shared lemmas.
    - [GoStrings]: the functions of Go's [strings] and [strconv] in use.
    - [KVStore], [KVStoreTheory]: the store of [src/framework/kvstore], every
      operation with its clock readings as arguments.  Any run of a store with
      pruning and clean-up is one of a map with deadlines that never prunes
      (a refinement), but for what a delete says of a key past its deadline;
      set-if-absent is exclusive; gossiped writes converge, and
      deletes do not; the longest prefix decides the decoder; a huge TTL wraps.
    - [LRUCache], [LRUTheory], [LRUConc], [LRUKey]: the cache of
      [src/framework/lrucache].  The sequential cache refines a list of rows in
      recency order; [LRUConc] is a step relation that interleaves the critical
      sections of its methods, with theorems over all interleavings (no stale
      fill, one leader per key, followers released with the leader's result,
      representation invariant); [LRUKey] is the key codec.
    - [Schemas]: providers, request types, keys and their model lists, errors
      ([src/core/schemas], predicates of [src/core/utils.go]).
    - [CooldownPolicy], [Cooldown], [CooldownTheory], [CooldownPlugin]: the
      cooldown policies of [src/core/schemas/provider.go] and the plugin
      [src/plugins/providercooldown].  [Cooldown] is written in a small monad
      that threads the state and a list of clock readings, one per call of
      [time.Now].  The filter returns no key on cooldown and every other key; over
      any run of operations a key is held back exactly while its last mark not
      cleared is ahead; the retry hint is honest when no key
      is marked at both granularities, and otherwise not; counters add up;
      storage keys parse back; configurations mean what they say.
    - [KeySelection], [KeySelectionTheory]: weighted selection, key pools,
      pinning, session stickiness, key providers ([src/core/bifrost.go],
      [src/core/keyselectors]).  The store is used through the class
      [KVStoreI], the interface of [src/core/schemas/kvstore.go] with its laws;
      the store of [KVStore] is an instance.
    - [Retry], [RetryTheory]: [executeRequestWithRetries] and its tables.  The
      loop ends within its budget; a dead key is never called again, for any
      key provider that keeps the promise [provides], which both providers of
      [KeySelection] do; the marker hears of exactly the transient per-key
      failures; the attempt trail is a function of the calls; backoff bounds.
    - [Request]: [BifrostRequest] and the accessors routing uses.
    - [Context]: [BifrostContext]: values, reserved keys, blocked writes, and
      every public method that writes a value as a [CtxOp].
    - [Pipeline], [PipelineTheory]: the hook phases and [tryRequest], with the
      list of plugins as it is at the start and as it is at the answer.  Plugins
      that do not lift the block cannot write reserved keys, but for those with
      public setters; the hooks of an attempt that returns without an error ran
      in order and back, with the three exceptions of [hooks_symmetric].
    - [Fallback], [FallbackTheory]: [handleRequest].  Where a fallback is sent,
      and what the chain of attempts answers.
    - [ProviderQueue], [ProviderQueueTheory], [ProviderQueueLive]: the queue of
      a provider with its workers, the producers of [tryRequest],
      [UpdateProvider], [RemoveProvider] and the final sweep
      ([src/core/bifrost.go]) as a transition system that interleaves them at
      channel operations and atomic accesses.  Messages are conserved; a queued
      message has a worker or a sweeper, with the two exceptions the code
      leaves; a sweep follows the last worker; a removal can always finish;
      states are well formed; a provider that cannot be constructed leaves a
      queue in which requests hang.
    - [Gate], [GateTheory]: the gate of [src/framework/streaming/gate.go], its
      flusher and direct sends, over all interleavings.  Chunks are conserved,
      an ended gate drains, order holds outside one window and fails in it.
    - [JsonScan], [JsonParser], [JsonParserTheory]: the plugin
      [src/plugins/jsonparser] over the scanner of Go's [encoding/json].  A
      partial document is completed exactly when that is possible; what the
      hook emits is valid JSON; choices share one buffer; copies lose fields.
    - [SSRF], [SSRFTheory], [SSRFDial]: the guard of [src/core/network] with
      the parts of [net] and [net/netip] it calls.  The byte tests decide the
      published ranges; only a checked address is dialed, as a literal that
      parses back to it; allowlists are exact, and report bad entries.
    - [Calendar], [Windows], [WindowsTheory]: instants and civil dates of
      Go's [time], and the reset windows and overrides of budgets and rate
      limits ([src/framework/configstore/tables]: utils.go, budget.go,
      ratelimit.go).  [Calendar] proves its years and months Gregorian; period
      starts and counts are those of the calendar; an
      override lives exactly the windows it was granted for.
    - [Optimistic], [Ledger]: a map shared by threads that load, build a copy
      and compare-and-swap it, with arbitrary interleaving, and the ledger of
      the publications of one row; used by both stores below.
    - [GovStore], [GovStoreTheory]: budgets in memory, their resets, edits and
      dumps ([src/plugins/governance/store.go]).  Usage is the ledger of the
      charges since it was last set; a window is reset at most once; a charge
      terminates; the database is never behind; an edit can lose a charge.
    - [GovRate], [GovRateTheory]: the same for rate limits and their counters.
    - [GovPolicy], [GovPolicyTheory]: owners (keys, teams, customers, model
      configurations, providers), which limits apply to a request, and the
      checks of every level; team policies ([teammodelpolicy.go]).
    - [GovResolver], [GovResolverTheory], [GovToolsTheory]: the evaluation of a
      request ([resolver.go], [EvaluateGovernanceRequest] and the pre hooks of
      [main.go]) and the tools a key grants.  A request is admitted exactly
      when its key permits it and every limit that applies has room; the tools
      the client manager offers are granted by the key; the later check of
      injected tools is dead.
    - [GovTracker], [GovTrackerTheory]: the post hooks, the usage update and
      the claims that settle a call once ([tracker.go]).  One of the updates of
      a call is settled; the list of budgets charged is exact, and compared with
      the budgets that were enforced.
    - [KeyConfig], [KeyConfigTheory]: the model lists and aliases of the
      configured keys of a provider ([src/framework/modelcatalog/keyconfig]).
      What the aggregated lists allow and block is read off the keys.
    - [LiveModels]: the cache of what providers list
      ([src/framework/modelcatalog/live]).  A fetch cannot bring back entries
      that were dropped after it started.
    - [ModelCatalog], [ModelCatalogTheory]: model names, the models of a
      provider, the providers of a model, and the name of a model at a provider
      ([src/framework/modelcatalog]).  Refining a name ends and settles it.
    - [GovBalance], [GovBalanceTheory]: the choice of a provider by weight and
      the published allow list ([src/plugins/governance/main.go]), and the
      resolver of [src/plugins/modelcatalogresolver].  After the routing rules,
      which may name any provider, no layer leaves the providers the key has for
      the model; a model that is renamed
      for its provider can be blocked under its new name.
    - [GovRules], [GovRulesTheory]: routing rules ([routing.go], the rules of
      [store.go], [src/framework/routing]) and [PreRequestHook] as a whole.
      The decision is that of the last of a chain of rules, judged by the
      programs that are kept for their IDs, which can be old ones; the rules in
      memory are a table by ID.
    - [Prices], [PricesTheory]: rates, overrides and costs
      ([src/framework/modelcatalog/datasheet]: overrides.go, cost.go).  The best
      override of the table is the one applied; the price of the usage of a text
      request is computed exactly, with every token billed once; overrides of users never apply.
    - [Webhooks], [WebhookNetwork], [WebhooksTheory]: the queue of deliveries
      ([src/framework/webhooks], the rows of [configstore/rdb.go]), one attempt
      with its request, signature and payload, and the nodes that scan, claim
      and deliver, crashes and the reaper of old records
      ([src/framework/logstore/rdb.go]), as a transition system.  No delivery is
      lost, and only expired records are reaped; leases of one delivery do not
      overlap and fence late writes, whatever the clocks of nodes say, as long as
      a delivery is not created again before its last claim; the backoff is bounded; the request is signed over what it
      carries; replaying an alert drops its body.
    - [Alerts], [AlertsTheory]: alert rules, events, the cache of rules and the
      evaluator ([alert*.go] of [src/plugins/governance] and of the tables).
      What a firing queues, on every history; under steady traffic, once.
    - [McpTools], [McpToolsTheory]: the filters of clients and tools, the list
      offered to a request, the gate of a call and the connection it acquires,
      and the calls that may run alone, those of code included ([utils.go],
      [exec.go], [clientmanager.go], [agent.go] of [src/core/mcp]).  A call runs
      exactly when its tool was offered, no authorization is awaited and a
      connection is had; code reaches any tool through a variable.
    - [McpAgent], [McpAgentTheory]: the agent loop with the goroutines that run
      the tools of a round, usage, the chat adapter and the depth ([agent.go],
      [agentadaptors.go]).  Only calls that the model asked for and that may run
      alone are run; each request carries the conversation so far, with one
      result for every call whatever the schedule; the run ends within its
      depth.
    - [McpClients], [McpClientsNet], [McpClientsTheory]: the entries of MCP
      clients and their operations ([clientmanager.go]) as the sections under
      the lock, with dials, edits, removals, checks ([connectionchecker.go]) and
      what the boot leaves of a client that failed ([mcp.go]) in any
      interleaving.  Connections are accounted
      for at every moment; checks are fenced by the generation of an entry,
      which does not tell a client from one added again under its ID.
    - [Flags], [FlagsTheory]: feature flags ([src/framework/featureflags]), their
      bootstrap ([lib/config.go]) and the handler of toggles
      ([handlers/featureflags.go]), whose parts interleave.  Flags of the file
      never move; toggles survive a restart, unless two of one flag overlap.
    - [TempTokens], [TempTokensTheory]: temporary tokens
      ([src/framework/temptoken]), their rows, the scopes of the gateway
      ([handlers/temptokens.go]) and the step of the middleware that accepts
      them.  What a token opens, exactly; tokens of two flows do not cross.

    ** How code is rendered

    A struct is a [Record], a set of constants an [Inductive] type or string
    constants, a method a [Definition] that takes the receiver and returns it
    changed.  Errors are values of [result] or [option].  Integers are [Z], with
    [wrap64] written where a computation can leave 64 bits.  Loops are folds or
    [Fixpoint]s over the list they range over.  A mutex-protected method is one
    step; [LRUConc], [Gate], [ProviderQueue], [WebhookNetwork],
    [McpClientsNet] and [Flags] split code that releases the lock on the way or works
    without one, and quantify over all label lists.  Each call
    of the clock is a separate argument, in program order.  What the code does
    to the outside (calls, marks, sleeps, hooks) is a list of events, or its
    effect on a world [W].

    ** Fuel

    The retry loop takes fuel: [enoughFuel] is the retry budget plus three (the
    first attempt, the one extra attempt the loop can grant, and the test that
    ends it); that it is enough on every input is part of [retries_bounded].
    The binary search of [progressiveTruncation] takes the length of its input,
    which [search_fuel] shows to be enough; the IPv6 parser takes eight, the
    number of groups of an address, as its loop does.  A charge of a budget
    takes at most 25 accesses to shared memory, and 25 more for every
    publication of another thread in between ([charge_terminates]).  The chain
    of routing rules takes one round more than there are rules, and refining a
    name the length of the name; [routing_follows_rules] and [refine_settles]
    show that this is enough.  The matcher of keys in expressions takes the
    length of the text, and the search for calls in code one more.  The agent
    loop takes the depth it is configured with, which is the bound of the code.

    ** Arguments of the model

    Providers, plugins, the account, random sources, digests, JSON codecs,
    loaders, the resolver, the dialer, the size of a chunk and whether a database
    answers are arguments of the definitions.  So are, for governance, the amounts of budgets (the class [Amount] in place of
    floats), the rounding of fractional durations, the order in which Go ranges
    over a map, the model catalogue, the text of a refusal, and the tokens and
    the price of a response; for webhooks the answers of endpoints, HMAC, base64
    and the text of a payload; for the agent the answers of the model and of
    tools, the schedule of its goroutines and the reader of arguments; for prices the operations of floats
    (the class [Price]), which theorems take to be exact, the JSON of an
    override and the usage of a response; for MCP clients the outcome of
    dials, discoveries and checks, as labels, and the hash of tools.  Where a
    theorem needs something of them it is a named hypothesis (such as
    [selector_sound], [provides]) with a witness at a concrete value.

    ** Not modelled

    Provider adapters, the HTTP transport, stores and migrations of databases,
    observability, the command line and the user interface are input, output
    and translation of payloads.  Of the modelled parts these are left out: the
    streaming twins of [tryRequest] and [handleRequest] and the accumulation of
    chunks into responses, which repeat the modelled path over channels;
    [Shutdown] and the hot-swap of plugins, which is plumbing around the queues;
    queues of capacity zero; the administration of owners in memory and the
    paging of rules and events; the adapter of the agent for the Responses API,
    which rewrites payloads; the transports of MCP, the gate of plugins around a
    dial, the verification of per-user credentials and how a connection for
    one call is opened; the extraction of usage from response bodies; the semantic cache; the
    analysis of complexity, a heuristic over text.  Spans, debug logs, latency stamps and the cancel
    functions of connections are not state that anything modelled reads.
    In-place changes of a request by a plugin that also returns it are not
    represented, nor are generations of connections that wrap at 64 bits.
    [ToLower] is that of ASCII text.  Key weights are the
    hundredths the code computes from them. *)

From stdpp Require Export base tactics numbers list option strings gmap.
From Stdlib Require Export ZArith Lia.

(** ** Machine integers

    Go's [int64] and [uint64] arithmetic wraps around.  Values are kept as [Z]
    and the wrap-around is written where the source computes. *)

Declare Scope go_scope.
Delimit Scope go_scope with go.

Definition two63 : Z := 9223372036854775808.
Definition two64 : Z := 18446744073709551616.

(** The two's-complement reading of an integer as an [int64]. *)
Definition wrap64 (z : Z) : Z := ((z + two63) mod two64 - two63)%Z.
(** The reading as a [uint64]. *)
Definition wrapu64 (z : Z) : Z := (z mod two64)%Z.

Definition in_int64 (z : Z) : Prop := (- two63 <= z < two63)%Z.
Definition in_uint64 (z : Z) : Prop := (0 <= z < two64)%Z.

Notation "x +i y" := (wrap64 (x + y)) (at level 50, left associativity) : go_scope.
Notation "x *i y" := (wrap64 (x * y)) (at level 40, left associativity) : go_scope.
Notation "x +u y" := (wrapu64 (x + y)) (at level 50, left associativity) : go_scope.

(** [time.Second] in nanoseconds; a [time.Duration] is a number of nanoseconds. *)
Definition Second : Z := 1000000000.
Definition Minute : Z := 60 * Second.

Section machine_integers.
Local Open Scope Z_scope.

Lemma wrap64_range z : in_int64 (wrap64 z).
Proof. unfold in_int64, wrap64, two63, two64. pose proof (Z.mod_pos_bound (z + 9223372036854775808) 18446744073709551616). lia. Qed.

Lemma wrap64_id z : in_int64 z -> wrap64 z = z.
Proof. unfold in_int64, wrap64, two63, two64. intros H. rewrite Z.mod_small; lia. Qed.

Lemma wrapu64_range z : in_uint64 (wrapu64 z).
Proof. unfold in_uint64, wrapu64, two64. apply Z.mod_pos_bound. lia. Qed.

Lemma wrapu64_id z : in_uint64 z -> wrapu64 z = z.
Proof. unfold in_uint64, wrapu64. intros. by apply Z.mod_small. Qed.

(** A sum of two non-negative [int64]s that leaves the range wraps below zero. *)
Lemma wrap64_overflow a b :
  in_int64 a -> in_int64 b -> two63 <= a + b -> wrap64 (a + b) = a + b - two64.
Proof.
  unfold in_int64, wrap64, two63, two64. intros ? ? ?.
  rewrite <-(Z.mod_unique_pos _ _ 1 (a + b + 9223372036854775808 - 18446744073709551616)); lia.
Qed.

Lemma wrapu64_succ_ne z : in_uint64 z -> wrapu64 (z + 1) <> z.
Proof.
  unfold in_uint64, wrapu64, two64. intros Hz Heq.
  destruct (decide (z + 1 < 18446744073709551616)).
  - rewrite Z.mod_small in Heq; lia.
  - replace (z + 1) with 18446744073709551616 in Heq by lia. vm_compute in Heq. lia.
Qed.

(** A counter that moved by less than its range is not where it was. *)
Lemma wrapu64_shift_ne z n : in_uint64 z -> 1 <= n < two64 -> wrapu64 (z + n) <> z.
Proof.
  unfold in_uint64, wrapu64. intros Hz Hn Heq. destruct (decide (z + n < two64)).
  - rewrite Z.mod_small in Heq; lia.
  - rewrite <-(Z.mod_unique_pos (z + n) two64 1 (z + n - two64)) in Heq; lia.
Qed.

Lemma wrapu64_add_l a b : wrapu64 (wrapu64 a + b) = wrapu64 (a + b).
Proof. unfold wrapu64. by rewrite Zplus_mod_idemp_l. Qed.

Lemma wrapu64_add_r a b : wrapu64 (a + wrapu64 b) = wrapu64 (a + b).
Proof. unfold wrapu64. by rewrite Zplus_mod_idemp_r. Qed.
End machine_integers.

Create HintDb celer discriminated.
#[export] Hint Resolve wrap64_range wrapu64_range : celer.
Create Rewrite HintDb celer.
#[export] Hint Rewrite wrapu64_add_l wrapu64_add_r : celer.

(** ** Results

    A Go function with an error result returns [Ok] or [Err]. *)
Inductive result (E A : Type) : Type :=
| Ok (a : A)
| Err (e : E).
Arguments Ok {E A} a.
Arguments Err {E A} e.

#[global] Instance result_eq_dec E A `{EqDecision E, EqDecision A} : EqDecision (result E A).
Proof. solve_decision. Defined.

(** [if err := e; err != nil { return err }]. *)
Notation "'let?' x := e 'in' k" :=
  (match e with Ok x => k | Err err => Err err end)
  (at level 10, x pattern, k at level 200) : go_scope.

(** ** Tactics *)

(** Split every [match], [if] and [decide] of the goal and the hypotheses. *)
Ltac split_all :=
  repeat (case_match || case_decide || case_bool_decide); simplify_eq/=.

(** Close a goal about map lookups after splitting on key equalities. *)
Ltac map_cases :=
  repeat match goal with
  | |- context [ <[?i:=_]> _ !! ?j ] =>
      destruct (decide (i = j)) as [->|]; simplify_map_eq
  | |- context [ delete ?i _ !! ?j ] =>
      destruct (decide (i = j)) as [->|]; simplify_map_eq
  end.

(** ** Lists and maps *)

Lemma elem_of_concat {A} (ls : list (list A)) x : x ∈ concat ls <-> exists l, l ∈ ls /\ x ∈ l.
Proof. rewrite list_elem_of_In, in_concat. by setoid_rewrite list_elem_of_In. Qed.

Lemma elem_option_list {A} (o : option A) x : x ∈ option_list o <-> o = Some x.
Proof. destruct o; cbn; [rewrite list_elem_of_singleton|rewrite elem_of_nil]; naive_solver. Qed.

Lemma filter_all {A} (P : A -> Prop) `{!forall x, Decision (P x)} (l : list A) :
  Forall P l -> filter P l = l.
Proof.
  induction 1 as [|x l Hx _ IH]; [done|].
  rewrite filter_cons_True by done. by rewrite IH.
Qed.

Lemma filter_none {A} (P : A -> Prop) `{!forall x, Decision (P x)} (l : list A) :
  Forall (fun x => ~ P x) l -> filter P l = [].
Proof.
  induction 1 as [|x l Hx _ IH]; [done|].
  rewrite filter_cons_False by done. by rewrite IH.
Qed.

(** Two deletions of a filtered map commute with the filter. *)
Lemma map_filter_delete_fail `{Countable K} {V} (P : K * V -> Prop)
    `{!forall x, Decision (P x)} (m : gmap K V) (k : K) (v : V) :
  m !! k = Some v -> ~ P (k, v) -> filter P (delete k m) = filter P m.
Proof.
  intros Hk HP. apply map_eq. intros i. apply option_eq. intros x.
  rewrite !map_lookup_filter_Some.
  destruct (decide (k = i)) as [->|]; [|by rewrite lookup_delete_ne].
  rewrite lookup_delete_eq. naive_solver.
Qed.

(** An association list without duplicate keys is functional. *)
Lemma assoc_functional `{Countable K} {V} (l : list (K * V)) (k : K) (a b : V) :
  NoDup l.*1 -> (k, a) ∈ l -> (k, b) ∈ l -> a = b.
Proof.
  intros Hnd Ha Hb.
  apply (elem_of_list_to_map_1 (M := gmap K)) in Ha, Hb; [|done..]. congruence.
Qed.
