(* ===== verification/GoStrings.v ===== *)
(** * Go strings

    The part of Go's [strings] and [strconv] packages the modelled code uses.
    A Go string is a sequence of bytes, here [String.string].  [ToLower] is that
    of ASCII text: bytes above 127 are left as they are, where Go would map the
    letters of a multi-byte UTF-8 sequence.  [TrimSpace] takes every blank of
    Unicode in its UTF-8 form. *)

From S2P Require Import Prelude.
From stdpp Require Import pretty.
From Stdlib Require Import Ascii.

Local Open Scope string_scope.
#[global] Arguments String.append !_ _ : simpl nomatch.

(** ** Slicing *)

Fixpoint str_take (n : nat) (s : string) : string :=
  match n, s with
  | S n, String c s => String c (str_take n s)
  | _, _ => EmptyString
  end.

Fixpoint str_drop (n : nat) (s : string) : string :=
  match n, s with
  | S n, String _ s => str_drop n s
  | _, _ => s
  end.

(** ** Searching *)

(** [strings.HasPrefix s p]. *)
Fixpoint HasPrefix (s p : string) {struct p} : bool :=
  match p, s with
  | EmptyString, _ => true
  | String a p, String b s => Ascii.eqb a b && HasPrefix s p
  | String _ _, EmptyString => false
  end.

(** [strings.Index s sub]; [None] is the [-1] of Go. *)
Fixpoint Index (s sub : string) : option nat :=
  if HasPrefix s sub then Some 0
  else match s with
       | EmptyString => None
       | String _ s => S <$> Index s sub
       end.

(** [strings.LastIndex s sub]. *)
Fixpoint LastIndex (s sub : string) : option nat :=
  match s with
  | EmptyString => if HasPrefix s sub then Some 0 else None
  | String _ s' =>
      match LastIndex s' sub with
      | Some i => Some (S i)
      | None => if HasPrefix s sub then Some 0 else None
      end
  end.

(** [strings.Contains s sub]. *)
Definition Contains (s sub : string) : bool :=
  match Index s sub with Some _ => true | None => false end.

(** ** Case, on ASCII text *)

Definition lower_byte (c : ascii) : ascii :=
  let n := nat_of_ascii c in
  if (65 <=? n)%nat && (n <=? 90)%nat then ascii_of_nat (n + 32) else c.

Fixpoint ToLower (s : string) : string :=
  match s with
  | EmptyString => EmptyString
  | String c s => String (lower_byte c) (ToLower s)
  end.

(** ** Blanks *)

Definition is_space (c : ascii) : bool :=
  let n := nat_of_ascii c in
  ((9 <=? n)%nat && (n <=? 13)%nat) || (n =? 32)%nat.

Definition byteIs (n : nat) (c : ascii) : bool := (nat_of_ascii c =? n)%nat.
Definition byteIn (l u : nat) (c : ascii) : bool := (l <=? nat_of_ascii c)%nat && (nat_of_ascii c <=? u)%nat.

(** The other runes of [unicode.IsSpace]: U+0085 and U+00A0 take two bytes;
    U+1680, U+2000 to U+200A, U+2028, U+2029, U+202F, U+205F and U+3000 three. *)
Definition is_space2 (c d : ascii) : bool := byteIs 194 c && (byteIs 133 d || byteIs 160 d).
Definition is_space3 (c d e : ascii) : bool :=
  byteIs 225 c && byteIs 154 d && byteIs 128 e ||
  byteIs 226 c && (byteIs 128 d && (byteIn 128 138 e || byteIs 168 e || byteIs 169 e || byteIs 175 e) || byteIs 129 d && byteIs 159 e) ||
  byteIs 227 c && byteIs 128 d && byteIs 128 e.

(** What follows a blank at the front. *)
Definition afterBlank (s : string) : option string :=
  match s with
  | String c s1 =>
      if is_space c then Some s1
      else match s1 with
           | String d s2 =>
               if is_space2 c d then Some s2
               else match s2 with String e s3 => if is_space3 c d e then Some s3 else None | EmptyString => None end
           | EmptyString => None
           end
  | EmptyString => None
  end.

Fixpoint trim_left (s : string) : string :=
  match s with
  | String c s1 =>
      if is_space c then trim_left s1
      else match s1 with
           | String d s2 =>
               if is_space2 c d then trim_left s2
               else match s2 with String e s3 => if is_space3 c d e then trim_left s3 else s | EmptyString => s end
           | EmptyString => s
           end
  | EmptyString => EmptyString
  end.

Definition all_space (s : string) : bool := match trim_left s with EmptyString => true | _ => false end.

Fixpoint trim_right (s : string) : string :=
  match s with
  | String c s' => if all_space s then EmptyString else String c (trim_right s')
  | EmptyString => EmptyString
  end.

(** [strings.TrimSpace]. *)
Definition TrimSpace (s : string) : string := trim_right (trim_left s).

Lemma trim_left_step s : trim_left s = match afterBlank s with Some r => trim_left r | None => s end.
Proof.
  destruct s as [|c [|d [|e s]]]; [done|..]; unfold afterBlank; cbn [trim_left]; destruct (is_space c) eqn:?; try reflexivity;
    cbn [trim_left]; destruct (is_space2 c d) eqn:?; try reflexivity; by destruct (is_space3 c d e).
Qed.

Lemma afterBlank_app s r t : afterBlank s = Some r -> afterBlank (s +:+ t) = Some (r +:+ t).
Proof.
  destruct s as [|c [|d [|e s]]]; cbn [afterBlank String.append]; repeat case_match; intros [= <-]; done.
Qed.

Lemma afterBlank_shorter s r : afterBlank s = Some r -> (String.length r < String.length s)%nat.
Proof.
  destruct s as [|c [|d [|e s]]]; cbn [afterBlank]; repeat case_match; intros [= <-]; cbn; lia.
Qed.

(** Blanks before a text are blanks of the text. *)
Lemma trim_left_app s t : all_space s = true -> trim_left (s +:+ t) = trim_left t.
Proof.
  unfold all_space. remember (String.length s) as n eqn:Hn. revert s Hn. induction n as [n IH] using lt_wf_ind. intros s -> Hs.
  rewrite trim_left_step in Hs. destruct (afterBlank s) as [r|] eqn:E; [|by destruct s].
  rewrite trim_left_step, (afterBlank_app _ _ _ E). eapply IH; [by apply afterBlank_shorter|done|done].
Qed.

(** What [trim_right] takes off is blank, and it takes all of it. *)
Lemma trim_right_split s : exists r, s = trim_right s +:+ r /\ all_space r = true.
Proof.
  induction s as [|c s [r [IH Hr]]]; [by exists ""|]. cbn [trim_right].
  destruct (all_space (String c s)) eqn:E; [by eexists|]. exists r. split; [|done]. cbn. by rewrite <-IH.
Qed.

Lemma trim_right_twice s : trim_right (trim_right s) = trim_right s.
Proof.
  induction s as [|c s IH]; [done|]. cbn [trim_right]. destruct (all_space (String c s)) eqn:E; [done|]. cbn [trim_right].
  destruct (all_space (String c (trim_right s))) eqn:E2; [|by rewrite IH].
  destruct (trim_right_split s) as (r & Hs & Hr). enough (all_space (String c s) = true) as H by (by rewrite H in E).
  rewrite Hs. change (String c (trim_right s +:+ r)) with (String c (trim_right s) +:+ r). unfold all_space.
  by rewrite trim_left_app.
Qed.

(** A text that ends in an ASCII letter that is not blank. *)
Lemma ends_solid a c : is_space c = false -> (nat_of_ascii c < 128)%nat -> all_space (a +:+ String c "") = false.
Proof.
  intros Hc Hn. assert (H2 : forall x, is_space2 x c = false).
  { intros x. unfold is_space2, byteIs. destruct (Nat.eqb_spec (nat_of_ascii c) 133), (Nat.eqb_spec (nat_of_ascii c) 160); try lia; apply andb_false_r. }
  assert (Hb : forall n, (128 <= n)%nat -> byteIs n c = false) by (intros n ?; apply Nat.eqb_neq; lia).
  assert (H3 : forall x y, is_space3 x y c = false).
  { intros x y. unfold is_space3. rewrite !Hb by lia. unfold byteIn. destruct (Nat.leb_spec 128 (nat_of_ascii c)); [lia|].
    cbn [andb orb]. by rewrite !andb_false_r. }
  unfold all_space. remember (String.length a) as n eqn:Hl. revert a Hl. induction n as [n IH] using lt_wf_ind. intros a ->.
  destruct a as [|x [|y [|z a]]]; cbn [String.append trim_left].
  - by rewrite Hc.
  - destruct (is_space x); [rewrite Hc; done|]. by rewrite H2.
  - destruct (is_space x); [apply (IH 1%nat ltac:(cbn; lia) (String y "")); done|].
    destruct (is_space2 x y); [by rewrite Hc|]. by rewrite H3.
  - destruct (is_space x); [apply (IH (S (S (String.length a))) ltac:(cbn; lia) (String y (String z a))); done|].
    destruct (is_space2 x y); [apply (IH (S (String.length a)) ltac:(cbn; lia) (String z a)); done|].
    destruct (is_space3 x y z); [apply (IH (String.length a) ltac:(cbn; lia) a); done|done].
Qed.

Lemma trim_right_snoc a c : is_space c = false -> (nat_of_ascii c < 128)%nat -> trim_right (a +:+ String c "") = a +:+ String c "".
Proof.
  intros Hc Hn. induction a as [|d a IH]; cbn [String.append trim_right].
  - pose proof (ends_solid "" c Hc Hn) as H. cbn [String.append] in H. by rewrite H.
  - change (String d (a +:+ String c "")) with (String d a +:+ String c ""). by rewrite ends_solid, IH.
Qed.

(** ** Sorting *)

(** [slices.Sort] on strings, which compares bytes. *)
Fixpoint insertString (x : string) (l : list string) : list string :=
  match l with
  | [] => [x]
  | y :: l' => if String.leb x y then x :: l else y :: insertString x l'
  end.

Definition SortStrings (l : list string) : list string := foldr insertString [] l.

Lemma insertString_permutes x l : insertString x l ≡ₚ x :: l.
Proof. induction l as [|y l IH]; cbn; [done|]. destruct (String.leb x y); [done|]. rewrite IH. constructor. Qed.

Lemma SortStrings_permutes l : SortStrings l ≡ₚ l.
Proof. induction l as [|x l IH]; cbn; [done|]. rewrite insertString_permutes. by f_equiv. Qed.

(** ** Decimal numbers *)

(** [strconv.Quote], the verb [%q]: quotes around the text, escapes inside.
    Bytes from 128 on are those of printable UTF-8 and stay. *)
Definition hex_digit (n : nat) : ascii := ascii_of_nat (if Nat.ltb n 10 then (48 + n)%nat else (87 + n)%nat).

Definition quote_byte (c : ascii) : string :=
  let n := nat_of_ascii c in
  let esc (d : nat) := String (ascii_of_nat 92) (String (ascii_of_nat d) "") in
  if Nat.eqb n 34 then esc 34 else if Nat.eqb n 92 then esc 92
  else if Nat.eqb n 7 then esc 97 else if Nat.eqb n 8 then esc 98 else if Nat.eqb n 12 then esc 102 else if Nat.eqb n 10 then esc 110
  else if Nat.eqb n 13 then esc 114 else if Nat.eqb n 9 then esc 116 else if Nat.eqb n 11 then esc 118
  else if (Nat.ltb n 32) || (Nat.eqb n 127)
  then String (ascii_of_nat 92) (String (ascii_of_nat 120) (String (hex_digit (n / 16)%nat) (String (hex_digit (n mod 16)%nat) "")))
  else String c "".

Fixpoint quote_bytes (s : string) : string :=
  match s with
  | "" => ""
  | String c s => quote_byte c +:+ quote_bytes s
  end.

Definition Quote (s : string) : string :=
  let q := String (ascii_of_nat 34) "" in q +:+ (quote_bytes s +:+ q).

(** [strconv.Itoa]. *)
Definition Itoa (z : Z) : string :=
  match z with
  | Zneg p => "-" +:+ pretty (Npos p)
  | _ => pretty (Z.to_N z)
  end.

Definition digit_of (c : ascii) : option Z :=
  let n := nat_of_ascii c in
  if (48 <=? n)%nat && (n <=? 57)%nat then Some (Z.of_nat (n - 48)) else None.

(** The value of a run of digits after [acc]; [None] on another byte. *)
Fixpoint parse_digits (acc : Z) (s : string) : option Z :=
  match s with
  | EmptyString => Some acc
  | String c s => d ← digit_of c; parse_digits (10 * acc + d) s
  end%Z.

(** [strconv.Atoi]: an optional sign, at least one digit, and a value in the
    range of [int]; [None] stands for its error. *)
Definition Atoi (s : string) : option Z :=
  let '(neg, body) :=
    match s with
    | String c s' =>
        if Ascii.eqb c "-" then (true, s')
        else if Ascii.eqb c "+" then (false, s') else (false, s)
    | EmptyString => (false, s)
    end in
  match body with
  | EmptyString => None
  | _ =>
      n ← parse_digits 0 body;
      let z := if (neg : bool) then (- n)%Z else n in
      if bool_decide (- two63 <= z < two63)%Z then Some z else None
  end.

(** ** Lemmas *)

Lemma str_app_assoc (a b c : string) : (a +:+ b) +:+ c = a +:+ (b +:+ c).
Proof. induction a as [|x a IH]; [done|]. cbn. by f_equal. Qed.

Lemma str_app_nil_r (a : string) : a +:+ "" = a.
Proof. induction a as [|x a IH]; [done|]. cbn. by f_equal. Qed.

Lemma str_length_app (a b : string) : String.length (a +:+ b) = String.length a + String.length b.
Proof. induction a as [|x a IH]; [done|]. cbn. by f_equal. Qed.

Lemma str_take_app (a b : string) : str_take (String.length a) (a +:+ b) = a.
Proof. induction a as [|x a IH]; [done|]. cbn. by f_equal. Qed.

Lemma str_drop_app (a b : string) : str_drop (String.length a) (a +:+ b) = b.
Proof. induction a as [|x a IH]; [done|]. apply IH. Qed.

Lemma str_drop_app_plus (a b : string) n :
  str_drop (String.length a + n) (a +:+ b) = str_drop n b.
Proof. induction a as [|x a IH]; [done|]. apply IH. Qed.

Lemma str_take_drop n s : str_take n s +:+ str_drop n s = s.
Proof. revert s. induction n as [|n IH]; intros [|c s]; cbn; [done..|]. by f_equal. Qed.

Lemma str_app_eq_nil (a b : string) : a +:+ b = "" -> a = "" /\ b = "".
Proof. destruct a; [done|discriminate]. Qed.

#[global] Instance str_app_inj (a : string) : Inj (=) (=) (String.append a).
Proof. intros b c. induction a as [|x a IH]; [done|]. intros [= H]. by apply IH. Qed.

Lemma HasPrefix_spec s p : HasPrefix s p = true <-> exists t, s = p +:+ t.
Proof.
  revert s. induction p as [|a p IH]; intros s.
  - split; [by eexists|done].
  - destruct s as [|b s]; cbn.
    + split; [done|]. by intros [t ?].
    + rewrite andb_true_iff, IH, Ascii.eqb_eq. split.
      * intros [-> [t ->]]. by exists t.
      * intros [t [= -> ->]]. eauto.
Qed.

Lemma HasPrefix_app p t : HasPrefix (p +:+ t) p = true.
Proof. apply HasPrefix_spec. eauto. Qed.

Lemma HasPrefix_length s p : HasPrefix s p = true -> String.length p <= String.length s.
Proof. intros [t ->]%HasPrefix_spec. rewrite str_length_app. lia. Qed.

(** Two prefixes of one string with the same length are the same string. *)
Lemma HasPrefix_same_length s p q :
  HasPrefix s p = true -> HasPrefix s q = true ->
  String.length p = String.length q -> p = q.
Proof.
  revert s q. induction p as [|a p IH]; intros [|c s] [|b q]; cbn; try done.
  rewrite !andb_true_iff, !Ascii.eqb_eq. intros [-> Hp] [-> Hq] [= Hl].
  f_equal. by eapply IH.
Qed.

(** [Contains] as an existential. *)
Lemma Contains_spec s sub : Contains s sub = true <-> exists a b, s = a +:+ (sub +:+ b).
Proof.
  unfold Contains. induction s as [|c s IH]; cbn [Index].
  - destruct (HasPrefix "" sub) eqn:Hp.
    + apply HasPrefix_spec in Hp as [t Ht]. split; [|done]. intros _. by exists "", t.
    + split; [done|]. intros (a & b & Heq). symmetry in Heq.
      apply str_app_eq_nil in Heq as [-> [-> ->]%str_app_eq_nil]. done.
  - destruct (HasPrefix (String c s) sub) eqn:Hp.
    + apply HasPrefix_spec in Hp as [t Ht]. split; [|done]. intros _. by exists "", t.
    + transitivity (match Index s sub with Some _ => true | None => false end = true).
      { by destruct (Index s sub). }
      rewrite IH. split.
      * intros (a & b & ->). by exists (String c a), b.
      * intros ([|x a] & b & Heq).
        -- exfalso. assert (HasPrefix (String c s) sub = true); [|congruence].
           apply HasPrefix_spec. exists b. done.
        -- injection Heq as -> ->. eauto.
Qed.

Lemma Contains_app_l a s sub : Contains s sub = true -> Contains (a +:+ s) sub = true.
Proof. rewrite !Contains_spec. intros (x & y & ->). exists (a +:+ x), y. by rewrite str_app_assoc. Qed.

Lemma Index_None s sub : Index s sub = None <-> Contains s sub = false.
Proof. unfold Contains. by destruct (Index s sub). Qed.

Lemma lower_byte_idem c : lower_byte (lower_byte c) = lower_byte c.
Proof. by destruct c as [[][][][][][][][]]. Qed.

Lemma ToLower_idem s : ToLower (ToLower s) = ToLower s.
Proof. induction s as [|c s IH]; [done|]. cbn. by rewrite lower_byte_idem, IH. Qed.

Lemma str_length_take n s : String.length (str_take n s) = n `min` String.length s.
Proof. revert s. induction n as [|n IH]; intros [|c s]; cbn; try done. by rewrite IH. Qed.

(** ** [Itoa] and [Atoi] *)

Fixpoint all_digits (s : string) : bool :=
  match s with
  | EmptyString => true
  | String c s => match digit_of c with Some _ => all_digits s | None => false end
  end.

Lemma digit_of_pretty x : (x < 10)%N -> digit_of (pretty_N_char x) = Some (Z.of_N x).
Proof.
  intros Hx. assert (x = 0 \/ x = 1 \/ x = 2 \/ x = 3 \/ x = 4 \/ x = 5 \/ x = 6 \/ x = 7 \/ x = 8 \/ x = 9)%N
    as Hcases by lia. repeat destruct Hcases as [->|Hcases]; try reflexivity. by subst.
Qed.

Lemma pretty_N_go_parse x s : parse_digits 0 (pretty_N_go x s) = parse_digits (Z.of_N x) s.
Proof.
  revert s. induction (N.lt_wf_0 x) as [x _ IH]; intros s.
  destruct (decide (x = 0)%N) as [->|Hx]; [by rewrite pretty_N_go_0|].
  rewrite pretty_N_go_step, IH by (try apply N.div_lt; lia). cbn [parse_digits].
  rewrite digit_of_pretty by (apply N.mod_lt; lia). cbn. f_equal.
  rewrite N2Z.inj_div, N2Z.inj_mod. pose proof (Z.div_mod (Z.of_N x) 10). lia.
Qed.

Lemma pretty_N_go_digits x s : all_digits s = true -> all_digits (pretty_N_go x s) = true.
Proof.
  revert s. induction (N.lt_wf_0 x) as [x _ IH]; intros s Hs.
  destruct (decide (x = 0)%N) as [->|Hx]; [by rewrite pretty_N_go_0|].
  rewrite pretty_N_go_step by lia. apply IH; [apply N.div_lt; lia|]. cbn [all_digits].
  by rewrite digit_of_pretty by (apply N.mod_lt; lia).
Qed.

Lemma pretty_N_parse x : parse_digits 0 (pretty x) = Some (Z.of_N x).
Proof.
  unfold pretty, pretty_N. destruct (decide (x = 0)%N) as [->|]; [done|]. by rewrite pretty_N_go_parse.
Qed.

Lemma pretty_N_digits (x : N) : all_digits (pretty x) = true.
Proof. unfold pretty, pretty_N. destruct (decide (x = 0)%N) as [->|]; [done|]. by apply pretty_N_go_digits. Qed.

Lemma Itoa_nonneg z : (0 <= z)%Z -> Itoa z = pretty (Z.to_N z).
Proof. destruct z; done. Qed.

Lemma Atoi_digits s z : all_digits s = true -> s <> "" -> parse_digits 0 s = Some z -> (0 <= z < two63)%Z ->
  Atoi s = Some z.
Proof.
  intros Hd Hs Hp Hz. destruct s as [|c s]; [done|]. unfold Atoi.
  assert (Ascii.eqb c "-" = false) as ->.
  { destruct (Ascii.eqb_spec c "-") as [->|]; [done|done]. }
  assert (Ascii.eqb c "+" = false) as ->.
  { destruct (Ascii.eqb_spec c "+") as [->|]; [done|done]. }
  rewrite Hp. cbn. rewrite bool_decide_eq_true_2; [done|]. unfold two63 in *. lia.
Qed.

Lemma Atoi_Itoa z : (0 <= z < two63)%Z -> Atoi (Itoa z) = Some z.
Proof.
  intros Hz. rewrite Itoa_nonneg by lia. apply Atoi_digits; [apply pretty_N_digits| | |done].
  - intros He. pose proof (pretty_N_parse (Z.to_N z)) as Hp. rewrite He in Hp. cbn in Hp.
    injection Hp as Hp. assert (z = 0)%Z as -> by lia. vm_compute in He. done.
  - rewrite pretty_N_parse. f_equal. lia.
Qed.

(** The first colon after a run of digits ends it. *)
Lemma Index_digits_colon s rest : all_digits s = true -> Index (s +:+ (":" +:+ rest)) ":" = Some (String.length s).
Proof.
  induction s as [|c s IH]; intros Hd; [done|]. cbn [all_digits] in Hd.
  destruct (digit_of c) eqn:Hc; [|done]. change (String c s +:+ ?r) with (String c (s +:+ r)).
  cbn [Index HasPrefix]. rewrite IH by done.
  destruct (Ascii.eqb_spec ":" c) as [<-|]; done.
Qed.

Lemma all_digits_colon s : all_digits s = true -> Contains s ":" = false.
Proof.
  intros Hd. apply not_true_iff_false. intros (a & b & ->)%Contains_spec. induction a as [|c a IH]; cbn in Hd; [done|].
  destruct (digit_of c); [by apply IH|done].
Qed.

Lemma Itoa_colon z : Contains (Itoa z) ":" = false.
Proof.
  destruct z as [|p|p]; [done|apply all_digits_colon, pretty_N_digits|].
  apply not_true_iff_false. intros ([|c a] & b & Heq)%Contains_spec; [done|]. injection Heq as _ Heq.
  pose proof (all_digits_colon _ (pretty_N_digits (Npos p))) as Hn. apply not_true_iff_false in Hn. apply Hn, Contains_spec. by exists a, b.
Qed.

Lemma Itoa_inj z1 z2 : Itoa z1 = Itoa z2 -> z1 = z2.
Proof.
  assert (forall (n : N) s, pretty n = String "-" s -> False) as Hsign.
  { intros n s Hn. pose proof (pretty_N_digits n) as Hd. by rewrite Hn in Hd. }
  destruct z1 as [|p|p], z2 as [|q|q]; cbn; intros Heq; try done;
    try (by injection Heq as Heq%(inj pretty); simplify_eq); try (by apply (inj pretty) in Heq; simplify_eq);
    exfalso; by (eapply Hsign; eauto).
Qed.

(** A suffix without a colon after the last colon is determined. *)
Lemma last_colon a b x y :
  Contains x ":" = false -> Contains y ":" = false -> a +:+ ":" +:+ x = b +:+ ":" +:+ y -> a = b /\ x = y.
Proof.
  intros Hx Hy. revert b. induction a as [|c a IH]; intros [|d b] Heq; cbn in Heq.
  - by injection Heq.
  - injection Heq as <- ->. exfalso. apply not_true_iff_false in Hx. apply Hx, Contains_spec. by exists b, y.
  - injection Heq as -> <-. exfalso. apply not_true_iff_false in Hy. apply Hy, Contains_spec. by exists a, x.
  - injection Heq as -> Heq. by destruct (IH b Heq) as [-> ->].
Qed.

(** The index found splits the string at the separator. *)
Lemma Index_Some_split s sub i : Index s sub = Some i -> s = str_take i s +:+ (sub +:+ str_drop (i + String.length sub) s).
Proof.
  revert i. induction s as [|c s IH]; intros i; cbn [Index].
  - destruct (HasPrefix "" sub) eqn:Hp; [|done]. intros [= <-].
    apply HasPrefix_spec in Hp as [t Ht]. symmetry in Ht. apply str_app_eq_nil in Ht as [-> ->]. done.
  - destruct (HasPrefix (String c s) sub) eqn:Hp.
    + intros [= <-]. apply HasPrefix_spec in Hp as [t ->]. cbn. by rewrite str_drop_app.
    + destruct (Index s sub) as [j|]; [|done]. intros [= <-]. cbn. f_equal. by apply IH.
Qed.

(** ** Separators *)

Lemma LastIndex_None s sub : LastIndex s sub = None <-> Contains s sub = false.
Proof.
  unfold Contains. induction s as [|c s IH]; cbn [LastIndex Index].
  - by destruct (HasPrefix "" sub).
  - destruct (LastIndex s sub) as [i|], (HasPrefix (String c s) sub), (Index s sub); cbn; naive_solver.
Qed.

Lemma LastIndex_app a s sub i : LastIndex s sub = Some i -> LastIndex (a +:+ s) sub = Some (String.length a + i).
Proof. intros H. induction a as [|c a IH]; [done|]. change (String c a +:+ s) with (String c (a +:+ s)). cbn [LastIndex]. by rewrite IH. Qed.

(** The last double colon before a tail that neither has one nor makes one
    with the separator. *)
Lemma LastIndex_sep a m : Contains (":" +:+ m) "::" = false -> LastIndex (a +:+ ("::" +:+ m)) "::" = Some (String.length a).
Proof.
  intros Hm. rewrite (LastIndex_app a _ _ 0); [f_equal; lia|].
  apply LastIndex_None in Hm. change ("::" +:+ m) with (String ":" (":" +:+ m)). cbn [LastIndex]. by rewrite Hm.
Qed.

(** The first double colon after a head that neither has one nor makes one
    with the separator. *)
Lemma Index_sep p m : Contains (p +:+ ":") "::" = false -> Index (p +:+ ("::" +:+ m)) "::" = Some (String.length p).
Proof.
  induction p as [|c p IH]; intros Hp; [done|].
  change (String c p +:+ ?r) with (String c (p +:+ r)) in *. unfold Contains in Hp. cbn [Index] in *.
  assert (HasPrefix (String c (p +:+ ("::" +:+ m))) "::" = HasPrefix (String c (p +:+ ":")) "::") as ->.
  { destruct p as [|d p]; reflexivity. }
  destruct (HasPrefix (String c (p +:+ ":")) "::"); [done|].
  rewrite IH; [done|]. unfold Contains. by destruct (Index (p +:+ ":") "::").
Qed.
