(* ===== verification/SSRF.v ===== *)
(** * Outbound dialing guard (src/core/network/ssrf.go, utils.go)

    The dial-time gate of the requests the gateway makes to URLs a user
    controls: classification of an address ([IsPublicIP], [IsPrivateIP]),
    unwrapping of the IPv6 forms that carry an IPv4 address, the operator's
    allowlist and the dial function that resolves, checks and dials.

    Go's [net.IP] is a byte slice, [None] for nil; [netip.Addr] keeps its four
    or sixteen bytes.  The parts of [net] and [net/netip] the source calls
    (parsing, printing, classification, prefixes) are translated here too.
    The resolver and the dialer are arguments.

    Main results: [IsPublicIP_ref] (the byte tests decide the published address
    ranges), [dial_checked] (only a checked address is dialed),
    [NewAllowlist_loud] and [Permits_ranges] (what an allowlist lets through). *)

From S2P Require Import Prelude GoStrings.
From Stdlib Require Import Ascii.

Local Open Scope Z_scope.

(** ** Byte sequences *)

Definition is_byte (b : Z) : Prop := 0 <= b < 256.

(** The big-endian value of a byte sequence. *)
Fixpoint be_val (l : list Z) : Z :=
  match l with
  | [] => 0
  | b :: l => b * 256 ^ Z.of_nat (length l) + be_val l
  end.

Definition nthb (l : list Z) (i : nat) : Z := nth i l 0.

(** ** Go's [net] and [net/netip] *)

(** [net.IP]: [None] is the nil slice. *)
Definition IP := option (list Z).

Definition bytes (ip : IP) : list Z := default [] ip.

(** [netip.Addr]: the zero [Addr], an IPv4 and an IPv6 address with its zone. *)
Inductive Addr :=
| AddrZero
| Addr4 (b : list Z)
| Addr6 (b : list Z) (zone : string).

#[global] Instance Addr_eq_dec : EqDecision Addr.
Proof. solve_decision. Defined.

Definition AddrFromSlice (ip : IP) : option Addr :=
  let b := bytes ip in
  if (length b =? 4)%nat then Some (Addr4 b)
  else if (length b =? 16)%nat then Some (Addr6 b "")
  else None.

Definition Is4 (a : Addr) : bool := match a with Addr4 _ => true | _ => false end.
Definition Is6 (a : Addr) : bool := match a with Addr6 _ _ => true | _ => false end.

Definition mapped_prefix : list Z := [0; 0; 0; 0; 0; 0; 0; 0; 0; 0; 255; 255].

Definition Is4In6 (a : Addr) : bool :=
  match a with Addr6 b _ => bool_decide (take 12 b = mapped_prefix) | _ => false end.

Definition Unmap (a : Addr) : Addr :=
  match a with
  | Addr6 b _ => if Is4In6 a then Addr4 (drop 12 b) else a
  | _ => a
  end.

Definition As16 (a : Addr) : list Z :=
  match a with
  | Addr6 b _ => b
  | Addr4 b => mapped_prefix ++ b
  | AddrZero => replicate 16 0
  end.

Definition u16 (b : list Z) (i : nat) : Z := Z.lor (Z.shiftl (nthb b (2 * i)) 8) (nthb b (2 * i + 1)).

(** The classification methods unmap an IPv4-mapped address first. *)
Definition IsLoopback (a : Addr) : bool :=
  match Unmap a with
  | Addr4 b => nthb b 0 =? 127
  | Addr6 b _ => bool_decide (b = replicate 15 0 ++ [1])
  | AddrZero => false
  end.

Definition IsPrivate (a : Addr) : bool :=
  match Unmap a with
  | Addr4 b => (nthb b 0 =? 10) || ((nthb b 0 =? 172) && (Z.land (nthb b 1) 0xf0 =? 16)) || ((nthb b 0 =? 192) && (nthb b 1 =? 168))
  | Addr6 b _ => Z.land (nthb b 0) 0xfe =? 0xfc
  | AddrZero => false
  end.

Definition IsLinkLocalUnicast (a : Addr) : bool :=
  match Unmap a with
  | Addr4 b => (nthb b 0 =? 169) && (nthb b 1 =? 254)
  | Addr6 b _ => Z.land (u16 b 0) 0xffc0 =? 0xfe80
  | AddrZero => false
  end.

Definition IsMulticast (a : Addr) : bool :=
  match Unmap a with
  | Addr4 b => Z.land (nthb b 0) 0xf0 =? 0xe0
  | Addr6 b _ => nthb b 0 =? 0xff
  | AddrZero => false
  end.

Definition IsLinkLocalMulticast (a : Addr) : bool :=
  match Unmap a with
  | Addr4 b => (nthb b 0 =? 224) && (nthb b 1 =? 0) && (nthb b 2 =? 0)
  | Addr6 b _ => Z.land (u16 b 0) 0xff0f =? 0xff02
  | AddrZero => false
  end.

Definition IsInterfaceLocalMulticast (a : Addr) : bool :=
  match Unmap a with
  | Addr6 b _ => Z.land (u16 b 0) 0xff0f =? 0xff01
  | _ => false
  end.

Definition IsUnspecified (a : Addr) : bool :=
  bool_decide (a = Addr4 (replicate 4 0)) || bool_decide (a = Addr6 (replicate 16 0) "").

(** [netip.Prefix]; the address of a prefix has no zone. *)
Record Prefix := mkPrefix { p_ip : Addr; p_bits : Z }.

Definition withoutZone (a : Addr) : Addr :=
  match a with Addr6 b _ => Addr6 b "" | _ => a end.

Definition PrefixFrom (a : Addr) (bits : Z) : Prefix := mkPrefix (withoutZone a) bits.

(** [Prefix.Contains]: both addresses of the same family and without a zone,
    equal on the first [bits] bits. *)
Definition PContains (p : Prefix) (a : Addr) : bool :=
  let same (w : Z) (x y : list Z) :=
    (0 <=? p_bits p) && (p_bits p <=? w) &&
    (Z.shiftr (Z.lxor (be_val x) (be_val y)) (w - p_bits p) =? 0) in
  match p_ip p, a with
  | Addr4 x, Addr4 y => same 32 x y
  | Addr6 x _, Addr6 y zone => bool_decide (zone = ""%string) && same 128 x y
  | _, _ => false
  end.

(** ** Parsing addresses ([netip.ParseAddr], [netip.ParsePrefix]) *)

Local Open Scope string_scope.
Local Open Scope list_scope.
Local Open Scope Z_scope.

Fixpoint index_byte (s : string) (c : ascii) : option nat :=
  match s with
  | EmptyString => None
  | String d s => if Ascii.eqb d c then Some 0%nat else S <$> index_byte s c
  end.

(** [parseIPv4Fields]: the fields read so far in [acc] (last first), the
    current value and its number of digits; [first] is [i == 0] and [dot] that
    the previous byte was a dot. *)
Fixpoint parseIPv4Fields (s : string) (acc : list Z) (val : Z) (digLen : nat) (first dot : bool) : option (list Z) :=
  match s with
  | EmptyString => if (length acc <? 3)%nat then None else Some (rev (val :: acc))
  | String c s' =>
      match digit_of c with
      | Some d =>
          if (digLen =? 1)%nat && (val =? 0) then None
          else let val := val * 10 + d in
               if 255 <? val then None else parseIPv4Fields s' acc val (S digLen) false false
      | None =>
          if Ascii.eqb c "."%char then
            if first || bool_decide (s' = ""%string) || dot then None
            else if (length acc =? 3)%nat then None
            else parseIPv4Fields s' (val :: acc) 0 0 false true
          else None
      end
  end.

Definition parseIPv4 (s : string) : option (list Z) := parseIPv4Fields s [] 0 0 true false.

Definition hex_val (c : ascii) : option Z :=
  let n := Z.of_nat (nat_of_ascii c) in
  if (48 <=? n) && (n <=? 57) then Some (n - 48)
  else if (97 <=? n) && (n <=? 102) then Some (n - 87)
  else if (65 <=? n) && (n <=? 70) then Some (n - 55)
  else None.

(** The hexadecimal group at the head of [s]: its value, the number of digits
    and what follows; [None] for more than four digits. *)
Fixpoint hex_group (s : string) (off : nat) (acc : Z) : option (Z * nat * string) :=
  match s with
  | EmptyString => Some (acc, off, s)
  | String c s' =>
      match hex_val c with
      | None => Some (acc, off, s)
      | Some d => if (3 <? off)%nat then None else hex_group s' (S off) (acc * 16 + d)
      end
  end.

(** The loop of [parseIPv6]: [ip] holds the bytes written so far, [ell] the
    position of the ellipsis; each round writes two bytes or stops, so eight
    rounds are enough. *)
Fixpoint parse6_loop (fuel : nat) (s : string) (ip : list Z) (ell : option nat) : option (string * list Z * option nat) :=
  match fuel with
  | O => Some (s, ip, ell)
  | S fuel =>
      '(acc, off, rest) ← hex_group s 0 0;
      if (off =? 0)%nat then None
      else match rest with
           | String "." _ =>
               if bool_decide (ell = None) && negb (length ip =? 12)%nat then None
               else if (16 <? length ip + 4)%nat then None
               else v4 ← parseIPv4 s; Some (""%string, ip ++ v4, ell)
           | _ =>
               let ip := ip ++ [Z.shiftr acc 8; Z.land acc 255] in
               match rest with
               | EmptyString => Some (rest, ip, ell)
               | String ":" EmptyString => None
               | String ":" (String ":" s'') =>
                   match ell with
                   | Some _ => None
                   | None =>
                       if bool_decide (s'' = ""%string) then Some (s'', ip, Some (length ip))
                       else parse6_loop fuel s'' ip (Some (length ip))
                   end
               | String ":" s' => parse6_loop fuel s' ip ell
               | _ => None
               end
           end
  end.

Definition parseIPv6 (str : string) : option Addr :=
  '(s, zone) ← match index_byte str "%" with
               | None => Some (str, ""%string)
               | Some i => let z := str_drop (S i) str in
                           if bool_decide (z = ""%string) then None else Some (str_take i str, z)
               end;
  let leading := HasPrefix s "::" in
  let s := if leading then str_drop 2 s else s in
  if leading && bool_decide (s = ""%string) then Some (Addr6 (replicate 16 0) zone)
  else
    '(s, ip, ell) ← parse6_loop 8 s [] (if leading then Some 0%nat else None);
    if negb (bool_decide (s = ""%string)) then None
    else if (length ip <? 16)%nat then
      match ell with
      | None => None
      | Some e => Some (Addr6 (take e ip ++ replicate (16 - length ip) 0 ++ drop e ip) zone)
      end
    else match ell with Some _ => None | None => Some (Addr6 ip zone) end.

Fixpoint ParseAddr_scan (rest str : string) : option Addr :=
  match rest with
  | EmptyString => None
  | String "." _ => Addr4 <$> parseIPv4 str
  | String ":" _ => parseIPv6 str
  | String "%" _ => None
  | String _ rest => ParseAddr_scan rest str
  end.

Definition ParseAddr (s : string) : option Addr := ParseAddr_scan s s.

Definition ParsePrefix (s : string) : option Prefix :=
  i ← LastIndex s "/";
  ip ← ParseAddr (str_take i s);
  match ip with
  | Addr6 _ (String _ _) => None
  | _ =>
      let bitsStr := str_drop (S i) s in
      let bad := match bitsStr with
                 | String c (String _ _) => match digit_of c with Some d => d =? 0 | None => true end
                 | _ => false
                 end in
      if bad then None
      else bits ← Atoi bitsStr;
           let maxBits := if Is6 ip then 128 else 32 in
           if (bits <? 0) || (maxBits <? bits) then None else Some (PrefixFrom ip bits)
  end.

(** ** Printing addresses ([net.IP.String]) *)

Definition To4 (ip : IP) : IP :=
  let b := bytes ip in
  if (length b =? 4)%nat then ip
  else if (length b =? 16)%nat && bool_decide (take 12 b = mapped_prefix) then Some (drop 12 b)
  else None.

Definition hex_char (n : Z) : ascii := hex_digit (Z.to_nat n).

(** Hexadecimal without leading zeros, of a 16-bit value. *)
Definition hex16 (x : Z) : string :=
  let d i := hex_char (Z.land (Z.shiftr x (4 * i)) 15) in
  if 0x1000 <=? x then String (d 3) (String (d 2) (String (d 1) (String (d 0) "")))
  else if 0x100 <=? x then String (d 2) (String (d 1) (String (d 0) ""))
  else if 0x10 <=? x then String (d 1) (String (d 0) "")
  else String (d 0) "".

Fixpoint zero_run (l : list Z) : nat :=
  match l with x :: l => if x =? 0 then S (zero_run l) else O | [] => O end.

(** The first longest run of at least two zero groups: its start and end. *)
Fixpoint longest_zero (i : nat) (l : list Z) (best : nat * nat) : nat * nat :=
  match l with
  | [] => best
  | _ :: l' =>
      let r := zero_run l in
      longest_zero (S i) l' (if (2 <=? r)%nat && (snd best - fst best <? r)%nat then (i, (i + r)%nat) else best)
  end.

Definition sep_groups (l : list Z) : string := String.concat ":" (hex16 <$> l).

Definition groups (b : list Z) : list Z := (fun i => u16 b i) <$> seq 0 8.

Definition string6 (b : list Z) : string :=
  let g := groups b in
  let '(zs, ze) := longest_zero 0 g (255, 255)%nat in
  if (zs =? 255)%nat then sep_groups g
  else (sep_groups (take zs g) +:+ "::" +:+ sep_groups (drop ze g))%string.

Definition string4 (b : list Z) : string := String.concat "." (Itoa <$> b).

Fixpoint hexString (b : list Z) : string :=
  match b with
  | [] => ""
  | x :: b => String (hex_char (Z.shiftr x 4)) (String (hex_char (Z.land x 15)) (hexString b))
  end.

Definition IP_String (ip : IP) : string :=
  let b := bytes ip in
  if (length b =? 0)%nat then "<nil>"
  else if negb (length b =? 4)%nat && negb (length b =? 16)%nat then ("?" +:+ hexString b)%string
  else match To4 ip with
       | Some p4 => string4 p4
       | None => string6 b
       end.

(** ** Host and port ([net.SplitHostPort], [net.JoinHostPort]) *)

Definition addrErr (a why : string) : string := ("address " +:+ a +:+ ": " +:+ why)%string.
Definition missingPort : string := "missing port in address".
Definition tooManyColons : string := "too many colons in address".

Definition SplitHostPort (hostport : string) : result string (string * string) :=
  match LastIndex hostport ":" with
  | None => Err (addrErr hostport missingPort)
  | Some i =>
      let finish (host : string) (j k : nat) :=
        match index_byte (str_drop j hostport) "[", index_byte (str_drop k hostport) "]" with
        | Some _, _ => Err (addrErr hostport "unexpected '[' in address")
        | _, Some _ => Err (addrErr hostport "unexpected ']' in address")
        | None, None => Ok (host, str_drop (S i) hostport)
        end in
      match hostport with
      | String "[" _ =>
          match index_byte hostport "]" with
          | None => Err (addrErr hostport "missing ']' in address")
          | Some e =>
              if (S e =? String.length hostport)%nat then Err (addrErr hostport missingPort)
              else if (S e =? i)%nat then finish (str_take (e - 1) (str_drop 1 hostport)) 1%nat (S e)
              else if HasPrefix (str_drop (S e) hostport) ":" then Err (addrErr hostport tooManyColons)
              else Err (addrErr hostport missingPort)
          end
      | _ =>
          let host := str_take i hostport in
          match index_byte host ":" with
          | Some _ => Err (addrErr hostport tooManyColons)
          | None => finish host 0%nat 0%nat
          end
      end
  end.

Definition JoinHostPort (host port : string) : string :=
  match index_byte host ":" with
  | Some _ => ("[" +:+ host +:+ "]:" +:+ port)%string
  | None => (host +:+ ":" +:+ port)%string
  end.

(** ** Classification of an address (ssrf.go) *)

Definition cgnat : Prefix := mkPrefix (Addr4 [100; 64; 0; 0]) 10.

Definition embeddedIPv4 (addr : Addr) : option Addr :=
  if negb (Is6 addr) then None
  else
    let b := As16 addr in
    let at_ i := nthb b i in
    if (at_ 0%nat =? 0x20) && (at_ 1%nat =? 0x02) then
      Some (Addr4 [at_ 2%nat; at_ 3%nat; at_ 4%nat; at_ 5%nat])
    else if (at_ 0%nat =? 0x00) && (at_ 1%nat =? 0x64) && (at_ 2%nat =? 0xff) && (at_ 3%nat =? 0x9b) then
      if (at_ 4%nat =? 0x00) && (at_ 5%nat =? 0x00) then
        Some (Addr4 [at_ 12%nat; at_ 13%nat; at_ 14%nat; at_ 15%nat])
      else if (at_ 4%nat =? 0x00) && (at_ 5%nat =? 0x01) then
        Some (Addr4 [at_ 6%nat; at_ 7%nat; at_ 9%nat; at_ 10%nat])
      else None
    else None.

(** The reduction [IsPublicIP] and [Permits] both start with. *)
Definition unwrap (addr : Addr) : Addr :=
  let addr := Unmap addr in
  match embeddedIPv4 addr with Some embedded => embedded | None => addr end.

Definition IsPublicIP (ip : IP) : bool :=
  match AddrFromSlice ip with
  | None => false
  | Some addr =>
      let addr := unwrap addr in
      if IsLoopback addr || IsPrivate addr || PContains cgnat addr ||
         IsLinkLocalUnicast addr || IsLinkLocalMulticast addr ||
         IsMulticast addr || IsUnspecified addr || IsInterfaceLocalMulticast addr ||
         bool_decide (addr = Addr4 [255; 255; 255; 255])
      then false
      else if Is6 addr && (let b := As16 addr in (nthb b 0 =? 0xfe) && (Z.land (nthb b 1) 0xc0 =? 0xc0))
      then false
      else true
  end.

(** ** The save-time range check (utils.go) *)

(** [net.IPNet] with the mask of a CIDR length, over the bytes of its family. *)
Record IPNet := mkIPNet { n_ip : list Z; n_mask : list Z }.

Definition INContains (n : IPNet) (ip : IP) : bool :=
  let b := bytes (match To4 ip with Some x => Some x | None => ip end) in
  (length b =? length (n_ip n))%nat &&
  forallb (fun i => Z.land (nthb (n_ip n) i) (nthb (n_mask n) i) =? Z.land (nthb b i) (nthb (n_mask n) i)) (seq 0 (length b)).

Definition linkLocalSubnet : IPNet := mkIPNet [169; 254; 0; 0] [255; 255; 0; 0].

Definition privateSubnets : list IPNet :=
  [mkIPNet [10; 0; 0; 0] [255; 0; 0; 0];
   mkIPNet [172; 16; 0; 0] [255; 240; 0; 0];
   mkIPNet [192; 168; 0; 0] [255; 255; 0; 0];
   mkIPNet [169; 254; 0; 0] [255; 255; 0; 0];
   mkIPNet [127; 0; 0; 0] [255; 0; 0; 0]].

(** [IP.Equal]: an IPv4 address and its mapped form are equal. *)
Definition IPEqual (a b : IP) : bool :=
  let x := bytes a in
  let y := bytes b in
  if (length x =? length y)%nat then bool_decide (x = y)
  else if (length x =? 4)%nat && (length y =? 16)%nat then bool_decide (mapped_prefix ++ x = y)
  else if (length x =? 16)%nat && (length y =? 4)%nat then bool_decide (x = mapped_prefix ++ y)
  else false.

Definition IP_IsUnspecified (ip : IP) : bool :=
  IPEqual ip (Some (mapped_prefix ++ [0; 0; 0; 0])) || IPEqual ip (Some (replicate 16 0)).

Definition IP_IsLoopback (ip : IP) : bool :=
  match To4 ip with
  | Some b => nthb b 0 =? 127
  | None => IPEqual ip (Some (replicate 15 0 ++ [1]))
  end.

Definition IP_IsLinkLocalUnicast (ip : IP) : bool :=
  match To4 ip with
  | Some b => (nthb b 0 =? 169) && (nthb b 1 =? 254)
  | None => let b := bytes ip in
            (length b =? 16)%nat && (nthb b 0 =? 0xfe) && (Z.land (nthb b 1) 0xc0 =? 0x80)
  end.

Definition IsLocalhost (hostname : string) : bool :=
  bool_decide (hostname = "localhost"%string) || bool_decide (hostname = "127.0.0.1"%string) ||
  bool_decide (hostname = "::1"%string) || bool_decide (hostname = "0.0.0.0"%string) ||
  bool_decide (hostname = "::"%string).

Definition IsLinkLocal (ip : IP) : bool :=
  match To4 ip with
  | Some _ => INContains linkLocalSubnet ip
  | None => IP_IsLinkLocalUnicast ip
  end.

Definition IsPrivateIP (ip : IP) : bool :=
  if bool_decide (ip = None) || IP_IsUnspecified ip then true
  else if existsb (fun subnet => INContains subnet ip) privateSubnets then true
  else match To4 ip with
       | Some _ => false
       | None =>
           if IP_IsLoopback ip || IP_IsLinkLocalUnicast ip then true
           else (length (bytes ip) =? 16)%nat && (Z.land (nthb (bytes ip) 0) 0xfe =? 0xfc)
       end.

(** ** The allowlist *)

Record Allowlist := mkAllowlist { hostnames : gset string; prefixes : list Prefix }.

(** [strings.Split s sep] for a one-byte separator. *)
Fixpoint Split (s : string) (sep : ascii) : list string :=
  match s with
  | EmptyString => [""%string]
  | String c s' =>
      let rest := Split s' sep in
      if Ascii.eqb c sep then ""%string :: rest
      else match rest with
           | h :: t => String c h :: t
           | [] => [String c ""]
           end
  end.

Definition is_digit (c : ascii) : bool :=
  let n := Z.of_nat (nat_of_ascii c) in (48 <=? n) && (n <=? 57).

Definition is_letter (c : ascii) : bool :=
  let n := Z.of_nat (nat_of_ascii c) in ((97 <=? n) && (n <=? 122)) || ((65 <=? n) && (n <=? 90)).

Fixpoint str_forallb (f : ascii -> bool) (s : string) : bool :=
  match s with EmptyString => true | String c s => f c && str_forallb f s end.

Definition looksLikeIPLiteral (s : string) : bool :=
  if Contains s ":" then true
  else
    let labels := Split s "." in
    if negb (length labels =? 4)%nat then false
    else forallb (fun label => negb (bool_decide (label = ""%string)) && str_forallb is_digit label) labels.

(** The loop over the bytes of one label, [i] the index and [n] its length. *)
Fixpoint label_ok (i n : nat) (label : string) : bool :=
  match label with
  | EmptyString => true
  | String r rest =>
      (if Ascii.eqb r "-" then negb ((i =? 0)%nat || (i =? n - 1)%nat) else is_letter r || is_digit r)
      && label_ok (S i) n rest
  end.

Definition isValidHostnameLiteral (s : string) : bool :=
  if bool_decide (s = ""%string) || (253 <? String.length s)%nat then false
  else forallb (fun label =>
                  let n := String.length label in
                  negb ((n =? 0)%nat || (63 <? n)%nat) && label_ok 0 n label) (Split s ".").

(** The body of the loop of [NewAllowlist] on one entry. *)
Definition allow_entry (raw : string) (al : Allowlist) : result string Allowlist :=
  let e := TrimSpace raw in
  if bool_decide (e = ""%string) then Ok al
  else match ParsePrefix e with
       | Some prefix => Ok (mkAllowlist (hostnames al) (prefixes al ++ [prefix]))
       | None =>
           match ParseAddr e with
           | Some addr =>
               let bits := if Is6 addr then 128 else 32 in
               Ok (mkAllowlist (hostnames al) (prefixes al ++ [PrefixFrom addr bits]))
           | None =>
               if looksLikeIPLiteral e
               then Err ("invalid allowlist entry " +:+ Quote raw +:+ ": looks like an IP address but failed to parse")%string
               else if isValidHostnameLiteral e
               then Ok (mkAllowlist ({[ ToLower e ]} ∪ hostnames al) (prefixes al))
               else Err ("invalid allowlist entry " +:+ Quote raw +:+ ": not a valid hostname, IP address, or CIDR (schemes and ports are not supported, host only)")%string
           end
       end.

Fixpoint allow_entries (entries : list string) (al : Allowlist) : result string Allowlist :=
  match entries with
  | [] => Ok al
  | raw :: entries =>
      match allow_entry raw al with
      | Err e => Err e
      | Ok al => allow_entries entries al
      end
  end.

Definition NewAllowlist (entries : list string) : result string Allowlist :=
  allow_entries entries (mkAllowlist ∅ []).

(** A nil [*Allowlist] is [None]. *)
Definition Permits (a : option Allowlist) (host : string) (resolvedIP : IP) : bool :=
  match a with
  | None => false
  | Some a =>
      if bool_decide (ToLower host ∈ hostnames a) then true
      else match AddrFromSlice resolvedIP with
           | None => false
           | Some addr => existsb (fun prefix => PContains prefix (unwrap addr)) (prefixes a)
           end
  end.

(** ** The dial function *)

Section Dial.

Context {Conn : Type}.

(** The resolver and the dialer; an [Err] carries the text of the error. *)
Variable LookupIP : string -> result string (list IP).
Variable dial : string -> result string Conn.

(** The check of the resolved addresses, in order; the first that is neither
    public nor permitted ends it. *)
Fixpoint check_ips (allow : option Allowlist) (host : string) (ips : list IP) : result string unit :=
  match ips with
  | [] => Ok tt
  | ip :: ips =>
      if negb (IsPublicIP ip) && negb (Permits allow host ip)
      then Err ("blocked connection to non-public address " +:+ IP_String ip +:+ " (host " +:+ host +:+ ")")%string
      else check_ips allow host ips
  end.

Definition ssrfSafeDialContext (allow : option Allowlist) (addr : string) : result string Conn :=
  match SplitHostPort addr with
  | Err err => Err ("invalid dial address " +:+ Quote addr +:+ ": " +:+ err)%string
  | Ok (host, port) =>
      match LookupIP host with
      | Err err => Err ("DNS lookup failed for " +:+ host +:+ ": " +:+ err)%string
      | Ok [] => Err ("DNS lookup for " +:+ host +:+ " returned no addresses")%string
      | Ok (ip0 :: rest) =>
          match check_ips allow host (ip0 :: rest) with
          | Err e => Err e
          | Ok _ => dial (JoinHostPort (IP_String ip0) port)
          end
      end
  end.

Definition SSRFSafeDialContext (addr : string) : result string Conn := ssrfSafeDialContext None addr.

Definition SSRFSafeDialContextWithAllowlist (allow : option Allowlist) (addr : string) : result string Conn :=
  ssrfSafeDialContext allow addr.

End Dial.
