(* ===== verification/SSRFTheory.v ===== *)
(** * Properties of the dialing guard

    The byte tests of [IsPublicIP] against a reference written with the
    published address ranges, the relation of the two checks, what an allowlist
    lets through, and the safety of the dial function. *)

From S2P Require Import Prelude GoStrings SSRF.
From Stdlib Require Import Ascii ZifyBool Btauto.

Local Open Scope Z_scope.

(** ** Reference: address ranges *)

(** A range of addresses: its first address and its size. *)
Definition in_block (v : Z) (b : Z * Z) : bool := (fst b <=? v) && (v <? fst b + snd b).

Definition ip4 (a b c d : Z) : Z := a * 2 ^ 24 + b * 2 ^ 16 + c * 2 ^ 8 + d.

(** 10/8, 172.16/12, 192.168/16 (RFC 1918), 127/8 (loopback), 100.64/10
    (RFC 6598), 169.254/16 (link-local), 224/4 (multicast), unspecified and
    limited broadcast. *)
Definition blocked4 : list (Z * Z) :=
  [(ip4 10 0 0 0, 2 ^ 24); (ip4 172 16 0 0, 2 ^ 20); (ip4 192 168 0 0, 2 ^ 16);
   (ip4 127 0 0 0, 2 ^ 24); (ip4 100 64 0 0, 2 ^ 22); (ip4 169 254 0 0, 2 ^ 16);
   (ip4 224 0 0 0, 2 ^ 28); (ip4 0 0 0 0, 1); (ip4 255 255 255 255, 1)].

(** ::/128, ::1/128, fc00::/7 (unique local), fe80::/10 (link-local), fec0::/10
    (site-local) and ff00::/8 (multicast). *)
Definition blocked6 : list (Z * Z) :=
  [(0, 1); (1, 1); (0xfc * 2 ^ 120, 2 ^ 121); (0xfe80 * 2 ^ 112, 2 ^ 118);
   (0xfec0 * 2 ^ 112, 2 ^ 118); (0xff * 2 ^ 120, 2 ^ 120)].

(** The IPv4 address a 128-bit address carries: IPv4-mapped (::ffff:0:0/96),
    6to4 (2002::/16), NAT64 (64:ff9b::/48 and 64:ff9b:1::/48). *)
Definition carried (v : Z) : option Z :=
  if in_block v (0xffff * 2 ^ 32, 2 ^ 32) then Some (v mod 2 ^ 32)
  else if in_block v (0x2002 * 2 ^ 112, 2 ^ 112) then Some ((v / 2 ^ 80) mod 2 ^ 32)
  else if in_block v (0x64ff9b0000 * 2 ^ 80, 2 ^ 80) then Some (v mod 2 ^ 32)
  else if in_block v (0x64ff9b0001 * 2 ^ 80, 2 ^ 80) then
    Some ((v / 2 ^ 64) mod 2 ^ 16 * 2 ^ 16 + (v / 2 ^ 40) mod 2 ^ 16)
  else None.

Definition public4 (v : Z) : bool := negb (existsb (in_block v) blocked4).
Definition public6 (v : Z) : bool := negb (existsb (in_block v) blocked6).

Definition public_ref (ip : IP) : bool :=
  let b := bytes ip in
  if (length b =? 4)%nat then public4 (be_val b)
  else if (length b =? 16)%nat then
    match carried (be_val b) with
    | Some w => public4 w
    | None => public6 (be_val b)
    end
  else false.

(** ** Byte sequences as numbers *)

Lemma be_val_range l : Forall is_byte l -> 0 <= be_val l < 256 ^ Z.of_nat (length l).
Proof.
  induction 1 as [|b l Hb Hl IH]; [done|]. cbn [be_val length]. unfold is_byte in Hb.
  rewrite Nat2Z.inj_succ, Z.pow_succ_r by lia. nia.
Qed.

Lemma be_val_app l1 l2 : be_val (l1 ++ l2) = be_val l1 * 256 ^ Z.of_nat (length l2) + be_val l2.
Proof.
  induction l1 as [|b l1 IH]; [done|]. cbn [be_val app]. rewrite IH, length_app, Nat2Z.inj_add, Z.pow_add_r by lia. lia.
Qed.

(** Every window of a byte sequence is a quotient and a remainder of its value. *)
Lemma be_val_window p m s : Forall is_byte (p ++ m ++ s) ->
  be_val m = (be_val (p ++ m ++ s) / 256 ^ Z.of_nat (length s)) mod 256 ^ Z.of_nat (length m).
Proof.
  intros [_ [Hm Hs]%Forall_app]%Forall_app.
  apply be_val_range in Hm, Hs. rewrite !be_val_app, length_app, Nat2Z.inj_add, Z.pow_add_r by lia.
  set (S := 256 ^ Z.of_nat (length s)) in *. set (M := 256 ^ Z.of_nat (length m)) in *.
  replace (be_val p * (M * S) + (be_val m * S + be_val s)) with ((be_val p * M + be_val m) * S + be_val s) by lia.
  rewrite Z.div_add_l, Z.div_small, Z.add_0_r, Z.add_comm, Z.mod_add, Z.mod_small by lia. done.
Qed.

(** Tests of one or of two bytes, by evaluation on all of them. *)
Lemma byte_all (f : Z -> bool) : forallb f (seqZ 0 256) = true -> forall x, is_byte x -> f x = true.
Proof. intros Hf x Hx. rewrite forallb_forall in Hf. apply Hf, list_elem_of_In, elem_of_seqZ. unfold is_byte in Hx. lia. Qed.

Lemma byte_eq (f g : Z -> bool) : forallb (fun x => Bool.eqb (f x) (g x)) (seqZ 0 256) = true ->
  forall x, is_byte x -> f x = g x.
Proof. intros H x Hx. apply Bool.eqb_prop, (byte_all (fun x => Bool.eqb (f x) (g x)) H x Hx). Qed.

Lemma byte2_eq (f g : Z -> Z -> bool) :
  forallb (fun x => forallb (fun y => Bool.eqb (f x y) (g x y)) (seqZ 0 256)) (seqZ 0 256) = true ->
  forall x y, is_byte x -> is_byte y -> f x y = g x y.
Proof.
  intros H x y Hx Hy. apply (byte_eq (f x) (g x)); [|done].
  apply (byte_all (fun x => forallb (fun y => Bool.eqb (f x y) (g x y)) (seqZ 0 256)) H x Hx).
Qed.

Lemma land_f0_10 x : is_byte x -> (Z.land x 0xf0 =? 16) = ((16 <=? x) && (x <? 32)).
Proof. by apply (byte_eq (fun x => Z.land x 0xf0 =? 16) (fun x => (16 <=? x) && (x <? 32))); vm_compute. Qed.

Lemma land_f0_e0 x : is_byte x -> (Z.land x 0xf0 =? 0xe0) = ((224 <=? x) && (x <? 240)).
Proof. by apply (byte_eq (fun x => Z.land x 0xf0 =? 0xe0) (fun x => (224 <=? x) && (x <? 240))); vm_compute. Qed.

Lemma land_fe x : is_byte x -> (Z.land x 0xfe =? 0xfc) = ((0xfc <=? x) && (x <? 0xfe)).
Proof. by apply (byte_eq (fun x => Z.land x 0xfe =? 0xfc) (fun x => (0xfc <=? x) && (x <? 0xfe))); vm_compute. Qed.

Lemma land_c0 x : is_byte x -> (Z.land x 0xc0 =? 0xc0) = (0xc0 <=? x).
Proof. by apply (byte_eq (fun x => Z.land x 0xc0 =? 0xc0) (fun x => 0xc0 <=? x)); vm_compute. Qed.

Lemma land_c0_80 x : is_byte x -> (Z.land x 0xc0 =? 0x80) = ((0x80 <=? x) && (x <? 0xc0)).
Proof. by apply (byte_eq (fun x => Z.land x 0xc0 =? 0x80) (fun x => (0x80 <=? x) && (x <? 0xc0))); vm_compute. Qed.

Lemma land_ffc0 x y : is_byte x -> is_byte y ->
  (Z.land (Z.lor (Z.shiftl x 8) y) 0xffc0 =? 0xfe80) = ((x =? 0xfe) && (0x80 <=? y) && (y <? 0xc0)).
Proof.
  by apply (byte2_eq (fun x y => Z.land (Z.lor (Z.shiftl x 8) y) 0xffc0 =? 0xfe80)
    (fun x y => (x =? 0xfe) && (0x80 <=? y) && (y <? 0xc0))); vm_compute.
Qed.

(** A multicast scope is recognised only under ff00::/8. *)
Lemma land_ff0f x y : is_byte x -> is_byte y ->
  implb ((Z.land (Z.lor (Z.shiftl x 8) y) 0xff0f =? 0xff01) || (Z.land (Z.lor (Z.shiftl x 8) y) 0xff0f =? 0xff02)) (x =? 0xff) = true.
Proof.
  by apply (byte2_eq (fun x y => implb ((Z.land (Z.lor (Z.shiftl x 8) y) 0xff0f =? 0xff01) || (Z.land (Z.lor (Z.shiftl x 8) y) 0xff0f =? 0xff02)) (x =? 0xff))
    (fun _ _ => true)); vm_compute.
Qed.

(** ** Prefixes as ranges *)

Lemma shiftr_lxor_eq a b n : 0 <= n -> (Z.shiftr (Z.lxor a b) n =? 0) = (a / 2 ^ n =? b / 2 ^ n).
Proof.
  intros Hn. rewrite Z.shiftr_lxor, !Z.shiftr_div_pow2 by done.
  apply eq_true_iff_eq. by rewrite !Z.eqb_eq, Z.lxor_eq_0_iff.
Qed.

(** The addresses that share the first bits of [base] form a range. *)
Definition prefix_block (w bits base : Z) : Z * Z := (base / 2 ^ (w - bits) * 2 ^ (w - bits), 2 ^ (w - bits)).

Lemma same_bits_range w bits base v : 0 <= bits <= w ->
  (Z.shiftr (Z.lxor base v) (w - bits) =? 0) = in_block v (prefix_block w bits base).
Proof.
  intros Hb. rewrite shiftr_lxor_eq by lia. unfold in_block, prefix_block. cbn [fst snd].
  assert (0 < 2 ^ (w - bits)) by (apply Z.pow_pos_nonneg; lia).
  set (n := 2 ^ (w - bits)) in *. set (q := base / n) in *.
  pose proof (Z.div_mod v n ltac:(lia)). pose proof (Z.mod_pos_bound v n ltac:(lia)).
  destruct (Z.eqb_spec q (v / n)) as [->|Hne]; [lia|].
  symmetry. apply not_true_iff_false. intros [?%Z.leb_le ?%Z.ltb_lt]%andb_true_iff. apply Hne. nia.
Qed.

Lemma cgnat_range b : PContains cgnat (Addr4 b) = in_block (be_val b) (ip4 100 64 0 0, 2 ^ 22).
Proof.
  unfold PContains. cbn [p_ip p_bits cgnat].
  change (0 <=? 10) with true. change (10 <=? 32) with true. cbn [andb].
  by rewrite same_bits_range by lia.
Qed.

(** ** [IsPublicIP] decides the ranges *)

(** The tests of [IsPublicIP] on the unwrapped address. *)
Definition gate (addr : Addr) : bool :=
  if IsLoopback addr || IsPrivate addr || PContains cgnat addr ||
     IsLinkLocalUnicast addr || IsLinkLocalMulticast addr ||
     IsMulticast addr || IsUnspecified addr || IsInterfaceLocalMulticast addr ||
     bool_decide (addr = Addr4 [255; 255; 255; 255])
  then false
  else if Is6 addr && (let b := As16 addr in (nthb b 0 =? 0xfe) && (Z.land (nthb b 1) 0xc0 =? 0xc0))
  then false
  else true.

Lemma IsPublicIP_gate ip :
  IsPublicIP ip = match AddrFromSlice ip with Some a => gate (unwrap a) | None => false end.
Proof. by unfold IsPublicIP; destruct (AddrFromSlice ip). Qed.

Lemma be_val4 a b c d : be_val [a; b; c; d] = a * 16777216 + b * 65536 + c * 256 + d.
Proof. cbn [be_val length]. change (256 ^ Z.of_nat 3) with 16777216. change (256 ^ Z.of_nat 2) with 65536. lia. Qed.

Lemma block_eq v blk (t : bool) : (fst blk <= v < fst blk + snd blk <-> t = true) -> in_block v blk = t.
Proof. intros H. apply eq_true_iff_eq. rewrite <- H. unfold in_block. lia. Qed.

(** The ranges of [blocked4], on bytes. *)
Lemma public4_bytes a b c d : is_byte a -> is_byte b -> is_byte c -> is_byte d ->
  public4 (be_val [a; b; c; d]) =
  negb ((a =? 10) || ((a =? 172) && ((16 <=? b) && (b <? 32))) || ((a =? 192) && (b =? 168)) || (a =? 127) ||
        in_block (be_val [a; b; c; d]) (ip4 100 64 0 0, 2 ^ 22) || ((a =? 169) && (b =? 254)) || ((224 <=? a) && (a <? 240)) ||
        ((a =? 0) && (b =? 0) && (c =? 0) && (d =? 0)) || ((a =? 255) && (b =? 255) && (c =? 255) && (d =? 255))).
Proof.
  unfold is_byte. intros. unfold public4, blocked4, existsb. f_equal.
  set (cg := in_block _ (ip4 100 64 0 0, 2 ^ 22)). clearbody cg. rewrite be_val4.
  rewrite (block_eq _ _ (a =? 10)), (block_eq _ (ip4 172 16 0 0, _) ((a =? 172) && ((16 <=? b) && (b <? 32)))),
    (block_eq _ (ip4 192 168 0 0, _) ((a =? 192) && (b =? 168))), (block_eq _ (ip4 127 0 0 0, _) (a =? 127)),
    (block_eq _ (ip4 169 254 0 0, _) ((a =? 169) && (b =? 254))), (block_eq _ (ip4 224 0 0 0, _) ((224 <=? a) && (a <? 240))),
    (block_eq _ (ip4 0 0 0 0, _) ((a =? 0) && (b =? 0) && (c =? 0) && (d =? 0))),
    (block_eq _ (ip4 255 255 255 255, _) ((a =? 255) && (b =? 255) && (c =? 255) && (d =? 255)))
    by (unfold ip4; cbn [fst snd]; lia).
  by rewrite orb_false_r, !orb_assoc.
Qed.

Lemma gate4 a b c d : Forall is_byte [a; b; c; d] -> gate (Addr4 [a; b; c; d]) = public4 (be_val [a; b; c; d]).
Proof.
  intros H. repeat (apply Forall_cons in H as [? H]). clear H.
  unfold gate. rewrite cgnat_range, public4_bytes by done.
  unfold IsLoopback, IsPrivate, IsLinkLocalUnicast, IsLinkLocalMulticast, IsMulticast, IsInterfaceLocalMulticast, IsUnspecified.
  cbn [Unmap Is6 nthb nth andb orb].
  rewrite land_f0_10, land_f0_e0 by done.
  assert (bool_decide (Addr4 [a; b; c; d] = Addr4 (replicate 4 0)) = ((a =? 0) && (b =? 0) && (c =? 0) && (d =? 0))) as ->.
  { apply eq_true_iff_eq. rewrite bool_decide_eq_true. cbn. split; [intros; simplify_eq; lia|]. intros.
    repeat f_equal; lia. }
  assert (bool_decide (Addr4 [a; b; c; d] = Addr4 [255; 255; 255; 255]) = ((a =? 255) && (b =? 255) && (c =? 255) && (d =? 255))) as ->.
  { apply eq_true_iff_eq. rewrite bool_decide_eq_true. split; [intros; simplify_eq; lia|]. intros. repeat f_equal; lia. }
  rewrite (bool_decide_eq_false_2 (Addr4 _ = Addr6 _ _)) by done.
  generalize (in_block (be_val [a; b; c; d]) (ip4 100 64 0 0, 2 ^ 22)) as cg. intros cg.
  match goal with |- (if ?x then false else true) = negb ?y => enough (x = y) as -> by (by destruct y) end.
  assert ((a =? 224) = ((224 <=? a) && (a <? 240)) && (a =? 224)) as -> by lia.
  generalize ((224 <=? a) && (a <? 240)) as mc, ((16 <=? b) && (b <? 32)) as b1. intros. btauto.
Qed.

Lemma be_val_inj l l' : length l = length l' -> Forall is_byte l -> Forall is_byte l' -> be_val l = be_val l' -> l = l'.
Proof.
  revert l'. induction l as [|b l IH]; intros [|b' l'] Hlen Hl Hl' He; try done.
  apply Forall_cons in Hl as [Hb Hl], Hl' as [Hb' Hl']. injection Hlen as Hlen.
  pose proof (be_val_range l Hl) as R. pose proof (be_val_range l' Hl') as R'.
  cbn [be_val] in He. rewrite <- Hlen in *. unfold is_byte in *.
  assert (b = b') as <- by nia. f_equal. apply IH; [done..|lia].
Qed.

Lemma decide_bytes l l' z : length l = length l' -> Forall is_byte l -> Forall is_byte l' ->
  bool_decide (Addr6 l z = Addr6 l' z) = (be_val l =? be_val l').
Proof.
  intros Hlen Hl Hl'. apply eq_true_iff_eq. rewrite bool_decide_eq_true, Z.eqb_eq.
  split; [by intros [= ->]|]. intros He. f_equal. by apply be_val_inj.
Qed.

(** Literal byte sequences. *)
Ltac byte_list := repeat (apply Forall_cons_2; [done || (unfold is_byte; lia)|]); apply Forall_nil_2.

Lemma bytes_0 n : Forall is_byte (replicate n 0).
Proof. apply Forall_replicate. unfold is_byte. lia. Qed.

Lemma bytes_1 : Forall is_byte (replicate 15 0 ++ [1]).
Proof. apply Forall_app. split; [apply bytes_0|]. apply Forall_singleton. unfold is_byte. lia. Qed.

(** The ranges of [blocked6], on the first two bytes and the value. *)
Lemma public6_bytes a b r : is_byte a -> is_byte b -> 0 <= r < 2 ^ 112 ->
  let v := a * 2 ^ 120 + b * 2 ^ 112 + r in
  public6 v = negb ((v =? 0) || (v =? 1) || ((0xfc <=? a) && (a <? 0xfe)) ||
    ((a =? 0xfe) && (0x80 <=? b) && (b <? 0xc0)) || ((a =? 0xfe) && (0xc0 <=? b)) || (a =? 0xff)).
Proof.
  unfold is_byte. intros Ha Hb Hr. unfold public6, blocked6, existsb. f_equal.
  rewrite (block_eq _ (0, _) (a * 2 ^ 120 + b * 2 ^ 112 + r =? 0)), (block_eq _ (1, _) (a * 2 ^ 120 + b * 2 ^ 112 + r =? 1)),
    (block_eq _ (0xfc * 2 ^ 120, _) ((0xfc <=? a) && (a <? 0xfe))),
    (block_eq _ (0xfe80 * 2 ^ 112, _) ((a =? 0xfe) && (0x80 <=? b) && (b <? 0xc0))),
    (block_eq _ (0xfec0 * 2 ^ 112, _) ((a =? 0xfe) && (0xc0 <=? b))),
    (block_eq _ (0xff * 2 ^ 120, _) (a =? 0xff)) by (cbn [fst snd]; lia).
  by rewrite orb_false_r, !orb_assoc.
Qed.

Lemma gate6 l : length l = 16%nat -> Forall is_byte l -> Is4In6 (Addr6 l "") = false ->
  gate (Addr6 l "") = public6 (be_val l).
Proof.
  intros Hlen Hl Hm. unfold gate, IsLoopback, IsPrivate, IsLinkLocalUnicast, IsLinkLocalMulticast, IsMulticast, IsInterfaceLocalMulticast, IsUnspecified.
  unfold Unmap. rewrite Hm.
  assert (bool_decide (l = replicate 15 0 ++ [1]) = (be_val l =? 1)) as ->.
  { transitivity (be_val l =? be_val (replicate 15 0 ++ [1])); [|done]. rewrite <- (decide_bytes l (replicate 15 0 ++ [1]) "") by (done || apply bytes_1).
    apply bool_decide_ext. split; [by intros ->|by intros [=]]. }
  rewrite (bool_decide_eq_false_2 (_ = Addr4 _)) by done. rewrite (bool_decide_eq_false_2 (_ = Addr4 _)) by done.
  rewrite (decide_bytes l (replicate 16 0) "") by (done || apply bytes_0).
  destruct l as [|a [|b r]]; [done..|]. apply Forall_cons in Hl as [Ha [Hb Hr]%Forall_cons].
  apply be_val_range in Hr. injection Hlen as Hlen. rewrite Hlen in Hr.
  replace (be_val (a :: b :: r)) with (a * 2 ^ 120 + b * 2 ^ 112 + be_val r)
    by (cbn [be_val length]; rewrite Hlen; change (256 ^ Z.of_nat 15) with (2 ^ 120); change (256 ^ Z.of_nat 14) with (2 ^ 112); lia).
  rewrite public6_bytes by done. set (v := _ + be_val r). clearbody v.
  cbn [PContains cgnat p_ip p_bits Is6 As16 nthb nth u16 Nat.mul Nat.add andb orb].
  unfold u16. cbn [nthb nth Nat.mul Nat.add]. rewrite land_fe, land_ffc0, land_c0 by done.
  pose proof (land_ff0f a b Ha Hb) as Hmc.
  set (m1 := Z.land _ 0xff0f =? 0xff01) in *. set (m2 := Z.land _ 0xff0f =? 0xff02) in *. clearbody m1 m2.
  change (be_val (replicate 16 0)) with 0.
  match goal with |- (if ?x then false else if ?z then false else true) = negb ?y => enough (x || z = y) as <- by (by destruct x, z) end.
  destruct (a =? 0xff), m1, m2; try done; btauto.
Qed.

(** The unwrapping steps, as ranges of the 128-bit value. *)
Lemma prefix_range p s : Forall is_byte (p ++ s) ->
  forall q, length q = length p -> Forall is_byte q ->
  bool_decide (p = q) = in_block (be_val (p ++ s)) (be_val q * 256 ^ Z.of_nat (length s), 256 ^ Z.of_nat (length s)).
Proof.
  intros [Hp Hs]%Forall_app q Hlen Hq. symmetry. apply block_eq. cbn [fst snd]. rewrite bool_decide_eq_true, be_val_app.
  apply be_val_range in Hs. split; [|intros ->; lia].
  intros. apply be_val_inj; [done..|nia].
Qed.

(** The prefixes [carried] tests, as byte sequences. *)
Lemma carried_prefixes v :
  carried v =
  if in_block v (be_val mapped_prefix * 256 ^ Z.of_nat 4, 256 ^ Z.of_nat 4) then Some (v / 256 ^ Z.of_nat 0 mod 256 ^ Z.of_nat 4)
  else if in_block v (be_val [0x20; 0x02] * 256 ^ Z.of_nat 14, 256 ^ Z.of_nat 14) then Some (v / 256 ^ Z.of_nat 10 mod 256 ^ Z.of_nat 4)
  else if in_block v (be_val [0; 0x64; 0xff; 0x9b; 0; 0] * 256 ^ Z.of_nat 10, 256 ^ Z.of_nat 10) then Some (v / 256 ^ Z.of_nat 0 mod 256 ^ Z.of_nat 4)
  else if in_block v (be_val [0; 0x64; 0xff; 0x9b; 0; 1] * 256 ^ Z.of_nat 10, 256 ^ Z.of_nat 10) then
    Some (v / 256 ^ Z.of_nat 8 mod 256 ^ Z.of_nat 2 * 256 ^ Z.of_nat 2 + v / 256 ^ Z.of_nat 5 mod 256 ^ Z.of_nat 2)
  else None.
Proof. unfold carried. change (256 ^ Z.of_nat 0) with 1. rewrite !Z.div_1_r. reflexivity. Qed.

Lemma decide_cons x y (l l' : list Z) : bool_decide (x :: l = y :: l') = (x =? y) && bool_decide (l = l').
Proof. apply eq_true_iff_eq. rewrite andb_true_iff, !bool_decide_eq_true, Z.eqb_eq. split; [by intros [= -> ->]|by intros [-> ->]]. Qed.

Lemma unwrap_ref l : length l = 16%nat -> Forall is_byte l ->
  match unwrap (Addr6 l "") with
  | Addr4 b => length b = 4%nat /\ Forall is_byte b /\ carried (be_val l) = Some (be_val b)
  | a => a = Addr6 l "" /\ Is4In6 a = false /\ carried (be_val l) = None
  end.
Proof.
  intros Hlen Hl. do 17 (destruct l as [|? l]; [try done|]); [|done]. clear Hlen.
  pose proof Hl as Hb. repeat (apply Forall_cons in Hb as [? Hb]). clear Hb.
  match goal with |- context [Addr6 ?l _] => set (L := l) in * end.
  assert (forall p s q k, L = p ++ s -> length s = k -> length q = length p -> Forall is_byte q ->
    in_block (be_val L) (be_val q * 256 ^ Z.of_nat k, 256 ^ Z.of_nat k) = bool_decide (p = q)) as HP.
  { intros p s q k HL <- Hlen Hq. rewrite HL in *. symmetry. by apply prefix_range. }
  assert (forall p m s k n, L = p ++ m ++ s -> length s = k -> length m = n ->
    (be_val L / 256 ^ Z.of_nat k) mod 256 ^ Z.of_nat n = be_val m) as HW.
  { intros p m s k n HL <- <-. rewrite HL in *. symmetry. by apply be_val_window. }
  rewrite carried_prefixes.
  rewrite (HP (take 12 L) (drop 12 L) mapped_prefix 4%nat), (HP (take 2 L) (drop 2 L) [0x20; 0x02] 14%nat),
    (HP (take 6 L) (drop 6 L) [0; 0x64; 0xff; 0x9b; 0; 0] 10%nat), (HP (take 6 L) (drop 6 L) [0; 0x64; 0xff; 0x9b; 0; 1] 10%nat)
    by (done || byte_list).
  rewrite (HW (take 12 L) (drop 12 L) [] 0%nat 4%nat), (HW (take 2 L) (take 4 (drop 2 L)) (drop 6 L) 10%nat 4%nat),
    (HW (take 6 L) (take 2 (drop 6 L)) (drop 8 L) 8%nat 2%nat), (HW (take 9 L) (take 2 (drop 9 L)) (drop 11 L) 5%nat 2%nat) by done.
  clear HP HW Hl. unfold unwrap, Unmap, Is4In6.
  destruct (bool_decide_reflect (take 12 L = mapped_prefix)) as [E|E].
  { cbn [drop L]. split; [done|]. split; [byte_list|done]. }
  unfold embeddedIPv4. cbn [Is6 negb As16 take nthb nth drop L].
  rewrite !decide_cons, (bool_decide_eq_true_2 ([] = [])) by done.
  rewrite !andb_true_r, !andb_assoc.
  destruct ((z =? 32) && (z0 =? 2)); [split; [done|split; [byte_list|done]]|].
  destruct ((z =? 0) && (z0 =? 100) && (z1 =? 255) && (z2 =? 155)); cbn [andb]; [|by rewrite bool_decide_eq_false_2].
  destruct ((z3 =? 0) && (z4 =? 0)); [split; [done|split; [byte_list|done]]|].
  destruct ((z3 =? 0) && (z4 =? 1)); [|by rewrite bool_decide_eq_false_2].
  split; [done|]. split; [byte_list|]. f_equal. symmetry. exact (be_val_app [z5; z6] [z8; z9]).
Qed.

(** [IsPublicIP] accepts exactly the addresses outside the reserved ranges,
    whatever form carries them. *)
Lemma IsPublicIP_decides ip : Forall is_byte (bytes ip) -> IsPublicIP ip = public_ref ip.
Proof.
  intros Hb. rewrite IsPublicIP_gate. unfold AddrFromSlice, public_ref.
  destruct (Nat.eqb_spec (length (bytes ip)) 4) as [E|_].
  { unfold unwrap. cbn [Unmap embeddedIPv4 Is6 negb].
    destruct (bytes ip) as [|a [|b [|c [|d [|]]]]]; try done. by apply gate4. }
  destruct (Nat.eqb_spec (length (bytes ip)) 16) as [E|_]; [|done].
  pose proof (unwrap_ref _ E Hb) as H. destruct (unwrap (Addr6 (bytes ip) "")) as [|b|b z].
  - by destruct H.
  - destruct H as (Hlen & Hf & ->). destruct b as [|a [|b [|c [|d [|]]]]]; try done. by apply gate4.
  - destruct H as (-> & Hm & ->). by apply gate6.
Qed.

(** ** The two checks *)

Lemma To4_length4 ip b : To4 ip = Some b -> Forall is_byte (bytes ip) ->
  length b = 4%nat /\ Forall is_byte b /\ public_ref ip = public4 (be_val b).
Proof.
  intros H Hb. unfold To4 in H. unfold public_ref.
  destruct (Nat.eqb_spec (length (bytes ip)) 4) as [E|_]; [by subst ip|].
  destruct (Nat.eqb_spec (length (bytes ip)) 16) as [E|_]; [|done]. cbn [andb] in H.
  case_bool_decide as Hm; [|done]. injection H as <-.
  pose proof (unwrap_ref _ E Hb) as Hu. unfold unwrap, Unmap, Is4In6 in Hu.
  rewrite bool_decide_eq_true_2 in Hu by done. cbn [embeddedIPv4 Is6 negb] in Hu.
  destruct Hu as (? & ? & ->). done.
Qed.

Lemma privateSubnets_ranges a b c d : is_byte a -> is_byte b -> is_byte c -> is_byte d ->
  existsb (fun n => INContains n (Some [a; b; c; d])) privateSubnets = true -> public4 (be_val [a; b; c; d]) = false.
Proof.
  intros Ha Hb Hc Hd. rewrite public4_bytes by done.
  unfold existsb, privateSubnets, INContains. change (To4 (Some [a; b; c; d])) with (Some [a; b; c; d]).
  cbn [bytes default id length Nat.eqb n_ip n_mask seq forallb nthb nth andb].
  rewrite !Z.land_0_r. change (0 =? 0) with true.
  assert (forall x, is_byte x -> Z.land x 255 = x) as H255.
  { intros x Hx. apply Z.eqb_eq. by apply (byte_all (fun x => Z.land x 255 =? x)); [vm_compute|]. }
  rewrite !H255 by (done || (unfold is_byte; lia)). change (Z.land 16 240) with 16.
  rewrite !(Z.eqb_sym _ (Z.land b 240)), land_f0_10 by done. lia.
Qed.

Lemma IP_IsUnspecified_cases ip : IP_IsUnspecified ip = true -> To4 ip = Some [0; 0; 0; 0] \/ bytes ip = replicate 16 0.
Proof.
  unfold IP_IsUnspecified, IPEqual, To4. cbn [bytes default id length app mapped_prefix replicate].
  destruct (Nat.eqb_spec (length (bytes ip)) 4) as [E|_].
  - rewrite E. cbn [Nat.eqb andb orb]. rewrite orb_true_iff, !bool_decide_eq_true.
    intros [[= H]|[= H]]. left. destruct ip as [b|]; cbn in H |- *; by subst.
  - destruct (Nat.eqb_spec (length (bytes ip)) 16) as [E|_]; cbn [andb]; [|done].
    rewrite orb_true_iff, !bool_decide_eq_true. intros [H|H]; rewrite H; [by left|by right].
Qed.

Lemma nonpublic6 l : length l = 16%nat -> Forall is_byte l ->
  (be_val l = 0 \/ be_val l = 1 \/ (nthb l 0 = 0xfe /\ Z.land (nthb l 1) 0xc0 = 0x80) \/ Z.land (nthb l 0) 0xfe = 0xfc) ->
  public_ref (Some l) = false.
Proof.
  intros Hlen Hl Hc. unfold public_ref. cbn [bytes default id]. rewrite Hlen. cbn [Nat.eqb].
  destruct l as [|a [|b r]]; [done..|]. apply Forall_cons in Hl as [Ha [Hb Hr]%Forall_cons].
  apply be_val_range in Hr. injection Hlen as Hlen. rewrite Hlen in Hr. cbn [nthb nth] in Hc.
  replace (be_val (a :: b :: r)) with (a * 2 ^ 120 + b * 2 ^ 112 + be_val r) in *
    by (cbn [be_val length]; rewrite Hlen; change (256 ^ Z.of_nat 15) with (2 ^ 120); change (256 ^ Z.of_nat 14) with (2 ^ 112); lia).
  rewrite <- !Z.eqb_eq, land_c0_80, land_fe in Hc by done.
  assert (carried (a * 2 ^ 120 + b * 2 ^ 112 + be_val r) = None) as ->.
  { unfold carried, in_block. cbn [fst snd]. unfold is_byte in *. repeat case_match; try done; lia. }
  rewrite public6_bytes by done. lia.
Qed.

(** The dial-time gate is stricter than the save-time check: an address it
    lets through is outside the private ranges of [IsPrivateIP]. *)
Theorem IsPublicIP_not_private ip : Forall is_byte (bytes ip) -> IsPublicIP ip = true -> IsPrivateIP ip = false.
Proof.
  intros Hb. rewrite IsPublicIP_decides by done. intros Hp. unfold IsPrivateIP.
  rewrite (bool_decide_eq_false_2 (ip = None)) by (by intros ->). cbn [orb].
  assert (length (bytes ip) = 16%nat -> public_ref (Some (bytes ip)) = true) as Hs by (by destruct ip).
  destruct (IP_IsUnspecified ip) eqn:Hu.
  { exfalso. apply IP_IsUnspecified_cases in Hu as [H4|H6].
    - destruct (To4_length4 _ _ H4 Hb) as (_ & _ & Hr). by rewrite Hr in Hp.
    - rewrite H6 in Hs. by specialize (Hs eq_refl). }
  destruct (To4 ip) as [b|] eqn:E4.
  - destruct (To4_length4 _ _ E4 Hb) as (Hlen & Hbb & Hr). rewrite Hr in Hp.
    destruct b as [|a [|b [|c [|d [|]]]]]; try done. repeat (apply Forall_cons in Hbb as [? Hbb]).
    assert (existsb (fun n => INContains n ip) privateSubnets = existsb (fun n => INContains n (Some [a; b; c; d])) privateSubnets) as ->.
    { unfold existsb, INContains. by rewrite E4. }
    destruct (existsb _ _) eqn:Ex; [|done]. apply privateSubnets_ranges in Ex; [congruence|done..].
  - assert (existsb (fun n => INContains n ip) privateSubnets = false) as ->.
    { unfold existsb, INContains. rewrite E4. unfold To4 in E4. cbn [length n_ip privateSubnets].
      destruct (Nat.eqb_spec (length (bytes ip)) 4) as [E|_]; [|done]. by subst ip. }
    destruct (Nat.eqb_spec (length (bytes ip)) 16) as [E16|N16].
    + specialize (Hs E16). apply not_true_iff_false. intros Hx.
      enough (public_ref (Some (bytes ip)) = false) by congruence. apply nonpublic6; [done..|].
      revert Hx. unfold IP_IsLoopback, IP_IsLinkLocalUnicast, IPEqual. rewrite E4, E16.
      change (16 =? length (bytes (Some (replicate 15 0%Z ++ [1%Z]))))%nat with true. cbn [bytes default id Nat.eqb andb].
      destruct (bool_decide_reflect (bytes ip = replicate 15 0 ++ [1])) as [E|_]; [intros _; rewrite E; by right; left|].
      cbn [orb]. case_match; lia.
    + assert (length (bytes ip) <> 4%nat) as N4 by (intros E; unfold To4 in E4; rewrite E in E4; cbn [Nat.eqb] in E4; by subst ip).
      apply Nat.eqb_neq in N4, N16. unfold IP_IsLoopback, IP_IsLinkLocalUnicast, IPEqual. rewrite E4.
      change (length (bytes (Some (replicate 15 0 ++ [1])))) with 16%nat. by rewrite N4, N16.
Qed.

(** [IsPublicIP] accepts exactly the addresses outside the reserved ranges,
    whatever form carries them (IPv4, IPv6, IPv4-mapped, 6to4, NAT64), and is
    stricter than the complement of the save-time check [IsPrivateIP]. *)
Theorem IsPublicIP_ref ip : Forall is_byte (bytes ip) ->
  IsPublicIP ip = public_ref ip /\ (IsPublicIP ip = true -> IsPrivateIP ip = false).
Proof. intros Hb. split; [by apply IsPublicIP_decides|by apply IsPublicIP_not_private]. Qed.

(** ** The allowlist *)

(** What one entry of the configuration stands for. *)
Inductive Entry :=
| EBlank
| EPrefix (p : Prefix)
| EHost (h : string)
| EBad.

Definition classify (raw : string) : Entry :=
  let e := TrimSpace raw in
  if bool_decide (e = ""%string) then EBlank
  else match ParsePrefix e, ParseAddr e with
       | Some p, _ => EPrefix p
       | None, Some a => EPrefix (PrefixFrom a (if Is6 a then 128 else 32))
       | None, None => if negb (looksLikeIPLiteral e) && isValidHostnameLiteral e then EHost (ToLower e) else EBad
       end.

Definition entry_prefix (e : Entry) : option Prefix := match e with EPrefix p => Some p | _ => None end.
Definition entry_host (e : Entry) : option string := match e with EHost h => Some h | _ => None end.

Lemma allow_entry_spec raw al :
  (classify raw = EBad /\ exists e, allow_entry raw al = Err e) \/
  (classify raw <> EBad /\
   allow_entry raw al = Ok (mkAllowlist (list_to_set (option_list (entry_host (classify raw))) ∪ hostnames al)
                                        (prefixes al ++ option_list (entry_prefix (classify raw))))).
Proof.
  unfold classify, allow_entry. destruct al as [hs ps]. cbn [hostnames prefixes].
  case_bool_decide; [right; cbn; by rewrite (left_id_L ∅ (∪)), app_nil_r|].
  destruct (ParsePrefix _) as [p|]; [right; cbn; by rewrite (left_id_L ∅ (∪))|].
  destruct (ParseAddr _) as [a|]; [right; cbn; by rewrite (left_id_L ∅ (∪))|].
  destruct (looksLikeIPLiteral _); [left; by split; [|eexists]|].
  destruct (isValidHostnameLiteral _); cbn; [right; by rewrite app_nil_r, (right_id_L ∅ (∪))|left; by split; [|eexists]].
Qed.

Lemma allow_entries_spec entries al :
  match allow_entries entries al with
  | Err _ => exists raw, raw ∈ entries /\ classify raw = EBad
  | Ok al' => Forall (fun raw => classify raw <> EBad) entries /\
      hostnames al' = list_to_set (omap entry_host (classify <$> entries)) ∪ hostnames al /\
      prefixes al' = prefixes al ++ omap entry_prefix (classify <$> entries)
  end.
Proof.
  revert al. induction entries as [|raw entries IH]; intros al; cbn [allow_entries].
  { cbn. split; [constructor|]. by rewrite (left_id_L ∅ (∪)), app_nil_r. }
  destruct (allow_entry_spec raw al) as [[Hc [e ->]]|[Hc ->]].
  { exists raw. split; [left|done]. }
  match goal with |- context [allow_entries entries ?a] => specialize (IH a) end.
  destruct (allow_entries _ _) as [al'|e];
    [|destruct IH as (raw' & ? & ?); exists raw'; split; [by right|done]].
  destruct IH as (Hf & Hh & Hp). split; [by constructor|]. rewrite Hh, Hp. cbn [hostnames prefixes fmap list_fmap omap list_omap].
  split; [destruct (entry_host _); cbn; set_solver|destruct (entry_prefix _); cbn; by rewrite <- app_assoc].
Qed.

(** Building an allowlist fails exactly when an entry is neither blank, a CIDR,
    an address nor a hostname; otherwise no entry is dropped. *)
Theorem NewAllowlist_loud entries :
  match NewAllowlist entries with
  | Err _ => exists raw, raw ∈ entries /\ classify raw = EBad
  | Ok al => Forall (fun raw => classify raw <> EBad) entries /\
      hostnames al = list_to_set (omap entry_host (classify <$> entries)) /\
      prefixes al = omap entry_prefix (classify <$> entries)
  end.
Proof.
  unfold NewAllowlist. pose proof (allow_entries_spec entries (mkAllowlist ∅ [])) as H.
  destruct (allow_entries _ _); [|done]. cbn [hostnames prefixes] in H. by rewrite (right_id_L ∅ (∪)) in H.
Qed.

(** The bits-prefix of the allowlist covers [addr]: same family, in the range. *)
Definition covers (p : Prefix) (a : Addr) : Prop :=
  match p_ip p, a with
  | Addr4 x, Addr4 y => 0 <= p_bits p <= 32 /\ in_block (be_val y) (prefix_block 32 (p_bits p) (be_val x)) = true
  | Addr6 x _, Addr6 y z => z = ""%string /\ 0 <= p_bits p <= 128 /\ in_block (be_val y) (prefix_block 128 (p_bits p) (be_val x)) = true
  | _, _ => False
  end.

Lemma PContains_covers p a : PContains p a = true <-> covers p a.
Proof.
  unfold PContains, covers. destruct (p_ip p) as [|x|x zx], a as [|y|y z]; try (by split).
  - rewrite !andb_true_iff, !Z.leb_le. split.
    + intros [[??] Hr]. by rewrite same_bits_range in Hr by done.
    + intros [? Hr]. rewrite same_bits_range by done. by split; [lia|].
  - rewrite !andb_true_iff, !Z.leb_le, bool_decide_eq_true. split.
    + intros [? [[??] Hr]]. by rewrite same_bits_range in Hr by done.
    + intros [? [? Hr]]. rewrite same_bits_range by done. by split; [|split; [lia|]].
Qed.

(** An allowlist lets through its hostnames, in any case, and the addresses in
    the ranges of its prefixes, unwrapped as [IsPublicIP] unwraps them. *)
Theorem Permits_ranges al host ip :
  Permits (Some al) host ip = true <->
  ToLower host ∈ hostnames al \/
  (exists addr p, AddrFromSlice ip = Some addr /\ p ∈ prefixes al /\ covers p (unwrap addr)).
Proof.
  unfold Permits. case_bool_decide as Hh; [split; [by left|done]|].
  destruct (AddrFromSlice ip) as [addr|]; [|split; [done|naive_solver]].
  rewrite existsb_exists. setoid_rewrite PContains_covers. setoid_rewrite <- list_elem_of_In. naive_solver.
Qed.
