(* ===== verification/SSRFDial.v ===== *)
(** * The dial function of the guard

    The address handed to the dialer is text; the round trip of printing and
    parsing shows that this text denotes the address that was checked, so no
    second resolution can replace it. *)

From S2P Require Import Prelude GoStrings SSRF SSRFTheory.
From Stdlib Require Import Ascii.

Local Open Scope Z_scope.

(** ** Round trip of an IPv4 address *)

Lemma byte_cases (P : Z -> Prop) : Forall P (seqZ 0 256) -> forall x, is_byte x -> P x.
Proof. rewrite Forall_forall. intros H x Hx. apply H, elem_of_seqZ. unfold is_byte in Hx. lia. Qed.

(** A statement about one byte, checked on each. *)
Ltac byte_enum x :=
  intros Hx; pattern x; revert x Hx; apply byte_cases;
  let l := eval vm_compute in (seqZ 0 256) in change (seqZ 0 256) with l;
  repeat (apply Forall_cons_2; [intros; reflexivity|]); apply Forall_nil_2.

Lemma parse4_octet x : is_byte x -> forall rest acc first dot,
  parseIPv4Fields (Itoa x +:+ rest)%string acc 0 0 first dot = parseIPv4Fields rest acc x (String.length (Itoa x)) false false.
Proof. byte_enum x. Qed.

Lemma scan_octet x : is_byte x -> forall rest full, ParseAddr_scan (Itoa x +:+ rest)%string full = ParseAddr_scan rest full.
Proof. byte_enum x. Qed.

Lemma parse4_dot rest acc x n : rest <> ""%string -> (length acc < 3)%nat ->
  parseIPv4Fields (String "." rest) acc x n false false = parseIPv4Fields rest (x :: acc) 0 0 false true.
Proof.
  intros Hr H. cbn. rewrite bool_decide_eq_false_2 by done. cbn [orb].
  by rewrite (proj2 (Nat.eqb_neq (length acc) 3)) by lia.
Qed.

Lemma Itoa_ne x s : is_byte x -> (Itoa x +:+ s)%string <> ""%string.
Proof.
  intros Hx. enough (Itoa x <> ""%string) as H by (destruct (Itoa x); [done|by intros ?]).
  revert x Hx. apply byte_cases. let l := eval vm_compute in (seqZ 0 256) in change (seqZ 0 256) with l.
  repeat (apply Forall_cons_2; [vm_compute; discriminate|]); apply Forall_nil_2.
Qed.

Lemma string4_unfold a b c d : string4 [a; b; c; d] =
  (Itoa a +:+ String "." (Itoa b +:+ String "." (Itoa c +:+ String "." (Itoa d +:+ ""))))%string.
Proof. unfold string4. cbn [fmap list_fmap String.concat]. by rewrite str_app_nil_r. Qed.

Lemma ParseAddr_string4 a b c d : Forall is_byte [a; b; c; d] ->
  ParseAddr (string4 [a; b; c; d]) = Some (Addr4 [a; b; c; d]).
Proof.
  intros H. repeat (apply Forall_cons in H as [? H]). rewrite string4_unfold. unfold ParseAddr.
  rewrite scan_octet by done. cbn [ParseAddr_scan]. unfold parseIPv4.
  rewrite parse4_octet, parse4_dot by (by apply Itoa_ne || done || (cbn; lia)).
  rewrite parse4_octet, parse4_dot by (by apply Itoa_ne || done || (cbn; lia)).
  rewrite parse4_octet, parse4_dot by (by apply Itoa_ne || done || (cbn; lia)).
  by rewrite parse4_octet by done.
Qed.

(** ** Round trip of an IPv6 address *)

Definition is_u16 (x : Z) : Prop := 0 <= x < 65536.

Definition gbytes (g : list Z) : list Z := flat_map (fun x => [Z.shiftr x 8; Z.land x 255]) g.

Lemma hex_val_char n : 0 <= n < 16 -> hex_val (hex_char n) = Some n.
Proof.
  intros Hn. assert (n ∈ seqZ 0 16) as Hi by (apply elem_of_seqZ; lia).
  revert n Hn Hi. enough (Forall (fun n => hex_val (hex_char n) = Some n) (seqZ 0 16)) as HF
    by (intros; by eapply (proj1 (Forall_forall _ _) HF)).
  let l := eval vm_compute in (seqZ 0 16) in change (seqZ 0 16) with l.
  by repeat constructor.
Qed.

(** What may follow a group: the end or a colon. *)
Definition group_end (s : string) : Prop := s = ""%string \/ exists t, s = String ":" t.

Lemma hex_group_stop s n acc : group_end s -> hex_group s n acc = Some (acc, n, s).
Proof. by intros [->|[t ->]]. Qed.

Lemma hex_group_step n s off acc : 0 <= n < 16 -> (off <= 3)%nat ->
  hex_group (String (hex_char n) s) off acc = hex_group s (S off) (acc * 16 + n).
Proof. intros Hn Ho. cbn [hex_group]. rewrite hex_val_char by done. by rewrite (proj2 (Nat.ltb_ge 3 off)) by lia. Qed.

Lemma nibble x i : 0 <= Z.land (Z.shiftr x i) 15 < 16.
Proof. change 15 with (Z.ones 4). rewrite Z.land_ones by lia. apply Z.mod_pos_bound. lia. Qed.

Lemma nibble_val x i : 0 <= i -> Z.land (Z.shiftr x i) 15 = x / 2 ^ i mod 16.
Proof. intros Hi. change 15 with (Z.ones 4). by rewrite Z.land_ones, Z.shiftr_div_pow2 by lia. Qed.

Lemma hex_group_hex16 x s : is_u16 x -> group_end s ->
  exists off, hex_group (hex16 x +:+ s)%string 0 0 = Some (x, S off, s).
Proof.
  unfold is_u16. intros Hx Hs. unfold hex16.
  repeat case_match; cbn [String.append];
    rewrite !hex_group_step, hex_group_stop by (done || lia || apply nibble);
    rewrite !nibble_val by lia; eexists; repeat f_equal;
    repeat match goal with H : (_ <=? _) = _ |- _ => apply Z.leb_le in H || apply Z.leb_gt in H end;
    cbn; Z.to_euclidean_division_equations; lia.
Qed.

Definition gb (x : Z) : list Z := [Z.shiftr x 8; Z.land x 255].

(** Text whose first byte is not a colon. *)
Definition plain_start (s : string) : Prop := exists c t, s = String c t /\ Ascii.eqb c ":" = false.

Lemma hex_char_plain n : 0 <= n < 16 -> Ascii.eqb (hex_char n) ":" = false.
Proof. intros Hn. apply Ascii.eqb_neq. intros E. pose proof (hex_val_char n Hn) as H. by rewrite E in H. Qed.

Lemma hex16_plain x s : plain_start (hex16 x +:+ s).
Proof. unfold hex16, plain_start. repeat case_match; cbn [String.append]; do 2 eexists; (split; [done|apply hex_char_plain, nibble]). Qed.

Lemma loop_end f x ip ell : is_u16 x -> parse6_loop (S f) (hex16 x) ip ell = Some (""%string, ip ++ gb x, ell).
Proof.
  intros Hx. destruct (hex_group_hex16 x "" Hx ltac:(by left)) as [off E]. rewrite str_app_nil_r in E.
  cbn [parse6_loop]. by rewrite E.
Qed.

Lemma loop_colon f x s ip ell : is_u16 x -> plain_start s ->
  parse6_loop (S f) (hex16 x +:+ String ":" s)%string ip ell = parse6_loop f s (ip ++ gb x) ell.
Proof.
  intros Hx (c & t & -> & Hc). destruct (hex_group_hex16 x (String ":" (String c t)) Hx ltac:(right; by eexists)) as [off E].
  cbn [parse6_loop]. rewrite E. cbn.
  destruct c as [[] [] [] [] [] [] [] []]; try done; cbn in Hc.
Qed.

Lemma loop_ellipsis f x s ip : is_u16 x ->
  parse6_loop (S f) (hex16 x +:+ String ":" (String ":" s))%string ip None =
  if bool_decide (s = ""%string) then Some (s, ip ++ gb x, Some (length (ip ++ gb x)))
  else parse6_loop f s (ip ++ gb x) (Some (length (ip ++ gb x))).
Proof.
  intros Hx. destruct (hex_group_hex16 x (String ":" (String ":" s)) Hx ltac:(right; by eexists)) as [off E].
  cbn [parse6_loop]. by rewrite E.
Qed.

Lemma gbytes_cons x g : gbytes (x :: g) = gb x ++ gbytes g.
Proof. done. Qed.

Lemma length_gbytes g : length (gbytes g) = (2 * length g)%nat.
Proof. induction g as [|x g IH]; [done|]. rewrite gbytes_cons, length_app, IH. cbn. lia. Qed.

Lemma sep_groups_cons x y g : sep_groups (x :: y :: g) = (hex16 x +:+ String ":" (sep_groups (y :: g)))%string.
Proof. done. Qed.

Lemma sep_groups_plain x g s : plain_start (sep_groups (x :: g) +:+ s).
Proof.
  destruct g as [|y g]; [apply hex16_plain|]. rewrite sep_groups_cons, str_app_assoc. apply hex16_plain.
Qed.

Lemma loop_groups g : forall f ip ell, g <> [] -> Forall is_u16 g -> (length g <= f)%nat ->
  parse6_loop f (sep_groups g) ip ell = Some (""%string, ip ++ gbytes g, ell).
Proof.
  induction g as [|x g IH]; intros f ip ell Hne Hg Hf; [done|]. apply Forall_cons in Hg as [Hx Hg].
  destruct f as [|f]; [cbn in Hf; lia|]. destruct g as [|y g].
  { change (sep_groups [x]) with (hex16 x). rewrite loop_end by done. by rewrite gbytes_cons, app_nil_r. }
  rewrite sep_groups_cons, loop_colon; [|done|rewrite <- (str_app_nil_r (sep_groups _)); apply sep_groups_plain].
  rewrite IH by (done || cbn in *; lia). by rewrite gbytes_cons, <- app_assoc.
Qed.

Lemma loop_groups_ellipsis g : forall f ip s, g <> [] -> Forall is_u16 g -> (length g <= f)%nat ->
  parse6_loop f (sep_groups g +:+ String ":" (String ":" s))%string ip None =
  if bool_decide (s = ""%string) then Some (s, ip ++ gbytes g, Some (length (ip ++ gbytes g)))
  else parse6_loop (f - length g) s (ip ++ gbytes g) (Some (length (ip ++ gbytes g))).
Proof.
  induction g as [|x g IH]; intros f ip s Hne Hg Hf; [done|]. apply Forall_cons in Hg as [Hx Hg].
  destruct f as [|f]; [cbn in Hf; lia|]. destruct g as [|y g].
  { change (sep_groups [x]) with (hex16 x). rewrite loop_ellipsis by done. change (gbytes [x]) with (gb x). cbn [length].
    by replace (S f - 1)%nat with f by lia. }
  rewrite sep_groups_cons, str_app_assoc. cbn [String.append]. rewrite loop_colon by (done || apply sep_groups_plain).
  rewrite IH by (done || cbn in *; lia). rewrite (gbytes_cons x), <- !app_assoc. done.
Qed.

(** The run of zero groups that is printed as an ellipsis. *)
Lemma zero_run_spec l : exists t, l = replicate (zero_run l) 0 ++ t.
Proof.
  induction l as [|x l [t IH]]; [by exists []|]. cbn [zero_run].
  destruct (Z.eqb_spec x 0) as [->|]; [|by eexists]. exists t. cbn. by rewrite <- IH.
Qed.

Lemma longest_zero_spec l : forall i best zs ze, longest_zero i l best = (zs, ze) -> (zs, ze) <> best ->
  (i <= zs)%nat /\ (2 <= ze - zs)%nat /\
  l = take (zs - i) l ++ replicate (ze - zs) 0 ++ drop (ze - i) l /\ (ze - i <= length l)%nat.
Proof.
  induction l as [|x l IH]; intros i best zs ze H Hne; [cbn in H; congruence|].
  cbn [longest_zero] in H. destruct (decide ((zs, ze) = (i, (i + zero_run (x :: l))%nat))) as [E|N].
  - simplify_eq. destruct (2 <=? zero_run (x :: l))%nat eqn:E2.
    + apply Nat.leb_le in E2. destruct (zero_run_spec (x :: l)) as [t Ht].
      set (r := zero_run (x :: l)) in *. replace (i - i)%nat with 0%nat by lia. replace (i + r - i)%nat with r by lia.
      split; [lia|]. split; [lia|]. split.
      * cbn [take app]. transitivity (replicate r 0 ++ t); [done|]. f_equal. clearbody r.
        by rewrite Ht, drop_app_length' by (by rewrite length_replicate).
      * clearbody r. rewrite Ht, length_app, length_replicate. lia.
    + cbn [andb] in H. apply IH in H; [|done]. lia.
  - apply IH in H as (H1 & H2 & H3 & H4).
    + replace (zs - i)%nat with (S (zs - S i)) by lia. replace (ze - i)%nat with (S (ze - S i)) by lia.
      split; [lia|]. split; [lia|]. split; [|cbn; lia]. cbn [take drop app]. by rewrite <- H3.
    + case_match; [|done]. congruence.
Qed.

(** The groups of an address give back its bytes. *)
Lemma u16_bytes x y : is_byte x -> is_byte y -> gb (Z.lor (Z.shiftl x 8) y) = [x; y] /\ is_u16 (Z.lor (Z.shiftl x 8) y).
Proof.
  intros Hx Hy.
  assert ((Z.shiftr (Z.lor (Z.shiftl x 8) y) 8 =? x) && (Z.land (Z.lor (Z.shiftl x 8) y) 255 =? y) &&
    (0 <=? Z.lor (Z.shiftl x 8) y) && (Z.lor (Z.shiftl x 8) y <? 65536) = true) as H.
  { by apply (byte2_eq (fun x y => (Z.shiftr (Z.lor (Z.shiftl x 8) y) 8 =? x) && (Z.land (Z.lor (Z.shiftl x 8) y) 255 =? y) &&
      (0 <=? Z.lor (Z.shiftl x 8) y) && (Z.lor (Z.shiftl x 8) y <? 65536)) (fun _ _ => true)); [vm_compute|..]. }
  rewrite !andb_true_iff, !Z.eqb_eq, Z.leb_le, Z.ltb_lt in H. destruct H as [[[H1 H2] H3] H4].
  split; [unfold gb; by rewrite H1, H2|done].
Qed.

Lemma gbytes_groups b : length b = 16%nat -> Forall is_byte b ->
  gbytes (groups b) = b /\ Forall is_u16 (groups b) /\ length (groups b) = 8%nat.
Proof.
  intros Hlen Hb. do 17 (destruct b as [|? b]; [try done|]); [|done]. clear Hlen.
  repeat (apply Forall_cons in Hb as [? Hb]). unfold groups, u16. cbn [fmap list_fmap seq nthb nth Nat.mul Nat.add].
  rewrite !gbytes_cons. 
  repeat match goal with |- context [gb (Z.lor (Z.shiftl ?x 8) ?y)] => rewrite (proj1 (u16_bytes x y ltac:(done) ltac:(done))) end.
  split; [done|]. split; [|done].
  repeat (apply Forall_cons_2; [by apply u16_bytes|]). apply Forall_nil_2.
Qed.

(** No percent sign and no dot in what is printed. *)
Definition hex_or_colon (c : ascii) : bool := Ascii.eqb c ":" || bool_decide (is_Some (hex_val c)).

Lemma str_forallb_app f a b : str_forallb f (a +:+ b)%string = str_forallb f a && str_forallb f b.
Proof. induction a as [|c a IH]; [done|]. cbn. by rewrite IH, andb_assoc. Qed.

Lemma hex16_chars x : str_forallb hex_or_colon (hex16 x) = true.
Proof.
  assert (forall i, hex_or_colon (hex_char (Z.land (Z.shiftr x i) 15)) = true) as H.
  { intros i. unfold hex_or_colon. rewrite hex_val_char by apply nibble. by rewrite bool_decide_eq_true_2, orb_true_r by (by eexists). }
  unfold hex16. repeat case_match; cbn [str_forallb]; by rewrite !H.
Qed.

Lemma sep_groups_chars g : str_forallb hex_or_colon (sep_groups g) = true.
Proof.
  induction g as [|x g IH]; [done|]. destruct g as [|y g]; [apply hex16_chars|].
  rewrite sep_groups_cons, str_forallb_app, hex16_chars. cbn [str_forallb]. by rewrite IH.
Qed.

Lemma chars_no_percent s : str_forallb hex_or_colon s = true -> index_byte s "%" = None.
Proof.
  induction s as [|c s IH]; [done|]. cbn [str_forallb index_byte]. intros [Hc Hs]%andb_true_iff. rewrite (IH Hs).
  by destruct (Ascii.eqb_spec c "%") as [->|].
Qed.

Lemma chars_scan s full : str_forallb hex_or_colon s = true -> index_byte s ":" <> None -> ParseAddr_scan s full = parseIPv6 full.
Proof.
  induction s as [|c s IH]; [done|]. cbn [str_forallb index_byte]. intros [Hc Hs]%andb_true_iff Hi. specialize (IH Hs).
  destruct (Ascii.eqb_spec c ":") as [->|N]; [done|].
  assert (ParseAddr_scan (String c s) full = ParseAddr_scan s full) as ->.
  { destruct c as [[] [] [] [] [] [] [] []]; try done. }
  apply IH. intros E. by rewrite E in Hi.
Qed.

Lemma index_byte_app_r a b c : index_byte b c <> None -> index_byte (a +:+ b)%string c <> None.
Proof. intros H. induction a as [|d a IH]; [done|]. cbn. case_match; [done|]. by destruct (index_byte (a +:+ b) c). Qed.

(** [parseIPv6] on text with no ellipsis, and with one after [g1]. *)
Lemma parseIPv6_plain g : length g = 8%nat -> Forall is_u16 g -> parseIPv6 (sep_groups g) = Some (Addr6 (gbytes g) "").
Proof.
  intros Hlen Hg. unfold parseIPv6. rewrite chars_no_percent by apply sep_groups_chars. cbn [mbind option_bind].
  assert (HasPrefix (sep_groups g) "::" = false) as ->.
  { destruct g as [|x g]; [done|]. destruct (sep_groups_plain x g "") as (c & t & E & Hc). rewrite str_app_nil_r in E.
    rewrite E. cbn [HasPrefix]. by rewrite Ascii.eqb_sym, Hc. }
  cbn [andb]. rewrite loop_groups by (done || lia || by destruct g). cbn [mbind option_bind app].
  rewrite bool_decide_eq_true_2 by done. cbn [negb]. rewrite length_gbytes, Hlen. done.
Qed.

Lemma parseIPv6_ellipsis g1 g2 : Forall is_u16 g1 -> Forall is_u16 g2 -> (length g1 + length g2 <= 6)%nat ->
  parseIPv6 (sep_groups g1 +:+ String ":" (String ":" (sep_groups g2)))%string =
  Some (Addr6 (gbytes g1 ++ replicate (16 - 2 * (length g1 + length g2)) 0 ++ gbytes g2) "").
Proof.
  intros H1 H2 Hlen. unfold parseIPv6.
  rewrite chars_no_percent by (rewrite str_forallb_app, sep_groups_chars; cbn [str_forallb]; by rewrite sep_groups_chars).
  cbn [mbind option_bind].
  assert (sep_groups g2 = ""%string <-> g2 = []) as Hnil.
  { split; [|by intros ->]. destruct g2 as [|y g2]; [done|]. intros E.
    destruct (sep_groups_plain y g2 "") as (c & t & E' & _). by rewrite E in E'. }
  destruct g1 as [|x g1].
  - change (sep_groups []) with ""%string. cbn [String.append HasPrefix str_drop andb].
    rewrite !Ascii.eqb_refl. cbn [andb]. case_bool_decide as E.
    { apply Hnil in E as ->. done. }
    assert (g2 <> []) by (by intros ?%Hnil).
    rewrite loop_groups by (done || cbn in *; lia). cbn [mbind option_bind app negb]. rewrite bool_decide_eq_true_2 by done. cbn [negb].
    rewrite length_gbytes. rewrite (proj2 (Nat.ltb_lt _ _)) by (cbn in *; lia). done.
  - assert (HasPrefix (sep_groups (x :: g1) +:+ String ":" (String ":" (sep_groups g2)))%string "::" = false) as ->.
    { destruct (sep_groups_plain x g1 (String ":" (String ":" (sep_groups g2)))) as (c & t & E & Hc). rewrite E.
      cbn [HasPrefix]. by rewrite Ascii.eqb_sym, Hc. }
    cbn [andb]. rewrite loop_groups_ellipsis by (done || cbn in *; lia). cbn [app].
    set (G := x :: g1) in *. assert (length (gbytes G) = 2 * length G)%nat as HG by apply length_gbytes.
    case_bool_decide as E.
    + apply Hnil in E as ->. change (sep_groups []) with ""%string. cbn [mbind option_bind]. rewrite bool_decide_eq_true_2 by done. cbn [negb].
      rewrite (proj2 (Nat.ltb_lt _ _)) by (cbn in *; lia).
      rewrite take_ge, drop_ge, HG by lia. cbn [gbytes flat_map app length]. by rewrite !Nat.add_0_r.
    + assert (g2 <> []) by (by intros ?%Hnil).
      rewrite loop_groups by (done || cbn in *; lia). cbn [mbind option_bind]. rewrite bool_decide_eq_true_2 by done. cbn [negb].
      pose proof (length_gbytes g2). rewrite length_app, (proj2 (Nat.ltb_lt _ _)) by (cbn in *; lia).
      rewrite take_app_length, drop_app_length. by replace (16 - (length (gbytes G) + length (gbytes g2)))%nat with (16 - 2 * (length G + length g2))%nat by lia.
Qed.

Lemma gbytes_app a b : gbytes (a ++ b) = gbytes a ++ gbytes b.
Proof. unfold gbytes. by rewrite flat_map_app. Qed.

Lemma gbytes_zeros n : gbytes (replicate n 0) = replicate (2 * n) 0.
Proof. induction n as [|n IH]; [done|]. cbn [replicate]. rewrite gbytes_cons, IH. by replace (2 * S n)%nat with (S (S (2 * n))) by lia. Qed.

Lemma ParseAddr_string6 b : length b = 16%nat -> Forall is_byte b -> ParseAddr (string6 b) = Some (Addr6 b "").
Proof.
  intros Hlen Hb. destruct (gbytes_groups b Hlen Hb) as (Hgb & Hu & H8). unfold string6, ParseAddr.
  destruct (longest_zero 0 (groups b) (255, 255)%nat) as [zs ze] eqn:Hz. set (g := groups b) in *. clearbody g.
  destruct (Nat.eqb_spec zs 255) as [E|N].
  - rewrite chars_scan; [by rewrite parseIPv6_plain, Hgb by done|apply sep_groups_chars|].
    destruct g as [|x [|y g]]; [done..|]. rewrite sep_groups_cons. by apply index_byte_app_r.
  - apply longest_zero_spec in Hz as (_ & H2 & Hsplit & Hze); [|by intros [= -> _]].
    rewrite Nat.sub_0_r in *. cbn [String.append].
    rewrite chars_scan; [|rewrite str_forallb_app, sep_groups_chars; cbn [str_forallb]; by rewrite sep_groups_chars|by apply index_byte_app_r].
    assert (length (take zs g) = zs) as Ht by (rewrite length_take; lia).
    rewrite parseIPv6_ellipsis by ((rewrite length_drop; lia) || (by apply Forall_take) || (by apply Forall_drop)).
    rewrite Ht, length_drop, H8. do 2 f_equal. rewrite <- Hgb at 1. rewrite Hsplit at 3.
    rewrite !gbytes_app, gbytes_zeros. rewrite Nat.sub_0_r. do 3 f_equal. lia.
Qed.

(** ** Printing is faithful *)

(** The address an [IP] denotes: an IPv4-mapped one is the IPv4 address. *)
Definition denotes (ip : IP) : option Addr := Unmap <$> AddrFromSlice ip.

(** Parsing what [IP.String] prints gives back the address. *)
Theorem ParseAddr_IP_String ip a : Forall is_byte (bytes ip) -> denotes ip = Some a -> ParseAddr (IP_String ip) = Some a.
Proof.
  intros Hb. unfold denotes, AddrFromSlice, IP_String, To4.
  destruct (Nat.eqb_spec (length (bytes ip)) 4) as [E|_].
  { rewrite E. cbn [Nat.eqb negb andb fmap option_fmap option_map Unmap]. intros [= <-].
    destruct ip as [b|]; [|done]. cbn [bytes default id] in *. change (from_option _ _ (Some b)) with b in *.
    destruct b as [|? [|? [|? [|? [|]]]]]; try done. by apply ParseAddr_string4. }
  destruct (Nat.eqb_spec (length (bytes ip)) 16) as [E|_]; [|done].
  rewrite E. cbn [Nat.eqb negb andb fmap option_fmap option_map Unmap Is4In6]. intros [= <-].
  case_bool_decide as Hm; [|by apply ParseAddr_string6].
  assert (Forall is_byte (drop 12 (bytes ip))) as Hd by (by apply Forall_drop).
  assert (length (drop 12 (bytes ip)) = 4%nat) as Hl by (by rewrite length_drop, E).
  destruct (drop 12 (bytes ip)) as [|? [|? [|? [|? [|]]]]]; try done. by apply ParseAddr_string4.
Qed.

(** ** Host and port *)

Lemma index_byte_app a b c :
  index_byte (a +:+ b)%string c = match index_byte a c with Some i => Some i | None => Nat.add (String.length a) <$> index_byte b c end.
Proof.
  induction a as [|d a IH]; cbn; [by destruct (index_byte b c)|]. destruct (Ascii.eqb d c); [done|]. rewrite IH.
  destruct (index_byte a c); [done|]. by destruct (index_byte b c).
Qed.

Lemma LastIndex_byte_None s c : LastIndex s (String c "") = None <-> index_byte s c = None.
Proof.
  induction s as [|d s IH]; [done|]. cbn [LastIndex index_byte HasPrefix]. rewrite Ascii.eqb_sym, andb_true_r.
  destruct (LastIndex s _), (index_byte s c); destruct (Ascii.eqb d c); naive_solver.
Qed.

Lemma LastIndex_byte_app a b c : index_byte b c = None -> LastIndex (a +:+ String c b)%string (String c "") = Some (String.length a).
Proof.
  intros Hb. induction a as [|d a IH]; cbn [String.append LastIndex String.length].
  - rewrite (proj2 (LastIndex_byte_None b c) Hb). cbn. by rewrite Ascii.eqb_refl.
  - by rewrite IH.
Qed.

Lemma LastIndex_byte_split s c i : LastIndex s (String c "") = Some i -> index_byte (str_drop (S i) s) c = None.
Proof.
  revert i. induction s as [|d s IH]; intros i; cbn [LastIndex]; [done|].
  destruct (LastIndex s _) as [j|] eqn:E; [intros [= <-]; by apply IH|].
  case_match; [|done]. intros [= <-]. by apply LastIndex_byte_None.
Qed.

Lemma index_byte_drop s c n : index_byte s c = None -> index_byte (str_drop n s) c = None.
Proof.
  revert n. induction s as [|d s IH]; intros [|n]; try done. cbn. case_match; [done|]. intros E. apply IH.
  by destruct (index_byte s c).
Qed.

Lemma str_drop_drop n m s : str_drop n (str_drop m s) = str_drop (m + n) s.
Proof. revert s. induction m as [|m IH]; intros [|c s]; cbn; [done..| |apply IH]. by destruct n. Qed.

Lemma index_byte_drop_le s c j n : (j <= n)%nat -> index_byte (str_drop j s) c = None -> index_byte (str_drop n s) c = None.
Proof. intros Hj H. replace n with (j + (n - j))%nat by lia. rewrite <- str_drop_drop. by apply index_byte_drop. Qed.

(** A port that [SplitHostPort] returns has no colon and no bracket. *)
Lemma SplitHostPort_port addr host port : SplitHostPort addr = Ok (host, port) ->
  index_byte port ":" = None /\ index_byte port "[" = None /\ index_byte port "]" = None.
Proof.
  unfold SplitHostPort. destruct (LastIndex addr ":") as [i|] eqn:Hi; [|done].
  assert (forall h j k, (j <= S i)%nat -> (k <= S i)%nat ->
    match index_byte (str_drop j addr) "[", index_byte (str_drop k addr) "]" with
    | Some _, _ => Err (addrErr addr "unexpected '[' in address")
    | _, Some _ => Err (addrErr addr "unexpected ']' in address")
    | None, None => Ok (h, str_drop (S i) addr)
    end = Ok (host, port) -> index_byte port ":" = None /\ index_byte port "[" = None /\ index_byte port "]" = None) as Hf.
  { intros h j k Hj Hk. destruct (index_byte (str_drop j addr) "[") eqn:E1, (index_byte (str_drop k addr) "]") eqn:E2; try done.
    intros [= _ <-]. split; [by apply LastIndex_byte_split|].
    split; [exact (index_byte_drop_le _ _ _ _ Hj E1)|exact (index_byte_drop_le _ _ _ _ Hk E2)]. }
  destruct addr as [|c t]; [done|]. destruct (Ascii.eqb_spec c "[") as [->|N].
  - destruct (index_byte (String "[" t) "]") as [e|] eqn:He; [|done]. case_match; [done|].
    destruct (Nat.eqb_spec (S e) i) as [Hei|]; [apply Hf; lia|]. by case_match.
  - assert (forall A (x y : A), match c with "["%char => x | _ => y end = y) as Hm.
    { intros A x y. by destruct c as [[] [] [] [] [] [] [] []]. }
    intros H. rewrite Hm in H. case_match; [done|]. revert H. apply Hf; lia.
Qed.

Lemma SplitHostPort_bracket h p : index_byte h "[" = None -> index_byte h "]" = None ->
  index_byte p ":" = None -> index_byte p "[" = None -> index_byte p "]" = None ->
  SplitHostPort ("[" +:+ h +:+ "]:" +:+ p)%string = Ok (h, p).
Proof.
  intros H1 H2 P1 P2 P3. set (n := String.length h).
  assert (LastIndex (String "[" (h +:+ String "]" (String ":" p))) ":" = Some (S (S n))) as F1.
  { replace (String "[" (h +:+ String "]" (String ":" p)))%string with (String "[" (h +:+ "]") +:+ String ":" p)%string
      by (cbn; by rewrite str_app_assoc).
    rewrite LastIndex_byte_app by done. f_equal. cbn. rewrite str_length_app. cbn. lia. }
  assert (index_byte (String "[" (h +:+ String "]" (String ":" p))) "]" = Some (S n)) as F2.
  { cbn. rewrite index_byte_app, H2. cbn. by rewrite Nat.add_0_r. }
  assert (str_drop (S n) (h +:+ String "]" (String ":" p))%string = String ":" p) as F3.
  { replace (S n) with (n + 1)%nat by lia. apply (str_drop_app_plus h). }
  assert (str_drop (S (S n)) (h +:+ String "]" (String ":" p))%string = p) as F4.
  { replace (S (S n)) with (n + 2)%nat by lia. apply (str_drop_app_plus h). }
  assert (String.length (String "[" (h +:+ String "]" (String ":" p))) = S (S (S n) + String.length p)) as F5.
  { cbn. rewrite str_length_app. cbn. fold n. lia. }
  change ("[" +:+ h +:+ "]:" +:+ p)%string with (String "[" (h +:+ String "]" (String ":" p)))%string.
  unfold SplitHostPort. rewrite F1. cbv beta iota zeta. rewrite F2, F5.
  rewrite (proj2 (Nat.eqb_neq _ _)) by lia. rewrite Nat.eqb_refl.
  change (str_drop 1 (String "[" (h +:+ String "]" (String ":" p)))) with (h +:+ String "]" (String ":" p))%string.
  change (str_drop (S (S n)) (String "[" (h +:+ String "]" (String ":" p)))) with (str_drop (S n) (h +:+ String "]" (String ":" p))).
  change (str_drop (S (S (S n))) (String "[" (h +:+ String "]" (String ":" p)))) with (str_drop (S (S n)) (h +:+ String "]" (String ":" p))).
  rewrite F3, F4, index_byte_app, H1. cbn [index_byte]. rewrite P2, P3. cbn. rewrite Nat.sub_0_r. subst n. by rewrite str_take_app.
Qed.

Lemma SplitHostPort_plain h p : index_byte h ":" = None -> index_byte h "[" = None -> index_byte h "]" = None ->
  index_byte p ":" = None -> index_byte p "[" = None -> index_byte p "]" = None ->
  SplitHostPort (h +:+ ":" +:+ p)%string = Ok (h, p).
Proof.
  intros H0 H1 H2 P1 P2 P3. set (n := String.length h). change (":" +:+ p)%string with (String ":" p).
  assert (str_drop (S n) (h +:+ String ":" p)%string = p) as F1.
  { replace (S n) with (n + 1)%nat by lia. apply (str_drop_app_plus h). }
  assert (match index_byte (h +:+ String ":" p)%string "[", index_byte (h +:+ String ":" p)%string "]" with
          | None, None => True | _, _ => False end) as F2.
  { rewrite !index_byte_app, H1, H2. cbn [index_byte]. by rewrite P2, P3. }
  unfold SplitHostPort. rewrite LastIndex_byte_app by done. fold n. cbv beta iota zeta.
  rewrite F1. change (str_drop 0 ?s) with s in *. unfold n. rewrite str_take_app, H0.
  change (str_drop 0 (h +:+ String ":" p)%string) with (h +:+ String ":" p)%string.
  destruct (index_byte (h +:+ String ":" p) "["), (index_byte (h +:+ String ":" p) "]"); try done.
  destruct h as [|c h]; [done|]. cbn [String.append]. cbn in H1. destruct c as [[] [] [] [] [] [] [] []]; done.
Qed.

(** The text of an address has no bracket; of an IPv4 address no colon. *)
Definition addr_char (c : ascii) : bool := hex_or_colon c || Ascii.eqb c ".".

Lemma index_byte_forall f s c : str_forallb f s = true -> f c = false -> index_byte s c = None.
Proof.
  intros Hs Hc. induction s as [|d s IH]; [done|]. cbn in *. apply andb_true_iff in Hs as [Hd Hs]. rewrite (IH Hs).
  destruct (Ascii.eqb_spec d c) as [->|]; [congruence|done].
Qed.

Lemma Itoa_chars x : is_byte x -> str_forallb (fun c => is_digit c || Ascii.eqb c ".") (Itoa x) = true.
Proof. byte_enum x. Qed.

Lemma string4_chars a b c d : Forall is_byte [a; b; c; d] -> str_forallb (fun c => is_digit c || Ascii.eqb c ".") (string4 [a; b; c; d]) = true.
Proof.
  intros H. repeat (apply Forall_cons in H as [? H]). rewrite string4_unfold.
  repeat (rewrite str_forallb_app, Itoa_chars by done; cbn [str_forallb andb]). done.
Qed.

Lemma string6_chars b : str_forallb hex_or_colon (string6 b) = true.
Proof.
  unfold string6. destruct (longest_zero _ _ _) as [zs ze]. case_match; [apply sep_groups_chars|].
  rewrite str_forallb_app, sep_groups_chars. cbn [String.append str_forallb]. by rewrite sep_groups_chars.
Qed.

(** Splitting what [JoinHostPort] joins from a printed address and a port. *)
Lemma SplitHostPort_Join ip a port : Forall is_byte (bytes ip) -> denotes ip = Some a ->
  index_byte port ":" = None -> index_byte port "[" = None -> index_byte port "]" = None ->
  SplitHostPort (JoinHostPort (IP_String ip) port) = Ok (IP_String ip, port).
Proof.
  intros Hb Hd P1 P2 P3.
  assert (exists f, str_forallb f (IP_String ip) = true /\ f "["%char = false /\ f "]"%char = false) as (f & Hf & Hl & Hr).
  { revert Hd. unfold denotes, AddrFromSlice, IP_String, To4.
    destruct (Nat.eqb_spec (length (bytes ip)) 4) as [E|_].
    { rewrite E. intros _. exists (fun c => is_digit c || Ascii.eqb c "."). split; [|done]. cbn [Nat.eqb negb andb].
      destruct ip as [b|]; [|done]. change (bytes (Some b)) with b in *.
      destruct b as [|? [|? [|? [|? [|]]]]]; try done. by apply string4_chars. }
    destruct (Nat.eqb_spec (length (bytes ip)) 16) as [E|_]; [|done]. rewrite E. intros _. cbn [Nat.eqb negb andb].
    case_bool_decide as Hm; [|exists hex_or_colon; split; [apply string6_chars|done]].
    exists (fun c => is_digit c || Ascii.eqb c "."). split; [|done].
    assert (Forall is_byte (drop 12 (bytes ip))) as Hdr by (by apply Forall_drop).
    assert (length (drop 12 (bytes ip)) = 4%nat) as Hln by (by rewrite length_drop, E).
    destruct (drop 12 (bytes ip)) as [|? [|? [|? [|? [|]]]]]; try done. by apply string4_chars. }
  unfold JoinHostPort. destruct (index_byte (IP_String ip) ":") eqn:Ec.
  - apply SplitHostPort_bracket; try done; by eapply index_byte_forall.
  - apply SplitHostPort_plain; try done; by eapply index_byte_forall.
Qed.

(** ** The dial function *)

Section DialTheory.

Context {Conn : Type} (LookupIP : string -> result string (list IP)) (dial : string -> result string Conn).

(** An address that may be dialed for [host]. *)
Definition allowed (allow : option Allowlist) (host : string) (ip : IP) : Prop :=
  IsPublicIP ip = true \/ Permits allow host ip = true.

Lemma check_ips_spec allow host ips :
  match check_ips allow host ips with
  | Ok _ => Forall (allowed allow host) ips
  | Err _ => exists ip, ip ∈ ips /\ ~ allowed allow host ip
  end.
Proof.
  induction ips as [|ip ips IH]; cbn [check_ips]; [constructor|]. unfold allowed in *.
  destruct (IsPublicIP ip) eqn:E1; cbn [negb andb].
  2: destruct (Permits allow host ip) eqn:E2; cbn [negb].
  3: { exists ip. split; [left|]. rewrite E1, E2. by intros [|]. }
  all: destruct (check_ips allow host ips); [constructor; [by auto|done]|];
    destruct IH as (ip' & ? & ?); exists ip'; (split; [by right|done]).
Qed.

(** A connection is made only after every address of the single lookup passed
    the check, and to the first of them. *)
Lemma dial_ok allow addr conn : ssrfSafeDialContext LookupIP dial allow addr = Ok conn ->
  exists host port ip rest, SplitHostPort addr = Ok (host, port) /\ LookupIP host = Ok (ip :: rest) /\
    Forall (allowed allow host) (ip :: rest) /\ dial (JoinHostPort (IP_String ip) port) = Ok conn.
Proof.
  unfold ssrfSafeDialContext. intros H. destruct (SplitHostPort addr) as [[host port]|] eqn:E1; [|done].
  destruct (LookupIP host) as [[|ip rest]|] eqn:E2; [done| |done].
  pose proof (check_ips_spec allow host (ip :: rest)) as Hc.
  destruct (check_ips allow host (ip :: rest)); [|done]. by exists host, port, ip, rest.
Qed.

(** C25. Whatever the resolver answers, a connection is made only after every
    address it returned was found public or permitted, and what is dialed is the
    literal form of the first one: the target splits into its text and the port,
    and the text parses to that address, so nothing is resolved again. *)
Theorem dial_checked allow addr conn :
  (forall host ips, LookupIP host = Ok ips -> Forall (fun ip => Forall is_byte (bytes ip) /\ is_Some (AddrFromSlice ip)) ips) ->
  ssrfSafeDialContext LookupIP dial allow addr = Ok conn ->
  exists host port ips ip target text a,
    SplitHostPort addr = Ok (host, port) /\ LookupIP host = Ok ips /\ head ips = Some ip /\
    Forall (allowed allow host) ips /\
    dial target = Ok conn /\ SplitHostPort target = Ok (text, port) /\ ParseAddr text = Some a /\ denotes ip = Some a.
Proof.
  intros Hres (host & port & ip & rest & Hs & Hl & Ha & Hd)%dial_ok.
  pose proof (Hres _ _ Hl) as [[Hb [a0 H0]] _]%Forall_cons.
  destruct (SplitHostPort_port _ _ _ Hs) as (P1 & P2 & P3).
  assert (denotes ip = Some (Unmap a0)) as Hden by (unfold denotes; by rewrite H0).
  exists host, port, (ip :: rest), ip, (JoinHostPort (IP_String ip) port), (IP_String ip), (Unmap a0).
  repeat split; try done; [by eapply SplitHostPort_Join|by apply ParseAddr_IP_String].
Qed.

(** Nothing is dialed when an address of the lookup is not allowed: the answer
    is the same error whatever the dialer does. *)
Theorem dial_blocked allow addr host port ips ip :
  SplitHostPort addr = Ok (host, port) -> LookupIP host = Ok ips -> ip ∈ ips -> ~ allowed allow host ip ->
  exists bad, bad ∈ ips /\ ~ allowed allow host bad /\
    forall dial' : string -> result string Conn, ssrfSafeDialContext LookupIP dial' allow addr =
      Err ("blocked connection to non-public address " +:+ IP_String bad +:+ " (host " +:+ host +:+ ")")%string.
Proof.
  intros Hs Hl Hin Hbad. unfold ssrfSafeDialContext. rewrite Hs, Hl.
  destruct ips as [|ip0 rest]; [by apply elem_of_nil in Hin|]. clear Hl.
  enough (exists bad, bad ∈ ip0 :: rest /\ ~ allowed allow host bad /\ check_ips allow host (ip0 :: rest) =
      Err ("blocked connection to non-public address " +:+ IP_String bad +:+ " (host " +:+ host +:+ ")")%string) as (bad & H1 & H2 & H3).
  { exists bad. split; [done|]. split; [done|]. intros dial'. by rewrite H3. }
  induction (ip0 :: rest) as [|x l IH]; [by apply elem_of_nil in Hin|]. cbn [check_ips].
  destruct (negb (IsPublicIP x) && negb (Permits allow host x)) eqn:E.
  - exists x. split; [left|]. split; [|done]. unfold allowed. apply andb_true_iff in E as [E1%negb_true_iff E2%negb_true_iff].
    rewrite E1, E2. by intros [|].
  - apply elem_of_cons in Hin as [<-|Hin].
    + exfalso. apply Hbad. unfold allowed. destruct (IsPublicIP ip); [by left|]. destruct (Permits allow host ip); [by right|done].
    + destruct (IH Hin) as (bad & ? & ? & ?). exists bad. split; [by right|done].
Qed.

End DialTheory.

(** ** Entries that can never match *)

(** [Permits] unwraps the resolved address before it compares, the entries are
    not unwrapped: an entry written as an IPv4-mapped, 6to4 or NAT64 address is
    accepted by [NewAllowlist] and matches no address. *)
Lemma unwrap_not_wrapped addr b z : unwrap addr = Addr6 b z -> Unmap (Addr6 b z) = Addr6 b z /\ embeddedIPv4 (Addr6 b z) = None.
Proof.
  unfold unwrap. intros H. destruct (embeddedIPv4 (Unmap addr)) eqn:E.
  { subst. revert E. unfold embeddedIPv4. repeat case_match; intros; simplify_eq. }
  rewrite H in E. split; [|done]. destruct addr as [| |b' z']; [done..|]. cbn [Unmap Is4In6] in *.
  case_bool_decide; [done|]. simplify_eq. by rewrite bool_decide_eq_false_2.
Qed.

Theorem wrapped_entry_dead raw b z host ip :
  ParseAddr (TrimSpace raw) = Some (Addr6 b z) -> ParsePrefix (TrimSpace raw) = None ->
  TrimSpace raw <> ""%string -> length b = 16%nat -> Forall is_byte b -> Forall is_byte (bytes ip) ->
  unwrap (Addr6 b "") <> Addr6 b "" ->
  exists al, NewAllowlist [raw] = Ok al /\ Permits (Some al) host ip = false.
Proof.
  intros Ha Hp Hne Hlen Hb Hip Hw. unfold NewAllowlist. cbn [allow_entries].
  unfold allow_entry. rewrite bool_decide_eq_false_2, Hp, Ha by done. eexists. split; [done|].
  cbn [Is6 PrefixFrom withoutZone hostnames prefixes app].
  apply not_true_iff_false. rewrite Permits_ranges. cbn [hostnames prefixes].
  intros [Hh|(addr & p & Hs & Hin & Hc)]; [set_solver|]. apply list_elem_of_singleton in Hin as ->.
  unfold covers, PrefixFrom in Hc. cbn [p_ip p_bits withoutZone] in Hc. destruct (unwrap addr) as [| |y zy] eqn:Eu; [done..|].
  destruct Hc as (-> & _ & Hc). apply Hw.
  assert (y = b) as <-.
  { unfold in_block, prefix_block in Hc. cbn [fst snd] in Hc. change (2 ^ (128 - 128)) with 1 in Hc. rewrite !Z.div_1_r, Z.mul_1_r in Hc.
    assert (length y = 16%nat /\ Forall is_byte y) as [? ?].
    { unfold AddrFromSlice in Hs. destruct (Nat.eqb_spec (length (bytes ip)) 4); [simplify_eq; by cbn in Eu|].
      destruct (Nat.eqb_spec (length (bytes ip)) 16); [|done]. simplify_eq.
      pose proof (unwrap_ref (bytes ip) ltac:(done) Hip) as Hu. rewrite Eu in Hu. destruct Hu as ([= ->] & _). done. }
    apply be_val_inj; [congruence|done..|]. apply andb_true_iff in Hc as [?%Z.leb_le ?%Z.ltb_lt]. lia. }
  destruct (unwrap_not_wrapped _ _ _ Eu) as [H1 H2]. unfold unwrap. by rewrite H1, H2.
Qed.

(** ** The properties at concrete inputs *)

(** 2002:a9fe:a9fe:: carries 169.254.169.254, the metadata endpoint. *)
Definition metadata_6to4 : IP := Some [32; 2; 169; 254; 169; 254; 0; 0; 0; 0; 0; 0; 0; 0; 0; 0].

Lemma IsPublicIP_ref_witness : IsPublicIP metadata_6to4 = public_ref metadata_6to4 /\ public_ref metadata_6to4 = false.
Proof. destruct (IsPublicIP_ref metadata_6to4) as [H _]; [cbn; byte_list|]. split; [exact H|by vm_compute]. Defined.

Definition demo_lookup (host : string) : result string (list IP) :=
  if bool_decide (host = "example.com"%string) then Ok [Some [93; 184; 216; 34]; Some [32; 1; 13; 184; 0; 0; 0; 0; 0; 0; 0; 0; 0; 0; 0; 1]]
  else Err "no such host".

Definition demo_dial (target : string) : result string string := Ok target.

Lemma demo_lookup_bytes host ips : demo_lookup host = Ok ips ->
  Forall (fun ip => Forall is_byte (bytes ip) /\ is_Some (AddrFromSlice ip)) ips.
Proof.
  unfold demo_lookup. case_bool_decide; [|done]. intros [= <-].
  repeat (apply Forall_cons_2; [split; [cbn; byte_list|by eexists]|]). apply Forall_nil_2.
Qed.

Lemma dial_checked_witness : exists host port ips ip target text a,
  SplitHostPort "example.com:443" = Ok (host, port) /\ demo_lookup host = Ok ips /\ head ips = Some ip /\
  Forall (allowed None host) ips /\
  demo_dial target = Ok "93.184.216.34:443"%string /\ SplitHostPort target = Ok (text, port) /\ ParseAddr text = Some a /\ denotes ip = Some a.
Proof. apply (dial_checked demo_lookup demo_dial None "example.com:443"); [apply demo_lookup_bytes|by vm_compute]. Defined.

Lemma wrapped_entry_dead_witness :
  exists al, NewAllowlist ["::ffff:10.0.0.5"%string] = Ok al /\ Permits (Some al) "artifacts" (Some [10; 0; 0; 5]) = false.
Proof.
  apply (wrapped_entry_dead "::ffff:10.0.0.5" [0; 0; 0; 0; 0; 0; 0; 0; 0; 0; 255; 255; 10; 0; 0; 5] "");
    [by vm_compute|by vm_compute|vm_compute; discriminate|done|byte_list|cbn; byte_list|vm_compute; discriminate].
Defined.
