(* ===== verification/KVStore.v ===== *)
(** * The in-memory key/value store (src/framework/kvstore/kvstore.go)

    The store maps keys to entries that carry the time they were written and
    the time they expire, prunes expired entries lazily on reads and
    periodically in a cleanup goroutine, and gossips its mutations to other
    nodes through a delegate.  Every operation is one definition; the readings
    of [time.Now] are arguments.  [KV.Spec] is the abstract map with
    deadlines that the store implements; [KVStoreTheory] shows the refinement,
    last-write-wins convergence and the overflow behaviour. *)

From S2P Require Import Prelude GoStrings.
Local Open Scope Z_scope.
Local Open Scope go_scope.

Module KV.

Inductive Error := ErrClosed | ErrEmptyKey | ErrNotFound | ErrInvalidTTL | ErrMarshal.

#[global] Instance Error_eq_dec : EqDecision Error.
Proof. solve_decision. Defined.

(** What the delegate is told, in the order the store tells it. *)
Inductive Sync :=
| OnSet (key valueJSON : string) (writtenAt expiresAt : Z)
| OnDelete (key : string) (deletedAt : Z).

Record Config := { CleanupInterval : Z; DefaultTTL : Z }.

Definition defaultCleanupInterval : Z := 30 * Second.
Definition noExpirationUnixNanos : Z := 0.

Section store.
(** [V] is Go's [any]; [of_bytes] boxes a [[]byte]; [Marshal] is
    [sonic.Marshal], a third-party encoder, with [None] for its error. *)
Context {V : Type} (Marshal : V -> option string) (of_bytes : string -> V).

Record entry := { value : V; writtenAt : Z; expiresAt : Z }.

Definition TypeDecoder : Type := string -> option V.

Record Store := mkStore {
  data : gmap string entry;
  defaultTTL : Z;
  cleanupInterval : Z;
  closed : bool;
  delegate : bool;
  decoders : gmap string TypeDecoder }.

Definition with_data (s : Store) (d : gmap string entry) : Store :=
  mkStore d (defaultTTL s) (cleanupInterval s) (closed s) (delegate s) (decoders s).

Definition isExpired (e : entry) (nowUnixNano : Z) : bool :=
  bool_decide (expiresAt e <> noExpirationUnixNanos) && bool_decide (nowUnixNano >= expiresAt e).

Definition SetDelegate (s : Store) (d : bool) : Store :=
  mkStore (data s) (defaultTTL s) (cleanupInterval s) (closed s) d (decoders s).

Definition RegisterDecoder (s : Store) (keyPrefix : string) (decoder : TypeDecoder) : Store :=
  mkStore (data s) (defaultTTL s) (cleanupInterval s) (closed s) (delegate s)
    (<[keyPrefix := decoder]> (decoders s)).

Definition New (cfg : Config) : result Error Store :=
  if bool_decide (DefaultTTL cfg < 0) then Err ErrInvalidTTL
  else
    let interval :=
      if bool_decide (CleanupInterval cfg <= 0) then defaultCleanupInterval
      else CleanupInterval cfg in
    Ok (mkStore ∅ (DefaultTTL cfg) interval false false ∅).

Definition validateMutable (s : Store) (key : string) (ttl : Z) : result Error unit :=
  if bool_decide (key = ""%string) then Err ErrEmptyKey
  else if bool_decide (ttl < 0) then Err ErrInvalidTTL
  else if closed s then Err ErrClosed
  else Ok tt.

(** [var expiresAt int64; if ttl > 0 { expiresAt = now + int64(ttl) }]. *)
Definition expiry (now ttl : Z) : Z := if bool_decide (ttl > 0) then now +i ttl else 0.

(** The JSON the delegate is sent: computed only when a delegate is set. *)
Definition marshalFor (s : Store) (v : V) : option string :=
  if delegate s then Marshal v else Some ""%string.

Definition notify (s : Store) (e : Sync) : list Sync := if delegate s then [e] else [].

Definition SetWithTTL (s : Store) (key : string) (v : V) (ttl now : Z)
    : result Error unit * Store * list Sync :=
  match validateMutable s key ttl with
  | Err e => (Err e, s, [])
  | Ok _ =>
      let exp := expiry now ttl in
      match marshalFor s v with
      | None => (Err ErrMarshal, s, [])
      | Some json =>
          (Ok tt,
           with_data s (<[key := {| value := v; writtenAt := now; expiresAt := exp |}]> (data s)),
           notify s (OnSet key json now exp))
      end
  end.

Definition Set_ (s : Store) (key : string) (v : V) (now : Z) :=
  SetWithTTL s key v (defaultTTL s) now.

Definition SetNXWithTTL (s : Store) (key : string) (v : V) (ttl now : Z)
    : result Error bool * Store * list Sync :=
  match validateMutable s key ttl with
  | Err e => (Err e, s, [])
  | Ok _ =>
      let exp := expiry now ttl in
      match marshalFor s v with
      | None => (Err ErrMarshal, s, [])
      | Some json =>
          let live := match data s !! key with
                      | Some existing => negb (isExpired existing now)
                      | None => false
                      end in
          if live then (Ok false, s, [])
          else
            (Ok true,
             with_data s (<[key := {| value := v; writtenAt := now; expiresAt := exp |}]> (data s)),
             notify s (OnSet key json now exp))
      end
  end.

(** The loop of [decodeValue] over the decoder map, in the order [l] the map
    happens to be traversed; the accumulator is the best prefix so far. *)
Definition pickStep (key : string) (best : string * option TypeDecoder)
    (pd : string * TypeDecoder) : string * option TypeDecoder :=
  if HasPrefix key pd.1 && (String.length best.1 <? String.length pd.1)%nat
  then (pd.1, Some pd.2) else best.

Definition pickDecoder (key : string) (l : list (string * TypeDecoder)) : option TypeDecoder :=
  (foldl (pickStep key) (""%string, None) l).2.

Definition decodeValue (s : Store) (key valueJSON : string) : V :=
  match pickDecoder key (map_to_list (decoders s)) with
  | Some decode => match decode valueJSON with Some v => v | None => of_bytes valueJSON end
  | None => of_bytes valueJSON
  end.

Definition SetRemote (s : Store) (key valueJSON : string) (wr exp : Z)
    : result Error unit * Store :=
  if bool_decide (key = ""%string) then (Err ErrEmptyKey, s)
  else if closed s then (Err ErrClosed, s)
  else
    let v := decodeValue s key valueJSON in
    let stale := match data s !! key with
                 | Some existing => bool_decide (writtenAt existing > wr)
                 | None => false
                 end in
    if stale then (Ok tt, s)
    else (Ok tt, with_data s (<[key := {| value := v; writtenAt := wr; expiresAt := exp |}]> (data s))).

(** The second critical section of [Get]: the entry is deleted only if it is
    (still) there and (still) expired at the second reading of the clock. *)
Definition pruneKey (s : Store) (key : string) (now : Z) : Store :=
  match data s !! key with
  | Some latest => if isExpired latest now then with_data s (delete key (data s)) else s
  | None => s
  end.

Definition Get (s : Store) (key : string) (now now' : Z) : result Error V * Store :=
  if bool_decide (key = ""%string) then (Err ErrEmptyKey, s)
  else if closed s then (Err ErrClosed, s)
  else match data s !! key with
       | None => (Err ErrNotFound, s)
       | Some e =>
           if isExpired e now then (Err ErrNotFound, pruneKey s key now')
           else (Ok (value e), s)
       end.

Definition GetAndDelete (s : Store) (key : string) (now : Z)
    : result Error V * Store * list Sync :=
  if bool_decide (key = ""%string) then (Err ErrEmptyKey, s, [])
  else if closed s then (Err ErrClosed, s, [])
  else match data s !! key with
       | None => (Err ErrNotFound, s, [])
       | Some e =>
           let s' := with_data s (delete key (data s)) in
           if isExpired e now then (Err ErrNotFound, s', [])
           else (Ok (value e), s', notify s (OnDelete key now))
       end.

Definition Delete (s : Store) (key : string) (deletedAt : Z)
    : result Error bool * Store * list Sync :=
  if bool_decide (key = ""%string) then (Err ErrEmptyKey, s, [])
  else if closed s then (Err ErrClosed, s, [])
  else match data s !! key with
       | None => (Ok false, s, [])
       | Some _ =>
           (Ok true, with_data s (delete key (data s)), notify s (OnDelete key deletedAt))
       end.

Definition DeleteRemote (s : Store) (key : string) (deletedAt : Z) : result Error unit * Store :=
  if bool_decide (key = ""%string) then (Err ErrEmptyKey, s)
  else if closed s then (Err ErrClosed, s)
  else
    let newer := match data s !! key with
                 | Some existing => bool_decide (writtenAt existing > deletedAt)
                 | None => false
                 end in
    if newer then (Ok tt, s) else (Ok tt, with_data s (delete key (data s))).

Definition Len (s : Store) (now : Z) : nat :=
  if closed s then 0%nat
  else map_fold (fun _ e n => if isExpired e now then n else S n) 0%nat (data s).

Definition Close (s : Store) : Store :=
  mkStore (data s) (defaultTTL s) (cleanupInterval s) true (delegate s) (decoders s).

(** One tick of [cleanupLoop]. *)
Definition cleanupExpired (s : Store) (now : Z) : Store :=
  with_data s (filter (fun ke => isExpired ke.2 now = false) (data s)).

End store.

Arguments entry : clear implicits.
Arguments Store : clear implicits.
Arguments TypeDecoder : clear implicits.

(** ** The abstract map

    A map from keys to a value and an optional deadline.  Nothing is ever
    pruned; a value is visible until its deadline. *)
Module Spec.
Section spec.
Context {V : Type}.

Record State := mkState { sdata : gmap string (V * option Z); sclosed : bool }.

Definition alive (t : Z) (d : option Z) : bool :=
  match d with None => true | Some d => bool_decide (t < d) end.

Definition slookup (a : State) (t : Z) (k : string) : option V :=
  match sdata a !! k with
  | Some (v, d) => if alive t d then Some v else None
  | None => None
  end.

Definition sset (a : State) (k : string) (v : V) (d : option Z) : State :=
  mkState (<[k := (v, d)]> (sdata a)) (sclosed a).

Definition sdelete (a : State) (k : string) : State :=
  mkState (delete k (sdata a)) (sclosed a).

Definition deadline (now ttl : Z) : option Z :=
  if bool_decide (ttl = 0) then None else Some (now + ttl).
End spec.
Arguments State : clear implicits.
End Spec.


(** ** Traces of local operations *)

Section traces.
Context {V : Type} (Marshal : V -> option string).

(** A local operation and what it returns. *)
Inductive Op :=
| OpSet (k : string) (v : V)
| OpSetWithTTL (k : string) (v : V) (ttl : Z)
| OpSetNX (k : string) (v : V) (ttl : Z)
| OpGet (k : string)
| OpGetAndDelete (k : string)
| OpDelete (k : string)
| OpLen
| OpCleanup
| OpClose.

Inductive Res :=
| RUnit (r : result Error unit)
| RBool (r : result Error bool)
| RVal (r : result Error V)
| RLen (n : nat).

(** One operation of the store, at the clock readings [now] and [now']. *)
Definition exec (s : Store V) (op : Op) (now now' : Z) : Res * Store V :=
  match op with
  | OpSet k v => let r := Set_ Marshal s k v now in (RUnit r.1.1, r.1.2)
  | OpSetWithTTL k v ttl => let r := SetWithTTL Marshal s k v ttl now in (RUnit r.1.1, r.1.2)
  | OpSetNX k v ttl => let r := SetNXWithTTL Marshal s k v ttl now in (RBool r.1.1, r.1.2)
  | OpGet k => let r := Get s k now now' in (RVal r.1, r.2)
  | OpGetAndDelete k => let r := GetAndDelete s k now in (RVal r.1.1, r.1.2)
  | OpDelete k => let r := Delete s k now in (RBool r.1.1, r.1.2)
  | OpLen => (RLen (Len s now), s)
  | OpCleanup => (RUnit (Ok tt), cleanupExpired s now)
  | OpClose => (RUnit (Ok tt), Close s)
  end.

(** The same operation on the abstract map; [dflt] is the default TTL and
    [dlg] tells whether a delegate is set (and values must marshal). *)
Section spec_exec.
Context (dflt : Z) (dlg : bool).
Import Spec.

Definition svalidate (a : State V) (k : string) (ttl : Z) (v : V) : result Error unit :=
  if bool_decide (k = ""%string) then Err ErrEmptyKey
  else if bool_decide (ttl < 0) then Err ErrInvalidTTL
  else if sclosed a then Err ErrClosed
  else match (if dlg then Marshal v else Some ""%string) with None => Err ErrMarshal | Some _ => Ok tt end.

Definition sread (a : State V) (k : string) : result Error unit :=
  if bool_decide (k = ""%string) then Err ErrEmptyKey
  else if sclosed a then Err ErrClosed else Ok tt.

Definition sexec_set (a : State V) (k : string) (v : V) (ttl now : Z) : Res * State V :=
  match svalidate a k ttl v with
  | Err e => (RUnit (Err e), a)
  | Ok _ => (RUnit (Ok tt), sset a k v (deadline now ttl))
  end.

Definition sview (a : State V) (t : Z) : gmap string V :=
  omap (fun vd => if alive t vd.2 then Some vd.1 else None) (sdata a).

Definition sexec (a : State V) (op : Op) (now : Z) : Res * State V :=
  match op with
  | OpSet k v => sexec_set a k v dflt now
  | OpSetWithTTL k v ttl => sexec_set a k v ttl now
  | OpSetNX k v ttl =>
      match svalidate a k ttl v with
      | Err e => (RBool (Err e), a)
      | Ok _ =>
          match sview a now !! k with
          | Some _ => (RBool (Ok false), a)
          | None => (RBool (Ok true), sset a k v (deadline now ttl))
          end
      end
  | OpGet k =>
      (RVal (match sread a k with
             | Err e => Err e
             | Ok _ => match sview a now !! k with Some v => Ok v | None => Err ErrNotFound end
             end), a)
  | OpGetAndDelete k =>
      match sread a k with
      | Err e => (RVal (Err e), a)
      | Ok _ => (RVal (match sview a now !! k with Some v => Ok v | None => Err ErrNotFound end),
                 sdelete a k)
      end
  | OpDelete k =>
      match sread a k with
      | Err e => (RBool (Err e), a)
      | Ok _ => (RBool (Ok (bool_decide (is_Some (sview a now !! k)))), sdelete a k)
      end
  | OpLen => (RLen (if sclosed a then 0%nat else size (sview a now)), a)
  | OpCleanup => (RUnit (Ok tt), a)
  | OpClose => (RUnit (Ok tt), mkState (sdata a) true)
  end.

(** The results the abstract map allows: its own, and for [Delete] also that
    there was something to delete, when what was set is past its deadline (the
    store may not have pruned it yet). *)
Definition allowed (a : State V) (op : Op) (now : Z) (r : Res) : Prop :=
  r = (sexec a op now).1 \/
  exists k vd, op = OpDelete k /\ sread a k = Ok tt /\ sdata a !! k = Some vd /\ alive now vd.2 = false /\
               r = RBool (Ok true).
End spec_exec.

(** Runs of a list of operations with their clock readings. *)
Fixpoint run (s : Store V) (tr : list (Op * Z * Z)) : list Res :=
  match tr with
  | [] => []
  | (op, now, now') :: tr => let r := exec s op now now' in r.1 :: run r.2 tr
  end.

(** Whether a list of results is one the abstract map allows for a trace. *)
Fixpoint srun (dflt : Z) (dlg : bool) (a : Spec.State V) (tr : list (Op * Z * Z)) (rs : list Res) : Prop :=
  match tr, rs with
  | [], [] => True
  | (op, now, _) :: tr, r :: rs => allowed dflt dlg a op now r /\ srun dflt dlg (sexec dflt dlg a op now).2 tr rs
  | _, _ => False
  end.

Definition op_ttl (dflt : Z) (op : Op) : Z :=
  match op with
  | OpSet _ _ => dflt
  | OpSetWithTTL _ _ ttl | OpSetNX _ _ ttl => ttl
  | _ => 0
  end.

(** The clock readings of a trace from time [t] on do not go backwards, and
    no expiry leaves the range of [int64]. *)
Fixpoint clocked (dflt t : Z) (tr : list (Op * Z * Z)) : bool :=
  match tr with
  | [] => true
  | (op, now, now') :: tr =>
      bool_decide (t <= now) && bool_decide (now <= now') && bool_decide (0 <= now) &&
      bool_decide (now + op_ttl dflt op < two63) && clocked dflt now' tr
  end.
End traces.
Arguments Op : clear implicits.
Arguments Res : clear implicits.
End KV.
