(* ===== verification/KVStoreTheory.v ===== *)
(** * Theorems on the key/value store

    The store refines a map with deadlines that never prunes, but for what
    [Delete] says of a key past its deadline ([store_refines_spec]); remote
    writes with distinct timestamps converge in any order of delivery; the
    decoder chosen for a gossiped value is the one with the longest matching
    prefix whatever the order the decoder map is traversed in; and a TTL whose
    expiry leaves [int64] gives an entry that is expired from the start. *)

From S2P Require Import Prelude GoStrings KVStore.
Local Open Scope Z_scope.
Local Open Scope go_scope.

Import KV.

Section store_view.
Context {V : Type} (Marshal : V -> option string).
Implicit Types (s : Store V) (a : Spec.State V) (k : string) (t : Z).

(** The entries a reader at time [t] can see. *)
Definition view s t : gmap string V :=
  omap (fun e => if isExpired e t then None else Some (value e)) (data s).

Lemma lookup_view s t k :
  view s t !! k = match data s !! k with
                  | Some e => if isExpired e t then None else Some (value e)
                  | None => None
                  end.
Proof. unfold view. rewrite lookup_omap. by destruct (data s !! k). Qed.

Lemma lookup_sview a t k :
  sview a t !! k = match Spec.sdata a !! k with
                   | Some vd => if Spec.alive t vd.2 then Some vd.1 else None
                   | None => None
                   end.
Proof. unfold sview. rewrite lookup_omap. by destruct (Spec.sdata a !! k). Qed.

(** An expired entry stays expired. *)
Lemma isExpired_mono (e : entry V) t t' : t <= t' -> isExpired e t = true -> isExpired e t' = true.
Proof. unfold isExpired. rewrite !andb_true_iff, !bool_decide_eq_true. lia. Qed.

Lemma with_data_data s : with_data s (data s) = s.
Proof. by destruct s. Qed.

(** Deleting an expired entry changes no later view. *)
Lemma view_delete_expired s k e now t :
  data s !! k = Some e -> isExpired e now = true -> now <= t ->
  view (with_data s (delete k (data s))) t = view s t.
Proof.
  intros Hk He Ht. apply map_eq. intros j. rewrite !lookup_view. cbn.
  destruct (decide (k = j)) as [->|]; [|by rewrite lookup_delete_ne].
  rewrite lookup_delete_eq, Hk. by rewrite (isExpired_mono e now t).
Qed.

Lemma view_pruneKey s k now t : now <= t -> view (pruneKey s k now) t = view s t.
Proof.
  intros Ht. unfold pruneKey. destruct (data s !! k) as [e|] eqn:Hk; [|done].
  destruct (isExpired e now) eqn:He; [|done]. by eapply view_delete_expired.
Qed.

Lemma view_cleanup s now t : now <= t -> view (cleanupExpired s now) t = view s t.
Proof.
  intros Ht. apply map_eq. intros j. rewrite !lookup_view. cbn.
  rewrite map_lookup_filter.
  destruct (data s !! j) as [e|]; cbn; [|done].
  destruct (isExpired e now) eqn:He; cbn.
  - by rewrite (isExpired_mono e now t).
  - done.
Qed.

Lemma view_delete s k t : view (with_data s (delete k (data s))) t = delete k (view s t).
Proof.
  apply map_eq. intros j. rewrite lookup_view. cbn.
  destruct (decide (k = j)) as [->|].
  - by rewrite !lookup_delete_eq.
  - by rewrite !lookup_delete_ne, lookup_view.
Qed.

Lemma sview_delete a k t : sview (Spec.sdelete a k) t = delete k (sview a t).
Proof.
  apply map_eq. intros j. rewrite lookup_sview. cbn.
  destruct (decide (k = j)) as [->|].
  - by rewrite !lookup_delete_eq.
  - by rewrite !lookup_delete_ne, lookup_sview.
Qed.

(** The visible entries after a write: the new value until it expires. *)
Lemma view_insert s k (e : entry V) t :
  view (with_data s (<[k := e]> (data s))) t =
  if isExpired e t then delete k (view s t) else <[k := value e]> (view s t).
Proof.
  apply map_eq. intros j. rewrite lookup_view. cbn.
  destruct (decide (k = j)) as [->|].
  - rewrite lookup_insert_eq. destruct (isExpired e t); by simplify_map_eq.
  - rewrite lookup_insert_ne by done. destruct (isExpired e t); simplify_map_eq; by rewrite lookup_view.
Qed.

Lemma sview_sset a k v d t :
  sview (Spec.sset a k v d) t =
  if Spec.alive t d then <[k := v]> (sview a t) else delete k (sview a t).
Proof.
  apply map_eq. intros j. rewrite lookup_sview. cbn.
  destruct (decide (k = j)) as [->|].
  - rewrite lookup_insert_eq. cbn. destruct (Spec.alive t d); by simplify_map_eq.
  - rewrite lookup_insert_ne by done. destruct (Spec.alive t d); simplify_map_eq; by rewrite lookup_sview.
Qed.

(** Without overflow an entry written at [now] expires exactly at the spec's
    deadline. *)
Lemma isExpired_expiry v now ttl t :
  0 <= now -> 0 <= ttl -> now + ttl < two63 ->
  isExpired {| value := v : V; writtenAt := now; expiresAt := expiry now ttl |} t =
  negb (Spec.alive t (Spec.deadline now ttl)).
Proof.
  intros Hn Ht Hov. unfold isExpired, expiry, Spec.deadline, noExpirationUnixNanos. cbn.
  destruct (decide (ttl = 0)) as [->|Hne].
  - rewrite (bool_decide_eq_false_2 (0 > 0)), (bool_decide_eq_true_2 (0 = 0)) by lia. done.
  - rewrite (bool_decide_eq_true_2 (ttl > 0)), (bool_decide_eq_false_2 (ttl = 0)) by lia.
    rewrite wrap64_id by (unfold in_int64, two63 in *; lia). cbn.
    rewrite (bool_decide_eq_true_2 (now + ttl <> 0)) by lia. cbn.
    repeat case_bool_decide; lia || done.
Qed.

Lemma Len_view s now : closed s = false -> Len s now = size (view s now).
Proof.
  intros Hc. unfold Len, view. rewrite Hc. generalize (data s) as m. clear Hc s.
  apply (map_fold_weak_ind (fun n (m : gmap string (entry V)) =>
    n = size (omap (fun e => if isExpired e now then None else Some (value e)) m))).
  - by rewrite omap_empty.
  - intros k e m n Hk ->. rewrite omap_insert.
    assert (omap (fun e => if isExpired e now then None else Some (value e)) m !! k = None) as Hn.
    { by rewrite lookup_omap, Hk. }
    destruct (isExpired e now).
    + by rewrite delete_id.
    + by rewrite map_size_insert_None.
Qed.

(** ** The refinement *)

(** The simulation relation at time [t]: the store and the abstract map show
    the same entries from [t] on, and what the store holds was set. *)
Definition refines (dflt : Z) (dlg : bool) t s a : Prop :=
  defaultTTL s = dflt /\ delegate s = dlg /\ closed s = Spec.sclosed a /\
  (forall t', t <= t' -> view s t' = sview a t') /\
  (forall k, is_Some (data s !! k) -> is_Some (Spec.sdata a !! k)).

Lemma refines_weaken dflt dlg t t' s a :
  t <= t' -> refines dflt dlg t s a -> refines dflt dlg t' s a.
Proof. intros ? (?&?&?&H&?). split_and!; [done..| |done]. intros. apply H. lia. Qed.

(** Writing an entry keeps the relation. *)
Lemma refines_set dflt dlg s a k v now ttl :
  refines dflt dlg now s a -> 0 <= now -> 0 <= ttl -> now + ttl < two63 ->
  refines dflt dlg now
    (with_data s (<[k := {| value := v; writtenAt := now; expiresAt := expiry now ttl |}]> (data s)))
    (Spec.sset a k v (Spec.deadline now ttl)).
Proof.
  intros (?&?&?&H&Hd) Hn Ht Hov. split_and!; [done..| |].
  - intros t' Ht'. rewrite view_insert, sview_sset, isExpired_expiry by done. cbn.
    destruct (Spec.alive _ _); cbn; by rewrite H.
  - intros j. cbn. destruct (decide (k = j)) as [->|]; [by rewrite !lookup_insert_eq|].
    rewrite !lookup_insert_ne by done. apply Hd.
Qed.

Lemma refines_delete dflt dlg t s a k :
  refines dflt dlg t s a ->
  refines dflt dlg t (with_data s (delete k (data s))) (Spec.sdelete a k).
Proof.
  intros (?&?&?&H&Hd). split_and!; [done..| |].
  - intros t' Ht'. by rewrite view_delete, sview_delete, H.
  - intros j. cbn. destruct (decide (k = j)) as [->|]; [by rewrite !lookup_delete_eq|].
    rewrite !lookup_delete_ne by done. apply Hd.
Qed.

(** The view of a key that is not stored needs no deletion. *)
Lemma refines_delete_absent dflt dlg t s a k :
  refines dflt dlg t s a -> data s !! k = None -> refines dflt dlg t s (Spec.sdelete a k).
Proof.
  intros HR Hk. rewrite <-(with_data_data s), <-(delete_id (data s) k Hk) at 1.
  by apply refines_delete.
Qed.

Lemma validate_spec dflt dlg t s a k ttl v :
  refines dflt dlg t s a ->
  svalidate Marshal dlg a k ttl v =
  match validateMutable s k ttl with
  | Err e => Err e
  | Ok _ => match marshalFor Marshal s v with None => Err ErrMarshal | Some _ => Ok tt end
  end.
Proof.
  intros (_&Hd&Hc&_). unfold svalidate, validateMutable, marshalFor. rewrite Hd, Hc.
  by repeat case_match.
Qed.

Lemma validate_ok_ttl s k ttl u : validateMutable s k ttl = Ok u -> 0 <= ttl.
Proof. unfold validateMutable. repeat case_bool_decide; [done..|]. lia. Qed.

Lemma refines_exec_set dflt dlg s a k v ttl now :
  refines dflt dlg now s a -> 0 <= now -> now + ttl < two63 ->
  let r := SetWithTTL Marshal s k v ttl now in
  let r' := sexec_set Marshal dlg a k v ttl now in
  RUnit r.1.1 = r'.1 /\ refines dflt dlg now r.1.2 r'.2.
Proof.
  intros HR Hn Hov. unfold SetWithTTL, sexec_set. rewrite (validate_spec _ _ _ _ _ _ _ _ HR).
  destruct (validateMutable s k ttl) eqn:Hv; [|done].
  apply validate_ok_ttl in Hv.
  destruct (marshalFor Marshal s v); [|done]. cbn. split; [done|]. by apply refines_set.
Qed.

Lemma refines_exec_setnx dflt dlg s a k v ttl now :
  refines dflt dlg now s a -> 0 <= now -> now + ttl < two63 ->
  let r := SetNXWithTTL Marshal s k v ttl now in
  let r' := sexec Marshal dflt dlg a (OpSetNX k v ttl) now in
  RBool r.1.1 = r'.1 /\ refines dflt dlg now r.1.2 r'.2.
Proof.
  intros HR Hn Hov. unfold SetNXWithTTL. cbn [sexec]. rewrite (validate_spec _ _ _ _ _ _ _ _ HR).
  destruct (validateMutable s k ttl) eqn:Hv; [|done].
  apply validate_ok_ttl in Hv. destruct (marshalFor Marshal s v); [|done].
  assert (view s now = sview a now) as <- by (apply HR; lia). rewrite lookup_view.
  destruct (data s !! k) as [e|].
  - destruct (isExpired e now); cbn; [|done]. split; [done|]. by apply refines_set.
  - cbn. split; [done|]. by apply refines_set.
Qed.

Lemma refines_exec_get dflt dlg s a k now now' :
  refines dflt dlg now s a -> now <= now' ->
  let r := Get s k now now' in
  let r' := sexec Marshal dflt dlg a (OpGet k) now in
  RVal r.1 = r'.1 /\ refines dflt dlg now' r.2 r'.2.
Proof.
  intros HR Hn. assert (view s now = sview a now) as Hnow by (apply HR; lia).
  pose proof (refines_weaken _ _ _ now' _ _ Hn HR) as HR'.
  unfold Get. cbn [sexec]. unfold sread.
  replace (Spec.sclosed a) with (closed s) by apply HR.
  destruct (bool_decide (k = ""%string)); [done|].
  destruct (closed s) eqn:Hc; [done|].
  rewrite <-Hnow, lookup_view. destruct (data s !! k) as [e|] eqn:Hk; [|done].
  destruct (isExpired e now) eqn:He; [|done]. cbn. split; [done|].
  destruct HR' as (?&?&?&H&Hd). unfold pruneKey. rewrite Hk.
  rewrite (isExpired_mono e now now') by done. split_and!; [done..| |].
  - intros t' Ht'. rewrite <-H by done. eapply view_delete_expired; [done|done|lia].
  - intros j Hj. apply Hd. cbn in Hj. by apply lookup_delete_is_Some in Hj as [_ Hj].
Qed.

Lemma refines_exec_getdel dflt dlg s a k now :
  refines dflt dlg now s a ->
  let r := GetAndDelete s k now in
  let r' := sexec Marshal dflt dlg a (OpGetAndDelete k) now in
  RVal r.1.1 = r'.1 /\ refines dflt dlg now r.1.2 r'.2.
Proof.
  intros HR. assert (view s now = sview a now) as Hnow by (apply HR; lia).
  unfold GetAndDelete. cbn [sexec]. unfold sread.
  replace (Spec.sclosed a) with (closed s) by apply HR.
  destruct (bool_decide (k = ""%string)); [done|].
  destruct (closed s) eqn:Hc; [done|].
  rewrite <-Hnow, lookup_view. destruct (data s !! k) as [e|] eqn:Hk.
  - destruct (isExpired e now) eqn:He; cbn; (split; [done|by apply refines_delete]).
  - cbn. split; [done|by apply refines_delete_absent].
Qed.

(** [Delete] answers for what is stored: whatever is live, and perhaps an entry
    past its deadline. *)
Lemma refines_exec_delete dflt dlg s a k now :
  refines dflt dlg now s a ->
  let r := Delete s k now in
  allowed Marshal dflt dlg a (OpDelete k) now (RBool r.1.1) /\
  refines dflt dlg now r.1.2 (sexec Marshal dflt dlg a (OpDelete k) now).2.
Proof.
  intros HR. assert (view s now = sview a now) as Hnow by (apply HR; lia).
  unfold Delete, allowed. cbn [sexec]. unfold sread.
  replace (Spec.sclosed a) with (closed s) by apply HR.
  destruct (bool_decide (k = ""%string)) eqn:Hke; [by split; [left|]|].
  destruct (closed s) eqn:Hc; [by split; [left|]|]. cbn [fst snd].
  rewrite <-Hnow, lookup_view. destruct (data s !! k) as [e|] eqn:Hk.
  - split; [|by apply refines_delete]. destruct (isExpired e now) eqn:He; [right|by left].
    destruct HR as (_&_&_&_&Hd). destruct (Hd k ltac:(by eexists)) as [vd Hvd].
    exists k, vd. rewrite Hke. split_and!; try done.
    assert (sview a now !! k = None) as Hnone by (by rewrite <-Hnow, lookup_view, Hk, He).
    rewrite lookup_sview, Hvd in Hnone. revert Hnone.
    by destruct (Spec.alive now vd.2).
  - split; [by left|by apply refines_delete_absent].
Qed.

(** One step of the simulation. *)
Lemma refines_exec dflt dlg s a op now now' :
  refines dflt dlg now s a -> now <= now' -> 0 <= now -> now + op_ttl dflt op < two63 ->
  let r := exec Marshal s op now now' in
  allowed Marshal dflt dlg a op now r.1 /\ refines dflt dlg now' r.2 (sexec Marshal dflt dlg a op now).2.
Proof.
  intros HR Hn Hn0 Hov. destruct op; cbn [exec].
  1: unfold Set_; replace (defaultTTL s) with dflt by (symmetry; apply HR).
  1-2: edestruct refines_exec_set as [? ?]; [done..|].
  3: edestruct refines_exec_setnx as [? ?]; [done..|].
  4: edestruct (refines_exec_get dflt dlg s a k now now') as [? ?]; [done..|split; [by left|done]].
  4: edestruct refines_exec_getdel as [? ?]; [done..|].
  5: edestruct refines_exec_delete as [? ?]; [done|split; [done|eapply refines_weaken; [|done]; lia]].
  1-4: split; [by left|eapply refines_weaken; [|done]; lia].
  - pose proof (refines_weaken _ _ _ now' _ _ Hn HR) as HR'. cbn. split; [|done]. left.
    destruct HR as (_&_&Hc&Hv&_). cbn. f_equal. rewrite <-Hc.
    destruct (closed s) eqn:Hcl; [by unfold Len; rewrite Hcl|].
    rewrite Len_view by done. f_equal. apply Hv. lia.
  - cbn. split; [by left|]. destruct HR as (?&?&?&Hv&Hd). split_and!; [done..| |].
    + intros t' Ht'. rewrite view_cleanup by lia. apply Hv. lia.
    + intros j [e Hj]. cbn in Hj. apply map_lookup_filter_Some in Hj as [Hj _]. apply Hd. by eexists.
  - cbn. split; [by left|]. destruct HR as (?&?&?&Hv&Hd). split_and!; [done..| |done].
    intros t' Ht'. unfold view, sview in *. cbn. apply Hv. lia.
Qed.

Lemma refines_run dflt dlg tr t s a :
  refines dflt dlg t s a -> clocked dflt t tr = true ->
  srun Marshal dflt dlg a tr (run Marshal s tr).
Proof.
  revert t s a. induction tr as [|[[op now] now'] tr IH]; intros t s a HR Hcl; [done|].
  cbn [clocked] in Hcl. rewrite !andb_true_iff, !bool_decide_eq_true in Hcl.
  destruct Hcl as [[[[? ?] ?] ?] Hcl].
  destruct (refines_exec dflt dlg s a op now now') as [Hr HR'];
    [eapply refines_weaken; [|done]; lia|done..|].
  cbn [run srun]. split; [done|]. by eapply IH.
Qed.
End store_view.

(** ** Claims on local operations *)

(** C9. Whatever sequence of local operations (writes, reads that prune,
    take-and-delete, deletes, counts, cleanup ticks, close) runs on a fresh
    store, at clock readings that do not go backwards and whose expiries fit
    [int64], its results are those the same sequence gives on an abstract map
    with deadlines that never prunes anything, but for one answer: [Delete] of a
    key that was set and is past its deadline says either that it deleted
    something or that it did not. *)
Theorem store_refines_spec {V} (Marshal : V -> option string) (cfg : Config) (s : Store V)
    (dlg : bool) (t : Z) (tr : list (Op V * Z * Z)) :
  New cfg = Ok s ->
  clocked (DefaultTTL cfg) t tr = true ->
  srun Marshal (DefaultTTL cfg) dlg (Spec.mkState ∅ false) tr (run Marshal (SetDelegate s dlg) tr).
Proof.
  intros HN. apply refines_run. unfold New in HN. repeat case_bool_decide; simplify_eq.
  all: split_and!; [done..| |by intros k []]; intros t' _; unfold view, sview; cbn; by rewrite !omap_empty.
Qed.

(** The second delete finds the entry past its deadline, still there. *)
Lemma store_refines_spec_witness :
  let cfg := {| CleanupInterval := 0; DefaultTTL := 50 |} in
  let tr := [(OpSet "k" "v", 100, 100); (OpGet "k", 140, 141); (OpSetNX "k" "w" 10, 149, 149);
             (OpGet "k", 150, 151); (OpSetNX "k" "w" 10, 152, 152); (OpCleanup, 155, 155);
             (OpLen, 156, 156); (OpGetAndDelete "k", 157, 157); (OpDelete "k", 158, 158);
             (OpSetWithTTL "k" "x" 1, 160, 160); (OpDelete "k", 170, 170)]%string in
  exists s : Store string, New cfg = Ok s /\
  run Some (SetDelegate s true) tr =
  [RUnit (Ok tt); RVal (Ok "v"); RBool (Ok false); RVal (Err ErrNotFound); RBool (Ok true);
   RUnit (Ok tt); RLen 1; RVal (Ok "w"); RBool (Ok false); RUnit (Ok tt); RBool (Ok true)]%string /\
  srun Some 50 true (Spec.mkState ∅ false) tr (run Some (SetDelegate s true) tr).
Proof.
  intros cfg tr. eexists. split; [reflexivity|]. split; [vm_compute; reflexivity|].
  apply (store_refines_spec Some cfg _ true 100 tr); vm_compute; reflexivity.
Defined.

(** A successful [SetNXWithTTL] excludes every other one on the same key
    until its TTL has passed: a later attempt at a time [t] before the
    expiry returns [false], changes nothing and notifies nobody. *)
Theorem SetNX_exclusive {V} (Marshal : V -> option string) (s s' : Store V) k v w ttl ttl' now t ev :
  SetNXWithTTL Marshal s k v ttl now = (Ok true, s', ev) ->
  0 <= now -> now + ttl < two63 -> (ttl = 0 \/ t < now + ttl) ->
  0 <= ttl' -> delegate s = false \/ is_Some (Marshal w) ->
  SetNXWithTTL Marshal s' k w ttl' t = (Ok false, s', []).
Proof.
  intros Hset Hn Hov Ht Httl' Hm. unfold SetNXWithTTL in Hset.
  destruct (validateMutable s k ttl) eqn:Hv; [|done].
  pose proof (validate_ok_ttl _ _ _ _ Hv) as Httl.
  destruct (marshalFor Marshal s v); [|done].
  case_match; simplify_eq. unfold SetNXWithTTL, validateMutable in *. cbn.
  repeat case_bool_decide; try (done || lia). destruct (closed s); [done|].
  unfold marshalFor. cbn. rewrite lookup_insert_eq, isExpired_expiry by done.
  assert (Spec.alive t (Spec.deadline now ttl) = true) as ->.
  { unfold Spec.deadline. case_bool_decide; [done|]. cbn. by apply bool_decide_eq_true_2; lia. }
  cbn. destruct (delegate s); [|done]. destruct Hm as [|[j ->]]; done.
Qed.

Definition empty_store : Store string := mkStore ∅ 0 defaultCleanupInterval false false ∅.

Definition one_store : Store string :=
  (SetNXWithTTL Some empty_store "k" "a" 10 100).1.2.

Lemma SetNX_exclusive_witness :
  New {| CleanupInterval := 0; DefaultTTL := 0 |} = Ok empty_store /\
  SetNXWithTTL Some empty_store "k" "a" 10 100 = (Ok true, one_store, []) /\
  SetNXWithTTL Some one_store "k" "b" 10 109 = (Ok false, one_store, []).
Proof.
  split; [reflexivity|]. split; [reflexivity|].
  apply (SetNX_exclusive Some empty_store one_store "k" "a" "b" 10 10 100 109 []);
    [reflexivity|lia|vm_compute; reflexivity|right; lia|lia|left; reflexivity].
Defined.

(** The expiry is computed in [int64]: a positive TTL that takes
    [now + ttl] past the range gives a negative expiry, so the write succeeds
    and the entry is expired at every time from the epoch on (a [Get] right
    after the [Set] reports [ErrNotFound]). *)
Theorem SetWithTTL_overflow_expired {V} (Marshal : V -> option string) (s : Store V) k v ttl now t t' :
  0 <= now < two63 -> 0 < ttl < two63 -> two63 <= now + ttl ->
  k <> ""%string -> closed s = false -> is_Some (marshalFor Marshal s v) -> 0 <= t ->
  exists s' ev, SetWithTTL Marshal s k v ttl now = (Ok tt, s', ev) /\
    (Get s' k t t').1 = Err ErrNotFound.
Proof.
  intros Hn Httl Hov Hk Hc [j Hj] Ht. unfold SetWithTTL, validateMutable.
  rewrite bool_decide_eq_false_2, (bool_decide_eq_false_2 (ttl < 0)), Hc, Hj by (done || lia).
  eexists _, _. split; [done|]. unfold Get. cbn.
  rewrite bool_decide_eq_false_2, Hc, lookup_insert_eq by done.
  unfold isExpired, expiry. cbn. rewrite (bool_decide_eq_true_2 (ttl > 0)) by lia.
  rewrite wrap64_overflow by (unfold in_int64, two63 in *; lia).
  unfold noExpirationUnixNanos.
  rewrite !bool_decide_eq_true_2 by (unfold two63, two64 in *; lia). done.
Qed.

Lemma SetWithTTL_overflow_expired_witness :
  exists s : Store string, New {| CleanupInterval := 0; DefaultTTL := 0 |} = Ok s /\
  exists s' ev, SetWithTTL Some s "k" "v" (two63 - 1) 1700000000000000000 = (Ok tt, s', ev) /\
    (Get s' "k" 1700000000000000001 1700000000000000002).1 = Err ErrNotFound.
Proof.
  eexists. split; [reflexivity|].
  apply (SetWithTTL_overflow_expired Some); try (vm_compute; split; congruence); done.
Defined.

(** ** Gossip *)

Section gossip.
Context {V : Type} (of_bytes : string -> V).

(** A gossiped write: key, value, the writer's clock and the expiry. *)
Record remote_set := { r_key : string; r_json : string; r_writtenAt : Z; r_expiresAt : Z }.

Definition deliver (s : Store V) (m : remote_set) : Store V :=
  (SetRemote of_bytes s (r_key m) (r_json m) (r_writtenAt m) (r_expiresAt m)).2.

Definition r_stamp (m : remote_set) : string * Z := (r_key m, r_writtenAt m).

(** The newer of a stored and an arriving entry. *)
Definition lww (k : string) (en : entry V) (m : gmap string (entry V)) : gmap string (entry V) :=
  match m !! k with
  | Some e => if bool_decide (writtenAt e > writtenAt en) then m else <[k := en]> m
  | None => <[k := en]> m
  end.

Lemma lww_lookup k en m j :
  lww k en m !! j =
  if decide (k = j) then
    match m !! k with
    | Some e => Some (if bool_decide (writtenAt e > writtenAt en) then e else en)
    | None => Some en
    end
  else m !! j.
Proof.
  unfold lww. case_decide as Hj; [subst j|].
  - destruct (m !! k) as [e|] eqn:Hk; [|by rewrite lookup_insert_eq].
    case_bool_decide; by rewrite ?lookup_insert_eq.
  - destruct (m !! k) as [e|] eqn:Hk; [|by rewrite lookup_insert_ne].
    case_bool_decide; by rewrite ?lookup_insert_ne.
Qed.

Lemma lww_comm k1 k2 en1 en2 m :
  (k1, writtenAt en1) <> (k2, writtenAt en2) ->
  lww k2 en2 (lww k1 en1 m) = lww k1 en1 (lww k2 en2 m).
Proof.
  intros Hne. apply map_eq. intros j. rewrite !lww_lookup.
  destruct (decide (k2 = j)) as [Hj2|Hj2], (decide (k1 = j)) as [Hj1|Hj1]; subst; try done.
  - rewrite !decide_True by done.
    assert (writtenAt en1 <> writtenAt en2) by (intros Heq; apply Hne; by rewrite Heq).
    destruct (m !! j) as [e|]; repeat case_bool_decide; done || (exfalso; lia).
  - by rewrite decide_False.
  - by rewrite decide_False.
Qed.

(** [deliver] as an update of the map by the newer of two entries. *)
Lemma deliver_data s m :
  deliver s m =
  if bool_decide (r_key m = ""%string) || closed s then s
  else with_data s
    (lww (r_key m) {| value := decodeValue of_bytes s (r_key m) (r_json m);
                      writtenAt := r_writtenAt m; expiresAt := r_expiresAt m |} (data s)).
Proof.
  unfold deliver, SetRemote, lww. destruct (bool_decide (r_key m = "")%string); [done|].
  destruct (closed s); [done|]. cbn. destruct (data s !! r_key m) as [e|]; [|done].
  case_bool_decide; [|done]. cbn. by rewrite with_data_data.
Qed.

(** Two writes with different stamps commute. *)
Lemma deliver_comm s m1 m2 :
  r_stamp m1 <> r_stamp m2 -> deliver (deliver s m1) m2 = deliver (deliver s m2) m1.
Proof.
  intros Hne. rewrite !deliver_data. destruct (closed s) eqn:Hc.
  { by rewrite !orb_true_r, Hc, !orb_true_r. }
  rewrite !orb_false_r.
  destruct (bool_decide (r_key m1 = "")%string), (bool_decide (r_key m2 = "")%string);
    cbn; rewrite ?Hc; try done.
  f_equal. by apply lww_comm.
Qed.

Lemma deliver_perm l1 l2 :
  l1 ≡ₚ l2 -> NoDup (r_stamp <$> l1) -> forall s, foldl deliver s l1 = foldl deliver s l2.
Proof.
  induction 1 as [|x l1 l2 _ IH|x y l|l1 l2 l3 H12 IH1 _ IH2]; intros Hnd s.
  - done.
  - cbn in *. apply NoDup_cons in Hnd as [_ Hnd]. by apply IH.
  - cbn in *. f_equal. apply deliver_comm. apply NoDup_cons in Hnd as [Hni _].
    intros Heq. apply Hni. rewrite <-Heq || rewrite Heq. by left.
  - rewrite IH1 by done. apply IH2. by rewrite <-H12.
Qed.
End gossip.

(** Last write wins: gossiped writes that carry distinct (key, written-at)
    stamps leave the store in the same state whatever the order in which they
    are delivered. *)
Theorem gossip_sets_converge {V} (of_bytes : string -> V) (s : Store V) (l1 l2 : list remote_set) :
  NoDup (r_stamp <$> l1) -> l1 ≡ₚ l2 ->
  foldl (deliver of_bytes) s l1 = foldl (deliver of_bytes) s l2.
Proof. intros Hnd Hp. by apply deliver_perm. Qed.

Definition gossip_ab : list remote_set :=
  [{| r_key := "k"; r_json := "a"; r_writtenAt := 5; r_expiresAt := 0 |};
   {| r_key := "k"; r_json := "b"; r_writtenAt := 7; r_expiresAt := 0 |}].

Lemma gossip_sets_converge_witness :
  exists s : Store string, New {| CleanupInterval := 0; DefaultTTL := 0 |} = Ok s /\
  foldl (deliver id) s gossip_ab = foldl (deliver id) s (rev gossip_ab) /\
  (value <$> data (foldl (deliver id) s gossip_ab) !! "k"%string) = Some "b"%string.
Proof.
  eexists. split; [reflexivity|]. split; [|reflexivity].
  apply gossip_sets_converge; [by apply (bool_decide_unpack _); vm_compute|].
  apply Permutation_rev.
Defined.

(** A gossiped delete leaves no trace of its time: delivered after the
    write it follows it removes the key, delivered before it the write is
    installed although it is older than the delete. *)
Theorem gossip_delete_resurrects {V} (of_bytes : string -> V) (s : Store V) k j w e d :
  k <> ""%string -> closed s = false -> data s !! k = None -> w <= d ->
  data (DeleteRemote (SetRemote of_bytes s k j w e).2 k d).2 !! k = None /\
  (exists en, data (SetRemote of_bytes (DeleteRemote s k d).2 k j w e).2 !! k = Some en /\
              writtenAt en = w).
Proof.
  intros Hk Hc Hnone Hw. unfold SetRemote, DeleteRemote.
  rewrite bool_decide_eq_false_2, Hc, Hnone by done. cbn. split.
  - rewrite Hc, lookup_insert_eq. cbn. rewrite bool_decide_eq_false_2 by lia. cbn.
    apply lookup_delete_eq.
  - rewrite Hc, lookup_delete_eq. cbn. rewrite lookup_insert_eq. eauto.
Qed.

Lemma gossip_delete_resurrects_witness :
  exists s : Store string, New {| CleanupInterval := 0; DefaultTTL := 0 |} = Ok s /\
  data (DeleteRemote (SetRemote id s "k" "v" 10 0).2 "k" 20).2 !! "k"%string = None /\
  (exists en, data (SetRemote id (DeleteRemote s "k" 20).2 "k" "v" 10 0).2 !! "k"%string = Some en /\
              writtenAt en = 10).
Proof.
  eexists. split; [reflexivity|]. apply gossip_delete_resurrects; [done|done|done|lia].
Defined.

(** ** The decoder of a gossiped value *)

Section decoders.
Context {V : Type}.
Implicit Types (l : list (string * TypeDecoder V)).

(** What the loop's accumulator holds: the longest matching non-empty prefix
    among the pairs seen so far. *)
Definition best_for (key : string) l (b : string * option (TypeDecoder V)) : Prop :=
  HasPrefix key b.1 = true /\
  (forall p d, (p, d) ∈ l -> HasPrefix key p = true -> (String.length p <= String.length b.1)%nat) /\
  match b.2 with Some d => b.1 <> ""%string /\ (b.1, d) ∈ l | None => b.1 = ""%string end.

Lemma best_for_step key l b pd :
  best_for key l b -> best_for key (l ++ [pd]) (pickStep key b pd).
Proof.
  destruct pd as [p d], b as [q od]. unfold best_for, pickStep. cbn [fst snd].
  intros (Hq & Hmax & Hsel).
  destruct (HasPrefix key p && (String.length q <? String.length p)%nat) eqn:Hc; cbn.
  - apply andb_true_iff in Hc as [Hp Hlen%Nat.ltb_lt]. repeat split; [done| | |].
    + intros p' d' [Hin|Hin]%elem_of_app Hpre; [specialize (Hmax _ _ Hin Hpre); lia|].
      apply list_elem_of_singleton in Hin as [= -> ->]. lia.
    + intros ->. cbn in Hlen. lia.
    + apply elem_of_app. right. by apply list_elem_of_singleton.
  - apply andb_false_iff in Hc. repeat split; [done| |].
    + intros p' d' [Hin|Hin]%elem_of_app Hpre; [by eapply Hmax|].
      apply list_elem_of_singleton in Hin as [= -> ->].
      destruct Hc as [Hc|Hc]; [congruence|]. apply Nat.ltb_ge in Hc. lia.
    + destruct od; [|done]. destruct Hsel. split; [done|]. apply elem_of_app. by left.
Qed.

Lemma best_for_foldl key l : best_for key l (foldl (pickStep key) (""%string, None) l).
Proof.
  induction l as [|pd l IH] using rev_ind.
  - split; [done|]. split; [|done]. by intros ?? ?%elem_of_nil.
  - rewrite foldl_app. by apply best_for_step.
Qed.

(** The best prefix is unique, so it determines the decoder of a map. *)
Lemma best_for_unique key l1 l2 b1 b2 :
  NoDup l1.*1 -> l1 ≡ₚ l2 -> best_for key l1 b1 -> best_for key l2 b2 -> b1.2 = b2.2.
Proof.
  destruct b1 as [p1 o1], b2 as [p2 o2]. unfold best_for. cbn.
  intros Hnd Hp (Hp1 & Hm1 & Hs1) (Hp2 & Hm2 & Hs2).
  destruct o1 as [d1|], o2 as [d2|]; [| | |done].
  - destruct Hs1 as [_ Hin1], Hs2 as [_ Hin2].
    rewrite <-Hp in Hin2. rewrite Hp in Hin1.
    pose proof (Hm2 _ _ Hin1 Hp1). pose proof (Hm1 _ _ Hin2 Hp2).
    assert (p1 = p2) as -> by (eapply HasPrefix_same_length; [done..|lia]).
    rewrite <-Hp in Hin1. f_equal. by apply (assoc_functional l1 p2).
  - destruct Hs1 as [Hne Hin1]. rewrite Hp in Hin1. pose proof (Hm2 _ _ Hin1 Hp1). subst p2.
    destruct p1; cbn in *; [done|lia].
  - destruct Hs2 as [Hne Hin2]. rewrite <-Hp in Hin2. pose proof (Hm1 _ _ Hin2 Hp2). subst p1.
    destruct p2; cbn in *; [done|lia].
Qed.
End decoders.

(** Go traverses the decoder map in no particular order; the decoder
    chosen does not depend on it, and it is the one registered under the
    longest non-empty prefix of the key (a decoder registered for the empty
    prefix is never chosen). *)
Theorem decoder_longest_prefix {V} (s : Store V) (key : string) (l : list (string * TypeDecoder V)) :
  l ≡ₚ map_to_list (decoders s) ->
  pickDecoder key l = pickDecoder key (map_to_list (decoders s)) /\
  match pickDecoder key l with
  | Some d => exists p, decoders s !! p = Some d /\ p <> ""%string /\ HasPrefix key p = true /\
      forall q, is_Some (decoders s !! q) -> HasPrefix key q = true ->
        (String.length q <= String.length p)%nat
  | None => forall q, is_Some (decoders s !! q) -> HasPrefix key q = true -> q = ""%string
  end.
Proof.
  intros Hp. unfold pickDecoder. split.
  - eapply best_for_unique; [| |apply best_for_foldl|apply best_for_foldl]; [|done].
    rewrite Hp. apply NoDup_fst_map_to_list.
  - pose proof (best_for_foldl key l) as (Hpre & Hmax & Hsel).
    destruct (foldl (pickStep key) (""%string, None) l) as [p [d|]]; cbn in *.
    + destruct Hsel as [Hne Hin]. rewrite Hp in Hin. exists p.
      repeat split; [by apply elem_of_map_to_list|done..|].
      intros q [dq Hq] Hqp. eapply (Hmax q dq); [|done]. rewrite Hp. by apply elem_of_map_to_list.
    + subst p. intros q [dq Hq] Hqp.
      assert ((q, dq) ∈ l) as Hin by (rewrite Hp; by apply elem_of_map_to_list).
      pose proof (Hmax _ _ Hin Hqp). destruct q; [done|cbn in *; lia].
Qed.

Definition two_decoders : Store string :=
  mkStore ∅ 0 0 false false
    (<["a"%string := fun _ => Some "short"%string]>
      (<["ab"%string := fun _ => Some "long"%string]> ∅)).

Lemma decoder_longest_prefix_witness :
  (pickDecoder "abc" (rev (map_to_list (decoders two_decoders))) =
   pickDecoder "abc" (map_to_list (decoders two_decoders))) /\
  (pickDecoder "abc" (map_to_list (decoders two_decoders)) ≫= fun d => d ""%string) = Some "long"%string.
Proof.
  split; [|reflexivity].
  apply (decoder_longest_prefix two_decoders "abc"%string).
  symmetry. apply Permutation_rev.
Defined.
