(* ===== verification/LRUCache.v ===== *)
(** * The LRU cache (src/framework/lrucache/lrucache.go)

    A bounded cache with a doubly linked recency list, a secondary index from
    row identities to cache keys, and a generation counter that makes a fill
    that raced an eviction drop its result.  The list's elements are shared
    mutable objects whose identity the code compares, so the model keeps a
    heap of entries addressed by element identities.  This file has the
    operations as they run inside one critical section each, and their
    sequential composition; [LRUConc] interleaves them. *)

From S2P Require Import Prelude GoStrings.
Local Open Scope Z_scope.

Module LRU.
Section cache.
Context {V : Type}.

Record entry := mkEntry { key : string; indexKey : string; value : V; version : Z }.

(** [elem] is the identity of a [*list.Element]; [order] has the most recently
    used element first; [next] is the next fresh identity. *)
Definition elem : Type := nat.

Record Cache := mkCache {
  capacity : Z;
  items : gmap string elem;
  order : list elem;
  heap : gmap elem entry;
  next : elem;
  byIndex : gmap string string;
  generation : Z;
  validator : option (V -> bool) }.

Definition with_index (c : Cache) (b : gmap string string) : Cache :=
  mkCache (capacity c) (items c) (order c) (heap c) (next c) b (generation c) (validator c).
Definition with_order (c : Cache) (o : list elem) : Cache :=
  mkCache (capacity c) (items c) o (heap c) (next c) (byIndex c) (generation c) (validator c).
Definition with_heap (c : Cache) (h : gmap elem entry) : Cache :=
  mkCache (capacity c) (items c) (order c) h (next c) (byIndex c) (generation c) (validator c).

(** [c.generation++] on a [uint64]. *)
Definition bump (c : Cache) : Cache :=
  mkCache (capacity c) (items c) (order c) (heap c) (next c) (byIndex c)
    (wrapu64 (generation c + 1)) (validator c).

(** [New]; [None] stands for the panic on a non-positive capacity. *)
Definition New (cap : Z) (valid : option (V -> bool)) : option Cache :=
  if bool_decide (cap <= 0) then None
  else Some (mkCache cap ∅ [] ∅ 0%nat ∅ 0 valid).

(** *** container/list *)

Definition list_remove (e : elem) (l : list elem) : list elem := filter (fun x => x <> e) l.

Definition list_move_front (e : elem) (l : list elem) : list elem :=
  if decide (e ∈ l) then e :: list_remove e l else l.

(** *** Critical sections *)

(** [if mapped, ok := c.byIndex[ik]; ok && mapped == k { delete(c.byIndex, ik) }]. *)
Definition unbind (b : gmap string string) (ik k : string) : gmap string string :=
  match b !! ik with
  | Some mapped => if bool_decide (mapped = k) then delete ik b else b
  | None => b
  end.

Definition removeLocked (c : Cache) (e : elem) : Cache :=
  match heap c !! e with
  | None => c
  | Some ent =>
      mkCache (capacity c) (delete (key ent) (items c)) (list_remove e (order c)) (heap c) (next c)
        (if bool_decide (indexKey ent <> ""%string)
         then unbind (byIndex c) (indexKey ent) (key ent) else byIndex c)
        (generation c) (validator c)
  end.

Definition evictIndexOwnerLocked (c : Cache) (ik newKey : string) : Cache :=
  match byIndex c !! ik with
  | None => c
  | Some owner =>
      if bool_decide (owner = newKey) then c
      else match items c !! owner with
           | Some ownerElem => removeLocked (bump c) ownerElem
           | None => c
           end
  end.

Definition currentGeneration (c : Cache) : Z := generation c.

(** The branch of [setIfGeneration] for a key that is cached already. *)
Definition updateExisting (c : Cache) (k ik : string) (v : V) (e : elem) (ent : entry) : Cache :=
  let c1 :=
    if bool_decide (indexKey ent <> ik) && bool_decide (indexKey ent <> ""%string)
    then with_index c (unbind (byIndex c) (indexKey ent) k) else c in
  let c2 := with_heap c1 (<[e := mkEntry (key ent) ik v (wrapu64 (version ent + 1))]> (heap c1)) in
  let c3 :=
    if bool_decide (ik <> ""%string)
    then let c' := evictIndexOwnerLocked c2 ik k in with_index c' (<[ik := k]> (byIndex c'))
    else c2 in
  with_order c3 (list_move_front e (order c3)).

(** [c.order.PushFront] of a new entry, and its bindings. *)
Definition pushEntry (c : Cache) (k ik : string) (v : V) : Cache :=
  let e := next c in
  mkCache (capacity c) (<[k := e]> (items c)) (e :: order c)
    (<[e := mkEntry k ik v 0]> (heap c)) (S e)
    (if bool_decide (ik <> ""%string) then <[ik := k]> (byIndex c) else byIndex c)
    (generation c) (validator c).

(** [if c.order.Len() >= c.capacity { drop c.order.Back() }]. *)
Definition evictTail (c : Cache) : Cache :=
  if bool_decide (Z.of_nat (length (order c)) >= capacity c)
  then match last (order c) with Some tail => removeLocked c tail | None => c end
  else c.

Definition setIfGeneration (c : Cache) (k ik : string) (v : V) (gen : Z) : Cache :=
  if bool_decide (generation c <> gen) then c
  else
    match items c !! k with
    | Some e =>
        match heap c !! e with
        | Some ent => updateExisting c k ik v e ent
        | None => c
        end
    | None =>
        let c1 := if bool_decide (ik <> ""%string) then evictIndexOwnerLocked c ik k else c in
        pushEntry (evictTail c1) k ik v
    end.

(** [Get], first critical section: the element, its value and version. *)
Definition getRead (c : Cache) (k : string) : option (elem * entry) :=
  e ← items c !! k; ent ← heap c !! e; Some (e, ent).

(** [Get], the removal of an entry the validator refused: only if the key
    still holds the same element at the same version. *)
Definition getDrop (c : Cache) (k : string) (e : elem) (ver : Z) : Cache :=
  match items c !! k, heap c !! e with
  | Some cur, Some ent =>
      if bool_decide (cur = e) && bool_decide (version ent = ver) then removeLocked c cur else c
  | _, _ => c
  end.

(** [Get], the recency update of a hit. *)
Definition getTouch (c : Cache) (k : string) (e : elem) : Cache :=
  match items c !! k with
  | Some cur => if bool_decide (cur = e) then with_order c (list_move_front cur (order c)) else c
  | None => c
  end.

(** [!validator(value)] for an installed validator. *)
Definition refused (c : Cache) (v : V) : bool :=
  match validator c with Some valid => negb (valid v) | None => false end.

Definition Get (c : Cache) (k : string) : option V * Cache :=
  match getRead c k with
  | None => (None, c)
  | Some (e, ent) =>
      if refused c (value ent) then (None, getDrop c k e (version ent))
      else (Some (value ent), getTouch c k e)
  end.

Definition Evict (c : Cache) (k : string) : Cache :=
  let c := bump c in
  match items c !! k with Some e => removeLocked c e | None => c end.

Definition EvictByIndex (c : Cache) (ik : string) : Cache :=
  if bool_decide (ik = ""%string) then c
  else
    let c := bump c in
    match byIndex c !! ik with
    | Some k => match items c !! k with Some e => removeLocked c e | None => c end
    | None => c
    end.

(** [EvictWhere], first critical section: the generation bump and the keys. *)
Definition evictWhereKeys (c : Cache) : list string * Cache :=
  (omap (fun e => key <$> heap c !! e) (order c), bump c).

(** [EvictWhere], second critical section. *)
Definition evictWhereRemove (c : Cache) (toRemove : list string) : Cache :=
  foldl (fun c k => match items c !! k with Some e => removeLocked c e | None => c end) c toRemove.

Definition EvictWhere (c : Cache) (pred : string -> bool) : Cache :=
  let '(keys, c1) := evictWhereKeys c in
  evictWhereRemove c1 (filter (fun k => pred k = true) keys).

Definition Flush (c : Cache) : Cache :=
  mkCache (capacity c) ∅ [] (heap c) (next c) ∅ (wrapu64 (generation c + 1)) (validator c).

Definition Len (c : Cache) : Z := Z.of_nat (length (order c)).

(** *** The abstract cache

    The cache as the list of its entries, most recently used first. *)

Definition row : Type := string * string * V.

Definition row_key (r : row) : string := r.1.1.
Definition row_index (r : row) : string := r.1.2.

Definition row_of (ent : entry) : row := (key ent, indexKey ent, value ent).

Definition abs (c : Cache) : list row := omap (fun e => row_of <$> heap c !! e) (order c).

(** Installing a row: it goes to the front; an older row of the key and a row
    with the same index key leave; the list is cut to the capacity. *)
Definition spec_install (cap : Z) (k ik : string) (v : V) (l : list row) : list row :=
  (k, ik, v) ::
  take (Z.to_nat (cap - 1))
    (filter (fun r => row_key r <> k /\ ~ (ik <> ""%string /\ row_index r = ik)) l).

Definition spec_remove (k : string) (l : list row) : list row := filter (fun r => row_key r <> k) l.

Definition spec_find (k : string) (l : list row) : option row := head (filter (fun r => row_key r = k) l).

Definition spec_touch (k : string) (l : list row) : list row :=
  match spec_find k l with Some r => r :: spec_remove k l | None => l end.

End cache.
Arguments Cache : clear implicits.
Arguments entry : clear implicits.
End LRU.
