(* ===== verification/LRUTheory.v ===== *)
(** * The LRU cache: invariant and refinement

    The representation invariant of [LRUCache] (recency list, key map, entry
    heap and secondary index agree, and the bound holds), its preservation by
    every operation, and the refinement of the pointer structure by the
    abstract cache, a list of rows with the most recently used first. *)

From S2P Require Import Prelude GoStrings LRUCache.
Local Open Scope Z_scope.

(** ** Lists with a partial valuation *)

Section omap_lemmas.
Context {A B : Type} (f : A -> option B).

Lemma omap_filter_comm (P : A -> Prop) (Q : B -> Prop)
    `{!forall x, Decision (P x)} `{!forall x, Decision (Q x)} (l : list A) :
  (forall x y, x ∈ l -> f x = Some y -> (Q y <-> P x)) ->
  omap f (filter P l) = filter Q (omap f l).
Proof.
  induction l as [|x l IH]; intros Hl; [done|].
  assert (omap f (filter P l) = filter Q (omap f l)) as IH'.
  { apply IH. intros a b Ha. apply Hl. set_solver. }
  destruct (f x) as [y|] eqn:Hf.
  - pose proof (Hl x y ltac:(set_solver) Hf) as Hiff.
    rewrite (filter_cons P). cbn [omap list_omap]. rewrite Hf, filter_cons.
    destruct (decide (P x)), (decide (Q y)); try tauto.
    cbn [omap list_omap]. rewrite Hf. by f_equal.
  - rewrite (filter_cons P). cbn [omap list_omap]. rewrite Hf.
    destruct (decide (P x)); [|done]. cbn [omap list_omap]. by rewrite Hf.
Qed.

Lemma omap_take_total (n : nat) (l : list A) :
  (forall x, x ∈ l -> is_Some (f x)) -> omap f (take n l) = take n (omap f l).
Proof.
  revert n. induction l as [|x l IH]; intros [|n] H; try done.
  destruct (H x ltac:(set_solver)) as [y Hy]. cbn. rewrite Hy. cbn. f_equal.
  apply IH. intros z Hz. apply H. set_solver.
Qed.

Lemma omap_length_total (l : list A) :
  (forall x, x ∈ l -> is_Some (f x)) -> length (omap f l) = length l.
Proof.
  induction l as [|x l IH]; intros H; [done|].
  destruct (H x ltac:(set_solver)) as [y Hy]. cbn. rewrite Hy. cbn. f_equal.
  apply IH. intros z Hz. apply H. set_solver.
Qed.

Lemma omap_ext_in (g : A -> option B) (l : list A) :
  (forall x, x ∈ l -> f x = g x) -> omap f l = omap g l.
Proof.
  induction l as [|x l IH]; intros H; [done|]. cbn.
  rewrite <-(H x) by set_solver. rewrite IH; [done|]. intros. apply H. set_solver.
Qed.
End omap_lemmas.

Lemma list_filter_iff_in {A} (P Q : A -> Prop)
    `{!forall x, Decision (P x)} `{!forall x, Decision (Q x)} (l : list A) :
  (forall x, x ∈ l -> (P x <-> Q x)) -> filter P l = filter Q l.
Proof.
  induction l as [|x l IH]; intros Hl; [done|].
  pose proof (Hl x ltac:(set_solver)) as Hx.
  rewrite (filter_cons P), (filter_cons Q), IH by (intros; apply Hl; set_solver).
  by destruct (decide (P x)), (decide (Q x)); try tauto.
Qed.

Section list_lemmas.
Context {A : Type} `{EqDecision A}.

Lemma filter_ne_length (e : A) (l : list A) :
  NoDup l -> e ∈ l -> length l = S (length (filter (fun x => x <> e) l)).
Proof.
  induction 1 as [|x l Hx Hnd IH]; intros He; [set_solver|].
  rewrite filter_cons. destruct (decide (x <> e)) as [Hne|Heq].
  - cbn. f_equal. apply IH. set_solver.
  - destruct (decide (x = e)) as [->|]; [|done]. cbn. f_equal.
    rewrite filter_all; [done|]. apply Forall_forall. intros z Hz ->. done.
Qed.

Lemma filter_ne_last (e : A) (l : list A) :
  NoDup l -> last l = Some e -> filter (fun x => x <> e) l = take (length l - 1) l.
Proof.
  intros Hnd Hl. apply last_Some in Hl as [l' ->].
  apply NoDup_app in Hnd as (_ & Hd & _).
  rewrite filter_app, length_app. cbn [length].
  replace (length l' + 1 - 1)%nat with (length l') by lia.
  rewrite take_app_length, filter_all, filter_none, app_nil_r; [done| |].
  - constructor; [|done]. naive_solver.
  - apply Forall_forall. intros z Hz ->. apply (Hd e); set_solver.
Qed.
End list_lemmas.

Module LRUProofs.
Import LRU.
Section theory.
Context {V : Type}.
Implicit Types (c : Cache V) (e : elem) (k ik : string) (ent : entry V).

(** The entry a key maps to. *)
Definition contents c k : option (entry V) := e ← items c !! k; heap c !! e.

(** [b] is right about the keys in [P]: it maps the non-empty index key of
    each cached one to it, and nothing else to it. *)
Definition index_on (P : string -> Prop) (m : string -> option (entry V)) (b : gmap string string) : Prop :=
  forall ik k, P k ->
    (b !! ik = Some k <-> ik <> ""%string /\ exists ent, m k = Some ent /\ indexKey ent = ik).

Record core c : Prop := {
  core_nodup : NoDup (order c);
  core_order : forall e, e ∈ order c <-> exists k, items c !! k = Some e;
  core_heap : forall k e, items c !! k = Some e -> exists ent, heap c !! e = Some ent /\ key ent = k;
  core_fresh : forall e, is_Some (heap c !! e) -> (e < next c)%nat;
  core_gen : in_uint64 (generation c);
  core_cap : 0 < capacity c }.

Record wf c : Prop := {
  wf_core : core c;
  wf_index : index_on (fun _ => True) (contents c) (byIndex c);
  wf_len : Z.of_nat (length (order c)) <= capacity c }.

(** *** Consequences of the invariant *)

Lemma contents_items c k e ent :
  items c !! k = Some e -> heap c !! e = Some ent -> contents c k = Some ent.
Proof. intros H1 H2. unfold contents. by rewrite H1; cbn. Qed.

Lemma contents_Some c k ent :
  contents c k = Some ent -> exists e, items c !! k = Some e /\ heap c !! e = Some ent.
Proof. unfold contents. destruct (items c !! k) as [e|]; [|done]. cbn. eauto. Qed.

Lemma core_items c k : core c ->
  items c !! k = None \/ exists e ent, items c !! k = Some e /\ heap c !! e = Some ent /\
                                     key ent = k /\ e ∈ order c.
Proof.
  intros Hc. destruct (items c !! k) as [e|] eqn:He; [right|by left].
  destruct (core_heap c Hc k e He) as (ent & Hent & Hk). exists e, ent.
  split_and!; try done. apply (core_order c Hc). eauto.
Qed.

Lemma core_elem c e : core c -> e ∈ order c ->
  exists ent, heap c !! e = Some ent /\ items c !! key ent = Some e.
Proof.
  intros Hc He. apply (core_order c Hc) in He as [k Hk].
  destruct (core_heap c Hc k e Hk) as (ent & Hent & <-). eauto.
Qed.

Lemma core_inj c k k' e : core c -> items c !! k = Some e -> items c !! k' = Some e -> k = k'.
Proof.
  intros Hc H1 H2. destruct (core_heap c Hc _ _ H1) as (a & Ha & <-).
  destruct (core_heap c Hc _ _ H2) as (b & Hb & <-). congruence.
Qed.

Lemma abs_total c : core c -> forall e, e ∈ order c -> is_Some (row_of <$> heap c !! e).
Proof. intros Hc e He. destruct (core_elem c e Hc He) as (ent & -> & _). cbn. eauto. Qed.

Lemma abs_length c : core c -> length (abs c) = length (order c).
Proof. intros Hc. apply omap_length_total. by apply abs_total. Qed.

Lemma elem_abs c r : core c ->
  r ∈ abs c <-> exists ent, contents c (row_key r) = Some ent /\ row_of ent = r.
Proof.
  intros Hc. unfold abs. rewrite list_elem_of_omap. split.
  - intros (e & He & Hr). destruct (core_elem c e Hc He) as (ent & Hent & Hit).
    rewrite Hent in Hr. cbn in Hr. simplify_eq. exists ent. split; [|done].
    by eapply contents_items.
  - intros (ent & Hent & Hrow). apply contents_Some in Hent as (e & Hit & Hh).
    exists e. rewrite Hh. cbn. rewrite Hrow. split; [|done].
    apply (core_order c Hc). eauto.
Qed.

(** Filtering the rows by key or by content is filtering the elements. *)
Lemma abs_filter_key c k e : core c -> items c !! k = Some e ->
  omap (fun e => row_of <$> heap c !! e) (list_remove e (order c)) = spec_remove k (abs c).
Proof.
  intros Hc Hk. unfold list_remove, spec_remove, abs. apply omap_filter_comm.
  intros x y Hx Hy. destruct (core_elem c x Hc Hx) as (ent & Hent & Hit).
  rewrite Hent in Hy. cbn in Hy. simplify_eq. unfold row_key, row_of. cbn. split.
  - intros Hne ->. apply Hne. by eapply core_inj.
  - intros Hne Heq. apply Hne. congruence.
Qed.

Lemma spec_remove_absent c k : core c -> items c !! k = None -> spec_remove k (abs c) = abs c.
Proof.
  intros Hc Hk. apply filter_all, Forall_forall. intros r Hr Heq.
  apply elem_abs in Hr as (ent & Hent & _); [|done]. unfold contents in Hent.
  by rewrite Heq, Hk in Hent.
Qed.

(** *** Removal *)

Lemma removeLocked_eq c k e ent : items c !! k = Some e -> heap c !! e = Some ent -> key ent = k ->
  removeLocked c e =
    mkCache (capacity c) (delete k (items c)) (list_remove e (order c)) (heap c) (next c)
      (if bool_decide (indexKey ent <> ""%string) then unbind (byIndex c) (indexKey ent) k else byIndex c)
      (generation c) (validator c).
Proof. intros _ Hh <-. unfold removeLocked. by rewrite Hh. Qed.

Lemma removeLocked_core c k e : core c -> items c !! k = Some e -> core (removeLocked c e).
Proof.
  intros Hc Hk. destruct (core_heap c Hc k e Hk) as (ent & Hh & Hkey).
  rewrite (removeLocked_eq c k e ent) by done. split; cbn.
  - apply NoDup_filter, Hc.
  - intros x. unfold list_remove. rewrite list_elem_of_filter, (core_order c Hc). split.
    + intros (Hne & k' & Hk'). exists k'. rewrite lookup_delete_ne; [done|]. congruence.
    + intros (k' & Hk'). apply lookup_delete_Some in Hk' as [Hne Hk']. split; [|eauto].
      intros ->. apply Hne. by eapply core_inj.
  - intros k' x Hx. apply lookup_delete_Some in Hx as [_ Hx]. by apply (core_heap c Hc).
  - apply (core_fresh c Hc).
  - apply (core_gen c Hc).
  - apply (core_cap c Hc).
Qed.

Lemma removeLocked_contents c k e j : core c -> items c !! k = Some e ->
  contents (removeLocked c e) j = if decide (j = k) then None else contents c j.
Proof.
  intros Hc Hk. destruct (core_heap c Hc k e Hk) as (ent & Hh & Hkey).
  rewrite (removeLocked_eq c k e ent) by done. unfold contents. cbn.
  destruct (decide (j = k)) as [->|]; [by rewrite lookup_delete_eq|].
  by rewrite lookup_delete_ne.
Qed.

Lemma removeLocked_index (P : string -> Prop) c k e : core c -> items c !! k = Some e -> P k ->
  index_on P (contents c) (byIndex c) ->
  index_on P (contents (removeLocked c e)) (byIndex (removeLocked c e)).
Proof.
  intros Hc Hk HP Hix ik j Hj. rewrite (removeLocked_contents c k) by done.
  destruct (core_heap c Hc k e Hk) as (ent & Hh & Hkey).
  pose proof (contents_items c k e ent Hk Hh) as Hcont.
  rewrite (removeLocked_eq c k e ent) by done. cbn.
  destruct (decide (j = k)) as [->|Hne].
  - split; [|naive_solver]. case_bool_decide as Hemp.
    + assert (byIndex c !! indexKey ent = Some k) as Hb by (apply Hix; eauto).
      unfold unbind. rewrite Hb, bool_decide_eq_true_2 by done. intros Hl.
      apply lookup_delete_Some in Hl as [Hd Hl]. apply Hix in Hl as (_ & ent' & Hent' & Hi); [|done].
      rewrite Hcont in Hent'. simplify_eq.
    + intros Hl. apply Hix in Hl as (He & ent' & Hent' & Hi); [|done].
      rewrite Hcont in Hent'. simplify_eq.
  - rewrite <-(Hix ik j Hj). case_bool_decide; [|done].
    unfold unbind. destruct (byIndex c !! indexKey ent) as [mapped|] eqn:Hb; [|done].
    case_bool_decide; [|done]. subst mapped. destruct (decide (indexKey ent = ik)) as [<-|].
    + rewrite lookup_delete_eq, Hb. naive_solver.
    + by rewrite lookup_delete_ne.
Qed.

Lemma removeLocked_abs c k e : core c -> items c !! k = Some e ->
  abs (removeLocked c e) = spec_remove k (abs c).
Proof.
  intros Hc Hk. rewrite <-(abs_filter_key c k e) by done.
  destruct (core_heap c Hc k e Hk) as (ent & Hh & Hkey).
  by rewrite (removeLocked_eq c k e ent).
Qed.

Lemma removeLocked_len c k e : core c -> items c !! k = Some e ->
  length (order c) = S (length (order (removeLocked c e))).
Proof.
  intros Hc Hk. destruct (core_heap c Hc k e Hk) as (ent & Hh & Hkey).
  rewrite (removeLocked_eq c k e ent) by done. cbn. apply filter_ne_length; [apply Hc|].
  apply (core_order c Hc). eauto.
Qed.

Lemma removeLocked_frame c e :
  capacity (removeLocked c e) = capacity c /\ generation (removeLocked c e) = generation c /\
  heap (removeLocked c e) = heap c /\ next (removeLocked c e) = next c /\
  validator (removeLocked c e) = validator c.
Proof. unfold removeLocked. by destruct (heap c !! e). Qed.

Lemma removeLocked_wf c k e : wf c -> items c !! k = Some e -> wf (removeLocked c e).
Proof.
  intros [Hc Hi Hl] Hk. split.
  - by eapply removeLocked_core.
  - by eapply removeLocked_index.
  - pose proof (removeLocked_len c k e Hc Hk). destruct (removeLocked_frame c e) as (-> & _). lia.
Qed.

Lemma bump_core c : core c -> core (bump c).
Proof. intros [????? ?]. split; cbn; try done. apply wrapu64_range. Qed.

Lemma bump_wf c : wf c -> wf (bump c).
Proof. intros [Hc Hi Hl]. split; [by apply bump_core|done|done]. Qed.

(** *** Installing *)

(** Binding [ik] to [k] in an index that is right about every other key. *)
Lemma index_bind (m m' : string -> option (entry V)) (b : gmap string string) k ik ent :
  index_on (fun j => j <> k) m b ->
  (forall ik', b !! ik' = Some k -> ik' = ik /\ ik <> ""%string) ->
  (ik <> ""%string -> b !! ik = None \/ b !! ik = Some k) ->
  m' k = Some ent -> indexKey ent = ik -> (forall j, j <> k -> m' j = m j) ->
  index_on (fun _ => True) m' (if bool_decide (ik <> ""%string) then <[ik := k]> b else b).
Proof.
  intros Hix Hk Hfree Hent Hik Hm ik' j _. destruct (decide (j = k)) as [->|Hne].
  - rewrite Hent. case_bool_decide as Hemp.
    + rewrite lookup_insert_Some. naive_solver.
    + split; naive_solver.
  - rewrite (Hm j Hne), <-(Hix ik' j Hne). case_bool_decide as Hemp; [|done].
    destruct (decide (ik = ik')) as [<-|]; [|by rewrite lookup_insert_ne].
    rewrite lookup_insert_eq. destruct (Hfree Hemp) as [->| ->]; naive_solver.
Qed.

(** What [evictIndexOwnerLocked] establishes for the key that takes [ik]. *)
Definition keeps k ik (r : row (V:=V)) : Prop :=
  row_key r = k \/ ~ (ik <> ""%string /\ row_index r = ik).

#[global] Instance keeps_dec k ik (r : row (V:=V)) : Decision (keeps k ik r).
Proof. unfold keeps. apply _. Defined.

Record owner_evicted c c' k ik : Prop := {
  oe_core : core c';
  oe_index : index_on (fun j => j <> k) (contents c') (byIndex c');
  oe_free : ik <> ""%string -> byIndex c' !! ik = None \/ byIndex c' !! ik = Some k;
  oe_mine : forall ik', byIndex c' !! ik' = Some k -> byIndex c !! ik' = Some k;
  oe_key : items c' !! k = items c !! k;
  oe_heap : heap c' = heap c;
  oe_abs : abs c' = filter (keeps k ik) (abs c);
  oe_len : (length (order c') <= length (order c))%nat;
  oe_frame : capacity c' = capacity c /\ next c' = next c /\ validator c' = validator c }.

(** No row but [k]'s has the index key: nothing to evict. *)
Lemma owner_evicted_refl c k ik : core c ->
  index_on (fun j => j <> k) (contents c) (byIndex c) ->
  (ik <> ""%string -> byIndex c !! ik = None \/ byIndex c !! ik = Some k) -> owner_evicted c c k ik.
Proof.
  intros Hc Hix Hfree. split; try done.
  symmetry. apply filter_all, Forall_forall. intros r Hr.
  apply elem_abs in Hr as (ent & Hent & Hrow); [|done].
  destruct (decide (row_key r = k)) as [|Hne]; [by left|right]. intros [Hik Hri].
  assert (byIndex c !! ik = Some (row_key r)) as Hb.
  { apply Hix; [done|]. split; [done|]. exists ent. split; [done|]. rewrite <-Hri, <-Hrow. done. }
  destruct (Hfree Hik); congruence.
Qed.

Lemma evictIndexOwner_gen c k ik : core c ->
  index_on (fun j => j <> k) (contents c) (byIndex c) -> ik <> ""%string ->
  generation (evictIndexOwnerLocked c ik k) =
    if decide (Exists (fun r => ~ keeps k ik r) (abs c)) then wrapu64 (generation c + 1)
    else generation c.
Proof.
  intros Hc Hix Hik. unfold evictIndexOwnerLocked.
  assert (byIndex c !! ik = None \/ byIndex c !! ik = Some k ->
          ~ Exists (fun r => ~ keeps k ik r) (abs c)) as Hnone.
  { intros Hfree. pose proof (oe_abs _ _ _ _ (owner_evicted_refl c k ik Hc Hix (fun _ => Hfree))) as Habs.
    rewrite Exists_exists. intros (r & Hr & Hn). rewrite Habs in Hr.
    by apply list_elem_of_filter in Hr as [? _]. }
  destruct (byIndex c !! ik) as [owner|] eqn:Hb; [|rewrite decide_False; auto].
  case_bool_decide as Hown; [subst; rewrite decide_False; auto|].
  destruct (proj1 (Hix ik owner Hown) Hb) as (_ & ent & Hent & Hi).
  destruct (contents_Some _ _ _ Hent) as (oe & Hoe & Hh). rewrite Hoe.
  destruct (removeLocked_frame (bump c) oe) as (_ & -> & _). rewrite decide_True; [done|].
  destruct (core_heap c Hc _ _ Hoe) as (ent' & Hent' & Hk'). simplify_eq.
  apply Exists_exists. exists (row_of ent). split; [|intros [?|Hn]; [done|by apply Hn]].
  apply elem_abs; [done|]. eauto.
Qed.

Lemma evictIndexOwner_evicts c k ik : core c ->
  index_on (fun j => j <> k) (contents c) (byIndex c) -> ik <> ""%string ->
  owner_evicted c (evictIndexOwnerLocked c ik k) k ik.
Proof.
  intros Hc Hix Hik. unfold evictIndexOwnerLocked.
  destruct (byIndex c !! ik) as [owner|] eqn:Hb; [|apply owner_evicted_refl; auto].
  case_bool_decide as Hown; [subst; apply owner_evicted_refl; auto|].
  destruct (proj1 (Hix ik owner Hown) Hb) as (_ & ent & Hent & Hi).
  destruct (contents_Some _ _ _ Hent) as (oe & Hoe & Hh). rewrite Hoe.
  destruct (core_heap c Hc _ _ Hoe) as (ent' & Hent' & Hk'). simplify_eq.
  pose proof (bump_core c Hc) as Hcb.
  assert (items (bump c) !! key ent = Some oe) as Hob by done.
  assert (byIndex (removeLocked (bump c) oe) = delete (indexKey ent) (byIndex c)) as Hbi.
  { rewrite (removeLocked_eq _ (key ent) _ ent) by done. cbn. unfold unbind.
    by rewrite bool_decide_eq_true_2, Hb, bool_decide_eq_true_2 by done. }
  split.
  - by eapply removeLocked_core.
  - by eapply removeLocked_index.
  - rewrite Hbi, lookup_delete_eq. auto.
  - intros ik'. rewrite Hbi. intros Hl. by apply lookup_delete_Some in Hl as [_ Hl].
  - rewrite (removeLocked_eq _ (key ent) _ ent) by done. cbn. by rewrite lookup_delete_ne.
  - by destruct (removeLocked_frame (bump c) oe) as (_ & _ & -> & _).
  - rewrite (removeLocked_abs _ (key ent)) by done. apply list_filter_iff_in.
    intros r Hr. apply elem_abs in Hr as (entr & Hentr & Hrow); [|done]. split.
    + intros Hne. destruct (decide (row_key r = k)) as [|Hnk]; [by left|right]. intros [_ Hri].
      assert (byIndex c !! indexKey ent = Some (row_key r)); [|congruence].
      apply Hix; [done|]. split; [done|]. exists entr. split; [done|]. by rewrite <-Hri, <-Hrow.
    + intros [Hrk|Hri] Hko; [congruence|]. apply Hri. split; [done|]. rewrite Hko in Hentr.
      assert (entr = ent) as <- by congruence. by rewrite <-Hrow.
  - pose proof (removeLocked_len _ _ _ Hcb Hob). cbn in *. lia.
  - destruct (removeLocked_frame (bump c) oe) as (-> & _ & _ & -> & ->). done.
Qed.

(** The old owner of a non-empty index key leaves. *)
Definition ownerCleared c k ik : Cache V :=
  if bool_decide (ik <> ""%string) then evictIndexOwnerLocked c ik k else c.

Lemma ownerCleared_evicts c k ik : core c ->
  index_on (fun j => j <> k) (contents c) (byIndex c) -> owner_evicted c (ownerCleared c k ik) k ik.
Proof.
  intros Hc Hix. unfold ownerCleared. case_bool_decide.
  - by apply evictIndexOwner_evicts.
  - by apply owner_evicted_refl.
Qed.

Lemma ownerCleared_gen c k ik : core c ->
  index_on (fun j => j <> k) (contents c) (byIndex c) ->
  generation (ownerCleared c k ik) =
    if decide (Exists (fun r => ~ keeps k ik r) (abs c)) then wrapu64 (generation c + 1)
    else generation c.
Proof.
  intros Hc Hix. unfold ownerCleared. case_bool_decide as Hik; [by apply evictIndexOwner_gen|].
  rewrite decide_False; [done|]. rewrite Exists_exists. intros (r & _ & Hn).
  apply Hn. right. naive_solver.
Qed.

Lemma moveFront_wf c e : wf c -> e ∈ order c -> wf (with_order c (list_move_front e (order c))).
Proof.
  intros [Hc Hi Hl] He. unfold list_move_front. rewrite decide_True by done.
  pose proof (filter_ne_length e (order c) (core_nodup c Hc) He) as Hlen.
  split; [|done|unfold list_remove; cbn; lia].
  split; cbn; try apply Hc.
  - constructor; [|apply NoDup_filter, Hc]. unfold list_remove. rewrite list_elem_of_filter. naive_solver.
  - intros x. rewrite <-(core_order c Hc). unfold list_remove.
    rewrite elem_of_cons, list_elem_of_filter. destruct (decide (x = e)) as [->|]; naive_solver.
Qed.

Lemma moveFront_abs c k e ent : core c -> items c !! k = Some e -> heap c !! e = Some ent ->
  abs (with_order c (list_move_front e (order c))) = row_of ent :: spec_remove k (abs c).
Proof.
  intros Hc Hk Hh. rewrite <-(abs_filter_key c k e) by done.
  unfold list_move_front, abs. rewrite decide_True by (apply (core_order c Hc); eauto).
  cbn. by rewrite Hh.
Qed.

Lemma removeLocked_shrinks c e i j :
  byIndex (removeLocked c e) !! i = Some j -> byIndex c !! i = Some j.
Proof.
  unfold removeLocked, unbind. split_all; try done. intros Hl. by apply lookup_delete_Some in Hl as [_ Hl].
Qed.

(** Room is made before an insertion, at the cost of the last row. *)
Lemma evictTail_room c k : core c -> items c !! k = None ->
  index_on (fun j => j <> k) (contents c) (byIndex c) -> Z.of_nat (length (order c)) <= capacity c ->
  let c' := evictTail c in
  core c' /\ items c' !! k = None /\ index_on (fun j => j <> k) (contents c') (byIndex c') /\
  Z.of_nat (length (order c')) < capacity c' /\ capacity c' = capacity c /\
  generation c' = generation c /\ validator c' = validator c /\
  (forall i j, byIndex c' !! i = Some j -> byIndex c !! i = Some j) /\
  abs c' = take (Z.to_nat (capacity c - 1)) (abs c).
Proof.
  intros Hc Hk Hix Hlen. cbn. unfold evictTail. pose proof (core_cap c Hc) as Hcap.
  case_bool_decide as Hfull; last first.
  { split_and!; try done; [lia|]. rewrite take_ge; [done|]. rewrite abs_length by done. lia. }
  destruct (last (order c)) as [tail|] eqn:Htail; last first.
  { apply last_None in Htail. rewrite Htail in Hfull. cbn in Hfull. lia. }
  assert (tail ∈ order c) as Hin by (apply last_Some in Htail as [l ->]; set_solver).
  apply (core_order c Hc) in Hin as [kt Hkt].
  destruct (core_heap c Hc _ _ Hkt) as (ent & Hh & Hke).
  destruct (removeLocked_frame c tail) as (Ecap & Egen & _ & _ & Eval).
  pose proof (removeLocked_len c kt tail Hc Hkt) as Hl.
  split_and!; try done.
  - by eapply removeLocked_core.
  - rewrite (removeLocked_eq c kt tail ent) by done. cbn. rewrite lookup_delete_ne; [done|congruence].
  - eapply removeLocked_index; try done. cbn. congruence.
  - lia.
  - apply removeLocked_shrinks.
  - rewrite (removeLocked_eq c kt tail ent) by done. unfold abs. cbn. unfold list_remove.
    rewrite (filter_ne_last tail (order c)) by (done || apply Hc).
    rewrite omap_take_total by (by apply abs_total). f_equal. lia.
Qed.

Lemma pushEntry_wf c k ik v : core c -> items c !! k = None ->
  index_on (fun j => j <> k) (contents c) (byIndex c) ->
  (forall i, byIndex c !! i <> Some k) -> (ik <> ""%string -> byIndex c !! ik = None) ->
  Z.of_nat (length (order c)) < capacity c -> wf (pushEntry c k ik v).
Proof.
  intros Hc Hk Hix Hmine Hfree Hlen.
  assert (forall e, is_Some (heap c !! e) -> e <> next c) as Hfresh.
  { intros e He. apply (core_fresh c Hc) in He. lia. }
  assert (forall j e, items c !! j = Some e -> e <> next c) as Hfresh'.
  { intros j e He. apply Hfresh. destruct (core_heap c Hc _ _ He) as (ent & -> & _). eauto. }
  split; [|eapply index_bind|cbn; lia].
  - split; cbn; try apply Hc.
    + constructor; [|apply Hc]. rewrite (core_order c Hc). intros [j Hj]. by apply Hfresh' in Hj.
    + intros e. rewrite elem_of_cons, (core_order c Hc). split.
      * intros [->|(j & Hj)]; [exists k; by rewrite lookup_insert_eq|].
        exists j. rewrite lookup_insert_ne; [done|congruence].
      * intros (j & Hj). apply lookup_insert_Some in Hj as [[_ ->]|[_ Hj]]; [by left|right; eauto].
    + intros j e Hj. apply lookup_insert_Some in Hj as [[-> <-]|[_ Hj]].
      * rewrite lookup_insert_eq. by eexists.
      * rewrite lookup_insert_ne by (by apply not_eq_sym, (Hfresh' j)). by apply (core_heap c Hc).
    + intros e [ent He]. apply lookup_insert_Some in He as [[<- _]|[_ He]]; [lia|].
      pose proof (core_fresh c Hc e ltac:(eauto)). lia.
  - exact Hix.
  - naive_solver.
  - auto.
  - unfold contents. cbn. rewrite lookup_insert_eq. cbn. by rewrite lookup_insert_eq.
  - done.
  - intros j Hj. unfold contents. cbn. rewrite lookup_insert_ne by done.
    destruct (items c !! j) as [e|] eqn:He; [|done]. cbn.
    by rewrite lookup_insert_ne by (by apply not_eq_sym, (Hfresh' j)).
Qed.

Lemma pushEntry_abs c k ik v : core c -> abs (pushEntry c k ik v) = (k, ik, v) :: abs c.
Proof.
  intros Hc. unfold abs, pushEntry. cbn. rewrite lookup_insert_eq. cbn. f_equal.
  apply omap_ext_in. intros e He. rewrite lookup_insert_ne; [done|].
  destruct (core_elem c e Hc He) as (ent & Hent & _).
  pose proof (core_fresh c Hc e ltac:(eauto)). lia.
Qed.

(** *** [setIfGeneration] *)

Lemma index_on_weaken c k : index_on (fun _ => True) (contents c) (byIndex c) ->
  index_on (fun j => j <> k) (contents c) (byIndex c).
Proof. intros H ik j _. by apply H. Qed.

Lemma with_index_id c : with_index c (byIndex c) = c.
Proof. by destruct c. Qed.

Lemma install_fresh c k ik v : wf c -> items c !! k = None ->
  let c' := pushEntry (evictTail (ownerCleared c k ik)) k ik v in
  wf c' /\ abs c' = spec_install (capacity c) k ik v (abs c) /\
  capacity c' = capacity c /\ validator c' = validator c /\
  generation c' = generation (ownerCleared c k ik).
Proof.
  intros [Hc Hi Hl] Hk. cbn zeta.
  destruct (ownerCleared_evicts c k ik Hc (index_on_weaken _ _ Hi)) as [Hc1 Hi1 Hf1 Hm1 Hk1 _ Ha1 Hl1 (Hcap1 & _ & Hv1)].
  rewrite Hk in Hk1. assert (forall i, byIndex c !! i <> Some k) as Hmine.
  { intros i Hb. apply Hi in Hb as (_ & ent & Hent & _); [|done]. unfold contents in Hent. by rewrite Hk in Hent. }
  destruct (evictTail_room (ownerCleared c k ik) k) as (Hc2 & Hk2 & Hi2 & Hl2 & Hcap2 & Hg2 & Hv2 & Hsh & Ha2); try done; [lia|].
  split_and!.
  - apply pushEntry_wf; try done; [intros i Hb; apply Hsh, Hm1 in Hb; naive_solver|].
    intros Hik. destruct (byIndex (evictTail (ownerCleared c k ik)) !! ik) as [j|] eqn:Hb; [|done].
    apply Hsh in Hb. destruct (Hf1 Hik) as [Hn|Hn]; [congruence|].
    by apply Hm1, Hmine in Hn.
  - rewrite pushEntry_abs by done. unfold spec_install. f_equal. rewrite Ha2, Hcap1, Ha1. f_equal.
    apply list_filter_iff_in. intros r Hr. unfold keeps.
    apply elem_abs in Hr as (ent & Hent & _); [|done].
    assert (row_key r <> k); [|tauto]. intros Heq. rewrite Heq in Hent. unfold contents in Hent. by rewrite Hk in Hent.
  - cbn. congruence.
  - cbn. congruence.
  - cbn. congruence.
Qed.

(** The state of an update after the value is written: the index is right
    about the other keys and maps at most [ik] to [k]. *)
Definition rewritten c k ik v e ent : Cache V :=
  let b := if bool_decide (indexKey ent <> ik) && bool_decide (indexKey ent <> ""%string)
           then unbind (byIndex c) (indexKey ent) k else byIndex c in
  with_heap (with_index c b) (<[e := mkEntry (key ent) ik v (wrapu64 (version ent + 1))]> (heap c)).

Lemma rewritten_core c k ik v e ent : core c -> items c !! k = Some e -> heap c !! e = Some ent ->
  core (rewritten c k ik v e ent).
Proof.
  intros Hc Hk Hh. destruct (core_heap c Hc _ _ Hk) as (ent' & Hh' & Hke). simplify_eq.
  unfold rewritten. split; cbn; try apply Hc.
  - intros j x Hj. destruct (decide (e = x)) as [<-|]; [|rewrite lookup_insert_ne by done; by apply Hc].
    rewrite lookup_insert_eq. eexists. split; [done|]. cbn. by eapply core_inj.
  - intros x [y Hx]. apply lookup_insert_Some in Hx as [[<- _]|[_ Hx]]; apply (core_fresh c Hc); eauto.
Qed.

Lemma rewritten_contents c k ik v e ent j : core c -> items c !! k = Some e -> j <> k ->
  contents (rewritten c k ik v e ent) j = contents c j.
Proof.
  intros Hc Hk Hj. unfold contents, rewritten. cbn. destruct (items c !! j) as [x|] eqn:Hx; [|done]. cbn.
  rewrite lookup_insert_ne; [done|]. intros ->. apply Hj. by eapply core_inj.
Qed.

Lemma rewritten_index c k ik v e ent : wf c -> items c !! k = Some e -> heap c !! e = Some ent ->
  index_on (fun j => j <> k) (contents (rewritten c k ik v e ent)) (byIndex (rewritten c k ik v e ent)) /\
  forall i, byIndex (rewritten c k ik v e ent) !! i = Some k -> i = ik /\ ik <> ""%string.
Proof.
  intros [Hc Hi Hl] Hk Hh. pose proof (contents_items c k e ent Hk Hh) as Hcont. split.
  - intros i j Hj. rewrite rewritten_contents, <-(Hi i j I) by done. unfold rewritten. cbn.
    destruct (_ && _); [|done]. unfold unbind.
    destruct (byIndex c !! indexKey ent) as [o|] eqn:Ho; [|done]. case_bool_decide; [|done]. subst o.
    destruct (decide (indexKey ent = i)) as [<-|]; [|by rewrite lookup_delete_ne].
    rewrite lookup_delete_eq, Ho. naive_solver.
  - intros i. unfold rewritten. cbn. intros Hb.
    assert (byIndex c !! i = Some k) as Hb'.
    { revert Hb. destruct (_ && _); [|done]. unfold unbind. split_all; try done.
      intros Hb. by apply lookup_delete_Some in Hb as [_ Hb]. }
    apply Hi in Hb' as Hb2; [|done]. destruct Hb2 as (Hne & ent' & He' & <-).
    rewrite Hcont in He'. simplify_eq.
    destruct (decide (indexKey ent' = ik)) as [<-|Hd]; [done|].
    rewrite !bool_decide_eq_true_2 in Hb by done. cbn in Hb. unfold unbind in Hb.
    by rewrite Hb', bool_decide_eq_true_2, lookup_delete_eq in Hb.
Qed.

Lemma rewritten_rows c k ik v e ent : core c -> items c !! k = Some e -> heap c !! e = Some ent ->
  spec_remove k (abs (rewritten c k ik v e ent)) = spec_remove k (abs c).
Proof.
  intros Hc Hk Hh. rewrite <-(abs_filter_key c k e) by done.
  rewrite <-(abs_filter_key (rewritten c k ik v e ent) k e) by (done || by apply rewritten_core).
  apply omap_ext_in. intros x Hx. unfold list_remove in Hx. apply list_elem_of_filter in Hx as [Hne _].
  unfold rewritten. cbn. by rewrite lookup_insert_ne.
Qed.

Lemma updateExisting_eq c k ik v e ent :
  updateExisting c k ik v e ent =
    (let c' := ownerCleared (rewritten c k ik v e ent) k ik in
     let c3 := with_index c' (if bool_decide (ik <> ""%string) then <[ik := k]> (byIndex c') else byIndex c') in
     with_order c3 (list_move_front e (order c3))).
Proof.
  unfold updateExisting, rewritten, ownerCleared. cbn zeta.
  destruct (bool_decide (indexKey ent <> ik) && bool_decide (indexKey ent <> ""%string));
    destruct (bool_decide (ik <> ""%string)); rewrite ?with_index_id; reflexivity.
Qed.

Lemma spec_remove_length c k e : core c -> items c !! k = Some e ->
  length (abs c) = S (length (spec_remove k (abs c))).
Proof.
  intros Hc Hk. rewrite <-(removeLocked_abs c k e) by done.
  rewrite !abs_length by (done || by eapply removeLocked_core). by apply removeLocked_len with k.
Qed.

Lemma install_existing c k ik v e ent : wf c -> items c !! k = Some e -> heap c !! e = Some ent ->
  let c' := updateExisting c k ik v e ent in
  wf c' /\ abs c' = spec_install (capacity c) k ik v (abs c) /\
  capacity c' = capacity c /\ validator c' = validator c /\
  generation c' = generation (ownerCleared (rewritten c k ik v e ent) k ik).
Proof.
  intros Hwf Hk Hh. destruct (rewritten_index c k ik v e ent Hwf Hk Hh) as [Hix Hmine].
  destruct Hwf as [Hc Hi Hl]. pose proof (rewritten_core c k ik v e ent Hc Hk Hh) as Hc0.
  destruct (core_heap c Hc _ _ Hk) as (ent' & Hh' & Hke). simplify_eq.
  destruct (ownerCleared_evicts _ (key ent) ik Hc0 Hix) as [Hc1 Hi1 Hf1 Hm1 Hk1 Hh1 Ha1 Hl1 (Hcap1 & _ & Hv1)].
  set (c0 := rewritten c (key ent) ik v e ent) in *. set (c1 := ownerCleared c0 (key ent) ik) in *.
  cbn zeta. rewrite updateExisting_eq. fold c0. fold c1. cbn zeta.
  set (c3 := with_index c1 _).
  assert (items c3 !! key ent = Some e) as Hk3 by (cbn; by rewrite Hk1).
  assert (heap c3 !! e = Some (mkEntry (key ent) ik v (wrapu64 (version ent + 1)))) as Hh3.
  { cbn. rewrite Hh1. cbn. by rewrite lookup_insert_eq. }
  assert (core c3) as Hc3 by (destruct Hc1; by split).
  assert (wf c3) as Hwf3.
  { split; [done| |cbn; rewrite Hcap1; cbn in *; lia].
    eapply index_bind; [exact Hi1| |done| | |].
    - intros i Hb. by apply Hmine, Hm1.
    - by eapply contents_items.
    - done.
    - done. }
  split_and!; try done.
  - apply moveFront_wf; [done|]. apply (core_order c3 Hc3). eauto.
  - rewrite (moveFront_abs c3 (key ent) e _ Hc3 Hk3 Hh3). unfold spec_install. f_equal.
    change (abs c3) with (abs c1). rewrite Ha1. unfold spec_remove.
    rewrite list_filter_filter. rewrite take_ge.
    + transitivity (filter (keeps (key ent) ik) (spec_remove (key ent) (abs c0))).
      { unfold spec_remove. rewrite list_filter_filter. apply list_filter_iff. tauto. }
      unfold c0. rewrite rewritten_rows by done. unfold spec_remove. rewrite list_filter_filter.
      apply list_filter_iff. intros r. unfold keeps. tauto.
    + pose proof (spec_remove_length c (key ent) e Hc Hk) as Hlen. rewrite abs_length in Hlen by done.
      rewrite (list_filter_iff _ (fun r => ~ (ik <> ""%string /\ row_index r = ik) /\ row_key r <> key ent)) by tauto.
      rewrite <-list_filter_filter.
      etrans; [apply length_filter|]. fold (spec_remove (key ent) (abs c)). lia.
Qed.

(** *** The abstract machine *)

(** The cache as its clients see it: rows in recency order, the generation,
    the bound and the validator. *)
Record Spec := mkSpec { s_cap : Z; s_rows : list (row (V:=V)); s_gen : Z; s_valid : option (V -> bool) }.

Definition alpha c : Spec := mkSpec (capacity c) (abs c) (generation c) (validator c).

Definition with_rows (s : Spec) (l : list row) : Spec := mkSpec (s_cap s) l (s_gen s) (s_valid s).
Definition invalidate (s : Spec) (l : list row) : Spec :=
  mkSpec (s_cap s) l (wrapu64 (s_gen s + 1)) (s_valid s).

Inductive op :=
| OGet (k : string)
| OInstall (k ik : string) (v : V) (gen : Z)
| OGeneration
| OEvict (k : string)
| OEvictByIndex (ik : string)
| OEvictWhere (pred : string -> bool)
| OFlush
| OLen.

Inductive out := RValue (v : option V) | RNum (n : Z) | RDone.

Definition op_run c (o : op) : out * Cache V :=
  match o with
  | OGet k => let '(v, c') := Get c k in (RValue v, c')
  | OInstall k ik v gen => (RDone, setIfGeneration c k ik v gen)
  | OGeneration => (RNum (currentGeneration c), c)
  | OEvict k => (RDone, Evict c k)
  | OEvictByIndex ik => (RDone, EvictByIndex c ik)
  | OEvictWhere pred => (RDone, EvictWhere c pred)
  | OFlush => (RDone, Flush c)
  | OLen => (RNum (Len c), c)
  end.

Definition spec_op (s : Spec) (o : op) : out * Spec :=
  match o with
  | OGet k =>
      match spec_find k (s_rows s) with
      | None => (RValue None, s)
      | Some r =>
          if match s_valid s with Some valid => negb (valid r.2) | None => false end
          then (RValue None, with_rows s (spec_remove k (s_rows s)))
          else (RValue (Some r.2), with_rows s (spec_touch k (s_rows s)))
      end
  | OInstall k ik v gen =>
      if decide (s_gen s = gen) then
        (RDone,
         (if decide (Exists (fun r => ~ keeps k ik r) (s_rows s)) then invalidate s else with_rows s)
           (spec_install (s_cap s) k ik v (s_rows s)))
      else (RDone, s)
  | OGeneration => (RNum (s_gen s), s)
  | OEvict k => (RDone, invalidate s (spec_remove k (s_rows s)))
  | OEvictByIndex ik =>
      if decide (ik = ""%string) then (RDone, s)
      else (RDone, invalidate s (filter (fun r => row_index r <> ik) (s_rows s)))
  | OEvictWhere pred => (RDone, invalidate s (filter (fun r => pred (row_key r) = false) (s_rows s)))
  | OFlush => (RDone, invalidate s [])
  | OLen => (RNum (Z.of_nat (length (s_rows s))), s)
  end.

Fixpoint run_ops {S : Type} (step : S -> op -> out * S) (s : S) (ops : list op) : list out :=
  match ops with
  | [] => []
  | o :: ops => let '(r, s') := step s o in r :: run_ops step s' ops
  end.

(** *** Simulation of each operation *)

Lemma spec_find_abs c k : core c -> spec_find k (abs c) = row_of <$> contents c k.
Proof.
  intros Hc. unfold spec_find.
  destruct (contents c k) as [ent|] eqn:Hcont; cbn.
  - destruct (contents_Some _ _ _ Hcont) as (e & Hk & Hh).
    destruct (core_heap c Hc _ _ Hk) as (ent' & Hh' & Hke). simplify_eq.
    destruct (filter _ (abs c)) as [|r l] eqn:Hf.
    + assert (row_of ent ∈ filter (fun r => row_key r = key ent) (abs c)) as Hin; [|rewrite Hf in Hin; set_solver].
      apply list_elem_of_filter. split; [done|]. apply elem_abs; eauto.
    + assert (r ∈ filter (fun r => row_key r = key ent) (abs c)) as Hin by (rewrite Hf; set_solver).
      apply list_elem_of_filter in Hin as [Hrk Hin]. apply elem_abs in Hin as (entr & Hr & <-); [|done].
      cbn in *. rewrite Hrk in Hr. congruence.
  - rewrite filter_none; [done|]. apply Forall_forall. intros r Hr Hk.
    apply elem_abs in Hr as (ent & Hent & _); [|done]. congruence.
Qed.

Lemma removeLocked_alpha c k e : core c -> items c !! k = Some e ->
  alpha (removeLocked c e) = with_rows (alpha c) (spec_remove k (abs c)).
Proof.
  intros Hc Hk. unfold alpha, with_rows. rewrite (removeLocked_abs c k e) by done.
  by destruct (removeLocked_frame c e) as (-> & -> & _ & _ & ->).
Qed.

(** Removing a key that may be absent. *)
Definition dropKey c k : Cache V := match items c !! k with Some e => removeLocked c e | None => c end.

Lemma dropKey_sim c k : wf c ->
  wf (dropKey c k) /\ alpha (dropKey c k) = with_rows (alpha c) (spec_remove k (abs c)).
Proof.
  intros Hwf. unfold dropKey. destruct (items c !! k) as [e|] eqn:Hk.
  - split; [by eapply removeLocked_wf|]. apply removeLocked_alpha; [apply Hwf|done].
  - split; [done|]. rewrite spec_remove_absent by (done || apply Hwf). done.
Qed.

Definition sim c (o : op) : Prop :=
  let '(r, c') := op_run c o in
  let '(r', s') := spec_op (alpha c) o in
  wf c' /\ r = r' /\ alpha c' = s'.

Lemma Get_sim c k : wf c -> sim c (OGet k).
Proof.
  intros Hwf. pose proof (wf_core c Hwf) as Hc. unfold sim. cbn. unfold Get, getRead.
  rewrite spec_find_abs by done. unfold contents.
  destruct (core_items c k Hc) as [Hk|(e & ent & Hk & Hh & Hke & Hin)]; [by rewrite Hk|].
  rewrite Hk. cbn. rewrite Hh. cbn. unfold refused, row_of. cbn.
  assert (getTouch c k e = with_order c (list_move_front e (order c))) as Htouch.
  { unfold getTouch. by rewrite Hk, bool_decide_eq_true_2. }
  assert (getDrop c k e (version ent) = removeLocked c e) as Hdrop.
  { unfold getDrop. by rewrite Hk, Hh, !bool_decide_eq_true_2. }
  rewrite Htouch, Hdrop. destruct (match validator c with Some _ => _ | None => _ end).
  - split; [by eapply removeLocked_wf|]. split; [done|]. by apply removeLocked_alpha.
  - split; [by apply moveFront_wf|]. split; [done|].
    unfold alpha. rewrite (moveFront_abs c k e ent) by done.
    unfold spec_touch. rewrite spec_find_abs by done. by rewrite (contents_items c k e ent).
Qed.

Lemma exists_not_keeps k ik (l : list (row (V:=V))) :
  Exists (fun r => ~ keeps k ik r) l <-> Exists (fun r => ~ keeps k ik r) (spec_remove k l).
Proof.
  rewrite !Exists_exists. unfold spec_remove. setoid_rewrite list_elem_of_filter.
  split; intros (r & Hr & Hn); exists r; [|naive_solver].
  split; [|done]. split; [|done]. intros Hk. apply Hn. by left.
Qed.

Lemma install_sim c k ik v gen : wf c -> sim c (OInstall k ik v gen).
Proof.
  intros Hwf. pose proof (wf_core c Hwf) as Hc. unfold sim. cbn. unfold setIfGeneration.
  destruct (decide (generation c = gen)) as [Hg|Hg]; last by rewrite bool_decide_eq_true_2.
  rewrite bool_decide_eq_false_2 by naive_solver. fold (ownerCleared c k ik).
  destruct (core_items c k Hc) as [Hk|(e & ent & Hk & Hh & Hke & Hin)].
  - rewrite Hk. destruct (install_fresh c k ik v Hwf Hk) as (Hw & Ha & Hcap & Hv & Hgen).
    split; [done|]. split; [done|]. unfold alpha. rewrite Ha, Hcap, Hv, Hgen.
    rewrite ownerCleared_gen by (done || by apply index_on_weaken, Hwf). by case_decide.
  - rewrite Hk, Hh. destruct (install_existing c k ik v e ent Hwf Hk Hh) as (Hw & Ha & Hcap & Hv & Hgen).
    split; [done|]. split; [done|]. unfold alpha. rewrite Ha, Hcap, Hv, Hgen.
    rewrite ownerCleared_gen by (by apply rewritten_core || by apply rewritten_index).
    assert (Exists (fun r => ~ keeps k ik r) (abs (rewritten c k ik v e ent)) <->
            Exists (fun r => ~ keeps k ik r) (abs c)) as Hex.
    { rewrite exists_not_keeps, rewritten_rows, <-exists_not_keeps by done. done. }
    destruct (decide (Exists _ (abs (rewritten c k ik v e ent)))), (decide (Exists _ (abs c))); tauto || done.
Qed.

Lemma EvictByIndex_sim c ik : wf c -> sim c (OEvictByIndex ik).
Proof.
  intros Hwf. unfold sim. cbn. unfold EvictByIndex.
  destruct (decide (ik = ""%string)) as [->|Hik]; [done|]. rewrite bool_decide_eq_false_2 by done.
  pose proof (bump_wf c Hwf) as Hwb. cbn [byIndex bump].
  destruct (byIndex c !! ik) as [k|] eqn:Hb.
  - change (match items (bump c) !! k with Some e => removeLocked (bump c) e | None => bump c end)
      with (dropKey (bump c) k).
    destruct (dropKey_sim (bump c) k Hwb) as [Hw Ha]. split; [done|]. split; [done|].
    rewrite Ha. unfold alpha, with_rows, invalidate. cbn. f_equal. apply list_filter_iff_in.
    intros r Hr. apply elem_abs in Hr as (ent & Hent & Hrow); [|apply Hwf].
    pose proof (wf_index c Hwf ik k I) as Hi. split.
    + intros Hne Hri. apply Hne. assert (byIndex c !! ik = Some (row_key r)); [|congruence].
      apply (wf_index c Hwf); [done|]. split; [done|]. exists ent. split; [done|]. by rewrite <-Hri, <-Hrow.
    + intros Hne Hrk. apply Hne. apply Hi in Hb as (_ & ent' & Hent' & <-). rewrite Hrk in Hent.
      assert (ent' = ent) as -> by congruence. by rewrite <-Hrow.
  - split; [done|]. split; [done|]. unfold alpha, invalidate. cbn. f_equal. symmetry.
    apply filter_all, Forall_forall. intros r Hr Hri.
    apply elem_abs in Hr as (ent & Hent & Hrow); [|apply Hwf].
    assert (byIndex c !! ik = Some (row_key r)); [|congruence].
    apply (wf_index c Hwf); [done|]. split; [done|]. exists ent. split; [done|]. by rewrite <-Hri, <-Hrow.
Qed.

Lemma evictWhereRemove_sim ks c : wf c ->
  wf (evictWhereRemove c ks) /\
  alpha (evictWhereRemove c ks) = with_rows (alpha c) (filter (fun r => row_key r ∉ ks) (abs c)).
Proof.
  revert c. induction ks as [|k ks IH]; intros c Hwf.
  - split; [done|]. cbn. rewrite filter_all; [done|]. apply Forall_forall. set_solver.
  - cbn. fold (dropKey c k). destruct (dropKey_sim c k Hwf) as [Hw Ha].
    destruct (IH (dropKey c k) Hw) as [Hw' Ha']. split; [done|]. fold (evictWhereRemove (dropKey c k) ks).
    rewrite Ha', Ha. unfold alpha, with_rows in Ha |- *. injection Ha as _ Habs _ _. cbn. f_equal.
    rewrite Habs. unfold spec_remove. rewrite list_filter_filter. apply list_filter_iff. set_solver.
Qed.

Lemma abs_keys c : core c -> omap (fun e => key <$> heap c !! e) (order c) = row_key <$> abs c.
Proof.
  intros Hc. unfold abs. pose proof (abs_total c Hc) as Htot. induction (order c) as [|e l IH]; [done|].
  destruct (Htot e ltac:(set_solver)) as [r Hr]. destruct (heap c !! e) as [ent|] eqn:Hh; [|done].
  cbn in *. rewrite Hh in *. cbn. f_equal. apply IH. intros x Hx. apply Htot. set_solver.
Qed.

Lemma EvictWhere_sim c pred : wf c -> sim c (OEvictWhere pred).
Proof.
  intros Hwf. unfold sim. cbn. unfold EvictWhere, evictWhereKeys.
  rewrite abs_keys by apply Hwf. set (ks := filter _ (row_key <$> abs c)).
  destruct (evictWhereRemove_sim ks (bump c) (bump_wf c Hwf)) as [Hw Ha].
  split; [done|]. split; [done|]. rewrite Ha. unfold alpha, with_rows, invalidate. cbn. f_equal.
  apply list_filter_iff_in. intros r Hr. change (abs (bump c)) with (abs c) in Hr.
  unfold ks. rewrite list_elem_of_filter, list_elem_of_fmap.
  destruct (pred (row_key r)); naive_solver.
Qed.

Lemma empty_wf cap (h : gmap elem (entry V)) n gen valid : 0 < cap -> in_uint64 gen ->
  (forall e, is_Some (h !! e) -> (e < n)%nat) -> wf (mkCache cap ∅ [] h n ∅ gen valid).
Proof.
  intros Hcap Hgen Hh. split; [split|..]; cbn; try done; try lia.
  - constructor.
  - intros e. split; [set_solver|]. intros (k & Hk). by rewrite lookup_empty in Hk.
  - intros ik k _. rewrite lookup_empty. unfold contents. cbn. setoid_rewrite lookup_empty. naive_solver.
Qed.

Lemma Flush_sim c : wf c -> sim c OFlush.
Proof.
  intros [Hc Hi Hl]. unfold sim. cbn. split; [|done].
  apply empty_wf; [apply Hc|apply wrapu64_range|apply (core_fresh c Hc)].
Qed.

Lemma op_sim c o : wf c -> sim c o.
Proof.
  intros Hwf. destruct o; auto using Get_sim, install_sim, EvictByIndex_sim, EvictWhere_sim, Flush_sim.
  - done.
  - unfold sim. cbn. unfold Evict. fold (dropKey (bump c) k).
    destruct (dropKey_sim (bump c) k (bump_wf c Hwf)) as [Hw Ha]. by rewrite Ha.
  - unfold sim. cbn. unfold Len. rewrite abs_length by apply Hwf. done.
Qed.

Lemma run_sim ops c : wf c -> run_ops op_run c ops = run_ops spec_op (alpha c) ops.
Proof.
  revert c. induction ops as [|o ops IH]; intros c Hwf; [done|]. cbn.
  pose proof (op_sim c o Hwf) as Hs. unfold sim in Hs.
  destruct (op_run c o) as [r c'], (spec_op (alpha c) o) as [r' s'].
  destruct Hs as (Hw & -> & <-). f_equal. by apply IH.
Qed.

Lemma New_wf cap valid c : New cap valid = Some c -> wf c /\ alpha c = mkSpec cap [] 0 valid.
Proof.
  unfold New. case_bool_decide; intros ?; simplify_eq. split; [|done].
  apply empty_wf; [lia|done|]. intros e [x Hx]. by rewrite lookup_empty in Hx.
Qed.

End theory.

(** C10. On any sequence of operations on a fresh cache (hits, validator drops,
    installs under a remembered generation, capacity and index evictions,
    explicit evictions, sweeps and flushes) the linked list, key map, entry
    heap and secondary index return what the abstract cache returns: a list of
    rows in recency order, cut to the capacity, with at most one row per key
    and per non-empty index key. *)
Theorem cache_refines_spec {V : Type} (cap : Z) (valid : option (V -> bool)) (c : Cache V) (ops : list op) :
  New cap valid = Some c -> run_ops op_run c ops = run_ops spec_op (mkSpec cap [] 0 valid) ops.
Proof. intros Hnew. destruct (New_wf _ _ _ Hnew) as [Hwf <-]. by apply run_sim. Qed.

Lemma cache_refines_spec_witness :
  exists c : Cache Z, New 2 (Some (fun v => bool_decide (0 <= v))) = Some c /\
    let ops := [OInstall "a" "row1" 1 0; OInstall "b" "" (-5) 0; OGet "b"; OInstall "c" "row1" 3 0; OGeneration;
                OGet "a"; OGet "c"; OEvictByIndex "row1"; OLen]%string in
    run_ops op_run c ops = run_ops spec_op (mkSpec 2 [] 0 (Some (fun v => bool_decide (0 <= v)))) ops /\
    run_ops op_run c ops =
      [RDone; RDone; RValue None; RDone; RNum 1; RValue None; RValue (Some 3); RDone; RNum 0].
Proof.
  eexists. split; [reflexivity|]. intros ops. split.
  - apply cache_refines_spec. reflexivity.
  - vm_compute. reflexivity.
Defined.
End LRUProofs.
