(* ===== verification/LRUConc.v ===== *)
(** * The LRU cache under interleaving (src/framework/lrucache/lrucache.go)

    Every method as the sequence of its critical sections, run by threads that
    interleave between them: [Get] (read, validator, drop or touch), [Fill]
    (register or wait, read the generation, load, install, unregister, close),
    [EvictWhere] (bump and collect, sweep) and the single-section methods.
    A scheduler choice names the thread and, where the code asks its caller or
    its environment, the answer (the loader's result or panic, a done context). *)

From S2P Require Import Prelude GoStrings LRUCache LRUTheory.
Local Open Scope Z_scope.

Module LRUConc.
Import LRU LRUProofs.

Definition tid : Type := nat.
Definition callId : Type := nat.

(** The errors a [Fill] returns. *)
Inductive error := LoaderError (e : string) | LoaderPanicked (r : string) | ContextError.

#[global] Instance error_eq_dec : EqDecision error.
Proof. solve_decision. Defined.

Section conc.
Context {V : Type} (zero : V).

(** [done] as whether the channel is closed. *)
Record inflightCall := mkCall { done : bool; result : V; err : option error }.

(** How a leader leaves the body of [Fill]. *)
Inductive exit := ExReturn (v : V) (e : option error) | ExPanic (r : string).

Inductive ret :=
| RetGet (v : option V)
| RetFill (v : V) (e : option error)
| RetPanic (r : string)
| RetLen (n : Z)
| RetUnit.

Inductive request :=
| ReqGet (k : string)
| ReqFill (k : string)
| ReqEvict (k : string)
| ReqEvictByIndex (ik : string)
| ReqEvictWhere (pred : string -> bool)
| ReqFlush
| ReqLen.

(** A thread between two critical sections. *)
Inductive pc :=
| GetValidate (k : string) (e : elem) (ent : entry V)
| GetDropping (k : string) (e : elem) (ver : Z)
| GetTouching (k : string) (e : elem) (v : V)
| FillWait (id : callId)
| FillRead (k : string) (id : callId)
| FillLoad (k : string) (id : callId) (gen : Z)
| FillInstall (k : string) (id : callId) (gen : Z) (v : V) (ik : string)
| FillUnregister (k : string) (id : callId) (ex : exit)
| FillClose (k : string) (id : callId) (ex : exit)
| Sweeping (ks : list string) (pred : string -> bool)
| Returned (r : ret).

Inductive choice :=
| Begin (rq : request)
| Go
| LoaderReturns (v : V) (ik : string) (e : option string)
| LoaderPanics (r : string)
| CtxDone.

Record State := mkState {
  cache : Cache V;
  inflight : gmap string callId;
  calls : gmap callId inflightCall;
  nextCall : callId;
  threads : gmap tid pc }.

Definition goto (s : State) (t : tid) (p : pc) : State :=
  mkState (cache s) (inflight s) (calls s) (nextCall s) (<[t := p]> (threads s)).
Definition with_cache (s : State) (c : Cache V) : State :=
  mkState c (inflight s) (calls s) (nextCall s) (threads s).
Definition with_inflight (s : State) (m : gmap string callId) : State :=
  mkState (cache s) m (calls s) (nextCall s) (threads s).
Definition with_call (s : State) (id : callId) (f : inflightCall -> inflightCall) : State :=
  mkState (cache s) (inflight s) (alter f id (calls s)) (nextCall s) (threads s).

(** The first critical section of a method. *)
Definition begin (s : State) (t : tid) (rq : request) : State :=
  match rq with
  | ReqGet k =>
      match getRead (cache s) k with
      | None => goto s t (Returned (RetGet None))
      | Some (e, ent) => goto s t (GetValidate k e ent)
      end
  | ReqFill k =>
      match inflight s !! k with
      | Some id => goto s t (FillWait id)
      | None =>
          let id := nextCall s in
          mkState (cache s) (<[k := id]> (inflight s)) (<[id := mkCall false zero None]> (calls s)) (S id)
            (<[t := FillRead k id]> (threads s))
      end
  | ReqEvict k => goto (with_cache s (Evict (cache s) k)) t (Returned RetUnit)
  | ReqEvictByIndex ik => goto (with_cache s (EvictByIndex (cache s) ik)) t (Returned RetUnit)
  | ReqEvictWhere pred =>
      let '(ks, c) := evictWhereKeys (cache s) in goto (with_cache s c) t (Sweeping ks pred)
  | ReqFlush => goto (with_cache s (Flush (cache s))) t (Returned RetUnit)
  | ReqLen => goto s t (Returned (RetLen (Len (cache s))))
  end.

(** The deferred function's second half: record a panic, close the channel,
    return or re-raise. *)
Definition closeCall (ex : exit) (c : inflightCall) : inflightCall :=
  match ex with
  | ExReturn _ _ => mkCall true (result c) (err c)
  | ExPanic r => mkCall true (result c) (Some (LoaderPanicked r))
  end.

Definition leave (ex : exit) : ret :=
  match ex with ExReturn v e => RetFill v e | ExPanic r => RetPanic r end.

(** One step of thread [t]; [None] when the choice is not one it can take. *)
Definition step (s : State) (t : tid) (ch : choice) : option State :=
  match threads s !! t, ch with
  | None, Begin rq => Some (begin s t rq)
  | Some (GetValidate k e ent), Go =>
      Some (goto s t (if refused (cache s) (value ent) then GetDropping k e (version ent)
                      else GetTouching k e (value ent)))
  | Some (GetDropping k e ver), Go =>
      Some (goto (with_cache s (getDrop (cache s) k e ver)) t (Returned (RetGet None)))
  | Some (GetTouching k e v), Go =>
      Some (goto (with_cache s (getTouch (cache s) k e)) t (Returned (RetGet (Some v))))
  | Some (FillWait id), Go =>
      match calls s !! id with
      | Some c => if done c then Some (goto s t (Returned (RetFill (result c) (err c)))) else None
      | None => None
      end
  | Some (FillWait id), CtxDone => Some (goto s t (Returned (RetFill zero (Some ContextError))))
  | Some (FillRead k id), Go => Some (goto s t (FillLoad k id (currentGeneration (cache s))))
  | Some (FillLoad k id gen), LoaderReturns v ik e =>
      let e := LoaderError <$> e in
      let s := with_call s id (fun _ => mkCall false v e) in
      Some (goto s t (match e with
                      | None => FillInstall k id gen v ik
                      | Some _ => FillUnregister k id (ExReturn v e)
                      end))
  | Some (FillLoad k id gen), LoaderPanics r => Some (goto s t (FillUnregister k id (ExPanic r)))
  | Some (FillInstall k id gen v ik), Go =>
      Some (goto (with_cache s (setIfGeneration (cache s) k ik v gen)) t (FillUnregister k id (ExReturn v None)))
  | Some (FillUnregister k id ex), Go =>
      Some (goto (with_inflight s (delete k (inflight s))) t (FillClose k id ex))
  | Some (FillClose k id ex), Go => Some (goto (with_call s id (closeCall ex)) t (Returned (leave ex)))
  | Some (Sweeping ks pred), Go =>
      Some (goto (with_cache s (evictWhereRemove (cache s) (filter (fun k => pred k = true) ks))) t (Returned RetUnit))
  | _, _ => None
  end.

Definition initial (c : Cache V) : State := mkState c ∅ ∅ 0%nat ∅.

(** Executions: a list of scheduler choices. *)
Fixpoint exec (s : State) (l : list (tid * choice)) : option State :=
  match l with
  | [] => Some s
  | (t, ch) :: l => s' ← step s t ch; exec s' l
  end.

(** Requests that invalidate: [Evict], [EvictByIndex] of a non-empty index
    key, [EvictWhere] and [Flush]. *)
Definition invalidates (ch : choice) : bool :=
  match ch with
  | Begin (ReqEvict _) | Begin (ReqEvictWhere _) | Begin ReqFlush => true
  | Begin (ReqEvictByIndex ik) => bool_decide (ik <> ""%string)
  | _ => false
  end.

(** *** The cache across interleavings *)

(** Removal of one thing keeps the invariant and the generation. *)
Lemma getDrop_wf (c : Cache V) k e ver : wf c -> wf (getDrop c k e ver) /\ generation (getDrop c k e ver) = generation c.
Proof.
  intros Hwf. unfold getDrop. destruct (items c !! k) as [cur|] eqn:Hk; [|done].
  destruct (heap c !! e); [|done]. destruct (_ && _); [|done].
  split; [by eapply removeLocked_wf|]. apply removeLocked_frame.
Qed.

Lemma getTouch_wf (c : Cache V) k e : wf c -> wf (getTouch c k e) /\ generation (getTouch c k e) = generation c.
Proof.
  intros Hwf. unfold getTouch. destruct (items c !! k) as [cur|] eqn:Hk; [|done].
  case_bool_decide; [|done]. split; [|done]. apply moveFront_wf; [done|].
  apply (core_order c (wf_core c Hwf)). eauto.
Qed.

(** What a critical section may do to the cache: keep the invariant, and move
    the generation by at most one. *)
Definition cache_step (c c' : Cache V) : Prop :=
  wf c' /\ (generation c' = generation c \/ generation c' = wrapu64 (generation c + 1)).

Lemma op_cache_step c o : wf c -> cache_step c (op_run c o).2.
Proof.
  intros Hwf. pose proof (op_sim c o Hwf) as Hs. unfold sim in Hs.
  assert (forall r s', spec_op (alpha c) o = (r, s') ->
            s_gen s' = generation c \/ s_gen s' = wrapu64 (generation c + 1)) as Hg.
  { intros r s'. destruct o; cbn; split_all; intros ?; simplify_eq/=; auto. }
  destruct (op_run c o) as [r c'], (spec_op (alpha c) o) as [r' s'].
  destruct Hs as (Hw & _ & Ha). split; [done|].
  assert (generation c' = s_gen s') as Hgc by (by rewrite <-Ha). cbn. rewrite Hgc. by eapply Hg.
Qed.

Lemma cache_step_refl c : wf c -> cache_step c c.
Proof. split; auto. Qed.

Lemma step_cache s t ch s' : step s t ch = Some s' -> wf (cache s) -> cache_step (cache s) (cache s').
Proof.
  intros Hstep Hwf. unfold step in Hstep.
  pose proof (cache_step_refl (cache s) Hwf) as Hrefl.
  destruct (threads s !! t) as [[]|], ch; simplify_eq; try done; cbn.
  - destruct (getDrop_wf (cache s) k e ver Hwf). by split; auto.
  - destruct (getTouch_wf (cache s) k e Hwf). by split; auto.
  - by case_match; [case_match|]; simplify_eq.
  - apply (op_cache_step (cache s) (OInstall k ik v gen) Hwf).
  - match goal with |- context [evictWhereRemove ?c ?l] => destruct (evictWhereRemove_sim l c Hwf) as [Hw Ha] end.
    split; [done|]. left. by injection Ha.
  - unfold begin. destruct rq; cbn.
    + destruct (getRead (cache s) k) as [[]|]; done.
    + destruct (inflight s !! k); done.
    + apply (op_cache_step (cache s) (OEvict k) Hwf).
    + apply (op_cache_step (cache s) (OEvictByIndex ik) Hwf).
    + split; [by apply bump_wf|by right].
    + apply (op_cache_step (cache s) OFlush Hwf).
    + done.
Qed.

(** An invalidating request moves the generation. *)
Lemma step_invalidates s t ch s' : step s t ch = Some s' -> wf (cache s) -> invalidates ch = true ->
  generation (cache s') = wrapu64 (generation (cache s) + 1).
Proof.
  intros Hstep Hwf Hinv. unfold step in Hstep.
  destruct (threads s !! t) as [[]|], ch; simplify_eq; try done.
  destruct rq; cbn in Hinv; try done; cbn.
  - unfold Evict. cbn. destruct (items (cache s) !! k); [|done].
    by destruct (removeLocked_frame (bump (cache s)) e) as (_ & -> & _).
  - apply bool_decide_eq_true in Hinv. unfold EvictByIndex. rewrite bool_decide_eq_false_2 by done. cbn.
    destruct (byIndex (cache s) !! ik) as [k|]; [|done]. destruct (items (cache s) !! k) as [e|]; [|done].
    by destruct (removeLocked_frame (bump (cache s)) e) as (_ & -> & _).
Qed.

Lemma exec_cons s t ch l s' : exec s ((t, ch) :: l) = Some s' ->
  exists s1, step s t ch = Some s1 /\ exec s1 l = Some s'.
Proof. cbn. destruct (step s t ch) as [s1|]; [|done]. cbn. eauto. Qed.

Lemma exec_cache l s s' : exec s l = Some s' -> wf (cache s) ->
  wf (cache s') /\ exists n, (n <= length l)%nat /\
    generation (cache s') = wrapu64 (generation (cache s) + Z.of_nat n) /\
    (existsb (fun p => invalidates p.2) l = true -> (1 <= n)%nat).
Proof.
  revert s. induction l as [|[t ch] l IH]; intros s Hex Hwf.
  - simplify_eq/=. split; [done|]. exists 0%nat. split_and!; [lia| |done].
    rewrite Z.add_0_r, wrapu64_id; [done|]. apply (core_gen _ (wf_core _ Hwf)).
  - apply exec_cons in Hex as (s1 & Hstep & Hex).
    destruct (step_cache _ _ _ _ Hstep Hwf) as [Hw1 Hgen].
    destruct (IH s1 Hex Hw1) as (Hw' & n & Hn & Hg & Hinv). split; [done|]. cbn [existsb length snd].
    destruct (invalidates ch) eqn:Hich.
    + pose proof (step_invalidates _ _ _ _ Hstep Hwf Hich) as Hg1. exists (S n).
      split_and!; [lia| |lia]. rewrite Hg, Hg1, wrapu64_add_l. f_equal. lia.
    + destruct Hgen as [Hg1|Hg1]; [exists n|exists (S n)]; (split_and!; [lia| |cbn; intros; lia || auto]).
      * by rewrite Hg, Hg1.
      * rewrite Hg, Hg1, wrapu64_add_l. f_equal. lia.
Qed.

(** *** Single flight *)

(** The key and call a leader has in the inflight map. *)
Definition registered (p : pc) : option (string * callId) :=
  match p with
  | FillRead k id | FillLoad k id _ | FillInstall k id _ _ _ | FillUnregister k id _ => Some (k, id)
  | _ => None
  end.

(** The call a leader has to close. *)
Definition leads (p : pc) : option callId :=
  match p with FillClose _ id _ => Some id | _ => snd <$> registered p end.

(** What the leader has written to its call. *)
Definition recorded (p : pc) (c : inflightCall) : Prop :=
  match p with
  | FillInstall _ _ _ v _ => result c = v /\ err c = None
  | FillUnregister _ _ (ExReturn v e) | FillClose _ _ (ExReturn v e) => result c = v /\ err c = e
  | _ => result c = zero
  end.

Record inv (s : State) : Prop := {
  inv_cache : wf (cache s);
  inv_reg : forall t p k id, threads s !! t = Some p -> registered p = Some (k, id) -> inflight s !! k = Some id;
  inv_inflight : forall k id, inflight s !! k = Some id ->
    exists t p, threads s !! t = Some p /\ registered p = Some (k, id);
  inv_unique : forall t t' p p' id, threads s !! t = Some p -> threads s !! t' = Some p' ->
    leads p = Some id -> leads p' = Some id -> t = t';
  inv_open : forall t p id, threads s !! t = Some p -> leads p = Some id ->
    exists c, calls s !! id = Some c /\ done c = false /\ recorded p c;
  inv_led : forall id c, calls s !! id = Some c -> done c = false ->
    exists t p, threads s !! t = Some p /\ leads p = Some id;
  inv_fresh : forall id, is_Some (calls s !! id) -> (id < nextCall s)%nat;
  inv_wait : forall t id, threads s !! t = Some (FillWait id) -> is_Some (calls s !! id) }.

Lemma registered_leads p k id : registered p = Some (k, id) -> leads p = Some id.
Proof. destruct p; cbn; intros ?; simplify_eq; done. Qed.

(** A thread that leads no call, before and after the step. *)
Lemma inv_neutral s c t p' :
  inv s -> wf c -> (forall p, threads s !! t = Some p -> leads p = None) -> leads p' = None ->
  (forall id, p' = FillWait id -> is_Some (calls s !! id)) ->
  inv (goto (with_cache s c) t p').
Proof.
  intros [Hc Hr Hi Hu Ho Hl Hf Hw] Hwf Hold Hnew Hwait.
  assert (registered p' = None) as Hnr.
  { destruct (registered p') as [[k id]|] eqn:E; [|done]. apply registered_leads in E. congruence. }
  assert (forall x p, threads s !! x = Some p -> is_Some (leads p) -> x <> t) as Hne.
  { intros x p Hx [i Hi'] ->. rewrite (Hold p Hx) in Hi'. done. }
  split; cbn; try done.
  - intros x p k id Hx. apply lookup_insert_Some in Hx as [[-> <-]|[_ Hx]]; [congruence|eauto].
  - intros k id Hk. destruct (Hi k id Hk) as (x & p & Hx & Hp). exists x, p.
    rewrite lookup_insert_ne; [done|]. apply not_eq_sym, (Hne x p Hx). apply registered_leads in Hp. eauto.
  - intros x y p q id Hx Hy Hp Hq. apply lookup_insert_Some in Hx as [[-> <-]|[_ Hx]]; [congruence|].
    apply lookup_insert_Some in Hy as [[-> <-]|[_ Hy]]; [congruence|eauto].
  - intros x p id Hx Hp. apply lookup_insert_Some in Hx as [[-> <-]|[_ Hx]]; [congruence|eauto].
  - intros id cl Hcl Hd. destruct (Hl id cl Hcl Hd) as (x & p & Hx & Hp). exists x, p.
    rewrite lookup_insert_ne; [done|]. apply not_eq_sym, (Hne x p Hx). eauto.
  - intros x id Hx. apply lookup_insert_Some in Hx as [[-> Hx]|[_ Hx]]; eauto.
Qed.

(** A leader that goes on, with its call kept open. *)
Lemma inv_lead s c t p p' f id :
  inv s -> wf c -> threads s !! t = Some p -> leads p = Some id -> leads p' = Some id ->
  registered p' = registered p ->
  (forall cl, done cl = false -> done (f cl) = false) -> (forall cl, recorded p cl -> recorded p' (f cl)) ->
  inv (goto (with_cache (with_call s id f) c) t p').
Proof.
  intros [Hc Hr Hi Hu Ho Hl Hf Hw] Hwf Ht Hp Hp' Hreg Hdone Hrec. split; cbn; try done.
  - intros x q k i Hx Hq. apply lookup_insert_Some in Hx as [[-> <-]|[_ Hx]]; [|eauto].
    apply (Hr x p); congruence.
  - intros k i Hk. destruct (Hi k i Hk) as (x & q & Hx & Hq).
    destruct (decide (t = x)) as [->|].
    + exists x, p'. rewrite lookup_insert_eq. split; [done|]. congruence.
    + exists x, q. by rewrite lookup_insert_ne.
  - intros x y q r i Hx Hy Hq Hr'.
    apply lookup_insert_Some in Hx as [[<- <-]|[? Hx]]; apply lookup_insert_Some in Hy as [[<- <-]|[? Hy]];
      try done; [apply (Hu t y p r i)|apply (Hu x t q p i)|apply (Hu x y q r i)]; congruence.
  - intros x q i Hx Hq. apply lookup_insert_Some in Hx as [[<- <-]|[Hne Hx]].
    + rewrite Hp' in Hq. injection Hq as <-. destruct (Ho t p id Ht Hp) as (cl & Hcl & Hd & Hrcl).
      exists (f cl). rewrite lookup_alter_eq, Hcl. split_and!; auto.
    + destruct (Ho x q i Hx Hq) as (cl & Hcl & Hd & Hrcl). exists cl.
      rewrite lookup_alter_ne; [done|]. intros <-. apply Hne. by eapply Hu.
  - intros i cl Hcl Hd. destruct (decide (i = id)) as [->|Hne].
    + exists t, p'. by rewrite lookup_insert_eq.
    + rewrite lookup_alter_ne in Hcl by done. destruct (Hl i cl Hcl Hd) as (x & q & Hx & Hq).
      exists x, q. rewrite lookup_insert_ne; [done|]. intros <-. congruence.
  - intros i Hi'. apply Hf. destruct (decide (i = id)) as [->|Hne].
    + by rewrite lookup_alter_eq, fmap_is_Some in Hi'.
    + by rewrite lookup_alter_ne in Hi'.
  - intros x i Hx. apply lookup_insert_Some in Hx as [[<- ->]|[Hne Hx]]; [done|].
    specialize (Hw x i Hx). destruct (decide (i = id)) as [->|]; [|by rewrite lookup_alter_ne].
    rewrite lookup_alter_eq. by apply fmap_is_Some.
Qed.

Lemma inv_unregister s t k id ex :
  inv s -> threads s !! t = Some (FillUnregister k id ex) ->
  inv (goto (with_inflight s (delete k (inflight s))) t (FillClose k id ex)).
Proof.
  intros [Hc Hr Hi Hu Ho Hl Hf Hw] Ht. pose proof (Hr t _ k id Ht eq_refl) as Hk. split; cbn; try done.
  - intros x p j i Hx Hp. apply lookup_insert_Some in Hx as [[<- <-]|[Hne Hx]]; [done|].
    pose proof (Hr x p j i Hx Hp) as Hj. rewrite lookup_delete_ne; [done|]. intros <-.
    apply Hne. eapply Hu; [done..| |by eapply registered_leads]. cbn. congruence.
  - intros j i Hj. apply lookup_delete_Some in Hj as [Hne Hj].
    destruct (Hi j i Hj) as (x & p & Hx & Hp). exists x, p. rewrite lookup_insert_ne; [done|].
    intros <-. rewrite Ht in Hx. simplify_eq. cbn in Hp. congruence.
  - intros x y p q i Hx Hy Hp Hq. apply lookup_insert_Some in Hx as [[<- <-]|[? Hx]];
      apply lookup_insert_Some in Hy as [[<- <-]|[? Hy]]; try done;
      [by apply (Hu t y (FillUnregister k id ex) q i)|by apply (Hu x t p (FillUnregister k id ex) i)|by apply (Hu x y p q i)].
  - intros x p i Hx Hp. apply lookup_insert_Some in Hx as [[<- <-]|[? Hx]]; [|eauto].
    by apply (Ho t (FillUnregister k id ex) i Ht).
  - intros i cl Hcl Hd. destruct (Hl i cl Hcl Hd) as (x & p & Hx & Hp).
    destruct (decide (t = x)) as [<-|].
    + exists t, (FillClose k id ex). rewrite lookup_insert_eq. split; [done|]. rewrite Ht in Hx. by simplify_eq.
    + exists x, p. by rewrite lookup_insert_ne.
  - intros x i Hx. apply lookup_insert_Some in Hx as [[<- Hx]|[_ Hx]]; [done|eauto].
Qed.

Lemma inv_close s t k id ex :
  inv s -> threads s !! t = Some (FillClose k id ex) ->
  inv (goto (with_call s id (closeCall ex)) t (Returned (leave ex))).
Proof.
  intros [Hc Hr Hi Hu Ho Hl Hf Hw] Ht. split; cbn; try done.
  - intros x p j i Hx Hp. apply lookup_insert_Some in Hx as [[<- <-]|[Hne Hx]]; [done|eauto].
  - intros j i Hj. destruct (Hi j i Hj) as (x & p & Hx & Hp). exists x, p.
    rewrite lookup_insert_ne; [done|]. intros <-. rewrite Ht in Hx. by simplify_eq.
  - intros x y p q i Hx Hy Hp Hq. apply lookup_insert_Some in Hx as [[<- <-]|[? Hx]]; [done|].
    apply lookup_insert_Some in Hy as [[<- <-]|[? Hy]]; [done|]. by apply (Hu x y p q i).
  - intros x p i Hx Hp. apply lookup_insert_Some in Hx as [[<- <-]|[Hne Hx]]; [done|].
    rewrite lookup_alter_ne; [eauto|]. intros <-. apply Hne. by eapply Hu.
  - intros i cl Hcl Hd. destruct (decide (i = id)) as [->|Hne].
    + rewrite lookup_alter_eq in Hcl. destruct (calls s !! id); [|done]. cbn in Hcl. simplify_eq. by destruct ex.
    + rewrite lookup_alter_ne in Hcl by done. destruct (Hl i cl Hcl Hd) as (x & p & Hx & Hp).
      exists x, p. rewrite lookup_insert_ne; [done|]. intros <-. rewrite Ht in Hx. simplify_eq/=. 
  - intros i Hi'. apply Hf. destruct (decide (i = id)) as [->|Hne].
    + by rewrite lookup_alter_eq, fmap_is_Some in Hi'.
    + by rewrite lookup_alter_ne in Hi'.
  - intros x i Hx. apply lookup_insert_Some in Hx as [[<- Hx]|[Hne Hx]]; [done|].
    specialize (Hw x i Hx). destruct (decide (i = id)) as [->|]; [|by rewrite lookup_alter_ne].
    rewrite lookup_alter_eq. by apply fmap_is_Some.
Qed.

Lemma inv_register s t k : inv s -> threads s !! t = None -> inflight s !! k = None ->
  inv (begin s t (ReqFill k)).
Proof.
  intros [Hc Hr Hi Hu Ho Hl Hf Hw] Ht Hk. cbn. rewrite Hk.
  assert (forall x p i, threads s !! x = Some p -> leads p = Some i -> i <> nextCall s) as Hnew.
  { intros x p i Hx Hp ->. destruct (Ho x p _ Hx Hp) as (cl & Hcl & _).
    pose proof (Hf (nextCall s) ltac:(eauto)). lia. }
  split; cbn; try done.
  - intros x p j i Hx Hp. apply lookup_insert_Some in Hx as [[<- <-]|[_ Hx]].
    + cbn in Hp. simplify_eq. by rewrite lookup_insert_eq.
    + rewrite lookup_insert_ne; [eauto|]. intros <-. rewrite (Hr x p k i) in Hk by done. done.
  - intros j i Hj. apply lookup_insert_Some in Hj as [[<- <-]|[_ Hj]].
    + exists t, (FillRead k (nextCall s)). by rewrite lookup_insert_eq.
    + destruct (Hi j i Hj) as (x & p & Hx & Hp). exists x, p. rewrite lookup_insert_ne; [done|congruence].
  - intros x y p q i Hx Hy Hp Hq. apply lookup_insert_Some in Hx as [[<- <-]|[? Hx]];
      apply lookup_insert_Some in Hy as [[<- <-]|[? Hy]]; try done; cbn in *; simplify_eq.
    + by destruct (Hnew y q _ Hy Hq).
    + by destruct (Hnew x p _ Hx Hp).
    + by apply (Hu x y p q i).
  - intros x p i Hx Hp. apply lookup_insert_Some in Hx as [[<- <-]|[? Hx]].
    + cbn in Hp. simplify_eq. rewrite lookup_insert_eq. by eexists.
    + rewrite lookup_insert_ne by (by apply not_eq_sym, (Hnew x p)). eauto.
  - intros i cl Hcl Hd. apply lookup_insert_Some in Hcl as [[<- _]|[_ Hcl]].
    + exists t, (FillRead k (nextCall s)). by rewrite lookup_insert_eq.
    + destruct (Hl i cl Hcl Hd) as (x & p & Hx & Hp). exists x, p. rewrite lookup_insert_ne; [done|congruence].
  - intros i [cl Hcl]. apply lookup_insert_Some in Hcl as [[<- _]|[_ Hcl]]; [lia|].
    pose proof (Hf i ltac:(eauto)). lia.
  - intros x i Hx. apply lookup_insert_Some in Hx as [[_ Hx]|[_ Hx]]; [done|].
    destruct (decide (nextCall s = i)) as [->|]; [rewrite lookup_insert_eq; eauto|].
    rewrite lookup_insert_ne by done. eauto.
Qed.

Lemma with_call_id s id : with_call s id (fun c => c) = s.
Proof. destruct s. unfold with_call. cbn. f_equal. apply alter_id. done. Qed.

(** [inv_lead] for a step that writes nothing to the call. *)
Lemma inv_lead_id s c t p p' id :
  inv s -> wf c -> threads s !! t = Some p -> leads p = Some id -> leads p' = Some id ->
  registered p' = registered p -> (forall cl, recorded p cl -> recorded p' cl) ->
  inv (goto (with_cache s c) t p').
Proof.
  intros. rewrite <-(with_call_id s id). eapply inv_lead; eauto.
Qed.

Lemma step_inv s t ch s' : step s t ch = Some s' -> inv s -> inv s'.
Proof.
  intros Hstep Hinv. pose proof (inv_cache s Hinv) as Hwf.
  pose proof (proj1 (step_cache s t ch s' Hstep Hwf)) as Hwf'.
  unfold step in Hstep. destruct (threads s !! t) as [p|] eqn:Ht.
  - destruct p, ch; simplify_eq.
    + apply (inv_neutral s (cache s)); try done; [naive_solver|by case_match|by intros; case_match].
    + apply inv_neutral; try done. naive_solver.
    + apply inv_neutral; try done. naive_solver.
    + destruct (calls s !! id) as [cl|]; [|done]. destruct (done cl); [|done]. simplify_eq.
      apply (inv_neutral s (cache s)); try done. naive_solver.
    + apply (inv_neutral s (cache s)); try done. naive_solver.
    + apply (inv_lead_id s (cache s) t (FillRead k id) _ id); done.
    + apply (inv_lead s (cache s) t (FillLoad k id gen)); try done; by destruct e.
    + apply (inv_lead_id s (cache s) t (FillLoad k id gen) _ id); done.
    + apply (inv_lead_id s _ t (FillInstall k id gen v ik) _ id); done.
    + by apply inv_unregister.
    + by eapply inv_close.
    + apply inv_neutral; try done. naive_solver.
  - destruct ch; simplify_eq. destruct rq; [|destruct (inflight s !! k) as [id|] eqn:Hk|..].
    + cbn. destruct (getRead (cache s) k) as [[]|]; apply (inv_neutral s (cache s)); try done; congruence.
    + cbn. rewrite Hk. apply (inv_neutral s (cache s)); try done; [congruence|].
      intros ? [= <-]. destruct (inv_inflight s Hinv k id Hk) as (x & p & Hx & Hp).
      destruct (inv_open s Hinv x p id Hx (registered_leads _ _ _ Hp)) as (cl & -> & _). eauto.
    + by apply inv_register.
    + apply inv_neutral; try done; congruence.
    + apply inv_neutral; try done; congruence.
    + apply inv_neutral; try done; congruence.
    + apply inv_neutral; try done; congruence.
    + apply (inv_neutral s (cache s)); try done; congruence.
Qed.

Lemma exec_inv l s s' : exec s l = Some s' -> inv s -> inv s'.
Proof.
  revert s. induction l as [|[t ch] l IH]; intros s Hex Hinv; [by simplify_eq/=|].
  apply exec_cons in Hex as (s1 & Hstep & Hex). eapply IH; [done|]. by eapply step_inv.
Qed.

Lemma initial_inv cap valid c : New cap valid = Some c -> inv (initial c).
Proof.
  intros Hnew. split; cbn; try (intros *; rewrite lookup_empty; done).
  by eapply New_wf.
Qed.

(** The generation a fill holds does not change while it loads. *)
Definition holds_gen (g : Z) (p : pc) : Prop :=
  match p with
  | FillLoad _ _ g' | FillInstall _ _ g' _ _ => g' = g
  | FillUnregister _ _ _ | FillClose _ _ _ | Returned _ => True
  | _ => False
  end.

Lemma step_other s t ch s' t' : step s t ch = Some s' -> t <> t' -> threads s' !! t' = threads s !! t'.
Proof.
  intros Hstep Hne. unfold step, begin in Hstep.
  destruct (threads s !! t) as [[]|], ch as [[]| | | |]; cbn in Hstep; split_all; try done;
    cbn; by rewrite lookup_insert_ne.
Qed.

Lemma step_holds_gen g s t ch s' t' p : step s t ch = Some s' -> threads s !! t' = Some p -> holds_gen g p ->
  exists p', threads s' !! t' = Some p' /\ holds_gen g p'.
Proof.
  intros Hstep Hp Hg. destruct (decide (t = t')) as [<-|Hne];
    [|rewrite (step_other _ _ _ _ _ Hstep Hne); eauto].
  unfold step in Hstep. rewrite Hp in Hstep. destruct p, ch; cbn in Hg; simplify_eq; try done; cbn;
    eexists; rewrite lookup_insert_eq; (split; [done|]); try done. by destruct e.
Qed.

Lemma exec_holds_gen g l s s' t p : exec s l = Some s' -> threads s !! t = Some p -> holds_gen g p ->
  exists p', threads s' !! t = Some p' /\ holds_gen g p'.
Proof.
  revert s p. induction l as [|[x ch] l IH]; intros s p Hex Hp Hg; [simplify_eq/=; eauto|].
  apply exec_cons in Hex as (s1 & Hstep & Hex).
  destruct (step_holds_gen g _ _ _ _ _ _ Hstep Hp Hg) as (p' & Hp' & Hg'). by eapply IH.
Qed.

(** A closed call keeps its result. *)
Lemma step_closed s t ch s' id c : step s t ch = Some s' -> inv s ->
  calls s !! id = Some c -> done c = true -> calls s' !! id = Some c.
Proof.
  intros Hstep Hinv Hc Hd.
  assert (forall x p i, threads s !! x = Some p -> leads p = Some i -> i <> id) as Hopen.
  { intros x p i Hx Hp ->. destruct (inv_open s Hinv x p id Hx Hp) as (c' & Hc' & Hd' & _). congruence. }
  assert (nextCall s <> id) as Hfresh by (pose proof (inv_fresh s Hinv id ltac:(eauto)); lia).
  unfold step, begin in Hstep.
  destruct (threads s !! t) as [[]|] eqn:Ht, ch as [[]| | | |]; cbn in Hstep; split_all; try done; cbn.
  all: try (rewrite lookup_insert_ne by done; done).
  all: rewrite lookup_alter_ne by (eapply Hopen; [exact Ht|done]); done.
Qed.

Lemma exec_closed l s s' id c : exec s l = Some s' -> inv s ->
  calls s !! id = Some c -> done c = true -> calls s' !! id = Some c.
Proof.
  revert s. induction l as [|[t ch] l IH]; intros s Hex Hinv Hc Hd; [by simplify_eq/=|].
  apply exec_cons in Hex as (s1 & Hstep & Hex). apply (IH s1); try done; [by eapply step_inv|by eapply step_closed].
Qed.

Lemma exec_app l l' s : exec s (l ++ l') = exec s l ≫= fun s' => exec s' l'.
Proof.
  revert s. induction l as [|[t ch] l IH]; intros s; [done|]. cbn.
  destruct (step s t ch); [|done]. cbn. apply IH.
Qed.

(** What waiters see of a leader's exit. *)
Definition shared (ex : exit) : ret :=
  match ex with
  | ExReturn v e => RetFill v e
  | ExPanic r => RetFill zero (Some (LoaderPanicked r))
  end.

(** The steps a leader still needs, its loader returning [v]. *)
Definition finish (v : V) (p : pc) : list choice :=
  match p with
  | FillRead _ _ => [Go; LoaderReturns v "" None; Go; Go; Go]
  | FillLoad _ _ _ => [LoaderReturns v "" None; Go; Go; Go]
  | FillInstall _ _ _ _ _ => [Go; Go; Go]
  | FillUnregister _ _ _ => [Go; Go]
  | FillClose _ _ _ => [Go]
  | _ => []
  end%string.

Lemma finish_closes v s t p id c : threads s !! t = Some p -> leads p = Some id -> calls s !! id = Some c ->
  exists s' c', exec s (pair t <$> finish v p) = Some s' /\ calls s' !! id = Some c' /\ done c' = true /\
    forall t', t' <> t -> threads s' !! t' = threads s !! t'.
Proof.
  intros Hp Hl Hc. destruct p; cbn in Hl; simplify_eq; cbn; unfold step; cbn; rewrite Hp; cbn;
    repeat (rewrite lookup_insert_eq; cbn).
  all: eexists _, _; (split; [reflexivity|]); cbn; rewrite ?lookup_alter_eq, ?Hc; cbn.
  all: split; [reflexivity|]; (split; [try destruct ex; done|]).
  all: intros; rewrite ?lookup_insert_ne by done; done.
Qed.

End conc.

(** A fill that raced an explicit eviction is never installed: if, between
    a fill's read of the generation and its install, any thread evicts by key,
    by index or by predicate, or flushes (and fewer than 2^64 critical sections
    run in between, so the counter cannot come back), then the install leaves
    the cache as it is. *)
Theorem stale_fill_dropped {V : Type} (zero : V) cap valid c l0 s0 t k id s1 l s2 k' id' gen v ik s3 :
  New cap valid = Some c -> exec zero (initial c) l0 = Some s0 ->
  threads s0 !! t = Some (FillRead k id) -> step zero s0 t Go = Some s1 ->
  exec zero s1 l = Some s2 -> existsb (fun p => invalidates p.2) l = true ->
  Z.of_nat (length l) < two64 ->
  threads s2 !! t = Some (FillInstall k' id' gen v ik) -> step zero s2 t Go = Some s3 ->
  cache s3 = cache s2.
Proof.
  intros Hnew Hl0 Ht Hs1 Hl Hinv Hlen Ht2 Hs3.
  assert (inv zero s1) as Hi1 by (eapply step_inv, exec_inv, initial_inv; eauto).
  pose proof (inv_cache zero s1 Hi1) as Hwf.
  assert (threads s1 !! t = Some (FillLoad k id (generation (cache s1)))) as Ht1.
  { unfold step in Hs1. rewrite Ht in Hs1. simplify_eq. cbn. by rewrite lookup_insert_eq. }
  destruct (exec_holds_gen zero (generation (cache s1)) l s1 s2 t _ Hl Ht1 eq_refl) as (p' & Hp' & Hg).
  rewrite Ht2 in Hp'. injection Hp' as <-. cbn in Hg. subst gen.
  destruct (exec_cache zero l s1 s2 Hl Hwf) as (Hwf2 & n & Hn & Hgen & Hone). specialize (Hone Hinv).
  unfold step in Hs3. rewrite Ht2 in Hs3. injection Hs3 as <-. cbn.
  unfold setIfGeneration. rewrite bool_decide_eq_true_2; [done|]. rewrite Hgen.
  apply wrapu64_shift_ne; [|lia]. apply (core_gen _ (wf_core _ Hwf)).
Qed.

(** Single flight: in every interleaving, two threads that lead a fill of
    the same key and have not left the inflight map are the same thread. *)
Theorem single_flight {V : Type} (zero : V) cap valid c l s t t' p p' k id id' :
  New cap valid = Some c -> exec zero (initial c) l = Some s ->
  threads s !! t = Some p -> threads s !! t' = Some p' ->
  registered p = Some (k, id) -> registered p' = Some (k, id') -> t = t'.
Proof.
  intros Hnew Hl Ht Ht' Hp Hp'.
  assert (inv zero s) as Hi by (eapply exec_inv, initial_inv; eauto).
  pose proof (inv_reg _ s Hi t p k id Ht Hp) as H1. pose proof (inv_reg _ s Hi t' p' k id' Ht' Hp') as H2.
  assert (id' = id) as -> by congruence.
  eapply (inv_unique _ s Hi t t'); eauto using registered_leads.
Qed.

(** Waiters are never lost: in every reachable state, a waiter of a fill
    either can return, or its call has a live leader, and running that leader
    alone for at most five steps (its loader returning any value) releases the
    waiter. *)
Theorem waiters_released {V : Type} (zero : V) cap valid c l s t id (v : V) :
  New cap valid = Some c -> exec zero (initial c) l = Some s -> threads s !! t = Some (FillWait id) ->
  (exists s', step zero s t Go = Some s') \/
  exists t' l' s', Forall (fun q => q.1 = t') l' /\ (length l' <= 5)%nat /\
    exec zero s (l' ++ [(t, Go)]) = Some s'.
Proof.
  intros Hnew Hl Ht. assert (inv zero s) as Hi by (eapply exec_inv, initial_inv; eauto).
  destruct (inv_wait _ s Hi t id Ht) as [cl Hcl]. destruct (done cl) eqn:Hd.
  - left. unfold step. rewrite Ht, Hcl, Hd. eauto.
  - right. destruct (inv_led _ s Hi id cl Hcl Hd) as (t' & p & Ht' & Hp).
    destruct (finish_closes zero v s t' p id cl Ht' Hp Hcl) as (s' & c' & Hex & Hc' & Hd' & Hoth).
    exists t', (pair t' <$> finish v p). eexists. split_and!.
    + apply Forall_fmap, Forall_forall. done.
    + destruct p; cbn; lia.
    + rewrite exec_app, Hex. cbn. unfold step. rewrite Hoth, Ht, Hc', Hd'; [reflexivity|].
      intros ->. rewrite Ht in Ht'. by simplify_eq.
Qed.

(** Followers share the leader's outcome: whenever a follower returns from
    a call its leader has closed, it returns the leader's value and error, and
    after a panicking loader it returns an error. *)
Theorem followers_share {V : Type} (zero : V) cap valid c l0 s0 t k id ex s1 l s2 t' s3 :
  New cap valid = Some c -> exec zero (initial c) l0 = Some s0 ->
  threads s0 !! t = Some (FillClose k id ex) -> step zero s0 t Go = Some s1 ->
  exec zero s1 l = Some s2 -> threads s2 !! t' = Some (FillWait id) -> step zero s2 t' Go = Some s3 ->
  threads s3 !! t' = Some (Returned (shared zero ex)).
Proof.
  intros Hnew Hl0 Ht Hs1 Hl Ht' Hs3.
  assert (inv zero s0) as Hi0 by (eapply exec_inv, initial_inv; eauto).
  destruct (inv_open _ s0 Hi0 t _ id Ht eq_refl) as (cl & Hcl & _ & Hrec).
  assert (inv zero s1) as Hi1 by (by eapply step_inv).
  assert (calls s1 !! id = Some (closeCall ex cl)) as Hc1.
  { unfold step in Hs1. rewrite Ht in Hs1. simplify_eq. cbn. by rewrite lookup_alter_eq, Hcl. }
  assert (done (closeCall ex cl) = true) as Hd by (by destruct ex).
  pose proof (exec_closed zero l s1 s2 id _ Hl Hi1 Hc1 Hd) as Hc2.
  unfold step in Hs3. rewrite Ht', Hc2, Hd in Hs3. injection Hs3 as <-. cbn. rewrite lookup_insert_eq.
  destruct ex; cbn in Hrec |- *; [by destruct Hrec as [-> ->]|by rewrite Hrec].
Qed.

(** In every interleaving the cache keeps its bound and its invariant:
    recency list, key map, entry heap and secondary index agree. *)
Theorem interleaved_cache_wf {V : Type} (zero : V) cap valid c l s :
  New cap valid = Some c -> exec zero (initial c) l = Some s ->
  wf (cache s) /\ Len (cache s) <= capacity (cache s).
Proof.
  intros Hnew Hl. assert (inv zero s) as Hi by (eapply exec_inv, initial_inv; eauto).
  split; [apply Hi|]. apply (wf_len _ (inv_cache _ s Hi)).
Qed.

(** *** Witnesses *)

Definition cache0 : Cache Z := mkCache 2 ∅ [] ∅ 0%nat ∅ 0 None.

(** The state after a schedule of a fresh cache, for concrete runs. *)
Definition after (l : list (tid * choice (V:=Z))) : State (V:=Z) := default (initial cache0) (exec 0 (initial cache0) l).

Definition lead_a : list (tid * choice (V:=Z)) := [(1%nat, Begin (ReqFill "a"))].
Definition race_a : list (tid * choice (V:=Z)) :=
  [(2%nat, Begin (ReqEvict "a")); (1%nat, LoaderReturns 7 "row" None)].

Lemma stale_fill_dropped_witness :
  let s2 := after (lead_a ++ [(1%nat, Go)] ++ race_a) in
  let s3 := after (lead_a ++ [(1%nat, Go)] ++ race_a ++ [(1%nat, Go)]) in
  step 0 s2 1%nat Go = Some s3 /\ cache s3 = cache s2.
Proof.
  intros s2 s3. split; [vm_compute; reflexivity|].
  apply (stale_fill_dropped 0 2 None cache0 lead_a (after lead_a) 1%nat "a"%string 0%nat
           (after (lead_a ++ [(1%nat, Go)])) race_a s2 "a"%string 0%nat 0 7 "row"%string s3);
    vm_compute; reflexivity.
Defined.

Definition two_fills : list (tid * choice (V:=Z)) := [(1%nat, Begin (ReqFill "a")); (2%nat, Begin (ReqFill "a"))].

Lemma single_flight_witness :
  threads (after two_fills) !! 1%nat = Some (FillRead "a" 0%nat) /\
  threads (after two_fills) !! 2%nat = Some (FillWait 0%nat) /\ 1%nat = 1%nat.
Proof.
  split; [vm_compute; reflexivity|]. split; [vm_compute; reflexivity|].
  apply (single_flight 0 2 None cache0 two_fills (after two_fills) 1%nat 1%nat
            (FillRead "a" 0%nat) (FillRead "a" 0%nat) "a"%string 0%nat 0%nat); vm_compute; reflexivity.
Defined.

Lemma waiters_released_witness :
  let s := after two_fills in
  threads s !! 2%nat = Some (FillWait 0%nat) /\
  ((exists s', step 0 s 2%nat Go = Some s') \/
   exists t' l' s', Forall (fun q => q.1 = t') l' /\ (length l' <= 5)%nat /\
     exec 0 s (l' ++ [(2%nat, Go)]) = Some s').
Proof.
  intros s. split; [vm_compute; reflexivity|].
  apply (waiters_released 0 2 None cache0 two_fills s 2%nat 0%nat 7); vm_compute; reflexivity.
Defined.

Definition panic_run : list (tid * choice (V:=Z)) :=
  two_fills ++ [(1%nat, Go); (1%nat, LoaderPanics "boom"); (1%nat, Go)].

Lemma followers_share_witness :
  let s3 := after (panic_run ++ [(1%nat, Go); (2%nat, Go)]) in
  threads s3 !! 2%nat = Some (Returned (RetFill 0 (Some (LoaderPanicked "boom")))).
Proof.
  intros s3.
  apply (followers_share 0 2 None cache0 panic_run (after panic_run) 1%nat "a"%string 0%nat (ExPanic "boom")
           (after (panic_run ++ [(1%nat, Go)])) [] (after (panic_run ++ [(1%nat, Go)])) 2%nat s3);
    vm_compute; reflexivity.
Defined.

Definition fill_run : list (tid * choice (V:=Z)) :=
  [(1%nat, Begin (ReqFill "a")); (1%nat, Go); (1%nat, LoaderReturns 7 "row" None); (1%nat, Go)].

Lemma interleaved_cache_wf_witness :
  let s := after fill_run in Len (cache s) = 1 /\ wf (cache s) /\ Len (cache s) <= capacity (cache s).
Proof.
  intros s. split; [vm_compute; reflexivity|].
  apply (interleaved_cache_wf 0 2 None cache0 fill_run s); vm_compute; reflexivity.
Defined.
End LRUConc.
