(* ===== verification/LRUKey.v ===== *)
(** * Composite cache keys (src/framework/lrucache/lrucache.go)

    [EncodeKey] writes each part after its decimal length and a colon, so that
    no content of a part can forge a boundary; [DecodeKey] parses exactly [n]
    parts back.  The file shows that the two are inverse on everything
    [EncodeKey] writes and that [DecodeKey] accepts nothing else. *)

From S2P Require Import Prelude GoStrings.
Local Open Scope string_scope.

Module LRUKey.

(** [len(p)]. *)
Definition len (p : string) : Z := Z.of_nat (String.length p).

Fixpoint EncodeKey (parts : list string) : string :=
  match parts with
  | [] => ""
  | p :: ps => Itoa (len p) +:+ (":" +:+ (p +:+ EncodeKey ps))
  end.

(** One turn of [DecodeKey]'s loop: the part and the rest. *)
Definition decodePart (rest : string) : option (string * string) :=
  match Index rest ":" with
  | None => None
  | Some i =>
      let lengthText := str_take i rest in
      match Atoi lengthText with
      | None => None
      | Some length =>
          if bool_decide (length < 0)%Z || bool_decide (Itoa length <> lengthText) then None
          else
            let rest := str_drop (i + 1) rest in
            if bool_decide (length > len rest)%Z then None
            else Some (str_take (Z.to_nat length) rest, str_drop (Z.to_nat length) rest)
      end
  end.

Fixpoint decodeLoop (n : nat) (rest : string) : option (list string * string) :=
  match n with
  | O => Some ([], rest)
  | S n =>
      '(part, rest) ← decodePart rest;
      '(parts, rest) ← decodeLoop n rest;
      Some (part :: parts, rest)
  end.

Definition DecodeKey (key : string) (n : Z) : option (list string) :=
  if bool_decide (n < 0)%Z then None
  else
    match decodeLoop (Z.to_nat n) key with
    | Some (parts, "") => Some parts
    | _ => None
    end.

Lemma decodePart_encode p rest : (len p < two63)%Z ->
  decodePart (Itoa (len p) +:+ (":" +:+ (p +:+ rest))) = Some (p, rest).
Proof.
  intros Hp. assert (0 <= len p)%Z as H0 by (unfold len; lia). unfold decodePart.
  rewrite Index_digits_colon by (rewrite Itoa_nonneg by done; apply pretty_N_digits).
  rewrite str_take_app, Atoi_Itoa by done.
  rewrite bool_decide_eq_false_2 by lia. rewrite bool_decide_eq_false_2 by naive_solver. cbn [orb].
  rewrite str_drop_app_plus. cbn [str_drop String.append].
  rewrite bool_decide_eq_false_2; last (unfold len; rewrite str_length_app; lia).
  unfold len. rewrite Nat2Z.id, str_take_app, str_drop_app. done.
Qed.

Lemma decodeLoop_encode parts rest : Forall (fun p => (len p < two63)%Z) parts ->
  decodeLoop (length parts) (EncodeKey parts +:+ rest) = Some (parts, rest).
Proof.
  induction 1 as [|p ps Hp _ IH]; [done|]. cbn [length decodeLoop EncodeKey].
  rewrite !str_app_assoc, decodePart_encode by done. cbn. by rewrite IH.
Qed.

Lemma decodePart_sound rest part rest' : decodePart rest = Some (part, rest') ->
  rest = Itoa (len part) +:+ (":" +:+ (part +:+ rest')).
Proof.
  unfold decodePart. destruct (Index rest ":") as [i|] eqn:Hi; [|done].
  apply Index_Some_split in Hi. cbn [String.length] in Hi. revert Hi.
  generalize (str_take i rest) (str_drop (i + 1) rest). intros text r ->.
  destruct (Atoi text) as [n|]; [|done].
  destruct (bool_decide (n < 0)%Z) eqn:Hn; [done|]. apply bool_decide_eq_false in Hn.
  case_bool_decide as Ht; [done|]. cbn [orb]. subst text.
  case_bool_decide as Hl; [done|]. intros [= <- <-].
  rewrite str_take_drop. do 2 f_equal. unfold len in *. rewrite str_length_take. lia.
Qed.

Lemma decodeLoop_sound n rest parts rest' : decodeLoop n rest = Some (parts, rest') ->
  length parts = n /\ rest = EncodeKey parts +:+ rest'.
Proof.
  revert rest parts. induction n as [|n IH]; intros rest parts; cbn [decodeLoop].
  - intros [= <- <-]. done.
  - destruct (decodePart rest) as [[p r]|] eqn:Hp; [|done]. cbn.
    destruct (decodeLoop n r) as [[ps r']|] eqn:Hl; [|done]. cbn. intros [= <- <-].
    apply decodePart_sound in Hp as ->. apply IH in Hl as [<- ->]. split; [done|]. cbn [EncodeKey].
    by rewrite !str_app_assoc.
Qed.

(** C29. [DecodeKey] is the inverse of [EncodeKey]: on a string and a count it
    answers a tuple exactly when the string is the encoding of that tuple and
    the count is its size; so no part can forge a boundary and two different
    tuples never share a cache key. *)
Theorem DecodeKey_spec (key : string) (n : Z) (parts : list string) :
  Forall (fun p => (len p < two63)%Z) parts ->
  DecodeKey key n = Some parts <-> key = EncodeKey parts /\ n = Z.of_nat (length parts).
Proof.
  intros Hlen. unfold DecodeKey. split.
  - case_bool_decide as Hn; [done|].
    destruct (decodeLoop (Z.to_nat n) key) as [[ps [|]]|] eqn:Hd; [|done..]. intros [= ->].
    apply decodeLoop_sound in Hd as [Hl ->]. rewrite str_app_nil_r. split; [done|lia].
  - intros [-> ->]. rewrite bool_decide_eq_false_2 by lia. rewrite Nat2Z.id.
    pose proof (decodeLoop_encode parts "" Hlen) as Hd. rewrite str_app_nil_r in Hd. by rewrite Hd.
Qed.

Lemma DecodeKey_spec_witness :
  DecodeKey "3:a:b0:1:c" 3 = Some ["a:b"; ""; "c"] /\ EncodeKey ["a:b"; ""; "c"] = "3:a:b0:1:c".
Proof.
  assert (EncodeKey ["a:b"; ""; "c"] = "3:a:b0:1:c") as He by reflexivity.
  split; [|exact He]. apply (DecodeKey_spec "3:a:b0:1:c" 3 ["a:b"; ""; "c"]).
  - repeat constructor.
  - split; [symmetry; exact He|reflexivity].
Defined.

End LRUKey.
