(* ===== verification/Schemas.v ===== *)
(** * Shared schemas (src/core/schemas/bifrost.go, account.go; src/core/utils.go)

    The data the routing core passes around: providers, request types, API
    keys with their model lists, errors, attempt records, and the predicates
    on them.  Fields that no modelled code reads (raw payloads, telemetry) are
    left out of the records. *)

From S2P Require Import Prelude GoStrings.
Local Open Scope string_scope.

Module Schemas.

(** ** Providers *)

Definition ModelProvider : Type := string.

Definition OpenAI : ModelProvider := "openai".
Definition Azure : ModelProvider := "azure".
Definition Anthropic : ModelProvider := "anthropic".
Definition Bedrock : ModelProvider := "bedrock".
Definition BedrockMantle : ModelProvider := "bedrock_mantle".
Definition Cohere : ModelProvider := "cohere".
Definition Vertex : ModelProvider := "vertex".
Definition Mistral : ModelProvider := "mistral".
Definition Ollama : ModelProvider := "ollama".
Definition Opencode : ModelProvider := "opencode".
Definition OpencodeGo : ModelProvider := "opencode-go".
Definition OpencodeZen : ModelProvider := "opencode-zen".
Definition Groq : ModelProvider := "groq".
Definition SGL : ModelProvider := "sgl".
Definition Parasail : ModelProvider := "parasail".
Definition Perplexity : ModelProvider := "perplexity".
Definition Cerebras : ModelProvider := "cerebras".
Definition DeepSeek : ModelProvider := "deepseek".
Definition Gemini : ModelProvider := "gemini".
Definition OpenRouter : ModelProvider := "openrouter".
Definition Elevenlabs : ModelProvider := "elevenlabs".
Definition HuggingFace : ModelProvider := "huggingface".
Definition Nebius : ModelProvider := "nebius".
Definition XAI : ModelProvider := "xai".
Definition Replicate : ModelProvider := "replicate".
Definition VLLM : ModelProvider := "vllm".
Definition Runway : ModelProvider := "runway".
Definition Runware : ModelProvider := "runware".
Definition Fireworks : ModelProvider := "fireworks".
Definition Sarvam : ModelProvider := "sarvam".
Definition Wafer : ModelProvider := "wafer".
Definition Alibaba : ModelProvider := "alibaba".
Definition AlibabaTokenplan : ModelProvider := "alibaba_tokenplan".
Definition Minimax : ModelProvider := "minimax".
Definition Moonshot : ModelProvider := "moonshot".
Definition Siliconflow : ModelProvider := "siliconflow".
Definition Volcengine : ModelProvider := "volcengine".
Definition Zhipu : ModelProvider := "zhipu".
Definition Tencent : ModelProvider := "tencent".
Definition Baidu : ModelProvider := "baidu".
Definition Sensenova : ModelProvider := "sensenova".
Definition Baichuan : ModelProvider := "baichuan".
Definition Iflytek : ModelProvider := "iflytek".
Definition Stepfun : ModelProvider := "stepfun".
Definition XiaomiMimo : ModelProvider := "xiaomi_mimo".
Definition Modelscope : ModelProvider := "modelscope".
Definition Coze : ModelProvider := "coze".
Definition CozeCn : ModelProvider := "coze_cn".
Definition GMICloud : ModelProvider := "gmicloud".
Definition ThreeSixtyAI : ModelProvider := "360ai".
Definition InternLM : ModelProvider := "internlm".
Definition AntLing : ModelProvider := "antling".
Definition Yi : ModelProvider := "yi".
Definition QwenCloud : ModelProvider := "qwencloud".
Definition BytePlus : ModelProvider := "byteplus".
Definition Qiniu : ModelProvider := "qiniu".
Definition ZAI : ModelProvider := "zai".
Definition Together : ModelProvider := "together".
Definition NVIDIA : ModelProvider := "nvidia".
Definition Sambanova : ModelProvider := "sambanova".
Definition DeepInfra : ModelProvider := "deepinfra".
Definition Hyperbolic : ModelProvider := "hyperbolic".
Definition AzureAI : ModelProvider := "azure_ai".
Definition Watsonx : ModelProvider := "watsonx".
Definition MinimaxCN : ModelProvider := "minimax_cn".
Definition Snowflake : ModelProvider := "snowflake".
Definition Databricks : ModelProvider := "databricks".
Definition OCI : ModelProvider := "oci".
Definition SAP : ModelProvider := "sap".
Definition Modal : ModelProvider := "modal".
Definition Baseten : ModelProvider := "baseten".
Definition LongCat : ModelProvider := "longcat".

(** The base providers a custom provider may extend. *)
Definition SupportedBaseProviders : list ModelProvider :=
  [Anthropic; Bedrock; Cohere; Gemini; OpenAI; HuggingFace; Replicate].

(** All built-in providers. *)
Definition StandardProviders : list ModelProvider :=
  [Anthropic; Azure; Bedrock; BedrockMantle; Cerebras; Cohere; DeepSeek; Gemini; Groq; Mistral;
   Ollama; Opencode; OpencodeGo; OpencodeZen; OpenAI; Parasail; Perplexity; SGL; Vertex;
   OpenRouter; Elevenlabs; HuggingFace; Nebius; XAI; Replicate; VLLM; Runway; Runware; Fireworks;
   Sarvam; Wafer; Alibaba; AlibabaTokenplan; Minimax; Moonshot; Siliconflow; Volcengine; Zhipu;
   Tencent; Baidu; Sensenova; Baichuan; Iflytek; Stepfun; XiaomiMimo; Modelscope; Coze; CozeCn;
   GMICloud; ThreeSixtyAI; InternLM; AntLing; Yi; QwenCloud; BytePlus; Qiniu; ZAI; Together;
   NVIDIA; Sambanova; DeepInfra; Hyperbolic; AzureAI; Watsonx; MinimaxCN; Snowflake; Databricks;
   OCI; SAP; Modal; Baseten; LongCat].

Definition KeylessProviders : list ModelProvider := [Opencode].

Definition IsKeylessProvider (provider : ModelProvider) : bool :=
  bool_decide (provider ∈ KeylessProviders).

(** ** Request types *)

Definition RequestType : Type := string.

Definition ListModelsRequest : RequestType := "list_models".
Definition TextCompletionRequest : RequestType := "text_completion".
Definition TextCompletionStreamRequest : RequestType := "text_completion_stream".
Definition ChatCompletionRequest : RequestType := "chat_completion".
Definition ChatCompletionStreamRequest : RequestType := "chat_completion_stream".
Definition ResponsesRequest : RequestType := "responses".
Definition ResponsesStreamRequest : RequestType := "responses_stream".
Definition ResponsesRetrieveRequest : RequestType := "responses_retrieve".
Definition ResponsesRetrieveStreamRequest : RequestType := "responses_retrieve_stream".
Definition ResponsesDeleteRequest : RequestType := "responses_delete".
Definition ResponsesCancelRequest : RequestType := "responses_cancel".
Definition ResponsesInputItemsRequest : RequestType := "responses_input_items".
Definition EmbeddingRequest : RequestType := "embedding".
Definition SpeechRequest : RequestType := "speech".
Definition SpeechStreamRequest : RequestType := "speech_stream".
Definition TranscriptionRequest : RequestType := "transcription".
Definition TranscriptionStreamRequest : RequestType := "transcription_stream".
Definition ImageGenerationRequest : RequestType := "image_generation".
Definition ImageGenerationStreamRequest : RequestType := "image_generation_stream".
Definition ImageEditRequest : RequestType := "image_edit".
Definition ImageEditStreamRequest : RequestType := "image_edit_stream".
Definition ImageVariationRequest : RequestType := "image_variation".
Definition VideoGenerationRequest : RequestType := "video_generation".
Definition VideoRetrieveRequest : RequestType := "video_retrieve".
Definition VideoDownloadRequest : RequestType := "video_download".
Definition VideoDeleteRequest : RequestType := "video_delete".
Definition VideoListRequest : RequestType := "video_list".
Definition VideoRemixRequest : RequestType := "video_remix".
Definition BatchCreateRequest : RequestType := "batch_create".
Definition BatchListRequest : RequestType := "batch_list".
Definition BatchRetrieveRequest : RequestType := "batch_retrieve".
Definition BatchCancelRequest : RequestType := "batch_cancel".
Definition BatchResultsRequest : RequestType := "batch_results".
Definition BatchDeleteRequest : RequestType := "batch_delete".
Definition FileUploadRequest : RequestType := "file_upload".
Definition FileListRequest : RequestType := "file_list".
Definition FileRetrieveRequest : RequestType := "file_retrieve".
Definition FileDeleteRequest : RequestType := "file_delete".
Definition CachedContentCreateRequest : RequestType := "cached_content_create".
Definition CachedContentListRequest : RequestType := "cached_content_list".
Definition CachedContentRetrieveRequest : RequestType := "cached_content_retrieve".
Definition CachedContentUpdateRequest : RequestType := "cached_content_update".
Definition CachedContentDeleteRequest : RequestType := "cached_content_delete".
Definition FileContentRequest : RequestType := "file_content".
Definition ContainerCreateRequest : RequestType := "container_create".
Definition ContainerListRequest : RequestType := "container_list".
Definition ContainerRetrieveRequest : RequestType := "container_retrieve".
Definition ContainerDeleteRequest : RequestType := "container_delete".
Definition ContainerFileCreateRequest : RequestType := "container_file_create".
Definition ContainerFileListRequest : RequestType := "container_file_list".
Definition ContainerFileRetrieveRequest : RequestType := "container_file_retrieve".
Definition ContainerFileContentRequest : RequestType := "container_file_content".
Definition ContainerFileDeleteRequest : RequestType := "container_file_delete".
Definition RerankRequest : RequestType := "rerank".
Definition OCRRequest : RequestType := "ocr".
Definition CountTokensRequest : RequestType := "count_tokens".
Definition CompactionRequest : RequestType := "compaction".
Definition MCPToolExecutionRequest : RequestType := "mcp_tool_execution".
Definition PassthroughRequest : RequestType := "passthrough".
Definition PassthroughStreamRequest : RequestType := "passthrough_stream".
Definition UnknownRequest : RequestType := "unknown".
Definition WebSocketResponsesRequest : RequestType := "websocket_responses".
Definition RealtimeRequest : RequestType := "realtime".

(** [reqType == a || reqType == b || ...]. *)
Definition oneOf (r : RequestType) (l : list RequestType) : bool := existsb (String.eqb r) l.

Definition isModelRequired (reqType : RequestType) : bool :=
  oneOf reqType
    [TextCompletionRequest; TextCompletionStreamRequest; ChatCompletionRequest; ChatCompletionStreamRequest;
     ResponsesRequest; ResponsesStreamRequest; SpeechRequest; SpeechStreamRequest; TranscriptionRequest;
     TranscriptionStreamRequest; EmbeddingRequest; ImageGenerationRequest; ImageGenerationStreamRequest;
     VideoGenerationRequest].

Definition IsStreamRequestType (reqType : RequestType) : bool :=
  oneOf reqType
    [TextCompletionStreamRequest; ChatCompletionStreamRequest; ResponsesStreamRequest;
     ResponsesRetrieveStreamRequest; SpeechStreamRequest; TranscriptionStreamRequest;
     ImageGenerationStreamRequest; ImageEditStreamRequest; PassthroughStreamRequest;
     WebSocketResponsesRequest; RealtimeRequest].

Definition isBatchRequestType (reqType : RequestType) : bool :=
  oneOf reqType
    [BatchCreateRequest; BatchListRequest; BatchRetrieveRequest; BatchCancelRequest; BatchDeleteRequest;
     BatchResultsRequest].

Definition isFileRequestType (reqType : RequestType) : bool :=
  oneOf reqType [FileUploadRequest; FileListRequest; FileRetrieveRequest; FileDeleteRequest; FileContentRequest].

Definition isCachedContentRequestType (reqType : RequestType) : bool :=
  oneOf reqType
    [CachedContentCreateRequest; CachedContentListRequest; CachedContentRetrieveRequest;
     CachedContentUpdateRequest; CachedContentDeleteRequest].

Definition isContainerRequestType (reqType : RequestType) : bool :=
  oneOf reqType
    [ContainerCreateRequest; ContainerListRequest; ContainerRetrieveRequest; ContainerDeleteRequest;
     ContainerFileCreateRequest; ContainerFileListRequest; ContainerFileRetrieveRequest;
     ContainerFileContentRequest; ContainerFileDeleteRequest].

Definition isModellessVideoRequestType (reqType : RequestType) : bool :=
  oneOf reqType
    [VideoRetrieveRequest; VideoDownloadRequest; VideoListRequest; VideoDeleteRequest; VideoRemixRequest].

Definition isPassthroughRequestType (reqType : RequestType) : bool :=
  oneOf reqType [PassthroughRequest; PassthroughStreamRequest].

Definition isResponsesLifecycleRequestType (reqType : RequestType) : bool :=
  oneOf reqType
    [ResponsesRetrieveRequest; ResponsesRetrieveStreamRequest; ResponsesDeleteRequest;
     ResponsesCancelRequest; ResponsesInputItemsRequest].

(** ** Allow and deny lists *)

(** [strings.EqualFold], on ASCII. *)
Definition EqualFold (a b : string) : bool := String.eqb (ToLower a) (ToLower b).

Module WhiteList.
Definition t : Type := list string.
Definition Contains (wl : t) (value : string) : bool := existsb (fun s => EqualFold s value) wl.
Definition IsEmpty (wl : t) : bool := bool_decide (length wl = 0%nat).
Definition IsUnrestricted (wl : t) : bool := match wl with [s] => String.eqb s "*" | _ => false end.
Definition IsRestricted (wl : t) : bool := negb (IsUnrestricted wl).
Definition IsAllowed (wl : t) (value : string) : bool := IsUnrestricted wl || Contains wl value.

(** The scan of [Validate] for duplicates, up to case. *)
Fixpoint noDuplicates (seen : list string) (wl : list string) : option string :=
  match wl with
  | [] => None
  | v :: wl =>
      let normalized := ToLower v in
      if bool_decide (normalized ∈ seen) then Some v else noDuplicates (normalized :: seen) wl
  end.

Definition Validate (wl : t) : result string unit :=
  if Contains wl "*" && bool_decide (1 < length wl)%nat
  then Err "wildcard '*' cannot be used with other values in the whitelist"
  else match noDuplicates [] wl with
       | Some v => Err ("duplicate value '" +:+ v +:+ "' in whitelist")
       | None => Ok tt
       end.
End WhiteList.

Module BlackList.
Definition t : Type := list string.
Definition Contains (bl : t) (value : string) : bool := existsb (fun s => EqualFold s value) bl.
Definition IsEmpty (bl : t) : bool := bool_decide (length bl = 0%nat).
Definition IsBlockAll (bl : t) : bool := match bl with [s] => String.eqb s "*" | _ => false end.
Definition IsBlocked (bl : t) (value : string) : bool := IsBlockAll bl || Contains bl value.

Definition Validate (bl : t) : result string unit :=
  if Contains bl "*" && bool_decide (1 < length bl)%nat
  then Err "wildcard '*' cannot be used with other values in the blacklist"
  else match WhiteList.noDuplicates [] bl with
       | Some v => Err ("duplicate value '" +:+ v +:+ "' in blacklist")
       | None => Ok tt
       end.
End BlackList.

(** ** Keys *)

Record VLLMKeyConfig := mkVLLMKeyConfig { vllm_URL : string; vllm_ModelName : string }.

(** An API key.  [k_Value] and the URLs are the resolved secret values;
    [k_Weight100] is [int(key.Weight * 100)], the only way the weight is read;
    [k_Bedrock] and [k_BedrockMantle] say whether the optional configuration is
    there. *)
Record Key := mkKey {
  k_ID : string;
  k_Name : string;
  k_Value : string;
  k_Models : WhiteList.t;
  k_BlacklistedModels : BlackList.t;
  k_Weight100 : Z;
  k_AzureEndpoint : option string;
  k_Vertex : bool;
  k_Bedrock : bool;
  k_BedrockMantle : bool;
  k_VLLM : option VLLMKeyConfig;
  k_OllamaURL : option string;
  k_SGLURL : option string;
  k_Enabled : option bool;
  k_UseForBatchAPI : option bool }.

(** [schemas.Key{}], the sentinel of keyless providers. *)
Definition zeroKey : Key :=
  mkKey "" "" "" [] [] 0 None false false false None None None None None.

#[global] Instance VLLMKeyConfig_eq_dec : EqDecision VLLMKeyConfig.
Proof. solve_decision. Defined.
#[global] Instance Key_eq_dec : EqDecision Key.
Proof. solve_decision. Defined.

Definition CanProviderKeyValueBeEmpty (providerKey : ModelProvider) : bool :=
  bool_decide (providerKey ∈ [Vertex; Bedrock; BedrockMantle; VLLM; Azure; Ollama; SGL]).

Definition isKeySkippingAllowed (providerKey : ModelProvider) : bool :=
  bool_decide (providerKey <> Azure) && bool_decide (providerKey <> Bedrock) &&
  bool_decide (providerKey <> BedrockMantle) && bool_decide (providerKey <> Vertex).

(** [CustomProviderConfig], the two fields key handling reads. *)
Record CustomProviderConfig := mkCustomProviderConfig { cp_IsKeyLess : bool; cp_BaseProviderType : ModelProvider }.

Definition providerRequiresKey (customConfig : option CustomProviderConfig) : bool :=
  match customConfig with
  | Some c => negb (cp_IsKeyLess c && bool_decide (cp_BaseProviderType c <> Bedrock))
  | None => true
  end.

(** A URL that has to be there and non-empty. *)
Definition requireURL (what : string) (url : option string) (key : Key) : result string Key :=
  match url with
  | None => Err (what +:+ " is required")
  | Some u => if String.eqb u "" then Err (what +:+ ".url is required") else Ok key
  end.

(** [validateKey]; it may fill in an empty configuration, so it returns the
    key. *)
Definition validateKey (providerKey : ModelProvider) (key : Key) : result string Key :=
  let '(mkKey id name v ms bl w azure vertex bedrock mantle vllm ollama sgl en batch) := key in
  if String.eqb providerKey Azure then
    match azure with
    | None => Err "azure_key_config is required"
    | Some e => if String.eqb e "" then Err "azure_key_config.endpoint is required" else Ok key
    end
  else if String.eqb providerKey Bedrock then
    Ok (mkKey id name v ms bl w azure vertex true mantle vllm ollama sgl en batch)
  else if String.eqb providerKey BedrockMantle then
    Ok (mkKey id name v ms bl w azure vertex bedrock true vllm ollama sgl en batch)
  else if String.eqb providerKey Vertex then
    if vertex then Ok key else Err "vertex_key_config is required"
  else if String.eqb providerKey VLLM then requireURL "vllm_key_config" (vllm_URL <$> vllm) key
  else if String.eqb providerKey Ollama then requireURL "ollama_key_config" ollama key
  else if String.eqb providerKey SGL then requireURL "sgl_key_config" sgl key
  else Ok key.

(** ** Attempt records *)

Record KeyAttemptRecord := mkAttempt {
  Attempt : Z;
  KeyID : string;
  KeyName : string;
  FailReason : option string;
  TriggeredRotation : bool }.

#[global] Instance KeyAttemptRecord_eq_dec : EqDecision KeyAttemptRecord.
Proof. solve_decision. Defined.

(** ** Errors *)

(** [ef_Error] is the text of the wrapped Go error. *)
Record ErrorField := mkErrorField {
  ef_Type : option string; ef_Code : option string; ef_Message : string; ef_Error : option string }.

(** [ri_AliasModelID] is the [ModelID] of the resolved key alias. *)
Record RoutingInfo := mkRoutingInfo {
  ri_Provider : ModelProvider;
  ri_Model : string;
  ri_Key : string;
  ri_AliasModelID : option string;
  ri_IsFallback : bool;
  ri_PrimaryProvider : option ModelProvider;
  ri_PrimaryModel : option string }.

Definition noRoutingInfo : RoutingInfo := mkRoutingInfo "" "" "" None false None None.

Record BifrostErrorExtraFields := mkExtra {
  xf_RoutingInfo : RoutingInfo;
  xf_Provider : ModelProvider;
  xf_OriginalModelRequested : string;
  xf_ResolvedModelUsed : string;
  xf_RequestType : RequestType;
  xf_RetryAfterSeconds : Z;
  xf_RawRequest : option string;
  xf_RawResponse : option string }.

Record BifrostError := mkError {
  be_Type : option string;
  be_IsBifrostError : bool;
  be_StatusCode : option Z;
  be_Error : option ErrorField;
  be_AllowFallbacks : option bool;
  be_ExtraFields : BifrostErrorExtraFields }.

Definition emptyExtra : BifrostErrorExtraFields := mkExtra noRoutingInfo "" "" "" "" 0 None None.

#[global] Instance ErrorField_eq_dec : EqDecision ErrorField.
Proof. solve_decision. Defined.
#[global] Instance RoutingInfo_eq_dec : EqDecision RoutingInfo.
Proof. solve_decision. Defined.
#[global] Instance Extra_eq_dec : EqDecision BifrostErrorExtraFields.
Proof. solve_decision. Defined.
#[global] Instance BifrostError_eq_dec : EqDecision BifrostError.
Proof. solve_decision. Defined.

(** [PopulateExtraFields]. *)
Definition PopulateExtraFields (e : BifrostError) (requestType : RequestType) (provider : ModelProvider)
    (originalModelRequested resolvedModelUsed : string) : BifrostError :=
  let x := be_ExtraFields e in
  mkError (be_Type e) (be_IsBifrostError e) (be_StatusCode e) (be_Error e) (be_AllowFallbacks e)
    (mkExtra (xf_RoutingInfo x) provider originalModelRequested
       (if String.eqb resolvedModelUsed "" then originalModelRequested else resolvedModelUsed)
       requestType (xf_RetryAfterSeconds x) (xf_RawRequest x) (xf_RawResponse x)).

(** The text of a status without a message. *)
Definition statusText (code : Z) : string :=
  if (code =? 401)%Z then "unauthorized"
  else if (code =? 403)%Z then "forbidden"
  else if (code =? 404)%Z then "endpoint not found"
  else if (code =? 405)%Z then "method not allowed"
  else if (code =? 429)%Z then "rate limit exceeded"
  else if (code =? 500)%Z then "internal server error"
  else if (code =? 502)%Z then "bad gateway"
  else if (code =? 503)%Z then "service unavailable"
  else if (code =? 504)%Z then "gateway timeout"
  else "HTTP " +:+ (Itoa code +:+ " error").

Definition errorMessage (e : BifrostError) : string :=
  match be_Error e with Some f => ef_Message f | None => "" end.

Definition GetErrorString (e : option BifrostError) : string :=
  match e with
  | None => ""
  | Some e =>
      if negb (String.eqb (errorMessage e) "") then errorMessage e
      else match be_StatusCode e with
           | Some code => statusText code
           | None => match be_Type e with Some t => t | None => "unknown error" end
           end
  end.

Definition NoEligibleKeysMessage (provider : ModelProvider) (retryAfterSeconds : Z) : string :=
  let msg := "provider " +:+ (provider +:+ ": no eligible keys (all in cooldown)") in
  if bool_decide (0 < retryAfterSeconds)%Z
  then msg +:+ ("; retry after " +:+ (Itoa retryAfterSeconds +:+ "s"))
  else msg.

(** The synthetic 429 of a pool whose keys are all suppressed. *)
Definition noEligibleKeysError (provider : ModelProvider) (retryAfter : Z) : BifrostError :=
  mkError (Some "no_eligible_keys") false (Some 429%Z)
    (Some (mkErrorField (Some "no_eligible_keys") None (NoEligibleKeysMessage provider retryAfter) None))
    None (mkExtra noRoutingInfo "" "" "" "" retryAfter None None).

End Schemas.
