(* ===== verification/CooldownPolicy.v ===== *)
(** * Cooldown policies and provider defaults (src/core/schemas/provider.go)

    The rules that say which provider errors put a key on cooldown, for how
    long and at which granularity; their built-in defaults per provider; and
    the defaulting of a provider's configuration.  [classify] is the decision
    the cooldown plugin takes from a policy. *)

From S2P Require Import Prelude GoStrings Schemas.
Local Open Scope string_scope.

Module CooldownPolicy.
Import Schemas.

Record Match := mkMatch {
  m_StatusCode : option Z;
  m_MessageContains : list string;
  m_Type : list string;
  m_Code : list string }.

(** [CooldownPolicyScope]. *)
Definition Scope : Type := string.
Definition CooldownScopeKey : Scope := "key".
Definition CooldownScopeModel : Scope := "model".

Definition OrDefault (s : Scope) : Scope :=
  if String.eqb s CooldownScopeModel then CooldownScopeModel else CooldownScopeKey.

Record Rule := mkRule {
  r_Enabled : option bool;
  r_Scope : Scope;
  r_Match : list Match;
  r_MatchMode : string;
  r_TTLSeconds : Z }.

Record Policy := mkPolicy { RateLimit : option Rule; Quota : option Rule }.

Definition ScopeOrDefault (r : option Rule) : Scope :=
  match r with None => CooldownScopeKey | Some r => OrDefault (r_Scope r) end.

Definition MatchModeOrDefault (r : option Rule) : string :=
  match r with
  | None => "any"
  | Some r => if String.eqb (r_MatchMode r) "" then "any" else r_MatchMode r
  end.

(** ** Matching *)

(** [Matches]: every field that is set has to hold, and at least one is set. *)
Definition Matches (m : Match) (err : option BifrostError) : bool :=
  match err with
  | None => false
  | Some e =>
      let lowerIn (v : option string) (wanted : list string) :=
        match v with
        | None => false
        | Some v => existsb (fun want => String.eqb (ToLower want) (ToLower v)) wanted
        end in
      if bool_decide (m_StatusCode m = None) && bool_decide (m_MessageContains m = []) &&
         bool_decide (m_Type m = []) && bool_decide (m_Code m = [])
      then false
      else
        match m_StatusCode m with
        | Some want => match be_StatusCode e with Some code => (code =? want)%Z | None => false end
        | None => true
        end &&
        (bool_decide (m_MessageContains m = []) ||
         existsb (fun sub => Contains (ToLower (GetErrorString err)) (ToLower sub)) (m_MessageContains m)) &&
        (bool_decide (m_Type m = []) || lowerIn (be_Error e ≫= ef_Type) (m_Type m)) &&
        (bool_decide (m_Code m = []) || lowerIn (be_Error e ≫= ef_Code) (m_Code m))
  end.

Definition MatchesRule (r : option Rule) (err : option BifrostError) : bool :=
  match r with
  | None => false
  | Some rule =>
      if bool_decide (r_Match rule = []) || bool_decide (err = None) then false
      else if bool_decide (r_Enabled rule = Some false) then false
      else if String.eqb (MatchModeOrDefault r) "all"
      then forallb (fun m => Matches m err) (r_Match rule)
      else existsb (fun m => Matches m err) (r_Match rule)
  end.

(** ** Defaults *)

Definition DefaultCooldownTTLSeconds : Z := 300.
Definition SensenovaRateLimitTTLSeconds : Z := 30.
Definition SensenovaQuotaTTLSeconds : Z := 600.
Definition AnthropicRateLimitTTLSeconds : Z := 60.
Definition GeminiRateLimitTTLSeconds : Z := 60.
Definition GeminiQuotaTTLSeconds : Z := 600.
Definition OpenAIRateLimitTTLSeconds : Z := 60.
Definition OpenAIQuotaTTLSeconds : Z := 600.
Definition BedrockRateLimitTTLSeconds : Z := 60.

Definition byMessage (l : list string) : Match := mkMatch None l [] [].
Definition byType (l : list string) : Match := mkMatch None [] l [].
Definition byCode (l : list string) : Match := mkMatch None [] [] l.

(** A rule literal of the defaults: [MatchMode: any], no scope, no [Enabled]. *)
Definition anyRule (ttl : Z) (l : list Match) : option Rule := Some (mkRule None "" l "any" ttl).

Definition DefaultCooldownPolicy (provider : ModelProvider) : Policy :=
  if String.eqb provider Sensenova then
    mkPolicy
      (anyRule SensenovaRateLimitTTLSeconds
         [byMessage ["http error 429"; "rate_limit_error"]; byType ["rate_limit_error"]])
      (anyRule SensenovaQuotaTTLSeconds
         [byMessage ["workspace allocated quota"; "insufficient_quota"; "quota exceeded"; "quota_exceeded"];
          byCode ["insufficient_quota"]])
  else if String.eqb provider Anthropic then
    mkPolicy
      (anyRule AnthropicRateLimitTTLSeconds
         [byType ["rate_limit_error"];
          byMessage ["rate limit"; "too many requests"; "tokens per minute"; "requests per minute"]])
      None
  else if String.eqb provider Gemini || String.eqb provider Vertex then
    mkPolicy
      (anyRule GeminiRateLimitTTLSeconds
         [byMessage ["rate limit"; "throttled"; "throttling"]; byType ["rate_limit_error"]])
      (anyRule GeminiQuotaTTLSeconds
         [byMessage ["quota exceeded"; "quota_exceeded"; "resource_exhausted"]; byType ["resource_exhausted"]])
  else if String.eqb provider OpenAI then
    mkPolicy
      (anyRule OpenAIRateLimitTTLSeconds
         [byType ["rate_limit_error"]; byMessage ["rate limit reached"; "rate limit exceeded"]])
      (anyRule OpenAIQuotaTTLSeconds
         [byType ["insufficient_quota"]; byCode ["insufficient_quota"];
          byMessage ["insufficient_quota"; "quota exceeded"]])
  else if String.eqb provider Bedrock then
    mkPolicy
      (anyRule BedrockRateLimitTTLSeconds
         [byMessage ["throttling"; "throttled"; "rate limit"]; byType ["throttlingexception"]])
      None
  else
    mkPolicy
      (anyRule DefaultCooldownTTLSeconds
         [byMessage ["rate limit"; "rate_limit"; "ratelimit"; "too many requests"; "throttled"; "throttling";
                     "rate exceeded"; "limit exceeded"];
          byType ["rate_limit_error"]])
      (anyRule DefaultCooldownTTLSeconds
         [byMessage ["insufficient_quota"; "quota exceeded"; "quota_exceeded"; "billing"; "usage limit"];
          byCode ["insufficient_quota"]]).

Definition ResolveCooldownPolicy (provider : ModelProvider) (configured : option Policy) : Policy :=
  match configured with Some p => p | None => DefaultCooldownPolicy provider end.

(** ** Provider configuration *)

Definition Millisecond : Z := 1000000.
Definition DefaultMaxRetries : Z := 0.
Definition DefaultRetryBackoffInitial : Z := 500 * Millisecond.
Definition DefaultRetryBackoffMax : Z := 5 * Second.
Definition DefaultRequestTimeoutInSeconds : Z := 300.
Definition DefaultBufferSize : Z := 5000.
Definition DefaultConcurrency : Z := 1000.
Definition DefaultStreamIdleTimeoutInSeconds : Z := 120.
Definition DefaultKeepAliveTimeoutInSeconds : Z := 30.
Definition DefaultMaxConnsPerHost : Z := 5000.
Definition MaxConnsPerHostUpperBound : Z := 10000.
Definition HTTP2PingIntervalUpperBoundSeconds : Z := 3600.

Record ProviderConfig := mkProviderConfig {
  Concurrency : Z;
  BufferSize : Z;
  RequestTimeoutInSeconds : Z;
  MaxRetries : Z;
  RetryBackoffInitial : Z;
  RetryBackoffMax : Z;
  StreamIdleTimeoutInSeconds : Z;
  KeepAliveTimeoutInSeconds : Z;
  MaxConnsPerHost : Z;
  HTTP2PingIntervalInSeconds : Z;
  Policy_ : option Policy }.

(** [if x == 0 { x = d }] and [if x <= 0 { x = d }]. *)
Definition orIfZero (x d : Z) : Z := if bool_decide (x = 0)%Z then d else x.
Definition orIfNonPositive (x d : Z) : Z := if bool_decide (x <= 0)%Z then d else x.

Definition defaultMatchMode (r : Rule) : Rule :=
  if String.eqb (r_MatchMode r) "" then mkRule (r_Enabled r) (r_Scope r) (r_Match r) "any" (r_TTLSeconds r) else r.

Definition CheckAndSetDefaults (c : ProviderConfig) : ProviderConfig :=
  mkProviderConfig
    (orIfZero (Concurrency c) DefaultConcurrency)
    (orIfZero (BufferSize c) DefaultBufferSize)
    (orIfNonPositive (RequestTimeoutInSeconds c) DefaultRequestTimeoutInSeconds)
    (orIfZero (MaxRetries c) DefaultMaxRetries)
    (orIfZero (RetryBackoffInitial c) DefaultRetryBackoffInitial)
    (orIfZero (RetryBackoffMax c) DefaultRetryBackoffMax)
    (orIfNonPositive (StreamIdleTimeoutInSeconds c) DefaultStreamIdleTimeoutInSeconds)
    (orIfNonPositive (KeepAliveTimeoutInSeconds c) DefaultKeepAliveTimeoutInSeconds)
    (if bool_decide (MaxConnsPerHost c <= 0)%Z then DefaultMaxConnsPerHost
     else if bool_decide (MaxConnsPerHost c > MaxConnsPerHostUpperBound)%Z then MaxConnsPerHostUpperBound
     else MaxConnsPerHost c)
    (if bool_decide (HTTP2PingIntervalInSeconds c > HTTP2PingIntervalUpperBoundSeconds)%Z
     then HTTP2PingIntervalUpperBoundSeconds else HTTP2PingIntervalInSeconds c)
    (match Policy_ c with
     | None => None
     | Some p => Some (mkPolicy (defaultMatchMode <$> RateLimit p) (defaultMatchMode <$> Quota p))
     end).

(** ** Classification *)

(** [CooldownKind]: the empty string stands for an unclassified mark. *)
Definition Kind : Type := string.
Definition KindRateLimit : Kind := "rate_limit".
Definition KindQuota : Kind := "quota".

(** The rule part of [classifyForMarker]: quota first, then rate limit. *)
Definition classify (policy : Policy) (err : option BifrostError) : option (Z * Kind * Scope) :=
  if MatchesRule (Quota policy) err
  then Some (wrap64 (match Quota policy with Some r => r_TTLSeconds r | None => 0 end * Second), KindQuota,
             ScopeOrDefault (Quota policy))
  else if MatchesRule (RateLimit policy) err
  then Some (wrap64 (match RateLimit policy with Some r => r_TTLSeconds r | None => 0 end * Second), KindRateLimit,
             ScopeOrDefault (RateLimit policy))
  else None.

(** ** Lemmas *)

Lemma defaultMatchMode_idem r : defaultMatchMode (defaultMatchMode r) = defaultMatchMode r.
Proof.
  unfold defaultMatchMode. destruct (String.eqb (r_MatchMode r) "") eqn:E; [done|]. by rewrite E.
Qed.

Lemma MatchModeOrDefault_default r : MatchModeOrDefault (Some (defaultMatchMode r)) = MatchModeOrDefault (Some r).
Proof. unfold MatchModeOrDefault, defaultMatchMode. by destruct (String.eqb (r_MatchMode r) "") eqn:H; rewrite ?H. Qed.

Lemma MatchesRule_default r err : MatchesRule (defaultMatchMode <$> r) err = MatchesRule r err.
Proof.
  destruct r as [r|]; [|done]. unfold MatchesRule. cbn [fmap option_fmap option_map].
  rewrite MatchModeOrDefault_default. unfold defaultMatchMode. by destruct (String.eqb (r_MatchMode r) "").
Qed.

Lemma classify_default p err :
  classify (mkPolicy (defaultMatchMode <$> RateLimit p) (defaultMatchMode <$> Quota p)) err = classify p err.
Proof.
  unfold classify. cbn [RateLimit Quota]. rewrite !MatchesRule_default.
  destruct p as [[rl|] [q|]]; cbn; unfold defaultMatchMode;
    repeat match goal with |- context [String.eqb ?a ""] => destruct (String.eqb a "") end; done.
Qed.

(** Defaulting a provider's configuration is idempotent, bounds what it
    promises to bound (timeouts positive, connections per host between 1 and
    10000, the HTTP/2 ping interval at most an hour), and does not change what
    the cooldown policy says about any error. *)
Theorem CheckAndSetDefaults_spec (c : ProviderConfig) (provider : ModelProvider) (err : option BifrostError) :
  let c' := CheckAndSetDefaults c in
  CheckAndSetDefaults c' = c' /\
  (0 < RequestTimeoutInSeconds c' /\ 0 < StreamIdleTimeoutInSeconds c' /\ 0 < KeepAliveTimeoutInSeconds c' /\
   1 <= MaxConnsPerHost c' <= 10000 /\ HTTP2PingIntervalInSeconds c' <= 3600 /\
   Concurrency c' <> 0 /\ BufferSize c' <> 0)%Z /\
  classify (ResolveCooldownPolicy provider (Policy_ c')) err =
    classify (ResolveCooldownPolicy provider (Policy_ c)) err.
Proof.
  cbn zeta. unfold DefaultConcurrency. split; [|split].
  - destruct c as [a b d e f g h i j k p]. unfold CheckAndSetDefaults. cbn. f_equal;
      try (unfold orIfZero, orIfNonPositive, DefaultMaxRetries; repeat case_bool_decide; done || (cbv in *; lia)).
    destruct p as [[[rl|] [q|]]|]; cbn; by rewrite ?defaultMatchMode_idem.
  - cbn. unfold orIfZero, orIfNonPositive, DefaultRequestTimeoutInSeconds, DefaultStreamIdleTimeoutInSeconds,
      DefaultKeepAliveTimeoutInSeconds, MaxConnsPerHostUpperBound, DefaultMaxConnsPerHost,
      HTTP2PingIntervalUpperBoundSeconds, DefaultConcurrency, DefaultBufferSize.
    split_and!; repeat case_bool_decide; lia.
  - cbn. destruct (Policy_ c) as [p|]; [|done]. cbn [ResolveCooldownPolicy]. apply classify_default.
Qed.

(** An error with a status and nothing else. *)
Definition bareStatus (code : Z) : BifrostError := mkError None false (Some code) None None emptyExtra.

(** Under the built-in policies a bare 429 (no error body) is a rate limit
    of the key, never a quota exhaustion, for every provider but Sensenova,
    whose policy ignores it; the bare status never takes the longer quota
    cooldown. *)
Theorem default_policy_bare_429 (provider : ModelProvider) :
  match classify (DefaultCooldownPolicy provider) (Some (bareStatus 429)) with
  | Some (ttl, kind, scope) =>
      provider <> Sensenova /\ kind = KindRateLimit /\ scope = CooldownScopeKey /\ (0 < ttl <= 300 * Second)%Z
  | None => provider = Sensenova
  end.
Proof.
  unfold DefaultCooldownPolicy.
  destruct (String.eqb_spec provider Sensenova) as [->|Hs]; [by vm_compute|].
  destruct (String.eqb_spec provider Anthropic); [|destruct (String.eqb provider Gemini || String.eqb provider Vertex);
    [|destruct (String.eqb_spec provider OpenAI); [|destruct (String.eqb_spec provider Bedrock)]]].
  all: match goal with |- context [classify ?p ?e] => let r := eval vm_compute in (classify p e) in
         replace (classify p e) with r by (vm_compute; reflexivity) end; cbn; split_and!; try done; unfold Second; lia.
Qed.

(** An error of a given status, message and code. *)
Definition errorOf (code : Z) (typ : option string) (msg : string) : BifrostError :=
  mkError None false (Some code) (Some (mkErrorField typ None msg None)) None emptyExtra.

(** The built-in policy does not look at the status: a 402 whose message
    mentions billing, which the retry loop treats as a dead credential, is also
    classified as an exhausted quota and put on cooldown. *)
Theorem default_policy_cools_402 (provider : ModelProvider) :
  provider ∉ [Sensenova; Anthropic; Gemini; Vertex; OpenAI; Bedrock] ->
  classify (DefaultCooldownPolicy provider) (Some (errorOf 402 None "billing hard limit reached"))
    = Some (300 * Second, KindQuota, CooldownScopeKey)%Z.
Proof.
  intros Hp. unfold DefaultCooldownPolicy.
  repeat (rewrite (proj2 (String.eqb_neq provider _)); [|intros ->; apply Hp; set_solver]). cbn [orb].
  vm_compute. reflexivity.
Qed.

Lemma default_policy_cools_402_witness :
  classify (DefaultCooldownPolicy DeepSeek) (Some (errorOf 402 None "billing hard limit reached"))
    = Some (300 * Second, KindQuota, CooldownScopeKey)%Z.
Proof. apply (default_policy_cools_402 DeepSeek). vm_compute. intros H. repeat (inversion H as [|? ? ? H']; subst; clear H; rename H' into H). Defined.

End CooldownPolicy.
