(* ===== verification/Cooldown.v ===== *)
(** * The cooldown clock (src/plugins/providercooldown/cooldown.go, [CooldownState])

    The per-(provider, key) and per-(provider, key, model) cooldown map with
    its lifetime counters, the key-pool filter and the failure marker built on
    it.  Times are nanoseconds.  Every reading of [time.Now] takes the next
    value of a clock, so that a lookup that reads it twice, or a filter that
    looks up many keys, sees time pass in between. *)

From S2P Require Import Prelude GoStrings Schemas CooldownPolicy.
Local Open Scope string_scope.

Module Cooldown.
Import Schemas.
Export CooldownPolicy.

Definition DefaultCooldownTTL : Z := 5 * Minute.

Definition kindIndex (k : Kind) : nat :=
  if String.eqb k KindRateLimit then 0 else if String.eqb k KindQuota then 1 else 2.

Record CooldownRecord := mkRecord { expiresAt : Z; kind : Kind }.

Record KindCounters := mkCounters { MarkCount : Z; SuppressedCount : Z }.

Record ProviderKindCounters := mkPKC { pk_RateLimit : KindCounters; pk_Quota : KindCounters }.

Definition zeroCounters : KindCounters := mkCounters 0 0.
Definition zeroPKC : ProviderKindCounters := mkPKC zeroCounters zeroCounters.

Record CooldownState := mkState {
  cooldowns : gmap string CooldownRecord;
  ttl : Z;
  ttlOverrides : gmap ModelProvider Z;
  markCount : Z;
  suppressedCount : Z;
  markByKind : list Z;
  suppressedByKind : list Z;
  perProvider : gmap ModelProvider ProviderKindCounters;
  perProviderModel : gmap string ProviderKindCounters;
  perProviderScopeKey : gmap ModelProvider ProviderKindCounters;
  perProviderScopeModel : gmap ModelProvider ProviderKindCounters }.

Definition NewCooldownState (t : Z) : CooldownState :=
  mkState ∅ (if bool_decide (t <= 0)%Z then DefaultCooldownTTL else t) ∅ 0 0 [0; 0; 0]%Z [0; 0; 0]%Z ∅ ∅ ∅ ∅.

Definition with_cooldowns (c : CooldownState) (m : gmap string CooldownRecord) : CooldownState :=
  mkState m (ttl c) (ttlOverrides c) (markCount c) (suppressedCount c) (markByKind c) (suppressedByKind c)
    (perProvider c) (perProviderModel c) (perProviderScopeKey c) (perProviderScopeModel c).

Definition SetTTLOverride (c : CooldownState) (provider : ModelProvider) (t : Z) : CooldownState :=
  if bool_decide (t <= 0)%Z then c
  else mkState (cooldowns c) (ttl c) (<[provider := t]> (ttlOverrides c)) (markCount c) (suppressedCount c)
         (markByKind c) (suppressedByKind c) (perProvider c) (perProviderModel c)
         (perProviderScopeKey c) (perProviderScopeModel c).

(** ** Storage keys *)

(** [(c *CooldownState) key]. *)
Definition keyOf (provider : ModelProvider) (keyID : string) : string :=
  provider +:+ ("::" +:+ (keyID +:+ "::")).

Definition keyModel (provider : ModelProvider) (keyID model : string) : string :=
  if IsKeylessProvider provider then provider +:+ ("::" +:+ model)
  else provider +:+ ("::" +:+ (keyID +:+ ("::" +:+ model))).

Definition markKey (provider : ModelProvider) (keyID model : string) (scope : Scope) : string :=
  if String.eqb (OrDefault scope) CooldownScopeModel then keyModel provider keyID model
  else keyOf provider keyID.

Definition parseCooldownKey (k : string) : string * string * string :=
  match LastIndex k "::" with
  | None => ("", "", "")
  | Some last =>
      let head := str_take last k in
      let model := str_drop (last + 2) k in
      match Index head "::" with
      | None => (head, "", model)
      | Some first => (str_take first head, str_drop (first + 2) head, model)
      end
  end.

Definition effectiveTTLLocked (c : CooldownState) (provider : ModelProvider) : Z :=
  default (ttl c) (ttlOverrides c !! provider).

Definition EffectiveTTL (c : CooldownState) (provider : ModelProvider) : Z := effectiveTTLLocked c provider.

(** ** Counters *)

Definition inc (x : Z) : Z := wrapu64 (x + 1).

Definition incMark (p : KindCounters) : KindCounters := mkCounters (inc (MarkCount p)) (SuppressedCount p).
Definition incSuppressed (p : KindCounters) : KindCounters := mkCounters (MarkCount p) (inc (SuppressedCount p)).

(** [perProviderMarkLocked(p).<kind>.<counter>++], and its per-model and
    per-scope forms: the entry is made on demand, and only for a known kind. *)
Definition bumpIn `{Countable K} (f : KindCounters -> KindCounters) (m : gmap K ProviderKindCounters) (p : K)
    (k : Kind) : gmap K ProviderKindCounters :=
  let pc := default zeroPKC (m !! p) in
  if String.eqb k KindRateLimit then <[p := mkPKC (f (pk_RateLimit pc)) (pk_Quota pc)]> m
  else if String.eqb k KindQuota then <[p := mkPKC (pk_RateLimit pc) (f (pk_Quota pc))]> m
  else m.

(** The counters of one event: the provider's, and those of its scope.
    [f] counts a mark or a suppression. *)
Definition attribute (f : KindCounters -> KindCounters) (c : CooldownState) (provider : ModelProvider)
    (model : string) (k : Kind) (modelScope : bool) : CooldownState :=
  mkState (cooldowns c) (ttl c) (ttlOverrides c) (markCount c) (suppressedCount c) (markByKind c)
    (suppressedByKind c)
    (bumpIn f (perProvider c) provider k)
    (if modelScope then bumpIn f (perProviderModel c) (provider +:+ ("::" +:+ model)) k else perProviderModel c)
    (if modelScope then perProviderScopeKey c else bumpIn f (perProviderScopeKey c) provider k)
    (if modelScope then bumpIn f (perProviderScopeModel c) provider k else perProviderScopeModel c).

Definition countMark (c : CooldownState) (k : Kind) : CooldownState :=
  mkState (cooldowns c) (ttl c) (ttlOverrides c) (inc (markCount c)) (suppressedCount c)
    (alter inc (kindIndex k) (markByKind c)) (suppressedByKind c)
    (perProvider c) (perProviderModel c) (perProviderScopeKey c) (perProviderScopeModel c).

(** [suppressedCount.Add(1)], and [suppressedByKind] for a classified mark. *)
Definition countSuppressed (c : CooldownState) (k : Kind) : CooldownState :=
  mkState (cooldowns c) (ttl c) (ttlOverrides c) (markCount c) (inc (suppressedCount c))
    (markByKind c)
    (if String.eqb k "" then suppressedByKind c else alter inc (kindIndex k) (suppressedByKind c))
    (perProvider c) (perProviderModel c) (perProviderScopeKey c) (perProviderScopeModel c).

(** ** The clock *)

(** A computation on the state and the clock: the next reading has the index
    in the second component. *)
Definition M (A : Type) : Type := CooldownState * nat -> A * (CooldownState * nat).

#[global] Instance M_ret : MRet M := fun _ a w => (a, w).
#[global] Instance M_bind : MBind M := fun _ _ f m w => let '(a, w') := m w in f a w'.

Definition getState : M CooldownState := fun w => (w.1, w).
Definition modify (f : CooldownState -> CooldownState) : M unit := fun w => (tt, (f w.1, w.2)).

Section clocked.
Context (clock : nat -> Z).

Definition now : M Z := fun w => (clock w.2, (w.1, S w.2)).

(** ** Lookups *)

(** Whether the key may be looked up at all: an empty key ID is only legal for
    a keyless provider. *)
Definition legalKey (provider : ModelProvider) (keyID : string) : bool :=
  negb (String.eqb keyID "" && negb (IsKeylessProvider provider)).

(** The second half of [lookupCooldown], on the record found: an expired one
    is deleted if it is still expired at a second reading. *)
Definition pruneExpired (k : string) (rec : CooldownRecord) : M unit :=
  t ← now;
  if bool_decide (t < expiresAt rec)%Z then mret tt
  else modify (fun c => with_cooldowns c (delete k (cooldowns c))).

Definition lookupCooldown (provider : ModelProvider) (keyID model : string) (scope : Scope) :
    M (option (Z * Kind)) :=
  if negb (legalKey provider keyID) then mret None
  else if String.eqb (OrDefault scope) CooldownScopeModel && String.eqb model "" then mret None
  else
    let k := markKey provider keyID model scope in
    t ← now;
    c ← getState;
    match cooldowns c !! k with
    | None => mret None
    | Some rec =>
        if bool_decide (t < expiresAt rec)%Z then mret (Some (expiresAt rec, kind rec))
        else pruneExpired k rec ≫= fun _ => mret None
    end.

Definition IsCoolingDown (provider : ModelProvider) (keyID : string) : M bool :=
  r ← lookupCooldown provider keyID "" CooldownScopeKey; mret (bool_decide (is_Some r)).

Definition IsCoolingDownForModel (provider : ModelProvider) (keyID model : string) : M bool :=
  r ← lookupCooldown provider keyID model CooldownScopeModel; mret (bool_decide (is_Some r)).

Definition lookupSuppressed (provider : ModelProvider) (keyID model : string) : M (option (Z * Kind * Scope)) :=
  r ← lookupCooldown provider keyID "" CooldownScopeKey;
  match r with
  | Some (t, k) => mret (Some (t, k, CooldownScopeKey))
  | None =>
      if String.eqb model "" then mret None
      else
        r ← lookupCooldown provider keyID model CooldownScopeModel;
        mret (match r with Some (t, k) => Some (t, k, CooldownScopeModel) | None => None end)
  end.

(** ** Retry hints *)

(** [t.Sub(u)], which saturates at the range of a [Duration]. *)
Definition timeSub (t u : Z) : Z := Z.max (- two63) (Z.min (two63 - 1) (t - u)).

Fixpoint shortestLoop (nowT : Z) (provider : ModelProvider) (model : string) (keys : list Key)
    (shortest : option Z) : M (option Z) :=
  match keys with
  | [] => mret shortest
  | k :: keys =>
      r ← lookupSuppressed provider (k_ID k) model;
      shortestLoop nowT provider model keys
        (match r with
         | None => shortest
         | Some (expires, _, _) =>
             let remaining := Z.max 0 (timeSub expires nowT) in
             match shortest with
             | Some s => if bool_decide (remaining < s)%Z then Some remaining else shortest
             | None => Some remaining
             end
         end)
  end.

Definition ShortestRemainingCooldown (provider : ModelProvider) (model : string) (keys : list Key) : M Z :=
  t ← now;
  s ← shortestLoop t provider model keys None;
  mret (default 0%Z s).

Definition retryAfterSecondsHint (remaining : Z) : Z :=
  if bool_decide (remaining <= 0)%Z then 0
  else
    let secs := Z.quot remaining Second in
    let secs := if bool_decide (Z.rem remaining Second <> 0)%Z then (secs + 1)%Z else secs in
    if bool_decide (secs < 1)%Z then 1 else secs.

(** ** Marking *)

Definition MarkWithTTL (provider : ModelProvider) (keyID model : string) (t : Z) (k : Kind) (scope : Scope) : M unit :=
  let modelScope := String.eqb (OrDefault scope) CooldownScopeModel in
  if negb (legalKey provider keyID) then mret tt
  else if modelScope && String.eqb model "" then mret tt
  else
    c ← getState;
    let effective := if bool_decide (t <= 0)%Z then effectiveTTLLocked c provider else t in
    at_ ← now;
    modify (fun c =>
      let c := with_cooldowns c
                 (<[markKey provider keyID model scope := mkRecord (at_ + effective) k]> (cooldowns c)) in
      countMark (attribute incMark c provider model k modelScope) k).

Definition Mark (provider : ModelProvider) (keyID : string) : M unit :=
  MarkWithTTL provider keyID "" 0 "" CooldownScopeKey.

(** ** Management *)

Definition Size (c : CooldownState) : Z := Z.of_nat (size (cooldowns c)).

Record CooldownEntry := mkEntry {
  ce_Provider : ModelProvider; ce_KeyID : string; ce_Model : string;
  ce_ExpiresAt : Z; ce_Remaining : Z; ce_Kind : Kind }.

(** [Snapshot]; the order of the result is that of the map, which Go leaves
    open. *)
Definition snapshotEntry (t : Z) (p : string * CooldownRecord) : option CooldownEntry :=
  let '(k, rec) := p in
  if negb (bool_decide (t < expiresAt rec)%Z) then None
  else
    let '(prov, keyID, model) := parseCooldownKey k in
    if String.eqb prov "" then None
    else Some (mkEntry prov keyID model (expiresAt rec) (timeSub (expiresAt rec) t) (kind rec)).

Definition Snapshot : M (list CooldownEntry) :=
  t ← now; c ← getState; mret (omap (snapshotEntry t) (map_to_list (cooldowns c))).

Definition ClearKey (provider : ModelProvider) (keyID model : string) : M bool :=
  if String.eqb keyID "" then mret false
  else
    c ← getState;
    let k := if String.eqb model "" then keyOf provider keyID else keyModel provider keyID model in
    match cooldowns c !! k with
    | None => mret false
    | Some _ => modify (fun c => with_cooldowns c (delete k (cooldowns c))) ≫= fun _ => mret true
    end.

Record CooldownStats := mkStats {
  st_MarkCount : Z; st_SuppressedCount : Z; st_CurrentActiveCount : Z;
  st_ByKind_RateLimit : KindCounters; st_ByKind_Quota : KindCounters;
  st_PerProvider : gmap ModelProvider ProviderKindCounters;
  st_PerProviderModel : gmap string ProviderKindCounters;
  st_PerProviderScopeKey : gmap ModelProvider ProviderKindCounters;
  st_PerProviderScopeModel : gmap ModelProvider ProviderKindCounters }.

Definition byKind (c : CooldownState) (k : Kind) : KindCounters :=
  mkCounters (default 0%Z (markByKind c !! kindIndex k)) (default 0%Z (suppressedByKind c !! kindIndex k)).

Definition Stats (c : CooldownState) : CooldownStats :=
  mkStats (markCount c) (suppressedCount c) (Size c) (byKind c KindRateLimit) (byKind c KindQuota)
    (perProvider c) (perProviderModel c) (perProviderScopeKey c) (perProviderScopeModel c).

(** One tick of [runGCLocked]. *)
Definition gcTick : M unit :=
  t ← now;
  modify (fun c => with_cooldowns c (filter (fun p => (t < expiresAt p.2)%Z) (cooldowns c))).

(** ** The key-pool filter *)

Definition suppressOne (c : CooldownState) (provider : ModelProvider) (model : string) (k : Kind) (scope : Scope) :
    CooldownState :=
  let c := countSuppressed c k in
  if String.eqb k "" then c
  else attribute incSuppressed c provider model k
         (String.eqb scope CooldownScopeModel && negb (String.eqb model "")).

Fixpoint filterLoop (provider : ModelProvider) (model : string) (keys : list Key) : M (list Key) :=
  match keys with
  | [] => mret []
  | k :: keys =>
      r ← lookupSuppressed provider (k_ID k) model;
      match r with
      | None => out ← filterLoop provider model keys; mret (k :: out)
      | Some (_, kd, scope) =>
          modify (fun c => suppressOne c provider model kd scope) ≫= fun _ =>
          filterLoop provider model keys
      end
  end.

(** [AsFilter]: the keys left, and the retry hint stamped on the context (when
    there is one) if no key is left.  The filter never returns an error. *)
Definition AsFilter (hasCtx : bool) (provider : ModelProvider) (model : string) (keys : list Key) :
    M (list Key * option Z) :=
  match keys with
  | [] => mret ([], None)
  | _ =>
      out ← filterLoop provider model keys;
      if bool_decide (out = []) && hasCtx then
        rem ← ShortestRemainingCooldown provider model keys;
        mret (out, if bool_decide (0 < rem)%Z then Some (retryAfterSecondsHint rem) else None)
      else mret (out, None)
  end.

(** ** The failure marker *)

Definition classifyForMarker (stamped : option Policy) (provider : ModelProvider) (keyID : string)
    (err : option BifrostError) : option (Z * Kind * Scope) :=
  if negb (legalKey provider keyID) then None
  else classify (ResolveCooldownPolicy provider stamped) err.

Definition AsMarker (stamped : option Policy) (provider : ModelProvider) (keyID model : string)
    (err : option BifrostError) : M unit :=
  match classifyForMarker stamped provider keyID err with
  | None => mret tt
  | Some (t, k, scope) => MarkWithTTL provider keyID model t k scope
  end.

End clocked.

(** Runs the clock monad's operations. *)
Ltac run := cbv beta iota zeta delta [mbind M_bind mret M_ret now getState modify fst snd].

End Cooldown.
