(* ===== verification/CooldownTheory.v ===== *)
(** * The cooldown clock: theorems

    Storage keys round-trip; the counters of a provider are the sum of those of
    its two scopes; the filter drops the keys that stay on cooldown and keeps
    the keys that are not, whenever the clock moves forward during the call;
    and the retry hint it stamps is honest as long as no key is marked at both
    granularities. *)

From S2P Require Import Prelude GoStrings Schemas CooldownPolicy Cooldown.
Local Open Scope string_scope.

Module CooldownProofs.
Import Schemas Cooldown.

(** ** Storage keys *)

(** [parseCooldownKey] reverses [markKey] for a provider name and a model
    name that contain no double colon and do not put a colon next to the
    separator: the entry the monitoring API shows is the one that was marked
    (a keyless provider's model-level entry carries no key). *)
Theorem parse_markKey (provider : ModelProvider) (keyID model : string) (scope : Scope) :
  Contains (provider +:+ ":") "::" = false -> Contains (":" +:+ model) "::" = false ->
  parseCooldownKey (markKey provider keyID model scope) =
    if String.eqb (OrDefault scope) CooldownScopeModel
    then (provider, if IsKeylessProvider provider then "" else keyID, model)
    else (provider, keyID, "").
Proof.
  intros Hp Hm. unfold parseCooldownKey, markKey, keyModel, keyOf.
  assert (forall id m, Contains (":" +:+ m) "::" = false ->
            (match LastIndex (provider +:+ ("::" +:+ (id +:+ ("::" +:+ m)))) "::" with
             | None => ("", "", "")
             | Some last =>
                 let k := provider +:+ ("::" +:+ (id +:+ ("::" +:+ m))) in
                 let head := str_take last k in
                 let model := str_drop (last + 2) k in
                 match Index head "::" with
                 | None => (head, "", model)
                 | Some first => (str_take first head, str_drop (first + 2) head, model)
                 end
             end) = (provider, id, m)) as Hfull.
  { intros id m Hm'.
    replace (provider +:+ ("::" +:+ (id +:+ ("::" +:+ m))))
      with ((provider +:+ ("::" +:+ id)) +:+ ("::" +:+ m)) by (by rewrite !str_app_assoc).
    rewrite LastIndex_sep by done. cbn zeta. rewrite str_take_app, str_drop_app_plus.
    rewrite Index_sep by done. by rewrite str_take_app, str_drop_app_plus. }
  destruct (String.eqb (OrDefault scope) CooldownScopeModel).
  - destruct (IsKeylessProvider provider) eqn:Hkl; [|by apply Hfull].
    rewrite LastIndex_sep by done. rewrite str_take_app, str_drop_app_plus.
    assert (Index provider "::" = None) as ->; [|done].
    unfold IsKeylessProvider in Hkl. apply bool_decide_eq_true in Hkl.
    apply list_elem_of_singleton in Hkl as ->. reflexivity.
  - by apply (Hfull keyID "").
Qed.

Lemma parse_markKey_witness :
  parseCooldownKey (markKey "openai" "key:1" "gpt-4o" "model") = ("openai", "key:1", "gpt-4o").
Proof. apply (parse_markKey "openai" "key:1" "gpt-4o" "model"); reflexivity. Defined.

(** ** Counters *)

Definition pkc_sum (a b : ProviderKindCounters) : ProviderKindCounters :=
  let s f := wrapu64 (f a + f b)%Z in
  mkPKC (mkCounters (s (fun p => MarkCount (pk_RateLimit p))) (s (fun p => SuppressedCount (pk_RateLimit p))))
        (mkCounters (s (fun p => MarkCount (pk_Quota p))) (s (fun p => SuppressedCount (pk_Quota p)))).

(** The counters of a provider, zero when it has no entry. *)
Definition countersOf (m : gmap ModelProvider ProviderKindCounters) (p : ModelProvider) : ProviderKindCounters :=
  default zeroPKC (m !! p).

Definition counts_ok (c : CooldownState) : Prop :=
  forall p, countersOf (perProvider c) p
            = pkc_sum (countersOf (perProviderScopeKey c) p) (countersOf (perProviderScopeModel c) p).

(** The effect of [bumpIn] on one provider's counters. *)
Definition bumpPKC (f : KindCounters -> KindCounters) (k : Kind) (pc : ProviderKindCounters) : ProviderKindCounters :=
  if String.eqb k KindRateLimit then mkPKC (f (pk_RateLimit pc)) (pk_Quota pc)
  else if String.eqb k KindQuota then mkPKC (pk_RateLimit pc) (f (pk_Quota pc))
  else pc.

Lemma countersOf_bumpIn f (m : gmap ModelProvider ProviderKindCounters) p q k :
  countersOf (bumpIn f m p k) q = if decide (q = p) then bumpPKC f k (countersOf m p) else countersOf m q.
Proof.
  unfold bumpIn, bumpPKC, countersOf.
  destruct (String.eqb k KindRateLimit); [|destruct (String.eqb k KindQuota)];
    (destruct (decide (q = p)) as [->|];
     [rewrite ?lookup_insert_eq; done|rewrite ?lookup_insert_ne by done; done]).
Qed.

(** Bumping either summand bumps the sum. *)
Definition bumps_sum (f : KindCounters -> KindCounters) : Prop :=
  forall k a b, bumpPKC f k (pkc_sum a b) = pkc_sum (bumpPKC f k a) b /\
                bumpPKC f k (pkc_sum a b) = pkc_sum a (bumpPKC f k b).

Lemma inc_sum_l x y : inc (wrapu64 (x + y)) = wrapu64 (inc x + y).
Proof. unfold inc. rewrite !wrapu64_add_l. f_equal. lia. Qed.

Lemma inc_sum_r x y : inc (wrapu64 (x + y)) = wrapu64 (x + inc y).
Proof. unfold inc. rewrite wrapu64_add_l, wrapu64_add_r. f_equal. lia. Qed.

Lemma incMark_sum : bumps_sum incMark.
Proof.
  intros k a b. unfold bumpPKC, pkc_sum, incMark. destruct (String.eqb k KindRateLimit), (String.eqb k KindQuota);
    cbn; try done; (split; [by rewrite inc_sum_l|by rewrite inc_sum_r]).
Qed.

Lemma incSuppressed_sum : bumps_sum incSuppressed.
Proof.
  intros k a b. unfold bumpPKC, pkc_sum, incSuppressed. destruct (String.eqb k KindRateLimit), (String.eqb k KindQuota);
    cbn; try done; (split; [by rewrite inc_sum_l|by rewrite inc_sum_r]).
Qed.

Lemma attribute_counts f c p model k ms : bumps_sum f -> counts_ok c -> counts_ok (attribute f c p model k ms).
Proof.
  intros Hf Hc q. unfold attribute. cbn. specialize (Hc q).
  destruct ms; rewrite !countersOf_bumpIn; destruct (decide (q = p)) as [->|]; try done; rewrite Hc; apply Hf.
Qed.

(** The counters two states share. *)
Definition same_counts (c c' : CooldownState) : Prop :=
  perProvider c = perProvider c' /\ perProviderScopeKey c = perProviderScopeKey c' /\
  perProviderScopeModel c = perProviderScopeModel c'.

Lemma same_counts_ok c c' : same_counts c c' -> counts_ok c -> counts_ok c'.
Proof. intros (H1 & H2 & H3) Hc p. rewrite <-H1, <-H2, <-H3. apply Hc. Qed.

Lemma suppressOne_counts c p model k scope : counts_ok c -> counts_ok (suppressOne c p model k scope).
Proof.
  intros Hc. unfold suppressOne. destruct (String.eqb k ""); [by apply (same_counts_ok c)|].
  apply attribute_counts; [apply incSuppressed_sum|]. by apply (same_counts_ok c).
Qed.

(** ** Activity of entries over time *)

Definition active (c : CooldownState) (t : Z) (k : string) : bool :=
  match cooldowns c !! k with Some rec => bool_decide (t < expiresAt rec)%Z | None => false end.

(** Whether a key is on cooldown for a request of a model at time [t]. *)
Definition suppressed_at (c : CooldownState) (t : Z) (provider : ModelProvider) (keyID model : string) : bool :=
  legalKey provider keyID &&
  (active c t (keyOf provider keyID) ||
   (negb (String.eqb model "") && active c t (keyModel provider keyID model))).

(** [c'] is [c] without some entries that have expired by time [t]. *)
Definition shrinks (t : Z) (c c' : CooldownState) : Prop :=
  forall k, cooldowns c' !! k = cooldowns c !! k \/
            (cooldowns c' !! k = None /\ exists rec, cooldowns c !! k = Some rec /\ (expiresAt rec <= t)%Z).

Lemma shrinks_refl t c : shrinks t c c.
Proof. by left. Qed.

Lemma shrinks_trans t t' c c' c'' : (t <= t')%Z -> shrinks t c c' -> shrinks t' c' c'' -> shrinks t' c c''.
Proof.
  intros Hle H1 H2 k. destruct (H1 k) as [E1|(E1 & rec & Hr & He)]; destruct (H2 k) as [E2|(E2 & rec2 & Hr2 & He2)].
  - left. congruence.
  - right. split; [done|]. exists rec2. split; [congruence|done].
  - right. split; [congruence|]. exists rec. split; [done|lia].
  - congruence.
Qed.

Lemma shrinks_active t c c' t' k : shrinks t c c' -> (t <= t')%Z -> active c' t' k = active c t' k.
Proof.
  intros Hs Ht. unfold active. destruct (Hs k) as [->|(-> & rec & -> & He)]; [done|].
  rewrite bool_decide_eq_false_2 by lia. done.
Qed.

Lemma shrinks_active_sub t c c' t' k : shrinks t c c' -> active c' t' k = true -> active c t' k = true.
Proof. intros Hs. unfold active. by destruct (Hs k) as [->|(-> & _)]. Qed.

Lemma active_lookup c t k rec : cooldowns c !! k = Some rec -> active c t k = bool_decide (t < expiresAt rec)%Z.
Proof. unfold active. by intros ->. Qed.

Lemma active_antitone c t t' k : (t <= t')%Z -> active c t' k = true -> active c t k = true.
Proof. unfold active. destruct (cooldowns c !! k); [|done]. rewrite !bool_decide_eq_true. lia. Qed.

Lemma suppressed_at_shrinks t c c' t' p id m : shrinks t c c' -> (t <= t')%Z ->
  suppressed_at c' t' p id m = suppressed_at c t' p id m.
Proof. intros Hs Ht. unfold suppressed_at. by rewrite !(shrinks_active t c c' t'). Qed.

Lemma suppressed_at_antitone c t t' p id m : (t <= t')%Z ->
  suppressed_at c t' p id m = true -> suppressed_at c t p id m = true.
Proof.
  intros Ht. unfold suppressed_at. rewrite !andb_true_iff, !orb_true_iff, !andb_true_iff.
  intros [Hl [H|[Hm H]]]; split; try done; [left|right; split; [done|]]; by eapply active_antitone.
Qed.

Lemma suppressed_at_sub t c c' t' p id m : shrinks t c c' ->
  suppressed_at c' t' p id m = true -> suppressed_at c t' p id m = true.
Proof.
  intros Hs. unfold suppressed_at. rewrite !andb_true_iff, !orb_true_iff, !andb_true_iff.
  intros [Hl [H|[Hm H]]]; split; try done; [left|right; split; [done|]]; by eapply shrinks_active_sub.
Qed.

(** ** Lookups under a forward-moving clock *)

Section clocked.
Context (clock : nat -> Z) (Hmono : forall i j, (i <= j)%nat -> (clock i <= clock j)%Z).

Definition askable (p : ModelProvider) (id m : string) (scope : Scope) : bool :=
  legalKey p id && negb (String.eqb (OrDefault scope) CooldownScopeModel && String.eqb m "").

(** Conjunctions whose parts are immediate for an unchanged state. *)
Ltac unchanged := split_and!; try first [done | lia | by apply shrinks_refl | by intros []].

Lemma lookupCooldown_spec p id m scope c n r c' n' :
  lookupCooldown clock p id m scope (c, n) = (r, (c', n')) ->
  (n <= n')%nat /\ shrinks (clock n') c c' /\ same_counts c c' /\
  (is_Some r -> askable p id m scope = true /\ active c (clock n) (markKey p id m scope) = true) /\
  (askable p id m scope = true -> active c (clock n') (markKey p id m scope) = true -> is_Some r) /\
  (forall e k, r = Some (e, k) -> exists rec, cooldowns c !! markKey p id m scope = Some rec /\ e = expiresAt rec).
Proof.
  unfold lookupCooldown, askable, active.
  destruct (legalKey p id); cbn [negb andb];
    [|by intros [= <- <- <-]; unchanged].
  destruct (String.eqb (OrDefault scope) CooldownScopeModel && String.eqb m "");
    [by intros [= <- <- <-]; unchanged|].
  run. destruct (cooldowns c !! markKey p id m scope) as [rec|] eqn:Hk; last first.
  { intros [= <- <- <-]. by unchanged. }
  case_bool_decide as Ht.
  { intros [= <- <- <-]. unchanged. intros ? ? [= <- <-]. eauto. }
  pose proof (Hmono n (S (S n)) ltac:(lia)). pose proof (Hmono (S n) (S (S n)) ltac:(lia)).
  unfold pruneExpired. run. case_bool_decide as Ht2; intros [= <- <- <-].
  - unchanged. intros _. rewrite bool_decide_eq_true. lia.
  - unchanged.
    + intros k. cbn. destruct (decide (k = markKey p id m scope)) as [->|].
      * right. rewrite lookup_delete_eq. split; [done|]. exists rec. split; [done|lia].
      * left. by rewrite lookup_delete_ne.
    + intros _. rewrite bool_decide_eq_true. lia.
Qed.

Lemma markKey_key p id : markKey p id "" CooldownScopeKey = keyOf p id.
Proof. done. Qed.

Lemma markKey_model p id m : markKey p id m CooldownScopeModel = keyModel p id m.
Proof. done. Qed.

(** The entry whose expiry a lookup returned. *)
Definition entry_of (c : CooldownState) (p : ModelProvider) (id m : string) (e : Z) (scope : Scope) : Prop :=
  exists rec, expiresAt rec = e /\
    ((scope = CooldownScopeKey /\ cooldowns c !! keyOf p id = Some rec) \/
     (scope = CooldownScopeModel /\ m <> "" /\ cooldowns c !! keyModel p id m = Some rec)).

Lemma lookupSuppressed_spec p id m c n r c' n' :
  lookupSuppressed clock p id m (c, n) = (r, (c', n')) ->
  (n <= n')%nat /\ shrinks (clock n') c c' /\ same_counts c c' /\
  (is_Some r -> suppressed_at c (clock n) p id m = true) /\
  (suppressed_at c (clock n') p id m = true -> is_Some r) /\
  (forall e k scope, r = Some (e, k, scope) -> entry_of c p id m e scope /\ (clock n < e)%Z /\
     (scope = CooldownScopeModel -> active c (clock n') (keyOf p id) = false)).
Proof.
  unfold lookupSuppressed. run.
  destruct (lookupCooldown clock p id "" CooldownScopeKey (c, n)) as [r1 [c1 n1]] eqn:H1.
  apply lookupCooldown_spec in H1 as (Hn1 & Hs1 & Hc1 & Hd1 & Hu1 & He1). rewrite markKey_key in *.
  unfold askable in *. cbn [andb negb] in *. rewrite andb_true_r in *.
  destruct r1 as [[e1 k1]|].
  { intros [= <- <- <-]. destruct (Hd1 ltac:(eauto)) as [Hl Ha].
    split_and!; try done.
    - intros _. unfold suppressed_at. by rewrite Hl, Ha.
    - intros e k sc [= <- <- <-]. destruct (He1 e1 k1 eq_refl) as (rec & Hrec & ->).
      split_and!; [|by rewrite (active_lookup _ _ _ _ Hrec) in Ha; apply bool_decide_eq_true in Ha|done].
      exists rec. split; [done|]. by left. }
  assert (legalKey p id = true -> active c (clock n1) (keyOf p id) = false) as Hna.
  { intros Hl. destruct (active c (clock n1) (keyOf p id)) eqn:Ha; [|done].
    by destruct (Hu1 Hl eq_refl). }
  destruct (String.eqb_spec m "") as [->|Hm].
  { intros [= <- <- <-]. unchanged.
    unfold suppressed_at. cbn. rewrite orb_false_r, andb_true_iff. intros [Hl Ha]. by rewrite Hna in Ha. }
  destruct (lookupCooldown clock p id m CooldownScopeModel (c1, n1)) as [r2 [c2 n2]] eqn:H2.
  apply lookupCooldown_spec in H2 as (Hn2 & Hs2 & Hc2 & Hd2 & Hu2 & He2). rewrite markKey_model in *.
  pose proof (Hmono n n1 Hn1) as Ht1. pose proof (Hmono n1 n2 Hn2) as Ht2.
  unfold askable in *. rewrite (proj2 (String.eqb_neq m "") Hm) in *. cbn [andb negb] in *.
  rewrite ?andb_false_r in *. cbn [negb] in *. rewrite andb_true_r in *.
  intros [= <- <- <-]. split_and!.
  - lia.
  - by eapply shrinks_trans.
  - destruct Hc1 as (? & ? & ?), Hc2 as (? & ? & ?). split_and!; congruence.
  - intros Hr. assert (is_Some r2) as Hr2 by (destruct r2; [eauto|by destruct Hr]).
    destruct (Hd2 Hr2) as [Hl Ha]. unfold suppressed_at. rewrite Hl, (proj2 (String.eqb_neq m "") Hm).
    rewrite (active_antitone c (clock n) (clock n1) (keyModel p id m)); [by destruct (active _ _ _)|done|].
    by eapply shrinks_active_sub.
  - unfold suppressed_at. rewrite (proj2 (String.eqb_neq m "") Hm). cbn [negb andb].
    rewrite andb_true_iff, orb_true_iff. intros [Hl [Ha|Ha]].
    + apply (active_antitone c (clock n1) (clock n2)) in Ha; [|done]. by rewrite Hna in Ha.
    + destruct (Hu2 Hl) as [[e k] ->]; [|eauto]. by rewrite (shrinks_active (clock n1) c c1).
  - intros e k sc Hr. destruct r2 as [[e2 k2]|]; [|done]. injection Hr as <- <- <-.
    destruct (Hd2 ltac:(eauto)) as [Hl Ha2].
    destruct (He2 e2 k2 eq_refl) as (rec & Hrec & ->). split_and!.
    + exists rec. split; [done|]. right. split_and!; try done.
      destruct (Hs1 (keyModel p id m)) as [<-|(E & _)]; [done|]. congruence.
    + rewrite (active_lookup _ _ _ _ Hrec) in Ha2. apply bool_decide_eq_true in Ha2. lia.
    + intros _. destruct (active c (clock n2) (keyOf p id)) eqn:Ha; [|done].
      apply (active_antitone c (clock n1) (clock n2)) in Ha; [|done]. by rewrite Hna in Ha.
Qed.

(** ** The filter *)

Lemma suppressOne_cooldowns c p m k sc : cooldowns (suppressOne c p m k sc) = cooldowns c.
Proof. unfold suppressOne. by destruct (String.eqb k ""). Qed.

Lemma shrinks_cooldowns t c c' c'' : cooldowns c' = cooldowns c'' -> shrinks t c c' -> shrinks t c c''.
Proof. intros E Hs k. rewrite <-E. apply Hs. Qed.

Lemma filterLoop_spec p m keys c n out c' n' :
  filterLoop clock p m keys (c, n) = (out, (c', n')) ->
  (n <= n')%nat /\ shrinks (clock n') c c' /\ (counts_ok c -> counts_ok c') /\
  out `sublist_of` keys /\
  Forall (fun k => suppressed_at c (clock n') p (k_ID k) m = false) out /\
  (forall k, k ∈ keys -> suppressed_at c (clock n) p (k_ID k) m = false -> k ∈ out).
Proof.
  revert c n out c' n'. induction keys as [|k keys IH]; intros c n out c' n'; cbn [filterLoop]; run.
  { intros [= <- <- <-]. by unchanged. }
  destruct (lookupSuppressed clock p (k_ID k) m (c, n)) as [r [c1 n1]] eqn:H1.
  apply lookupSuppressed_spec in H1 as (Hn1 & Hs1 & Hc1 & Hd1 & Hu1 & _).
  pose proof (Hmono n n1 Hn1) as Ht1.
  (* the rest of the loop, from a state with the same entries as [c1] *)
  assert (forall c2 out2 c3 n3, cooldowns c1 = cooldowns c2 -> (counts_ok c -> counts_ok c2) ->
            filterLoop clock p m keys (c2, n1) = (out2, (c3, n3)) ->
            (n <= n3)%nat /\ (n1 <= n3)%nat /\ shrinks (clock n3) c c3 /\ (counts_ok c -> counts_ok c3) /\
            out2 `sublist_of` keys /\
            Forall (fun k => suppressed_at c (clock n3) p (k_ID k) m = false) out2 /\
            (forall k, k ∈ keys -> suppressed_at c (clock n) p (k_ID k) m = false -> k ∈ out2)) as Hrest.
  { intros c2 out2 c3 n3 Ecd Hcnt Hloop. apply IH in Hloop as (Hn2 & Hs2 & Hc2 & Hsub & Hdrop & Hkeep).
    pose proof (Hmono n1 n3 Hn2) as Ht2.
    pose proof (shrinks_cooldowns _ _ _ _ Ecd Hs1) as Hs1'.
    split_and!; try done; [lia|by eapply shrinks_trans|auto| |].
    - eapply Forall_impl; [exact Hdrop|]. intros x Hx. cbn in Hx.
      by rewrite (suppressed_at_shrinks (clock n1) c c2) in Hx.
    - intros x Hx Hsup. apply Hkeep; [done|].
      destruct (suppressed_at c2 (clock n1) p (k_ID x) m) eqn:E; [|done].
      apply (suppressed_at_sub (clock n1) c c2) in E; [|done].
      apply (suppressed_at_antitone c (clock n)) in E; [congruence|done]. }
  destruct r as [[[e kd] sc]|].
  - destruct (filterLoop clock p m keys (suppressOne c1 p m kd sc, n1)) as [out2 [c3 n3]] eqn:Hl.
    intros [= <- <- <-].
    destruct (Hrest _ _ _ _ ltac:(by rewrite suppressOne_cooldowns)
                (fun H => suppressOne_counts _ _ _ _ _ (same_counts_ok _ _ Hc1 H)) Hl)
      as (? & ? & ? & ? & Hsub & ? & Hkeep). split_and!; try done; [by apply sublist_cons|].
    intros x Hx Hsup. apply elem_of_cons in Hx as [->|Hx]; [|auto].
    rewrite Hd1 in Hsup; [done|eauto].
  - destruct (filterLoop clock p m keys (c1, n1)) as [out2 [c3 n3]] eqn:Hl. intros [= <- <- <-].
    destruct (Hrest _ _ _ _ eq_refl (same_counts_ok _ _ Hc1) Hl) as (? & Hn3 & ? & ? & Hsub & Hall & Hkeep).
    split_and!; try done; [by apply sublist_skip| |].
    + constructor; [|done]. destruct (suppressed_at c (clock n3) p (k_ID k) m) eqn:E; [|done].
      apply (suppressed_at_antitone c (clock n1)) in E; [|by apply Hmono].
      by destruct (Hu1 E).
    + intros x Hx Hsup. apply elem_of_cons in Hx as [->|Hx]; [set_solver|]. apply elem_of_cons. auto.
Qed.

(** ** Retry hints *)

Lemma shortestLoop_spec t0 p m keys init c n r c' n' :
  shortestLoop clock t0 p m keys init (c, n) = (r, (c', n')) ->
  (n <= n')%nat /\ shrinks (clock n') c c' /\ same_counts c c' /\
  (r = init \/ exists k e scope, k ∈ keys /\ r = Some (Z.max 0 (timeSub e t0)) /\
     entry_of c p (k_ID k) m e scope /\ (clock n < e)%Z /\
     (scope = CooldownScopeModel -> active c (clock n') (keyOf p (k_ID k)) = false)).
Proof.
  revert init c n r c' n'. induction keys as [|k keys IH]; intros init c n r c' n'; cbn [shortestLoop]; run.
  { intros [= <- <- <-]. unchanged. by left. }
  destruct (lookupSuppressed clock p (k_ID k) m (c, n)) as [r1 [c1 n1]] eqn:H1.
  apply lookupSuppressed_spec in H1 as (Hn1 & Hs1 & Hc1 & _ & _ & He1).
  intros Hloop. apply IH in Hloop as (Hn2 & Hs2 & Hc2 & Hr).
  pose proof (Hmono n n1 Hn1) as Ht1. pose proof (Hmono n1 n' Hn2) as Ht2.
  split_and!; [lia|by eapply shrinks_trans|destruct Hc1 as (? & ? & ?), Hc2 as (? & ? & ?); split_and!; congruence|].
  destruct Hr as [->|(k' & e & sc & Hk' & -> & Hent & Hlt & Hina)].
  - destruct r1 as [[[e1 kd1] sc1]|]; [|by left].
    destruct (He1 e1 kd1 sc1 eq_refl) as (Hent & Hlt & Hina).
    assert (exists k' e scope, k' ∈ k :: keys /\
              Some (Z.max 0 (timeSub e1 t0)) = Some (Z.max 0 (timeSub e t0)) /\
              entry_of c p (k_ID k') m e scope /\ (clock n < e)%Z /\
              (scope = CooldownScopeModel -> active c (clock n') (keyOf p (k_ID k')) = false)) as Hgood.
    { exists k, e1, sc1. split_and!; try done; [set_solver|]. intros Hsc. specialize (Hina Hsc).
      destruct (active c (clock n') (keyOf p (k_ID k))) eqn:E; [|done].
      apply (active_antitone c (clock n1)) in E; [congruence|done]. }
    destruct init as [s|]; [|by right]. case_bool_decide; [by right|by left].
  - right. exists k', e, sc. split_and!; try done; [set_solver| |lia|].
    + destruct Hent as (rec & He & [(Hsc & Hk)|(Hsc & Hm & Hk)]); exists rec; (split; [done|]).
      * left. split; [done|]. destruct (Hs1 (keyOf p (k_ID k'))) as [<-|(E & _)]; [done|congruence].
      * right. split_and!; try done. destruct (Hs1 (keyModel p (k_ID k') m)) as [<-|(E & _)]; [done|congruence].
    + intros Hsc. rewrite <-(shrinks_active (clock n1) c c1) by done. auto.
Qed.

Lemma hint_ceiling rem : (0 < rem)%Z -> (rem <= retryAfterSecondsHint rem * Second)%Z.
Proof.
  intros Hrem. unfold retryAfterSecondsHint. rewrite bool_decide_eq_false_2 by lia.
  pose proof (Z.quot_rem' rem Second) as Hqr. pose proof (Z.rem_bound_pos rem Second) as Hb.
  pose proof (Z.quot_pos rem Second). unfold Second in *. repeat case_bool_decide; lia.
Qed.

Lemma AsFilter_spec hasCtx p m keys c n out h c' n' :
  AsFilter clock hasCtx p m keys (c, n) = ((out, h), (c', n')) ->
  (n <= n')%nat /\ shrinks (clock n') c c' /\ (counts_ok c -> counts_ok c') /\
  out `sublist_of` keys /\
  Forall (fun k => suppressed_at c (clock n') p (k_ID k) m = false) out /\
  (forall k, k ∈ keys -> suppressed_at c (clock n) p (k_ID k) m = false -> k ∈ out) /\
  (forall s, h = Some s -> exists k e scope, k ∈ keys /\ entry_of c p (k_ID k) m e scope /\ (clock n < e)%Z /\
     (Z.min (two63 - 1) (e - clock n') <= s * Second)%Z /\
     (scope = CooldownScopeModel -> active c (clock n') (keyOf p (k_ID k)) = false)).
Proof.
  unfold AsFilter. destruct keys as [|k0 keys0]; [intros [= <- <- <- <-]; unchanged; constructor|].
  set (keys := k0 :: keys0) in *. run.
  destruct (filterLoop clock p m keys (c, n)) as [out1 [c1 n1]] eqn:Hl.
  apply filterLoop_spec in Hl as (Hn1 & Hs1 & Hc1 & Hsub & Hall & Hkeep).
  destruct (bool_decide (out1 = []) && hasCtx); [|intros [= <- <- <- <-]; by split_and!].
  unfold ShortestRemainingCooldown. run.
  destruct (shortestLoop clock (clock n1) p m keys None (c1, S n1)) as [r [c2 n2]] eqn:Hsh.
  apply shortestLoop_spec in Hsh as (Hn2 & Hs2 & Hc2 & Hr).
  pose proof (Hmono n n1 Hn1) as Ht1. pose proof (Hmono n1 n2 ltac:(lia)) as Ht2.
  pose proof (Hmono n1 (S n1) ltac:(lia)) as Ht3.
  intros [= <- <- <- <-]. split_and!; try done; [lia|by eapply shrinks_trans| | |].
  - intros Hok. eapply same_counts_ok; [exact Hc2|auto].
  - eapply Forall_impl; [exact Hall|]. intros x Hx. cbn in *.
    destruct (suppressed_at c (clock n2) p (k_ID x) m) eqn:E; [|done].
    apply (suppressed_at_antitone c (clock n1)) in E; [congruence|done].
  - intros s. destruct Hr as [->|(k & e & sc & Hk & -> & Hent & Hlt & Hina)]; cbn [default]; [done|].
    case_bool_decide as Hpos; [|done]. intros [= <-]. exists k, e, sc. split_and!; try done.
    + destruct Hent as (rec & He & [(Hsc & Hkk)|(Hsc & Hm & Hkk)]); exists rec; (split; [done|]).
      * left. split; [done|]. destruct (Hs1 (keyOf p (k_ID k))) as [<-|(E & _)]; [done|congruence].
      * right. split_and!; try done. destruct (Hs1 (keyModel p (k_ID k) m)) as [<-|(E & _)]; [done|congruence].
    + lia.
    + pose proof (hint_ceiling _ Hpos) as Hh. unfold id, timeSub, two63 in *. lia.
    + intros Hsc. rewrite <-(shrinks_active (clock n1) c c1) by done. auto.
Qed.

(** C5. The key-pool filter.  Let the clock move forward during the call.  The
    keys returned are some of the keys given, in their order; no key that is
    still on cooldown when the call ends is returned; every key that is not on
    cooldown when the call starts is; and the filter forgets only entries that
    have expired by its end. *)
Theorem AsFilter_sound hasCtx p m keys c n out h c' n' :
  AsFilter clock hasCtx p m keys (c, n) = ((out, h), (c', n')) ->
  out `sublist_of` keys /\
  (forall k, k ∈ out -> suppressed_at c (clock n') p (k_ID k) m = false) /\
  (forall k, k ∈ keys -> suppressed_at c (clock n) p (k_ID k) m = false -> k ∈ out) /\
  (forall t p' id m', (clock n' <= t)%Z -> suppressed_at c' t p' id m' = suppressed_at c t p' id m').
Proof.
  intros Hf. apply AsFilter_spec in Hf as (_ & Hs & _ & Hsub & Hall & Hkeep & _).
  split_and!; try done.
  - intros k Hk. rewrite Forall_forall in Hall. auto.
  - intros t p' id m' Ht. by apply (suppressed_at_shrinks (clock n')).
Qed.

(** A mark puts its key on cooldown until the TTL has passed. *)
Lemma MarkWithTTL_spec p id m t k scope c n u c' n' :
  MarkWithTTL clock p id m t k scope (c, n) = (u, (c', n')) -> (0 < t)%Z -> askable p id m scope = true ->
  n' = S n /\ cooldowns c' = <[markKey p id m scope := mkRecord (clock n + t) k]> (cooldowns c).
Proof.
  unfold MarkWithTTL, askable. intros Hm Ht Hask. apply andb_true_iff in Hask as [Hl Hms].
  rewrite Hl in Hm. cbn [negb] in Hm. apply negb_true_iff in Hms. rewrite Hms in Hm.
  revert Hm. run. rewrite bool_decide_eq_false_2 by lia. intros [= _ <- <-]. done.
Qed.

Lemma mark_drops p id m t k scope c n u c1 n1 hasCtx m' keys n2 out h c' n' key :
  MarkWithTTL clock p id m t k scope (c, n) = (u, (c1, n1)) ->
  (0 < t)%Z -> legalKey p id = true -> (scope = CooldownScopeModel -> m <> "" /\ m' = m) ->
  (n1 <= n2)%nat -> AsFilter clock hasCtx p m' keys (c1, n2) = ((out, h), (c', n')) ->
  (clock n' < clock n + t)%Z -> k_ID key = id -> key ∉ out.
Proof.
  intros Hm Ht Hl Hscope Hn Hf Hend Hid Hin.
  assert (askable p id m scope = true) as Hask.
  { unfold askable. rewrite Hl. cbn [andb]. apply negb_true_iff, andb_false_iff.
    unfold OrDefault. destruct (String.eqb_spec scope CooldownScopeModel) as [->|]; [|by left].
    right. apply String.eqb_neq. by apply Hscope. }
  apply MarkWithTTL_spec in Hm as [-> Hcd]; [|done..].
  apply AsFilter_spec in Hf as (_ & _ & _ & _ & Hall & _). rewrite Forall_forall in Hall.
  specialize (Hall key Hin). rewrite Hid in Hall. revert Hall. unfold suppressed_at. rewrite Hl. cbn [andb].
  assert (active c1 (clock n') (markKey p id m scope) = true) as Ha.
  { unfold active. rewrite Hcd, lookup_insert_eq. cbn. by apply bool_decide_eq_true. }
  unfold markKey, OrDefault in Ha. destruct (String.eqb_spec scope CooldownScopeModel) as [->|Hsc].
  - destruct (Hscope eq_refl) as [Hne ->]. cbn in Ha.
    rewrite Ha, (proj2 (String.eqb_neq m "") Hne), orb_true_r. done.
  - cbn in Ha. by rewrite Ha.
Qed.

(** The retry hint is honest: if the filter leaves no key and stamps a
    hint of [s] seconds, and no key is marked at both granularities for the
    model, then a call of the filter at least [s] seconds after the first one
    ended, with no mark in between, leaves a key. *)
Theorem retry_hint_honest p m keys c n out s c' n' hasCtx n2 out2 h2 c2 n3 :
  AsFilter clock true p m keys (c, n) = ((out, Some s), (c', n')) ->
  (forall k rec, cooldowns c !! k = Some rec -> (expiresAt rec - clock n < two63)%Z) ->
  (forall k, k ∈ keys -> active c (clock n) (keyOf p (k_ID k)) = false \/ m = "" \/
                         active c (clock n) (keyModel p (k_ID k) m) = false) ->
  (n' <= n2)%nat -> (clock n' + s * Second <= clock n2)%Z ->
  AsFilter clock hasCtx p m keys (c', n2) = ((out2, h2), (c2, n3)) -> out2 <> [].
Proof.
  intros Hf Hbound Hboth Hn Hwait Hf2 Hnil.
  apply AsFilter_spec in Hf as (Hn1 & Hs & _ & _ & _ & _ & Hhint).
  destruct (Hhint s eq_refl) as (k & e & scope & Hk & (rec & <- & Hent) & Hlt & Hle & Hina).
  apply AsFilter_spec in Hf2 as (_ & _ & _ & _ & _ & Hkeep & _).
  assert (suppressed_at c' (clock n2) p (k_ID k) m = false) as Hfree; [|specialize (Hkeep k Hk Hfree); set_solver].
  pose proof (Hmono n n' Hn1) as Ht1. pose proof (Hmono n' n2 Hn) as Ht2.
  assert (forall q, active c' (clock n2) q = true -> active c (clock n') q = true) as Hdown.
  { intros q Hq. rewrite (shrinks_active (clock n') c c') in Hq by done. by eapply active_antitone. }
  assert (forall q, cooldowns c !! q = Some rec -> active c' (clock n2) q = false) as Hexp.
  { intros q Hq. rewrite (shrinks_active (clock n') c c'), (active_lookup _ _ _ _ Hq) by done.
    apply bool_decide_eq_false. specialize (Hbound q rec Hq). unfold two63 in *. lia. }
  unfold suppressed_at. destruct (legalKey p (k_ID k)); [|done]. cbn [andb].
  destruct Hent as [(-> & Hq)|(-> & Hm & Hq)]; rewrite (Hexp _ Hq).
  - cbn [orb]. destruct (Hboth k Hk) as [Hno|[->|Hno]]; [|done|].
    + rewrite (active_lookup _ _ _ _ Hq) in Hno. apply bool_decide_eq_false in Hno. lia.
    + destruct (active c' (clock n2) (keyModel p (k_ID k) m)) eqn:E; [|by rewrite andb_false_r].
      apply Hdown, (active_antitone c (clock n)) in E; [congruence|done].
  - rewrite andb_false_r, orb_false_r. destruct (active c' (clock n2) (keyOf p (k_ID k))) eqn:E; [|done].
    apply Hdown in E. by rewrite Hina in E.
Qed.

(** ** Counters along a run *)

Inductive op :=
| OpMark (p : ModelProvider) (id m : string) (t : Z) (k : Kind) (scope : Scope)
| OpMarker (stamped : option Policy) (p : ModelProvider) (id m : string) (err : option BifrostError)
| OpFilter (hasCtx : bool) (p : ModelProvider) (m : string) (keys : list Key)
| OpClear (p : ModelProvider) (id m : string)
| OpOverride (p : ModelProvider) (t : Z)
| OpGC.

Definition exec (o : op) : M unit :=
  match o with
  | OpMark p id m t k scope => MarkWithTTL clock p id m t k scope
  | OpMarker stamped p id m err => AsMarker clock stamped p id m err
  | OpFilter hasCtx p m keys => AsFilter clock hasCtx p m keys ≫= fun _ => mret tt
  | OpClear p id m => ClearKey p id m ≫= fun _ => mret tt
  | OpOverride p t => modify (fun c => SetTTLOverride c p t)
  | OpGC => gcTick clock
  end.

Fixpoint execAll (ops : list op) : M unit :=
  match ops with [] => mret tt | o :: ops => exec o ≫= fun _ => execAll ops end.

Lemma countMark_counts c k : counts_ok c -> counts_ok (countMark c k).
Proof. done. Qed.

Lemma with_cooldowns_counts c m : counts_ok c -> counts_ok (with_cooldowns c m).
Proof. done. Qed.

Lemma MarkWithTTL_counts p id m t k scope c n u c' n' :
  MarkWithTTL clock p id m t k scope (c, n) = (u, (c', n')) -> counts_ok c -> counts_ok c' /\ (n <= n')%nat.
Proof.
  unfold MarkWithTTL. destruct (legalKey p id); cbn [negb]; [|by intros [= _ <- <-]].
  destruct (_ && _); [by intros [= _ <- <-]|]. run. intros [= _ <- <-] Hc. split; [|lia].
  apply countMark_counts, attribute_counts; [apply incMark_sum|by apply with_cooldowns_counts].
Qed.

Lemma exec_counts o c n u c' n' : exec o (c, n) = (u, (c', n')) -> counts_ok c -> counts_ok c' /\ (n <= n')%nat.
Proof.
  destruct o; cbn [exec].
  - apply MarkWithTTL_counts.
  - unfold AsMarker. destruct (classifyForMarker stamped p id err) as [[[t k] sc]|].
    + apply MarkWithTTL_counts.
    + by intros [= _ <- <-].
  - run. destruct (AsFilter clock hasCtx p m keys (c, n)) as [[out h] [c1 n1]] eqn:Hf.
    intros [= _ <- <-] Hc. apply AsFilter_spec in Hf as (? & _ & Hcnt & _). auto.
  - unfold ClearKey. run. destruct (String.eqb id ""); [by intros [= _ <- <-]|].
    destruct (cooldowns c !! _); by intros [= _ <- <-].
  - run. intros [= _ <- <-]. unfold SetTTLOverride. by destruct (bool_decide (t <= 0)%Z).
  - unfold gcTick. run. intros [= _ <- <-] Hc. split; [exact Hc|lia].
Qed.

Lemma execAll_counts ops c n u c' n' : execAll ops (c, n) = (u, (c', n')) -> counts_ok c -> counts_ok c'.
Proof.
  revert c n. induction ops as [|o ops IH]; intros c n; cbn [execAll]; [by intros [= _ <- <-]|].
  run. destruct (exec o (c, n)) as [u1 [c1 n1]] eqn:Ho. intros Hrest Hc.
  eapply IH; [exact Hrest|]. by eapply exec_counts.
Qed.

(** Along any run of marks, failure reports, filter calls, manual clears,
    overrides and garbage collections from a fresh state, the counters of every
    provider are the sums of its key-scope and model-scope counters (as 64-bit
    counters), for marks and suppressions of each kind. *)
Theorem scope_counters_split ttl0 ops n u c' n' :
  execAll ops (NewCooldownState ttl0, n) = (u, (c', n')) ->
  forall p, countersOf (perProvider c') p
            = pkc_sum (countersOf (perProviderScopeKey c') p) (countersOf (perProviderScopeModel c') p).
Proof. intros Hrun. eapply execAll_counts; [exact Hrun|]. intros p. reflexivity. Qed.

(** ** What the marks and the clears of a run leave on cooldown *)

(** The record an operator would keep: per storage key, the moment its last
    mark runs out, unless it was cleared since; and the overrides of the
    default TTL per provider. *)
Record Ledger := mkLedger { deadlines : gmap string Z; overrides : gmap ModelProvider Z }.

Definition emptyLedger : Ledger := mkLedger ∅ ∅.

(** A mark at time [now_]: a TTL that is not positive means the provider's
    override, or the default [ttl0]. *)
Definition noteMark (ttl0 now_ : Z) (p : ModelProvider) (id m : string) (t : Z) (scope : Scope) (l : Ledger) : Ledger :=
  if askable p id m scope then
    mkLedger (<[markKey p id m scope := (now_ + (if bool_decide (t <= 0) then default ttl0 (overrides l !! p) else t))%Z]>
                (deadlines l)) (overrides l)
  else l.

Definition note (ttl0 now_ : Z) (o : op) (l : Ledger) : Ledger :=
  match o with
  | OpMark p id m t _ scope => noteMark ttl0 now_ p id m t scope l
  | OpMarker stamped p id m err =>
      match classifyForMarker stamped p id err with
      | Some (t, _, scope) => noteMark ttl0 now_ p id m t scope l
      | None => l
      end
  | OpClear p id m =>
      if String.eqb id "" then l
      else mkLedger (delete (if String.eqb m "" then keyOf p id else keyModel p id m) (deadlines l)) (overrides l)
  | OpOverride p t => if bool_decide (t <= 0)%Z then l else mkLedger (deadlines l) (<[p := t]> (overrides l))
  | OpFilter _ _ _ _ | OpGC => l
  end.

(** The ledger after a run from a state, each operation noted at the time the
    clock shows when it starts. *)
Fixpoint noteAll (ttl0 : Z) (ops : list op) (w : CooldownState * nat) (l : Ledger) : Ledger :=
  match ops with
  | [] => l
  | o :: ops => noteAll ttl0 ops (exec o w).2 (note ttl0 (clock w.2) o l)
  end.

(** Whether the ledger holds a key back from requests of a model at time [t]. *)
Definition ahead (l : Ledger) (t : Z) (q : string) : bool :=
  match deadlines l !! q with Some d => bool_decide (t < d)%Z | None => false end.

Definition heldBack (l : Ledger) (t : Z) (p : ModelProvider) (id m : string) : bool :=
  legalKey p id && (ahead l t (keyOf p id) || (negb (String.eqb m "") && ahead l t (keyModel p id m))).

Definition conf (c : CooldownState) : Z * gmap ModelProvider Z := (ttl c, ttlOverrides c).

Definition keepsConf {A} (x : M A) : Prop := forall w, conf (x w).2.1 = conf w.1.

Lemma keepsConf_bind {A B} (x : M A) (f : A -> M B) :
  keepsConf x -> (forall a, keepsConf (f a)) -> keepsConf (x ≫= f).
Proof.
  intros Hx Hf w. unfold mbind, M_bind. specialize (Hx w). destruct (x w) as [a w1]. cbn in Hx.
  by rewrite Hf, <-Hx.
Qed.

Lemma keepsConf_ret {A} (a : A) : keepsConf (mret a).
Proof. by intros []. Qed.

Lemma keepsConf_now : keepsConf (now clock).
Proof. by intros []. Qed.

Lemma keepsConf_get : keepsConf getState.
Proof. by intros []. Qed.

Lemma keepsConf_modify f : (forall c, conf (f c) = conf c) -> keepsConf (modify f).
Proof. intros Hf []. apply Hf. Qed.

Ltac keeps := repeat first
  [ assumption | apply keepsConf_ret | apply keepsConf_now | apply keepsConf_get
  | apply keepsConf_modify; intros; try done
  | simple apply keepsConf_bind; [|intros] ].

Lemma lookupCooldown_conf p id m s : keepsConf (lookupCooldown clock p id m s).
Proof.
  unfold lookupCooldown. destruct (negb _); [keeps|]. destruct (_ && _); [keeps|].
  keeps. destruct (cooldowns _ !! _); [|keeps]. case_bool_decide; keeps.
  unfold pruneExpired. keeps. case_bool_decide; keeps.
Qed.

Lemma lookupSuppressed_conf p id m : keepsConf (lookupSuppressed clock p id m).
Proof.
  unfold lookupSuppressed. apply keepsConf_bind; [apply lookupCooldown_conf|]. intros [[t k]|]; [keeps|].
  destruct (String.eqb m ""); [keeps|]. apply keepsConf_bind; [apply lookupCooldown_conf|]. intros [[]|]; keeps.
Qed.

Lemma suppressOne_conf c p m k s : conf (suppressOne c p m k s) = conf c.
Proof. unfold suppressOne. by destruct (String.eqb k ""). Qed.

Lemma AsFilter_conf h p m keys : keepsConf (AsFilter clock h p m keys).
Proof.
  assert (forall ks, keepsConf (filterLoop clock p m ks)) as Hloop.
  { induction ks as [|k ks IH]; cbn [filterLoop]; [keeps|].
    apply keepsConf_bind; [apply lookupSuppressed_conf|]. intros [[[]]|]; keeps. apply suppressOne_conf. }
  assert (forall t ks s, keepsConf (shortestLoop clock t p m ks s)) as Hshort.
  { intros t ks. induction ks as [|k ks IH]; intros s; cbn [shortestLoop]; [keeps|].
    apply keepsConf_bind; [apply lookupSuppressed_conf|auto]. }
  unfold AsFilter. destruct keys; [keeps|]. apply keepsConf_bind; [apply Hloop|].
  intros out. destruct (_ && _); [|keeps]. unfold ShortestRemainingCooldown.
  keeps. apply Hshort.
Qed.

(** The ledger describes the state from time [t] on. *)
Definition describes (ttl0 t : Z) (l : Ledger) (c : CooldownState) : Prop :=
  conf c = (ttl0, overrides l) /\ forall q t', (t <= t')%Z -> active c t' q = ahead l t' q.

Lemma describes_shrinks ttl0 t t' l c c' : describes ttl0 t l c -> (t <= t')%Z -> conf c' = conf c ->
  shrinks t' c c' -> describes ttl0 t' l c'.
Proof.
  intros [Hc Ha] Ht Hc' Hs. split; [congruence|]. intros q x Hx.
  rewrite (shrinks_active t' c c') by done. apply Ha. lia.
Qed.

Lemma mark_described ttl0 l p id m t k s c n u c' n' : describes ttl0 (clock n) l c ->
  MarkWithTTL clock p id m t k s (c, n) = (u, (c', n')) ->
  describes ttl0 (clock n') (noteMark ttl0 (clock n) p id m t s l) c' /\ (n <= n')%nat.
Proof.
  intros [Hc Ha] Hm. unfold MarkWithTTL in Hm. unfold noteMark, askable.
  destruct (legalKey p id); cbn [negb andb] in *; [|injection Hm as _ <- <-; done].
  destruct (String.eqb (OrDefault s) CooldownScopeModel && String.eqb m ""); cbn [negb andb] in *;
    [injection Hm as _ <- <-; done|].
  revert Hm. run. intros [= _ <- <-]. split; [|lia].
  assert (effectiveTTLLocked c p = default ttl0 (overrides l !! p)) as <-.
  { unfold effectiveTTLLocked. by injection Hc as -> ->. }
  split; [exact Hc|]. intros q x Hx. pose proof (Hmono n (S n) ltac:(lia)).
  unfold active, ahead. cbn. destruct (decide (q = markKey p id m s)) as [->|Hq].
  - by rewrite !lookup_insert_eq.
  - rewrite !lookup_insert_ne by done. apply Ha. lia.
Qed.

Lemma exec_described ttl0 l o c n u c' n' : describes ttl0 (clock n) l c -> exec o (c, n) = (u, (c', n')) ->
  describes ttl0 (clock n') (note ttl0 (clock n) o l) c' /\ (n <= n')%nat.
Proof.
  intros Hd. destruct o as [p id m t k s|st p id m e|h p m ks|p id m|p t|]; cbn [exec note].
  - by apply mark_described.
  - unfold AsMarker. destruct (classifyForMarker st p id e) as [[[t k] s]|]; [by apply mark_described|].
    by intros [= _ <- <-].
  - pose proof (AsFilter_conf h p m ks (c, n)) as Hcf.
    run. destruct (AsFilter clock h p m ks (c, n)) as [[out hint] [c1 n1]] eqn:Hf.
    intros [= _ <- <-]. cbn in Hcf. apply AsFilter_spec in Hf as (Hn & Hs & _). split; [|done].
    eapply describes_shrinks; [done|by apply Hmono|done..].
  - unfold ClearKey. run. destruct (String.eqb id ""); [by intros [= _ <- <-]|].
    destruct Hd as [Hc Ha]. set (q0 := if String.eqb m "" then _ else _).
    destruct (cooldowns c !! q0) eqn:Hq0; intros [= _ <- <-]; (split; [|lia]); (split; [exact Hc|]);
      intros q x Hx; unfold active, ahead; cbn; (destruct (decide (q = q0)) as [->|Hq];
      [rewrite ?lookup_delete_eq, ?Hq0; done|rewrite ?lookup_delete_ne by done; by apply Ha]).
  - run. intros [= _ <- <-]. destruct Hd as [Hc Ha]. unfold SetTTLOverride.
    case_bool_decide; (split; [|lia]); (split; [|exact Ha]); [exact Hc|].
    unfold conf in *. cbn. congruence.
  - unfold gcTick. run. intros [= _ <- <-]. split; [|lia].
    pose proof (Hmono n (S n) ltac:(lia)). eapply describes_shrinks; [done|done|done|].
    intros q. cbn. rewrite map_lookup_filter. destruct (cooldowns c !! q) as [rec|] eqn:E; cbn; [|by left].
    case_guard; [by left|]. right. split; [done|]. exists rec. split; [done|]. cbn in *. lia.
Qed.

Lemma execAll_described ttl0 ops l c n u c' n' : describes ttl0 (clock n) l c -> execAll ops (c, n) = (u, (c', n')) ->
  describes ttl0 (clock n') (noteAll ttl0 ops (c, n) l) c'.
Proof.
  revert l c n. induction ops as [|o ops IH]; intros l c n Hd; cbn [execAll noteAll]; [by intros [= _ <- <-]|].
  run. destruct (exec o (c, n)) as [u1 [c1 n1]] eqn:Ho. intros Hrest. cbn [snd].
  eapply IH; [|exact Hrest]. by eapply exec_described in Hd as [? _].
Qed.

Lemma heldBack_described ttl0 t l c t' p id m : describes ttl0 t l c -> (t <= t')%Z ->
  suppressed_at c t' p id m = heldBack l t' p id m.
Proof. intros [_ Ha] Ht. unfold suppressed_at, heldBack. by rewrite !Ha. Qed.

(** C6. Keys stay on cooldown exactly as long as they were marked for.  Take
    any run of marks, failure reports, filter calls, manual clears, TTL
    overrides and garbage collections from a fresh state, under a clock that
    does not go back, and the ledger of its marks and clears: per storage key
    the end of the last mark that was not cleared since, a mark of TTL zero
    counted with the provider's override or the default.  A filter call then
    withholds every key the ledger holds back when the call ends (its key-level
    entry, or its entry for the model asked for, is still ahead), and returns
    every key given that the ledger does not hold back when the call starts. *)
Theorem mark_suppresses ttl0 ops n0 u c n hasCtx p m keys out h c' n' key :
  execAll ops (NewCooldownState ttl0, n0) = (u, (c, n)) ->
  AsFilter clock hasCtx p m keys (c, n) = ((out, h), (c', n')) ->
  let l := noteAll (ttl (NewCooldownState ttl0)) ops (NewCooldownState ttl0, n0) emptyLedger in
  (heldBack l (clock n') p (k_ID key) m = true -> key ∉ out) /\
  (key ∈ keys -> heldBack l (clock n) p (k_ID key) m = false -> key ∈ out).
Proof.
  intros Hrun Hf l.
  assert (describes (ttl (NewCooldownState ttl0)) (clock n) l c) as Hd.
  { eapply execAll_described; [|exact Hrun]. by split. }
  pose proof Hf as (Hn & _ & _ & _ & Hall & Hkeep & _)%AsFilter_spec. rewrite Forall_forall in Hall.
  split.
  - intros Hb Hin. specialize (Hall key Hin).
    erewrite heldBack_described in Hall by (done || by apply Hmono). congruence.
  - intros Hin Hb. apply Hkeep; [done|]. by erewrite heldBack_described.
Qed.

End clocked.

(** ** Witnesses *)

Definition tick (n : nat) : Z := Z.of_nat n * Second.

Lemma tick_mono i j : (i <= j)%nat -> (tick i <= tick j)%Z.
Proof. unfold tick, Second. lia. Qed.

Definition keyA : Key := mkKey "a" "A" "sk-a" ["*"] [] 100 None false false false None None None None None.
Definition keyB : Key := mkKey "b" "B" "sk-b" ["*"] [] 100 None false false false None None None None None.

(** A state in which key [a] was marked for 60 s at second 0. *)
Definition markedA : CooldownState :=
  (MarkWithTTL tick "openai" "a" "" (60 * Second) KindRateLimit CooldownScopeKey (NewCooldownState 0, 0%nat)).2.1.

Lemma AsFilter_sound_witness :
  let r := AsFilter tick true "openai" "gpt" [keyA; keyB] (markedA, 1%nat) in
  r.1.1 = [keyB] /\ r.1.1 `sublist_of` [keyA; keyB].
Proof.
  split; [vm_compute; reflexivity|].
  eapply (AsFilter_sound tick tick_mono true "openai" "gpt" [keyA; keyB] markedA 1%nat). vm_compute. reflexivity.
Defined.

(** Key [a] is marked for the default TTL and key [b] for ten minutes, which a
    manual clear takes back; a filter call returns [b] only. *)
Lemma mark_suppresses_witness :
  let ops := [OpMark "openai" "a" "" 0 KindRateLimit CooldownScopeKey;
              OpMark "openai" "b" "gpt" (600 * Second) KindQuota CooldownScopeModel;
              OpClear "openai" "b" "gpt"; OpGC] in
  let w := (execAll tick ops (NewCooldownState 0, 0%nat)).2 in
  keyA ∉ (AsFilter tick true "openai" "gpt" [keyA; keyB] w).1.1 /\
  keyB ∈ (AsFilter tick true "openai" "gpt" [keyA; keyB] w).1.1.
Proof.
  intros ops w. set (r := AsFilter tick true "openai" "gpt" [keyA; keyB] w).
  assert (execAll tick ops (NewCooldownState 0, 0%nat) = (tt, (w.1, w.2))) as Hrun by (vm_compute; reflexivity).
  assert (AsFilter tick true "openai" "gpt" [keyA; keyB] (w.1, w.2) = ((r.1.1, r.1.2), (r.2.1, r.2.2))) as Hf
    by (vm_compute; reflexivity).
  split.
  - apply (mark_suppresses tick tick_mono 0 ops 0%nat tt _ _ _ _ _ _ _ _ _ _ keyA Hrun Hf).
    vm_compute. reflexivity.
  - apply (mark_suppresses tick tick_mono 0 ops 0%nat tt _ _ _ _ _ _ _ _ _ _ keyB Hrun Hf).
    + right. left.
    + vm_compute. reflexivity.
Defined.

Lemma retry_hint_honest_witness :
  let r := AsFilter tick true "openai" "gpt" [keyA] (markedA, 1%nat) in
  r.1 = ([], Some 58%Z) /\ (AsFilter tick true "openai" "gpt" [keyA] (r.2.1, 70%nat)).1.1 <> [].
Proof.
  split; [vm_compute; reflexivity|].
  eapply (retry_hint_honest tick tick_mono "openai" "gpt" [keyA] markedA 1%nat [] 58%Z _ 4%nat true 70%nat).
  - vm_compute. reflexivity.
  - intros k rec Hk. assert (markedA.(cooldowns) = {["openai::a::" := mkRecord (60 * Second) KindRateLimit]}) as Hm
      by (vm_compute; reflexivity).
    rewrite Hm in Hk. apply lookup_singleton_Some in Hk as [_ <-]. vm_compute. reflexivity.
  - intros k Hk. apply list_elem_of_singleton in Hk as ->. right. right. vm_compute. reflexivity.
  - lia.
  - vm_compute. done.
  - vm_compute. reflexivity.
Defined.

Lemma scope_counters_split_witness :
  let ops := [OpMark "openai" "a" "gpt" (60 * Second) KindRateLimit CooldownScopeModel;
              OpMark "openai" "b" "" (60 * Second) KindRateLimit CooldownScopeKey;
              OpFilter true "openai" "gpt" [keyA; keyB]] in
  let c' := (execAll tick ops (NewCooldownState 0, 0%nat)).2.1 in
  countersOf (perProvider c') "openai" = mkPKC (mkCounters 2 2) zeroCounters /\
  countersOf (perProvider c') "openai"
    = pkc_sum (countersOf (perProviderScopeKey c') "openai") (countersOf (perProviderScopeModel c') "openai").
Proof.
  intros ops c'. split; [vm_compute; reflexivity|].
  eapply (scope_counters_split tick tick_mono 0 ops 0%nat tt c' _). vm_compute. reflexivity.
Defined.

(** Without that condition the hint can be too short: a key marked for ten
    seconds at key level and for ten minutes at model level is hinted to be
    back in ten seconds, and a call twenty seconds later still finds it on
    cooldown. *)
Theorem retry_hint_dishonest :
  exists c n s c' n' n2,
    AsFilter tick true "openai" "gpt" [keyA] (c, n) = (([], Some s), (c', n')) /\
    (n' <= n2)%nat /\ (tick n' + s * Second <= tick n2)%Z /\
    (AsFilter tick true "openai" "gpt" [keyA] (c', n2)).1.1 = [].
Proof.
  pose (c := (execAll tick [OpMark "openai" "a" "gpt" (600 * Second) KindQuota CooldownScopeModel;
                            OpMark "openai" "a" "" (10 * Second) KindRateLimit CooldownScopeKey]
                (NewCooldownState 0, 0%nat)).2.1).
  pose (r := AsFilter tick true "openai" "gpt" [keyA] (c, 2%nat)).
  exists c, 2%nat, 8%Z, r.2.1, r.2.2, 30%nat.
  split_and!; [vm_compute; reflexivity| | |vm_compute; reflexivity]; vm_compute; [lia|done].
Qed.
End CooldownProofs.
