(* ===== verification/CooldownPlugin.v ===== *)
(** * The provider-cooldown plugin (src/plugins/providercooldown)

    Configuration parsing, the legacy quota patterns, the resolution of the
    failed attempt's provider and key, and the two hooks: [PostLLMHook], which
    marks the key of a failed request, and [PreProviderHook], which answers a
    synthetic 429 when every key of the pool is on cooldown. *)

From S2P Require Import Prelude GoStrings Schemas CooldownPolicy Cooldown CooldownTheory.
From Stdlib Require Import Btauto.
Local Open Scope string_scope.
Local Open Scope go_scope.

Module Plugin.
Import Schemas Cooldown CooldownProofs.

(** ** Configuration *)

(** A decoded JSON value or a Go value of the raw configuration map.  A float
    is given by its truncation toward zero, the value [int(x)] has. *)
Inductive any :=
| AFloat64 (trunc : Z)
| AInt (z : Z)
| AInt64 (z : Z)
| AInt32 (z : Z)
| AString (s : string)
| AMap (m : list (string * any))
| AArray (l : list any)
| AOther (type : string).

(** [%T]. *)
Definition typeName (v : any) : string :=
  match v with
  | AFloat64 _ => "float64" | AInt _ => "int" | AInt64 _ => "int64" | AInt32 _ => "int32"
  | AString _ => "string" | AMap _ => "map[string]interface {}" | AArray _ => "[]interface {}"
  | AOther t => t
  end.

Record Config := mkConfig {
  DefaultTTLSeconds : Z;
  TTLOverrides : list (string * Z);
  QuotaPatterns : list string }.

Definition emptyConfig : Config := mkConfig 0 [] [].

Definition toInt (v : any) : result string Z :=
  match v with
  | AFloat64 x | AInt x | AInt64 x | AInt32 x => Ok x
  | _ => Err ("expected integer, got " +:+ typeName v)
  end.

Fixpoint rawLookup (k : string) (raw : list (string * any)) : option any :=
  match raw with
  | [] => None
  | (k', v) :: raw => if String.eqb k k' then Some v else rawLookup k raw
  end.

(** The loop over [ttl_overrides], in the order the map is traversed. *)
Fixpoint parseOverrides (m : list (string * any)) : result string (list (string * Z)) :=
  match m with
  | [] => Ok []
  | (k, vv) :: m =>
      match toInt vv with
      | Err e => Err ("ttl_overrides[" +:+ (k +:+ ("]: " +:+ e)))
      | Ok n => let? rest := parseOverrides m in Ok ((k, n) :: rest)
      end
  end.

(** The loop over [quota_patterns]: lower-cased, trimmed, blanks dropped. *)
Fixpoint parsePatterns (i : Z) (l : list any) : result string (list string) :=
  match l with
  | [] => Ok []
  | AString s :: l =>
      let s := TrimSpace (ToLower s) in
      let? rest := parsePatterns (i + 1) l in Ok (if String.eqb s "" then rest else s :: rest)
  | item :: _ =>
      Err ("quota_patterns[" +:+ (Itoa i +:+ ("]: expected string, got " +:+ typeName item)))
  end.

Definition parseDefaultTTL (raw : list (string * any)) : result string Z :=
  match rawLookup "default_ttl_seconds" raw with
  | None => Ok 0%Z
  | Some v => match toInt v with Err e => Err ("default_ttl_seconds: " +:+ e) | Ok n => Ok n end
  end.

Definition ParseConfig (raw : option (list (string * any))) : result string Config :=
  match raw with
  | None => Ok emptyConfig
  | Some raw =>
      let? d := parseDefaultTTL raw in
      let? o := match rawLookup "ttl_overrides" raw with
                | None => Ok []
                | Some (AMap m) => parseOverrides m
                | Some v => Err ("ttl_overrides: expected object, got " +:+ typeName v)
                end in
      let? q := match rawLookup "quota_patterns" raw with
                | None => Ok []
                | Some (AArray l) => parsePatterns 0 l
                | Some v => Err ("quota_patterns: expected array, got " +:+ typeName v)
                end in
      Ok (mkConfig d o q)
  end.

(** [time.Duration(secs) * time.Second] in 64 bits. *)
Definition seconds (secs : Z) : Z := (secs *i Second)%go.

Definition AsState (c : Config) : CooldownState :=
  let t := if bool_decide (0 < DefaultTTLSeconds c)%Z then seconds (DefaultTTLSeconds c) else DefaultCooldownTTL in
  foldl (fun s '(prov, secs) => if bool_decide (secs <= 0)%Z then s else SetTTLOverride s prov (seconds secs))
    (NewCooldownState t) (TTLOverrides c).

(** ** Legacy quota detection *)

Definition quotaExhaustedSubstrings : list string :=
  ["insufficient_quota"; "quota exceeded"; "quota_exceeded"; "billing"; "usage limit"].

Definition statusCodeAllowsQuota (err : BifrostError) : bool :=
  match be_StatusCode err with
  | None => true
  | Some code =>
      if (code =? 402)%Z then false
      else if (code =? 429)%Z then true
      else bool_decide (400 <= code < 500)%Z
  end.

(** The patterns are taken as they are: only the error's fields are lowered. *)
Definition matchesAnyErrorField (err : BifrostError) (patterns : list string) : bool :=
  let hits (s : string) := existsb (fun sub => Contains (ToLower s) sub) patterns in
  hits (GetErrorString (Some err)) ||
  match be_Error err with
  | None => false
  | Some f =>
      match ef_Code f with Some code => hits code | None => false end ||
      match ef_Type f with Some typ => hits typ | None => false end
  end.

Definition IsQuotaExhausted (err : option BifrostError) : bool :=
  match err with
  | None => false
  | Some e => statusCodeAllowsQuota e && matchesAnyErrorField e quotaExhaustedSubstrings
  end.

(** [(p *CooldownPlugin) isQuotaExhausted], with the configured patterns. *)
Definition isQuotaExhausted (quotaPatterns : list string) (err : option BifrostError) : bool :=
  match err with
  | None => false
  | Some e =>
      if IsQuotaExhausted err then true
      else if bool_decide (quotaPatterns = []) then false
      else statusCodeAllowsQuota e && matchesAnyErrorField e quotaPatterns
  end.

(** ** The failed attempt *)

(** What the hooks read of the request context. *)
Record Ctx := mkCtx {
  cx_CooldownPolicy : option Policy;
  cx_AttemptTrail : option (list KeyAttemptRecord);
  cx_ProviderKeys : gmap ModelProvider (list Key);
  cx_RetryAfterSeconds : option Z }.

Definition with_RetryAfter (ctx : Ctx) (s : Z) : Ctx :=
  mkCtx (cx_CooldownPolicy ctx) (cx_AttemptTrail ctx) (cx_ProviderKeys ctx) (Some s).

(** The scan of the trail from its end. *)
Fixpoint lastUsable (provider : ModelProvider) (rev_trail : list KeyAttemptRecord) : string * string :=
  match rev_trail with
  | [] => ("", "")
  | rec :: rest =>
      if String.eqb (KeyID rec) "" && negb (IsKeylessProvider provider) then lastUsable provider rest
      else (KeyID rec, KeyName rec)
  end.

(** (provider, key ID, key name, model). *)
Definition lastAttemptProviderAndKey (ctx : option Ctx) (err : option BifrostError) :
    ModelProvider * string * string * string :=
  let '(provider, model) :=
    match err with
    | None => ("", "")
    | Some e =>
        let x := be_ExtraFields e in
        (if negb (String.eqb (ri_Provider (xf_RoutingInfo x)) "") then ri_Provider (xf_RoutingInfo x)
         else if negb (String.eqb (xf_Provider x) "") then xf_Provider x else "",
         if negb (String.eqb (ri_Model (xf_RoutingInfo x)) "") then ri_Model (xf_RoutingInfo x)
         else xf_OriginalModelRequested x)
    end in
  match ctx ≫= cx_AttemptTrail with
  | None => (provider, "", "", model)
  | Some trail =>
      let '(id, name) := lastUsable provider (reverse trail) in (provider, id, name, model)
  end.

(** [(p *CooldownPlugin) classify]: the TTL, the key, the model, the kind and
    the scope of the mark. *)
Definition classifyAttempt (ctx : option Ctx) (err : option BifrostError) :
    option (Z * string * string * Kind * Scope) :=
  match err with
  | None => None
  | Some _ =>
      let '(provider, keyID, _, model) := lastAttemptProviderAndKey ctx err in
      if negb (legalKey provider keyID) then None
      else
        match classifyForMarker (ctx ≫= cx_CooldownPolicy) provider keyID err with
        | Some (t, k, scope) => Some (t, keyID, model, k, scope)
        | None => None
        end
  end.

Section hooks.
Context (clock : nat -> Z).

(** [PostLLMHook]: the response and error are returned unchanged, so only the
    effect on the state is modelled. *)
Definition PostLLMHook (quotaPatterns : list string) (ctx : option Ctx) (err : option BifrostError) : M unit :=
  match err with
  | None => mret tt
  | Some _ =>
      let '(provider, lastKey, _, _) := lastAttemptProviderAndKey ctx err in
      match classifyAttempt ctx err with
      | None =>
          if isQuotaExhausted quotaPatterns err then
            if negb (legalKey provider lastKey) then mret tt else Mark clock provider lastKey
          else mret tt
      | Some (t, keyID, model, k, scope) => MarkWithTTL clock provider keyID model t k scope
      end
  end.

(** The request's provider and model, as [GetRequestFields] gives them. *)
Record Request := mkRequest { rq_Provider : ModelProvider; rq_Model : string }.

(** [LLMPluginShortCircuit] of this hook: the error and the silent flag. *)
Record ShortCircuit := mkShortCircuit { sc_Error : BifrostError; sc_Silent : bool }.

(** The keys the hook checks: the pool stamped on the context, or the empty
    sentinel of a keyless provider. *)
Definition hookKeys (ctx : Ctx) (provider : ModelProvider) : option (list Key) :=
  match cx_ProviderKeys ctx !! provider with
  | Some (k :: ks) => Some (k :: ks)
  | _ => if IsKeylessProvider provider then Some [zeroKey] else None
  end.

Definition PreProviderHook (ctx : Ctx) (req : option Request) : M (option ShortCircuit * Ctx) :=
  match req with
  | None => mret (None, ctx)
  | Some req =>
      let provider := rq_Provider req in
      let model := rq_Model req in
      if String.eqb provider "" || String.eqb model "" then mret (None, ctx)
      else
        match hookKeys ctx provider with
        | None => mret (None, ctx)
        | Some keys =>
            '(available, hint) ← AsFilter clock true provider model keys;
            let ctx := match hint with Some s => with_RetryAfter ctx s | None => ctx end in
            if bool_decide (available <> []) then mret (None, ctx)
            else
              rem ← ShortestRemainingCooldown clock provider model keys;
              let retryAfter := if bool_decide (0 < rem)%Z then retryAfterSecondsHint rem else 0%Z in
              let ctx := if bool_decide (0 < rem)%Z then with_RetryAfter ctx retryAfter else ctx in
              mret (Some (mkShortCircuit (noEligibleKeysError provider retryAfter) true), ctx)
        end
  end.

End hooks.

(** ** Configuration *)

Lemma AsState_fold c (ovs : list (string * Z)) (prov : ModelProvider) s :
  NoDup ovs.*1 ->
  s = foldl (fun s '(prov, secs) => if bool_decide (secs <= 0)%Z then s else SetTTLOverride s prov (seconds secs)) c ovs ->
  ttl s = ttl c /\
  ttlOverrides s !! prov =
    match list_to_map (M := gmap string Z) ovs !! prov with
    | Some secs => if bool_decide (0 < secs)%Z && bool_decide (0 < seconds secs)%Z
                   then Some (seconds secs) else ttlOverrides c !! prov
    | None => ttlOverrides c !! prov
    end.
Proof.
  revert c s. induction ovs as [|[p secs] ovs IH]; intros c s Hnd ->; [done|].
  apply NoDup_cons in Hnd as [Hnin Hnd]. cbn [foldl list_to_map foldr].
  destruct (IH (if bool_decide (secs <= 0)%Z then c else SetTTLOverride c p (seconds secs)) _ Hnd eq_refl) as [Ht Ho].
  assert (ttl (if bool_decide (secs <= 0)%Z then c else SetTTLOverride c p (seconds secs)) = ttl c) as Htc.
  { unfold SetTTLOverride. by repeat case_bool_decide. }
  split; [by rewrite Ht, Htc|]. rewrite Ho. cbn.
  destruct (decide (p = prov)) as [->|Hne].
  - rewrite lookup_insert_eq, (not_elem_of_list_to_map_1 _ _ Hnin). unfold SetTTLOverride.
    destruct (bool_decide (secs <= 0)%Z) eqn:E1; [apply bool_decide_eq_true in E1|apply bool_decide_eq_false in E1].
    + by rewrite bool_decide_eq_false_2 by lia.
    + rewrite (bool_decide_eq_true_2 (0 < secs)%Z) by lia. cbn [andb].
      destruct (bool_decide (seconds secs <= 0)%Z) eqn:E2; [apply bool_decide_eq_true in E2|apply bool_decide_eq_false in E2].
      * by rewrite bool_decide_eq_false_2 by lia.
      * rewrite bool_decide_eq_true_2 by lia. cbn. by rewrite lookup_insert_eq.
  - rewrite lookup_insert_ne by done.
    assert (ttlOverrides (if bool_decide (secs <= 0)%Z then c else SetTTLOverride c p (seconds secs)) !! prov
            = ttlOverrides c !! prov) as ->; [|done].
    unfold SetTTLOverride. repeat case_bool_decide; try done. cbn. by rewrite lookup_insert_ne.
Qed.

(** The state built from a configuration gives every provider the TTL the
    configuration says: its override when that is positive, else the default
    (five minutes when none is set), as long as the seconds fit in a
    64-bit nanosecond count. *)
Theorem config_effective_ttl (cfg : Config) (prov : ModelProvider) :
  NoDup (TTLOverrides cfg).*1 ->
  (DefaultTTLSeconds cfg * Second < two63)%Z ->
  Forall (fun o => o.2 * Second < two63)%Z (TTLOverrides cfg) ->
  EffectiveTTL (AsState cfg) prov =
    match list_to_map (M := gmap string Z) (TTLOverrides cfg) !! prov with
    | Some secs => if bool_decide (0 < secs)%Z then (secs * Second)%Z
                   else if bool_decide (0 < DefaultTTLSeconds cfg)%Z then (DefaultTTLSeconds cfg * Second)%Z
                   else DefaultCooldownTTL
    | None => if bool_decide (0 < DefaultTTLSeconds cfg)%Z then (DefaultTTLSeconds cfg * Second)%Z
              else DefaultCooldownTTL
    end.
Proof.
  intros Hnd Hd Hall.
  assert (forall z, (0 < z)%Z -> (z * Second < two63)%Z -> seconds z = (z * Second)%Z) as Hsec.
  { intros z H0 H1. unfold seconds. apply wrap64_id. unfold in_int64, two63, Second in *. lia. }
  unfold EffectiveTTL, effectiveTTLLocked.
  destruct (AsState_fold _ (TTLOverrides cfg) prov (AsState cfg) Hnd eq_refl) as [Ht ->]. rewrite Ht.
  assert (ttl (NewCooldownState (if bool_decide (0 < DefaultTTLSeconds cfg)%Z
                                 then seconds (DefaultTTLSeconds cfg) else DefaultCooldownTTL))
          = if bool_decide (0 < DefaultTTLSeconds cfg)%Z then (DefaultTTLSeconds cfg * Second)%Z
            else DefaultCooldownTTL) as Hdef.
  { cbn. case_bool_decide as H0; [|done]. rewrite Hsec by done.
    rewrite bool_decide_eq_false_2; [done|]. unfold Second. lia. }
  rewrite Hdef. cbn [ttlOverrides NewCooldownState]. rewrite lookup_empty.
  destruct (list_to_map (TTLOverrides cfg) !! prov) as [secs|] eqn:Hl; [|done].
  destruct (decide (0 < secs)%Z) as [H0|H0]; last by rewrite (bool_decide_eq_false_2 _ H0).
  rewrite (bool_decide_eq_true_2 _ H0). apply elem_of_list_to_map_2 in Hl.
  rewrite Forall_forall in Hall. specialize (Hall _ Hl). cbn in Hall.
  rewrite Hsec by done. rewrite (bool_decide_eq_true_2 (0 < secs * Second)%Z); [done|]. unfold Second. lia.
Qed.

Definition sampleConfig : Config := mkConfig 60 [("openai", 600); ("azure", 0)]%Z [].

Lemma config_effective_ttl_witness :
  EffectiveTTL (AsState sampleConfig) "openai" = (600 * Second)%Z /\
  EffectiveTTL (AsState sampleConfig) "azure" = (60 * Second)%Z.
Proof.
  assert (NoDup (TTLOverrides sampleConfig).*1) as H1 by (apply (bool_decide_unpack _); vm_compute; exact I).
  assert (Forall (fun o => o.2 * Second < two63)%Z (TTLOverrides sampleConfig)) as H3
    by (apply (bool_decide_unpack _); vm_compute; exact I).
  split.
  - rewrite (config_effective_ttl sampleConfig "openai" H1); [vm_compute; reflexivity|vm_compute; reflexivity|exact H3].
  - rewrite (config_effective_ttl sampleConfig "azure" H1); [vm_compute; reflexivity|vm_compute; reflexivity|exact H3].
Defined.

(** [ParseConfig] never reports an unknown key: a map with any further key
    parses like the map without it. *)
Theorem ParseConfig_ignores_unknown (k : string) (v : any) (raw : list (string * any)) :
  k ∉ ["default_ttl_seconds"; "ttl_overrides"; "quota_patterns"] ->
  ParseConfig (Some ((k, v) :: raw)) = ParseConfig (Some raw).
Proof.
  intros Hk. assert (forall n, n ∈ ["default_ttl_seconds"; "ttl_overrides"; "quota_patterns"] ->
                       rawLookup n ((k, v) :: raw) = rawLookup n raw) as Hl.
  { intros n Hn. cbn. destruct (String.eqb_spec n k) as [->|]; [done|done]. }
  unfold ParseConfig, parseDefaultTTL. by rewrite !Hl by set_solver.
Qed.

Lemma ParseConfig_ignores_unknown_witness :
  ParseConfig (Some [("default_ttl_secs", AInt 60)]) = ParseConfig (Some []).
Proof. apply (ParseConfig_ignores_unknown "default_ttl_secs" (AInt 60) []). apply (bool_decide_unpack _). vm_compute. exact I. Defined.

(** ** Quota detection *)

(** The configured patterns extend the built-in ones and stand behind the
    same status gate: the plugin sees an exhausted quota exactly when the
    status allows it (none, 429, or another 4xx but 402) and one of the
    built-in or configured patterns is in the message, the code or the type. *)
Theorem isQuotaExhausted_spec (patterns : list string) (e : BifrostError) :
  isQuotaExhausted patterns (Some e) =
    statusCodeAllowsQuota e && matchesAnyErrorField e (quotaExhaustedSubstrings ++ patterns).
Proof.
  unfold isQuotaExhausted, IsQuotaExhausted. destruct (statusCodeAllowsQuota e); cbn [andb]; last by destruct (bool_decide _).
  assert (matchesAnyErrorField e (quotaExhaustedSubstrings ++ patterns) =
          matchesAnyErrorField e quotaExhaustedSubstrings || matchesAnyErrorField e patterns) as ->.
  { unfold matchesAnyErrorField. destruct (be_Error e) as [[[t|] [c|] m]|]; cbn [ef_Code ef_Type];
      rewrite !existsb_app; btauto. }
  destruct (matchesAnyErrorField e quotaExhaustedSubstrings); [done|]. cbn [orb].
  case_bool_decide as Hp; [|done]. subst patterns. unfold matchesAnyErrorField.
  by destruct (be_Error e) as [[[t|] [c|] m]|].
Qed.

(** ** The hooks together *)

Section hook_theorems.
Context (clock : nat -> Z) (Hmono : forall i j, (i <= j)%nat -> (clock i <= clock j)%Z).

(** The plugin closes the loop: when a request fails with an error the
    policy classifies, on the only key of its provider, then until the rule's
    TTL has passed every later request to that provider (for the same model,
    under a model-scoped rule) is answered with the synthetic 429 before it is
    queued, whatever happened to the clock in between. *)
Theorem failed_key_short_circuits patterns ctx e c n u c1 n1 p id name m0 t k scope key ctx2 req n2 r c2 n3 :
  lastAttemptProviderAndKey (Some ctx) (Some e) = (p, id, name, m0) ->
  classifyForMarker (cx_CooldownPolicy ctx) p id (Some e) = Some (t, k, scope) -> (0 < t)%Z ->
  legalKey p id = true -> (scope = CooldownScopeModel -> m0 <> "" /\ rq_Model req = m0) ->
  PostLLMHook clock patterns (Some ctx) (Some e) (c, n) = (u, (c1, n1)) ->
  rq_Provider req = p -> p <> "" -> rq_Model req <> "" ->
  cx_ProviderKeys ctx2 !! p = Some [key] -> k_ID key = id -> (n1 <= n2)%nat ->
  PreProviderHook clock ctx2 (Some req) (c1, n2) = (r, (c2, n3)) -> (clock n3 < clock n + t)%Z ->
  exists retryAfter, r.1 = Some (mkShortCircuit (noEligibleKeysError p retryAfter) true).
Proof.
  intros Hlast Hcl Ht Hlegal Hscope Hpost Hrp Hp Hm Hkeys Hid Hn Hpre Hend.
  unfold PostLLMHook, classifyAttempt in Hpost. rewrite Hlast in Hpost. cbn [negb] in Hpost.
  rewrite Hlegal in Hpost. cbn [negb] in Hpost.
  change (Some ctx ≫= cx_CooldownPolicy) with (cx_CooldownPolicy ctx) in Hpost. rewrite Hcl in Hpost.
  unfold PreProviderHook, hookKeys in Hpre. rewrite Hrp, Hkeys in Hpre.
  rewrite (proj2 (String.eqb_neq p "") Hp), (proj2 (String.eqb_neq (rq_Model req) "") Hm) in Hpre. cbn [orb] in Hpre.
  revert Hpre. run. destruct (AsFilter clock true p (rq_Model req) [key] (c1, n2)) as [[out h] [c1' n2']] eqn:Hf.
  pose proof (AsFilter_spec clock Hmono _ _ _ _ _ _ _ _ _ _ Hf) as (_ & _ & _ & Hsub & _).
  assert (out = [] \/ out = [key]) as Hout.
  { inversion Hsub as [| |? ? ? Hs]; subst; [right; f_equal; by apply sublist_nil_r|left; by apply sublist_nil_r]. }
  assert ((n2' <= n3)%nat -> key ∉ out) as Hdrop.
  { intros Hle. eapply (mark_drops clock Hmono); [exact Hpost|done..|exact Hn|exact Hf| |done].
    pose proof (Hmono n2' n3 Hle). lia. }
  destruct Hout as [->| ->].
  - rewrite bool_decide_eq_false_2 by naive_solver. unfold ShortestRemainingCooldown. run.
    destruct (shortestLoop clock (clock n2') p (rq_Model req) [key] None (c1', S n2')) as [s [c3 n4]].
    intros [= <- <- <-]. cbn. eauto.
  - rewrite bool_decide_eq_true_2 by done. intros [= <- <- <-]. exfalso. apply Hdrop; [lia|set_solver].
Qed.

End hook_theorems.

Definition rateLimited : BifrostError :=
  mkError None false (Some 429%Z) None None (mkExtra (mkRoutingInfo "openai" "gpt" "A" None false None None) "" "gpt" "gpt" "" 0 None None).

Definition failedCtx : Ctx :=
  mkCtx None (Some [mkAttempt 0 "a" "A" None false]) {[ "openai" := [CooldownProofs.keyA] ]} None.

Lemma failed_key_short_circuits_witness :
  let w := (PostLLMHook CooldownProofs.tick [] (Some failedCtx) (Some rateLimited) (NewCooldownState 0, 0%nat)).2 in
  let r := (PreProviderHook CooldownProofs.tick failedCtx (Some (mkRequest "openai" "gpt")) (w.1, 5%nat)).1 in
  exists retryAfter, r.1 = Some (mkShortCircuit (noEligibleKeysError "openai" retryAfter) true).
Proof.
  intros w r.
  eapply (failed_key_short_circuits CooldownProofs.tick CooldownProofs.tick_mono [] failedCtx rateLimited
            (NewCooldownState 0) 0%nat tt w.1 1%nat "openai" "a" "A" "gpt" (60 * Second) KindRateLimit
            CooldownScopeKey CooldownProofs.keyA failedCtx (mkRequest "openai" "gpt") 5%nat r).
  all: first [vm_compute; reflexivity | done | lia].
Defined.

End Plugin.
