(* ===== verification/KeySelection.v ===== *)
(** * Key selection (src/core/bifrost.go, src/core/keyselectors/weightedrandom.go)

    Which API keys a request may use, which one it uses, and how a retry moves
    on to another: the weighted random selector, the filtering of a provider's
    keys for a request, session stickiness on the key/value store, and the
    fixed and rotating key providers the retry loop calls. *)

From S2P Require Import Prelude GoStrings Schemas KVStore.
From Stdlib Require Import Ascii.
Local Open Scope string_scope.

Module KeySelection.
Import Schemas.

(** ** Weighted random selection *)

Definition totalWeight (keys : list Key) : Z := foldl (fun s k => (s + k_Weight100 k)%Z) 0%Z keys.

(** The scan for the first prefix sum above the random value. *)
Fixpoint pickWeighted (randomValue currentWeight : Z) (keys : list Key) : option Key :=
  match keys with
  | [] => None
  | k :: keys =>
      let currentWeight := (currentWeight + k_Weight100 k)%Z in
      if bool_decide (randomValue < currentWeight)%Z then Some k else pickWeighted randomValue currentWeight keys
  end.

(** [WeightedRandom]; [intn n] is the value [rand.Intn(n)] returns, [None] the
    panic of [rand.Intn] on a non-positive bound or of an index out of range. *)
Definition WeightedRandom (intn : Z -> Z) (keys : list Key) : option Key :=
  let total := totalWeight keys in
  if bool_decide (total = 0)%Z then
    if bool_decide (keys = []) then None else keys !! Z.to_nat (intn (Z.of_nat (length keys)))
  else if bool_decide (total < 0)%Z then None
  else
    match pickWeighted (intn total) 0 keys with
    | Some k => Some k
    | None => head keys
    end.

(** ** Filtering a provider's keys *)

Definition filterKeysByID (keys : list Key) (target : string) : list Key :=
  filter (fun k => k_ID k = target) keys.

Definition enabled (k : Key) : bool := bool_decide (k_Enabled k <> Some false).

(** [strings.TrimSpace(key.Value.GetValue()) != "" || CanProviderKeyValueBeEmpty(base)]. *)
Definition hasValue (base : ModelProvider) (k : Key) : bool :=
  negb (String.eqb (TrimSpace (k_Value k)) "") || CanProviderKeyValueBeEmpty base.

(** One key of a loop over the pool: enabled, valid (with the configuration
    [validateKey] fills in), and passing [ok]. *)
Definition usable_key (base : ModelProvider) (ok : Key -> bool) (k : Key) : option Key :=
  if negb (enabled k) then None
  else match validateKey base k with
       | Err _ => None
       | Ok k => if ok k then Some k else None
       end.

Definition getAllSupportedKeys (directKey : option Key) (keysRes : result string (list Key))
    (providerKey base : ModelProvider) : result string (list Key) :=
  match directKey with
  | Some key => Ok [key]
  | None =>
      match keysRes with
      | Err e => Err e
      | Ok [] => if IsKeylessProvider providerKey then Ok [zeroKey]
                 else Err ("no keys found for provider: " +:+ providerKey)
      | Ok keys =>
          match omap (usable_key base (hasValue base)) keys with
          | [] => Err ("no valid keys found for provider: " +:+ providerKey)
          | supportedKeys => Ok supportedKeys
          end
      end
  end.

(** [a < b] on Go strings, by bytes. *)
Fixpoint string_ltb (a b : string) : bool :=
  match a, b with
  | _, "" => false
  | "", _ => true
  | String x a, String y b =>
      (nat_of_ascii x <? nat_of_ascii y)%nat || (Ascii.eqb x y && string_ltb a b)
  end.

(** [sort.Slice] by ID.  Go's sort is not stable; keys with the same ID may come
    in another order there. *)
Fixpoint insertByID (k : Key) (l : list Key) : list Key :=
  match l with
  | [] => [k]
  | x :: l' => if string_ltb (k_ID x) (k_ID k) then x :: insertByID k l' else k :: l
  end.

Definition sortByID (l : list Key) : list Key := foldr insertByID [] l.

Definition modelAllowed (model : string) (k : Key) : bool :=
  WhiteList.IsAllowed (k_Models k) model && negb (BlackList.IsBlocked (k_BlacklistedModels k) model).

Definition batchEnabled (k : Key) : bool := bool_decide (k_UseForBatchAPI k = Some true).

(** The order of the tests in the loop of [getKeysForBatchAndFileOps]. *)
Definition batchFileKey (base : ModelProvider) (model : option string) (isBatchOp : bool) (k : Key) : option Key :=
  if isBatchOp && negb (batchEnabled k) then None
  else usable_key base
         (fun k =>
            match model with
            | Some m => String.eqb m "" || modelAllowed m k
            | None => true
            end && hasValue base k) k.

Definition getKeysForBatchAndFileOps (directKey : option Key) (keysRes : result string (list Key))
    (providerKey base : ModelProvider) (model : option string) (isBatchOp : bool) : result string (list Key) :=
  match directKey with
  | Some key => Ok [key]
  | None =>
      match keysRes with
      | Err e => Err e
      | Ok [] => Err ("no keys found for provider: " +:+ providerKey)
      | Ok keys =>
          match omap (batchFileKey base model isBatchOp) keys with
          | [] =>
              let modelStr := default "" model in
              if isBatchOp
              then Err ("no batch-enabled keys found for provider: " +:+ (providerKey +:+ (" and model: " +:+ modelStr)))
              else Err ("no keys found for provider: " +:+ (providerKey +:+ (" and model: " +:+ modelStr)))
          | filteredKeys => Ok (sortByID filteredKeys)
          end
      end
  end.

(** [skipModelCheck]. *)
Definition skipModelCheck (requestType : RequestType) (model : string) : bool :=
  (String.eqb model "" &&
   (isFileRequestType requestType || isBatchRequestType requestType || isContainerRequestType requestType ||
    isCachedContentRequestType requestType || isModellessVideoRequestType requestType ||
    isPassthroughRequestType requestType)) ||
  String.eqb requestType ListModelsRequest || isResponsesLifecycleRequestType requestType.

(** [modelSupported] of the full check. *)
Definition modelSupported (base : ModelProvider) (model : string) (k : Key) : bool :=
  hasValue base k && modelAllowed model k &&
  match k_VLLM k with
  | Some cfg =>
      if String.eqb base VLLM && negb (String.eqb (vllm_ModelName cfg) "")
      then String.eqb (vllm_ModelName cfg) model else true
  | None => true
  end.

Definition supportedKeysFor (requestType : RequestType) (base : ModelProvider) (model : string) (keys : list Key) :
    list Key :=
  omap (usable_key base (if skipModelCheck requestType model then hasValue base else modelSupported base model)) keys.

(** The keys left after the batch filter; the error of an empty batch pool. *)
Definition batchPool (requestType : RequestType) (providerKey : ModelProvider) (keys : list Key) :
    result string (list Key) :=
  if isBatchRequestType requestType || isFileRequestType requestType then
    match filter (fun k => batchEnabled k = true) keys with
    | [] => Err ("no config found for batch apis; enable 'Use for Batch APIs' on at least one key for provider: "
                   +:+ providerKey)
    | ks => Ok ks
    end
  else Ok keys.

(** ** Session stickiness *)

(** A value in the store: what [Get] returns as [any]. *)
Inductive KVValue := KVString (s : string) | KVBytes (b : string) | KVOther.

(** What core asks of the store it is given ([schemas.KVStore]): the operations,
    [None] or [false] standing for an error, and that a stored value can be
    read back until its TTL has passed. *)
Class KVStoreI (S : Type) := {
  kvGet : Z -> string -> S -> option KVValue * S;
  kvSetWithTTL : Z -> string -> KVValue -> Z -> S -> bool * S;
  kvSetNXWithTTL : Z -> string -> KVValue -> Z -> S -> option bool * S;
  kvDelete : Z -> string -> S -> bool * S;
  kv_set_get now k v ttl s s' now' :
    (0 <= now)%Z -> (0 < ttl)%Z -> (now + ttl < two63)%Z -> (now <= now' < now + ttl)%Z ->
    kvSetWithTTL now k v ttl s = (true, s') -> kvGet now' k s' = (Some v, s');
  kv_setnx_get now k v ttl s s' now' :
    (0 <= now)%Z -> (0 < ttl)%Z -> (now + ttl < two63)%Z -> (now <= now' < now + ttl)%Z ->
    kvSetNXWithTTL now k v ttl s = (Some true, s') -> kvGet now' k s' = (Some v, s');
  kv_setnx_held now k v ttl s s' :
    kvSetNXWithTTL now k v ttl s = (Some false, s') -> s' = s /\ exists v', kvGet now k s = (Some v', s) }.

Definition DefaultSessionStickyTTL : Z := 3600 * Second.

Section selection.
(** [sha256hex] is the hex digest, [unquote] is [sonic.Unmarshal] into a
    string, a third-party decoder. *)
Context {S : Type} `{KVStoreI S} (sha256hex : string -> string) (unquote : string -> option string).

Definition buildSessionKey (providerKey : ModelProvider) (sessionID model : string) : string :=
  let discriminator := if String.eqb model "" then "__modelless__" else model in
  "session:" +:+ (providerKey +:+ (":" +:+ (sha256hex sessionID +:+ (":" +:+ sha256hex discriminator)))).

Inductive cached := CachedFound (k : Key) | CachedStale | CachedNone.

Definition getCachedKeyFromStore (now : Z) (kvKey : string) (supportedKeys : list Key) (s : S) : cached * S :=
  match kvGet now kvKey s with
  | (None, s) => (CachedNone, s)
  | (Some raw, s) =>
      let cachedKeyID :=
        match raw with
        | KVString v => v
        | KVBytes b => default b (unquote b)
        | KVOther => ""
        end in
      if String.eqb cachedKeyID "" then (CachedNone, s)
      else match head (filter (fun k => k_ID k = cachedKeyID) supportedKeys) with
           | Some k => (CachedFound k, s)
           | None => (CachedStale, s)
           end
  end.

(** What selection reads of the request context. *)
Record KeyCtx := mkKeyCtx {
  DirectKey : option Key;
  SkipKeySelection : bool;
  APIKeyID : option string;
  APIKeyName : option string;
  SessionID : string;
  SessionTTL : Z;
  FallbackIndex : Z }.

(** The clock readings of one selection, in program order. *)
Record Readings := mkReadings { rd_get : Z; rd_set : Z; rd_delete : Z; rd_setnx : Z; rd_reget : Z; rd_redelete : Z }.

(** The explicit key of the request: by ID first, then by name. *)
Definition pinned (ctx : KeyCtx) (providerKey : ModelProvider) (model : string) (supportedKeys : list Key) :
    option (result string Key) :=
  let want (v : option string) := TrimSpace (default "" v) in
  let suffix := " for provider: " +:+ (providerKey +:+ (" and model: " +:+ model)) in
  if negb (String.eqb (want (APIKeyID ctx)) "") then
    Some (match head (filter (fun k => k_ID k = want (APIKeyID ctx)) supportedKeys) with
          | Some k => Ok k
          | None => Err ("no supported key found with id " +:+ (Quote (want (APIKeyID ctx)) +:+ suffix))
          end)
  else if negb (String.eqb (want (APIKeyName ctx)) "") then
    Some (match head (filter (fun k => k_Name k = want (APIKeyName ctx)) supportedKeys) with
          | Some k => Ok k
          | None => Err ("no supported key found with name " +:+ (Quote (want (APIKeyName ctx)) +:+ suffix))
          end)
  else None.

(** The sticky branch: the session's key from the store, or a fresh choice that
    the store keeps unless a concurrent request was first. *)
Definition stickyKey (ctx : KeyCtx) (selector : list Key -> result string Key) (rd : Readings)
    (providerKey : ModelProvider) (model : string) (supportedKeys : list Key) (s : S) : result string Key * S :=
  let kvKey := buildSessionKey providerKey (SessionID ctx) model in
  let ttl := if bool_decide (SessionTTL ctx <= 0)%Z then DefaultSessionStickyTTL else SessionTTL ctx in
  match getCachedKeyFromStore (rd_get rd) kvKey supportedKeys s with
  | (CachedFound k, s) =>
      let '(_, s) := kvSetWithTTL (rd_set rd) kvKey (KVString (k_ID k)) ttl s in (Ok k, s)
  | (c, s) =>
      let s := match c with CachedStale => (kvDelete (rd_delete rd) kvKey s).2 | _ => s end in
      match selector supportedKeys with
      | Err e => (Err e, s)
      | Ok selectedKey =>
          match kvSetNXWithTTL (rd_setnx rd) kvKey (KVString (k_ID selectedKey)) ttl s with
          | (None, s) | (Some true, s) => (Ok selectedKey, s)
          | (Some false, s) =>
              match getCachedKeyFromStore (rd_reget rd) kvKey supportedKeys s with
              | (CachedFound currentKey, s) => (Ok currentKey, s)
              | (CachedStale, s) => (Ok selectedKey, (kvDelete (rd_redelete rd) kvKey s).2)
              | (CachedNone, s) => (Ok selectedKey, s)
              end
          end
      end
  end.

Definition selectKeyFromProviderForModelWithPool (ctx : KeyCtx) (selector : list Key -> result string Key)
    (keysRes : result string (list Key)) (rd : Readings) (requestType : RequestType)
    (providerKey : ModelProvider) (model : string) (base : ModelProvider) (kv : option S) :
    result string (list Key * bool) * option S :=
  match DirectKey ctx with
  | Some key => (Ok ([key], false), kv)
  | None =>
      if SkipKeySelection ctx && isKeySkippingAllowed providerKey then (Ok ([], false), kv)
      else
        match keysRes with
        | Err e => (Err e, kv)
        | Ok [] =>
            if IsKeylessProvider providerKey then (Ok ([], false), kv)
            else (Err ("no keys found for provider: " +:+ (providerKey +:+ (" and model: " +:+ model))), kv)
        | Ok keys =>
            match batchPool requestType providerKey keys with
            | Err e => (Err e, kv)
            | Ok keys =>
                let supportedKeys := supportedKeysFor requestType base model keys in
                if bool_decide (supportedKeys = [])
                then (Err ("no keys found that support model: " +:+ model), kv)
                else
                  match pinned ctx providerKey model supportedKeys with
                  | Some (Ok k) => (Ok ([k], false), kv)
                  | Some (Err e) => (Err e, kv)
                  | None =>
                      match supportedKeys, kv with
                      | [k], _ => (Ok ([k], false), kv)
                      | _, Some s =>
                          if negb (String.eqb (SessionID ctx) "") && (FallbackIndex ctx =? 0)%Z then
                            let '(r, s) := stickyKey ctx selector rd providerKey model supportedKeys s in
                            (match r with Ok k => Ok ([k], false) | Err e => Err e end, Some s)
                          else (Ok (supportedKeys, true), kv)
                      | _, None => (Ok (supportedKeys, true), kv)
                      end
                  end
            end
        end
  end.

End selection.

(** ** Key providers *)

(** [errAllKeysDead] (bare, or wrapped with the provider), [errAllKeysFiltered],
    and an error of the selector. *)
Inductive KeyError := AllKeysDead (provider : option ModelProvider) | AllKeysFiltered (provider : ModelProvider) | SelectorError (msg : string).

(** [err.Error()]. *)
Definition keyErrorText (e : KeyError) : string :=
  match e with
  | AllKeysDead p =>
      "all configured keys returned permanent per-key errors (401/402/403)"
        +:+ (match p with Some p => ": provider " +:+ p | None => "" end)
  | AllKeysFiltered p => "all eligible keys are temporarily suppressed by the key pool filter: provider " +:+ p
  | SelectorError m => m
  end.

Section providers.
(** [W] is the world the filter and the selector read and change (cooldown
    state, clock, random numbers). *)
Context {W : Type}.

(** The hook: a filtered pool or an error. *)
Definition PoolFilter : Type := list Key -> W -> result string (list Key) * W.
Definition Selector : Type := list Key -> W -> result string Key * W.

(** [keyProvider]: it may reset the set of used keys. *)
Definition KeyProvider : Type := gset string -> gset string -> W -> result KeyError Key * gset string * W.

(** The filter when it is installed; its errors are logged and ignored. *)
Definition applyFilter (f : option PoolFilter) (keys : list Key) (w : W) : list Key * W :=
  match f with
  | None => (keys, w)
  | Some f => match f keys w with (Ok filtered, w) => (filtered, w) | (Err _, w) => (keys, w) end
  end.

Definition newFixedKeyProvider (f : option PoolFilter) (providerKey : ModelProvider) (fixedKey : Key) : KeyProvider :=
  fun used dead w =>
    if bool_decide (k_ID fixedKey ∈ dead) then (Err (AllKeysDead None), used, w)
    else
      match applyFilter f [fixedKey] w with
      | ([], w) => (Err (AllKeysFiltered providerKey), used, w)
      | (_, w) => (Ok fixedKey, used, w)
      end.

Definition select (sel : Selector) (available : list Key) (used : gset string) (w : W) :
    result KeyError Key * gset string * W :=
  match sel available w with
  | (Ok k, w) => (Ok k, used, w)
  | (Err e, w) => (Err (SelectorError e), used, w)
  end.

Definition rotatingKeyProvider (f : option PoolFilter) (sel : Selector) (provKey : ModelProvider) (pool : list Key) :
    KeyProvider :=
  fun used dead w =>
    let available := filter (fun k => (k_ID k ∉ dead) /\ (k_ID k ∉ used)) pool in
    match applyFilter f available w with
    | ([], w) =>
        let live := filter (fun k => k_ID k ∉ dead) pool in
        match applyFilter f live w with
        | ([], w) =>
            (Err (if bool_decide (live = []) then AllKeysDead (Some provKey) else AllKeysFiltered provKey), used, w)
        | (available, w) => select sel available ∅ w
        end
    | (available, w) => select sel available used w
    end.

End providers.
Arguments PoolFilter : clear implicits.
Arguments Selector : clear implicits.
Arguments KeyProvider : clear implicits.

End KeySelection.
