(* ===== verification/KeySelectionTheory.v ===== *)
(** * Key selection: theorems

    Weighted selection gives each key an interval of random values as long as
    its weight; the rotating provider never returns a dead key and says truly
    why it has none; the sticky key of a session stays the same as long as the
    store keeps it, proved against the store's interface, which the store of
    [KVStore] implements. *)

From S2P Require Import Prelude GoStrings Schemas KVStore KeySelection.
Local Open Scope string_scope.
Local Open Scope list_scope.

Module KeySelectionProofs.
Import Schemas KeySelection.

(** ** Weighted selection *)

Lemma totalWeight_from s keys : foldl (fun s k => (s + k_Weight100 k)%Z) s keys = (s + totalWeight keys)%Z.
Proof.
  unfold totalWeight. revert s. induction keys as [|k keys IH]; intros s; cbn; [lia|].
  rewrite IH, (IH (0 + k_Weight100 k)%Z). lia.
Qed.

Lemma totalWeight_cons k keys : totalWeight (k :: keys) = (k_Weight100 k + totalWeight keys)%Z.
Proof. unfold totalWeight at 1. cbn [foldl]. rewrite totalWeight_from. lia. Qed.

Lemma totalWeight_app l1 l2 : totalWeight (l1 ++ l2) = (totalWeight l1 + totalWeight l2)%Z.
Proof.
  induction l1 as [|k l1 IH]; [done|]. cbn [app]. rewrite !totalWeight_cons, IH. lia.
Qed.

Lemma totalWeight_nonneg keys : Forall (fun k => 0 <= k_Weight100 k)%Z keys -> (0 <= totalWeight keys)%Z.
Proof. induction 1; [done|]. rewrite totalWeight_cons. lia. Qed.

Lemma pickWeighted_interval l1 k l2 c r :
  Forall (fun k => 0 <= k_Weight100 k)%Z l1 ->
  (c + totalWeight l1 <= r < c + totalWeight l1 + k_Weight100 k)%Z ->
  pickWeighted r c (l1 ++ k :: l2) = Some k.
Proof.
  intros Hnn. revert c. induction Hnn as [|x l1 Hx Hnn IH]; intros c Hr; cbn [app pickWeighted].
  - cbn in Hr. rewrite bool_decide_eq_true_2; [done|]. lia.
  - rewrite totalWeight_cons in Hr. pose proof (totalWeight_nonneg l1 Hnn).
    rewrite bool_decide_eq_false_2 by lia. apply IH. lia.
Qed.

(** Every value below the total falls into the interval of some key. *)
Lemma interval_exists keys r :
  Forall (fun k => 0 <= k_Weight100 k)%Z keys -> (0 <= r < totalWeight keys)%Z ->
  exists l1 k l2, keys = l1 ++ k :: l2 /\ (totalWeight l1 <= r < totalWeight l1 + k_Weight100 k)%Z.
Proof.
  intros Hnn. revert r. induction Hnn as [|x keys Hx Hnn IH]; intros r Hr; [cbn in Hr; lia|].
  rewrite totalWeight_cons in Hr. destruct (decide (r < k_Weight100 x)%Z).
  - exists [], x, keys. split; [done|]. cbn. lia.
  - destruct (IH (r - k_Weight100 x)%Z) as (l1 & k & l2 & -> & Hi); [lia|].
    exists (x :: l1), k, l2. split; [done|]. rewrite totalWeight_cons. lia.
Qed.

(** Weighted selection: with non-negative weights of positive sum, a key is
    chosen exactly when the random value falls in its interval of the running
    sums, whose length is its weight (so a uniform random value chooses each
    key with probability weight over total), and every value chooses a key of
    positive weight. *)
Theorem WeightedRandom_intervals (keys : list Key) (r : Z) :
  Forall (fun k => 0 <= k_Weight100 k)%Z keys -> (0 <= r < totalWeight keys)%Z ->
  (forall l1 k l2, keys = l1 ++ k :: l2 -> (totalWeight l1 <= r < totalWeight l1 + k_Weight100 k)%Z ->
     WeightedRandom (fun _ => r) keys = Some k) /\
  exists k, WeightedRandom (fun _ => r) keys = Some k /\ k ∈ keys /\ (0 < k_Weight100 k)%Z.
Proof.
  intros Hnn Hr.
  assert (forall l1 k l2, keys = l1 ++ k :: l2 -> (totalWeight l1 <= r < totalWeight l1 + k_Weight100 k)%Z ->
            WeightedRandom (fun _ => r) keys = Some k) as Hint.
  { intros l1 k l2 -> Hi. unfold WeightedRandom. rewrite !bool_decide_eq_false_2 by lia.
    apply Forall_app in Hnn as [Hnn _]. by rewrite (pickWeighted_interval l1 k l2 0 r) by (done || lia). }
  split; [exact Hint|]. destruct (interval_exists keys r Hnn Hr) as (l1 & k & l2 & Hk & Hi).
  exists k. split; [by apply (Hint l1 k l2)|]. split; [subst; set_solver|]. lia.
Qed.

Definition weighted (id : string) (w : Z) : Key :=
  mkKey id id "sk" ["*"] [] w None false false false None None None None None.

Lemma WeightedRandom_intervals_witness :
  WeightedRandom (fun _ => 30%Z) [weighted "a" 30; weighted "b" 0; weighted "c" 70] = Some (weighted "c" 70).
Proof.
  apply (proj1 (WeightedRandom_intervals [weighted "a" 30; weighted "b" 0; weighted "c" 70] 30
            ltac:(repeat constructor; vm_compute; discriminate) ltac:(vm_compute; split; [discriminate|reflexivity]))
           [weighted "a" 30; weighted "b" 0] (weighted "c" 70) []); [reflexivity|].
  vm_compute. split; [discriminate|reflexivity].
Defined.

(** ** The rotating provider *)

Section rotating.
Context {W : Type} (f : option (PoolFilter W)) (sel : Selector W).

(** What the hooks may return: some of the keys they are given. *)
Definition filter_sound : Prop :=
  forall g keys w ks w', f = Some g -> g keys w = (Ok ks, w') -> forall k, k ∈ ks -> k ∈ keys.
Definition selector_sound : Prop := forall keys w k w', sel keys w = (Ok k, w') -> k ∈ keys.

Context (Hf : filter_sound) (Hsel : selector_sound).

Lemma applyFilter_sub keys w ks w' : applyFilter f keys w = (ks, w') -> forall k, k ∈ ks -> k ∈ keys.
Proof.
  unfold applyFilter. destruct f as [g|] eqn:Eg; [|by intros [= <- <-]].
  destruct (g keys w) as [[ks1|e] w1] eqn:E; intros [= <- <-]; [|done]. by eapply Hf.
Qed.

(** What a key provider promises the retry loop: the key is not dead and is
    one of the pool. *)
Definition provides (pool : list Key) (kp : KeyProvider W) : Prop :=
  forall used dead w k used' w', kp used dead w = (Ok k, used', w') -> k ∈ pool /\ k_ID k ∉ dead.

Lemma rotating_provides provKey pool : provides pool (rotatingKeyProvider f sel provKey pool).
Proof.
  intros used dead w k used' w'. unfold rotatingKeyProvider, select.
  destruct (applyFilter f (filter _ pool) w) as [[|a1 ks1] w1] eqn:E1.
  - destruct (applyFilter f (filter _ pool) w1) as [[|a2 ks2] w2] eqn:E2; [done|].
    destruct (sel (a2 :: ks2) w2) as [[k2|e] w3] eqn:Es; [|done]. intros [= <- <- <-].
    apply Hsel in Es. apply (applyFilter_sub _ _ _ _ E2) in Es. apply list_elem_of_filter in Es. tauto.
  - destruct (sel (a1 :: ks1) w1) as [[k2|e] w3] eqn:Es; [|done]. intros [= <- <- <-].
    apply Hsel in Es. apply (applyFilter_sub _ _ _ _ E1) in Es. apply list_elem_of_filter in Es. tauto.
Qed.

(** The rotating provider.  A key it returns is in the pool and not dead;
    either it has not been used this round, or the round was over (no unused
    live key passed the filter) and the used keys were forgotten.  When it
    returns no key because all are dead, all are dead; when because of the
    filter, some live key exists. *)
Theorem rotating_spec provKey pool used dead w r used' w' :
  rotatingKeyProvider f sel provKey pool used dead w = (r, used', w') ->
  match r with
  | Ok k => (k ∈ pool) /\ (k_ID k ∉ dead) /\
            ((used' = used /\ k_ID k ∉ used) \/
             (used' = ∅ /\ (applyFilter f (filter (fun k => (k_ID k ∉ dead) /\ (k_ID k ∉ used)) pool) w).1 = []))
  | Err (AllKeysDead _) => forall k, k ∈ pool -> k_ID k ∈ dead
  | Err (AllKeysFiltered p) => p = provKey /\ exists k, k ∈ pool /\ k_ID k ∉ dead
  | Err (SelectorError _) => True
  end.
Proof.
  unfold rotatingKeyProvider, select.
  destruct (applyFilter f (filter _ pool) w) as [[|a1 ks1] w1] eqn:E1.
  - destruct (applyFilter f (filter _ pool) w1) as [[|a2 ks2] w2] eqn:E2.
    + intros [= <- <- <-]. case_bool_decide as Hl.
      * intros k Hk. destruct (decide (k_ID k ∈ dead)); [done|]. exfalso.
        assert (k ∈ filter (fun k => k_ID k ∉ dead) pool) as Hin by (apply list_elem_of_filter; split; done).
        rewrite Hl in Hin. set_solver.
      * split; [done|]. destruct (filter (fun k => k_ID k ∉ dead) pool) as [|k l] eqn:Efl; [done|].
        assert (k ∈ filter (fun k => k_ID k ∉ dead) pool) as Hin by (rewrite Efl; set_solver).
        apply list_elem_of_filter in Hin. exists k. tauto.
    + destruct (sel (a2 :: ks2) w2) as [[k|e] w3] eqn:Es; intros [= <- <- <-]; [|done].
      apply Hsel, (applyFilter_sub _ _ _ _ E2), list_elem_of_filter in Es. split_and!; tauto.
  - destruct (sel (a1 :: ks1) w1) as [[k|e] w3] eqn:Es; intros [= <- <- <-]; [|done].
    apply Hsel, (applyFilter_sub _ _ _ _ E1), list_elem_of_filter in Es. split_and!; tauto.
Qed.

Lemma fixed_provides provKey k0 : provides [k0] (newFixedKeyProvider f provKey k0).
Proof.
  intros used dead w k used' w'. unfold newFixedKeyProvider. case_bool_decide; [done|].
  destruct (applyFilter f [k0] w) as [[|a ks] w1]; [done|]. intros [= <- <- <-]. set_solver.
Qed.

End rotating.

(** The selector that takes the first key. *)
Definition firstKey : Selector unit := fun keys w => (match keys with [] => Err "none" | k :: _ => Ok k end, w).

Lemma firstKey_sound : selector_sound firstKey.
Proof. intros [|k0 keys] w k w'; cbn; intros [= <- <-]; set_solver. Qed.

Lemma no_filter_sound : filter_sound (W := unit) None.
Proof. done. Qed.

Lemma rotating_spec_witness :
  rotatingKeyProvider None firstKey "openai" [weighted "a" 1; weighted "b" 1] {["b"]} {["a"]} tt
    = (Ok (weighted "b" 1), ∅, tt) /\
  weighted "b" 1 ∈ [weighted "a" 1; weighted "b" 1] /\ "b" ∉ ({["a"]} : gset string).
Proof.
  assert (rotatingKeyProvider None firstKey "openai" [weighted "a" 1; weighted "b" 1] {["b"]} {["a"]} tt
    = (Ok (weighted "b" 1), ∅, tt)) as E by (vm_compute; reflexivity).
  split; [exact E|].
  destruct (rotating_spec None firstKey no_filter_sound firstKey_sound _ _ _ _ _ _ _ _ E) as (H1 & H2 & _).
  split; [exact H1|exact H2].
Defined.

(** ** The store behind the interface *)

#[global] Instance store_KVStoreI (Marshal : KVValue -> option string) : KVStoreI (KV.Store KVValue).
Proof.
  refine {|
    kvGet now k s := match KV.Get s k now now with (Ok v, s') => (Some v, s') | (Err _, s') => (None, s') end;
    kvSetWithTTL now k v ttl s :=
      match KV.SetWithTTL Marshal s k v ttl now with (Ok _, s', _) => (true, s') | (Err _, s', _) => (false, s') end;
    kvSetNXWithTTL now k v ttl s :=
      match KV.SetNXWithTTL Marshal s k v ttl now with (Ok b, s', _) => (Some b, s') | (Err _, s', _) => (None, s') end;
    kvDelete now k s :=
      match KV.Delete s k now with (Ok _, s', _) => (true, s') | (Err _, s', _) => (false, s') end |}.
  - intros now k v ttl s s' now' H0 Httl Hov Hr. unfold KV.SetWithTTL, KV.validateMutable.
    case_bool_decide as Hk; [done|]. rewrite bool_decide_eq_false_2 by lia.
    destruct (KV.closed s) eqn:Hc; [done|]. destruct (KV.marshalFor Marshal s v); [|done].
    intros [= <-]. unfold KV.Get. rewrite bool_decide_eq_false_2 by done. cbn. rewrite Hc, lookup_insert_eq.
    unfold KV.isExpired, KV.expiry. cbn. rewrite (bool_decide_eq_true_2 (ttl > 0)%Z) by lia.
    rewrite wrap64_id by (unfold in_int64, two63 in *; lia).
    rewrite (bool_decide_eq_false_2 (now' >= now + ttl)%Z) by lia. by rewrite andb_false_r.
  - intros now k v ttl s s' now' H0 Httl Hov Hr. unfold KV.SetNXWithTTL, KV.validateMutable.
    case_bool_decide as Hk; [done|]. rewrite bool_decide_eq_false_2 by lia.
    destruct (KV.closed s) eqn:Hc; [done|]. destruct (KV.marshalFor Marshal s v); [|done].
    destruct (match KV.data s !! k with Some _ => _ | None => false end); [done|].
    intros [= <-]. unfold KV.Get. rewrite bool_decide_eq_false_2 by done. cbn. rewrite Hc, lookup_insert_eq.
    unfold KV.isExpired, KV.expiry. cbn. rewrite (bool_decide_eq_true_2 (ttl > 0)%Z) by lia.
    rewrite wrap64_id by (unfold in_int64, two63 in *; lia).
    rewrite (bool_decide_eq_false_2 (now' >= now + ttl)%Z) by lia. by rewrite andb_false_r.
  - intros now k v ttl s s'. unfold KV.SetNXWithTTL, KV.validateMutable.
    case_bool_decide as Hk; [done|]. destruct (bool_decide (ttl < 0)%Z); [done|].
    destruct (KV.closed s) eqn:Hc; [done|]. destruct (KV.marshalFor Marshal s v); [|done].
    destruct (KV.data s !! k) as [e|] eqn:Hd; [|done]. destruct (KV.isExpired e now) eqn:He; [done|].
    intros [= <-]. split; [done|]. exists (KV.value e). unfold KV.Get.
    rewrite bool_decide_eq_false_2 by done. by rewrite Hc, Hd, He.
Defined.

(** ** Session stickiness *)

Section sticky.
Context {S : Type} `{KVStoreI S} (sha256hex : string -> string) (unquote : string -> option string).
Context (ctx : KeyCtx) (p : ModelProvider) (m : string).

Definition sessionKey : string := buildSessionKey sha256hex p (SessionID ctx) m.
Definition sessionTTL : Z :=
  if bool_decide (SessionTTL ctx <= 0)%Z then DefaultSessionStickyTTL else SessionTTL ctx.

Lemma sessionTTL_pos : (0 < sessionTTL)%Z.
Proof. unfold sessionTTL. case_bool_decide; [done|lia]. Qed.

(** The store answers the session's key during the TTL after [t]. *)
Definition remembers (k : Key) (t : Z) (s : S) : Prop :=
  forall t', (t <= t' < t + sessionTTL)%Z -> kvGet t' sessionKey s = (Some (KVString (k_ID k)), s).

(** Later requests of the session, each with its own selector, supported keys
    and clock readings: each comes within the TTL of the last write, supports
    the key, and its refresh succeeds. *)
Inductive later (k : Key) : Z -> S -> list (result string Key) -> Prop :=
| later_nil t s : later k t s []
| later_cons t s sel ks rd r s' rs s2 :
    (t <= rd_get rd < t + sessionTTL)%Z -> (0 <= rd_set rd)%Z -> (rd_set rd + sessionTTL < two63)%Z ->
    head (filter (fun x => k_ID x = k_ID k) ks) = Some k ->
    stickyKey sha256hex unquote ctx sel rd p m ks s = (r, s') ->
    kvSetWithTTL (rd_set rd) sessionKey (KVString (k_ID k)) sessionTTL s = (true, s2) ->
    later k (rd_set rd) s' rs -> later k t s (r :: rs).

Lemma later_sticks k t s rs : k_ID k <> "" -> remembers k t s -> later k t s rs -> Forall (fun r => r = Ok k) rs.
Proof.
  intros Hid Hrem Hl. induction Hl as [|t s sel ks rd r s' rs s2 Hget Hpos Hov Hk Hst Hset _ IH]; [done|].
  unfold stickyKey, getCachedKeyFromStore in Hst. fold sessionKey in Hst. rewrite (Hrem _ Hget) in Hst.
  rewrite (proj2 (String.eqb_neq _ _) Hid), Hk in Hst. fold sessionTTL in Hst. rewrite Hset in Hst.
  injection Hst as <- <-. constructor; [done|]. apply IH. intros t' Ht'.
  eapply (kv_set_get (rd_set rd)); eauto using sessionTTL_pos.
Qed.

(** A session sticks to its key: when the first request of a session finds
    no entry, chooses a key and stores it, every later request of the session
    (within the TTL of the last one, its refresh succeeding, the key still
    supporting the model) gets that key, whatever its selector would choose. *)
Theorem session_sticks k sel ks rd s s0 s1 rs :
  k_ID k <> "" -> sel ks = Ok k ->
  kvGet (rd_get rd) sessionKey s = (None, s0) ->
  kvSetNXWithTTL (rd_setnx rd) sessionKey (KVString (k_ID k)) sessionTTL s0 = (Some true, s1) ->
  (0 <= rd_setnx rd)%Z -> (rd_setnx rd + sessionTTL < two63)%Z ->
  later k (rd_setnx rd) s1 rs ->
  stickyKey sha256hex unquote ctx sel rd p m ks s = (Ok k, s1) /\ Forall (fun r => r = Ok k) rs.
Proof.
  intros Hid Hsel Hget Hset Hpos Hov Hl. split.
  - unfold stickyKey, getCachedKeyFromStore. fold sessionKey. rewrite Hget, Hsel. fold sessionTTL. by rewrite Hset.
  - eapply later_sticks; [done| |exact Hl]. intros t' Ht'.
    eapply (kv_setnx_get (rd_setnx rd)); eauto using sessionTTL_pos.
Qed.
End sticky.

(** ** A witness on the store of [KVStore] *)

Definition storeWith : KVStoreI (KV.Store KVValue) := store_KVStoreI (fun _ => Some "").
Definition digest (s : string) : string := s.
Definition emptyStore : KV.Store KVValue := KV.mkStore ∅ 0 KV.defaultCleanupInterval false false ∅.
Definition sessionCtx : KeyCtx := mkKeyCtx None false None None "s1" 0 0.
Definition pool2 : list Key := [weighted "a" 1; weighted "b" 1].
Definition at_ (t : Z) : Readings := mkReadings t t t t t t.

Definition secondRequest : result string Key * KV.Store KVValue :=
  @stickyKey _ storeWith digest Some sessionCtx (fun _ => Ok (weighted "a" 1)) (at_ 20) "openai" "gpt" pool2
    (@stickyKey _ storeWith digest Some sessionCtx (fun _ => Ok (weighted "b" 1)) (at_ 10) "openai" "gpt" pool2
       emptyStore).2.

Lemma session_sticks_witness : secondRequest.1 = Ok (weighted "b" 1).
Proof.
  pose (s1 := (@stickyKey _ storeWith digest Some sessionCtx (fun _ => Ok (weighted "b" 1)) (at_ 10) "openai" "gpt" pool2
       emptyStore).2).
  assert (Forall (fun r => r = Ok (weighted "b" 1)) [secondRequest.1]) as Hall.
  { refine (proj2 (@session_sticks _ storeWith digest Some sessionCtx "openai" "gpt" (weighted "b" 1)
              (fun _ => Ok (weighted "b" 1)) pool2 (at_ 10) emptyStore emptyStore s1 [secondRequest.1] _ _ _ _ _ _ _)).
    1-4: vm_compute; (reflexivity || discriminate).
    1-2: vm_compute; (reflexivity || discriminate).
    eapply (@later_cons _ storeWith digest Some sessionCtx "openai" "gpt" (weighted "b" 1) 10 s1
              (fun _ => Ok (weighted "a" 1)) pool2 (at_ 20) _ secondRequest.2 []);
      [vm_compute; split; (reflexivity || discriminate)|vm_compute; discriminate|vm_compute; reflexivity
      |vm_compute; reflexivity|vm_compute; reflexivity|vm_compute; reflexivity|apply later_nil]. }
  by apply Forall_cons_1 in Hall as [? _].
Defined.

End KeySelectionProofs.
