(* ===== verification/Retry.v ===== *)
(** * The retry loop (src/core/bifrost.go, [executeRequestWithRetries])

    One request to one provider, with its retries: key selection and rotation,
    the attempt trail, backoff, the classification of failures, the report of
    per-key failures to the marker, and the one extra attempt after rejected
    encrypted reasoning is stripped.  The provider call, the check of a
    stream's first chunk, the key provider, the marker and the random jitter
    are arguments; what they do to the rest of the system is their effect on a
    world [W].  Spans, debug logs and latency records are left out. *)

From S2P Require Import Prelude GoStrings Schemas CooldownPolicy KVStore KeySelection.
Local Open Scope string_scope.

Module Retry.
Import Schemas KeySelection.

(** ** Classification tables (src/core/utils.go) *)

Definition transientServerStatusCodes : list Z := [500; 502; 503; 504]%Z.
Definition perKeyFailureStatusCodes : list Z := [401; 402; 403; 429]%Z.

Definition rateLimitPatterns : list string :=
  ["rate limit"; "rate_limit"; "ratelimit"; "too many requests"; "quota exceeded"; "quota_exceeded";
   "request limit"; "throttled"; "throttling"; "rate exceeded"; "limit exceeded"; "requests per";
   "rpm exceeded"; "tpm exceeded"; "tokens per minute"; "requests per minute"; "requests per second";
   "api rate limit"; "usage limit"; "concurrent requests limit"; "burst_rate"; "rate increased"].

Definition IsRateLimitErrorMessage (errorMessage : string) : bool :=
  if String.eqb errorMessage "" then false
  else existsb (Contains (ToLower errorMessage)) rateLimitPatterns.

Definition nonEmpty (s : option string) : option string :=
  match s with Some "" | None => None | Some s => Some s end.

Definition routingErrorSummary (e : option BifrostError) : string :=
  match e with
  | None => "unknown error"
  | Some e =>
      let typ := match nonEmpty (be_Error e ≫= ef_Type) with Some t => Some t | None => nonEmpty (be_Type e) end in
      let code := match be_StatusCode e with Some c => Some ("HTTP " +:+ Itoa c) | None => None end in
      match typ, code with
      | Some t, Some c => t +:+ (" " +:+ c)
      | Some t, None => t
      | None, Some c => c
      | None, None => "request failed"
      end
  end.

Definition newBifrostErrorFromMsg (message : string) : BifrostError :=
  mkError None false None (Some (mkErrorField None None message None)) None emptyExtra.

(** ** Backoff *)

(** [1 << uint(attempt)] as a [Duration]. *)
Definition shl1 (attempt : Z) : Z := if bool_decide (64 <= attempt)%Z then 0 else wrap64 (2 ^ attempt).

(** [calculateBackoff]; [jitter b] is the truncation of [float64(b) * (0.8 + 0.4 * rand)]. *)
Definition calculateBackoff (jitter : Z -> Z) (initial maxB attempt : Z) : Z :=
  let backoff := Z.min (wrap64 (initial * shl1 attempt)) maxB in
  Z.min (jitter backoff) maxB.

(** ** Encrypted reasoning (src/core/encryptedreasoning.go) *)

Definition encryptedContentErrorCode : string := "invalid_encrypted_content".

Definition isEncryptedReasoningRejection (err : option BifrostError) : bool :=
  match err with
  | None => false
  | Some e =>
      match be_Error e with
      | None => false
      | Some f =>
          if negb (bool_decide (be_StatusCode e = Some 400%Z)) then false
          else
            match ef_Code f with Some c => Contains c encryptedContentErrorCode | None => false end ||
            (let message := ToLower (ef_Message f) in
             Contains message encryptedContentErrorCode ||
             (Contains message "encrypted content" && Contains message "could not be verified") ||
             (Contains message "invalid `data`" && Contains message "`redacted_thinking` block"))
      end
  end.

(** ** Errors of key selection *)

Definition RequestCancelled : string := "request_cancelled".
Definition ErrProviderDoRequest : string := "failed to execute HTTP request to provider API".
Definition ErrProviderNetworkError : string :=
  "network error occurred while connecting to provider API (DNS lookup, connection refused, etc.)".

(** The synthetic errors of a failed selection: 429 when the filter vetoed
    every key, 502 when every key is dead, the bare message otherwise. *)
Definition keySelectionError (providerKey : ModelProvider) (retryAfter : option Z) (e : KeyError) : BifrostError :=
  match e with
  | AllKeysFiltered _ =>
      noEligibleKeysError providerKey
        (match retryAfter with Some v => if bool_decide (0 < v)%Z then v else 0%Z | None => 0%Z end)
  | AllKeysDead _ =>
      mkError (Some "upstream_credentials_exhausted") false (Some 502%Z)
        (Some (mkErrorField (Some "upstream_credentials_exhausted") None (keyErrorText e) None)) None emptyExtra
  | SelectorError _ => newBifrostErrorFromMsg (keyErrorText e)
  end.

Definition isSyntheticNoEligibleKeysError (err : option BifrostError) : bool :=
  match err with
  | None => false
  | Some e =>
      match be_StatusCode e with
      | None => false
      | Some status =>
          (bool_decide (status = 429%Z) || bool_decide (status = 503%Z)) &&
          bool_decide (be_Type e = Some "no_eligible_keys")
      end
  end.

(** ** Classification of a failure *)

Definition statusIn (e : BifrostError) (l : list Z) : bool :=
  match be_StatusCode e with Some c => bool_decide (c ∈ l) | None => false end.

Definition optRateLimit (s : option string) : bool :=
  match s with Some s => IsRateLimitErrorMessage s | None => false end.

Definition isPerKeyFailure (e : BifrostError) : bool :=
  statusIn e perKeyFailureStatusCodes ||
  match be_Error e with
  | None => false
  | Some f => IsRateLimitErrorMessage (ef_Message f) || optRateLimit (ef_Type f) || optRateLimit (ef_Code f)
  end.

(** [shouldRetry] before the encrypted-reasoning exception. *)
Definition shouldRetry (e : BifrostError) : bool :=
  match be_Error e with
  | Some f => String.eqb (ef_Message f) ErrProviderDoRequest || String.eqb (ef_Message f) ErrProviderNetworkError
  | None => false
  end || statusIn e transientServerStatusCodes || isPerKeyFailure e.

Definition isPermanentKeyFailure (e : BifrostError) : bool := statusIn e [401; 402; 403]%Z.

(** An attempt that ends the loop: success, an internal error, a cancelled
    request. *)
Definition isCancelled (e : BifrostError) : bool := bool_decide (be_Error e ≫= ef_Type = Some RequestCancelled).

Definition endsLoop (e : option BifrostError) : bool :=
  match e with None => true | Some e => be_IsBifrostError e || isCancelled e end.

Definition failReason (e : BifrostError) : string :=
  match be_StatusCode e with
  | Some 429%Z => "rate_limit_error"
  | Some 401%Z | Some 403%Z => "authentication_error"
  | Some 402%Z => "billing_error"
  | _ => default "unknown" (nonEmpty (be_Error e ≫= ef_Type))
  end.

(** ** The request context *)

Record RCtx := mkRCtx {
  NumberOfRetries : Z;
  AttemptTrail : option (list KeyAttemptRecord);
  SelectedKeyID : string;
  SelectedKeyName : string;
  RetryAfterSeconds : option Z;
  EnginesUsed : list string;
  EngineLog : list string;
  HasTracer : bool }.

Definition set_retries (c : RCtx) (n : Z) : RCtx :=
  mkRCtx n (AttemptTrail c) (SelectedKeyID c) (SelectedKeyName c) (RetryAfterSeconds c) (EnginesUsed c) (EngineLog c) (HasTracer c).
Definition set_trail (c : RCtx) (t : option (list KeyAttemptRecord)) : RCtx :=
  mkRCtx (NumberOfRetries c) t (SelectedKeyID c) (SelectedKeyName c) (RetryAfterSeconds c) (EnginesUsed c) (EngineLog c) (HasTracer c).
Definition set_selected (c : RCtx) (id name : string) : RCtx :=
  mkRCtx (NumberOfRetries c) (AttemptTrail c) id name (RetryAfterSeconds c) (EnginesUsed c) (EngineLog c) (HasTracer c).

(** [AppendToContextList] of the core engine (no duplicates) and
    [AppendRoutingEngineLog], which skips an entry equal to an earlier one in
    engine, level, text and millisecond: the texts of one run of the loop all
    differ, so it appends. *)
Definition addLog (c : RCtx) (msg : string) : RCtx :=
  mkRCtx (NumberOfRetries c) (AttemptTrail c) (SelectedKeyID c) (SelectedKeyName c) (RetryAfterSeconds c)
    (EnginesUsed c) (EngineLog c ++ [msg])%list (HasTracer c).
Definition useCore (c : RCtx) : RCtx :=
  mkRCtx (NumberOfRetries c) (AttemptTrail c) (SelectedKeyID c) (SelectedKeyName c) (RetryAfterSeconds c)
    (if bool_decide ("core" ∈ EnginesUsed c) then EnginesUsed c else (EnginesUsed c ++ ["core"])%list) (EngineLog c) (HasTracer c).

(** ** The loop *)

Section loop.
Context {T W : Type}.

Record Env := mkEnv {
  MaxRetries : Z;
  RetryBackoffInitial : Z;
  RetryBackoffMax : Z;
  requestHandler : Key -> W -> T * option BifrostError * W;
  checkFirstChunk : T -> W -> T * option BifrostError * W;
  keyProvider : option (KeyProvider W);
  readRetryAfter : W -> option Z;
  perKeyFailureMarker : Key -> BifrostError -> W -> W;
  stripEncrypted : W -> bool * W;
  jitter : Z -> W -> Z * W;
  providerKey : ModelProvider;
  model : string }.

(** What the loop did to the outside, in order. *)
Inductive event :=
| EvSleep (d : Z)
| EvCall (k : Key) (err : option BifrostError)
| EvMark (k : Key) (err : BifrostError).

Record Loop := mkLoop {
  attempts : Z;
  currentKey : Key;
  usedKeyIDs : gset string;
  deadKeyIDs : gset string;
  lastWasPerKeyFailure : bool;
  lastWasPermanentKeyFailure : bool;
  previousKeyID : string;
  pendingRotation : option nat;
  extraAttempts : Z;
  strippedEncryptedContent : bool;
  lastWasEncryptedContentStrip : bool;
  result : T;
  bifrostError : option BifrostError;
  ctx : RCtx;
  events : list event }.

Definition with_ctx (s : Loop) (c : RCtx) : Loop :=
  mkLoop (attempts s) (currentKey s) (usedKeyIDs s) (deadKeyIDs s) (lastWasPerKeyFailure s)
    (lastWasPermanentKeyFailure s) (previousKeyID s) (pendingRotation s) (extraAttempts s)
    (strippedEncryptedContent s) (lastWasEncryptedContentStrip s) (result s) (bifrostError s) c (events s).
Definition with_event (s : Loop) (e : event) : Loop :=
  mkLoop (attempts s) (currentKey s) (usedKeyIDs s) (deadKeyIDs s) (lastWasPerKeyFailure s)
    (lastWasPermanentKeyFailure s) (previousKeyID s) (pendingRotation s) (extraAttempts s)
    (strippedEncryptedContent s) (lastWasEncryptedContentStrip s) (result s) (bifrostError s) (ctx s) (events s ++ [e])%list.
Definition with_key (s : Loop) (k : Key) (used : gset string) (pending : option nat) : Loop :=
  mkLoop (attempts s) k used (deadKeyIDs s) (lastWasPerKeyFailure s)
    (lastWasPermanentKeyFailure s) (previousKeyID s) pending (extraAttempts s)
    (strippedEncryptedContent s) (lastWasEncryptedContentStrip s) (result s) (bifrostError s) (ctx s) (events s).
Definition with_outcome (s : Loop) (r : T) (e : option BifrostError) : Loop :=
  mkLoop (attempts s) (currentKey s) (usedKeyIDs s) (deadKeyIDs s) (lastWasPerKeyFailure s)
    (lastWasPermanentKeyFailure s) (previousKeyID s) (pendingRotation s) (extraAttempts s)
    (strippedEncryptedContent s) (lastWasEncryptedContentStrip s) r e (ctx s) (events s).

(** How an iteration ends: out of the loop, out of the function, or on. *)
Inductive outcome := Break (s : Loop) | Return (s : Loop) | Continue (s : Loop).

(** The start of an iteration: the retry count, and a fresh trail on the first. *)
Definition startAttempt (env : Env) (s : Loop) : Loop :=
  let c := set_retries (ctx s) (attempts s) in
  with_ctx s (match keyProvider env with
              | Some _ => if bool_decide (attempts s = 0)%Z then set_trail c (Some []) else c
              | None => c
              end).

(** The resolution of a pending rotation marker once the next key is known. *)
Definition resolvePending (s : Loop) (k : Key) : RCtx :=
  match pendingRotation s, AttemptTrail (ctx s) with
  | Some i, Some trail =>
      match trail !! i with
      | Some rec =>
          if bool_decide (KeyID rec <> k_ID k)
          then set_trail (ctx s)
                 (Some (<[i := mkAttempt (Attempt rec) (KeyID rec) (KeyName rec) (FailReason rec) true]> trail))
          else ctx s
      | None => ctx s
      end
  | _, _ => ctx s
  end.

(** Key selection: on the first attempt and after a per-key failure. *)
Definition selectStep (env : Env) (s : Loop) (zero : T) (w : W) : (Loop + Loop) * W :=
  match keyProvider env with
  | Some kp =>
      if bool_decide (attempts s = 0)%Z || lastWasPerKeyFailure s then
        match kp (usedKeyIDs s) (deadKeyIDs s) w with
        | (Err e, used, w) =>
            let c := set_selected (ctx s) "" "" in
            (inr (with_outcome (with_ctx (with_key s (currentKey s) used (pendingRotation s)) c) zero
                    (Some (keySelectionError (providerKey env) (readRetryAfter env w) e))), w)
        | (Ok k, used, w) =>
            let c := set_selected (resolvePending s k) (k_ID k) (k_Name k) in
            (inl (with_ctx (with_key s k used None) c), w)
        end
      else (inl s, w)
  | None => (inl s, w)
  end.

(** [AppendToContextList] of the attempt's record, which skips a record the
    list already has. *)
Definition appendTrail (env : Env) (s : Loop) : Loop :=
  match keyProvider env with
  | None => s
  | Some _ =>
      let rec := mkAttempt (attempts s) (k_ID (currentKey s)) (k_Name (currentKey s)) None false in
      let trail := default [] (AttemptTrail (ctx s)) in
      with_ctx s (if bool_decide (rec ∈ trail) then ctx s else set_trail (ctx s) (Some (trail ++ [rec])%list))
  end.

(** The log entry and the sleep before a retry.  The backoff is skipped when
    the retry goes to another key after a dead one, or after a strip. *)
Definition retryWait (env : Env) (s : Loop) (w : W) : Loop * W :=
  if bool_decide (attempts s <= 0)%Z then (s, w)
  else
    let hasProvider := match keyProvider env with Some _ => true | None => false end in
    let keyChanged := hasProvider && bool_decide (k_ID (currentKey s) <> previousKeyID s) in
    let keyNote :=
      if hasProvider
      then "; " +:+ ((if keyChanged then "rotated key" else "same key") +:+ ("=" +:+ k_Name (currentKey s)))
      else "" in
    let msg :=
      "Retry " +:+ (Itoa (attempts s) +:+ ("/" +:+ (Itoa (MaxRetries env + extraAttempts s) +:+ (" for "
        +:+ (providerKey env +:+ ("/" +:+ (model env +:+ (" (previous attempt failed: "
        +:+ (routingErrorSummary (bifrostError s) +:+ (keyNote +:+ ")")))))))))) in
    let s := with_ctx s (addLog (useCore (ctx s)) msg) in
    if (lastWasPermanentKeyFailure s && keyChanged) || lastWasEncryptedContentStrip s then (s, w)
    else
      let '(j, w) := jitter env (Z.min (wrap64 (RetryBackoffInitial env * shl1 (attempts s - 1))) (RetryBackoffMax env)) w in
      (with_event s (EvSleep (calculateBackoff (fun _ => j) (RetryBackoffInitial env) (RetryBackoffMax env) (attempts s - 1))), w).

(** The provider call, and the first chunk of a stream that began well. *)
Definition callProvider (env : Env) (s : Loop) (w : W) : Loop * W :=
  match requestHandler env (currentKey s) w with
  | (r, Some e, w) => (with_event (with_outcome s r (Some e)) (EvCall (currentKey s) (Some e)), w)
  | (r, None, w) =>
      let '(r, e, w) := checkFirstChunk env r w in
      (with_event (with_outcome s r e) (EvCall (currentKey s) e), w)
  end.

(** [FailReason] of the trail's last record. *)
Definition fillReason (s : Loop) (e : BifrostError) : Loop :=
  match AttemptTrail (ctx s) with
  | Some trail =>
      match last trail with
      | Some rec =>
          with_ctx s (set_trail (ctx s)
            (Some (<[pred (length trail) := mkAttempt (Attempt rec) (KeyID rec) (KeyName rec)
                                              (Some (failReason e)) (TriggeredRotation rec)]> trail)))
      | None => s
      end
  | None => s
  end.

(** The stripping of rejected encrypted reasoning: whether to retry, and the
    state. *)
Definition stripStep (env : Env) (s : Loop) (e : BifrostError) (w : W) : bool * Loop * W :=
  let tried := negb (shouldRetry e) && negb (strippedEncryptedContent s) && isEncryptedReasoningRejection (Some e) in
  let '(stripped, w) := if tried then stripEncrypted env w else (false, w) in
  let s' :=
    mkLoop (attempts s) (currentKey s) (usedKeyIDs s) (deadKeyIDs s) (lastWasPerKeyFailure s)
      (lastWasPermanentKeyFailure s) (previousKeyID s) (pendingRotation s)
      (if stripped then (extraAttempts s + 1)%Z else extraAttempts s)
      (if stripped then true else strippedEncryptedContent s) stripped (result s) (bifrostError s)
      (if stripped
       then addLog (ctx s) ("Stripped unverifiable encrypted reasoning content from the request to "
                              +:+ (providerKey env +:+ ("/" +:+ (model env +:+ " and retrying once"))))
       else ctx s)
      (events s) in
  (shouldRetry e || stripped, s', w).

(** Key bookkeeping of a failure that is retried, and the rotation candidate. *)
Definition trackFailure (env : Env) (s : Loop) (e : BifrostError) (w : W) : Loop * W :=
  let hasProvider := match keyProvider env with Some _ => true | None => false end in
  let perKey := isPerKeyFailure e in
  let permanent := perKey && hasProvider && isPermanentKeyFailure e in
  let transient := perKey && hasProvider && negb (isPermanentKeyFailure e) in
  let id := k_ID (currentKey s) in
  let pending :=
    if perKey && hasProvider && bool_decide (attempts s < MaxRetries env + extraAttempts s)%Z
    then match AttemptTrail (ctx s) with
         | Some (r :: t) => Some (length t)
         | _ => pendingRotation s
         end
    else pendingRotation s in
  let s' :=
    mkLoop (attempts s) (currentKey s)
      (if transient then {[id]} ∪ usedKeyIDs s else usedKeyIDs s)
      (if permanent then {[id]} ∪ deadKeyIDs s else deadKeyIDs s)
      perKey permanent id pending (extraAttempts s) (strippedEncryptedContent s)
      (lastWasEncryptedContentStrip s) (result s) (bifrostError s) (ctx s)
      (events s ++ (if transient then [EvMark (currentKey s) e] else []))%list in
  (s', if transient then perKeyFailureMarker env (currentKey s) e w else w).

(** One iteration of the loop. *)
Definition iteration (env : Env) (zero : T) (s : Loop) (w : W) : outcome * W :=
  match selectStep env (startAttempt env s) zero w with
  | (inr s, w) => (Return s, w)
  | (inl s, w) =>
      let '(s, w) := retryWait env (appendTrail env s) w in
      if negb (HasTracer (ctx s))
      then (Return (with_outcome s (result s) (Some (newBifrostErrorFromMsg "tracer not found in context"))), w)
      else
        let '(s, w) := callProvider env s w in
        match bifrostError s with
        | None => (Break s, w)
        | Some e =>
            if endsLoop (Some e) then (Break s, w)
            else
              let '(retry, s, w) := stripStep env (fillReason s e) e w in
              if negb retry then (Break s, w)
              else let '(s, w) := trackFailure env s e w in (Continue s, w)
        end
  end.

Definition next (s : Loop) : Loop :=
  mkLoop (attempts s + 1) (currentKey s) (usedKeyIDs s) (deadKeyIDs s) (lastWasPerKeyFailure s)
    (lastWasPermanentKeyFailure s) (previousKeyID s) (pendingRotation s) (extraAttempts s)
    (strippedEncryptedContent s) (lastWasEncryptedContentStrip s) (result s) (bifrostError s) (ctx s) (events s).

(** [for attempts = 0; attempts <= MaxRetries + extraAttempts; attempts++]; the
    flag says whether the loop was left by a return. *)
Fixpoint loop (env : Env) (zero : T) (fuel : nat) (s : Loop) (w : W) : option (bool * Loop * W) :=
  match fuel with
  | O => None
  | S fuel =>
      if bool_decide (attempts s > MaxRetries env + extraAttempts s)%Z then Some (false, s, w)
      else
        match iteration env zero s w with
        | (Return s, w) => Some (true, s, w)
        | (Break s, w) => Some (false, s, w)
        | (Continue s, w) => loop env zero fuel (next s) w
        end
  end.

(** The deferred terminal log entry. *)
Definition terminalLog (env : Env) (s : Loop) : RCtx :=
  if bool_decide (attempts s <= 0)%Z then ctx s
  else
    let target := providerKey env +:+ ("/" +:+ model env) in
    let n := Itoa (attempts s) in
    addLog (useCore (ctx s))
      (match bifrostError s with
       | None => "Request to " +:+ (target +:+ (" succeeded after " +:+ (n +:+ " retry attempt(s)")))
       | Some e =>
           if be_IsBifrostError e
           then "Retries halted for " +:+ (target +:+ (" after " +:+ (n +:+ (" attempt(s): internal Bifrost error ("
                  +:+ (routingErrorSummary (Some e) +:+ ")")))))
           else if isCancelled e
           then "Request to " +:+ (target +:+ (" cancelled after " +:+ (n +:+ " attempt(s)")))
           else "Retries exhausted for " +:+ (target +:+ (" after " +:+ (n +:+ (" attempt(s); last error: "
                  +:+ routingErrorSummary (Some e)))))
       end).

(** The initial state: no attempt, the zero key, the caller's context. *)
Definition start (zero : T) (c : RCtx) : Loop :=
  mkLoop 0 zeroKey ∅ ∅ false false "" None 0 false false zero None c [].

(** The selected key is cleared when the request ends in an error. *)
Definition clearSelected (env : Env) (s : Loop) : Loop :=
  match keyProvider env, bifrostError s with
  | Some _, Some _ => with_ctx s (set_selected (ctx s) "" "")
  | _, _ => s
  end.

(** Iterations are bounded by the retry budget and the one extra attempt. *)
Definition enoughFuel (env : Env) : nat := S (Z.to_nat (MaxRetries env + 2)).

Definition executeRequestWithRetries (env : Env) (zero : T) (c : RCtx) (w : W) : option (Loop * W) :=
  match loop env zero (enoughFuel env) (start zero c) w with
  | None => None
  | Some (returned, s, w) =>
      let s := if returned then s else clearSelected env s in
      Some (with_ctx s (terminalLog env s), w)
  end.

End loop.
Arguments Env : clear implicits.
Arguments Loop : clear implicits.

End Retry.
