(* ===== verification/RetryTheory.v ===== *)
(** * The retry loop: theorems

    The loop ends within its budget; a key that failed for good is never
    called again; the marker hears of exactly the per-key failures that are
    not permanent; the attempt trail is a function of the calls made; the
    backoff stays in its bounds as long as the shift does not overflow. *)

From S2P Require Import Prelude GoStrings Schemas KVStore KeySelection KeySelectionTheory Retry.
Local Open Scope string_scope.
Local Open Scope list_scope.

Module RetryProofs.
Import Schemas KeySelection KeySelectionProofs Retry.

(** ** Readings of the event trace *)

Definition callOf (ev : event) : option (Key * option BifrostError) :=
  match ev with EvCall k e => Some (k, e) | _ => None end.
Definition markOf (ev : event) : option (Key * BifrostError) :=
  match ev with EvMark k e => Some (k, e) | _ => None end.
Definition calls (evs : list event) : list (Key * option BifrostError) := omap callOf evs.
Definition marks (evs : list event) : list (Key * BifrostError) := omap markOf evs.

Definition is_sleep (ev : event) : Prop := match ev with EvSleep _ => True | _ => False end.

Lemma calls_sleep sl : Forall is_sleep sl -> calls sl = [].
Proof. induction 1 as [|[] sl H _ IH]; cbn in *; done. Qed.
Lemma marks_sleep sl : Forall is_sleep sl -> marks sl = [].
Proof. induction 1 as [|[] sl H _ IH]; cbn in *; done. Qed.
Lemma calls_app l1 l2 : calls (l1 ++ l2) = calls l1 ++ calls l2.
Proof. apply omap_app. Qed.
Lemma marks_app l1 l2 : marks (l1 ++ l2) = marks l1 ++ marks l2.
Proof. apply omap_app. Qed.

Create Rewrite HintDb events.
#[local] Hint Rewrite calls_app marks_app calls_sleep marks_sleep app_nil_r : events.

Section theory.
Context {T W : Type} (env : Env T W) (zero : T).

Definition hasProvider : bool := match keyProvider env with Some _ => true | None => false end.

(** The key of an attempt: freshly provided, or the one of the last attempt. *)
Definition reselects (s : Loop T) : bool := bool_decide (attempts s = 0)%Z || lastWasPerKeyFailure s.

Definition chosen (s : Loop T) (k : Key) : Prop :=
  match keyProvider env with
  | Some kp => if reselects s then exists w used' w', kp (usedKeyIDs s) (deadKeyIDs s) w = (Ok k, used', w')
               else k = currentKey s
  | None => k = currentKey s
  end.

(** The state with what an attempt may change before its outcome is judged. *)
Definition frame (s : Loop T) k used pending r e c evs : Loop T :=
  mkLoop (attempts s) k used (deadKeyIDs s) (lastWasPerKeyFailure s) (lastWasPermanentKeyFailure s)
    (previousKeyID s) pending (extraAttempts s) (strippedEncryptedContent s) (lastWasEncryptedContentStrip s) r e c evs.

(** The trail once the attempt's record is open. *)
Definition rotated (t : list KeyAttemptRecord) (pending : option nat) (k : Key) : list KeyAttemptRecord :=
  match pending with
  | Some i =>
      match t !! i with
      | Some r => if bool_decide (KeyID r <> k_ID k)
                  then <[i := mkAttempt (Attempt r) (KeyID r) (KeyName r) (FailReason r) true]> t else t
      | None => t
      end
  | None => t
  end.

Definition opened (s : Loop T) (k : Key) : list KeyAttemptRecord :=
  let t := if bool_decide (attempts s = 0)%Z then [] else default [] (AttemptTrail (ctx s)) in
  let t := if reselects s then rotated t (pendingRotation s) k else t in
  let rec := mkAttempt (attempts s) (k_ID k) (k_Name k) None false in
  if bool_decide (rec ∈ t) then t else t ++ [rec].

Definition selected (c : RCtx) : string * string := (SelectedKeyID c, SelectedKeyName c).

(** ** The phases of an iteration *)

(** What only logging changes in a context. *)
Definition same_but_trail (c c' : RCtx) : Prop := HasTracer c' = HasTracer c /\ selected c' = selected c.

Lemma resolvePending_spec (s : Loop T) k :
  AttemptTrail (resolvePending s k) = (fun t => rotated t (pendingRotation s) k) <$> AttemptTrail (ctx s) /\
  same_but_trail (ctx s) (resolvePending s k).
Proof.
  unfold resolvePending, rotated, same_but_trail.
  destruct (pendingRotation s) as [i|], (AttemptTrail (ctx s)) as [t|] eqn:Et; cbn; try by rewrite ?Et.
  destruct (t !! i); cbn; [case_bool_decide; cbn|]; by rewrite ?Et.
Qed.

Lemma appendTrail_spec (s : Loop T) :
  hasProvider = true ->
  exists c, appendTrail env s = with_ctx s c /\ same_but_trail (ctx s) c /\
    let t := default [] (AttemptTrail (ctx s)) in
    let rec := mkAttempt (attempts s) (k_ID (currentKey s)) (k_Name (currentKey s)) None false in
    AttemptTrail c = Some (if bool_decide (rec ∈ t) then t else t ++ [rec]).
Proof.
  unfold hasProvider, appendTrail. destruct (keyProvider env); [|done]. intros _.
  eexists. split; [reflexivity|]. split; [by case_bool_decide|]. cbn.
  case_bool_decide as Hin; [|done]. destruct (AttemptTrail (ctx s)); [done|]. cbn in Hin. set_solver.
Qed.

Lemma select_ok s w s1 w1 :
  selectStep env (startAttempt env s) zero w = (inl s1, w1) ->
  exists k used pending c,
    appendTrail env s1 = frame s k used pending (result s) (bifrostError s) c (events s) /\ chosen s k /\
    HasTracer c = HasTracer (ctx s) /\
    AttemptTrail c = (if hasProvider then Some (opened s k) else AttemptTrail (ctx s)) /\
    pending = (if hasProvider && reselects s then None else pendingRotation s) /\
    selected c = (if hasProvider && reselects s then (k_ID k, k_Name k) else selected (ctx s)).
Proof.
  unfold selectStep, startAttempt, chosen, opened, reselects.
  destruct (keyProvider env) as [kp|] eqn:Ekp; cbn -[resolvePending].
  2: { intros [= <- <-]. unfold appendTrail, hasProvider. rewrite Ekp.
       exists (currentKey s), (usedKeyIDs s), (pendingRotation s). eexists. split_and!; reflexivity. }
  assert (hasProvider = true) as Hp by (unfold hasProvider; by rewrite Ekp). rewrite Hp. cbn -[resolvePending].
  destruct (bool_decide (attempts s = 0)%Z || lastWasPerKeyFailure s) eqn:Er.
  - destruct (kp (usedKeyIDs s) (deadKeyIDs s) w) as [[[k|e] used'] w'] eqn:Ek; [|done]. intros [= <- <-].
    match goal with |- context [appendTrail env ?s1] => destruct (appendTrail_spec s1 Hp) as (c & -> & [Ht Hs] & Htr) end.
    match type of Htr with context [resolvePending ?s0 k] => destruct (resolvePending_spec s0 k) as [Hrt [Hrs _]] end.
    cbn -[resolvePending] in *. rewrite Hrt in Htr. exists k, used', None, c.
    split_and!; [reflexivity|by eauto|rewrite Ht, Hrs; by case_bool_decide| |done|done].
    rewrite Htr. case_bool_decide; cbn; [done|]. destruct (AttemptTrail (ctx s)); cbn; [done|].
    unfold rotated. by destruct (pendingRotation s).
  - intros [= <- <-].
    match goal with |- context [appendTrail env ?s1] => destruct (appendTrail_spec s1 Hp) as (c & -> & [Ht Hs] & Htr) end.
    apply orb_false_iff in Er as [E0 Er]. rewrite E0 in *. cbn in *.
    exists (currentKey s), (usedKeyIDs s), (pendingRotation s), c. split_and!; done.
Qed.

Lemma select_err s w s1 w1 :
  selectStep env (startAttempt env s) zero w = (inr s1, w1) ->
  exists used c e, s1 = frame s (currentKey s) used (pendingRotation s) zero (Some e) c (events s) /\
    hasProvider = true /\ reselects s = true /\ be_IsBifrostError e = false /\ HasTracer c = HasTracer (ctx s) /\
    AttemptTrail c = (if bool_decide (attempts s = 0)%Z then Some [] else AttemptTrail (ctx s)) /\
    selected c = ("", "").
Proof.
  unfold selectStep, startAttempt, hasProvider, reselects.
  destruct (keyProvider env) as [kp|]; cbn; [|done].
  destruct (_ || _); [|done]. destruct (kp _ _ _) as [[[k|e] used'] w']; [done|].
  intros [= <- <-]. exists used'. do 2 eexists.
  split_and!; [reflexivity|done..|by destruct e| | |done]; by case_bool_decide.
Qed.

Lemma retryWait_spec s k u p r e c evs w s1 w1 :
  retryWait env (frame s k u p r e c evs) w = (s1, w1) ->
  exists c' sl, s1 = frame s k u p r e c' (evs ++ sl) /\
    Forall is_sleep sl /\ same_but_trail c c' /\ AttemptTrail c' = AttemptTrail c.
Proof.
  unfold retryWait. case_bool_decide.
  { intros [= <- <-]. exists c, []. rewrite app_nil_r. by split_and!. }
  cbn -[calculateBackoff]. destruct (_ || _).
  { intros [= <- <-]. eexists _, []. rewrite app_nil_r. split_and!; [reflexivity|constructor|done..]. }
  destruct (jitter _ _ _) as [j w2]. intros [= <- <-].
  eexists _, [_]. split_and!; [reflexivity|by repeat constructor|done..].
Qed.

Lemma callProvider_spec s k u p r e c evs w s1 w1 :
  callProvider env (frame s k u p r e c evs) w = (s1, w1) ->
  exists r' e', s1 = frame s k u p r' e' c (evs ++ [EvCall k e']).
Proof.
  unfold callProvider. cbn. destruct (requestHandler _ _ _) as [[r1 [e1|]] w2].
  - intros [= <- <-]. by eexists _, _.
  - destruct (checkFirstChunk _ _ _) as [[r2 e2] w3]. intros [= <- <-]. by eexists _, _.
Qed.

(** The reason on the last record. *)
Definition filled (t : list KeyAttemptRecord) (reason : string) : list KeyAttemptRecord :=
  match last t with
  | Some r => <[pred (length t) := mkAttempt (Attempt r) (KeyID r) (KeyName r) (Some reason) (TriggeredRotation r)]> t
  | None => t
  end.

Lemma fillReason_spec (s : Loop T) e :
  exists c, fillReason s e = with_ctx s c /\ same_but_trail (ctx s) c /\
    AttemptTrail c = (fun t => filled t (failReason e)) <$> AttemptTrail (ctx s).
Proof.
  unfold fillReason, filled. destruct (AttemptTrail (ctx s)) as [t|] eqn:Et; [destruct (last t) as [r|] eqn:El|].
  - eexists. split; [reflexivity|]. split; [done|]. cbn. by rewrite El.
  - exists (ctx s). split; [by destruct s|]. split; [done|]. cbn. by rewrite Et, El.
  - exists (ctx s). split; [by destruct s|]. split; [done|]. by rewrite Et.
Qed.

(** Whether the failed request was stripped, and the state after it. *)
Lemma stripStep_spec s e w retry s1 w1 :
  stripStep env s e w = (retry, s1, w1) ->
  exists (stripped : bool) c,
    s1 = mkLoop (attempts s) (currentKey s) (usedKeyIDs s) (deadKeyIDs s) (lastWasPerKeyFailure s)
           (lastWasPermanentKeyFailure s) (previousKeyID s) (pendingRotation s)
           (extraAttempts s + (if stripped then 1 else 0))%Z (strippedEncryptedContent s || stripped) stripped
           (result s) (bifrostError s) c (events s) /\
    retry = shouldRetry e || stripped /\
    (stripped = true -> shouldRetry e = false /\ strippedEncryptedContent s = false /\
                        isEncryptedReasoningRejection (Some e) = true) /\
    same_but_trail (ctx s) c /\ AttemptTrail c = AttemptTrail (ctx s).
Proof.
  unfold stripStep.
  destruct (negb (shouldRetry e)) eqn:E1, (negb (strippedEncryptedContent s)) eqn:E2,
    (isEncryptedReasoningRejection (Some e)) eqn:E3; cbn [andb].
  1: destruct (stripEncrypted env w) as [stripped w2]; apply negb_true_iff in E1, E2; rewrite E1, E2.
  all: intros [= <- <- <-].
  1: exists stripped; destruct stripped.
  3-9: exists false.
  all: eexists; split_and!; try reflexivity; try done; by rewrite ?Z.add_0_r, ?orb_false_r.
Qed.

Definition permanent (e : BifrostError) : bool := isPerKeyFailure e && hasProvider && isPermanentKeyFailure e.
Definition transient (e : BifrostError) : bool := isPerKeyFailure e && hasProvider && negb (isPermanentKeyFailure e).

(** ** One iteration *)

Definition reasonOf (e : option BifrostError) : option string :=
  match e with
  | Some e => if endsLoop (Some e) then None else Some (failReason e)
  | None => None
  end.

Definition closed (t : list KeyAttemptRecord) (e : option BifrostError) : list KeyAttemptRecord :=
  match reasonOf e with Some r => filled t r | None => t end.

(** The context after a call with key [k] and error [e]. *)
Definition called (s : Loop T) (k : Key) (e : option BifrostError) (c : RCtx) : Prop :=
  chosen s k /\ HasTracer c = HasTracer (ctx s) /\
  AttemptTrail c = (if hasProvider then Some (closed (opened s k) e)
                    else (fun t => closed t e) <$> AttemptTrail (ctx s)) /\
  selected c = (if hasProvider && reselects s then (k_ID k, k_Name k) else selected (ctx s)).

Inductive step_spec (s : Loop T) : outcome -> Prop :=
| step_no_key used c e :
    hasProvider = true -> reselects s = true -> HasTracer c = HasTracer (ctx s) ->
    AttemptTrail c = (if bool_decide (attempts s = 0)%Z then Some [] else AttemptTrail (ctx s)) ->
    selected c = ("", "") ->
    step_spec s (Return (frame s (currentKey s) used (pendingRotation s) zero (Some e) c (events s)))
| step_no_tracer k used pending e c sl :
    HasTracer (ctx s) = false -> Forall is_sleep sl -> chosen s k ->
    step_spec s (Return (frame s k used pending (result s) (Some e) c (events s ++ sl)))
| step_break k used pending strip r e c sl :
    Forall is_sleep sl -> called s k e c ->
    (endsLoop e = true \/ exists e', e = Some e' /\ shouldRetry e' = false) ->
    step_spec s (Break (mkLoop (attempts s) k used (deadKeyIDs s) (lastWasPerKeyFailure s) (lastWasPermanentKeyFailure s)
      (previousKeyID s) pending (extraAttempts s) (strippedEncryptedContent s) strip r e c (events s ++ sl ++ [EvCall k e])))
| step_retry k used pending r e c sl (strip : bool) :
    Forall is_sleep sl -> called s k (Some e) c -> endsLoop (Some e) = false ->
    shouldRetry e || strip = true ->
    (strip = true -> strippedEncryptedContent s = false /\ isEncryptedReasoningRejection (Some e) = true) ->
    (hasProvider = true -> attempts s < MaxRetries env + (extraAttempts s + (if strip then 1 else 0)) ->
      pending = if isPerKeyFailure e then Some (pred (length (closed (opened s k) (Some e))))
                else if reselects s then None else pendingRotation s)%Z ->
    step_spec s (Continue (mkLoop (attempts s) k used (if permanent e then {[k_ID k]} ∪ deadKeyIDs s else deadKeyIDs s)
      (isPerKeyFailure e) (permanent e) (k_ID k) pending (extraAttempts s + (if strip then 1 else 0))%Z
      (strippedEncryptedContent s || strip) strip r (Some e) c
      (events s ++ sl ++ [EvCall k (Some e)] ++ (if transient e then [EvMark k e] else [])))).

Lemma opened_nonempty s k : opened s k <> [].
Proof.
  unfold opened. cbv zeta. case_bool_decide as Hin; [|by destruct (if reselects s then _ else _)].
  destruct (if reselects s then _ else _); [set_solver|done].
Qed.

Lemma filled_length t r : length (filled t r) = length t.
Proof. unfold filled. destruct (last t); [apply length_insert|done]. Qed.

Lemma closed_nonempty s k e : closed (opened s k) e <> [].
Proof.
  pose proof (opened_nonempty s k) as Ho. unfold closed. destruct (reasonOf e) as [r|]; [|done].
  intros Hn%(f_equal length). rewrite filled_length in Hn. by destruct (opened s k).
Qed.

(** A call's context before its outcome is judged. *)
Definition opening (s : Loop T) (k : Key) (c : RCtx) : Prop :=
  chosen s k /\ HasTracer c = HasTracer (ctx s) /\
  AttemptTrail c = (if hasProvider then Some (opened s k) else AttemptTrail (ctx s)) /\
  selected c = (if hasProvider && reselects s then (k_ID k, k_Name k) else selected (ctx s)).

Lemma opening_called s k c e c' :
  opening s k c -> same_but_trail c c' -> AttemptTrail c' = (fun t => closed t e) <$> AttemptTrail c -> called s k e c'.
Proof.
  intros (Hch & Ht & Htr & Hs) [Ht' Hs'] Htr'. unfold called. split_and!; [done|congruence| |congruence].
  rewrite Htr', Htr. by destruct hasProvider.
Qed.

Lemma opening_ended s k c e : opening s k c -> endsLoop e = true -> called s k e c.
Proof.
  intros Ho He. eapply opening_called; [done|done|]. unfold closed.
  assert (reasonOf e = None) as -> by (destruct e; cbn in *; [by rewrite He|done]).
  by destruct (AttemptTrail c).
Qed.

(** The judgement of a failed call. *)
Lemma failure_spec s k used pending r e c sl w :
  Forall is_sleep sl -> opening s k c -> endsLoop (Some e) = false ->
  pending = (if hasProvider && reselects s then None else pendingRotation s) ->
  step_spec s (let '(retry, s', w') :=
      stripStep env (fillReason (frame s k used pending r (Some e) c (events s ++ sl ++ [EvCall k (Some e)])) e) e w in
    if negb retry then (Break s', w') else let '(s', w') := trackFailure env s' e w' in (Continue s', w')).1.
Proof.
  intros Hsl Ho Ee Hpd.
  match goal with |- context [fillReason ?s4 e] => destruct (fillReason_spec s4 e) as (c3 & -> & Hs3 & Htr3) end.
  destruct (stripStep env _ e w) as [[retry s5] w5] eqn:E5.
  apply stripStep_spec in E5 as (strip & c4 & -> & -> & Hstrip & Hs4 & Htr4). cbn in Hs3, Htr3, Hs4, Htr4, Hstrip |- *.
  assert (called s k (Some e) c4) as Hcalled.
  { eapply opening_called; [done| |].
    - destruct Hs3, Hs4. split; congruence.
    - rewrite Htr4, Htr3. unfold closed, reasonOf. by rewrite Ee. }
  destruct (shouldRetry e || strip) eqn:Eretry; cbn [negb fst].
  2: { apply orb_false_iff in Eretry as [Esr ->]. rewrite Z.add_0_r, orb_false_r.
       apply (step_break s k used pending _ r _ c4 sl); [done..|]. right. eauto. }
  cbn. rewrite <-!app_assoc.
  change (match keyProvider env with Some _ => true | None => false end) with hasProvider.
  apply step_retry; [done..| |].
  - intros Hst. apply Hstrip in Hst. tauto.
  - intros Hpt Hlt. destruct Hcalled as (_ & _ & Htr & _). rewrite Hpt in *.
    rewrite bool_decide_eq_true_2 by done. rewrite !andb_true_r, Htr.
    destruct (isPerKeyFailure e); [|by subst pending].
    destruct (closed (opened s k) (Some e)) eqn:Ec; [|done]. by apply closed_nonempty in Ec.
Qed.

Lemma iteration_spec s w : step_spec s (iteration env zero s w).1.
Proof.
  unfold iteration.
  destruct (selectStep env (startAttempt env s) zero w) as [[s1|s1] w1] eqn:E1.
  2: { apply select_err in E1 as (used & c & e & -> & Hp & Hr & _ & Ht & Htr & Hs). by apply step_no_key. }
  apply select_ok in E1 as (k & used & pending & c1 & E1 & Hch & Ht1 & Htr1 & Hpd & Hs1). rewrite E1.
  destruct (retryWait env _ w1) as [s2 w2] eqn:E2.
  apply retryWait_spec in E2 as (c2 & sl & -> & Hsl & [Ht2 Hs2] & Htr2). cbn in Ht2, Hs2, Htr2. cbn [ctx frame].
  assert (opening s k c2) as Ho by (unfold opening; split_and!; [done|congruence..]).
  destruct (HasTracer c2) eqn:Htc; cbn [negb].
  2: { apply (step_no_tracer s k used pending _ c2 sl); [congruence|done..]. }
  destruct (callProvider env _ w2) as [s3 w3] eqn:E3.
  apply callProvider_spec in E3 as (r & e & ->).
  rewrite <-app_assoc. cbn [bifrostError frame].
  destruct e as [e|]; [destruct (endsLoop (Some e)) eqn:Ee|].
  - apply (step_break s k used pending _ r _ c2 sl); [done|by apply opening_ended|by left].
  - by apply failure_spec.
  - apply (step_break s k used pending _ r _ c2 sl); [done|by apply opening_ended|by left].
Qed.

(** ** The loop *)

Lemma loop_rule (I : Loop T -> Prop) (P : bool -> Loop T -> Prop) :
  (forall s, I s -> (attempts s > MaxRetries env + extraAttempts s)%Z -> P false s) ->
  (forall s o, I s -> (attempts s <= MaxRetries env + extraAttempts s)%Z -> step_spec s o ->
     match o with Return s' => P true s' | Break s' => P false s' | Continue s' => I (next s') end) ->
  forall fuel s w b s' w', I s -> loop env zero fuel s w = Some (b, s', w') -> P b s'.
Proof.
  intros Hexit Hstep fuel. induction fuel as [|fuel IH]; intros s w b s' w' HI; cbn -[iteration]; [done|].
  case_bool_decide as Hc; [intros [= <- <- <-]; by apply Hexit|].
  pose proof (iteration_spec s w) as Hspec. apply (Hstep s _ HI ltac:(lia)) in Hspec.
  destruct (iteration env zero s w) as [[s1|s1|s1] w1]; cbn in Hspec; [intros [= <- <- <-]; done..|].
  by apply IH.
Qed.

(** The extra attempt is the one after a strip. *)
Definition bounded (s : Loop T) : Prop :=
  (0 <= attempts s)%Z /\ extraAttempts s = if strippedEncryptedContent s then 1%Z else 0%Z.

Lemma bounded_next s s' : bounded s -> step_spec s (Continue s') -> bounded (next s') /\ attempts s' = attempts s.
Proof.
  intros [H0 Hx] Hstep. inversion Hstep as [| | |k used pending r e c sl strip _ _ _ _ Hs _ Heq]; subst. split; [|done].
  split; cbn; [lia|]. destruct strip; cbn.
  - destruct (Hs eq_refl) as [Hn _]. rewrite Hn, orb_true_r in *. lia.
  - by rewrite orb_false_r, Z.add_0_r.
Qed.

Lemma loop_terminates fuel s w :
  bounded s -> (Z.to_nat (MaxRetries env + 2 - attempts s) < fuel)%nat -> is_Some (loop env zero fuel s w).
Proof.
  revert s w. induction fuel as [|fuel IH]; intros s w Hb Hf; [lia|]. cbn -[iteration].
  case_bool_decide as Hc; [by eexists|].
  pose proof (iteration_spec s w) as Hspec.
  destruct (iteration env zero s w) as [[s1|s1|s1] w1]; cbn in Hspec; [by eexists..|].
  destruct (bounded_next _ _ Hb Hspec) as [Hb' Ha]. apply IH; [done|]. cbn.
  destruct Hb as [_ Hx]. rewrite Ha. destruct (strippedEncryptedContent s); lia.
Qed.

Definition finish (b : bool) (s : Loop T) : Loop T :=
  let s := if b then s else clearSelected env s in with_ctx s (terminalLog env s).

Lemma execute_rule (I : Loop T -> Prop) (P : bool -> Loop T -> Prop) c w :
  I (start zero c) ->
  (forall s, I s -> (attempts s > MaxRetries env + extraAttempts s)%Z -> P false s) ->
  (forall s o, I s -> (attempts s <= MaxRetries env + extraAttempts s)%Z -> step_spec s o ->
     match o with Return s' => P true s' | Break s' => P false s' | Continue s' => I (next s') end) ->
  exists b s w', executeRequestWithRetries env zero c w = Some (finish b s, w') /\ P b s.
Proof.
  intros H0 Hexit Hstep. unfold executeRequestWithRetries.
  destruct (loop_terminates (enoughFuel env) (start zero c) w) as [[[b s] w'] Hl].
  { by split. }
  { unfold enoughFuel. cbn. rewrite Z.sub_0_r. lia. }
  rewrite Hl. exists b, s, w'. split; [done|]. by eapply loop_rule.
Qed.

Lemma finish_events b s :
  events (finish b s) = events s /\ extraAttempts (finish b s) = extraAttempts s /\
  bifrostError (finish b s) = bifrostError s /\ result (finish b s) = result s.
Proof. unfold finish, clearSelected. destruct b; [done|]. by destruct (keyProvider env), (bifrostError s) eqn:E; cbn. Qed.

Lemma finish_ctx b s :
  hasProvider = true ->
  AttemptTrail (ctx (finish b s)) = AttemptTrail (ctx s) /\
  selected (ctx (finish b s)) = if b then selected (ctx s) else
    match bifrostError s with Some _ => ("", "") | None => selected (ctx s) end.
Proof.
  unfold hasProvider, finish, clearSelected, terminalLog, selected. destruct (keyProvider env); [|done]. intros _.
  destruct b, (bifrostError s); cbn; by case_bool_decide.
Qed.

(** ** Bounded retries *)

Definition retryable (ke : Key * option BifrostError) : Prop :=
  exists e, ke.2 = Some e /\ endsLoop (Some e) = false /\
            (shouldRetry e = true \/ isEncryptedReasoningRejection (Some e) = true).

Definition within_budget (s : Loop T) : Prop :=
  bounded s /\ (attempts s <= Z.max 0 (MaxRetries env + 1 + extraAttempts s))%Z /\
  Z.of_nat (length (calls (events s))) = attempts s /\ Forall retryable (calls (events s)) /\
  (extraAttempts s = 1%Z -> Exists (fun ke => isEncryptedReasoningRejection ke.2 = true) (calls (events s))).

(** The calls of one attempt. *)
Lemma calls_attempt evs sl k e ms :
  Forall is_sleep sl -> calls ms = [] -> calls (evs ++ sl ++ EvCall k e :: ms) = calls evs ++ [(k, e)].
Proof. intros Hsl Hm. rewrite !calls_app, (calls_sleep sl) by done. unfold calls in *. cbn. by rewrite Hm. Qed.

Lemma calls_mark (b : bool) k e : calls (if b then [EvMark k e] else []) = [].
Proof. by destruct b. Qed.

Definition spent (s : Loop T) : Prop :=
  exists init final, calls (events s) = init ++ final /\ Forall retryable init /\ (length final <= 1)%nat /\
    (Z.of_nat (length init + length final) <= Z.max 0 (MaxRetries env + 1 + extraAttempts s))%Z /\
    (0 <= extraAttempts s <= 1)%Z /\
    (extraAttempts s = 1%Z -> Exists (fun ke => isEncryptedReasoningRejection ke.2 = true) init).

Lemma bounded_extra s : bounded s -> (0 <= extraAttempts s <= 1)%Z.
Proof. intros [_ ->]. destruct (strippedEncryptedContent s); lia. Qed.

Lemma spent_step s o :
  within_budget s -> (attempts s <= MaxRetries env + extraAttempts s)%Z -> step_spec s o ->
  match o with Return s' => spent s' | Break s' => spent s' | Continue s' => within_budget (next s') end.
Proof.
  intros (Hb & _ & Hlen & Hr & Hx) Ha Hstep. pose proof (bounded_extra s Hb) as He. destruct o as [s'|s'|s'].
  - inversion Hstep as [| |k used pending strip r e c sl Hsl _ _|]; subst.
    exists (calls (events s)), [(k, e)]. cbn.
    pose proof (calls_attempt (events s) sl k e [] Hsl eq_refl) as Hc.
    split_and!; [done|done|cbn; lia|cbn; lia|lia|lia|done].
  - exists (calls (events s)), []. rewrite app_nil_r.
    inversion Hstep; subst; cbn; rewrite ?calls_app, ?(calls_sleep sl), ?app_nil_r by done; split_and!; (done || lia).
  - destruct (bounded_next _ _ Hb Hstep) as [Hb' _].
    inversion Hstep as [| | |k used pending r e c sl strip Hsl _ Hends Hretry Hs _ Heq]; subst.
    split; [done|]. cbn. rewrite calls_attempt by (done || apply calls_mark). rewrite length_app. cbn.
    apply orb_true_iff in Hretry. split_and!; [destruct strip; lia|lia| |].
    + apply Forall_app. split; [done|]. constructor; [|done]. exists e. split_and!; [done..|].
      destruct Hretry as [?|Hst]; [by left|]. right. by apply Hs.
    + intros Hone. destruct strip; [|rewrite Z.add_0_r in Hone; apply Exists_app; left; by apply Hx].
      apply Exists_app. right. constructor. by apply Hs.
Qed.

(** C3. The retry loop ends on every input, whatever the provider, the key
    provider and the configuration: it makes at most [MaxRetries] + 1 calls, one
    more when encrypted reasoning was stripped after a call that rejected it,
    and every call but the last failed in a retryable way. *)
Theorem retries_bounded c w :
  exists s w', executeRequestWithRetries env zero c w = Some (s, w') /\
    exists init final, calls (events s) = init ++ final /\ Forall retryable init /\ (length final <= 1)%nat /\
      (Z.of_nat (length init + length final) <= Z.max 0 (MaxRetries env + 1 + extraAttempts s))%Z /\
      (0 <= extraAttempts s <= 1)%Z /\
      (extraAttempts s = 1%Z -> Exists (fun ke => isEncryptedReasoningRejection ke.2 = true) init).
Proof.
  destruct (execute_rule within_budget (fun _ => spent) c w) as (b & s & w' & Hex & Hs).
  - split_and!; cbn; (done || lia || constructor).
  - intros s (Hb & Ha & Hlen & Hr & Hx) _. exists (calls (events s)), []. rewrite app_nil_r. cbn.
    pose proof (bounded_extra s Hb). split_and!; (done || lia).
  - apply spent_step.
  - exists (finish b s), w'. split; [done|].
    destruct (finish_events b s) as (He & Hx & _). rewrite He, Hx. exact Hs.
Qed.

(** ** Dead keys *)

Lemma permanent_perKey e : isPermanentKeyFailure e = true -> isPerKeyFailure e = true.
Proof.
  unfold isPermanentKeyFailure, isPerKeyFailure, statusIn, perKeyFailureStatusCodes.
  destruct (be_StatusCode e); [|done]. intros H%bool_decide_eq_true.
  rewrite bool_decide_eq_true_2; [done|set_solver].
Qed.

(** No call after a permanent failure of its key. *)
Definition no_reuse (cs : list (Key * option BifrostError)) : Prop :=
  forall l1 k e l2, cs = l1 ++ (k, Some e) :: l2 -> isPermanentKeyFailure e = true ->
    Forall (fun ke => k_ID ke.1 <> k_ID k) l2.

Lemma no_reuse_snoc cs k e :
  no_reuse cs ->
  (forall k' e', (k', Some e') ∈ cs -> isPermanentKeyFailure e' = true -> k_ID k <> k_ID k') ->
  no_reuse (cs ++ [(k, e)]).
Proof.
  intros Hcs Hk l1 k1 e1 l2 Heq Hp. destruct (decide (l2 = [])) as [->|Hne]; [constructor|].
  destruct (exists_last Hne) as (l2' & [k2 e2] & ->).
  rewrite app_comm_cons, app_assoc in Heq. apply app_inj_tail in Heq as [-> [= <- <-]].
  apply Forall_app. split; [by eapply Hcs|]. constructor; [|constructor]. cbn. eapply Hk; [|done]. set_solver.
Qed.

Section dead.
Context (pool : list Key) (kp : KeyProvider W) (Hkp : keyProvider env = Some kp) (Hprov : provides pool kp).

Definition dead_inv (s : Loop T) : Prop :=
  (0 <= attempts s)%Z /\ no_reuse (calls (events s)) /\ Forall (fun ke => ke.1 ∈ pool) (calls (events s)) /\
  (forall k e, (k, Some e) ∈ calls (events s) -> isPermanentKeyFailure e = true -> k_ID k ∈ deadKeyIDs s) /\
  (reselects s = false -> currentKey s ∈ pool /\ k_ID (currentKey s) ∉ deadKeyIDs s).

Definition dead_post (s : Loop T) : Prop :=
  no_reuse (calls (events s)) /\ Forall (fun ke => ke.1 ∈ pool) (calls (events s)).

Lemma chosen_live s k : dead_inv s -> chosen s k -> k ∈ pool /\ k_ID k ∉ deadKeyIDs s.
Proof using Hkp Hprov.
  intros (_ & _ & _ & _ & Hcur) Hch. unfold chosen in Hch. rewrite Hkp in Hch.
  destruct (reselects s) eqn:Er; [|subst k; by apply Hcur].
  destruct Hch as (w & u & w' & Hch). by eapply Hprov.
Qed.

Lemma dead_call s k e : dead_inv s -> chosen s k ->
  no_reuse (calls (events s) ++ [(k, e)]) /\ Forall (fun ke => ke.1 ∈ pool) (calls (events s) ++ [(k, e)]).
Proof using Hkp Hprov.
  intros Hi Hch. destruct (chosen_live _ _ Hi Hch) as [Hin Hnd]. destruct Hi as (_ & Hnr & Hp & Hd & _). split.
  - apply no_reuse_snoc; [done|]. intros k' e' Hk' Hpm Heq. apply Hnd. rewrite Heq. by eapply Hd.
  - apply Forall_app. split; [done|]. by repeat constructor.
Qed.

Lemma dead_step s o :
  dead_inv s -> step_spec s o ->
  match o with Return s' => dead_post s' | Break s' => dead_post s' | Continue s' => dead_inv (next s') end.
Proof using Hkp Hprov.
  intros Hi Hstep. pose proof Hi as (H0 & Hnr & Hp & Hd & _). destruct o as [s'|s'|s'].
  - inversion Hstep as [| |k used pending strip r e c sl Hsl [Hch _] _|]; subst. unfold dead_post. cbn.
    rewrite calls_attempt by done. by apply dead_call.
  - inversion Hstep; subst; unfold dead_post; cbn; rewrite ?calls_app, ?(calls_sleep sl), ?app_nil_r by done; done.
  - inversion Hstep as [| | |k used pending r e c sl strip Hsl [Hch _] _ _ _ _ Heq]; subst.
    destruct (dead_call s k (Some e) Hi Hch) as [Hn' Hp']. destruct (chosen_live _ _ Hi Hch) as [Hin Hnd].
    unfold dead_inv. cbn. rewrite calls_attempt by (done || apply calls_mark). split_and!; [lia|done|done| |].
    + intros k' e' Hk' Hpm. apply elem_of_app in Hk' as [Hk'|Hk'].
      * apply (Hd _ _ Hk') in Hpm. destruct (permanent e); set_solver.
      * apply list_elem_of_singleton in Hk' as [= -> ->]. unfold permanent, hasProvider.
        rewrite Hkp, Hpm, (permanent_perKey _ Hpm). cbn. set_solver.
    + unfold reselects. cbn. intros [_ Hper]%orb_false_iff. split; [done|].
      unfold permanent. by rewrite Hper.
Qed.
End dead.

(** C2. A dead key stays dead: with a key provider that never returns a dead
    key (as the rotating and the fixed one are proved to), once a call with
    some key fails with 401, 402 or 403, no later call of the request uses a
    key with that ID; every key called is of the pool. *)
Theorem dead_key_never_reused pool kp c w s w' :
  keyProvider env = Some kp -> provides pool kp ->
  executeRequestWithRetries env zero c w = Some (s, w') ->
  (forall l1 k e l2, calls (events s) = l1 ++ (k, Some e) :: l2 -> isPermanentKeyFailure e = true ->
     Forall (fun ke => k_ID ke.1 <> k_ID k) l2) /\
  Forall (fun ke => ke.1 ∈ pool) (calls (events s)).
Proof.
  intros Hkp Hprov Hex.
  destruct (execute_rule (dead_inv pool) (fun _ => dead_post pool) c w) as (b & s1 & w1 & Hex' & Hs).
  - unfold dead_inv, no_reuse. cbn. split_and!; try done; [intros [] **; discriminate|set_solver].
  - intros s0 (_ & Hn & Hp & _) _. by split.
  - intros s0 o Hi _ Hstep. by eapply dead_step.
  - rewrite Hex in Hex'. injection Hex' as -> ->. destruct (finish_events b s1) as (-> & _). exact Hs.
Qed.

(** ** Reports to the marker *)

Definition reported (ke : Key * option BifrostError) : option (Key * BifrostError) :=
  match ke.2 with
  | Some e => if negb (endsLoop (Some e)) && transient e then Some (ke.1, e) else None
  | None => None
  end.

Definition marks_ok (s : Loop T) : Prop := marks (events s) = omap reported (calls (events s)).

Lemma reported_ends k e : endsLoop e = true -> reported (k, e) = None.
Proof. unfold reported. cbn -[endsLoop]. destruct e; [|done]. by intros ->. Qed.

Lemma marks_attempt evs sl k e ms :
  Forall is_sleep sl -> marks (evs ++ sl ++ EvCall k e :: ms) = marks evs ++ marks ms.
Proof. intros Hsl. by rewrite !marks_app, (marks_sleep sl). Qed.

Lemma transient_retries e : transient e = true -> shouldRetry e = true.
Proof. unfold transient, shouldRetry. intros [[-> _]%andb_true_iff _]%andb_true_iff. by rewrite orb_true_r. Qed.

Lemma marks_step s o :
  marks_ok s -> step_spec s o ->
  match o with Return s' => marks_ok s' | Break s' => marks_ok s' | Continue s' => marks_ok (next s') end.
Proof.
  unfold marks_ok. intros Hi Hstep. destruct o as [s'|s'|s'].
  - inversion Hstep as [| |k used pending strip r e c sl Hsl _ Hend|]; subst. cbn.
    rewrite calls_attempt, marks_attempt, omap_app, Hi by done. f_equal. cbn.
    destruct Hend as [He|(e' & -> & Hnr)]; [by rewrite (reported_ends _ _ He)|]. unfold reported. cbn -[endsLoop].
    destruct (transient e') eqn:Et; [|by rewrite andb_false_r]. apply transient_retries in Et. congruence.
  - inversion Hstep; subst; cbn; rewrite ?calls_app, ?marks_app, ?(calls_sleep sl), ?(marks_sleep sl), ?app_nil_r by done; done.
  - inversion Hstep as [| | |k used pending r e c sl strip Hsl _ Hends _ _ _ Heq]; subst. cbn.
    rewrite calls_attempt, marks_attempt, omap_app, Hi by (done || apply calls_mark). f_equal.
    unfold reported. cbn -[endsLoop]. rewrite Hends. cbn. by destruct (transient e).
Qed.

(** The marker hears of exactly the transient per-key failures, in order:
    the calls that failed with a per-key error (a 429 or the text of a rate
    limit) which is not a 401, 402 or 403, on a provider with keys, and no
    other; a failure that ends the loop at once is not reported. *)
Theorem marker_hears_transient c w s w' :
  executeRequestWithRetries env zero c w = Some (s, w') ->
  marks (events s) = omap reported (calls (events s)).
Proof.
  intros Hex.
  destruct (execute_rule marks_ok (fun _ => marks_ok) c w) as (b & s1 & w1 & Hex' & Hs).
  - done.
  - by intros s0 Hi _.
  - intros s0 o Hi _ Hstep. by apply (marks_step s0).
  - rewrite Hex in Hex'. injection Hex' as -> ->. destruct (finish_events b s1) as (-> & _). exact Hs.
Qed.

(** ** The attempt trail *)

(** The trail as a function of the calls: attempts are numbered, a failed
    attempt that does not end the loop has its reason, and a record says it
    triggered a rotation when the next call used another key. *)
Fixpoint trailFrom (i : Z) (cs : list (Key * option BifrostError)) : list KeyAttemptRecord :=
  match cs with
  | [] => []
  | (k, e) :: cs =>
      mkAttempt i (k_ID k) (k_Name k) (reasonOf e)
        (match cs with (k', _) :: _ => bool_decide (k_ID k <> k_ID k') | [] => false end) :: trailFrom (i + 1) cs
  end.

Lemma trailFrom_length i cs : length (trailFrom i cs) = length cs.
Proof. revert i. induction cs as [|[k e] cs IH]; intros i; cbn; [done|]. by rewrite IH. Qed.

Lemma trailFrom_attempts i cs r : r ∈ trailFrom i cs -> (Attempt r < i + Z.of_nat (length cs))%Z.
Proof.
  revert i. induction cs as [|[k e] cs IH]; intros i; cbn; [set_solver|].
  intros [->|Hr]%elem_of_cons; cbn; [lia|]. apply IH in Hr. lia.
Qed.

Lemma rotated_cons r t j k : rotated (r :: t) (Some (S j)) k = r :: rotated t (Some j) k.
Proof. unfold rotated. cbn. destruct (t !! j); [|done]. by case_bool_decide. Qed.

Lemma trailFrom_snoc i cs k e :
  trailFrom i (cs ++ [(k, e)]) =
  rotated (trailFrom i cs) (Some (pred (length cs))) k
    ++ [mkAttempt (i + Z.of_nat (length cs)) (k_ID k) (k_Name k) (reasonOf e) false].
Proof.
  revert i. induction cs as [|[k0 e0] cs IH]; intros i; [cbn; by rewrite Z.add_0_r|].
  destruct cs as [|[k1 e1] cs].
  - cbn. case_bool_decide; done.
  - specialize (IH (i + 1)%Z). cbn [app trailFrom length pred] in IH |- *. rewrite rotated_cons. cbn [app]. f_equal.
    cbn [app trailFrom length pred] in IH |- *. rewrite IH. do 3 f_equal. lia.
Qed.

Lemma filled_snoc t r reason :
  filled (t ++ [r]) reason = t ++ [mkAttempt (Attempt r) (KeyID r) (KeyName r) (Some reason) (TriggeredRotation r)].
Proof.
  unfold filled. rewrite last_snoc, length_app. cbn.
  replace (pred (length t + 1)) with (length t + 0)%nat by lia. by rewrite insert_app_r.
Qed.

Lemma closed_trail i cs k e : closed (trailFrom i (cs ++ [(k, None)])) e = trailFrom i (cs ++ [(k, e)]).
Proof. rewrite !trailFrom_snoc. unfold closed. destruct (reasonOf e); [by rewrite filled_snoc|done]. Qed.

Lemma rotated_same i cs k0 e0 k :
  k_ID k0 = k_ID k -> rotated (trailFrom i (cs ++ [(k0, e0)])) (Some (length cs)) k = trailFrom i (cs ++ [(k0, e0)]).
Proof.
  intros Hid. unfold rotated. rewrite trailFrom_snoc.
  set (t := rotated _ _ k0). assert (length t = length cs) as Hl.
  { unfold t, rotated. repeat case_match; rewrite ?length_insert; by rewrite trailFrom_length. }
  rewrite lookup_app_r, Hl, Nat.sub_diag by lia. cbn. by rewrite bool_decide_eq_false_2 by auto.
Qed.

Lemma rotated_attempts cs p k r : r ∈ rotated (trailFrom 0 cs) p k -> (Attempt r < Z.of_nat (length cs))%Z.
Proof.
  rewrite <-(Z.add_0_l (Z.of_nat _)). unfold rotated. destruct p as [p|]; [|apply trailFrom_attempts].
  destruct (trailFrom 0 _ !! _) as [r0|] eqn:Hr0; [|apply trailFrom_attempts].
  case_bool_decide; [|apply trailFrom_attempts].
  intros [i Hi]%list_elem_of_lookup. apply list_lookup_insert_Some in Hi as [(<- & <- & _)|[_ Hi]]; cbn.
  - by apply list_elem_of_lookup_2, trailFrom_attempts in Hr0.
  - by eapply trailFrom_attempts, list_elem_of_lookup_2.
Qed.

(** The loop's state once an attempt was made: the trail is that of the calls,
    the selected key is that of the last call, and a pending rotation marker
    points at its record. *)
Definition after_call (s : Loop T) : Prop :=
  AttemptTrail (ctx s) = Some (trailFrom 0 (calls (events s))) /\
  (exists cs e, calls (events s) = cs ++ [(currentKey s, e)]) /\
  selected (ctx s) = (k_ID (currentKey s), k_Name (currentKey s)) /\
  ((attempts s <= MaxRetries env + extraAttempts s)%Z ->
     pendingRotation s = if lastWasPerKeyFailure s then Some (pred (length (calls (events s)))) else None).

Definition trail_inv (s : Loop T) : Prop :=
  (0 <= attempts s)%Z /\ Z.of_nat (length (calls (events s))) = attempts s /\ HasTracer (ctx s) = true /\
  ((0 < attempts s)%Z -> bifrostError s <> None /\ after_call s).

Definition trail_post (b : bool) (s : Loop T) : Prop :=
  AttemptTrail (ctx s) = Some (trailFrom 0 (calls (events s))) /\
  match bifrostError s with
  | None => b = false /\ exists cs k, calls (events s) = cs ++ [(k, None)] /\ selected (ctx s) = (k_ID k, k_Name k)
  | Some _ => b = true -> selected (ctx s) = ("", "")
  end.

Section trail.
Context (Hp : hasProvider = true) (Hmax : (0 <= MaxRetries env)%Z).

Lemma opened_trail s k :
  trail_inv s -> (attempts s <= MaxRetries env + extraAttempts s)%Z -> chosen s k ->
  opened s k = trailFrom 0 (calls (events s) ++ [(k, None)]).
Proof using Hp.
  intros (H0 & Hlen & _ & Hafter) Ha Hch. unfold opened. rewrite trailFrom_snoc, Hlen, Z.add_0_l.
  destruct (decide (attempts s = 0)%Z) as [Hz|Hz].
  { rewrite (bool_decide_eq_true_2 (attempts s = 0)%Z) by done. rewrite Hz in Hlen.
    destruct (calls (events s)); [|cbn in Hlen; lia].
    assert (reselects s = true) as -> by (unfold reselects; by rewrite bool_decide_eq_true_2).
    unfold rotated. destruct (pendingRotation s); cbn; by rewrite Hz. }
  rewrite (bool_decide_eq_false_2 (attempts s = 0)%Z) by done.
  destruct Hafter as (_ & Htr & (cs & e & Hcs) & _ & Hpend); [lia|]. rewrite Htr, (Hpend Ha). cbn [default from_option].
  set (t := if reselects s then _ else _).
  assert (t = rotated (trailFrom 0 (calls (events s))) (Some (pred (length (calls (events s))))) k) as ->.
  { subst t. revert Hch. unfold chosen, hasProvider, reselects in *. rewrite bool_decide_eq_false_2 by done. cbn [orb].
    destruct (keyProvider env); [|done]. destruct (lastWasPerKeyFailure s); [done|]. intros ->.
    rewrite Hcs, length_app. cbn [length]. rewrite Nat.add_1_r. cbn [pred]. by rewrite rotated_same. }
  rewrite bool_decide_eq_false_2; [done|]. intros Hin%rotated_attempts. cbn in Hin. lia.
Qed.

(** A call of the loop extends the trail by its record. *)
Lemma called_trail s k e c :
  trail_inv s -> (attempts s <= MaxRetries env + extraAttempts s)%Z -> called s k e c ->
  AttemptTrail c = Some (trailFrom 0 (calls (events s) ++ [(k, e)])) /\ selected c = (k_ID k, k_Name k) /\
  HasTracer c = true.
Proof using Hp.
  intros Hi Ha (Hch & Ht & Htr & Hs). pose proof (opened_trail s k Hi Ha Hch) as Ho.
  rewrite Hp, Ho, closed_trail in Htr. split; [done|]. destruct Hi as (H0 & Hlen & Htc & Hafter).
  rewrite Hp in Hs. cbn in Hs. split; [|congruence].
  destruct (reselects s) eqn:Er; [done|]. revert Hch. unfold chosen, hasProvider in *.
  destruct (keyProvider env); [|done]. rewrite Er. intros ->. rewrite Hs.
  unfold reselects in Er. apply orb_false_iff in Er as [Hz%bool_decide_eq_false _].
  destruct Hafter as (_ & _ & _ & Hsel & _); [lia|]. done.
Qed.

Lemma trail_step s o :
  trail_inv s -> (attempts s <= MaxRetries env + extraAttempts s)%Z -> step_spec s o ->
  match o with Return s' => trail_post true s' | Break s' => trail_post false s' | Continue s' => trail_inv (next s') end.
Proof using Hp.
  intros Hi Ha Hstep. pose proof Hi as (H0 & Hlen & Htc & Hafter). destruct o as [s'|s'|s'].
  - inversion Hstep as [| |k used pending strip r e c sl Hsl Hcalled _|]; subst.
    destruct (called_trail _ _ _ _ Hi Ha Hcalled) as (Htr & Hs & _). unfold trail_post. cbn.
    rewrite calls_attempt by done. split; [done|]. destruct e; [done|]. eauto.
  - inversion Hstep as [used c e _ _ _ Htr Hsel|k used pending e c sl Hn|?|?]; subst; [|congruence].
    unfold trail_post. cbn. fold (calls (events s)). split; [|done]. rewrite Htr. case_bool_decide as Hz.
    + rewrite Hz in Hlen. destruct (calls (events s)); [done|cbn in Hlen; lia].
    + apply Hafter. lia.
  - inversion Hstep as [| | |k used pending r e c sl strip Hsl Hcalled Hends _ _ Hpend Heq]; subst.
    destruct (called_trail _ _ _ _ Hi Ha Hcalled) as (Htr & Hs & Ht').
    unfold trail_inv, after_call. cbn. rewrite calls_attempt, length_app by (done || apply calls_mark). cbn.
    split_and!; [lia|lia|done|]. intros _. split; [done|]. split_and!; [done|eauto|done|]. intros Hle.
    rewrite Hpend by (done || lia). destruct Hcalled as (Hch & _).
    rewrite (opened_trail s k Hi Ha Hch), closed_trail, trailFrom_length, length_app. cbn.
    destruct (isPerKeyFailure e); [done|]. destruct (reselects s) eqn:Er; [done|].
    unfold reselects in Er. apply orb_false_iff in Er as [Hz%bool_decide_eq_false Hl].
    destruct Hafter as (_ & _ & _ & _ & Hpd); [lia|]. by rewrite (Hpd Ha), Hl.
Qed.
End trail.

(** The audit trail tells the truth: for a request on a provider with
    keys, the attempt trail at the end is the one computed from the calls that
    were made (their numbers, keys, failure reasons and rotations), and the
    selected key in the context is the key of the successful last call, or
    empty when the request failed. *)
Theorem attempt_trail_faithful kp c w s w' :
  keyProvider env = Some kp -> (0 <= MaxRetries env)%Z -> HasTracer c = true ->
  executeRequestWithRetries env zero c w = Some (s, w') ->
  AttemptTrail (ctx s) = Some (trailFrom 0 (calls (events s))) /\
  match bifrostError s with
  | None => exists cs k, calls (events s) = cs ++ [(k, None)] /\ selected (ctx s) = (k_ID k, k_Name k)
  | Some _ => selected (ctx s) = ("", "")
  end.
Proof.
  intros Hkp Hmax Htc Hex. assert (hasProvider = true) as Hp by (unfold hasProvider; by rewrite Hkp).
  destruct (execute_rule (fun s => trail_inv s /\ (0 <= extraAttempts s)%Z) trail_post c w) as (b & s1 & w1 & Hex' & Hs).
  - split; [|done]. split_and!; done.
  - intros s0 [(_ & Hlen & _ & Hafter) Hx] Hgt. destruct Hafter as (Hne & Htr & _); [lia|].
    split; [done|]. by destruct (bifrostError s0).
  - intros s0 o [Hi Hx] Ha Hstep. pose proof (trail_step Hp s0 o Hi Ha Hstep) as Hpost. destruct o; [done..|].
    split; [done|]. inversion Hstep as [| | |k used pending r e c0 sl strip]; subst. cbn. destruct strip; lia.
  - rewrite Hex in Hex'. injection Hex' as -> ->. destruct (finish_events b s1) as (-> & _ & -> & _).
    destruct Hs as [Htr Hpost].
    destruct (finish_ctx b s1 Hp) as [-> ->].
    split; [done|]. destruct (bifrostError s1); [by destruct b; [apply Hpost|]|]. destruct Hpost as [-> Hpost]. done.
Qed.

End theory.

(** ** A run *)

(** A provider that answers from a script, over the keys [a] and [b]. *)
Definition Script : Type := list (option BifrostError).
Definition takeFirst : Selector Script := fun keys w => (match keys with [] => Err "none" | k :: _ => Ok k end, w).
Definition twoKeys : list Key := [weighted "a" 1; weighted "b" 1].
Definition status (c : Z) : BifrostError := mkError None false (Some c) None None emptyExtra.

Definition scripted : Env unit Script :=
  mkEnv 3 500000000 5000000000
    (fun _ w => (tt, default None (head w), tail w)) (fun r w => (r, None, w))
    (Some (rotatingKeyProvider None takeFirst "openai" twoKeys))
    (fun _ => None) (fun _ _ w => w) (fun w => (false, w)) (fun b w => (b, w)) "openai" "gpt".

Definition noCtx : RCtx := mkRCtx 0 None "" "" None [] [] true.

(** Key [a] is refused, [b] is rate limited, then answers. *)
Definition script : Script := [Some (status 401); Some (status 429); None].

Definition run : option (Loop unit * Script) := executeRequestWithRetries scripted tt noCtx script.

Lemma takeFirst_sound : selector_sound takeFirst.
Proof. intros [|k0 keys] w k w'; cbn; intros [= <- <-]; set_solver. Qed.

Lemma scripted_provides : provides twoKeys (rotatingKeyProvider None takeFirst "openai" twoKeys).
Proof. apply rotating_provides; [done|apply takeFirst_sound]. Qed.

Lemma dead_key_never_reused_witness :
  exists s w', run = Some (s, w') /\
    (fun ke => (k_ID ke.1, ke.2 ≫= be_StatusCode)) <$> calls (events s)
      = [("a", Some 401%Z); ("b", Some 429%Z); ("b", None)] /\
    Forall (fun ke => k_ID ke.1 <> "a") (drop 1 (calls (events s))).
Proof.
  destruct run as [[s w']|] eqn:E; [|vm_compute in E; discriminate].
  exists s, w'. split; [reflexivity|].
  pose proof (dead_key_never_reused scripted tt twoKeys _ noCtx script s w' eq_refl scripted_provides E) as [Hd _].
  vm_compute in E. injection E as Es _.
  assert (events s = [EvCall (weighted "a" 1) (Some (status 401)); EvCall (weighted "b" 1) (Some (status 429));
     EvMark (weighted "b" 1) (status 429); EvSleep 1000000000; EvCall (weighted "b" 1) None]) as Hev
    by (rewrite <-Es; vm_compute; reflexivity).
  rewrite Hev in *. split; [vm_compute; reflexivity|].
  apply (Hd [] (weighted "a" 1) (status 401)); vm_compute; reflexivity.
Defined.

Lemma marker_hears_transient_witness :
  exists s w', run = Some (s, w') /\ marks (events s) = [(weighted "b" 1, status 429)].
Proof.
  destruct run as [[s w']|] eqn:E; [|vm_compute in E; discriminate].
  exists s, w'. split; [reflexivity|].
  pose proof (marker_hears_transient scripted tt noCtx script s w' E) as Hm.
  vm_compute in E. injection E as Es _. rewrite Hm, <-Es. vm_compute. reflexivity.
Defined.

Lemma attempt_trail_faithful_witness :
  exists s w', run = Some (s, w') /\
    AttemptTrail (ctx s) = Some [mkAttempt 0 "a" "a" (Some "authentication_error") true;
                                 mkAttempt 1 "b" "b" (Some "rate_limit_error") false; mkAttempt 2 "b" "b" None false].
Proof.
  destruct run as [[s w']|] eqn:E; [|vm_compute in E; discriminate].
  exists s, w'. split; [reflexivity|].
  pose proof (attempt_trail_faithful scripted tt _ noCtx script s w' eq_refl ltac:(vm_compute; discriminate) eq_refl E)
    as [Hm _].
  vm_compute in E. injection E as Es _. rewrite Hm, <-Es. vm_compute. reflexivity.
Defined.

(** ** Backoff *)

Lemma shl1_small a : (0 <= a < 63)%Z -> shl1 a = (2 ^ a)%Z.
Proof.
  intros Ha. unfold shl1. rewrite bool_decide_eq_false_2 by lia. apply wrap64_id.
  assert (0 <= 2 ^ a)%Z by (apply Z.pow_nonneg; lia).
  assert (2 ^ a < 2 ^ 63)%Z by (apply Z.pow_lt_mono_r; lia). unfold in_int64, two63. lia.
Qed.

Lemma calculateBackoff_bounds j initial maxB attempt :
  (0 <= initial)%Z -> (0 <= maxB)%Z -> (0 <= attempt < 63)%Z -> (initial * 2 ^ attempt < two63)%Z ->
  (forall b, 0 <= b -> b <= 2 * j b <= 4 * b)%Z ->
  (Z.min (initial * 2 ^ attempt) maxB <= 2 * calculateBackoff j initial maxB attempt /\
   0 <= calculateBackoff j initial maxB attempt <= maxB)%Z.
Proof.
  intros Hi Hm Ha Hfit Hj. unfold calculateBackoff.
  assert (0 <= 2 ^ attempt)%Z by (apply Z.pow_nonneg; lia).
  assert (0 <= initial * 2 ^ attempt)%Z by (apply Z.mul_nonneg_nonneg; done).
  rewrite shl1_small, wrap64_id by (unfold in_int64, two63 in *; lia).
  assert (0 <= Z.min (initial * 2 ^ attempt) maxB)%Z as Hb by (apply Z.min_glb; done).
  specialize (Hj _ Hb). generalize dependent (j (Z.min (initial * 2 ^ attempt) maxB)). intros. lia.
Qed.

Lemma calculateBackoff_collapses j maxB attempt :
  (0 < maxB)%Z -> j 0%Z = 0%Z -> (56 <= attempt)%Z -> calculateBackoff j 500000000 maxB attempt = 0%Z.
Proof.
  intros Hm H0 Ha. unfold calculateBackoff.
  assert (wrap64 (500000000 * shl1 attempt) = 0%Z) as ->; [|rewrite (Z.min_l 0 maxB), H0 by lia; lia].
  unfold shl1. case_bool_decide; [done|].
  assert (attempt = 56 \/ attempt = 57 \/ attempt = 58 \/ attempt = 59 \/ attempt = 60 \/ attempt = 61 \/
          attempt = 62 \/ attempt = 63)%Z as Hc by lia.
  repeat destruct Hc as [->|Hc]; try subst attempt; vm_compute; reflexivity.
Qed.

(** Backoff: as long as the initial backoff times two to the attempt fits
    64 bits, the wait is between half of the exponential backoff capped at the
    maximum, and the maximum (the jitter stays within a factor of two; the code
    draws it within a fifth).  Past that the shift overflows before the cap:
    with the default initial backoff of half a second the 36th wait is negative
    and every wait from the 57th on is nothing, whatever the maximum. *)
Theorem calculateBackoff_spec j maxB :
  (0 < maxB)%Z -> (forall b, 0 <= b -> b <= 2 * j b <= 4 * b)%Z -> (forall b, b < 0 -> j b < 0)%Z ->
  (forall initial attempt, (0 <= initial)%Z -> (0 <= attempt < 63)%Z -> (initial * 2 ^ attempt < two63)%Z ->
     (Z.min (initial * 2 ^ attempt) maxB <= 2 * calculateBackoff j initial maxB attempt /\
      0 <= calculateBackoff j initial maxB attempt <= maxB)%Z) /\
  (calculateBackoff j 500000000 maxB 35 < 0)%Z /\
  (forall attempt, 56 <= attempt -> calculateBackoff j 500000000 maxB attempt = 0)%Z.
Proof.
  intros Hm Hj Hneg. split_and!.
  - intros initial attempt Hi Ha Hfit. apply calculateBackoff_bounds; (done || lia).
  - unfold calculateBackoff. set (b := wrap64 (500000000 * shl1 35)). assert (b < 0)%Z by (vm_compute; reflexivity).
    specialize (Hneg (Z.min b maxB)). lia.
  - intros attempt Ha. apply calculateBackoff_collapses; [done| |done]. specialize (Hj 0%Z). lia.
Qed.

Lemma calculateBackoff_spec_witness :
  (0 <= calculateBackoff (fun b => b) 500000000 5000000000 3 <= 5000000000)%Z /\
  (calculateBackoff (fun b => b) 500000000 5000000000 35 < 0)%Z.
Proof.
  destruct (calculateBackoff_spec (fun b => b) 5000000000) as (H1 & H2 & _).
  - vm_compute. reflexivity.
  - intros b Hb. lia.
  - intros b Hb. exact Hb.
  - split; [|exact H2]. apply (H1 500000000%Z 3%Z); vm_compute; (reflexivity || discriminate || (split; (reflexivity || discriminate))).
Defined.

End RetryProofs.
