(* ===== verification/Request.v ===== *)
(** * Requests (src/core/schemas/bifrost.go)

    A [BifrostRequest] is a struct of fifty pointers, of which one is set: the
    typed request.  It is a function from the names of the pointers to the part
    of a typed request routing looks at: its provider, model and fallbacks, and
    the rest as an opaque body.  The accessors follow the [switch]es of the
    source, case by case and in their order. *)

From S2P Require Import Prelude GoStrings Schemas.
Local Open Scope string_scope.
Local Open Scope list_scope.

Module Request.
Import Schemas.

(** The pointers of the struct, without their suffix [Request]. *)
Inductive Field :=
| FListModels | FTextCompletion | FChat | FResponses | FResponsesRetrieve | FResponsesDelete |
  FResponsesCancel | FResponsesInputItems | FCountTokens | FCompaction | FEmbedding | FRerank | FOCR |
  FSpeech | FTranscription | FImageGeneration | FImageEdit | FImageVariation | FVideoGeneration |
  FVideoRetrieve | FVideoDownload | FVideoList | FVideoRemix | FVideoDelete | FFileUpload | FFileList |
  FFileRetrieve | FFileDelete | FFileContent | FCachedContentCreate | FCachedContentList |
  FCachedContentRetrieve | FCachedContentUpdate | FCachedContentDelete | FBatchCreate | FBatchList |
  FBatchRetrieve | FBatchCancel | FBatchResults | FBatchDelete | FContainerCreate | FContainerList |
  FContainerRetrieve | FContainerDelete | FContainerFileCreate | FContainerFileList |
  FContainerFileRetrieve | FContainerFileContent | FContainerFileDelete | FPassthrough.

#[global] Instance Field_eq_dec : EqDecision Field.
Proof. solve_decision. Defined.

Record Fallback := mkFallback { fb_Provider : ModelProvider; fb_Model : string }.

(** A typed request.  [sub_Model] is [None] for a nil model pointer, and for
    the types that have no model. *)
Record Sub (B : Type) := mkSub {
  sub_Provider : ModelProvider;
  sub_Model : option string;
  sub_Fallbacks : list Fallback;
  sub_Body : B }.
Arguments mkSub {B}.
Arguments sub_Provider {B}.
Arguments sub_Model {B}.
Arguments sub_Fallbacks {B}.
Arguments sub_Body {B}.

Record BifrostRequest (B : Type) := mkRequest { br_RequestType : RequestType; br_field : Field -> option (Sub B) }.
Arguments mkRequest {B}.
Arguments br_RequestType {B}.
Arguments br_field {B}.

(** ** The accessors *)

(** What [GetRequestFields] returns of a type: the provider alone, a model by
    pointer, a model, or a model and fallbacks. *)
Inductive Shape := ProviderShape | PtrShape | ModelShape | FullShape.

Definition shape (f : Field) : Shape :=
  match f with
  | FTextCompletion | FChat | FResponses | FCountTokens | FCompaction | FEmbedding | FRerank |
    FOCR | FSpeech | FTranscription | FImageGeneration | FImageEdit | FImageVariation |
    FVideoGeneration => FullShape
  | FCachedContentCreate | FPassthrough => ModelShape
  | FFileUpload | FFileList | FFileRetrieve | FFileDelete | FFileContent | FCachedContentList |
    FCachedContentRetrieve | FCachedContentUpdate | FCachedContentDelete | FBatchCreate |
    FBatchList | FBatchRetrieve | FBatchCancel | FBatchResults | FBatchDelete => PtrShape
  | _ => ProviderShape
  end.

Definition getOrder : list Field :=
  [FListModels; FTextCompletion; FChat; FResponses; FResponsesRetrieve; FResponsesDelete; FResponsesCancel;
   FResponsesInputItems; FCountTokens; FCompaction; FEmbedding; FRerank; FOCR; FSpeech; FTranscription;
   FImageGeneration; FImageEdit; FImageVariation; FVideoGeneration; FVideoRetrieve; FVideoDownload;
   FVideoList; FVideoDelete; FVideoRemix; FFileUpload; FFileList; FFileRetrieve; FFileDelete; FFileContent;
   FCachedContentCreate; FCachedContentList; FCachedContentRetrieve; FCachedContentUpdate;
   FCachedContentDelete; FBatchCreate; FBatchList; FBatchRetrieve; FBatchCancel; FBatchResults;
   FBatchDelete; FContainerCreate; FContainerList; FContainerRetrieve; FContainerDelete;
   FContainerFileCreate; FContainerFileList; FContainerFileRetrieve; FContainerFileContent;
   FContainerFileDelete; FPassthrough].

(** The first set pointer of a [switch]. *)
Definition active {B} (order : list Field) (req : BifrostRequest B) : option (Field * Sub B) :=
  head (omap (fun f => (fun s => (f, s)) <$> br_field req f) order).

Definition GetRequestFields {B} (req : BifrostRequest B) : ModelProvider * string * list Fallback :=
  match active getOrder req with
  | None => ("", "", [])
  | Some (f, s) =>
      match shape f with
      | ProviderShape => (sub_Provider s, "", [])
      | PtrShape | ModelShape => (sub_Provider s, default "" (sub_Model s), [])
      | FullShape => (sub_Provider s, default "" (sub_Model s), sub_Fallbacks s)
      end
  end.

Definition setField {B} (req : BifrostRequest B) (f : Field) (s : Sub B) : BifrostRequest B :=
  mkRequest (br_RequestType req) (fun g => if decide (g = f) then Some s else br_field req g).

(** The cases of [SetProvider]: it has none for files, batches, containers and
    passthrough. *)
Definition setProviderOrder : list Field :=
  [FListModels; FTextCompletion; FChat; FResponses; FResponsesRetrieve; FResponsesDelete; FResponsesCancel;
   FResponsesInputItems; FCountTokens; FCompaction; FEmbedding; FRerank; FOCR; FSpeech; FTranscription;
   FImageGeneration; FImageEdit; FImageVariation; FVideoGeneration; FVideoRetrieve; FVideoDownload;
   FVideoList; FVideoDelete; FVideoRemix; FCachedContentCreate; FCachedContentList; FCachedContentRetrieve;
   FCachedContentUpdate; FCachedContentDelete].

Definition SetProvider {B} (req : BifrostRequest B) (provider : ModelProvider) : BifrostRequest B :=
  match active setProviderOrder req with
  | None => req
  | Some (f, s) => setField req f (mkSub provider (sub_Model s) (sub_Fallbacks s) (sub_Body s))
  end.

(** The cases of [SetModel]; those of a model pointer change it only when it
    is not nil. *)
Definition setModelOrder : list Field :=
  [FTextCompletion; FChat; FResponses; FCountTokens; FCompaction; FEmbedding; FRerank; FOCR; FSpeech;
   FTranscription; FImageGeneration; FImageEdit; FImageVariation; FVideoGeneration; FBatchCreate;
   FCachedContentCreate; FCachedContentList; FCachedContentRetrieve; FCachedContentUpdate;
   FCachedContentDelete].

Definition SetModel {B} (req : BifrostRequest B) (model : string) : BifrostRequest B :=
  match active setModelOrder req with
  | None => req
  | Some (f, s) =>
      let model' := match shape f, sub_Model s with PtrShape, None => None | _, _ => Some model end in
      setField req f (mkSub (sub_Provider s) model' (sub_Fallbacks s) (sub_Body s))
  end.

Definition setFallbacksOrder : list Field :=
  [FTextCompletion; FChat; FResponses; FCountTokens; FCompaction; FEmbedding; FRerank; FOCR; FSpeech;
   FTranscription; FImageGeneration; FImageEdit; FImageVariation; FVideoGeneration].

Definition SetFallbacks {B} (req : BifrostRequest B) (fallbacks : list Fallback) : BifrostRequest B :=
  match active setFallbacksOrder req with
  | None => req
  | Some (f, s) => setField req f (mkSub (sub_Provider s) (sub_Model s) fallbacks (sub_Body s))
  end.

(** ** Requests with one typed request *)

(** The invariant of the struct: exactly the pointer [f] is set. *)
Definition only {B} (req : BifrostRequest B) (f : Field) (s : Sub B) : Prop :=
  forall g, br_field req g = if decide (g = f) then Some s else None.

Lemma active_only {B} order (req : BifrostRequest B) f s :
  only req f s -> active order req = if decide (f ∈ order) then Some (f, s) else None.
Proof.
  intros Ho. unfold active. induction order as [|g order IH]; [done|]. cbn. rewrite (Ho g).
  destruct (decide (g = f)) as [->|Hg]; cbn.
  - rewrite decide_True by set_solver. done.
  - rewrite IH. destruct (decide (f ∈ order)) as [Hin|Hin].
    + by rewrite decide_True by set_solver.
    + rewrite decide_False; [done|set_solver].
Qed.

Lemma getOrder_full f : f ∈ getOrder.
Proof. apply (bool_decide_unpack _). destruct f; vm_compute; exact I. Qed.

Lemma GetRequestFields_only {B} (req : BifrostRequest B) f s :
  only req f s ->
  GetRequestFields req =
    (sub_Provider s, match shape f with ProviderShape => "" | _ => default "" (sub_Model s) end,
     match shape f with FullShape => sub_Fallbacks s | _ => [] end).
Proof.
  intros Ho. unfold GetRequestFields. rewrite (active_only _ _ f s Ho), decide_True by apply getOrder_full.
  by destruct (shape f).
Qed.

Lemma only_setField {B} (req : BifrostRequest B) f s s' : only req f s -> only (setField req f s') f s'.
Proof. intros Ho g. cbn. destruct (decide (g = f)) as [|Hg]; [done|]. rewrite (Ho g). by rewrite decide_False. Qed.

Lemma full_in_setProvider f : shape f = FullShape -> f ∈ setProviderOrder.
Proof. intros H. apply (bool_decide_unpack _). destruct f; vm_compute in H |- *; (exact I || discriminate). Qed.
Lemma full_in_setModel f : shape f = FullShape -> f ∈ setModelOrder.
Proof. intros H. apply (bool_decide_unpack _). destruct f; vm_compute in H |- *; (exact I || discriminate). Qed.
Lemma full_in_setFallbacks f : shape f = FullShape -> f ∈ setFallbacksOrder.
Proof. intros H. apply (bool_decide_unpack _). destruct f; vm_compute in H |- *; (exact I || discriminate). Qed.

(** What a routing plugin writes is what the gateway reads: for every
    request type that has a model and fallbacks, setting the provider, the
    model and the fallbacks makes [GetRequestFields] return them; and for the
    types without a case in [SetProvider] (files, batches, containers,
    passthrough) the write is lost. *)
Theorem routing_writes_visible {B} (req : BifrostRequest B) f s p m fbs :
  only req f s ->
  (shape f = FullShape ->
     GetRequestFields (SetFallbacks (SetModel (SetProvider req p) m) fbs) = (p, m, fbs)) /\
  (f ∉ setProviderOrder -> SetProvider req p = req).
Proof.
  intros Ho. split.
  - intros Hs. unfold SetProvider. rewrite (active_only _ _ f s Ho), decide_True by by apply full_in_setProvider.
    set (s1 := mkSub p _ _ _). pose proof (only_setField req f s s1 Ho) as Ho1. unfold SetModel.
    rewrite (active_only _ _ f s1 Ho1), decide_True by by apply full_in_setModel. rewrite Hs.
    set (s2 := mkSub _ _ _ _). pose proof (only_setField _ f s1 s2 Ho1) as Ho2. unfold SetFallbacks.
    rewrite (active_only _ _ f s2 Ho2), decide_True by by apply full_in_setFallbacks.
    set (s3 := mkSub _ _ fbs _). pose proof (only_setField _ f s2 s3 Ho2) as Ho3.
    by rewrite (GetRequestFields_only _ f s3 Ho3), Hs.
  - intros Hn. unfold SetProvider. by rewrite (active_only _ _ f s Ho), decide_False.
Qed.

Definition onlyField {B} (t : RequestType) (f : Field) (s : Sub B) : BifrostRequest B :=
  mkRequest t (fun g => if decide (g = f) then Some s else None).

Lemma only_onlyField {B} t f (s : Sub B) : only (onlyField t f s) f s.
Proof. by intros g. Qed.

Lemma routing_writes_visible_witness :
  GetRequestFields (SetFallbacks (SetModel (SetProvider
    (onlyField "chat_completion" FChat (mkSub "" (Some "m") [] tt)) "openai") "gpt") [mkFallback "groq" "l"])
  = ("openai", "gpt", [mkFallback "groq" "l"]).
Proof. apply (proj1 (routing_writes_visible _ FChat _ "openai" "gpt" _ (only_onlyField _ _ _))). reflexivity. Defined.

End Request.
