(* ===== verification/Context.v ===== *)
(** * The request context (src/core/schemas/context.go)

    A context is a map of user values over the values of its parent, and a flag
    that blocks writes of reserved keys while plugin hooks run.  A scoped plugin
    context delegates reads and writes to the root, so a hook's writes are a
    list of calls on the root. *)

From S2P Require Import Prelude GoStrings Schemas.
Local Open Scope string_scope.
Local Open Scope list_scope.

Module Context.
Import Schemas.

(** ** Keys (src/core/schemas/bifrost.go) *)

Definition KeyVirtualKey : string := "x-bf-vk".
Definition KeyAPIKeyName : string := "x-bf-api-key".
Definition KeyAPIKeyID : string := "x-bf-api-key-id".
Definition KeyDirectKey : string := "x-bf-direct-key".
Definition KeyRequestID : string := "request-id".
Definition KeyFallbackRequestID : string := "fallback-request-id".
Definition KeySelectedKeyID : string := "bifrost-selected-key-id".
Definition KeySelectedKeyName : string := "bifrost-selected-key-name".
Definition KeyNumberOfRetries : string := "bifrost-number-of-retries".
Definition KeyFallbackIndex : string := "bifrost-fallback-index".
Definition KeySkipKeySelection : string := "bifrost-skip-key-selection".
Definition KeyPassthroughHeaders : string := "bifrost-anthropic-passthrough-headers".
Definition KeySkipBudgetAndRateLimits : string := "bifrost-skip-budget-and-rate-limits".
Definition KeyURLPath : string := "bifrost-extra-url-path".
Definition KeyDeferTraceCompletion : string := "bifrost-defer-trace-completion".
Definition KeyAttemptTrail : string := "bifrost-attempt-trail".
Definition KeyStreamGated : string := "bifrost-stream-gated".
Definition KeyMCPHealthCheckRequest : string := "bifrost-mcp-health-check-request".
Definition KeyUpstreamLatency : string := "bifrost-upstream-latency".
Definition KeyRoutingInfo : string := "bifrost-routing-info".
Definition KeyMCPInboundBearer : string := "bifrost-mcp-inbound-bearer".
Definition KeyRoutingPinnedAPIKeyID : string := "bifrost-routing-pinned-api-key-id".
Definition KeyGovernanceIncludeOnlyKeys : string := "bf-governance-include-only-keys".
Definition KeyStreamEndIndicator : string := "bifrost-stream-end-indicator".
Definition KeyChangeRequestType : string := "bifrost-change-request-type".
Definition KeyStreamStartTime : string := "bifrost-stream-start-time".
Definition KeyTracer : string := "bifrost-tracer".
Definition KeyDropRawRequestFromClient : string := "bifrost-drop-raw-request-from-client".
Definition KeyDropRawResponseFromClient : string := "bifrost-drop-raw-response-from-client".
Definition KeyRoutingEnginesUsed : string := "bifrost-routing-engines-used".
Definition KeyRoutingEngineLogs : string := "bifrost-routing-engine-logs".
Definition KeySkipPluginPipeline : string := "bifrost-skip-plugin-pipeline".
Definition KeySupportsAssistantPrefill : string := "bifrost-supports-assistant-prefill".
Definition KeyConnectionClosed : string := "connection_closed".
Definition KeyProviderKeys : string := "bifrost-provider-keys".
Definition KeySilentLog : string := "bifrost-silent-log".
Definition KeyRetryAfterSeconds : string := "bifrost-retry-after-seconds".
Definition KeyCooldownPolicy : string := "bifrost-cooldown-policy".
Definition KeyTraceID : string := "bifrost-trace-id".

Definition reservedKeys : list string :=
  [KeyVirtualKey; KeyAPIKeyName; KeyAPIKeyID; KeyDirectKey; KeyRequestID; KeyFallbackRequestID; KeySelectedKeyID;
   KeySelectedKeyName; KeyNumberOfRetries; KeyFallbackIndex; KeySkipKeySelection; KeyPassthroughHeaders;
   KeySkipBudgetAndRateLimits; KeyURLPath; KeyDeferTraceCompletion; KeyAttemptTrail; KeyStreamGated;
   KeyMCPHealthCheckRequest; KeyUpstreamLatency; KeyRoutingInfo; KeyMCPInboundBearer].

(** ** Values *)

Record RoutingEngineLogEntry := mkLogEntry { le_Engine : string; le_Level : string; le_Message : string; le_Timestamp : Z }.

#[global] Instance RoutingEngineLogEntry_eq_dec : EqDecision RoutingEngineLogEntry.
Proof. solve_decision. Defined.

(** The dynamic types the modelled code asserts on; any other value is opaque. *)
Inductive Value :=
| VNil
| VBool (b : bool)
| VInt (z : Z)
| VString (s : string)
| VStrings (l : list string)
| VLogs (l : list RoutingEngineLogEntry)
| VRouting (ri : RoutingInfo)
| VKey (k : Key)
| VKeys (p : ModelProvider) (ks : list Key)
| VOpaque (tag : string).

Record BifrostContext := mkCtx {
  userValues : gmap string Value;
  parentValues : gmap string Value;
  blockRestrictedWrites : bool }.

(** A value set here, even a nil one, hides the parent's. *)
Definition value (c : BifrostContext) (k : string) : Value :=
  match userValues c !! k with
  | Some v => v
  | None => default VNil (parentValues c !! k)
  end.

Definition boolValue (c : BifrostContext) (k : string) : bool :=
  match value c k with VBool b => b | _ => false end.

Definition dropsWrite (c : BifrostContext) (k : string) : bool :=
  blockRestrictedWrites c && bool_decide (k ∈ reservedKeys).

Definition setReservedValue (c : BifrostContext) (k : string) (v : Value) : BifrostContext :=
  mkCtx (<[k := v]> (userValues c)) (parentValues c) (blockRestrictedWrites c).

Definition SetValue (c : BifrostContext) (k : string) (v : Value) : BifrostContext :=
  if dropsWrite c k then c else setReservedValue c k v.

Definition ClearValue (c : BifrostContext) (k : string) : BifrostContext :=
  if dropsWrite c k then c else setReservedValue c k VNil.

Definition GetAndSetValue (c : BifrostContext) (k : string) (v : Value) : Value * BifrostContext :=
  (default VNil (userValues c !! k), if dropsWrite c k then c else setReservedValue c k v).

Definition BlockRestrictedWrites (c : BifrostContext) : BifrostContext :=
  mkCtx (userValues c) (parentValues c) true.
Definition UnblockRestrictedWrites (c : BifrostContext) : BifrostContext :=
  mkCtx (userValues c) (parentValues c) false.

Definition SetRoutingInfoSnapshot (c : BifrostContext) (ri : RoutingInfo) : BifrostContext :=
  setReservedValue c KeyRoutingInfo (VRouting ri).

Definition ResetUpstreamLatency (c : BifrostContext) : BifrostContext :=
  setReservedValue c KeyUpstreamLatency (VInt 0).

(** [AddUpstreamLatency]: the accumulator is added to in place. *)
Definition AddUpstreamLatency (c : BifrostContext) (d : Z) : BifrostContext :=
  if bool_decide (d <= 0)%Z then c
  else match value c KeyUpstreamLatency with
       | VInt z => setReservedValue c KeyUpstreamLatency (VInt (wrap64 (z + d)))
       | _ => c
       end.

(** The stream of the request has a tracer and a trace. *)
Definition traceable (c : BifrostContext) : bool :=
  match value c KeyTracer, value c KeyTraceID with
  | VOpaque "tracer", VString tid => negb (String.eqb tid "")
  | _, _ => false
  end.

(** What the three calls write to the context; the rest is the tracer's. *)
Definition PauseStream (c : BifrostContext) : BifrostContext :=
  if traceable c then setReservedValue c KeyStreamGated (VBool true) else c.
Definition ResumeStream (c : BifrostContext) : BifrostContext :=
  if traceable c then setReservedValue c KeyStreamGated (VBool true) else c.
Definition EndStream (c : BifrostContext) : BifrostContext :=
  if traceable c then setReservedValue c KeyStreamGated (VBool true) else c.

(** [AppendToContextList] at the two list types the modelled code uses. *)
Definition appendString (c : BifrostContext) (k : string) (x : string) : BifrostContext :=
  let l := match value c k with VStrings l => l | _ => [] end in
  if bool_decide (x ∈ l) then c else SetValue c k (VStrings (l ++ [x])).

Definition appendLog (c : BifrostContext) (k : string) (x : RoutingEngineLogEntry) : BifrostContext :=
  let l := match value c k with VLogs l => l | _ => [] end in
  if bool_decide (x ∈ l) then c else SetValue c k (VLogs (l ++ [x])).

Definition RoutingEngineCore : string := "core".

Definition AppendRoutingEngineLog (c : BifrostContext) (engine level message : string) (now : Z) : BifrostContext :=
  appendLog c KeyRoutingEngineLogs (mkLogEntry engine level message now).

(** ** What a plugin can do to the context *)

(** The public methods that write, on the context a hook is given or on its
    root: only the block is not delegated, so it is [Root().BlockRestrictedWrites]
    and [Root().UnblockRestrictedWrites] that reach the root. *)
Inductive CtxOp :=
| OpSet (k : string) (v : Value)
| OpClear (k : string)
| OpGetAndSet (k : string) (v : Value)
| OpSnapshot (ri : RoutingInfo)
| OpResetLatency
| OpAddLatency (d : Z)
| OpPauseStream
| OpResumeStream
| OpEndStream
| OpBlock
| OpUnblock.

Definition applyOp (c : BifrostContext) (op : CtxOp) : BifrostContext :=
  match op with
  | OpSet k v => SetValue c k v
  | OpClear k => ClearValue c k
  | OpGetAndSet k v => (GetAndSetValue c k v).2
  | OpSnapshot ri => SetRoutingInfoSnapshot c ri
  | OpResetLatency => ResetUpstreamLatency c
  | OpAddLatency d => AddUpstreamLatency c d
  | OpPauseStream => PauseStream c
  | OpResumeStream => ResumeStream c
  | OpEndStream => EndStream c
  | OpBlock => BlockRestrictedWrites c
  | OpUnblock => UnblockRestrictedWrites c
  end.

Definition applyOps (c : BifrostContext) (ops : list CtxOp) : BifrostContext := foldl applyOp c ops.

(** The call that lifts the block. *)
Definition lifts (op : CtxOp) : bool := match op with OpUnblock => true | _ => false end.

(** What can become of a reserved value while the block is on: it stays, the
    stream gate is closed, and the two values with a public setter take what
    their setters write. *)
Definition mayBecome (k : string) (v v' : Value) : Prop :=
  v' = v \/
  (k = KeyStreamGated /\ v' = VBool true) \/
  (k = KeyRoutingInfo /\ exists ri, v' = VRouting ri) \/
  (k = KeyUpstreamLatency /\ exists z, v' = VInt z).

Lemma mayBecome_trans k v v' v'' : mayBecome k v v' -> mayBecome k v' v'' -> mayBecome k v v''.
Proof. unfold mayBecome. naive_solver. Qed.

Lemma value_set_ne c k v k' : k <> k' -> value (setReservedValue c k v) k' = value c k'.
Proof. intros Hne. unfold value. cbn. by rewrite lookup_insert_ne. Qed.

Lemma value_set_eq c k v : value (setReservedValue c k v) k = v.
Proof. unfold value. cbn. by rewrite lookup_insert_eq. Qed.

(** A write past the block changes its own key. *)
Lemma set_mayBecome c k v k' :
  (k = k' -> mayBecome k' (value c k') v) -> mayBecome k' (value c k') (value (setReservedValue c k v) k').
Proof.
  intros Hk. destruct (decide (k = k')) as [->|Hne]; [rewrite value_set_eq; auto|].
  left. by apply value_set_ne.
Qed.

Lemma write_dropped c k v k' : blockRestrictedWrites c = true -> k' ∈ reservedKeys ->
  value (if dropsWrite c k then c else setReservedValue c k v) k' = value c k'.
Proof.
  intros Hb Hr. unfold dropsWrite. rewrite Hb. cbn. case_bool_decide as Hk; [done|].
  apply value_set_ne. by intros ->.
Qed.

Lemma applyOp_reserved c op k : blockRestrictedWrites c = true -> k ∈ reservedKeys -> lifts op = false ->
  mayBecome k (value c k) (value (applyOp c op) k) /\ blockRestrictedWrites (applyOp c op) = true.
Proof.
  intros Hb Hk Hl.
  assert (forall k', blockRestrictedWrites (if dropsWrite c k' then c else setReservedValue c k' VNil) = true /\
    forall v, blockRestrictedWrites (if dropsWrite c k' then c else setReservedValue c k' v) = true) as Hw.
  { intros k'. by destruct (dropsWrite c k'). }
  destruct op as [k' v|k'|k' v|ri| |d| | | | |]; cbn; try discriminate Hl.
  1-3: split; [left; by apply write_dropped|by apply (Hw k')].
  - split; [|done]. apply set_mayBecome. intros <-. right. right. left. eauto.
  - split; [|done]. apply set_mayBecome. intros <-. right. right. right. eauto.
  - unfold AddUpstreamLatency. case_bool_decide; [by split; [left|]|].
    destruct (value c KeyUpstreamLatency); try (by split; [left|]).
    split; [|done]. apply set_mayBecome. intros <-. right. right. right. eauto.
  - unfold PauseStream. destruct (traceable c); [|by split; [left|]].
    split; [|done]. apply set_mayBecome. intros <-. right. by left.
  - unfold ResumeStream. destruct (traceable c); [|by split; [left|]].
    split; [|done]. apply set_mayBecome. intros <-. right. by left.
  - unfold EndStream. destruct (traceable c); [|by split; [left|]].
    split; [|done]. apply set_mayBecome. intros <-. right. by left.
  - by split; [left|].
Qed.

Lemma applyOps_reserved c ops k : blockRestrictedWrites c = true -> k ∈ reservedKeys ->
  Forall (fun op => lifts op = false) ops ->
  mayBecome k (value c k) (value (applyOps c ops) k) /\ blockRestrictedWrites (applyOps c ops) = true.
Proof.
  intros Hb Hk Hl. revert c Hb. induction Hl as [|op ops Hop _ IH]; intros c Hb; [by split; [left|]|].
  destruct (applyOp_reserved c op k Hb Hk Hop) as [Hv Hb']. destruct (IH _ Hb') as [Hv' Hb'']. cbn.
  split; [by eapply mayBecome_trans|done].
Qed.

End Context.
