(* ===== verification/JsonScan.v ===== *)
(** * Go's JSON scanner ([encoding/json], [json.Valid])

    The state machine [json.Valid] runs over its input, one definition per
    state function of the standard library.  It is what [isValidJSON] of the
    JSON parser plugin calls, and the reference its completion of partial
    documents is measured against. *)

From S2P Require Import Prelude GoStrings.
From Stdlib Require Import Ascii.

Local Open Scope char_scope.

Module JsonScan.

(** What is open around the scanner: an object whose key or value is being
    read, an array. *)
Inductive ParseState := parseObjectKey | parseObjectValue | parseArrayValue.

#[global] Instance ParseState_eq_dec : EqDecision ParseState.
Proof. solve_decision. Defined.

Inductive Step :=
| stateBeginValueOrEmpty | stateBeginValue | stateBeginStringOrEmpty | stateBeginString
| stateEndValue | stateEndTop
| stateInString | stateInStringEsc | stateInStringEscU | stateInStringEscU1 | stateInStringEscU12 | stateInStringEscU123
| stateNeg | state1 | state0 | stateDot | stateDot0 | stateE | stateESign | stateE0
| stateT | stateTr | stateTru | stateF | stateFa | stateFal | stateFals | stateN | stateNu | stateNul.

#[global] Instance Step_eq_dec : EqDecision Step.
Proof. solve_decision. Defined.

(** [parseState] innermost first. *)
Record scanner := mkScanner { step : Step; parseState : list ParseState; endTop : bool }.

Definition quote : ascii := ascii_of_nat 34.
Definition backslash : ascii := ascii_of_nat 92.

Definition isSpace (c : ascii) : bool :=
  Ascii.eqb c " " || Ascii.eqb c (ascii_of_nat 9) || Ascii.eqb c (ascii_of_nat 13) || Ascii.eqb c (ascii_of_nat 10).

Definition isDigit (c : ascii) : bool := let n := nat_of_ascii c in (48 <=? n)%nat && (n <=? 57)%nat.
Definition isDigit19 (c : ascii) : bool := let n := nat_of_ascii c in (49 <=? n)%nat && (n <=? 57)%nat.
Definition isHex (c : ascii) : bool :=
  let n := nat_of_ascii c in
  ((48 <=? n)%nat && (n <=? 57)%nat) || ((97 <=? n)%nat && (n <=? 102)%nat) || ((65 <=? n)%nat && (n <=? 70)%nat).

Definition maxNestingDepth : N := 10000.

Definition setStep (s : scanner) (st : Step) : scanner := mkScanner st (parseState s) (endTop s).

Definition pushParseState (s : scanner) (st : Step) (p : ParseState) : option scanner :=
  let ps := p :: parseState s in
  if (N.of_nat (length ps) <=? maxNestingDepth)%N then Some (mkScanner st ps (endTop s)) else None.

Definition popParseState (s : scanner) : scanner :=
  match tail (parseState s) with
  | [] => mkScanner stateEndTop [] true
  | ps => mkScanner stateEndValue ps (endTop s)
  end.

Definition step_EndTop (s : scanner) (c : ascii) : option scanner := if isSpace c then Some s else None.

Definition step_EndValue (s : scanner) (c : ascii) : option scanner :=
  match parseState s with
  | [] => step_EndTop (mkScanner stateEndTop [] true) c
  | ps :: rest =>
      if isSpace c then Some (setStep s stateEndValue)
      else match ps with
           | parseObjectKey => if Ascii.eqb c ":" then Some (mkScanner stateBeginValue (parseObjectValue :: rest) (endTop s)) else None
           | parseObjectValue =>
               if Ascii.eqb c "," then Some (mkScanner stateBeginString (parseObjectKey :: rest) (endTop s))
               else if Ascii.eqb c "}" then Some (popParseState s) else None
           | parseArrayValue =>
               if Ascii.eqb c "," then Some (setStep s stateBeginValue)
               else if Ascii.eqb c "]" then Some (popParseState s) else None
           end
  end.

Definition step_BeginValue (s : scanner) (c : ascii) : option scanner :=
  if isSpace c then Some s
  else if Ascii.eqb c "{" then pushParseState s stateBeginStringOrEmpty parseObjectKey
  else if Ascii.eqb c "[" then pushParseState s stateBeginValueOrEmpty parseArrayValue
  else if Ascii.eqb c quote then Some (setStep s stateInString)
  else if Ascii.eqb c "-" then Some (setStep s stateNeg)
  else if Ascii.eqb c "0" then Some (setStep s state0)
  else if Ascii.eqb c "t" then Some (setStep s stateT)
  else if Ascii.eqb c "f" then Some (setStep s stateF)
  else if Ascii.eqb c "n" then Some (setStep s stateN)
  else if isDigit19 c then Some (setStep s state1)
  else None.

Definition step_BeginString (s : scanner) (c : ascii) : option scanner :=
  if isSpace c then Some s else if Ascii.eqb c quote then Some (setStep s stateInString) else None.

Definition step_state0 (s : scanner) (c : ascii) : option scanner :=
  if Ascii.eqb c "." then Some (setStep s stateDot)
  else if Ascii.eqb c "e" || Ascii.eqb c "E" then Some (setStep s stateE)
  else step_EndValue s c.

Definition step_ESign (s : scanner) (c : ascii) : option scanner :=
  if isDigit c then Some (setStep s stateE0) else None.

(** A state that expects one byte. *)
Definition expect (s : scanner) (c x : ascii) (next : Step) : option scanner :=
  if Ascii.eqb c x then Some (setStep s next) else None.

Definition expectHex (s : scanner) (c : ascii) (next : Step) : option scanner :=
  if isHex c then Some (setStep s next) else None.

Definition escapable (c : ascii) : bool :=
  Ascii.eqb c "b" || Ascii.eqb c "f" || Ascii.eqb c "n" || Ascii.eqb c "r" || Ascii.eqb c "t" ||
  Ascii.eqb c backslash || Ascii.eqb c "/" || Ascii.eqb c quote.

(** One byte; [None] is [scanError]. *)
Definition scan_step (s : scanner) (c : ascii) : option scanner :=
  match step s with
  | stateBeginValueOrEmpty =>
      if isSpace c then Some s else if Ascii.eqb c "]" then step_EndValue s c else step_BeginValue s c
  | stateBeginValue => step_BeginValue s c
  | stateBeginStringOrEmpty =>
      if isSpace c then Some s
      else if Ascii.eqb c "}" then
        step_EndValue (mkScanner (step s) (match parseState s with [] => [] | _ :: r => parseObjectValue :: r end) (endTop s)) c
      else step_BeginString s c
  | stateBeginString => step_BeginString s c
  | stateEndValue => step_EndValue s c
  | stateEndTop => step_EndTop s c
  | stateInString =>
      if Ascii.eqb c quote then Some (setStep s stateEndValue)
      else if Ascii.eqb c backslash then Some (setStep s stateInStringEsc)
      else if (nat_of_ascii c <? 32)%nat then None
      else Some s
  | stateInStringEsc =>
      if escapable c then Some (setStep s stateInString)
      else if Ascii.eqb c "u" then Some (setStep s stateInStringEscU) else None
  | stateInStringEscU => expectHex s c stateInStringEscU1
  | stateInStringEscU1 => expectHex s c stateInStringEscU12
  | stateInStringEscU12 => expectHex s c stateInStringEscU123
  | stateInStringEscU123 => expectHex s c stateInString
  | stateNeg => if Ascii.eqb c "0" then Some (setStep s state0) else if isDigit19 c then Some (setStep s state1) else None
  | state1 => if isDigit c then Some s else step_state0 s c
  | state0 => step_state0 s c
  | stateDot => if isDigit c then Some (setStep s stateDot0) else None
  | stateDot0 => if isDigit c then Some s else if Ascii.eqb c "e" || Ascii.eqb c "E" then Some (setStep s stateE) else step_EndValue s c
  | stateE => if Ascii.eqb c "+" || Ascii.eqb c "-" then Some (setStep s stateESign) else step_ESign s c
  | stateESign => step_ESign s c
  | stateE0 => if isDigit c then Some s else step_EndValue s c
  | stateT => expect s c "r" stateTr
  | stateTr => expect s c "u" stateTru
  | stateTru => expect s c "e" stateEndValue
  | stateF => expect s c "a" stateFa
  | stateFa => expect s c "l" stateFal
  | stateFal => expect s c "s" stateFals
  | stateFals => expect s c "e" stateEndValue
  | stateN => expect s c "u" stateNu
  | stateNu => expect s c "l" stateNul
  | stateNul => expect s c "l" stateEndValue
  end.

Fixpoint scan (s : scanner) (data : string) : option scanner :=
  match data with
  | EmptyString => Some s
  | String c data => s' ← scan_step s c; scan s' data
  end.

Definition reset : scanner := mkScanner stateBeginValue [] false.

(** [scanner.eof]. *)
Definition eof (s : scanner) : bool :=
  if endTop s then true
  else match scan_step s " " with Some s' => endTop s' | None => false end.

(** [json.Valid]. *)
Definition Valid (data : string) : bool :=
  match scan reset data with Some s => eof s | None => false end.

Lemma scan_app s a b : scan s (a +:+ b)%string = (s' ← scan s a; scan s' b).
Proof. revert s. induction a as [|c a IH]; intros s; [done|]. cbn. destruct (scan_step s c); [apply IH|done]. Qed.

End JsonScan.
