(* ===== verification/JsonParser.v ===== *)
(** * JSON parser plugin (src/plugins/jsonparser)

    The plugin accumulates the text of a streamed answer per request and
    replaces the text of each chunk with the accumulated document, completed to
    valid JSON.  [time.Now] is the argument [now].  A response is the pointer
    fields of [schemas.BifrostResponse] the plugin reads, copies or leaves out;
    what it never looks into is text. *)

From S2P Require Import Prelude GoStrings Schemas Context JsonScan.
From Stdlib Require Import Ascii.

Local Open Scope string_scope.
Local Open Scope list_scope.

Module JsonParser.
Import Schemas Context JsonScan.

(** ** Completion of a partial document (utils.go) *)

Definition isValidJSON (s : string) : bool :=
  let s := TrimSpace s in
  if bool_decide (s = ""%string) then false else Valid s.

(** The state of the loop of [completeJSON]; [stack] innermost first. *)
Record CompleteState := mkComplete { stack : list ascii; inString : bool; escaped : bool }.

Definition complete_step (st : CompleteState) (char : ascii) : CompleteState :=
  if escaped st then mkComplete (stack st) (inString st) false
  else if Ascii.eqb char backslash then mkComplete (stack st) (inString st) true
  else if Ascii.eqb char quote then mkComplete (stack st) (negb (inString st)) false
  else if inString st then st
  else if Ascii.eqb char "{" then mkComplete ("}"%char :: stack st) (inString st) false
  else if Ascii.eqb char "[" then mkComplete ("]"%char :: stack st) (inString st) false
  else if Ascii.eqb char "}" || Ascii.eqb char "]" then
    match stack st with
    | top :: rest => if Ascii.eqb top char then mkComplete rest (inString st) false else st
    | [] => st
    end
  else st.

Fixpoint complete_loop (st : CompleteState) (s : string) : CompleteState :=
  match s with
  | EmptyString => st
  | String c s => complete_loop (complete_step st c) s
  end.

Definition dropLast (s : string) : string := str_take (String.length s - 1) s.

Definition closers (l : list ascii) : string := String.string_of_list_ascii l.

(** The buffer after the loop and the closing of strings and brackets. *)
Definition completed (s : string) : string :=
  let st := complete_loop (mkComplete [] false false) s in
  let result := if inString st then ((if escaped st then dropLast s else s) +:+ String quote "")%string else s in
  (result +:+ closers (stack st))%string.

(** The binary search of [progressiveTruncation]; the interval loses at least
    one position per round, so its length is enough fuel. *)
Fixpoint truncation_search (fuel : nat) (completed : string) (left right : nat) : nat :=
  match fuel with
  | O => left
  | S fuel =>
      if (left <? right)%nat then
        let mid := ((left + right) / 2)%nat in
        if isValidJSON (str_take mid completed) then truncation_search fuel completed (mid + 1) right
        else truncation_search fuel completed left mid
      else left
  end.

Definition progressiveTruncation (original completed : string) : string :=
  let left := truncation_search (String.length completed) completed 0 (String.length completed) in
  if (0 <? left)%nat && isValidJSON (str_take (left - 1) completed) then str_take (left - 1) completed
  else original.

Definition completeJSON (s : string) : string :=
  let result := completed s in
  if isValidJSON result then result else progressiveTruncation s result.

Definition parsePartialJSON (s : string) : string :=
  let s := TrimSpace s in
  match s with
  | EmptyString => "{}"
  | String c _ =>
      if negb (Ascii.eqb c "{") && negb (Ascii.eqb c "[") then s
      else if isValidJSON s then s
      else completeJSON s
  end.

(** ** Responses *)

(** A payload the plugin does not look into, with its request type. *)
Record Opaque := mkOpaque { o_RequestType : RequestType; o_body : string }.

Record ChatStreamResponseChoiceDelta := mkDelta {
  d_Role : option string;
  d_Content : option string;
  d_Refusal : option string;
  d_Audio : option string;
  d_Reasoning : option string;
  d_ReasoningDetails : list string;
  d_Annotations : list string;
  d_ToolCalls : list string;
  d_ExtraContent : list string }.

Record ChatStreamResponseChoice := mkStreamChoice { sc_Delta : option ChatStreamResponseChoiceDelta }.

Record BifrostResponseChoice := mkChoice {
  ch_Index : Z;
  ch_FinishReason : option string;
  ch_LogProbs : option string;
  ch_Text : option string;
  ch_NonStream : option string;
  ch_Stream : option ChatStreamResponseChoice }.

Record BifrostChatResponse := mkChat {
  cr_ID : string;
  cr_Choices : list BifrostResponseChoice;
  cr_Created : Z;
  cr_Model : string;
  cr_Object : string;
  cr_ServiceTier : option string;
  cr_Speed : option string;
  cr_InferenceGeo : option string;
  cr_Diagnostics : option string;
  cr_SystemFingerprint : string;
  cr_Usage : option string;
  cr_ExtraFields : Opaque;
  cr_ExtraParams : list (string * string);
  cr_SearchResults : list string;
  cr_Videos : list string;
  cr_Citations : list string }.

(** [rs_ResponseID] is [Response.ID]: both levels are pointers. *)
Record BifrostResponsesStreamResponse := mkRStream {
  rs_Type : string;
  rs_ResponseID : option (option string);
  rs_Delta : option string;
  rs_rest : string;
  rs_ExtraFields : Opaque }.

(** [r_dropped] are the response types the copy leaves out. *)
Record BifrostResponse := mkResp {
  r_ListModels : option Opaque;
  r_Text : option Opaque;
  r_Chat : option BifrostChatResponse;
  r_Responses : option Opaque;
  r_RStream : option BifrostResponsesStreamResponse;
  r_Embedding : option Opaque;
  r_Speech : option Opaque;
  r_SpeechStream : option Opaque;
  r_Transcription : option Opaque;
  r_TranscriptionStream : option Opaque;
  r_dropped : list Opaque }.

(** [GetExtraFields().RequestType]: the first response type that is set. *)
Definition responseRequestType (r : BifrostResponse) : RequestType :=
  let first := head (omap id
    ([r_ListModels r; r_Text r; cr_ExtraFields <$> r_Chat r; r_Responses r; rs_ExtraFields <$> r_RStream r;
      r_Embedding r; r_Speech r; r_SpeechStream r; r_Transcription r; r_TranscriptionStream r] ++ (Some <$> r_dropped r))) in
  from_option o_RequestType "" first.

(** ** Copies *)

Definition deepCopyChatStreamResponseChoiceDelta (o : ChatStreamResponseChoiceDelta) : ChatStreamResponseChoiceDelta :=
  mkDelta (d_Role o) (d_Content o) (d_Refusal o) None (d_Reasoning o) [] [] (d_ToolCalls o) [].

Definition deepCopyChatStreamResponseChoice (o : ChatStreamResponseChoice) : ChatStreamResponseChoice :=
  mkStreamChoice (deepCopyChatStreamResponseChoiceDelta <$> sc_Delta o).

Definition deepCopyBifrostResponseChoice (o : BifrostResponseChoice) : BifrostResponseChoice :=
  mkChoice (ch_Index o) (ch_FinishReason o) (ch_LogProbs o) (ch_Text o) (ch_NonStream o)
    (deepCopyChatStreamResponseChoice <$> ch_Stream o).

Definition deepCopyBifrostChatResponse (o : BifrostChatResponse) : BifrostChatResponse :=
  mkChat (cr_ID o) (deepCopyBifrostResponseChoice <$> cr_Choices o) (cr_Created o) (cr_Model o) (cr_Object o)
    (cr_ServiceTier o) None None None (cr_SystemFingerprint o) (cr_Usage o) (cr_ExtraFields o) [] [] [] [].

Definition deepCopyResponsesStreamResponse (o : BifrostResponsesStreamResponse) : BifrostResponsesStreamResponse := o.

Definition deepCopyBifrostResponse (o : BifrostResponse) : BifrostResponse :=
  mkResp None (r_Text o) (deepCopyBifrostChatResponse <$> r_Chat o) (r_Responses o)
    (deepCopyResponsesStreamResponse <$> r_RStream o) (r_Embedding o) (r_Speech o) (r_SpeechStream o)
    (r_Transcription o) (r_TranscriptionStream o) [].

(** ** The plugin (main.go) *)

#[global] Instance Opaque_eq_dec : EqDecision Opaque.
Proof. solve_decision. Defined.
#[global] Instance Delta_eq_dec : EqDecision ChatStreamResponseChoiceDelta.
Proof. solve_decision. Defined.
#[global] Instance StreamChoice_eq_dec : EqDecision ChatStreamResponseChoice.
Proof. solve_decision. Defined.
#[global] Instance Choice_eq_dec : EqDecision BifrostResponseChoice.
Proof. solve_decision. Defined.
#[global] Instance Chat_eq_dec : EqDecision BifrostChatResponse.
Proof. solve_decision. Defined.
#[global] Instance RStream_eq_dec : EqDecision BifrostResponsesStreamResponse.
Proof. solve_decision. Defined.

Definition AllRequests : string := "all_requests".
Definition PerRequest : string := "per_request".
Definition EnableStreamingJSONParser : string := "enable-streaming-json-parser".
Definition OutputTextDelta : string := "response.output_text.delta".

Record AccumulatedContent := mkAcc { ac_Content : string; ac_Timestamp : Z }.

Record JsonParserPlugin := mkPlugin {
  usage : string;
  accumulatedContent : gmap string AccumulatedContent;
  cleanupInterval : Z;
  maxAge : Z;
  stopped : bool }.

Record PluginConfig := mkConfig { cfg_Usage : string; cfg_CleanupInterval : Z; cfg_MaxAge : Z }.

Definition Init (config : PluginConfig) : JsonParserPlugin :=
  mkPlugin (if bool_decide (cfg_Usage config = ""%string) then PerRequest else cfg_Usage config) ∅
    (if (cfg_CleanupInterval config <=? 0)%Z then 5 * Minute else cfg_CleanupInterval config)%Z
    (if (cfg_MaxAge config <=? 0)%Z then 30 * Minute else cfg_MaxAge config)%Z false.

Definition setContent (p : JsonParserPlugin) (m : gmap string AccumulatedContent) : JsonParserPlugin :=
  mkPlugin (usage p) m (cleanupInterval p) (maxAge p) (stopped p).

Definition getRequestID (ctx : BifrostContext) (result : BifrostResponse) : string :=
  let fromContext := match value ctx KeyRequestID with VString s => s | _ => ""%string end in
  let fromStream :=
    match rs_ResponseID <$> r_RStream result with
    | Some (Some (Some id)) => if bool_decide (id = ""%string) then fromContext else id
    | _ => fromContext
    end in
  match r_Chat result with
  | Some c => if bool_decide (cr_ID c = ""%string) then fromStream else cr_ID c
  | None => fromStream
  end.

Definition shouldRun (p : JsonParserPlugin) (ctx : BifrostContext) (requestType : RequestType) : bool :=
  if negb (bool_decide (requestType = ChatCompletionStreamRequest)) && negb (bool_decide (requestType = ResponsesStreamRequest)) then false
  else if bool_decide (usage p = AllRequests) then true
  else if bool_decide (usage p = PerRequest) then
    match value ctx EnableStreamingJSONParser with VBool b => b | _ => false end
  else false.

Definition accumulateContent (p : JsonParserPlugin) (requestID newContent : string) (now : Z) : string * JsonParserPlugin :=
  match accumulatedContent p !! requestID with
  | Some existing =>
      let text := (ac_Content existing +:+ newContent)%string in
      (text, setContent p (<[requestID := mkAcc text (ac_Timestamp existing)]> (accumulatedContent p)))
  | None => (newContent, setContent p (<[requestID := mkAcc newContent now]> (accumulatedContent p)))
  end.

Definition ClearRequestState (p : JsonParserPlugin) (requestID : string) : JsonParserPlugin :=
  setContent p (delete requestID (accumulatedContent p)).

Definition cleanupOldEntries (p : JsonParserPlugin) (now : Z) : JsonParserPlugin :=
  let cutoff := (now - maxAge p)%Z in
  setContent p (filter (fun kv => ~ (ac_Timestamp kv.2 < cutoff)%Z) (accumulatedContent p)).

Definition StopCleanup (p : JsonParserPlugin) : JsonParserPlugin :=
  mkPlugin (usage p) (accumulatedContent p) (cleanupInterval p) (maxAge p) true.

Definition Cleanup (p : JsonParserPlugin) : JsonParserPlugin := setContent (StopCleanup p) ∅.

(** The error of a chunk whose document cannot be completed: the chunk is
    skipped ([StreamControl.SkipStream]). *)
Inductive HookError := ErrGiven (message : string) | ErrInvalidJSON.

(** The loop over the choices of a chat chunk; [None] when a document cannot be
    completed, which ends the hook. *)
Fixpoint chat_choices (p : JsonParserPlugin) (requestID : string) (choices : list BifrostResponseChoice) (now : Z) :
    option (list BifrostResponseChoice) * JsonParserPlugin :=
  match choices with
  | [] => (Some [], p)
  | choice :: rest =>
      let keep :=
        let '(r, p) := chat_choices p requestID rest now in ((fun l => choice :: l) <$> r, p) in
      match ch_Stream choice with
      | Some (mkStreamChoice (Some d)) =>
          match d_Content d with
          | Some content =>
              if bool_decide (content = ""%string) then keep
              else
                let '(accumulated, p) := accumulateContent p requestID content now in
                let fixedContent := parsePartialJSON accumulated in
                if negb (isValidJSON fixedContent) then (None, p)
                else
                  let d' := mkDelta (d_Role d) (Some fixedContent) (d_Refusal d) (d_Audio d) (d_Reasoning d)
                              (d_ReasoningDetails d) (d_Annotations d) (d_ToolCalls d) (d_ExtraContent d) in
                  let choice' := mkChoice (ch_Index choice) (ch_FinishReason choice) (ch_LogProbs choice) (ch_Text choice)
                                   (ch_NonStream choice) (Some (mkStreamChoice (Some d'))) in
                  let '(r, p) := chat_choices p requestID rest now in ((fun l => choice' :: l) <$> r, p)
          | None => keep
          end
      | _ => keep
      end
  end.

Definition setChoices (c : BifrostChatResponse) (l : list BifrostResponseChoice) : BifrostChatResponse :=
  mkChat (cr_ID c) l (cr_Created c) (cr_Model c) (cr_Object c) (cr_ServiceTier c) (cr_Speed c) (cr_InferenceGeo c)
    (cr_Diagnostics c) (cr_SystemFingerprint c) (cr_Usage c) (cr_ExtraFields c) (cr_ExtraParams c) (cr_SearchResults c)
    (cr_Videos c) (cr_Citations c).

Definition setChat (r : BifrostResponse) (c : BifrostChatResponse) : BifrostResponse :=
  mkResp (r_ListModels r) (r_Text r) (Some c) (r_Responses r) (r_RStream r) (r_Embedding r) (r_Speech r) (r_SpeechStream r)
    (r_Transcription r) (r_TranscriptionStream r) (r_dropped r).

Definition setRStream (r : BifrostResponse) (c : BifrostResponsesStreamResponse) : BifrostResponse :=
  mkResp (r_ListModels r) (r_Text r) (r_Chat r) (r_Responses r) (Some c) (r_Embedding r) (r_Speech r) (r_SpeechStream r)
    (r_Transcription r) (r_TranscriptionStream r) (r_dropped r).

(** The end of the hook: the last chunk clears the state of the request. *)
Definition finishHook (p : JsonParserPlugin) (ctx : BifrostContext) (requestID : string) : JsonParserPlugin :=
  match value ctx KeyStreamEndIndicator with
  | VBool true => ClearRequestState p requestID
  | _ => p
  end.

Definition HookResult : Type := option BifrostResponse * option HookError * JsonParserPlugin.

(** The branch of [PostLLMHook] for chat chunks; [res] is the response as it
    came and [copy] its copy. *)
Definition hook_chat (p : JsonParserPlugin) (ctx : BifrostContext) (requestID : string) (res copy : BifrostResponse) (now : Z) : HookResult :=
  match r_Chat copy with
  | None => (Some res, None, p)
  | Some c =>
      let '(choices, p) := chat_choices p requestID (cr_Choices c) now in
      match choices with
      | None => (None, Some ErrInvalidJSON, p)
      | Some l => (Some (setChat copy (setChoices c l)), None, finishHook p ctx requestID)
      end
  end.

(** The branch for events of the responses API. *)
Definition hook_responses (p : JsonParserPlugin) (ctx : BifrostContext) (requestID : string) (res copy : BifrostResponse) (now : Z) : HookResult :=
  match r_RStream copy with
  | None => (Some res, None, p)
  | Some resp =>
      match rs_Delta resp with
      | Some delta =>
          if bool_decide (rs_Type resp = OutputTextDelta) && negb (bool_decide (delta = ""%string)) then
            let '(accumulated, p) := accumulateContent p requestID delta now in
            let fixedContent := parsePartialJSON accumulated in
            if negb (isValidJSON fixedContent) then (None, Some ErrInvalidJSON, p)
            else (Some (setRStream copy (mkRStream (rs_Type resp) (rs_ResponseID resp) (Some fixedContent) (rs_rest resp) (rs_ExtraFields resp))),
                  None, finishHook p ctx requestID)
          else (Some copy, None, finishHook p ctx requestID)
      | None => (Some copy, None, finishHook p ctx requestID)
      end
  end.

Definition PostLLMHook (p : JsonParserPlugin) (ctx : BifrostContext) (result : option BifrostResponse) (err : option HookError) (now : Z) : HookResult :=
  match err, result with
  | Some _, _ | None, None => (result, err, p)
  | None, Some res =>
      let requestType := responseRequestType res in
      if negb (shouldRun p ctx requestType) then (result, None, p)
      else if bool_decide (r_Chat res = None) && bool_decide (r_RStream res = None) then (result, None, p)
      else
        let requestID := getRequestID ctx res in
        if bool_decide (requestID = ""%string) then (result, None, p)
        else
          let copy := deepCopyBifrostResponse res in
          if bool_decide (requestType = ChatCompletionStreamRequest) then hook_chat p ctx requestID res copy now
          else if bool_decide (requestType = ResponsesStreamRequest) then hook_responses p ctx requestID res copy now
          else (Some copy, None, finishHook p ctx requestID)
  end.

End JsonParser.
