(* ===== verification/JsonParserTheory.v ===== *)
(** * Properties of the JSON parser plugin

    The completion against Go's scanner: the stack and the flags of
    [completeJSON] are the abstraction of the scanner's state, so a partial
    document the scanner has accepted so far is completed to a valid one exactly
    when it stops at a place where a value may end or an empty container may
    close; otherwise the text is returned as it is and the chunk is skipped. *)

From S2P Require Import Prelude GoStrings Schemas Context JsonScan JsonParser.
From Stdlib Require Import Ascii.

Local Open Scope list_scope.

Module JsonParserTheory.
Import Schemas Context JsonScan JsonParser.

(** ** The loop of [completeJSON] abstracts the scanner *)

Definition closer (p : ParseState) : ascii := match p with parseArrayValue => "]" | _ => "}" end.

Definition in_str (st : Step) : bool :=
  match st with
  | stateInString | stateInStringEsc | stateInStringEscU | stateInStringEscU1 | stateInStringEscU12 | stateInStringEscU123 => true
  | _ => false
  end.

Definition is_esc (st : Step) : bool := match st with stateInStringEsc => true | _ => false end.

Definition abs (s : scanner) : CompleteState := mkComplete (closer <$> parseState s) (in_str (step s)) (is_esc (step s)).

(** Bytes that neither open nor close anything. *)
Definition plain (c : ascii) : bool :=
  negb (Ascii.eqb c backslash || Ascii.eqb c quote || Ascii.eqb c "{" || Ascii.eqb c "[" || Ascii.eqb c "}" || Ascii.eqb c "]").

Lemma complete_plain l c : plain c = true -> complete_step (mkComplete l false false) c = mkComplete l false false.
Proof.
  unfold plain. rewrite negb_true_iff, !orb_false_iff. intros [[[[[E1 E2] E3] E4] E5] E6].
  unfold complete_step. cbn [escaped inString]. by rewrite E1, E2, E3, E4, E5, E6.
Qed.

Lemma complete_in_string l c : Ascii.eqb c backslash = false -> Ascii.eqb c quote = false ->
  complete_step (mkComplete l true false) c = mkComplete l true false.
Proof. intros E1 E2. unfold complete_step. cbn [escaped inString]. by rewrite E1, E2. Qed.

Lemma complete_escaped l c : complete_step (mkComplete l true true) c = mkComplete l true false.
Proof. done. Qed.

(** The classes of bytes the scanner accepts outside a bracket are plain. *)
Lemma space_plain c : isSpace c = true -> plain c = true.
Proof. by destruct c as [[] [] [] [] [] [] [] []]. Qed.

Lemma digit_plain c : isDigit c = true -> plain c = true.
Proof. by destruct c as [[] [] [] [] [] [] [] []]. Qed.

Lemma digit19_plain c : isDigit19 c = true -> plain c = true.
Proof. by destruct c as [[] [] [] [] [] [] [] []]. Qed.

Lemma hex_plain c : isHex c = true -> Ascii.eqb c backslash = false /\ Ascii.eqb c quote = false.
Proof. by destruct c as [[] [] [] [] [] [] [] []]. Qed.

Create HintDb json.
#[local] Hint Resolve space_plain digit_plain digit19_plain : json.

(** Substitutes the byte a test has found, and uses the class of the others. *)
Ltac byte_case :=
  repeat (match goal with
  | H : (if ?b then _ else _) = Some _ |- _ => destruct b eqn:?
  | H : Ascii.eqb ?c ?x = true |- _ => apply Ascii.eqb_eq in H; subst c
  | H : _ || _ = true |- _ => apply orb_true_iff in H as [H|H]
  | H : None = Some _ |- _ => discriminate H
  | H : Some _ = Some _ |- _ => injection H as H; subst
  end; cbn [andb orb negb] in * ).

Ltac finish_byte := first [done | rewrite complete_plain by (done || auto with json); done].

Lemma sim_EndValue s c s' : step_EndValue s c = Some s' -> complete_step (mkComplete (closer <$> parseState s) false false) c = abs s'.
Proof.
  destruct s as [st ps e]. unfold step_EndValue, step_EndTop. cbn [parseState]. intros H.
  destruct ps as [|p rest]; [byte_case; finish_byte|].
  destruct (isSpace c) eqn:Es; [byte_case; finish_byte|].
  destruct p; byte_case; try finish_byte; unfold popParseState, abs; cbn; by destruct rest.
Qed.

Lemma sim_BeginValue s c s' : in_str (step s) = false -> step_BeginValue s c = Some s' ->
  complete_step (mkComplete (closer <$> parseState s) false false) c = abs s'.
Proof.
  intros Hs H. assert (is_esc (step s) = false) as He by (by destruct (step s)).
  unfold step_BeginValue, pushParseState in H. byte_case; try finish_byte.
  rewrite complete_plain by auto with json. unfold abs. by rewrite Hs, He.
Qed.

Lemma sim_BeginString s c s' : in_str (step s) = false -> step_BeginString s c = Some s' ->
  complete_step (mkComplete (closer <$> parseState s) false false) c = abs s'.
Proof.
  intros Hs H. assert (is_esc (step s) = false) as He by (by destruct (step s)).
  unfold step_BeginString in H. byte_case; try finish_byte.
  rewrite complete_plain by auto with json. unfold abs. by rewrite Hs, He.
Qed.

(** ** The invariant of the scanner *)

(** Where the innermost open container stands in each state. *)
Definition top_ok (st : Step) (top : option ParseState) : Prop :=
  match st with
  | stateBeginValueOrEmpty => top = Some parseArrayValue
  | stateBeginStringOrEmpty | stateBeginString => top = Some parseObjectKey
  | stateEndTop => top = None
  | stateEndValue | stateInString | stateInStringEsc
  | stateInStringEscU | stateInStringEscU1 | stateInStringEscU12 | stateInStringEscU123 => True
  | _ => top <> Some parseObjectKey
  end.

Record wf (s : scanner) : Prop := mkWf {
  wf_top : top_ok (step s) (head (parseState s));
  wf_tail : Forall (fun p => p <> parseObjectKey) (tail (parseState s));
  wf_end : endTop s = bool_decide (step s = stateEndTop) }.

Ltac mk_wf := constructor; cbn [step endTop parseState setStep head tail]; try done; by rewrite bool_decide_eq_false_2.

Lemma wf_reset : wf reset.
Proof. by constructor. Qed.

Lemma wf_EndValue s c s' : endTop s = false -> Forall (fun p => p <> parseObjectKey) (tail (parseState s)) ->
  step_EndValue s c = Some s' -> wf s'.
Proof.
  destruct s as [st ps e]. intros He Hl H. unfold step_EndValue, step_EndTop in H. cbn [parseState step endTop] in *.
  subst e. destruct ps as [|p rest]; [byte_case; by constructor|]. cbn [tail] in Hl.
  destruct (isSpace c); [byte_case; by constructor|].
  destruct p; byte_case; try (by constructor); unfold popParseState; cbn [parseState tail];
    (destruct rest as [|q rest]; [by constructor|]; apply Forall_cons in Hl as [Hq Hl]; by constructor).
Qed.

(** A value starts where no key is awaited: the containers around it are not
    waiting for a key either. *)
Lemma wf_BeginValue s c s' : (step s <> stateEndTop) -> wf s -> head (parseState s) <> Some parseObjectKey ->
  step_BeginValue s c = Some s' -> wf s'.
Proof.
  destruct s as [st ps e]. intros Hst [Ht Hl He] Hh H. cbn [parseState step endTop] in *.
  rewrite bool_decide_eq_false_2 in He by done. subst e.
  unfold step_BeginValue, pushParseState in H. cbn [parseState] in H.
  assert (Forall (fun p => p <> parseObjectKey) ps) as Hps.
  { destruct ps as [|p ps]; [done|]. constructor; [|done]. intros ->. by apply Hh. }
  byte_case; (by constructor) || mk_wf.
Qed.

Lemma wf_BeginString s c s' : (step s <> stateEndTop) -> wf s -> step_BeginString s c = Some s' -> wf s'.
Proof.
  destruct s as [st ps e]. intros Hst [Ht Hl He] H. cbn [parseState step endTop] in *.
  rewrite bool_decide_eq_false_2 in He by done. subst e.
  unfold step_BeginString in H. byte_case; (by constructor) || mk_wf.
Qed.

Lemma wf_step s c s' : wf s -> scan_step s c = Some s' -> wf s'.
Proof.
  destruct s as [st ps e]. intros Hw H. destruct (decide (st = stateEndTop)) as [->|Hst].
  { unfold scan_step, step_EndTop in H. cbn [step] in H. byte_case. done. }
  pose proof (wf_end _ Hw) as He. cbn [endTop step] in He. rewrite bool_decide_eq_false_2 in He by done. subst e.
  pose proof (wf_top _ Hw) as Ht. pose proof (wf_tail _ Hw) as Hl. cbn [parseState step] in Ht, Hl.
  unfold scan_step in H. cbn [step] in H. destruct st; try done; cbn [top_ok] in Ht;
    unfold step_state0, step_ESign, expect, expectHex, step_EndTop in H; byte_case;
    try (by constructor);
    try (by eapply wf_EndValue in H); try (by eapply wf_BeginString in H);
    try (eapply wf_BeginValue in H; [done|done|done|cbn [parseState]; congruence]).
  destruct ps as [|p ps]; [done|]. by eapply wf_EndValue in H.
Qed.

(** One byte: the loop of [completeJSON] follows the scanner. *)
Lemma sim_step s c s' : wf s -> scan_step s c = Some s' -> complete_step (abs s) c = abs s'.
Proof.
  destruct s as [st ps e]. intros Hw. pose proof (wf_top _ Hw) as Ht. unfold scan_step, abs. cbn [step parseState] in *.
  intros H; destruct st; cbn [in_str is_esc];
    try (by eapply sim_EndValue in H);
    try (by apply sim_BeginValue in H);
    try (by apply sim_BeginString in H);
    unfold step_state0, step_ESign, expect, expectHex, step_EndTop in H; byte_case;
    try finish_byte; try (by eapply sim_EndValue in H); try (by apply sim_BeginValue in H); try (by apply sim_BeginString in H).
  - destruct ps as [|p ps]; [done|]. injection Ht as ->. by eapply sim_EndValue in H.
  - by rewrite complete_in_string.
  - apply hex_plain in Heqb as [??]. by rewrite complete_in_string.
  - apply hex_plain in Heqb as [??]. by rewrite complete_in_string.
  - apply hex_plain in Heqb as [??]. by rewrite complete_in_string.
  - apply hex_plain in Heqb as [??]. by rewrite complete_in_string.
Qed.

(** The whole text: what [completeJSON] knows after it is the scanner's state. *)
Lemma sim_scan data s s' : wf s -> scan s data = Some s' -> complete_loop (abs s) data = abs s' /\ wf s'.
Proof.
  revert s. induction data as [|c data IH]; intros s Hw H; cbn in H.
  { injection H as <-. done. }
  destruct (scan_step s c) as [s1|] eqn:E; [|done]. cbn in H. cbn [complete_loop].
  rewrite (sim_step _ _ _ Hw E). apply IH; [by eapply wf_step|done].
Qed.

(** ** Where a partial document can be completed *)

Definition value_top (ps : list ParseState) : bool := match head ps with Some parseObjectKey => false | _ => true end.

(** A complete value, a number that may end here, a string that is a value, or
    a container just opened. *)
Definition completable (s : scanner) : bool :=
  match step s with
  | stateEndTop | stateBeginValueOrEmpty | stateBeginStringOrEmpty => true
  | state0 | state1 | stateDot0 | stateE0 => true
  | stateEndValue | stateInString | stateInStringEsc => value_top (parseState s)
  | _ => false
  end.

(** The scanner is inside the brackets the document starts with, or past them. *)
Definition opened (s : scanner) : Prop := parseState s <> [] \/ step s = stateEndTop.

Lemma opened_EndValue s c s' : parseState s <> [] -> step_EndValue s c = Some s' -> opened s'.
Proof.
  destruct s as [st ps e]. intros Hp H. unfold step_EndValue in H. cbn [parseState] in *.
  destruct ps as [|p rest]; [done|]. destruct (isSpace c); [byte_case; by left|].
  destruct p; byte_case; try (by left); unfold popParseState; cbn; destruct rest; (by right) || by left.
Qed.

Lemma opened_Begin s c s' : parseState s <> [] -> (step_BeginValue s c = Some s' \/ step_BeginString s c = Some s') -> opened s'.
Proof.
  intros Hp [H|H]; unfold step_BeginValue, step_BeginString, pushParseState in H; byte_case; by left.
Qed.

Lemma opened_step s c s' : opened s -> scan_step s c = Some s' -> opened s'.
Proof.
  intros [Hp|He] H.
  - destruct s as [st ps e]. unfold scan_step in H. cbn [step parseState] in *.
    destruct st; unfold step_state0, step_ESign, expect, expectHex, step_EndTop in H; byte_case; try (by left);
      try (by eapply opened_EndValue in H); try (by eapply opened_Begin; eauto).
    eapply opened_EndValue in H; [done|]. by destruct ps.
  - unfold scan_step, step_EndTop in H. rewrite He in H. byte_case. by right.
Qed.

(** Once past the document, the scanner accepts blanks only. *)
Lemma EndTop_stays s data s' : step s = stateEndTop -> scan s data = Some s' -> step s' = stateEndTop.
Proof.
  revert s. induction data as [|c data IH]; intros s Hs H; cbn in H; [by injection H as <-|].
  unfold scan_step, step_EndTop in H. rewrite Hs in H. destruct (isSpace c); [|done]. by eapply IH.
Qed.

Lemma opened_scan s data s' : opened s -> scan s data = Some s' -> opened s'.
Proof.
  revert s. induction data as [|c data IH]; intros s Ho H; cbn in H; [by injection H as <-|].
  destruct (scan_step s c) as [s1|] eqn:E; [|done]. eapply IH; [by eapply opened_step|done].
Qed.

(** Inside the document the end of input is an error. *)
Lemma eof_opened s : wf s -> parseState s <> [] -> eof s = false.
Proof.
  destruct s as [st ps e]. intros Hw Hp. cbn [parseState] in Hp.
  pose proof (wf_end _ Hw) as He. cbn [endTop step] in He. case_bool_decide as Hs; subst e.
  { subst st. pose proof (wf_top _ Hw) as Ht. cbn in Ht. by destruct ps. }
  unfold eof. cbn [endTop]. destruct ps as [|p ps]; [done|]. by destruct st; try done; destruct p.
Qed.

Lemma EndTop_eof s : wf s -> step s = stateEndTop -> eof s = true.
Proof. intros Hw He. unfold eof. by rewrite (wf_end _ Hw), bool_decide_eq_true_2. Qed.

(** ** Closing what is open *)

Lemma scan_cons s c data : scan s (String c data) = (s' ← scan_step s c; scan s' data).
Proof. done. Qed.

Lemma close_all ps : ps <> [] -> Forall (fun p => p <> parseObjectKey) ps ->
  scan (mkScanner stateEndValue ps false) (closers (closer <$> ps)) = Some (mkScanner stateEndTop [] true).
Proof.
  induction ps as [|p ps IH]; intros Hne Hf; [done|]. apply Forall_cons in Hf as [Hp Hf].
  change (closers (closer <$> p :: ps)) with (String (closer p) (closers (closer <$> ps))). rewrite scan_cons.
  destruct ps as [|q ps]; [by destruct p|].
  assert (scan_step (mkScanner stateEndValue (p :: q :: ps) false) (closer p) = Some (mkScanner stateEndValue (q :: ps) false)) as ->
    by (by destruct p).
  by apply IH.
Qed.

(** ** The text that is added *)

Lemma str_snoc s : s <> ""%string -> exists a c, s = (a +:+ String c "")%string.
Proof.
  induction s as [|c s IH]; [done|]. intros _. destruct (decide (s = ""%string)) as [->|N]; [by exists ""%string, c|].
  destruct (IH N) as (a & d & ->). by exists (String c a), d.
Qed.

Lemma dropLast_snoc a c : dropLast (a +:+ String c "")%string = a.
Proof. unfold dropLast. rewrite str_length_app. cbn [String.length]. rewrite Nat.add_sub. apply str_take_app. Qed.

Lemma EndValue_not_esc s c s' : step_EndValue s c = Some s' -> step s' <> stateInStringEsc.
Proof.
  intros H. unfold step_EndValue, step_EndTop in H. destruct (parseState s) as [|[] [|]] eqn:E; byte_case; try done;
    unfold popParseState; by rewrite E.
Qed.

(** The escape state is entered by a backslash inside a string. *)
Lemma esc_split data s : scan reset data = Some s -> step s = stateInStringEsc ->
  exists d0, data = (d0 +:+ String backslash "")%string /\ scan reset d0 = Some (setStep s stateInString).
Proof.
  intros H Hs. destruct (decide (data = ""%string)) as [->|N]; [by injection H as <-|].
  destruct (str_snoc _ N) as (d0 & c & ->). rewrite scan_app in H. destruct (scan reset d0) as [s1|] eqn:E; [|done].
  cbn in H. destruct (scan_step s1 c) as [s2|] eqn:E2; [|done]. injection H as <-.
  exists d0. destruct s1 as [st ps e]. unfold scan_step in E2. cbn [step] in E2. destruct st;
    unfold step_BeginValue, step_BeginString, step_EndTop, step_state0, step_ESign, expect, expectHex, pushParseState in E2;
    cbn [parseState] in E2; byte_case; try done; by apply EndValue_not_esc in E2.
Qed.

Definition close_text (s : scanner) : string :=
  ((if in_str (step s) then String quote "" else "") +:+ closers (closer <$> parseState s))%string.

(** [completed] cuts a dangling backslash and closes the string and the
    brackets of the state it is left with. *)
Lemma completed_split data s : scan reset data = Some s ->
  exists t u, completed data = (t +:+ close_text u)%string /\ scan reset t = Some u /\
    (exists r, data = (t +:+ r)%string) /\ parseState u = parseState s /\ completable u = completable s /\
    step u <> stateInStringEsc /\ (step u = stateEndTop <-> step s = stateEndTop).
Proof.
  intros H. destruct (sim_scan data reset s wf_reset H) as [Hl _]. unfold completed.
  change (mkComplete [] false false) with (abs reset). rewrite Hl. unfold abs. cbn [inString escaped stack].
  destruct (decide (step s = stateInStringEsc)) as [He|Ne].
  - destruct (esc_split _ _ H He) as (d0 & -> & H0). exists d0, (setStep s stateInString).
    rewrite He. cbn [in_str is_esc]. rewrite dropLast_snoc. unfold close_text, completable. cbn [setStep step parseState in_str].
    rewrite He. split; [by rewrite str_app_assoc|]. split; [done|]. split; [by eexists|]. done.
  - exists data, s. split; [|split; [done|split; [exists ""%string; by rewrite str_app_nil_r|done]]].
    unfold close_text. assert (is_esc (step s) = false) as -> by (by destruct (step s)).
    destruct (in_str (step s)); [by rewrite str_app_assoc|done].
Qed.

(** ** A completable document is completed *)

Lemma close_ok u : wf u -> parseState u <> [] -> step u <> stateInStringEsc -> completable u = true ->
  scan u (close_text u) = Some (mkScanner stateEndTop [] true).
Proof.
  destruct u as [st ps e]. intros Hw Hp Hs Hc. pose proof (wf_top _ Hw) as Ht. pose proof (wf_tail _ Hw) as Hl.
  pose proof (wf_end _ Hw) as He. cbn [parseState step endTop] in *.
  destruct ps as [|p ps]; [done|]. cbn [head tail] in *. unfold close_text. cbn [step parseState].
  assert (st <> stateEndTop) as Hne by (by intros ->). rewrite bool_decide_eq_false_2 in He by done. subst e.
  change (closers (closer <$> p :: ps)) with (String (closer p) (closers (closer <$> ps))).
  assert (forall q, q <> parseObjectKey -> scan (mkScanner stateEndValue (q :: ps) false) (String (closer q) (closers (closer <$> ps))) = Some (mkScanner stateEndTop [] true)) as Hclose.
  { intros q Hq. apply (close_all (q :: ps)); [done|by constructor]. }
  destruct st; try done; cbn [in_str String.append]; unfold completable in Hc; cbn [step parseState value_top head] in Hc; cbn [top_ok] in Ht.
  1: { injection Ht as ->. rewrite <- (Hclose parseArrayValue ltac:(done)). by rewrite !scan_cons. }
  1: { injection Ht as ->. rewrite <- (Hclose parseObjectValue ltac:(done)). by rewrite !scan_cons. }
  all: transitivity (scan (mkScanner stateEndValue (p :: ps) false) (String (closer p) (closers (closer <$> ps))));
    [rewrite !scan_cons; by destruct p|apply Hclose; intros ->; by destruct Ht || discriminate Hc].
Qed.

(** ** Any other is left alone *)

(** No prefix of [t], read from state [u], is a whole document. *)
Definition dead (u : scanner) (t : string) : Prop :=
  forall q r, t = (q +:+ r)%string -> match scan u q with Some v => eof v = false | None => True end.

Lemma dead_nil u : eof u = false -> dead u "".
Proof. intros H q r E. symmetry in E. apply str_app_eq_nil in E as [-> _]. done. Qed.

Lemma dead_cons u c t : eof u = false -> (forall v, scan_step u c = Some v -> dead v t) -> dead u (String c t).
Proof.
  intros H Hs q r E. destruct q as [|d q]; [done|]. injection E as <- E. cbn [scan].
  destruct (scan_step u c) as [v|]; [|done]. by apply (Hs v eq_refl q r).
Qed.

Lemma app_split (a b q r : string) : (a +:+ b)%string = (q +:+ r)%string ->
  (exists x, a = (q +:+ x)%string) \/ (exists y, q = (a +:+ y)%string /\ b = (y +:+ r)%string).
Proof.
  revert q. induction a as [|c a IH]; intros q E; [right; by exists q|].
  destruct q as [|d q]; [left; by eexists|]. injection E as <- E. destruct (IH q E) as [[x ->]|(y & -> & ->)]; [left|right]; by eexists.
Qed.

Lemma dead_app u a v b : dead u a -> scan u a = Some v -> dead v b -> dead u (a +:+ b)%string.
Proof.
  intros Ha Hs Hb q r [[x ->]|(y & -> & E)]%app_split; [by eapply Ha|]. rewrite scan_app, Hs. by apply (Hb y r).
Qed.

(** Closing a state that is not completable is an error. *)
Lemma close_bad u : wf u -> parseState u <> [] -> step u <> stateInStringEsc -> completable u = false -> dead u (close_text u).
Proof.
  destruct u as [st ps e]. intros Hw Hp Hs Hc. pose proof (eof_opened _ Hw Hp) as Heof.
  pose proof (wf_top _ Hw) as Ht. pose proof (wf_tail _ Hw) as Hl. cbn [parseState step] in *.
  destruct ps as [|p ps]; [done|]. unfold close_text. cbn [step parseState].
  change (closers (closer <$> p :: ps)) with (String (closer p) (closers (closer <$> ps))).
  unfold completable in Hc. cbn [step parseState value_top head] in Hc.
  destruct st; try done; cbn [in_str String.append]; apply dead_cons; try done; intros v Hv; try (by destruct p).
  destruct p; try done. injection Hv as <-. apply dead_cons; [|done].
  pose proof (wf_end _ Hw) as He. cbn in He. subst e. apply eof_opened; [by constructor|done].
Qed.

(** What a document that starts with a bracket looks like to the scanner. *)
Definition starts_open (s : string) : bool :=
  match s with String c _ => Ascii.eqb c "{" || Ascii.eqb c "[" | EmptyString => false end.

Lemma starts_open_scan q s : starts_open q = true -> scan reset q = Some s -> opened s.
Proof.
  destruct q as [|c q]; [done|]. cbn [starts_open]. intros [->%Ascii.eqb_eq| ->%Ascii.eqb_eq]%orb_true_iff;
    rewrite scan_cons; cbn [mbind option_bind]; apply opened_scan; by left.
Qed.

Lemma starts_open_prefix q r : starts_open (q +:+ r)%string = true -> q <> ""%string -> starts_open q = true.
Proof. by destruct q. Qed.

Lemma unfinished_dead data s : starts_open data = true -> scan reset data = Some s -> step s <> stateEndTop -> dead reset data.
Proof.
  intros Ho H Hs q r ->. destruct (scan reset q) as [v|] eqn:E; [|done].
  destruct (decide (q = ""%string)) as [->|N]; [by injection E as <-|].
  pose proof (starts_open_scan q v (starts_open_prefix _ _ Ho N) E) as Hv.
  destruct (sim_scan q reset v wf_reset E) as [_ Hw]. destruct Hv as [Hp|He]; [by apply eof_opened|].
  rewrite scan_app, E in H. by apply EndTop_stays in H.
Qed.

Lemma not_completable_dead data s : starts_open data = true -> scan reset data = Some s -> completable s = false ->
  dead reset (completed data).
Proof.
  intros Ho H Hc. assert (step s <> stateEndTop) as Hs by (intros E; unfold completable in Hc; by rewrite E in Hc).
  destruct (completed_split _ _ H) as (t & u & -> & Hu & [r ->] & Hps & Hcu & Hne & _).
  destruct (sim_scan t reset u wf_reset Hu) as [_ Hw].
  eapply dead_app; [|done|].
  - intros q r' ->. rewrite str_app_assoc in Ho, H. by eapply (unfinished_dead _ _ Ho H Hs q).
  - apply close_bad; [done| |done|by rewrite Hcu]. rewrite Hps.
    by destruct (starts_open_scan _ _ Ho H) as [|].
Qed.

(** ** Trimming *)

Lemma starts_open_trim_left s : starts_open s = true -> trim_left s = s.
Proof.
  destruct s as [|c s]; [done|]. cbn [starts_open]. rewrite trim_left_step.
  by intros [->%Ascii.eqb_eq| ->%Ascii.eqb_eq]%orb_true_iff; destruct s as [|d [|e s]].
Qed.

Lemma dead_prefix_invalid t q r : dead reset t -> starts_open t = true -> t = (q +:+ r)%string -> isValidJSON q = false.
Proof.
  intros Hd Ho ->. unfold isValidJSON. destruct (decide (q = ""%string)) as [->|N]; [done|].
  unfold TrimSpace. rewrite starts_open_trim_left by (by eapply starts_open_prefix).
  case_bool_decide; [done|]. destruct (trim_right_split q) as (r' & Hr & _). unfold Valid.
  specialize (Hd (trim_right q) (r' +:+ r)%string). destruct (scan reset (trim_right q)); [|done].
  apply Hd. rewrite <- str_app_assoc. by rewrite <- Hr.
Qed.

(** ** The completion, exactly *)

Lemma closers_snoc l : l <> [] -> exists a c, closers l = (a +:+ String c "")%string /\ c ∈ l.
Proof.
  induction l as [|x l IH]; [done|]. intros _. destruct l as [|y l]; [exists ""%string, x; split; [done|left]|].
  destruct (IH ltac:(done)) as (a & c & E & Hc). exists (String x a), c. split; [|by right].
  change (closers (x :: y :: l)) with (String x (closers (y :: l))). by rewrite E.
Qed.

Lemma close_text_trim t u : parseState u <> [] -> starts_open t = true ->
  TrimSpace (t +:+ close_text u)%string = (t +:+ close_text u)%string.
Proof.
  intros Hp Ho. unfold TrimSpace. rewrite starts_open_trim_left by (by destruct t).
  destruct (closers_snoc (closer <$> parseState u)) as (a & c & E & Hc); [by destruct (parseState u)|].
  unfold close_text. rewrite E, <- !str_app_assoc. apply list_elem_of_fmap in Hc as (p & -> & _).
  apply trim_right_snoc; destruct p; first [done | vm_compute; lia].
Qed.

Lemma completed_EndTop data s : scan reset data = Some s -> step s = stateEndTop -> completed data = data.
Proof.
  intros H Hs. destruct (sim_scan data reset s wf_reset H) as [Hl Hw]. unfold completed.
  change (mkComplete [] false false) with (abs reset). rewrite Hl. unfold abs. rewrite Hs. cbn [inString escaped stack in_str].
  pose proof (wf_top _ Hw) as Ht. rewrite Hs in Ht. cbn in Ht. destruct (parseState s); [|done]. apply str_app_nil_r.
Qed.

Lemma trimmed_valid s : TrimSpace s = s -> isValidJSON s = negb (bool_decide (s = ""%string)) && Valid s.
Proof. intros E. unfold isValidJSON. rewrite E. by case_bool_decide. Qed.

Lemma scanned_valid data s : starts_open data = true -> scan reset data = Some s -> Valid data = bool_decide (step s = stateEndTop).
Proof.
  intros Ho H. unfold Valid. rewrite H. destruct (sim_scan data reset s wf_reset H) as [_ Hw].
  destruct (starts_open_scan _ _ Ho H) as [Hp|He]; [|rewrite bool_decide_eq_true_2 by done; by apply EndTop_eof].
  rewrite eof_opened, bool_decide_eq_false_2; [done| |done..]. intros He. apply Hp.
  pose proof (wf_top _ Hw) as Ht. rewrite He in Ht. cbn in Ht. by destruct (parseState s).
Qed.

Lemma search_all_invalid fuel c right : (forall m, isValidJSON (str_take m c) = false) -> truncation_search fuel c 0 right = 0.
Proof. intros H. revert right. induction fuel as [|fuel IH]; intros right; [done|]. cbn. case_match; [|done]. by rewrite H, IH. Qed.

Lemma progressiveTruncation_dead o c : dead reset c -> starts_open c = true -> progressiveTruncation o c = o.
Proof.
  intros Hd Ho. unfold progressiveTruncation. rewrite search_all_invalid; [done|]. intros m.
  apply (dead_prefix_invalid c _ (str_drop m c) Hd Ho). by rewrite str_take_drop.
Qed.

(** A document that starts with a bracket and that the scanner has accepted so far. *)
Lemma open_completion s sc : TrimSpace s = s -> starts_open s = true -> scan reset s = Some sc ->
  parsePartialJSON s = (if completable sc then completed s else s) /\
  isValidJSON (parsePartialJSON s) = completable sc.
Proof.
  intros Ht Ho H.
  assert (isValidJSON s = bool_decide (step sc = stateEndTop)) as Hv.
  { rewrite trimmed_valid, (scanned_valid s sc) by done. rewrite (bool_decide_eq_false_2 (s = ""%string)) by (by destruct s). done. }
  assert (parsePartialJSON s = if bool_decide (step sc = stateEndTop) then s else completeJSON s) as ->.
  { unfold parsePartialJSON. rewrite Ht. destruct s as [|c s]; [done|]. cbn [starts_open] in Ho.
    rewrite <- negb_orb, Ho. cbn [negb]. by rewrite Hv. }
  case_bool_decide as He.
  { unfold completable. by rewrite He, Hv, (completed_EndTop s sc). }
  assert (parseState sc <> []) as Hp by (by destruct (starts_open_scan _ _ Ho H)).
  destruct (completable sc) eqn:Hc; unfold completeJSON.
  - destruct (completed_split _ _ H) as (t & u & Et & Hu & [r Hr] & Hps & Hcu & Hne & _).
    destruct (sim_scan t reset u wf_reset Hu) as [_ Hw].
    assert (starts_open t = true) as Hot.
    { rewrite Hr in Ho. eapply starts_open_prefix; [done|]. intros ->. injection Hu as <-. by rewrite <- Hps in Hp. }
    enough (isValidJSON (completed s) = true) as Hvc by (by rewrite Hvc).
    rewrite Et, trimmed_valid by (apply close_text_trim; [by rewrite Hps|done]).
    rewrite bool_decide_eq_false_2 by (by destruct t). cbn [negb andb]. unfold Valid. rewrite scan_app, Hu. cbn [mbind option_bind].
    rewrite close_ok; [done|done|by rewrite Hps|done|congruence].
  - pose proof (not_completable_dead _ _ Ho H Hc) as Hd.
    assert (starts_open (completed s) = true) as Hoc.
    { destruct (completed_split _ _ H) as (t & u & -> & Hu & [r Hr] & Hps & _). rewrite Hr in Ho.
      assert (starts_open t = true) as Hot; [|by destruct t].
      eapply starts_open_prefix; [done|]. intros ->. injection Hu as <-. by rewrite <- Hps in Hp. }
    rewrite (dead_prefix_invalid _ (completed s) "" Hd Hoc) by (by rewrite str_app_nil_r).
    rewrite progressiveTruncation_dead by done. split; [done|]. by rewrite Hv.
Qed.

(** ** Any input *)

(** The search stops by itself: more fuel changes nothing. *)
Lemma search_fuel fuel c left right : right - left <= fuel ->
  truncation_search (S fuel) c left right = truncation_search fuel c left right.
Proof.
  revert left right. induction fuel as [|fuel IH]; intros left right Hf.
  - cbn [truncation_search]. by rewrite (proj2 (Nat.ltb_ge left right)) by lia.
  - change (truncation_search (S (S fuel)) c left right) with
      (if (left <? right)%nat then
        let mid := ((left + right) / 2)%nat in
        if isValidJSON (str_take mid c) then truncation_search (S fuel) c (mid + 1) right
        else truncation_search (S fuel) c left mid
      else left).
    change (truncation_search (S fuel) c left right) with
      (if (left <? right)%nat then
        let mid := ((left + right) / 2)%nat in
        if isValidJSON (str_take mid c) then truncation_search fuel c (mid + 1) right
        else truncation_search fuel c left mid
      else left).
    destruct (Nat.ltb_spec left right) as [Hlt|]; [|done].
    pose proof (Nat.Div0.div_lt_upper_bound (left + right) 2 right ltac:(lia)) as H1.
    pose proof (Nat.div_le_lower_bound (left + right) 2 left ltac:(lia) ltac:(lia)) as H2.
    cbv zeta. case_match; apply IH; lia.
Qed.

(** Whatever the text, the answer is valid JSON or the trimmed text itself. *)
Lemma parsePartialJSON_sound s :
  isValidJSON (parsePartialJSON s) = true \/ parsePartialJSON s = TrimSpace s.
Proof.
  unfold parsePartialJSON. destruct (TrimSpace s) as [|c t]; [left; by vm_compute|].
  destruct (_ && _); [by right|]. destruct (isValidJSON (String c t)) eqn:E; [by left|].
  unfold completeJSON. destruct (isValidJSON (completed (String c t))) eqn:E2; [by left|].
  unfold progressiveTruncation. destruct (_ && isValidJSON _) eqn:E3; [|by right].
  apply andb_true_iff in E3 as [_ E3]. by left.
Qed.

(** C28. What the plugin makes of any text, with the blanks of Unicode around it
    taken off: nothing becomes an empty object; a text that starts with neither
    bracket is left as it is; one that starts with a bracket and that the JSON
    scanner has accepted so far is completed, by closing what is open, exactly when
    the state of the scanner is completable, and then is valid; otherwise it is
    left as it is, and is not valid; what the scanner has rejected becomes valid
    or is left as it is. *)
Theorem completion_exact text :
  let s := TrimSpace text in
  let answer := parsePartialJSON text in
  if bool_decide (s = ""%string) then answer = "{}"%string
  else if negb (starts_open s) then answer = s
  else match scan reset s with
       | Some sc => answer = (if completable sc then completed s else s) /\ isValidJSON answer = completable sc
       | None => isValidJSON answer = true \/ answer = s
       end.
Proof.
  intros s answer. assert (Ht : starts_open s = true -> TrimSpace s = s).
  { intros Ho. unfold TrimSpace at 1. rewrite starts_open_trim_left by done. apply trim_right_twice. }
  case_bool_decide as He; [unfold answer, parsePartialJSON; by fold s; rewrite He|].
  destruct (starts_open s) eqn:Ho; cbn [negb].
  - specialize (Ht eq_refl). destruct (scan reset s) as [sc|] eqn:H; [|apply parsePartialJSON_sound].
    assert (answer = parsePartialJSON s) as -> by (unfold answer, parsePartialJSON; fold s; by rewrite Ht).
    by apply open_completion.
  - unfold answer, parsePartialJSON. fold s. destruct s as [|c t]; [done|]. cbn [starts_open] in Ho. by rewrite <-negb_orb, Ho.
Qed.

(** ** The hook *)

Definition choice_text (c : BifrostResponseChoice) : option string :=
  s ← ch_Stream c; d ← sc_Delta s; d_Content d.

Definition text_ok (s : string) : Prop := s = ""%string \/ isValidJSON s = true.

Lemma chat_choices_valid p id l now out p' : chat_choices p id l now = (Some out, p') -> Forall text_ok (omap choice_text out).
Proof.
  revert p out p'. induction l as [|c l IH]; intros p out p' H; cbn [chat_choices] in H.
  { injection H as <- _. constructor. }
  assert (forall q c', (choice_text c' = None \/ (exists x, choice_text c' = Some x /\ text_ok x)) ->
    (let '(r, q) := chat_choices q id l now in ((fun l => c' :: l) <$> r, q)) = (Some out, p') -> Forall text_ok (omap choice_text out)) as Hk.
  { intros q c' Hc' H'. destruct (chat_choices q id l now) as [[r|] q'] eqn:E; [|done]. injection H' as <- _.
    cbn [omap list_omap]. apply IH in E. destruct Hc' as [->|(x & -> & Hx)]; [done|by constructor]. }
  destruct (ch_Stream c) as [[[d|]]|] eqn:Es; [|by apply (Hk p c); [left; unfold choice_text; by rewrite Es|]..].
  destruct (d_Content d) as [content|] eqn:Ec; [|by apply (Hk p c); [left; unfold choice_text; rewrite Es; cbn; by rewrite Ec|]].
  case_bool_decide as Hn.
  { apply (Hk p c); [|exact H]. right. exists content. unfold choice_text. rewrite Es. cbn. rewrite Ec. by split; [|left]. }
  destruct (accumulateContent p id content now) as [acc q].
  destruct (isValidJSON (parsePartialJSON acc)) eqn:Ev; cbn [negb] in H; [|done].
  refine (Hk q _ _ H). right. eexists. split; [reflexivity|by right].
Qed.

(** How a handled chunk leaves the hook. *)
Definition emitted (texts : BifrostResponse -> list string) (o : HookResult) : Prop :=
  match o with
  | (out, Some ErrInvalidJSON, _) => out = None
  | (Some r, None, _) => Forall text_ok (texts r)
  | _ => False
  end.

Definition chat_texts (r : BifrostResponse) : list string :=
  match r_Chat r with Some c => omap choice_text (cr_Choices c) | None => [] end.

Definition responses_texts (r : BifrostResponse) : list string :=
  match r_RStream r with
  | Some s => if bool_decide (rs_Type s = OutputTextDelta) then option_list (rs_Delta s) else []
  | None => []
  end.

Lemma hook_chat_emits p ctx id res now : emitted chat_texts (hook_chat p ctx id res (deepCopyBifrostResponse res) now).
Proof.
  unfold hook_chat. destruct (r_Chat (deepCopyBifrostResponse res)) as [c|] eqn:Ec.
  - destruct (chat_choices _ _ _ _) as [[l|] q] eqn:El; [|done]. cbn. by eapply chat_choices_valid.
  - unfold emitted, chat_texts. cbn in Ec. by destruct (r_Chat res).
Qed.

Lemma hook_responses_emits p ctx id res now : emitted responses_texts (hook_responses p ctx id res (deepCopyBifrostResponse res) now).
Proof.
  assert (r_RStream (deepCopyBifrostResponse res) = r_RStream res) as Ecopy by (cbn; by destruct (r_RStream res)).
  unfold hook_responses, emitted. rewrite Ecopy. destruct (r_RStream res) as [s|] eqn:Es.
  2: { unfold responses_texts. by rewrite Es. }
  destruct (rs_Delta s) as [delta|] eqn:Ed.
  2: { unfold responses_texts. rewrite Ecopy, Ed. by case_bool_decide. }
  destruct (bool_decide (rs_Type s = OutputTextDelta) && negb (bool_decide (delta = ""%string))) eqn:Eb.
  - destruct (accumulateContent p id delta now) as [acc q]. destruct (isValidJSON (parsePartialJSON acc)) eqn:Ev; cbn [negb]; [|done].
    unfold responses_texts. cbn [setRStream r_RStream rs_Type rs_Delta option_list]. case_bool_decide; [|done].
    apply Forall_singleton. by right.
  - unfold responses_texts. rewrite Ecopy, Ed. case_bool_decide; [|done]. apply Forall_singleton. left.
    cbn [andb] in Eb. by apply negb_false_iff, bool_decide_eq_true in Eb.
Qed.

(** The texts of a chunk that the plugin rewrites. *)
Definition streamed_texts (t : RequestType) : BifrostResponse -> list string :=
  if bool_decide (t = ChatCompletionStreamRequest) then chat_texts else responses_texts.

(** A chunk the plugin handles leaves with valid JSON in every text, or is
    skipped with an error. *)
Theorem hook_emits_valid p ctx res now :
  shouldRun p ctx (responseRequestType res) = true -> getRequestID ctx res <> ""%string ->
  emitted (streamed_texts (responseRequestType res)) (PostLLMHook p ctx (Some res) None now).
Proof.
  intros Hrun Hid. unfold PostLLMHook, streamed_texts. rewrite Hrun. cbn [negb]. rewrite (bool_decide_eq_false_2 _ Hid).
  destruct (bool_decide (r_Chat res = None) && bool_decide (r_RStream res = None)) eqn:En.
  { apply andb_true_iff in En as [E1%bool_decide_eq_true E2%bool_decide_eq_true].
    unfold emitted, chat_texts, responses_texts. case_bool_decide; by rewrite ?E1, ?E2. }
  clear En. case_bool_decide as Et; [apply hook_chat_emits|]. case_bool_decide as Er; [apply hook_responses_emits|].
  unfold shouldRun in Hrun. by rewrite !bool_decide_eq_false_2 in Hrun.
Qed.

(** ** Accumulation *)

(** The chunks of one request, in order. *)
Fixpoint accumulate_all (p : JsonParserPlugin) (id : string) (chunks : list string) (now : Z) : list string * JsonParserPlugin :=
  match chunks with
  | [] => ([], p)
  | c :: chunks =>
      let '(text, p) := accumulateContent p id c now in
      let '(texts, p) := accumulate_all p id chunks now in (text :: texts, p)
  end.

(** What the n-th chunk is completed from is the concatenation of the chunks so
    far, after what was already there; other requests are not touched. *)
Lemma accumulate_all_spec id now chunks : forall p before,
  before = from_option ac_Content ""%string (accumulatedContent p !! id) ->
  let '(texts, p') := accumulate_all p id chunks now in
  (forall i, i < length chunks -> texts !! i = Some (before +:+ String.concat "" (take (S i) chunks))%string) /\
  (forall id', id' <> id -> accumulatedContent p' !! id' = accumulatedContent p !! id').
Proof.
  induction chunks as [|c chunks IH]; intros p before Hb; [by split; [intros i Hi; cbn in Hi; lia|]|].
  cbn [accumulate_all].
  assert (exists ts, accumulateContent p id c now =
    ((before +:+ c)%string, setContent p (<[id := mkAcc (before +:+ c) ts]> (accumulatedContent p)))) as [ts ->].
  { unfold accumulateContent. rewrite Hb. destruct (accumulatedContent p !! id) as [x|]; by eexists. }
  specialize (IH (setContent p (<[id := mkAcc (before +:+ c) ts]> (accumulatedContent p))) (before +:+ c)%string).
  cbn [setContent accumulatedContent] in IH. rewrite lookup_insert_eq in IH. specialize (IH eq_refl).
  destruct (accumulate_all _ id chunks now) as [texts p']. destruct IH as [IH1 IH2]. split.
  - intros [|i] Hi; [cbn; by rewrite str_app_nil_r|].
    cbn [lookup list_lookup]. cbn in Hi. rewrite IH1 by lia. f_equal. rewrite str_app_assoc. f_equal.
    destruct chunks as [|d chunks]; [cbn in Hi; lia|]. cbn. by destruct (take i chunks).
  - intros id' Hne. rewrite IH2 by done. by rewrite lookup_insert_ne.
Qed.

(** ** Concrete runs *)

(** Text with an apostrophe for each double quote. *)
Fixpoint dq (s : string) : string :=
  match s with
  | EmptyString => EmptyString
  | String c s => String (if Ascii.eqb c "'" then quote else c) (dq s)
  end.

Definition partial_doc : string := dq "{'a':[1,{'b':'xy".

Lemma completion_exact_witness :
  parsePartialJSON (" " +:+ partial_doc) = dq "{'a':[1,{'b':'xy'}]}" /\ isValidJSON (parsePartialJSON (" " +:+ partial_doc)) = true.
Proof.
  pose proof (completion_exact (" " +:+ partial_doc)) as H. cbv zeta in H.
  assert (TrimSpace (" " +:+ partial_doc) = partial_doc) as E by (by vm_compute). rewrite E in H.
  assert (exists sc, scan reset partial_doc = Some sc /\ completable sc = true) as (sc & Hs & Hc)
    by (eexists; split; [vm_compute; reflexivity|reflexivity]).
  rewrite Hs, Hc in H. rewrite bool_decide_eq_false_2 in H by done.
  destruct H as [H1 H2]. split; [etransitivity; [exact H1|by vm_compute]|exact H2].
Defined.

Definition text_choice (i : Z) (text : string) : BifrostResponseChoice :=
  mkChoice i None None None None (Some (mkStreamChoice (Some (mkDelta None (Some text) None None None [] [] [] [])))).

Definition chat_chunk (id : string) (choices : list BifrostResponseChoice) (citations : list string) : BifrostResponse :=
  mkResp None None
    (Some (mkChat id choices 0 "m" "chat.completion.chunk" None None None None "" None
             (mkOpaque ChatCompletionStreamRequest "") [] [] [] citations)) None None None None None None None [].

Definition all_requests : JsonParserPlugin := Init (mkConfig AllRequests 0 0).
Definition no_context : BifrostContext := mkCtx ∅ ∅ false.

Lemma hook_emits_valid_witness :
  emitted (streamed_texts ChatCompletionStreamRequest)
    (PostLLMHook all_requests no_context (Some (chat_chunk "r1" [text_choice 0 partial_doc] [])) None 0).
Proof.
  apply (hook_emits_valid all_requests no_context (chat_chunk "r1" [text_choice 0 partial_doc] []) 0);
    [by vm_compute|by vm_compute; discriminate].
Defined.

(** The text of the choices of a chat chunk, and its citations. *)
Definition seen (o : HookResult) : option (list string * list string) :=
  match o with
  | (Some r, None, _) => c ← r_Chat r; Some (omap choice_text (cr_Choices c), cr_Citations c)
  | _ => None
  end.

(** The buffer belongs to the request, not to the choice: of two choices in one
    chunk the second leaves with the document of the first. *)
Theorem choices_share_buffer :
  let a := dq "{'x':1}" in let b := dq "{'y':2}" in
  isValidJSON a = true /\ isValidJSON b = true /\
  seen (PostLLMHook all_requests no_context (Some (chat_chunk "r1" [text_choice 0 a; text_choice 1 b] [])) None 0) = Some ([a; a], []).
Proof. by vm_compute. Qed.

(** The copy leaves out the citations (as the search results, the speed tier
    and the reasoning details), also of a chunk whose text needs no change. *)
Theorem copy_drops_citations citations p ctx id choices now r p' :
  PostLLMHook p ctx (Some (chat_chunk id choices citations)) None now = (Some r, None, p') ->
  shouldRun p ctx ChatCompletionStreamRequest = true -> getRequestID ctx (chat_chunk id choices citations) <> ""%string ->
  exists c, r_Chat r = Some c /\ cr_Citations c = [].
Proof.
  unfold PostLLMHook. change (responseRequestType (chat_chunk id choices citations)) with ChatCompletionStreamRequest.
  intros H Hrun Hid. rewrite Hrun, (bool_decide_eq_false_2 _ Hid) in H. cbn [negb] in H.
  rewrite (bool_decide_eq_false_2 (r_Chat _ = None)) in H by done. cbn [andb] in H.
  rewrite bool_decide_eq_true_2 in H by done. unfold hook_chat in H. cbn [chat_chunk deepCopyBifrostResponse r_Chat fmap option_fmap option_map] in H.
  destruct (chat_choices _ _ _ _) as [[l|] q]; [|done]. injection H as <- _. by eexists.
Qed.

Lemma copy_drops_citations_witness : exists r p' c,
  PostLLMHook all_requests no_context (Some (chat_chunk "r1" [] ["https://example.com"%string])) None 0 = (Some r, None, p') /\
  r_Chat r = Some c /\ cr_Citations c = [].
Proof.
  destruct (PostLLMHook all_requests no_context (Some (chat_chunk "r1" [] ["https://example.com"%string])) None 0) as [[r e] p'] eqn:E.
  destruct r as [r|]; [|discriminate E]. destruct e; [discriminate E|].
  destruct (copy_drops_citations ["https://example.com"%string] all_requests no_context "r1" [] 0 r p' E ltac:(by vm_compute) ltac:(vm_compute; discriminate)) as (c & H1 & H2).
  exists r, p', c. done.
Defined.

End JsonParserTheory.
