(* ===== verification/Pipeline.v ===== *)
(** * The plugin pipeline and one attempt (src/core/bifrost.go)

    The hooks around a provider call: pre-request hooks once per request, then
    for the primary and every fallback the pre-provider and pre-LLM hooks in
    registration order, the provider queue, and the post hooks in reverse.  A
    plugin is an argument: what its hooks return, the writes they make to the
    context, and their effect on the rest of the system [W].  So is the queue
    with its worker: what came back for the message, or why it was not sent.
    A hook that changes the request returns it changed; that a native plugin
    could also change the one it was given in place is left out, as are spans,
    plugin log buffers and channel reuse. *)

From S2P Require Import Prelude GoStrings Schemas Request Context KeySelection Retry.
Local Open Scope string_scope.
Local Open Scope list_scope.

Module Pipeline.
Import Schemas Request Context Retry.

(** ** Responses *)

(** [rs_Extra] is the extra fields of the response's one typed part; a response
    without one has none, and writes to them are lost. *)
Record BifrostResponse := mkResponse { rs_Extra : option BifrostErrorExtraFields; rs_Body : string }.

Definition mapExtra (f : BifrostErrorExtraFields -> BifrostErrorExtraFields) (r : BifrostResponse) : BifrostResponse :=
  mkResponse (f <$> rs_Extra r) (rs_Body r).

Definition populate (t : RequestType) (p : ModelProvider) (original resolved : string) (x : BifrostErrorExtraFields) :
    BifrostErrorExtraFields :=
  mkExtra (xf_RoutingInfo x) p original (if String.eqb resolved "" then original else resolved) t
    (xf_RetryAfterSeconds x) (xf_RawRequest x) (xf_RawResponse x).

Definition stripRaw (dropReq dropResp : bool) (x : BifrostErrorExtraFields) : BifrostErrorExtraFields :=
  mkExtra (xf_RoutingInfo x) (xf_Provider x) (xf_OriginalModelRequested x) (xf_ResolvedModelUsed x) (xf_RequestType x)
    (xf_RetryAfterSeconds x) (if dropReq then None else xf_RawRequest x) (if dropResp then None else xf_RawResponse x).

Definition mapErrExtra (f : BifrostErrorExtraFields -> BifrostErrorExtraFields) (e : BifrostError) : BifrostError :=
  mkError (be_Type e) (be_IsBifrostError e) (be_StatusCode e) (be_Error e) (be_AllowFallbacks e) (f (be_ExtraFields e)).

(** ** Errors of the queue (src/core/utils.go) *)

Definition RequestTimedOut : string := "request_timed_out".
Definition RequestDropped : string := "request_dropped".

Definition newBifrostError (err : string) : BifrostError :=
  mkError None false None (Some (mkErrorField None None err (Some err))) None emptyExtra.

(** [deadline] says that the context's error is [DeadlineExceeded]. *)
Definition newBifrostCtxDoneError (deadline : bool) (err stage : string) : BifrostError :=
  mkError None true (Some (if deadline then 504 else 499)%Z)
    (Some (mkErrorField (Some (if deadline then RequestTimedOut else RequestCancelled)) None
             ((if deadline then "request timed out " else "request cancelled ") +:+ (stage +:+ (": " +:+ err)))
             (Some err)))
    (Some false) emptyExtra.

Definition newBifrostQueueFullError : BifrostError :=
  mkError None true (Some 503%Z)
    (Some (mkErrorField (Some RequestDropped) None "request dropped: queue is full" None)) None emptyExtra.

(** ** Plugins *)

Record LLMPluginShortCircuit := mkShort {
  sc_Response : option BifrostResponse;
  sc_Error : option BifrostError;
  sc_Silent : bool }.

Section pipeline.
Context {B W : Type}.

Record LLMPlugin := mkPlugin {
  GetName : string;
  PreRequestHook : BifrostContext -> BifrostRequest B -> W -> option string * BifrostRequest B * list CtxOp * W;
  PreProviderHook : BifrostContext -> option (BifrostRequest B) -> W ->
    option (BifrostRequest B) * option LLMPluginShortCircuit * option string * list CtxOp * W;
  PreLLMHook : BifrostContext -> option (BifrostRequest B) -> W ->
    option (BifrostRequest B) * option LLMPluginShortCircuit * option string * list CtxOp * W;
  PostLLMHook : BifrostContext -> option BifrostResponse -> option BifrostError -> W ->
    option BifrostResponse * option BifrostError * option string * list CtxOp * W }.

Record PluginPipeline := mkPipeline {
  llmPlugins : list LLMPlugin;
  executedPreHooks : nat;
  executedPreProviderHooks : nat;
  preHookErrors : list string;
  postHookErrors : list string;
  chunkCount : nat }.

Definition getPluginPipeline (plugins : list LLMPlugin) : PluginPipeline := mkPipeline plugins 0 0 [] [] 0.

Definition skips (c : BifrostContext) : bool := boolValue c KeySkipPluginPipeline.

Definition consOpt (e : option string) (l : list string) : list string :=
  match e with Some e => l ++ [e] | None => l end.

(** ** Pre-request hooks *)

Fixpoint preRequestLoop (ps : list LLMPlugin) (c : BifrostContext) (req : BifrostRequest B) (errs : list string) (w : W) :
    BifrostContext * BifrostRequest B * list string * W :=
  match ps with
  | [] => (c, req, errs, w)
  | p :: ps =>
      let '(err, req, ops, w) := PreRequestHook p c req w in
      preRequestLoop ps (applyOps c ops) req (consOpt err errs) w
  end.

(** The pinned key of a matched routing rule is committed once the hooks are
    done and writes are unblocked. *)
Definition commitPin (c : BifrostContext) : BifrostContext :=
  match value c KeyRoutingPinnedAPIKeyID with
  | VString pin => if String.eqb (TrimSpace pin) "" then c else SetValue c KeyAPIKeyID (VString (TrimSpace pin))
  | _ => c
  end.

Definition RunPreRequestHooks (p : PluginPipeline) (c : BifrostContext) (req : BifrostRequest B) (w : W) :
    PluginPipeline * BifrostContext * BifrostRequest B * W :=
  if skips c then (p, c, req, w)
  else
    let '(c, req, errs, w) := preRequestLoop (llmPlugins p) (BlockRestrictedWrites c) req (preHookErrors p) w in
    (mkPipeline (llmPlugins p) (executedPreHooks p) (executedPreProviderHooks p) errs (postHookErrors p) (chunkCount p),
     commitPin (UnblockRestrictedWrites c), req, w).

(** ** Pre-provider and pre-LLM hooks *)

Definition PreHook : Type :=
  BifrostContext -> option (BifrostRequest B) -> W ->
  option (BifrostRequest B) * option LLMPluginShortCircuit * option string * list CtxOp * W.

(** [ran] hooks have run; the loop stops at the first short circuit. *)
Fixpoint preLoop (hook : LLMPlugin -> PreHook) (ps : list LLMPlugin) (ran executed : nat) (c : BifrostContext)
    (req : option (BifrostRequest B)) (errs : list string) (w : W) :
    BifrostContext * option (BifrostRequest B) * option LLMPluginShortCircuit * nat * list string * W :=
  match ps with
  | [] => (c, req, None, executed, errs, w)
  | p :: ps =>
      let '(req, sc, err, ops, w) := hook p c req w in
      let c := applyOps c ops in
      match sc with
      | Some sc => (c, req, Some sc, S ran, consOpt err errs, w)
      | None => preLoop hook ps (S ran) (S ran) c req (consOpt err errs) w
      end
  end.

Definition RunLLMPreHooks (p : PluginPipeline) (c : BifrostContext) (req : option (BifrostRequest B)) (w : W) :
    PluginPipeline * BifrostContext * option (BifrostRequest B) * option LLMPluginShortCircuit * nat * W :=
  if skips c then (p, c, req, None, 0, w)
  else
    let '(c, req, sc, n, errs, w) :=
      preLoop PreLLMHook (llmPlugins p) 0 (executedPreHooks p) (BlockRestrictedWrites c) req (preHookErrors p) w in
    (mkPipeline (llmPlugins p) n (executedPreProviderHooks p) errs (postHookErrors p) (chunkCount p),
     UnblockRestrictedWrites c, req, sc, n, w).

(** [policyFor] is the cooldown policy of a provider's configuration, or the
    default one, as a context value. *)
Definition stampPolicy (policyFor : ModelProvider -> Value) (c : BifrostContext) (req : option (BifrostRequest B)) :
    BifrostContext :=
  match req with
  | None => c
  | Some req =>
      let '(provider, _, _) := GetRequestFields req in
      if String.eqb provider "" then c else SetValue c KeyCooldownPolicy (policyFor provider)
  end.

Definition RunPreProviderHooks (policyFor : ModelProvider -> Value) (p : PluginPipeline) (c : BifrostContext)
    (req : option (BifrostRequest B)) (w : W) :
    PluginPipeline * BifrostContext * option (BifrostRequest B) * option LLMPluginShortCircuit * nat * W :=
  if skips c then (p, c, req, None, 0, w)
  else
    let '(c, req, sc, n, errs, w) :=
      preLoop PreProviderHook (llmPlugins p) 0 (executedPreProviderHooks p)
        (BlockRestrictedWrites (stampPolicy policyFor c req)) req (preHookErrors p) w in
    (mkPipeline (llmPlugins p) (executedPreHooks p) n errs (postHookErrors p) (chunkCount p),
     UnblockRestrictedWrites c, req, sc, n, w).

(** ** Post hooks *)

(** [for i := runFrom - 1; i >= 0; i--]: [n] is [i + 1]. *)
Fixpoint postLoop (ps : list LLMPlugin) (n : nat) (c : BifrostContext) (resp : option BifrostResponse)
    (err : option BifrostError) (errs : list string) (w : W) :
    BifrostContext * option BifrostResponse * option BifrostError * list string * W :=
  match n with
  | O => (c, resp, err, errs, w)
  | S i =>
      match ps !! i with
      | None => (c, resp, err, errs, w)
      | Some p =>
          let '(resp, err, perr, ops, w) := PostLLMHook p c resp err w in
          postLoop ps i (applyOps c ops) resp err (consOpt perr errs) w
      end
  end.

(** An empty error beside a response counts as a recovery. *)
Definition emptyError (e : BifrostError) : bool :=
  match be_StatusCode e, be_Error e with
  | None, Some f =>
      bool_decide (ef_Type f = None) && String.eqb (ef_Message f) "" && bool_decide (ef_Error f = None)
  | _, _ => false
  end.

Definition settle (resp : option BifrostResponse) (err : option BifrostError) :
    option BifrostResponse * option BifrostError :=
  match err with
  | Some e => match resp with
              | Some r => if emptyError e then (Some r, None) else (Some r, Some e)
              | None => (None, Some e)
              end
  | None => (resp, None)
  end.

Definition responseType (resp : option BifrostResponse) (err : option BifrostError) : RequestType :=
  match resp, err with
  | Some r, _ => match rs_Extra r with Some x => xf_RequestType x | None => "" end
  | None, Some e => xf_RequestType (be_ExtraFields e)
  | None, None => ""
  end.

Definition isStreaming (c : BifrostContext) (resp : option BifrostResponse) (err : option BifrostError) : bool :=
  match value c KeyStreamStartTime with
  | VNil => false
  | _ => negb (String.eqb (responseType resp err) "realtime")
  end.

Definition RunPostLLMHooks (p : PluginPipeline) (c : BifrostContext) (resp : option BifrostResponse)
    (err : option BifrostError) (runFrom : Z) (w : W) :
    PluginPipeline * BifrostContext * option BifrostResponse * option BifrostError * W :=
  if skips c then (p, c, resp, err, w)
  else
    let runFrom := if bool_decide (runFrom < 0)%Z then 0%Z else runFrom in
    let runFrom := if bool_decide (runFrom > Z.of_nat (length (llmPlugins p)))%Z
                   then Z.of_nat (length (llmPlugins p)) else runFrom in
    let streaming := isStreaming c resp err in
    let '(c, resp, err, errs, w) :=
      postLoop (llmPlugins p) (Z.to_nat runFrom) (BlockRestrictedWrites c) resp err (postHookErrors p) w in
    let '(resp, err) := settle resp err in
    (mkPipeline (llmPlugins p) (executedPreHooks p) (executedPreProviderHooks p) (preHookErrors p) errs
       (if streaming then S (chunkCount p) else chunkCount p),
     UnblockRestrictedWrites c, resp, err, w).

(** ** One attempt: [tryRequest] *)

(** What the queue does with a message: the first, non-blocking send may find
    it full; the second blocks. *)
Inductive Send := Sent | QueueDone | SendCtxDone (deadline : bool) (err : string) | WouldBlock.
Inductive Answer := GotResponse (r : option BifrostResponse) | GotError (e : BifrostError) | WaitCtxDone (deadline : bool) (err : string).

(** The plugins are read where the code loads [bifrost.llmPlugins]: another
    plugin can be added or removed while a request is in flight. *)
Record Gateway := mkGateway {
  plugins : W -> list LLMPlugin;
  queueError : ModelProvider -> W -> option string;
  addTools : option (BifrostContext -> BifrostRequest B -> BifrostRequest B);
  tracerSet : bool;
  keysFor : ModelProvider -> option (list Key);
  cooldownPolicyFor : ModelProvider -> Value;
  closing : W -> bool;
  rerouted : ModelProvider -> W -> bool;
  firstSend : BifrostRequest B -> W -> Send * W;
  dropExcessRequests : W -> bool;
  closingAgain : W -> bool;
  blockingSend : BifrostRequest B -> W -> Send * W;
  worker : BifrostContext -> BifrostRequest B -> W -> Answer * BifrostContext * W }.

Definition shuttingDown : BifrostError := newBifrostErrorFromMsg "provider is shutting down".

(** The way of a message into the queue: an error, or sent. *)
Definition enqueue (g : Gateway) (provider : ModelProvider) (msg : BifrostRequest B) (w : W) : option BifrostError * W :=
  if closing g w && negb (rerouted g provider w) then (Some shuttingDown, w)
  else
    match firstSend g msg w with
    | (Sent, w) => (None, w)
    | (QueueDone, w) => (Some shuttingDown, w)
    | (SendCtxDone d e, w) => (Some (newBifrostCtxDoneError d e "while waiting for queue space"), w)
    | (WouldBlock, w) =>
        if dropExcessRequests g w then (Some newBifrostQueueFullError, w)
        else if closingAgain g w then (Some shuttingDown, w)
        else
          match blockingSend g msg w with
          | (Sent, w) => (None, w)
          | (QueueDone, w) | (WouldBlock, w) => (Some shuttingDown, w)
          | (SendCtxDone d e, w) => (Some (newBifrostCtxDoneError d e "while waiting for queue space"), w)
          end
    end.

Definition stampProviderKeys (g : Gateway) (c : BifrostContext) (provider : ModelProvider) : BifrostContext :=
  if String.eqb provider "" then c
  else match keysFor g provider with
       | None | Some [] => c
       | Some keys => SetValue c KeyProviderKeys (VKeys provider keys)
       end.

Definition Outcome : Type := option BifrostResponse * option BifrostError * BifrostContext * W.

(** The post hooks of an outcome and the fields core writes around them: the
    error wins over a response. *)
Definition finishAttempt (p : PluginPipeline) (c : BifrostContext) (t : RequestType) (provider : ModelProvider) (model : string)
    (resp : option BifrostResponse) (err : option BifrostError) (n : Z) (w : W) : Outcome :=
  let '(_, c, resp, err, w) := RunPostLLMHooks p c resp err n w in
  match err with
  | Some e => (None, Some (mapErrExtra (populate t provider model model) e), c, w)
  | None => (mapExtra (populate t provider model model) <$> resp, None, c, w)
  end.

(** A short circuit with a response or an error; one with neither is none. *)
Definition shortCircuited (p : PluginPipeline) (c : BifrostContext) (t : RequestType) (provider : ModelProvider) (model : string)
    (sc : LLMPluginShortCircuit) (n : nat) (w : W) : option Outcome :=
  match sc_Response sc, sc_Error sc with
  | Some r, _ =>
      Some (finishAttempt p c t provider model (Some (mapExtra (populate t provider model model) r)) None (Z.of_nat n) w)
  | None, Some e =>
      Some (finishAttempt p c t provider model None (Some (mapErrExtra (populate t provider model model) e)) (Z.of_nat n) w)
  | None, None => None
  end.

Definition stripOutcome (c : BifrostContext) (o : Outcome) : Outcome :=
  let '(resp, err, c', w) := o in
  let f := stripRaw (boolValue c KeyDropRawRequestFromClient) (boolValue c KeyDropRawResponseFromClient) in
  (mapExtra f <$> resp, mapErrExtra f <$> err, c', w).

(** The worker's answer and its post hooks.  The raw fields the client is not
    to see are dropped, except on the error of a hook after a response.  [t] is the type of the request the
    pre-LLM hooks were given, [fields] the provider and model they left, and
    [fields0] those of the request they were given. *)
Definition awaitAnswer (g : Gateway) (p : PluginPipeline) (c : BifrostContext) (t : RequestType)
    (fields fields0 : ModelProvider * string) (msg : BifrostRequest B) (w : W) : Outcome :=
  let '(provider, model) := fields in
  let n := Z.of_nat (length (plugins g w)) in
  match worker g c msg w with
  | (GotResponse r, c, w) =>
      let o := finishAttempt p c t provider model r None n w in
      match o.1.1.2 with Some _ => o | None => stripOutcome (o.1.2) o end
  | (GotError e, c, w) =>
      let c := if isSyntheticNoEligibleKeysError (Some e) then SetValue c KeySilentLog (VBool true) else c in
      let o := finishAttempt p c t provider model None (Some e) n w in stripOutcome (o.1.2) o
  | (WaitCtxDone d err, c, w) =>
      (None, Some (mapErrExtra (populate t fields0.1 fields0.2 fields0.2)
                     (newBifrostCtxDoneError d err "waiting for provider response")), c, w)
  end.

(** From the pre-LLM hooks on; [provider] and [model] are those of the attempt. *)
Definition tryAfterProviderHooks (g : Gateway) (p : PluginPipeline) (c : BifrostContext) (provider : ModelProvider)
    (model : string) (req : BifrostRequest B) (w : W) : Outcome :=
  let t := br_RequestType req in
  let fail c e provider model w : Outcome := (None, Some (mapErrExtra (populate t provider model model) e), c, w) in
  let '(p, c, preReq, sc, n, w) := RunLLMPreHooks p c (Some req) w in
  match (sc ≫= fun sc => shortCircuited p c t provider model sc n w) with
  | Some o => o
  | None =>
      match preReq with
      | None => fail c (newBifrostErrorFromMsg "bifrost request after plugin hooks cannot be nil") provider model w
      | Some preReq =>
          let '(provider, model, _) := GetRequestFields preReq in
          match enqueue g provider preReq w with
          | (Some e, w) => fail c e provider model w
          | (None, w) =>
              let '(provider0, model0, _) := GetRequestFields req in
              awaitAnswer g p c t (provider, model) (provider0, model0) preReq w
          end
      end
  end.

Definition tryRequest (g : Gateway) (c : BifrostContext) (req : BifrostRequest B) (w : W) : Outcome :=
  let '(provider, model, _) := GetRequestFields req in
  let fail t c e w : Outcome := (None, Some (mapErrExtra (populate t provider model model) e), c, w) in
  match queueError g provider w with
  | Some err => fail (br_RequestType req) c (newBifrostError err) w
  | None =>
      let req := match addTools g with Some add => add c req | None => req end in
      let t := br_RequestType req in
      if negb (tracerSet g) then fail t c (newBifrostErrorFromMsg "tracer not found in context") w
      else
        let c := stampProviderKeys g (SetValue c KeyTracer (VOpaque "tracer")) provider in
        let '(p, c, providerReq, sc, n, w) :=
          RunPreProviderHooks (cooldownPolicyFor g) (getPluginPipeline (plugins g w)) c (Some req) w in
        let c := match sc with
                 | Some sc => if sc_Silent sc then SetValue c KeySilentLog (VBool true) else c
                 | None => c
                 end in
        match (sc ≫= fun sc => shortCircuited p c t provider model sc n w) with
        | Some o => o
        | None =>
            match providerReq with
            | None => fail t c (newBifrostErrorFromMsg "bifrost request after PreProviderHook cannot be nil") w
            | Some req => tryAfterProviderHooks g p c provider model req w
            end
        end
  end.

End pipeline.
Arguments LLMPlugin : clear implicits.
Arguments Gateway : clear implicits.
Arguments PluginPipeline : clear implicits.

End Pipeline.
