(* ===== verification/PipelineTheory.v ===== *)
(** * The plugin pipeline: theorems

    Plugin hooks cannot touch what core reserves in the context; the hooks of
    an attempt that produced a response are symmetric; an attempt refused by
    the queue leaves its pre hooks without post hooks. *)

From S2P Require Import Prelude GoStrings Schemas Request Context KeySelection Retry Pipeline.
Local Open Scope string_scope.
Local Open Scope list_scope.

Module PipelineProofs.
Import Schemas Request Context Retry Pipeline.

(** ** Reserved keys *)

Section reserved.
Context {B W : Type}.
Implicit Types (ps : list (LLMPlugin B W)) (c : BifrostContext).

(** A plugin none of whose hooks lifts the block on the root context. *)
Definition keepsBlock (ops : list CtxOp) : Prop := Forall (fun op => lifts op = false) ops.

Definition civil (p : LLMPlugin B W) : Prop :=
  (forall c req w, keepsBlock (PreRequestHook p c req w).1.2) /\
  (forall c req w, keepsBlock (PreProviderHook p c req w).1.2) /\
  (forall c req w, keepsBlock (PreLLMHook p c req w).1.2) /\
  (forall c resp err w, keepsBlock (PostLLMHook p c resp err w).1.2).

Lemma preRequestLoop_reserved ps c req errs w k :
  Forall civil ps -> blockRestrictedWrites c = true -> k ∈ reservedKeys ->
  mayBecome k (value c k) (value (preRequestLoop ps c req errs w).1.1.1 k).
Proof.
  intros Hps. revert c req errs w. induction Hps as [|p ps Hp _ IH]; intros c req errs w Hb Hk; [by left|]. cbn.
  destruct Hp as (Hops & _). specialize (Hops c req w).
  destruct (PreRequestHook p c req w) as [[[err req'] ops] w'].
  destruct (applyOps_reserved c ops k Hb Hk Hops) as [Hv Hb']. eapply mayBecome_trans; [exact Hv|]. by apply IH.
Qed.

Lemma preLoop_reserved hook ps ran ex c (req : option (BifrostRequest B)) errs (w : W) k :
  (forall p c req w, civil p -> keepsBlock (hook p c req w).1.2) ->
  Forall civil ps -> blockRestrictedWrites c = true -> k ∈ reservedKeys ->
  mayBecome k (value c k) (value (preLoop hook ps ran ex c req errs w).1.1.1.1.1 k).
Proof.
  intros Hh Hps. revert ran ex c req errs w.
  induction Hps as [|p ps Hp _ IH]; intros ran ex c req errs w Hb Hk; [by left|]. cbn.
  specialize (Hh p c req w Hp) as Hops. destruct (hook p c req w) as [[[[req' sc] err] ops] w'].
  destruct (applyOps_reserved c ops k Hb Hk Hops) as [Hv Hb'].
  destruct sc; [done|]. eapply mayBecome_trans; [exact Hv|]. by apply IH.
Qed.

Lemma postLoop_reserved ps n c resp err errs (w : W) k :
  Forall civil ps -> blockRestrictedWrites c = true -> k ∈ reservedKeys ->
  mayBecome k (value c k) (value (postLoop ps n c resp err errs w).1.1.1.1 k).
Proof.
  intros Hps. revert c resp err errs w. induction n as [|i IH]; intros c resp err errs w Hb Hk; [by left|]. cbn.
  destruct (ps !! i) as [p|] eqn:Hi; [|by left].
  destruct (Forall_lookup_1 _ _ _ _ Hps Hi) as (_ & _ & _ & Hops). specialize (Hops c resp err w).
  destruct (PostLLMHook p c resp err w) as [[[[resp' err'] perr] ops] w'].
  destruct (applyOps_reserved c ops k Hb Hk Hops) as [Hv Hb'].
  eapply mayBecome_trans; [exact Hv|]. by apply IH.
Qed.

(** C8. Plugins cannot write what core owns.  Let no hook of the plugins call
    [UnblockRestrictedWrites] on the root context.  Then, whatever else their
    hooks do through the public interface of the context, a reserved key
    (virtual key, direct key, request IDs, selected key, retry count, attempt
    trail and the others) has the same value after each of the four hook
    phases, with three exceptions: the stream gate can be closed, the routing
    snapshot and the latency total can take what their public setters write.
    After the pre-request phase the pinned key ID can also be the trimmed pin of
    a routing rule, and nothing else. *)
Theorem reserved_keys_safe (p : PluginPipeline B W) c req oreq resp err n policyFor w k :
  Forall civil (llmPlugins p) -> k ∈ reservedKeys ->
  mayBecome k (value c k) (value (RunLLMPreHooks p c oreq w).1.1.1.1.2 k) /\
  mayBecome k (value c k) (value (RunPreProviderHooks policyFor p c oreq w).1.1.1.1.2 k) /\
  mayBecome k (value c k) (value (RunPostLLMHooks p c resp err n w).1.1.1.2 k) /\
  (mayBecome k (value c k) (value (RunPreRequestHooks p c req w).1.1.2 k) \/
   exists pin, k = KeyAPIKeyID /\ value (RunPreRequestHooks p c req w).1.1.2 k = VString (TrimSpace pin) /\
     TrimSpace pin <> "" /\ value (RunPreRequestHooks p c req w).1.1.2 KeyRoutingPinnedAPIKeyID = VString pin).
Proof.
  intros Hps Hk. split_and!.
  - unfold RunLLMPreHooks. destruct (skips c); [by left|].
    pose proof (preLoop_reserved PreLLMHook (llmPlugins p) 0 (executedPreHooks p) (BlockRestrictedWrites c) oreq
                  (preHookErrors p) w k ltac:(by intros p0 c0 r0 w0 (_ & _ & H & _)) Hps eq_refl Hk) as H.
    by destruct (preLoop _ _ _ _ _ _ _ _) as [[[[[c' r'] sc] n'] e'] w'].
  - unfold RunPreProviderHooks. destruct (skips c); [by left|].
    pose proof (preLoop_reserved PreProviderHook (llmPlugins p) 0 (executedPreProviderHooks p)
                  (BlockRestrictedWrites (stampPolicy policyFor c oreq)) oreq (preHookErrors p) w k
                  ltac:(by intros p0 c0 r0 w0 (_ & H & _)) Hps eq_refl Hk) as H.
    destruct (preLoop _ _ _ _ _ _ _ _) as [[[[[c' r'] sc] n'] e'] w']. cbn in H |- *.
    change (mayBecome k (value c k) (value c' k)). refine (mayBecome_trans _ _ _ _ _ H). left.
    change (value (stampPolicy policyFor c oreq) k = value c k).
    unfold stampPolicy. destruct oreq as [r|]; [|done]. destruct (GetRequestFields r) as [[pr m] fb].
    destruct (String.eqb pr ""); [done|]. unfold SetValue. destruct (dropsWrite c KeyCooldownPolicy); [done|].
    apply value_set_ne. intros <-. by apply (bool_decide_pack _) in Hk.
  - unfold RunPostLLMHooks. destruct (skips c); [by left|]. cbv zeta.
    match goal with |- context [postLoop ?ps ?m ?c0 ?r ?e ?es ?w0] =>
      pose proof (postLoop_reserved ps m c0 r e es w0 k Hps eq_refl Hk) as H;
      destruct (postLoop ps m c0 r e es w0) as [[[[c' r'] e'] es'] w'] end.
    by destruct (settle r' e').
  - unfold RunPreRequestHooks. destruct (skips c); [by left; left|].
    pose proof (preRequestLoop_reserved (llmPlugins p) (BlockRestrictedWrites c) req (preHookErrors p) w k Hps eq_refl Hk) as H.
    destruct (preRequestLoop _ _ _ _ _) as [[[c' r'] e'] w']. cbn in H |- *. unfold commitPin.
    change (value (UnblockRestrictedWrites c') KeyRoutingPinnedAPIKeyID) with (value c' KeyRoutingPinnedAPIKeyID).
    destruct (value c' KeyRoutingPinnedAPIKeyID) as [| | |pin| | | | | |] eqn:Epin; try (left; exact H).
    destruct (String.eqb_spec (TrimSpace pin) "") as [|Hne]; [left; exact H|]. unfold SetValue, dropsWrite. cbn.
    destruct (decide (k = KeyAPIKeyID)) as [->|Hkk].
    + right. exists pin. split; [done|]. split; [apply value_set_eq|]. split; [done|].
      rewrite value_set_ne by done. exact Epin.
    + left. rewrite value_set_ne by done. exact H.
Qed.
End reserved.

(** ** The trace of hooks *)

(** [EvWorker k]: the queue took the message while [k] plugins were registered. *)
Inductive hookEvent := EvPreProvider (name : string) | EvPreLLM (name : string) | EvWorker (k : nat) | EvPost (name : string).

(** A plugin and a gateway that also record what ran. *)
Section traced.
Context {B W : Type}.

Definition logged {A} (ev : hookEvent) (out : A * W) (tr : list hookEvent) : A * (W * list hookEvent) :=
  (out.1, (out.2, tr ++ [ev])).

Definition tracedPlugin (p : LLMPlugin B W) : LLMPlugin B (W * list hookEvent) :=
  mkPlugin (GetName p)
    (fun c req w => let out := PreRequestHook p c req w.1 in (out.1, (out.2, w.2)))
    (fun c req w => logged (EvPreProvider (GetName p)) (PreProviderHook p c req w.1) w.2)
    (fun c req w => logged (EvPreLLM (GetName p)) (PreLLMHook p c req w.1) w.2)
    (fun c resp err w => logged (EvPost (GetName p)) (PostLLMHook p c resp err w.1) w.2).

Definition traced (g : Gateway B W) : Gateway B (W * list hookEvent) :=
  mkGateway (fun w => tracedPlugin <$> plugins g w.1)
    (fun p w => queueError g p w.1) (addTools g) (tracerSet g) (keysFor g) (cooldownPolicyFor g)
    (fun w => closing g w.1) (fun p w => rerouted g p w.1)
    (fun m w => let out := firstSend g m w.1 in (out.1, (out.2, w.2)))
    (fun w => dropExcessRequests g w.1) (fun w => closingAgain g w.1)
    (fun m w => let out := blockingSend g m w.1 in (out.1, (out.2, w.2)))
    (fun c m w => logged (EvWorker (length (plugins g w.1))) (worker g c m w.1) w.2).

(** No hook and no worker touches the flag that skips the pipeline. *)
Definition keeps (c : BifrostContext) (ops : list CtxOp) : Prop := skips (applyOps c ops) = skips c.

Definition quietPlugin (p : LLMPlugin B W) : Prop :=
  (forall c req w req' sc err ops w', PreProviderHook p c req w = (req', sc, err, ops, w') -> keeps c ops) /\
  (forall c req w req' sc err ops w', PreLLMHook p c req w = (req', sc, err, ops, w') -> keeps c ops) /\
  (forall c resp e w resp' e' err ops w', PostLLMHook p c resp e w = (resp', e', err, ops, w') -> keeps c ops).

(** A plugin that lets every request through. *)
Definition passes (p : LLMPlugin B W) : Prop :=
  (forall c r w, exists r' err ops w', PreProviderHook p c (Some r) w = (Some r', None, err, ops, w')) /\
  (forall c r w, exists r' err ops w', PreLLMHook p c (Some r) w = (Some r', None, err, ops, w')).

Definition names (ps : list (LLMPlugin B W)) : list string := GetName <$> ps.

(** The loop over one kind of pre hook runs a prefix of the plugins, all of
    them unless one short-circuits. *)
Section pre.
Context (hook : forall W', LLMPlugin B W' -> PreHook (B := B) (W := W')) (ev : string -> hookEvent).
Context (Htr : forall p c req w, hook _ (tracedPlugin p) c req w = logged (ev (GetName p)) (hook _ p c req w.1) w.2).

Lemma preLoop_trace ps ran c req errs w tr c' req' sc n errs' w' tr' :
  preLoop (hook _) (tracedPlugin <$> ps) ran ran c req errs (w, tr) = (c', req', sc, n, errs', (w', tr')) ->
  exists k, (k <= length ps)%nat /\ n = (ran + k)%nat /\ tr' = tr ++ (ev <$> names (take k ps)) /\
    (sc = None -> k = length ps).
Proof using Htr.
  revert ran c req errs w tr. induction ps as [|p ps IH]; intros ran c req errs w tr; cbn.
  { intros [= <- <- <- <- <- <- <-]. exists 0%nat. cbn. rewrite app_nil_r. split_and!; (done || lia). }
  rewrite Htr. cbn. destruct (hook W p c req w) as [[[[req1 sc1] err1] ops1] w1]. cbn. destruct sc1 as [s|].
  - intros [= <- <- <- <- <- <- <-]. exists 1%nat. split_and!; [cbn; lia|lia|done|done].
  - intros H. apply IH in H as (k & Hk & -> & -> & Hn). exists (S k). cbn.
    rewrite <-app_assoc. split_and!; [lia|lia|done|]. intros Hsc. by rewrite (Hn Hsc).
Qed.

Lemma preLoop_keeps ps ran ex c req errs wt c' req' sc n errs' wt' :
  (forall p, quietPlugin p -> forall c req w req' sc err ops w',
    hook _ p c req w = (req', sc, err, ops, w') -> keeps c ops) ->
  Forall quietPlugin ps ->
  preLoop (hook _) (tracedPlugin <$> ps) ran ex c req errs wt = (c', req', sc, n, errs', wt') -> skips c' = skips c.
Proof using Htr.
  intros Hquiet Hq. revert ran ex c req errs wt. induction Hq as [|p ps Hp _ IH]; intros ran ex c req errs wt; cbn.
  { by intros [= <- <- <- <- <- <-]. }
  rewrite Htr. cbn. destruct (hook W p c req wt.1) as [[[[req1 sc1] err1] ops1] w1] eqn:Eh. cbn.
  apply Hquiet in Eh; [|done]. destruct sc1 as [s|]; [by intros [= <- <- <- <- <- <-]|].
  intros H. apply IH in H. congruence.
Qed.

Lemma preLoop_pass ps ran c r errs w tr c' req' sc n errs' wt :
  (forall p, p ∈ ps -> forall c r w, exists r' err ops w', hook _ p c (Some r) w = (Some r', None, err, ops, w')) ->
  preLoop (hook _) (tracedPlugin <$> ps) ran ran c (Some r) errs (w, tr) = (c', req', sc, n, errs', wt) ->
  sc = None /\ exists r', req' = Some r'.
Proof using Htr.
  intros Hp. revert ran c r errs w tr. induction ps as [|p ps IH]; intros ran c r errs w tr; cbn.
  { intros [= <- <- <- <- <- <-]. eauto. }
  rewrite Htr. cbn. destruct (Hp p ltac:(by left) c r w) as (r1 & err1 & ops1 & w1 & ->). cbn.
  apply IH. intros p' Hin. apply Hp. by right.
Qed.
End pre.

Lemma postLoop_trace ps n c resp err errs w tr :
  (n <= length ps)%nat ->
  (postLoop (tracedPlugin <$> ps) n c resp err errs (w, tr)).2.2 = tr ++ (EvPost <$> names (reverse (take n ps))).
Proof.
  revert c resp err errs w tr. induction n as [|i IH]; intros c resp err errs w tr Hn; cbn; [by rewrite app_nil_r|].
  destruct (lookup_lt_is_Some_2 ps i ltac:(lia)) as [p Hp].
  rewrite list_lookup_fmap, Hp. cbn.
  destruct (PostLLMHook p c resp err w) as [[[[resp1 err1] perr1] ops1] w1]. cbn.
  rewrite IH by lia. rewrite (take_S_r ps i p Hp), reverse_app. cbn. by rewrite <-app_assoc.
Qed.

(** The post hooks of the first [n] plugins, or none when the context says to
    skip the pipeline, which it then still says. *)
Lemma RunPost_trace (p : PluginPipeline B (W * list hookEvent)) ps c resp err n w tr :
  llmPlugins p = tracedPlugin <$> ps ->
  exists m, (RunPostLLMHooks p c resp err (Z.of_nat n) (w, tr)).2.2 = tr ++ (EvPost <$> names (reverse (take m ps))) /\
    ((skips c = false /\ m = Nat.min n (length ps)) \/
     (skips c = true /\ m = 0%nat /\ (RunPostLLMHooks p c resp err (Z.of_nat n) (w, tr)).1.1.1.2 = c)).
Proof.
  intros Hps. unfold RunPostLLMHooks. rewrite Hps, length_fmap. destruct (skips c).
  { exists 0%nat. cbn. rewrite app_nil_r. split; [done|]. by right. }
  cbv zeta. exists (Nat.min n (length ps)). split; [|by left].
  rewrite (bool_decide_eq_false_2 (Z.of_nat n < 0)%Z) by lia.
  assert (Z.to_nat (if bool_decide (Z.of_nat n > Z.of_nat (length ps))%Z then Z.of_nat (length ps) else Z.of_nat n)
          = Nat.min n (length ps)) as -> by (case_bool_decide; lia).
  pose proof (postLoop_trace ps (Nat.min n (length ps)) (BlockRestrictedWrites c) resp err (postHookErrors p) w tr ltac:(lia)) as H.
  destruct (postLoop _ _ _ _ _ _ _) as [[[[c' r'] e'] es'] w']. by destruct (settle r' e').
Qed.

(** ** The trace of an attempt *)

Definition provs (ps : list (LLMPlugin B W)) (k : nat) : list hookEvent := EvPreProvider <$> names (take k ps).
Definition pres (ps : list (LLMPlugin B W)) (k : nat) : list hookEvent := EvPreLLM <$> names (take k ps).
Definition posts (ps : list (LLMPlugin B W)) (k : nat) : list hookEvent := EvPost <$> names (reverse (take k ps)).

(** The plugins a phase that starts with [n] of them really ran: [n] of [len],
    or none if the context [c] it returns says to skip the pipeline. *)
Definition ranPost (len n m : nat) (c : BifrostContext) : Prop := m = Nat.min n len \/ (m = 0%nat /\ skips c = true).

(** How far an attempt can go, with whether it ends in an error and with the
    context it leaves. *)
Inductive shape_of (ps : list (LLMPlugin B W)) : option BifrostError -> BifrostContext -> list hookEvent -> Prop :=
| shape_refused e c : shape_of ps (Some e) c []
| shape_provider_short e c a m : ranPost (length ps) a m c -> shape_of ps e c (provs ps a ++ posts ps m)
| shape_provider_nil e c a : shape_of ps (Some e) c (provs ps a)
| shape_llm_short e c a b m : ranPost (length ps) b m c -> shape_of ps e c (provs ps a ++ pres ps b ++ posts ps m)
| shape_not_sent e c a b : shape_of ps (Some e) c (provs ps a ++ pres ps b)
| shape_abandoned e c a b k : shape_of ps (Some e) c (provs ps a ++ pres ps b ++ [EvWorker k])
| shape_answered e c a b k m :
    ranPost (length ps) k m c -> shape_of ps e c (provs ps a ++ pres ps b ++ [EvWorker k] ++ posts ps m).

Lemma finishAttempt_trace (p : PluginPipeline B (W * list hookEvent)) ps c t pr m resp err n w tr :
  llmPlugins p = tracedPlugin <$> ps ->
  let o := finishAttempt p c t pr m resp err (Z.of_nat n) (w, tr) in
  exists k, o.2.2 = tr ++ posts ps k /\ ranPost (length ps) n k o.1.2.
Proof.
  intros Hps. unfold finishAttempt, posts. destruct (RunPost_trace p ps c resp err n w tr Hps) as (k & Hk & Hs).
  destruct (RunPostLLMHooks _ _ _ _ _ _) as [[[[p' c'] r'] e'] w']. cbn in Hk, Hs.
  assert (ranPost (length ps) n k c') as Hr.
  { destruct Hs as [(_ & ->)|(Hs & -> & ->)]; [by left|by right]. }
  exists k. by destruct e'.
Qed.

Lemma shortCircuited_trace (p : PluginPipeline B (W * list hookEvent)) ps c t pr m sc n w tr o :
  llmPlugins p = tracedPlugin <$> ps -> shortCircuited p c t pr m sc n (w, tr) = Some o ->
  exists k, o.2.2 = tr ++ posts ps k /\ ranPost (length ps) n k o.1.2.
Proof.
  intros Hps. unfold shortCircuited. destruct (sc_Response sc) as [r|]; [|destruct (sc_Error sc) as [e|]; [|done]];
    intros [= <-]; by apply finishAttempt_trace.
Qed.

Lemma stripOutcome_trace c (o : Outcome (W := W * list hookEvent)) :
  (stripOutcome c o).2 = o.2 /\ (stripOutcome c o).1.2 = o.1.2.
Proof. by destruct o as [[[resp err] c'] w]. Qed.

Lemma skips_set c k v : k <> KeySkipPluginPipeline -> skips (SetValue c k v) = skips c.
Proof.
  intros Hk. unfold skips, boolValue, SetValue. destruct (dropsWrite c k); [done|]. by rewrite value_set_ne.
Qed.

Lemma enqueue_trace (g : Gateway B W) pr m w tr :
  (enqueue (traced g) pr m (w, tr)).2.2 = tr.
Proof.
  unfold enqueue. cbn. destruct (closing g w && negb (rerouted g pr w)); [done|].
  destruct (firstSend g m w) as [[] w1]; cbn; try done.
  destruct (dropExcessRequests g w1); [done|]. destruct (closingAgain g w1); [done|].
  by destruct (blockingSend g m w1) as [[] w2].
Qed.

(** The part after the worker has the message. *)
Lemma awaitAnswer_trace (g : Gateway B W) p ps c t f f0 m w tr :
  llmPlugins p = tracedPlugin <$> ps ->
  let o := awaitAnswer (traced g) p c t f f0 m (w, tr) in
  exists k, (exists e, o.1.1.2 = Some e /\ o.2.2 = tr ++ [EvWorker k]) \/
    (exists n, o.2.2 = tr ++ [EvWorker k] ++ posts ps n /\ ranPost (length ps) k n o.1.2).
Proof.
  intros Hps. unfold awaitAnswer. destruct f as [pr mo]. cbn. rewrite length_fmap.
  exists (length (plugins g w)).
  destruct (worker g c m w) as [[ans c1] w1]. cbn. destruct ans as [r|e|d err]; [right|right|left; by eexists].
  - match goal with |- context [finishAttempt p ?c0 t pr mo ?r0 ?e0 ?n0 ?w0] => set (o := finishAttempt p c0 t pr mo r0 e0 n0 w0) end.
    destruct (finishAttempt_trace p ps c1 t pr mo r None (length (plugins g w)) w1 (tr ++ [EvWorker (length (plugins g w))]) Hps)
      as (k & Ho & Hr).
    change (finishAttempt _ _ _ _ _ _ _ _ _) with o in Ho, Hr. exists k. rewrite <-app_assoc in Ho.
    destruct (o.1.1.2); [done|]. by rewrite (proj1 (stripOutcome_trace _ _)), (proj2 (stripOutcome_trace _ _)).
  - rewrite (proj1 (stripOutcome_trace _ _)), (proj2 (stripOutcome_trace _ _)).
    match goal with |- context [finishAttempt p ?c0 t pr mo None ?e0 _ _] =>
      destruct (finishAttempt_trace p ps c0 t pr mo None e0 (length (plugins g w)) w1 (tr ++ [EvWorker (length (plugins g w))]) Hps)
        as (k & Ho & Hr) end.
    exists k. by rewrite Ho, <-app_assoc.
Qed.

Lemma RunLLMPre_trace (p : PluginPipeline B (W * list hookEvent)) ps c req w tr p' c' req' sc n w' tr' :
  llmPlugins p = tracedPlugin <$> ps -> executedPreHooks p = 0%nat ->
  RunLLMPreHooks p c req (w, tr) = (p', c', req', sc, n, (w', tr')) ->
  (n <= length ps)%nat /\ tr' = tr ++ pres ps n /\ llmPlugins p' = tracedPlugin <$> ps /\
  (skips c = false -> Forall quietPlugin ps -> skips c' = false) /\
  (skips c = false -> Forall passes ps -> forall r, req = Some r -> sc = None /\ n = length ps /\ exists r', req' = Some r').
Proof.
  intros Hps Hex. unfold RunLLMPreHooks. destruct (skips c) eqn:Hs.
  { intros [= <- <- <- <- <- <- <-]. cbn. rewrite app_nil_r. split_and!; (done || lia). }
  rewrite Hps, Hex.
  destruct (preLoop _ _ _ _ _ _ _ _) as [[[[[c1 r1] sc1] n1] e1] [w1 tr1]] eqn:E. intros [= <- <- <- <- <- <- <-].
  pose proof E as E'. pose proof E as E''.
  eapply (preLoop_trace (fun _ => PreLLMHook) EvPreLLM) in E as (k & Hk & -> & -> & Hall); [|done].
  split_and!; [done|done|done| |].
  - intros _ Hq. refine (eq_trans _ Hs).
    eapply (preLoop_keeps (fun _ => PreLLMHook) EvPreLLM ltac:(done)) in E''; [exact E''|by intros p0 (_ & H & _)|done].
  - intros _ Hps' r ->. apply (preLoop_pass (fun _ => PreLLMHook) EvPreLLM) in E' as [-> Hr]; [|done|].
    + split_and!; [done|by rewrite Hall|done].
    + intros p0 Hin. rewrite Forall_forall in Hps'. apply (Hps' p0 Hin).
Qed.

Lemma stampPolicy_skips pol c (req : option (BifrostRequest B)) : skips (stampPolicy pol c req) = skips c.
Proof.
  unfold stampPolicy. destruct req as [r|]; [|done]. destruct (GetRequestFields r) as [[pr m] fb].
  destruct (String.eqb pr ""); [done|]. by rewrite skips_set by (vm_compute; discriminate).
Qed.

Lemma RunPreProvider_trace pol (p : PluginPipeline B (W * list hookEvent)) ps c req w tr p' c' req' sc n w' tr' :
  llmPlugins p = tracedPlugin <$> ps -> executedPreProviderHooks p = 0%nat ->
  RunPreProviderHooks pol p c req (w, tr) = (p', c', req', sc, n, (w', tr')) ->
  (n <= length ps)%nat /\ tr' = tr ++ provs ps n /\ llmPlugins p' = tracedPlugin <$> ps /\
  executedPreHooks p' = executedPreHooks p /\
  (skips c = false -> Forall quietPlugin ps -> skips c' = false) /\
  (skips c = false -> Forall passes ps -> forall r, req = Some r -> sc = None /\ n = length ps /\ exists r', req' = Some r').
Proof.
  intros Hps Hex. unfold RunPreProviderHooks. destruct (skips c) eqn:Hs.
  { intros [= <- <- <- <- <- <- <-]. cbn. rewrite app_nil_r. split_and!; (done || lia). }
  rewrite Hps, Hex.
  destruct (preLoop _ _ _ _ _ _ _ _) as [[[[[c1 r1] sc1] n1] e1] [w1 tr1]] eqn:E. intros [= <- <- <- <- <- <- <-].
  pose proof E as E'. pose proof E as E''.
  eapply (preLoop_trace (fun _ => PreProviderHook) EvPreProvider) in E as (k & Hk & -> & -> & Hall); [|done].
  split_and!; [done|done|done|done| |].
  - intros _ Hq. refine (eq_trans _ (eq_trans (stampPolicy_skips pol c req) Hs)).
    eapply (preLoop_keeps (fun _ => PreProviderHook) EvPreProvider ltac:(done)) in E''; [exact E''|by intros p0 (H & _)|done].
  - intros _ Hps' r ->. apply (preLoop_pass (fun _ => PreProviderHook) EvPreProvider) in E' as [-> Hr]; [|done|].
    + split_and!; [done|by rewrite Hall|done].
    + intros p0 Hin. rewrite Forall_forall in Hps'. apply (Hps' p0 Hin).
Qed.

Lemma tryAfterProviderHooks_trace (g : Gateway B W) p ps c pr m req w tr a :
  llmPlugins p = tracedPlugin <$> ps -> executedPreHooks p = 0%nat -> tr = provs ps a ->
  let o := tryAfterProviderHooks (traced g) p c pr m req (w, tr) in shape_of ps o.1.1.2 o.1.2 o.2.2.
Proof.
  intros Hps Hex Htr. unfold tryAfterProviderHooks.
  destruct (RunLLMPreHooks p c (Some req) (w, tr)) as [[[[[p1 c1] r1] sc1] n1] [w1 tr1]] eqn:E1.
  apply (RunLLMPre_trace p ps) in E1 as (Hn & -> & Hp1 & _); [|done..]. subst tr.
  destruct (sc1 ≫= _) as [o|] eqn:Esc.
  { destruct sc1 as [sc|]; [|done]. cbn in Esc. apply (shortCircuited_trace p1 ps) in Esc as (k & -> & Hk); [|done].
    rewrite <-app_assoc. by apply shape_llm_short. }
  destruct r1 as [preReq|]; [|apply shape_not_sent].
  destruct (GetRequestFields preReq) as [[pr1 m1] fb1].
  pose proof (enqueue_trace g pr1 preReq w1 (provs ps a ++ pres ps n1)) as He.
  destruct (enqueue (traced g) pr1 preReq _) as [[e|] [w2 tr2]]; cbn in He; subst tr2; [apply shape_not_sent|].
  destruct (GetRequestFields req) as [[pr0 m0] fb0].
  match goal with |- context [awaitAnswer (traced g) p1 c1 ?t ?f ?f0 preReq ?w0] =>
    destruct (awaitAnswer_trace g p1 ps c1 t f f0 preReq w2 (provs ps a ++ pres ps n1) Hp1)
      as (k & [(e & -> & ->)|(n & -> & Hr)]) end; rewrite <-app_assoc; [apply shape_abandoned|by apply shape_answered].
Qed.

Lemma stamp_skips (g : Gateway B W) c v pr :
  skips (stampProviderKeys (traced g) (SetValue c KeyTracer v) pr) = skips c.
Proof.
  unfold stampProviderKeys. destruct (String.eqb pr ""); [by rewrite skips_set by (vm_compute; discriminate)|].
  destruct (keysFor (traced g) pr) as [[|]|]; by rewrite !skips_set by (vm_compute; discriminate).
Qed.

Lemma tryRequest_trace (g : Gateway B W) c req w :
  let o := tryRequest (traced g) c req (w, []) in shape_of (plugins g w) o.1.1.2 o.1.2 o.2.2.
Proof.
  unfold tryRequest. destruct (GetRequestFields req) as [[pr m] fb]. cbn [queueError traced fst].
  destruct (queueError g pr w); [apply shape_refused|]. cbn [tracerSet traced].
  destruct (tracerSet g); cbn [negb]; [|apply shape_refused].
  destruct (RunPreProviderHooks _ _ _ _ _) as [[[[[p1 c1] r1] sc1] n1] [w1 tr1]] eqn:E1.
  apply (RunPreProvider_trace _ _ (plugins g w)) in E1 as (Hn & -> & Hp1 & Hex1 & _); [|done..]. cbn [app].
  set (c2 := match sc1 with Some _ => _ | None => c1 end).
  destruct (sc1 ≫= _) as [o|] eqn:Esc.
  { destruct sc1 as [sc|]; [|done]. cbn in Esc. apply (shortCircuited_trace p1 (plugins g w)) in Esc as (k & -> & Hk); [|done].
    by apply shape_provider_short. }
  destruct r1 as [req1|]; [|apply shape_provider_nil].
  by apply (tryAfterProviderHooks_trace g p1 (plugins g w) c2 pr m req1 w1 _ n1).
Qed.

(** C7. Symmetry of hooks, for any plugins.  An attempt that returns without an
    error ran the pre-provider hooks of some first plugins (of the list loaded
    when it started), the pre-LLM hooks of some first plugins, perhaps the
    provider, and then, in reverse order, the post hooks of the first [n]
    plugins.  After a short circuit [n] is the number of plugins whose pre-LLM
    hook ran (whose pre-provider hook ran, when that phase short-circuited);
    after a provider call it is the number of plugins registered when the
    message was sent, cut to the list.  The one exception: if the context the
    attempt returns says to skip the plugin pipeline, no post hook may have run. *)
Theorem hooks_symmetric (g : Gateway B W) c req w resp c' w' tr :
  tryRequest (traced g) c req (w, []) = (resp, None, c', (w', tr)) ->
  let ps := plugins g w in
  exists a b mid n m, tr = provs ps a ++ pres ps b ++ mid ++ posts ps m /\
    (m = Nat.min n (length ps) \/ (m = 0%nat /\ skips c' = true)) /\
    (mid = [EvWorker n] \/ (mid = [] /\ (n = b \/ (b = 0%nat /\ n = a)))).
Proof.
  intros E. pose proof (tryRequest_trace g c req w) as Hsh. rewrite E in Hsh. cbn in Hsh.
  inversion Hsh as [|e c0 a m Hm|e c0 a|e c0 a b m Hm|e c0 a b|e c0 a b k|e c0 a b k m Hm]; subst.
  - exists a, 0%nat, [], a, m. split_and!; [done|exact Hm|]. right. auto.
  - exists a, b, [], b, m. split_and!; [done|exact Hm|]. right. auto.
  - exists a, b, [EvWorker k], k, m. split_and!; [done|exact Hm|]. by left.
Qed.

(** Where symmetry ends: when no plugin short-circuits or touches the flag that
    skips the pipeline, and the queue refuses the message (it is full, closing,
    or the context ends while waiting), the attempt has run every pre-provider
    and pre-LLM hook and runs no post hook. *)
Theorem refused_unpaired (g : Gateway B W) c req w :
  let ps := plugins g w in
  Forall quietPlugin ps -> skips c = false -> Forall passes ps ->
  queueError g (GetRequestFields req).1.1 w = None -> tracerSet g = true ->
  (forall pr m w, exists e w', enqueue (traced g) pr m w = (Some e, w')) ->
  let o := tryRequest (traced g) c req (w, []) in
  o.1.1.2 <> None /\ o.2.2 = provs ps (length ps) ++ pres ps (length ps).
Proof.
  intros ps Hq Hs Hpass Hqe Ht Henq. unfold tryRequest. destruct (GetRequestFields req) as [[pr m] fb].
  cbn [queueError traced fst tracerSet] in Hqe |- *. rewrite Hqe, Ht. cbn [negb].
  destruct (RunPreProviderHooks _ _ _ _ _) as [[[[[p1 c1] r1] sc1] n1] [w1 tr1]] eqn:E1.
  apply (RunPreProvider_trace _ _ ps) in E1 as (_ & -> & Hp1 & Hex1 & Hk & Hall); [|done..]. cbn [app].
  rewrite stamp_skips in Hk, Hall. specialize (Hk Hs Hq).
  destruct (Hall Hs Hpass _ eq_refl) as (-> & -> & r & ->). cbn [mbind option_bind]. unfold tryAfterProviderHooks.
  destruct (RunLLMPreHooks p1 c1 (Some r) _) as [[[[[p2 c2] r2] sc2] n2] [w2 tr2]] eqn:E2.
  apply (RunLLMPre_trace p1 ps) in E2 as (_ & -> & _ & _ & Hall2); [|done..].
  destruct (Hall2 Hk Hpass _ eq_refl) as (-> & -> & r' & ->). cbn [mbind option_bind].
  destruct (GetRequestFields r') as [[pr1 m1] fb1].
  match goal with |- context [enqueue (traced g) pr1 r' (w2, ?t)] =>
    pose proof (enqueue_trace g pr1 r' w2 t) as He; destruct (Henq pr1 r' (w2, t)) as (e & [w3 tr3] & Ee) end.
  rewrite Ee in He |- *. cbn in He |- *. by rewrite He.
Qed.
End traced.

(** ** Runs *)

(** A plugin that tries to take over the request: it writes the virtual key and
    the retry count, and pins a key through the routing pin. *)
Definition greedyOps : list CtxOp :=
  [OpSet KeyVirtualKey (VString "stolen"); OpClear KeyRequestID; OpSet KeyRoutingPinnedAPIKeyID (VString " k1 ")].

Definition greedy : LLMPlugin unit unit :=
  mkPlugin "greedy" (fun c req w => (None, req, greedyOps, w))
    (fun c req w => (req, None, None, greedyOps, w)) (fun c req w => (req, None, None, greedyOps, w))
    (fun c resp err w => (resp, err, None, greedyOps, w)).

Definition ownCtx : BifrostContext := mkCtx {[KeyVirtualKey := VString "vk"; KeyRequestID := VString "r"]} ∅ false.
Definition chatReq : BifrostRequest unit := onlyField "chat_completion" FChat (mkSub "openai" (Some "gpt") [] tt).

Lemma greedy_civil : Forall civil [greedy].
Proof. constructor; [by split_and!; intros; repeat constructor|constructor]. Qed.

Lemma reserved_keys_safe_witness :
  value (RunLLMPreHooks (getPluginPipeline [greedy]) ownCtx (Some chatReq) tt).1.1.1.1.2 KeyVirtualKey = VString "vk".
Proof.
  assert (KeyVirtualKey ∈ reservedKeys) as Hk by (apply (bool_decide_unpack _); vm_compute; exact I).
  destruct (proj1 (reserved_keys_safe (getPluginPipeline [greedy]) ownCtx chatReq (Some chatReq) None None 1
    (fun _ => VNil) tt KeyVirtualKey greedy_civil Hk)) as [H|[(H & _)|[(H & _)|(H & _)]]]; [|discriminate H..].
  refine (eq_trans H _). vm_compute. reflexivity.
Defined.

(** What the hypothesis leaves out: the root of the context is public, and so
    is the method that lifts the block on it.  A plugin that calls it takes over
    the virtual key. *)
Definition lifter : LLMPlugin unit unit :=
  mkPlugin "lifter" (fun c req w => (None, req, [], w))
    (fun c req w => (req, None, None, [], w)) (fun c req w => (req, None, None, OpUnblock :: greedyOps, w))
    (fun c resp err w => (resp, err, None, [], w)).

Lemma lifter_takes_over :
  value (RunLLMPreHooks (getPluginPipeline [lifter]) ownCtx (Some chatReq) tt).1.1.1.1.2 KeyVirtualKey = VString "stolen".
Proof. vm_compute. reflexivity. Qed.

(** A gateway with two logging plugins whose queue accepts, or is full; [late]
    of them are still registered when the message has been sent. *)
Definition logger (name : string) : LLMPlugin unit bool :=
  mkPlugin name (fun c req w => (None, req, [], w))
    (fun c req w => (req, None, None, [], w)) (fun c req w => (req, None, None, [], w))
    (fun c resp err w => (resp, err, None, [], w)).

Definition gatewayOf (send : Send) (late : list (LLMPlugin unit bool)) : Gateway unit bool :=
  mkGateway (fun w : bool => if w then late else [logger "a"; logger "b"]) (fun _ _ => None) None true (fun _ => None) (fun _ => VNil)
    (fun _ => false) (fun _ _ => false) (fun _ w => (send, true)) (fun _ => true) (fun _ => false) (fun _ w => (Sent, w))
    (fun c _ w => (GotResponse (Some (mkResponse None "hi")), c, w)).

Lemma logger_quiet name : quietPlugin (logger name).
Proof. by split_and!; intros; simplify_eq/=. Qed.

Lemma hooks_symmetric_witness :
  let g := gatewayOf Sent [logger "a"; logger "b"] in
  (tryRequest (traced g) ownCtx chatReq (false, [])).2.2
  = [EvPreProvider "a"; EvPreProvider "b"; EvPreLLM "a"; EvPreLLM "b"; EvWorker 2; EvPost "b"; EvPost "a"] /\
  exists a b mid m, (tryRequest (traced g) ownCtx chatReq (false, [])).2.2 =
    provs (plugins g false) a ++ pres (plugins g false) b ++ mid ++ posts (plugins g false) m.
Proof.
  intros g. split; [vm_compute; reflexivity|].
  destruct (tryRequest (traced g) ownCtx chatReq (false, [])) as [[[resp err] c'] [w' tr]] eqn:E.
  assert (err = None) as -> by (vm_compute in E; congruence).
  destruct (hooks_symmetric g ownCtx chatReq false resp c' w' tr E) as (a & b & mid & n & m & H & _).
  exists a, b, mid, m. exact H.
Defined.

(** A plugin removed while the provider works: plugin [b] ran its pre hooks and
    its post hook is not run. *)
Lemma removed_plugin_unpaired :
  (tryRequest (traced (gatewayOf Sent [logger "a"])) ownCtx chatReq (false, [])).2.2
  = [EvPreProvider "a"; EvPreProvider "b"; EvPreLLM "a"; EvPreLLM "b"; EvWorker 1; EvPost "a"].
Proof. vm_compute. reflexivity. Qed.

Lemma refused_unpaired_witness :
  (tryRequest (traced (gatewayOf WouldBlock [])) ownCtx chatReq (false, [])).2.2 =
  [EvPreProvider "a"; EvPreProvider "b"; EvPreLLM "a"; EvPreLLM "b"].
Proof.
  refine (proj2 (refused_unpaired (gatewayOf WouldBlock []) ownCtx chatReq false _ eq_refl _ _ eq_refl _)).
  - by repeat constructor; apply logger_quiet.
  - repeat constructor; by intros; repeat eexists.
  - reflexivity.
  - intros pr m [w tr]. eexists _, _. reflexivity.
Defined.

End PipelineProofs.
