(* ===== verification/Fallback.v ===== *)
(** * Requests with fallbacks (src/core/bifrost.go, [handleRequest])

    The primary attempt and the fallback chain around [tryRequest]: the
    pre-request hooks, validation, the decision to fall back, the rewritten
    request, the context state that must not leak into a fallback attempt, and
    the routing log.  The account's configurations, the clock and the source of
    IDs are arguments.  A dereference of a nil pointer is a panic: [None].
    Spans, the model catalogue in the context and latency stamps are left
    out. *)

From S2P Require Import Prelude GoStrings Schemas Request Context KeySelection Retry Pipeline.
Local Open Scope string_scope.
Local Open Scope list_scope.

Module Fallback.
Import Schemas Request Context Retry Pipeline.

(** ** Whether to fall back *)

Definition shouldTryFallbacks {B} (req : BifrostRequest B) (primaryErr : option BifrostError) : bool :=
  match primaryErr with
  | None => false
  | Some e =>
      if isCancelled e then false
      else if bool_decide (be_AllowFallbacks e = Some false) then false
      else let '(_, _, fallbacks) := GetRequestFields req in bool_decide (fallbacks <> [])
  end.

(** [None] is the nil dereference of an error without its error field. *)
Definition shouldContinueWithFallbacks (fallbackErr : BifrostError) : option bool :=
  match be_Error fallbackErr with
  | None => None
  | Some f =>
      if bool_decide (ef_Type f = Some RequestCancelled) then Some false
      else if bool_decide (be_AllowFallbacks fallbackErr = Some false) then Some false
      else Some true
  end.

(** The typed requests [prepareFallbackRequest] rewrites. *)
Definition rewrittenFields : list Field :=
  [FTextCompletion; FChat; FResponses; FCountTokens; FCompaction; FEmbedding; FRerank; FOCR; FSpeech; FTranscription;
   FImageGeneration; FVideoGeneration].

Definition prepareFallbackRequest {B} (hasConfig : ModelProvider -> bool) (req : BifrostRequest B) (fb : Fallback) :
    option (BifrostRequest B) :=
  if negb (hasConfig (fb_Provider fb)) then None
  else
    Some (mkRequest (br_RequestType req) (fun f =>
      match br_field req f with
      | Some s => if bool_decide (f ∈ rewrittenFields)
                  then Some (mkSub (fb_Provider fb) (Some (fb_Model fb)) (sub_Fallbacks s) (sub_Body s))
                  else Some s
      | None => None
      end)).

Definition fallbackScoped : list string :=
  [KeyAPIKeyID; KeyAPIKeyName; KeyGovernanceIncludeOnlyKeys; KeyChangeRequestType; KeyAttemptTrail;
   KeyStreamEndIndicator; KeyConnectionClosed; KeySupportsAssistantPrefill; KeySilentLog; KeyRetryAfterSeconds].

Definition clearCtxForFallback (c : BifrostContext) : BifrostContext := foldl ClearValue c fallbackScoped.

(** ** Routing info of a fallback *)

Definition syncDeprecatedFromRoutingInfo (ri : RoutingInfo) (x : BifrostErrorExtraFields) : BifrostErrorExtraFields :=
  let provider := if String.eqb (ri_Provider ri) "" then xf_Provider x else ri_Provider ri in
  let attempt old := if String.eqb (ri_Model ri) "" then old else ri_Model ri in
  let original :=
    if ri_IsFallback ri
    then match nonEmpty (ri_PrimaryModel ri) with Some m => m | None => attempt (xf_OriginalModelRequested x) end
    else attempt (xf_OriginalModelRequested x) in
  let resolved := match nonEmpty (ri_AliasModelID ri) with Some m => m | None => attempt (xf_ResolvedModelUsed x) end in
  mkExtra ri provider original resolved (xf_RequestType x) (xf_RetryAfterSeconds x) (xf_RawRequest x) (xf_RawResponse x).

Definition fallbackInfo (primaryProvider : ModelProvider) (primaryModel : string) (x : BifrostErrorExtraFields) :
    BifrostErrorExtraFields :=
  let ri := xf_RoutingInfo x in
  syncDeprecatedFromRoutingInfo
    (mkRoutingInfo (ri_Provider ri) (ri_Model ri) (ri_Key ri) (ri_AliasModelID ri) true
       (if String.eqb primaryProvider "" then ri_PrimaryProvider ri else Some primaryProvider)
       (if String.eqb primaryModel "" then ri_PrimaryModel ri else Some primaryModel)) x.

Definition SetFallbackRoutingInfo (p : ModelProvider) (m : string) (r : BifrostResponse) : BifrostResponse :=
  mapExtra (fallbackInfo p m) r.
Definition SetFallbackRoutingInfoErr (p : ModelProvider) (m : string) (e : BifrostError) : BifrostError :=
  mapErrExtra (fallbackInfo p m) e.

(** ** Validation *)

Definition ProviderAutoResolveErrorMessage : string :=
  "could not auto resolve a provider for the request, please specify a provider explicitly".
Definition ModelAutoResolveErrorMessage : string :=
  "could not auto resolve a model for the request, please specify a model explicitly".

Definition validateRequestAfterPreRequestHooks {B} (req : BifrostRequest B) : option BifrostError :=
  let '(provider, model, _) := GetRequestFields req in
  if String.eqb provider "" then Some (newBifrostErrorFromMsg ProviderAutoResolveErrorMessage)
  else if isModelRequired (br_RequestType req) && String.eqb model ""
  then Some (newBifrostErrorFromMsg ModelAutoResolveErrorMessage)
  else None.

Section handle.
Context {B W : Type}.

Record Handler := mkHandler {
  gateway : Gateway B W;
  hasConfig : ModelProvider -> bool;
  nowMs : W -> Z;
  newUUID : W -> string * W }.

Definition note (h : Handler) (c : BifrostContext) (level message : string) (w : W) : BifrostContext :=
  AppendRoutingEngineLog c RoutingEngineCore level message (nowMs h w).

(** The answer, and the attempts made in order: 0 for the primary, [i] for the
    [i]th fallback, each with its error. *)
Record Handled := mkHandled {
  hd_resp : option BifrostResponse;
  hd_err : option BifrostError;
  hd_ctx : BifrostContext;
  hd_world : W;
  hd_attempts : list (Z * option BifrostError) }.

(** The fallbacks from the [i]th on, of [n]. *)
Fixpoint tryFallbacks (h : Handler) (req : BifrostRequest B) (provider : ModelProvider) (model : string)
    (primaryErr lastErr : BifrostError) (n i : Z) (fallbacks : list Fallback) (c : BifrostContext) (w : W)
    (done : list (Z * option BifrostError)) : option Handled :=
  match fallbacks with
  | [] =>
      let c := note h c "error" ("All " +:+ (Itoa n +:+ (" fallback(s) exhausted; returning primary error ("
                                   +:+ (routingErrorSummary (Some primaryErr) +:+ ")")))) w in
      Some (mkHandled None (Some primaryErr) c w done)
  | fb :: fallbacks =>
      let target := fb_Provider fb +:+ ("/" +:+ fb_Model fb) in
      let c := SetValue c KeyFallbackIndex (VInt i) in
      let c := note h c "info" ("Trying fallback " +:+ (Itoa i +:+ ("/" +:+ (Itoa n +:+ (": " +:+ (target
                 +:+ (" (previous attempt failed: " +:+ (routingErrorSummary (Some lastErr) +:+ ")")))))))) w in
      let '(id, w) := newUUID h w in
      let c := clearCtxForFallback (SetValue c KeyFallbackRequestID (VString id)) in
      match prepareFallbackRequest (hasConfig h) req fb with
      | None =>
          let c := note h c "warn" ("Fallback " +:+ (target +:+ " skipped: missing provider config")) w in
          tryFallbacks h req provider model primaryErr lastErr n (i + 1) fallbacks c w done
      | Some fallbackReq =>
          let '(resp, err, c, w) := tryRequest (gateway h) c fallbackReq w in
          let done := done ++ [(i, err)] in
          match err with
          | None =>
              let c := note h c "info" ("Request served by fallback " +:+ (target +:+ (" (attempt " +:+ (Itoa i
                         +:+ ("/" +:+ (Itoa n +:+ ")")))))) w in
              Some (mkHandled (SetFallbackRoutingInfo provider model <$> resp) None c w done)
          | Some e =>
              let e := SetFallbackRoutingInfoErr provider model e in
              match shouldContinueWithFallbacks e with
              | None => None
              | Some false =>
                  let c := note h c "error" ("Fallback " +:+ (target +:+ (" failed (" +:+ (routingErrorSummary (Some e)
                             +:+ "); halting further fallbacks")))) w in
                  Some (mkHandled None (Some e) c w done)
              | Some true => tryFallbacks h req provider model primaryErr e n (i + 1) fallbacks c w done
              end
          end
      end
  end.

(** Up to the end of the pre-request hooks: the context and the request all
    attempts start from. *)
Definition enterRequest (h : Handler) (c : BifrostContext) (req : BifrostRequest B) (w : W) :
    BifrostContext * BifrostRequest B * W :=
  let c := SetValue (ResetUpstreamLatency c) KeyFallbackIndex (VInt 0) in
  let '(c, w) :=
    match value c KeyRequestID with
    | VString _ => (c, w)
    | _ => let '(id, w) := newUUID h w in (SetValue c KeyRequestID (VString id), w)
    end in
  let '(_, c, req, w) := RunPreRequestHooks (getPluginPipeline (plugins (gateway h) w)) c req w in
  (c, req, w).

Definition handleRequest (h : Handler) (c : BifrostContext) (req : BifrostRequest B) (w : W) : option Handled :=
  let '(c, req, w) := enterRequest h c req w in
  let '(provider, model, fallbacks) := GetRequestFields req in
  match validateRequestAfterPreRequestHooks req with
  | Some e =>
      Some (mkHandled None (Some (mapErrExtra (populate (br_RequestType req) provider model model) e)) c w [])
  | None =>
      let '(resp, err, c, w) := tryRequest (gateway h) c req w in
      if negb (shouldTryFallbacks req err) then Some (mkHandled resp err c w [(0%Z, err)])
      else
        match err with
        | None => Some (mkHandled resp err c w [(0%Z, err)])
        | Some primaryErr =>
            let n := Z.of_nat (length fallbacks) in
            let c := appendString c KeyRoutingEnginesUsed RoutingEngineCore in
            let c := note h c "info" ("Primary " +:+ (provider +:+ ("/" +:+ (model +:+ (" failed ("
                       +:+ (routingErrorSummary (Some primaryErr) +:+ ("); evaluating "
                       +:+ (Itoa n +:+ " configured fallback(s)")))))))) w in
            tryFallbacks h req provider model primaryErr primaryErr n 1 fallbacks c w [(0%Z, err)]
        end
  end.

End handle.
Arguments Handler : clear implicits.
Arguments Handled : clear implicits.

End Fallback.
