(* ===== verification/FallbackTheory.v ===== *)
(** * Requests with fallbacks: theorems

    What a fallback is sent to, and what the chain of attempts answers. *)

From S2P Require Import Prelude GoStrings Schemas Request Context KeySelection Retry Pipeline Fallback.
Local Open Scope string_scope.
Local Open Scope list_scope.

Module FallbackProofs.
Import Schemas Request Context Retry Pipeline Fallback.

(** ** The request of a fallback *)

Lemma rewritten_shape f :
  shape f = FullShape -> bool_decide (f ∈ rewrittenFields) = negb (bool_decide (f ∈ [FImageEdit; FImageVariation])).
Proof. intros H. destruct f; vm_compute in H |- *; (reflexivity || discriminate). Qed.

(** Where a fallback attempt goes: for every type of request that has
    fallbacks, the request prepared for a configured fallback has the
    fallback's provider and model and is otherwise the same, except image edits
    and image variations: for those the fallback is sent to the primary
    provider and model again. *)
Theorem fallback_target {B} hasConfig (req : BifrostRequest B) f s fb :
  only req f s -> shape f = FullShape -> hasConfig (fb_Provider fb) = true ->
  exists req' s', prepareFallbackRequest hasConfig req fb = Some req' /\ only req' f s' /\
    sub_Body s' = sub_Body s /\ br_RequestType req' = br_RequestType req /\
    GetRequestFields req' =
      (if bool_decide (f ∈ [FImageEdit; FImageVariation]) then GetRequestFields req
       else (fb_Provider fb, fb_Model fb, sub_Fallbacks s)).
Proof.
  intros Ho Hs Hc. unfold prepareFallbackRequest. rewrite Hc. cbn [negb].
  pose proof (rewritten_shape f Hs) as Hr.
  set (s' := if bool_decide (f ∈ rewrittenFields)
             then mkSub (fb_Provider fb) (Some (fb_Model fb)) (sub_Fallbacks s) (sub_Body s) else s).
  assert (forall t, only (mkRequest t (fun g => match br_field req g with
      | Some s => if bool_decide (g ∈ rewrittenFields)
                  then Some (mkSub (fb_Provider fb) (Some (fb_Model fb)) (sub_Fallbacks s) (sub_Body s)) else Some s
      | None => None end)) f s') as Ho'.
  { intros t g. cbn. rewrite (Ho g). destruct (decide (g = f)) as [->|]; [|done].
    subst s'. by destruct (bool_decide (f ∈ rewrittenFields)). }
  eexists _, s'. split; [reflexivity|]. split; [apply Ho'|]. split; [|split; [done|]].
  - subst s'. by destruct (bool_decide (f ∈ rewrittenFields)).
  - rewrite (GetRequestFields_only _ f s' (Ho' _)), (GetRequestFields_only _ f s Ho), Hs. subst s'. rewrite Hr.
    by destruct (bool_decide (f ∈ [FImageEdit; FImageVariation])).
Qed.

Definition editReq : BifrostRequest unit :=
  onlyField "image_edit" FImageEdit (mkSub "openai" (Some "gpt-image") [mkFallback "gemini" "imagen"] tt).

Lemma fallback_target_witness :
  exists req', prepareFallbackRequest (fun _ => true) editReq (mkFallback "gemini" "imagen") = Some req' /\
    GetRequestFields req' = ("openai", "gpt-image", [mkFallback "gemini" "imagen"]).
Proof.
  destruct (fallback_target (fun _ => true) editReq FImageEdit _ (mkFallback "gemini" "imagen")
              (only_onlyField _ _ _) eq_refl eq_refl) as (req' & s' & H1 & _ & _ & _ & H2).
  exists req'. split; [exact H1|]. rewrite H2. vm_compute. reflexivity.
Defined.

(** ** The chain of attempts *)

(** An error after which the chain goes on. *)
Definition continues (e : option BifrostError) : Prop :=
  exists e', e = Some e' /\ isCancelled e' = false /\ be_AllowFallbacks e' <> Some false.

(** The indices of the fallbacks that have a configuration. *)
Fixpoint configured (hasConfig : ModelProvider -> bool) (i : Z) (fbs : list Request.Fallback) : list Z :=
  match fbs with
  | [] => []
  | fb :: fbs => (if hasConfig (fb_Provider fb) then [i] else []) ++ configured hasConfig (i + 1) fbs
  end.

Section chain.
Context {B W : Type} (h : Handler B W).

(** How the fallbacks [l] that were tried out of [idx] answer. *)
Definition chain_end (p : ModelProvider) (m : string) (primaryErr : BifrostError) (idx : list Z)
    (l : list (Z * option BifrostError)) (hd : Handled W) : Prop :=
  (l.*1 = idx /\ Forall continues l.*2 /\ hd_resp hd = None /\ hd_err hd = Some primaryErr) \/
  (exists l' j e rest, l = l' ++ [(j, e)] /\ idx = l.*1 ++ rest /\ Forall continues l'.*2 /\ ~ continues e /\
     hd_err hd = SetFallbackRoutingInfoErr p m <$> e).

Lemma shouldContinue_spec p m e :
  match shouldContinueWithFallbacks (SetFallbackRoutingInfoErr p m e) with
  | None => be_Error e = None
  | Some true => continues (Some e)
  | Some false => ~ continues (Some e)
  end.
Proof.
  unfold shouldContinueWithFallbacks, continues, isCancelled. cbn. destruct (be_Error e) as [f|] eqn:Ef; [|done].
  case_bool_decide as Hc; [|case_bool_decide as Ha].
  - intros (e' & [= <-] & H & _). rewrite Ef in H. cbn in H. by apply bool_decide_eq_false in H.
  - by intros (e' & [= <-] & _ & H).
  - exists e. rewrite Ef. cbn. by rewrite bool_decide_eq_false_2.
Qed.

Lemma continues_none : ~ continues None.
Proof. by intros (e & ? & _). Qed.

Lemma chain_end_cons p m primaryErr j e idx l hd :
  continues e -> chain_end p m primaryErr idx l hd -> chain_end p m primaryErr (j :: idx) ((j, e) :: l) hd.
Proof.
  intros He [(<- & Hc & Hr & Herr)|(l' & k & e' & rest & -> & -> & Hc & Hn & Herr)].
  - left. by split_and!; [|constructor|..].
  - right. exists ((j, e) :: l'), k, e', rest. split_and!; [done|done|by constructor|done|done].
Qed.

Lemma tryFallbacks_spec req p m primaryErr lastErr n i fbs c w done hd :
  tryFallbacks h req p m primaryErr lastErr n i fbs c w done = Some hd ->
  exists l, hd_attempts hd = done ++ l /\ chain_end p m primaryErr (configured (hasConfig h) i fbs) l hd.
Proof.
  revert lastErr i c w done. induction fbs as [|fb fbs IH]; intros lastErr i c w done; cbn -[prepareFallbackRequest].
  { intros [= <-]. exists []. rewrite app_nil_r. split; [done|]. by left. }
  destruct (newUUID h w) as [id w1]. unfold prepareFallbackRequest.
  destruct (hasConfig h (fb_Provider fb)) eqn:Hc; cbn [negb app].
  2: { apply IH. }
  match goal with |- context [tryRequest ?g ?c1 ?r1 ?w2] => destruct (tryRequest g c1 r1 w2) as [[[resp [e|]] c2] w3] end.
  - pose proof (shouldContinue_spec p m e) as Hsc.
    destruct (shouldContinueWithFallbacks _) as [[]|] eqn:Es; [| |done].
    + intros (l & Hl & Hend)%IH. exists ((i, Some e) :: l). rewrite Hl, <-app_assoc. split; [done|].
      by apply chain_end_cons.
    + intros [= <-]. exists [(i, Some e)]. split; [done|]. right.
      exists [], i, (Some e), (configured (hasConfig h) (i + 1) fbs). by split_and!; try constructor.
  - intros [= <-]. exists [(i, None)]. split; [done|]. right.
    exists [], i, None, (configured (hasConfig h) (i + 1) fbs). split_and!; try done; try constructor. apply continues_none.
Qed.

Lemma shouldTry_spec (req : BifrostRequest B) err :
  shouldTryFallbacks req err = true -> continues err /\ exists e, err = Some e.
Proof.
  unfold shouldTryFallbacks. destruct err as [e|]; [|done]. destruct (isCancelled e) eqn:Ec; [done|].
  case_bool_decide; [done|]. intros _. split; [by exists e|by exists e].
Qed.

Lemma shouldTry_false (req : BifrostRequest B) err :
  shouldTryFallbacks req err = false -> ~ continues err \/ (GetRequestFields req).2 = [].
Proof.
  unfold shouldTryFallbacks. destruct err as [e|]; [|left; apply continues_none].
  destruct (isCancelled e) eqn:Ec; [left; intros (e' & [= <-] & Hx & _); congruence|].
  case_bool_decide as Ha; [left; by intros (e' & [= <-] & _ & Hx)|].
  destruct (GetRequestFields req) as [[p m] fbs]. cbn. case_bool_decide as Hf; [done|]. right.
  destruct fbs; [done|]. by destruct Hf.
Qed.

(** A panic of the chain comes from an error of an attempt without its error
    field. *)
Lemma tryFallbacks_panic req p m primaryErr lastErr n i fbs c w acc :
  tryFallbacks h req p m primaryErr lastErr n i fbs c w acc = None ->
  exists c' fb r' w' e, fb ∈ fbs /\ prepareFallbackRequest (hasConfig h) req fb = Some r' /\
    (tryRequest (gateway h) c' r' w').1.1.2 = Some e /\ be_Error e = None.
Proof.
  revert lastErr i c w acc. induction fbs as [|fb fbs IH]; intros lastErr i c w acc; cbn -[prepareFallbackRequest]; [done|].
  assert (forall x, (exists c' fb r' w' e, fb ∈ fbs /\ prepareFallbackRequest (hasConfig h) req fb = Some r' /\
    (tryRequest (gateway h) c' r' w').1.1.2 = Some e /\ be_Error e = None) ->
    exists c' fb r' w' e, fb ∈ x :: fbs /\ prepareFallbackRequest (hasConfig h) req fb = Some r' /\
    (tryRequest (gateway h) c' r' w').1.1.2 = Some e /\ be_Error e = None) as Hlift.
  { intros x (c' & fb' & r' & w' & e & Hin & H). exists c', fb', r', w', e. split; [by right|done]. }
  destruct (newUUID h w) as [id w1].
  destruct (prepareFallbackRequest (hasConfig h) req fb) as [r|] eqn:Ep; [|intros H%IH; by apply Hlift].
  match goal with |- context [tryRequest ?g ?c1 ?r1 ?w2] =>
    destruct (tryRequest g c1 r1 w2) as [[[resp [e|]] c2] w3] eqn:Et end; [|done].
  pose proof (shouldContinue_spec p m e) as Hsc.
  destruct (shouldContinueWithFallbacks _) as [[]|] eqn:Es; [intros H%IH; by apply Hlift|done|].
  intros _. eexists _, fb, r, _, e. split_and!; [by left|done|by rewrite Et|done].
Qed.

(** C1. The chain of attempts.  After the pre-request hooks a request that does
    not validate is answered without an attempt.  Otherwise the primary is tried
    first; without an error the chain may go on from, or without fallbacks, its
    answer is the answer; else the configured fallbacks are tried in their
    order, none skipped, until one succeeds or fails in a way that stops the
    chain, which is then the answer; and when all of them were tried and failed,
    the answer is the primary's error.  The one way to no answer is a fallback
    that fails with an error that lacks its error field: a nil dereference. *)
Theorem fallback_chain c req w c1 req1 w1 :
  enterRequest h c req w = (c1, req1, w1) ->
  let o := tryRequest (gateway h) c1 req1 w1 in
  let '(p, m, fbs) := GetRequestFields req1 in
  match handleRequest h c req w, validateRequestAfterPreRequestHooks req1 with
  | Some hd, Some _ => hd_attempts hd = [] /\ hd_resp hd = None /\ hd_err hd <> None
  | Some hd, None =>
      exists l, hd_attempts hd = (0%Z, o.1.1.2) :: l /\
        ((l = [] /\ hd_err hd = o.1.1.2 /\ hd_resp hd = o.1.1.1 /\ (~ continues o.1.1.2 \/ fbs = [])) \/
         (continues o.1.1.2 /\
          exists e, o.1.1.2 = Some e /\ chain_end p m e (configured (hasConfig h) 1 fbs) l hd))
  | None, _ =>
      exists c' fb r' w' e, fb ∈ fbs /\ prepareFallbackRequest (hasConfig h) req1 fb = Some r' /\
        (tryRequest (gateway h) c' r' w').1.1.2 = Some e /\ be_Error e = None
  end.
Proof.
  intros He. cbv zeta. unfold handleRequest. rewrite He.
  destruct (GetRequestFields req1) as [[p m] fbs] eqn:Ef.
  destruct (validateRequestAfterPreRequestHooks req1) as [ve|]; [by split_and!|].
  destruct (tryRequest (gateway h) c1 req1 w1) as [[[resp err] c2] w2]. cbn [fst snd].
  destruct (shouldTryFallbacks req1 err) eqn:Est; cbn [negb].
  - apply shouldTry_spec in Est as [Hc (e & ->)].
    destruct (tryFallbacks _ _ _ _ _ _ _ _ _ _ _ _) as [hd|] eqn:Eh; [|by eapply tryFallbacks_panic].
    apply tryFallbacks_spec in Eh as (l & Hl & Hend). exists l. split; [done|]. right. eauto.
  - exists []. split; [done|]. left. apply shouldTry_false in Est. rewrite Ef in Est. by split_and!.
Qed.
End chain.

(** ** Runs *)

(** A gateway whose worker answers by the provider of the request. *)
Definition answering (ans : ModelProvider -> Answer) : Gateway unit unit :=
  mkGateway (fun _ => []) (fun _ _ => None) None true (fun _ => None) (fun _ => VNil)
    (fun _ => false) (fun _ _ => false) (fun _ w => (Sent, w)) (fun _ => true) (fun _ => false) (fun _ w => (Sent, w))
    (fun c m w => (ans (GetRequestFields m).1.1, c, w)).

Definition handlerOf (ans : ModelProvider -> Answer) : Handler unit unit :=
  mkHandler (answering ans) (fun p => negb (String.eqb p "unknown")) (fun _ => 0%Z) (fun w => ("id", w)).

Definition chainReq : BifrostRequest unit :=
  onlyField "chat_completion" FChat
    (mkSub "openai" (Some "gpt") [mkFallback "unknown" "x"; mkFallback "groq" "l"; mkFallback "azure" "g"] tt).

Definition byProvider (p : ModelProvider) : Answer :=
  if String.eqb p "groq" then GotResponse (Some (mkResponse None "hi")) else GotError (newBifrostErrorFromMsg "down").

Definition emptyCtx : BifrostContext := mkCtx ∅ ∅ false.

Definition chainRun : option (Handled unit) := handleRequest (handlerOf byProvider) emptyCtx chainReq tt.

Lemma fallback_chain_witness :
  (hd_err <$> chainRun) = Some None /\ ((fun hd => (hd_attempts hd).*1) <$> chainRun) = Some [0; 2]%Z /\
  exists hd e l, chainRun = Some hd /\ hd_attempts hd = (0%Z, e) :: l.
Proof.
  split; [vm_compute; reflexivity|]. split; [vm_compute; reflexivity|].
  assert (isSome : match chainRun with Some _ => true | None => false end = true) by (vm_compute; reflexivity).
  assert (valid : validateRequestAfterPreRequestHooks (enterRequest (handlerOf byProvider) emptyCtx chainReq tt).1.2 = None)
    by (vm_compute; reflexivity).
  destruct (enterRequest (handlerOf byProvider) emptyCtx chainReq tt) as [[c1 req1] w1] eqn:Ee.
  pose proof (fallback_chain (handlerOf byProvider) emptyCtx chainReq tt c1 req1 w1 Ee) as H.
  cbn [fst snd] in valid. rewrite valid in H. cbv zeta in H. destruct (GetRequestFields req1) as [[p m] fbs].
  fold chainRun in H. destruct chainRun as [hd|]; [|discriminate isSome].
  destruct H as (l & Hl & _). eexists hd, _, l. split; [reflexivity|exact Hl].
Defined.

(** An error of a fallback without its error field, which the primary path
    allows for, dereferences a nil pointer. *)
Definition bareError : BifrostError := mkError None false (Some 500%Z) None None emptyExtra.

Lemma fallback_bare_error_panics :
  handleRequest (handlerOf (fun _ => GotError bareError)) emptyCtx chainReq tt = None.
Proof. vm_compute. reflexivity. Qed.

End FallbackProofs.
