(* ===== verification/Gate.v ===== *)
(** * Streaming gate (src/framework/streaming/gate.go)

    The per-stream gate that lets a plugin pause, resume and end the delivery of
    a stream.  Every method of [StreamAccumulator] on the gate runs under its
    mutex: here it is a function on the gate's fields.  The flusher goroutine is
    a program counter that names the places where it has released the mutex; a
    chunk on its way to the client is held by a direct send or by the flusher.
    The size of a chunk on the wire is an argument, as is the text of errors. *)

From S2P Require Import Prelude.

Local Open Scope Z_scope.
Local Open Scope list_scope.

Module Gate.

Inductive StreamState := StreamStateActive | StreamStatePaused | StreamStateEnded.

#[global] Instance StreamState_eq_dec : EqDecision StreamState.
Proof. solve_decision. Defined.

Section Gate.

(** Chunks, with their wire size, and terminal errors. *)
Context {C E : Type}.
Variable chunkBytes : C -> Z.
Variable overflowError : E.

Definition gateReplayBufMaxBytes : Z := 100 * 1024 * 1024.

(** The gate fields of [StreamAccumulator]; [gateFlusherCh] is whether the
    channel and the context have been captured. *)
Record StreamAccumulator := mkSA {
  gateState : StreamState;
  gatePausedAt : Z;
  gatePendingTerminal : bool;
  gateSeq : Z;
  gateReplayBuf : list C;
  gateReplayBufBytes : Z;
  gateReplayEventInterval : Z;
  gateEndError : option E;
  gateFlusherCh : bool;
  gateFlusherOn : bool;
  gatePendingCleanup : bool }.

Definition newAccumulator : StreamAccumulator :=
  mkSA StreamStateActive (-1) false 0 [] 0 0 None false false false.

Definition setState (a : StreamAccumulator) (s : StreamState) : StreamAccumulator :=
  mkSA s (gatePausedAt a) (gatePendingTerminal a) (gateSeq a) (gateReplayBuf a) (gateReplayBufBytes a)
    (gateReplayEventInterval a) (gateEndError a) (gateFlusherCh a) (gateFlusherOn a) (gatePendingCleanup a).

Definition setInterval (a : StreamAccumulator) (i : Z) : StreamAccumulator :=
  mkSA (gateState a) (gatePausedAt a) (gatePendingTerminal a) (gateSeq a) (gateReplayBuf a) (gateReplayBufBytes a)
    i (gateEndError a) (gateFlusherCh a) (gateFlusherOn a) (gatePendingCleanup a).

Definition setBuf (a : StreamAccumulator) (b : list C) (n : Z) : StreamAccumulator :=
  mkSA (gateState a) (gatePausedAt a) (gatePendingTerminal a) (gateSeq a) b n
    (gateReplayEventInterval a) (gateEndError a) (gateFlusherCh a) (gateFlusherOn a) (gatePendingCleanup a).

Definition setPendingTerminal (a : StreamAccumulator) (b : bool) : StreamAccumulator :=
  mkSA (gateState a) (gatePausedAt a) b (gateSeq a) (gateReplayBuf a) (gateReplayBufBytes a)
    (gateReplayEventInterval a) (gateEndError a) (gateFlusherCh a) (gateFlusherOn a) (gatePendingCleanup a).

Definition setEndError (a : StreamAccumulator) (e : option E) : StreamAccumulator :=
  mkSA (gateState a) (gatePausedAt a) (gatePendingTerminal a) (gateSeq a) (gateReplayBuf a) (gateReplayBufBytes a)
    (gateReplayEventInterval a) e (gateFlusherCh a) (gateFlusherOn a) (gatePendingCleanup a).

Definition setFlusherOn (a : StreamAccumulator) (b : bool) : StreamAccumulator :=
  mkSA (gateState a) (gatePausedAt a) (gatePendingTerminal a) (gateSeq a) (gateReplayBuf a) (gateReplayBufBytes a)
    (gateReplayEventInterval a) (gateEndError a) (gateFlusherCh a) b (gatePendingCleanup a).

Definition setPendingCleanup (a : StreamAccumulator) (b : bool) : StreamAccumulator :=
  mkSA (gateState a) (gatePausedAt a) (gatePendingTerminal a) (gateSeq a) (gateReplayBuf a) (gateReplayBufBytes a)
    (gateReplayEventInterval a) (gateEndError a) (gateFlusherCh a) (gateFlusherOn a) b.

(** ** Methods under the mutex *)

Definition Pause (a : StreamAccumulator) : StreamAccumulator :=
  match gateState a with
  | StreamStateActive =>
      mkSA StreamStatePaused (gateSeq a) (gatePendingTerminal a) (gateSeq a) (gateReplayBuf a) (gateReplayBufBytes a)
        0 (gateEndError a) (gateFlusherCh a) (gateFlusherOn a) (gatePendingCleanup a)
  | _ => a
  end.

Definition Resume (a : StreamAccumulator) : StreamAccumulator :=
  match gateState a with
  | StreamStatePaused => setState (setInterval a 0) StreamStateActive
  | _ => a
  end.

Definition ResumeWithReplayInterval (a : StreamAccumulator) (eventInterval : Z) : bool * StreamAccumulator :=
  if negb (bool_decide (gateState a = StreamStatePaused)) || (eventInterval <=? 0) then (false, a)
  else (true, setInterval a eventInterval).

Definition ClearPausedBuffer (a : StreamAccumulator) : bool * StreamAccumulator :=
  if negb (bool_decide (gateState a = StreamStatePaused)) then (false, a)
  else (true, setPendingTerminal (setInterval (setBuf a [] 0) 0) false).

(** [End]; the flusher it starts is recorded by [gateFlusherOn]. *)
Definition End_ (a : StreamAccumulator) (err : option E) : StreamAccumulator :=
  match gateState a with
  | StreamStateEnded => a
  | st =>
      let a := if bool_decide (st = StreamStatePaused) then setInterval a 0 else a in
      let a := setState a StreamStateEnded in
      let a := match err with Some e => setEndError a (Some e) | None => a end in
      if negb (gateFlusherOn a) && gateFlusherCh a &&
         (negb (bool_decide (length (gateReplayBuf a) = 0%nat)) || bool_decide (is_Some (gateEndError a)))
      then setFlusherOn a true else a
  end.

(** What the locked part of [GateSend] decides. *)
Inductive SendOutcome := Refused | Buffered | Direct.

(** The start of [GateSend]: the sequence number and the captured channel. *)
Definition enterGate (a : StreamAccumulator) : StreamAccumulator :=
  mkSA (gateState a) (gatePausedAt a) (gatePendingTerminal a) (gateSeq a + 1) (gateReplayBuf a) (gateReplayBufBytes a)
    (gateReplayEventInterval a) (gateEndError a) true (gateFlusherOn a) (gatePendingCleanup a).

Definition appendBuf (a : StreamAccumulator) (chunk : C) : StreamAccumulator :=
  setBuf a (gateReplayBuf a ++ [chunk]) (gateReplayBufBytes a + chunkBytes chunk).

Definition GateSend (a : StreamAccumulator) (chunk : C) (isFinal isHardErr : bool) : SendOutcome * StreamAccumulator :=
  let a := enterGate a in
  match gateState a with
  | StreamStateEnded => (Refused, a)
  | StreamStatePaused =>
      let size := chunkBytes chunk in
      if gateReplayBufMaxBytes <? gateReplayBufBytes a + size then
        let a := setEndError (setInterval (setState a StreamStateEnded) 0) (Some overflowError) in
        (Refused, if negb (gateFlusherOn a) && gateFlusherCh a then setFlusherOn a true else a)
      else
        let a := appendBuf a chunk in
        let a := if isFinal || isHardErr then setPendingTerminal a true else a in
        let a := setFlusherOn a true in
        (Buffered, if 0 <? gateReplayEventInterval a then setState a StreamStateActive else a)
  | StreamStateActive =>
      if isFinal || isHardErr then
        if gateFlusherOn a || negb (bool_decide (length (gateReplayBuf a) = 0%nat)) then
          (Buffered, setState (appendBuf a chunk) StreamStateEnded)
        else (Direct, setState a StreamStateEnded)
      else if negb (bool_decide (length (gateReplayBuf a) = 0%nat)) then (Buffered, appendBuf a chunk)
      else (Direct, a)
  end.

(** [cleanupStreamAccumulator]: the teardown, deferred while the gate is busy;
    the boolean is whether the accumulator was removed. *)
Definition cleanupStreamAccumulator (a : StreamAccumulator) (forceEndGate : bool) : bool * StreamAccumulator :=
  if negb forceEndGate && (gateFlusherOn a || bool_decide (gateState a = StreamStatePaused)) then (false, setPendingCleanup a true)
  else if forceEndGate && negb (bool_decide (gateState a = StreamStateEnded)) then
    (true, setBuf (setInterval (setEndError (setPendingTerminal (setState a StreamStateEnded) false) None) 0) [] 0)
  else (true, a).

(** ** The flusher *)

(** Where the flusher stands: not running, waiting for work at the head of its
    loop, sending a chunk of the buffer, pacing between two chunks, sending the
    terminal error. *)
Inductive Flusher := FOff | FWait | FSend (chunk : C) | FPace | FErr (e : E).

(** The end of the goroutine: the deferred function. *)
Definition flusherExit (a : StreamAccumulator) : bool * StreamAccumulator * Flusher :=
  let a := setFlusherOn a false in
  if gatePendingCleanup a then let '(r, a) := cleanupStreamAccumulator a false in (r, a, FOff) else (false, a, FOff).

(** After [drainBufferLocked] has returned. *)
Definition afterDrain (a : StreamAccumulator) : bool * StreamAccumulator * Flusher :=
  let a := if gatePendingTerminal a && bool_decide (gateState a = StreamStateActive)
           then setState (setPendingTerminal a false) StreamStateEnded else a in
  match gateState a with
  | StreamStateEnded =>
      match gateEndError a with
      | Some e => (false, setEndError a None, FErr e)
      | None => flusherExit a
      end
  | _ => (false, a, FWait)
  end.

(** The loop of [drainBufferLocked] up to where it releases the mutex. *)
Definition drainBuffer (a : StreamAccumulator) : bool * StreamAccumulator * Flusher :=
  match gateState a, gateReplayBuf a with
  | StreamStatePaused, _ :: _ => afterDrain a
  | _, chunk :: rest => (false, setBuf a rest (Z.max 0 (gateReplayBufBytes a - chunkBytes chunk)), FSend chunk)
  | _, [] => afterDrain (setInterval (setBuf a [] 0) 0)
  end.

(** The head of the loop of [gateFlusher]: [None] while it waits. *)
Definition flusherWake (a : StreamAccumulator) : option (bool * StreamAccumulator * Flusher) :=
  match gateState a with
  | StreamStateEnded => Some (drainBuffer a)
  | StreamStateActive => if bool_decide (length (gateReplayBuf a) = 0%nat) then None else Some (drainBuffer a)
  | StreamStatePaused => None
  end.

(** Delivery or pacing was canceled. *)
Definition drainCanceled (a : StreamAccumulator) : bool * StreamAccumulator * Flusher :=
  afterDrain (setState (setInterval (setBuf a [] 0) 0) StreamStateEnded).

(** A chunk of the buffer was delivered: pace or go on. *)
Definition drainDelivered (a : StreamAccumulator) : bool * StreamAccumulator * Flusher :=
  if negb (bool_decide (length (gateReplayBuf a) = 0%nat)) && (0 <? gateReplayEventInterval a) then (false, a, FPace)
  else drainBuffer a.

(** ** The system *)

(** What the client receives. *)
Inductive Item := Data (chunk : C) | Terminal (e : E).

(** [direct] are the sends of [GateSend] that have left the mutex; [accepted]
    the chunks it took, in order; [discarded] those dropped on purpose (a cleared
    buffer, a gone client). *)
Record System := mkSystem {
  sa : StreamAccumulator;
  flusher : Flusher;
  direct : list C;
  delivered : list Item;
  accepted : list C;
  discarded : list C;
  canceled : bool;
  removed : bool }.

Definition initial : System := mkSystem newAccumulator FOff [] [] [] [] false false.

Inductive Label :=
| LPause | LResume | LResumePaced (i : Z) | LClear | LEnd (err : option E)
| LSend (chunk : C) (isFinal isHardErr : bool)
| LDirectDeliver (i : nat) | LDirectCancel (i : nat)
| LWake | LFlushDeliver | LFlushCancel | LPaceElapsed | LPaceCancel | LErrDeliver | LErrCancel
| LClientGone | LCleanup (force : bool).

(** The flusher after a method that may start it: a goroutine just started is
    about to enter its loop. *)
Definition started (f : Flusher) (a : StreamAccumulator) : Flusher :=
  match f with FOff => if gateFlusherOn a then FWait else FOff | f => f end.

(** A method under the mutex. *)
Definition locked (s : System) (a : StreamAccumulator) (acc disc : list C) (dir : list C) : System :=
  mkSystem a (started (flusher s) a)
    dir (delivered s) acc disc (canceled s) (removed s).

Definition moved (s : System) (r : bool * StreamAccumulator * Flusher) (del : list Item) (disc : list C) : System :=
  let '(rem, a, f) := r in
  mkSystem a f (direct s) del (accepted s) disc (canceled s) (rem || removed s).

Definition step (s : System) (l : Label) : option System :=
  let a := sa s in
  let keep a' := Some (locked s a' (accepted s) (discarded s) (direct s)) in
  match l with
  | LPause => keep (Pause a)
  | LResume => keep (Resume a)
  | LResumePaced i => keep (snd (ResumeWithReplayInterval a i))
  | LClear =>
      let '(ok, a') := ClearPausedBuffer a in
      Some (locked s a' (accepted s) (if ok then discarded s ++ gateReplayBuf a else discarded s) (direct s))
  | LEnd err => keep (End_ a err)
  | LSend chunk isFinal isHardErr =>
      if removed s then None
      else
        let '(o, a') := GateSend a chunk isFinal isHardErr in
        match o with
        | Refused => keep a'
        | Buffered => Some (locked s a' (accepted s ++ [chunk]) (discarded s) (direct s))
        | Direct => Some (locked s a' (accepted s ++ [chunk]) (discarded s) (direct s ++ [chunk]))
        end
  | LDirectDeliver i =>
      c ← direct s !! i;
      Some (mkSystem a (flusher s) (delete i (direct s)) (delivered s ++ [Data c]) (accepted s) (discarded s) (canceled s) (removed s))
  | LDirectCancel i =>
      c ← direct s !! i;
      if canceled s then
        Some (mkSystem a (flusher s) (delete i (direct s)) (delivered s) (accepted s) (discarded s ++ [c]) (canceled s) (removed s))
      else None
  | LWake => match flusher s with
             | FWait => r ← flusherWake a; Some (moved s r (delivered s) (discarded s))
             | _ => None
             end
  | LFlushDeliver => match flusher s with
                     | FSend c => Some (moved s (drainDelivered a) (delivered s ++ [Data c]) (discarded s))
                     | _ => None
                     end
  | LFlushCancel => match flusher s with
                    | FSend c => if canceled s then Some (moved s (drainCanceled a) (delivered s) (discarded s ++ c :: gateReplayBuf a)) else None
                    | _ => None
                    end
  | LPaceElapsed => match flusher s with FPace => Some (moved s (drainBuffer a) (delivered s) (discarded s)) | _ => None end
  | LPaceCancel => match flusher s with
                   | FPace => if canceled s then Some (moved s (drainCanceled a) (delivered s) (discarded s ++ gateReplayBuf a)) else None
                   | _ => None
                   end
  | LErrDeliver => match flusher s with
                   | FErr e => Some (moved s (flusherExit a) (delivered s ++ [Terminal e]) (discarded s))
                   | _ => None
                   end
  | LErrCancel => match flusher s with
                  | FErr _ => if canceled s then Some (moved s (flusherExit a) (delivered s) (discarded s)) else None
                  | _ => None
                  end
  | LClientGone => Some (mkSystem a (flusher s) (direct s) (delivered s) (accepted s) (discarded s) true (removed s))
  | LCleanup force =>
      if removed s then Some s
      else
        let '(r, a') := cleanupStreamAccumulator a force in
        Some (mkSystem a' (flusher s) (direct s) (delivered s) (accepted s)
                (if force && negb (bool_decide (gateState a = StreamStateEnded)) then discarded s ++ gateReplayBuf a else discarded s)
                (canceled s) (removed s || r))
  end.

Fixpoint run (s : System) (ls : list Label) : option System :=
  match ls with
  | [] => Some s
  | l :: ls => s' ← step s l; run s' ls
  end.

Definition reachable (s : System) : Prop := exists ls, run initial ls = Some s.

End Gate.

Arguments StreamAccumulator : clear implicits.
Arguments System : clear implicits.
Arguments Label : clear implicits.

End Gate.
