(* ===== verification/GateTheory.v ===== *)
(** * Properties of the streaming gate

    Over every interleaving of the methods, the flusher, the client and the
    cleanup: no accepted chunk is lost or delivered twice, a buffered chunk
    always has a flusher, the byte counter is the size of the buffer, an ended
    gate drains to the end.  The order of delivery is not kept: the last
    sections give the run. *)

From S2P Require Import Prelude Gate.

Local Open Scope Z_scope.
Local Open Scope list_scope.

Module GateTheory.
Import Gate.

Section Theory.

Context {C E : Type} (chunkBytes : C -> Z) (overflowError : E).
Hypothesis chunkBytes_nonneg : forall c, 0 <= chunkBytes c.

Local Abbreviation SA := (StreamAccumulator C E).
Local Abbreviation System := (System C E).
Local Abbreviation Label := (Label C E).
Local Abbreviation step := (step chunkBytes overflowError).
Local Abbreviation run := (run chunkBytes overflowError).
Local Abbreviation reachable := (reachable chunkBytes overflowError).

Definition total (l : list C) : Z := foldr (fun c n => chunkBytes c + n) 0 l.

Lemma total_app l l' : total (l ++ l') = total l + total l'.
Proof. induction l as [|c l IH]; cbn; [done|]. unfold total in *. lia. Qed.

Lemma total_nonneg l : 0 <= total l.
Proof using chunkBytes_nonneg. induction l as [|c l IH]; cbn; [done|]. pose proof (chunkBytes_nonneg c). unfold total in *. lia. Qed.

(** The chunk the flusher holds. *)
Definition inflight (f : @Flusher C E) : list C := match f with FSend c => [c] | _ => [] end.

Definition datas (l : list (@Item C E)) : list C := omap (fun i => match i with Data c => Some c | Terminal _ => None end) l.

Lemma datas_app l l' : datas (l ++ l') = datas l ++ datas l'.
Proof. apply omap_app. Qed.

(** ** The gate and its flusher *)

Record gate_ok (a : SA) (f : @Flusher C E) : Prop := mkGateOk {
  ok_on : gateFlusherOn a = true <-> f <> FOff;
  ok_buf : gateReplayBuf a <> [] -> f <> FOff;
  ok_bytes : gateReplayBufBytes a = total (gateReplayBuf a);
  ok_err : forall e, f = FErr e -> gateState a = StreamStateEnded /\ gateReplayBuf a = [] }.

Definition result_ok (buf : list C) (r : bool * SA * @Flusher C E) : Prop :=
  let '(_, a, f) := r in gate_ok a f /\ inflight f ++ gateReplayBuf a = buf.

Ltac mk_ok := constructor; cbn; try done; try (by split); try (by intros; simplify_eq); try congruence.

Ltac gate_case := repeat (match goal with
  | |- context [if ?b then _ else _] => destruct b eqn:?
  | |- context [match ?x with _ => _ end] => destruct x eqn:?
  end; cbn in *; try done).

Lemma flusherExit_ok a : gateReplayBuf a = [] -> gateReplayBufBytes a = 0 -> result_ok [] (flusherExit a).
Proof.
  intros Hb Hn. unfold flusherExit, cleanupStreamAccumulator, result_ok. destruct a. cbn in *. subst.
  gate_case; (split; [mk_ok|done]).
Qed.

Lemma afterDrain_ok a : gateFlusherOn a = true -> gateReplayBufBytes a = total (gateReplayBuf a) ->
  (gateState a = StreamStatePaused \/ gateReplayBuf a = []) -> result_ok (gateReplayBuf a) (afterDrain a).
Proof.
  intros Hon Hn Hs. unfold afterDrain. set (a' := if gatePendingTerminal a && bool_decide (gateState a = StreamStateActive) then _ else a).
  assert (gateFlusherOn a' = true /\ gateReplayBufBytes a' = total (gateReplayBuf a') /\ gateReplayBuf a' = gateReplayBuf a /\
    (gateState a' = StreamStateEnded -> gateReplayBuf a' = [])) as (Hon' & Hn' & Hb' & Hs').
  { subst a'. destruct (gatePendingTerminal a && bool_decide (gateState a = StreamStateActive)) eqn:Ec.
    - apply andb_true_iff in Ec as [_ Ec%bool_decide_eq_true]. destruct Hs as [Hs|Hs]; [congruence|]. done.
    - split; [done|]. split; [done|]. split; [done|]. destruct Hs as [Hs|Hs]; [by rewrite Hs|done]. }
  clearbody a'. rewrite <- Hb'. destruct (gateState a') eqn:Est; [by split; [mk_ok|]..|].
  specialize (Hs' eq_refl). rewrite Hs' in *. destruct (gateEndError a') as [e|]; [|by apply flusherExit_ok].
  split; [by mk_ok; rewrite ?Hs'|by cbn; rewrite Hs'].
Qed.

Lemma drainBuffer_ok a : gateFlusherOn a = true -> gateReplayBufBytes a = total (gateReplayBuf a) ->
  result_ok (gateReplayBuf a) (drainBuffer chunkBytes a).
Proof using chunkBytes_nonneg.
  intros Hon Hn. unfold drainBuffer. destruct (gateReplayBuf a) as [|c rest] eqn:Eb.
  - assert (result_ok [] (afterDrain (setInterval (setBuf a [] 0) 0))) as H; [|by destruct (gateState a)].
    apply (afterDrain_ok (setInterval (setBuf a [] 0) 0)); [done|done|by right].
  - destruct (gateState a) eqn:Es.
    2: { rewrite <- Eb. apply afterDrain_ok; [done|by rewrite Eb|by left]. }
    all: unfold result_ok; (split; [|done]); mk_ok; rewrite Hn; cbn;
      pose proof (total_nonneg rest); unfold total in *; lia.
Qed.

(** ** The invariant *)

Record Inv (s : System) : Prop := mkInv {
  inv_gate : gate_ok (sa s) (flusher s);
  inv_conserve : accepted s ≡ₚ datas (delivered s) ++ direct s ++ inflight (flusher s) ++ gateReplayBuf (sa s) ++ discarded s }.

Lemma inv_initial : Inv initial.
Proof. by constructor; [mk_ok|]. Qed.

Lemma inflight_started (f : @Flusher C E) (a : SA) : inflight (started f a) = inflight f.
Proof. destruct f; cbn; try done. by destruct (gateFlusherOn a). Qed.

Lemma started_ok a f a' : gate_ok a f ->
  gateReplayBufBytes a' = total (gateReplayBuf a') ->
  (gateFlusherOn a = true -> gateFlusherOn a' = true) ->
  (gateReplayBuf a' <> [] -> gateFlusherOn a' = true) ->
  (gateState a = StreamStateEnded -> gateReplayBuf a = [] -> gateState a' = StreamStateEnded /\ gateReplayBuf a' = []) ->
  gate_ok a' (started f a').
Proof.
  intros [Hon Hb Hn He] Hn' Hon' Hb' He'. unfold started.
  assert (f <> FOff -> gateFlusherOn a' = true) as Hf by (intros ?%Hon; by apply Hon').
  constructor; [|..|done|].
  - destruct f; try (by split; [|intros _; apply Hf]). by destruct (gateFlusherOn a').
  - intros Hne%Hb'. destruct f; try done. by rewrite Hne.
  - intros e Hfe. destruct f; try done; [by destruct (gateFlusherOn a')|].
    destruct (He _ eq_refl) as [? ?]. by apply He'.
Qed.

(** Methods that leave the buffer alone. *)
Lemma locked_same_inv s a' : Inv s -> gateReplayBuf a' = gateReplayBuf (sa s) -> gateReplayBufBytes a' = gateReplayBufBytes (sa s) ->
  (gateFlusherOn (sa s) = true -> gateFlusherOn a' = true) ->
  (gateState (sa s) = StreamStateEnded -> gateState a' = StreamStateEnded) ->
  Inv (locked s a' (accepted s) (discarded s) (direct s)).
Proof.
  intros [Hg Hc] Hb Hn Hon Hst. constructor; cbn [locked sa flusher accepted discarded direct delivered].
  - apply (started_ok (sa s)); [done|by rewrite Hn, Hb, (ok_bytes _ _ Hg)|done| |].
    + rewrite Hb. intros Hne. apply Hon, (ok_on _ _ Hg), (ok_buf _ _ Hg Hne).
    + intros ? Hnil. by rewrite Hb, Hst.
  - by rewrite inflight_started, Hb.
Qed.

(** Steps of the flusher. *)
Lemma moved_inv s r buf del disc : result_ok buf r ->
  accepted s ≡ₚ datas del ++ direct s ++ buf ++ disc -> Inv (moved s r del disc).
Proof.
  destruct r as [[rem a] f]. intros [Hg <-] Hc. constructor; cbn [moved sa flusher accepted discarded direct delivered]; [done|].
  by rewrite Hc, <- !app_assoc.
Qed.

Lemma drainCanceled_ok a : gateFlusherOn a = true -> result_ok [] (drainCanceled a).
Proof. intros Hon. unfold drainCanceled. apply (afterDrain_ok (setState (setInterval (setBuf a [] 0) 0) StreamStateEnded)); [done|done|by right]. Qed.

Lemma drainDelivered_ok a c : gate_ok a (FSend c) -> result_ok (gateReplayBuf a) (drainDelivered chunkBytes a).
Proof using chunkBytes_nonneg.
  intros Hg. assert (gateFlusherOn a = true) as Hon by (by apply (ok_on _ _ Hg)). pose proof (ok_bytes _ _ Hg) as Hn.
  unfold drainDelivered. destruct (negb _ && _); [|by apply drainBuffer_ok]. by split; [mk_ok|].
Qed.

(** [GateSend] on a gate whose flusher matches its flag. *)
Lemma GateSend_spec a c fin hard o a' : GateSend chunkBytes overflowError a c fin hard = (o, a') ->
  (gateFlusherOn a = true -> gateFlusherOn a' = true) /\
  (gateState a = StreamStateEnded -> gateState a' = StreamStateEnded /\ o = Refused) /\
  match o with
  | Buffered => gateReplayBuf a' = gateReplayBuf a ++ [c] /\ gateReplayBufBytes a' = gateReplayBufBytes a + chunkBytes c /\
      (gateFlusherOn a = true \/ gateReplayBuf a <> [] \/ gateFlusherOn a' = true)
  | _ => gateReplayBuf a' = gateReplayBuf a /\ gateReplayBufBytes a' = gateReplayBufBytes a
  end.
Proof.
  unfold GateSend. destruct a as [st pa pt sq buf nb iv ee ch on pc]. cbn. destruct st; cbn.
  - intros H. destruct (fin || hard); [destruct (on || _) eqn:Eo|destruct (negb _) eqn:Eo]; cbn in H; injection H as <- <-; cbn; try done.
    + split; [done|]. split; [done|]. split; [done|]. split; [done|].
      apply orb_true_iff in Eo as [->|Eo]; [by left|]. right. left. by destruct buf.
    + split; [done|]. split; [done|]. split; [done|]. split; [done|]. right. left. by destruct buf.
  - destruct (gateReplayBufMaxBytes <? _).
    + intros [= <- <-]. destruct on; cbn; done.
    + intros [= <- <-]. destruct (fin || hard), (0 <? iv) eqn:Ei; cbn; rewrite ?Ei; cbn; (split; [done|]; split; [done|]; split; [done|]; split; [done|]; by right; right).
  - intros [= <- <-]. done.
Qed.

Lemma send_inv s c fin hard s' : Inv s -> step s (LSend c fin hard) = Some s' -> Inv s'.
Proof.
  intros Hi H. cbn in H. destruct (removed s); [done|].
  destruct (GateSend chunkBytes overflowError (sa s) c fin hard) as [o a'] eqn:Eg.
  apply GateSend_spec in Eg as (Hon & Hst & Ho). destruct Hi as [Hg Hc].
  assert (gateReplayBuf (sa s) <> [] -> gateFlusherOn (sa s) = true) as Hbon by (intros Hne; apply (ok_on _ _ Hg), (ok_buf _ _ Hg Hne)).
  destruct o; injection H as <-; destruct Ho as [Hb Hn].
  - apply locked_same_inv; [by constructor|done..|by intros [? _]%Hst].
  - destruct Hn as [Hn Hor]. constructor; cbn [locked sa flusher accepted discarded direct delivered].
    + apply (started_ok (sa s)); [done|rewrite Hn, Hb, total_app, (ok_bytes _ _ Hg); cbn; lia|done| |by intros [_ ?]%Hst].
      intros _. destruct Hor as [|[|]]; auto.
    + rewrite inflight_started, Hb, Hc. solve_Permutation.
  - constructor; cbn [locked sa flusher accepted discarded direct delivered].
    + apply (started_ok (sa s)); [done|by rewrite Hn, Hb, (ok_bytes _ _ Hg)|done| |by intros [_ ?]%Hst]. rewrite Hb. auto.
    + rewrite inflight_started, Hb, Hc. solve_Permutation.
Qed.

(** Removing the i-th direct send. *)
Lemma direct_split {A} (l : list A) i x : l !! i = Some x -> l ≡ₚ x :: delete i l.
Proof. apply delete_Permutation. Qed.

Lemma cleanup_inv s force s' : Inv s -> step s (LCleanup force) = Some s' -> Inv s'.
Proof.
  intros Hi H. cbn in H. destruct (removed s); [by injection H as <-|]. destruct Hi as [Hg Hc].
  unfold cleanupStreamAccumulator in H.
  destruct (negb force && _) eqn:E1; [|destruct (force && _) eqn:E2]; injection H as <-;
    constructor; cbn [sa flusher accepted discarded direct delivered].
  - destruct Hg. by constructor.
  - assert (force && negb (bool_decide (gateState (sa s) = StreamStateEnded)) = false) as ->; [|done]. by destruct force.
  - destruct Hg as [Hon Hb Hn He]. by constructor; cbn.
  - rewrite Hc. cbn [gateReplayBuf setBuf]. solve_Permutation.
  - done.
  - done.
Qed.

(** The steps of the flusher goroutine. *)
Definition by_flusher (l : Label) : Prop :=
  match l with
  | LWake | LFlushDeliver | LFlushCancel | LPaceElapsed | LPaceCancel | LErrDeliver | LErrCancel => True
  | _ => False
  end.

Lemma flusher_inv s l s' : Inv s -> by_flusher l ->
  step s l = Some s' -> Inv s'.
Proof using chunkBytes_nonneg.
  intros [Hg Hc] Hl H. pose proof (ok_bytes _ _ Hg) as Hn. pose proof (ok_on _ _ Hg) as Hon.
  assert (flusher s <> FOff -> result_ok (gateReplayBuf (sa s)) (drainBuffer chunkBytes (sa s))) as Hd
    by (intros ?%Hon; by apply drainBuffer_ok).
  destruct l; try done; cbn in H;
    destruct (flusher s) as [| |c| |e] eqn:Ef; try done.
  - unfold flusherWake in H. destruct (gateState (sa s)) eqn:Es; [case_bool_decide; [done|]|done|]; injection H as <-;
      (eapply moved_inv; [by apply Hd|by rewrite Hc]).
  - injection H as <-. eapply moved_inv; [by eapply drainDelivered_ok|]. rewrite Hc, datas_app. cbn. solve_Permutation.
  - destruct (canceled s); [|done]. injection H as <-. eapply moved_inv; [by apply drainCanceled_ok, Hon|].
    rewrite Hc. cbn. solve_Permutation.
  - injection H as <-. eapply moved_inv; [by apply Hd|by rewrite Hc].
  - destruct (canceled s); [|done]. injection H as <-. eapply moved_inv; [by apply drainCanceled_ok, Hon|].
    rewrite Hc. cbn. solve_Permutation.
  - destruct (ok_err _ _ Hg _ eq_refl) as [_ Hb]. injection H as <-. eapply moved_inv; [apply flusherExit_ok; [done|by rewrite Hn, Hb]|].
    rewrite Hc, datas_app, Hb. cbn. by rewrite !app_nil_r.
  - destruct (canceled s); [|done]. destruct (ok_err _ _ Hg _ eq_refl) as [_ Hb]. injection H as <-.
    eapply moved_inv; [apply flusherExit_ok; [done|by rewrite Hn, Hb]|]. by rewrite Hc, Hb.
Qed.

Lemma End_spec (a : SA) err : gateReplayBuf (End_ a err) = gateReplayBuf a /\ gateReplayBufBytes (End_ a err) = gateReplayBufBytes a /\
  (gateFlusherOn a = true -> gateFlusherOn (End_ a err) = true) /\ gateState (End_ a err) = StreamStateEnded.
Proof.
  unfold End_. destruct (gateState a) eqn:Es; [..|done]; destruct err; cbn;
    repeat (case_match; cbn; try done).
Qed.

Lemma method_inv s l s' : Inv s -> (l = LPause \/ l = LResume \/ (exists i, l = LResumePaced i) \/ l = LClear \/ (exists e, l = LEnd e)) ->
  step s l = Some s' -> Inv s'.
Proof.
  intros Hi Hl H. pose proof Hi as [Hg Hc].
  destruct Hl as [->|[->|[[i ->]|[->|[e ->]]]]]; cbn in H.
  - injection H as <-. apply locked_same_inv; [done|unfold Pause; destruct (gateState (sa s)) eqn:Hst; cbn; done || congruence..].
  - injection H as <-. apply locked_same_inv; [done|unfold Resume; destruct (gateState (sa s)) eqn:Hst; cbn; done || congruence..].
  - injection H as <-. apply locked_same_inv; [done|unfold ResumeWithReplayInterval; by destruct (_ || _)..].
  - unfold ClearPausedBuffer in H. destruct (negb _) eqn:Ec; injection H as <-; [by apply locked_same_inv|].
    apply negb_false_iff, bool_decide_eq_true in Ec. constructor; cbn [locked sa flusher accepted discarded direct delivered].
    + apply (started_ok (sa s)); try done; by rewrite Ec.
    + rewrite inflight_started, Hc. cbn. solve_Permutation.
  - injection H as <-. destruct (End_spec (sa s) e) as (? & ? & ? & ?). by apply locked_same_inv.
Qed.

(** Every step keeps the invariant. *)
Lemma gate_step_inv s l s' : Inv s -> step s l = Some s' -> Inv s'.
Proof using chunkBytes_nonneg.
  intros Hi H. destruct l; try (refine (flusher_inv _ _ _ Hi _ H); exact I); try (by eapply method_inv; [done| |done]; eauto 7).
  - by eapply send_inv.
  - cbn in H. destruct (direct s !! i) as [c|] eqn:Ed; [|done]. injection H as <-. destruct Hi as [Hg Hc]. constructor; [done|].
    cbn. apply direct_split in Ed. revert Ed. generalize (delete i (direct s)). intros rest Ed.
    rewrite Hc, datas_app, Ed. cbn. solve_Permutation.
  - cbn in H. destruct (direct s !! i) as [c|] eqn:Ed; [|done]. cbn in H. destruct (canceled s); [|done]. injection H as <-.
    destruct Hi as [Hg Hc]. constructor; [done|]. cbn. apply direct_split in Ed. revert Ed. generalize (delete i (direct s)). intros rest Ed.
    rewrite Hc, Ed. cbn. solve_Permutation.
  - injection H as <-. by destruct Hi.
  - by eapply cleanup_inv.
Qed.

Lemma run_inv ls s s' : Inv s -> run s ls = Some s' -> Inv s'.
Proof using chunkBytes_nonneg.
  revert s. induction ls as [|l ls IH]; intros s Hi H; cbn in H; [by injection H as <-|].
  destruct (step s l) as [s1|] eqn:Es; [|done]. eapply IH; [by eapply gate_step_inv|done].
Qed.

Lemma reachable_inv s : reachable s -> Inv s.
Proof using chunkBytes_nonneg. intros [ls H]. eapply run_inv; [apply inv_initial|done]. Qed.

(** C27. No accepted chunk is lost or delivered twice: each is with the client, in a
    send, in the buffer or was discarded on purpose.  What is buffered has a
    running flusher, and the counter is the size of the buffer. *)
Theorem gate_conserves s : reachable s ->
  accepted s ≡ₚ datas (delivered s) ++ direct s ++ inflight (flusher s) ++ gateReplayBuf (sa s) ++ discarded s /\
  (gateReplayBuf (sa s) <> [] -> flusher s <> FOff) /\
  gateReplayBufBytes (sa s) = total (gateReplayBuf (sa s)).
Proof using chunkBytes_nonneg. intros [[_ Hb Hn _] Hc]%reachable_inv. done. Qed.

(** ** Draining an ended gate *)

Lemma gate_run_app ls ls' s s' s'' : run s ls = Some s' -> run s' ls' = Some s'' -> run s (ls ++ ls') = Some s''.
Proof.
  revert s. induction ls as [|l ls IH]; intros s H H'; cbn in *; [by injection H as ->|].
  destruct (step s l) as [s1|]; [by apply IH|done].
Qed.

(** Steps of the flusher that do not need the client to be gone. *)
Definition flusher_label (l : Label) : Prop := l = LWake \/ l = LFlushDeliver \/ l = LPaceElapsed \/ l = LErrDeliver.

Definition drained (s s' : System) (buf : list C) (err : option E) : Prop :=
  flusher s' = FOff /\ gateReplayBuf (sa s') = [] /\ delivered s' = delivered s ++ (Data <$> buf) ++ (Terminal <$> option_list err).

Lemma exit_drained s a del err : gateReplayBuf a = [] -> del = delivered s ++ (Terminal <$> option_list err) ->
  drained s (moved s (flusherExit a) del (discarded s)) [] err.
Proof.
  intros Hb ->. unfold flusherExit, cleanupStreamAccumulator, drained. cbn [setFlusherOn gatePendingCleanup gateFlusherOn orb negb andb].
  destruct (gatePendingCleanup a); [|done].
  by destruct (bool_decide (gateState (setFlusherOn a false) = StreamStatePaused)).
Qed.

Lemma drain_run buf : forall s, gateState (sa s) = StreamStateEnded -> gateReplayBuf (sa s) = buf ->
  exists ls s', Forall flusher_label ls /\
    run (moved s (drainBuffer chunkBytes (sa s)) (delivered s) (discarded s)) ls = Some s' /\ drained s s' buf (gateEndError (sa s)).
Proof.
  induction buf as [|c buf IH]; intros s Hst Hb; unfold drainBuffer; rewrite Hst, Hb.
  - unfold afterDrain. cbn [setInterval setBuf gatePendingTerminal gateState]. rewrite Hst, andb_false_r. cbn [setInterval setBuf gateState gateEndError].
    rewrite Hst. destruct (gateEndError (sa s)) as [e|] eqn:Ee.
    + eexists [LErrDeliver], _. split; [by constructor; [right; right; right|]|]. split; [done|].
      match goal with |- drained s (moved ?s1 (flusherExit ?a) ?del _) _ _ => pose proof (exit_drained s1 a del (Some e) eq_refl eq_refl) as (H1 & H2 & H3) end.
      done.
    + eexists [], _. split; [constructor|]. split; [done|]. by apply exit_drained; [|cbn; rewrite app_nil_r].
  - set (s1 := moved s (false, _, FSend c) _ _).
    set (s2 := mkSystem (sa s1) (flusher s1) (direct s1) (delivered s1 ++ [Data c]) (accepted s1) (discarded s1) (canceled s1) (removed s1)).
    destruct (IH s2 Hst eq_refl) as (ls & s' & Hl & Hrun & H1 & H2 & H3).
    assert (exists pre, Forall flusher_label pre /\ run s1 pre = Some (moved s2 (drainBuffer chunkBytes (sa s2)) (delivered s2) (discarded s2))) as (pre & Hp & Hrp).
    { destruct (negb (bool_decide (length buf = 0%nat)) && (0 <? gateReplayEventInterval (sa s))) eqn:Ep.
      - exists [LFlushDeliver; LPaceElapsed]. split; [constructor; [by right; left|constructor; [by right; right; left|constructor]]|].
        unfold s1, moved. cbn -[drainBuffer]. unfold drainDelivered. cbn -[drainBuffer]. rewrite Ep. done.
      - exists [LFlushDeliver]. split; [constructor; [by right; left|constructor]|].
        unfold s1, moved. cbn -[drainBuffer]. unfold drainDelivered. cbn -[drainBuffer]. rewrite Ep. done. }
    exists (pre ++ ls), s'. split; [by apply Forall_app|]. split; [by eapply gate_run_app|]. split; [done|]. split; [done|].
    rewrite H3. cbn. by rewrite <- app_assoc.
Qed.

(** An ended gate drains: the flusher alone delivers the whole buffer, in
    order, then the terminal error, and exits. *)
Theorem ended_gate_drains s : gateState (sa s) = StreamStateEnded -> flusher s = FWait ->
  exists ls s', Forall flusher_label ls /\ run s ls = Some s' /\ drained s s' (gateReplayBuf (sa s)) (gateEndError (sa s)).
Proof.
  intros Hst Hf. destruct (drain_run (gateReplayBuf (sa s)) s Hst eq_refl) as (ls & s' & Hl & Hrun & Hd).
  exists (LWake :: ls), s'. split; [constructor; [by left|done]|]. split; [|done].
  cbn [run Gate.run]. cbn -[drainBuffer]. rewrite Hf. unfold flusherWake. rewrite Hst. done.
Qed.

(** ** Order of delivery *)

(** One producer, which waits for its direct send; no chunk goes direct while
    the flusher holds one; nothing is discarded. *)
Definition calm (s : System) (l : Label) : Prop :=
  match l with
  | LSend c fin hard => direct s = [] /\
      (fst (GateSend chunkBytes overflowError (sa s) c fin hard) = Direct -> inflight (flusher s) = [])
  | LClear | LClientGone | LCleanup true => False
  | _ => True
  end.

Fixpoint calm_run (s : System) (ls : list Label) : Prop :=
  match ls with
  | [] => True
  | l :: ls => calm s l /\ forall s', step s l = Some s' -> calm_run s' ls
  end.

Record Ordered (s : System) : Prop := mkOrdered {
  ord_list : accepted s = datas (delivered s) ++ direct s ++ inflight (flusher s) ++ gateReplayBuf (sa s);
  ord_direct : direct s = [] \/ (exists c, direct s = [c]) /\ inflight (flusher s) = [] /\ gateReplayBuf (sa s) = [];
  ord_client : canceled s = false }.

Lemma GateSend_direct a c fin hard a' : GateSend chunkBytes overflowError a c fin hard = (Direct, a') -> gateReplayBuf a = [].
Proof.
  unfold GateSend. destruct a as [st pa pt sq buf nb iv ee ch on pc]. cbn. destruct st; cbn.
  - destruct buf; [done|]. cbn. rewrite orb_true_r. by destruct (fin || hard).
  - by destruct (gateReplayBufMaxBytes <? _).
  - done.
Qed.

Lemma moved_ordered s r buf del disc : result_ok buf r -> canceled s = false ->
  (direct s = [] \/ (exists c, direct s = [c]) /\ buf = []) ->
  accepted s = datas del ++ direct s ++ buf -> Ordered (moved s r del disc).
Proof.
  destruct r as [[rem a] f]. intros [_ <-] Hcl Hd Ha. constructor; cbn [moved sa flusher accepted direct delivered canceled]; [done| |done].
  destruct Hd as [?|[? [? ?]%app_eq_nil]]; [by left|by right].
Qed.

Lemma locked_ordered s a' : Ordered s -> gateReplayBuf a' = gateReplayBuf (sa s) ->
  Ordered (locked s a' (accepted s) (discarded s) (direct s)).
Proof.
  intros [Hl Hd Hcl] Hb. by constructor; cbn [locked sa flusher accepted discarded direct delivered canceled]; rewrite ?inflight_started, ?Hb.
Qed.

Lemma send_ordered s c fin hard s' : Ordered s -> calm s (LSend c fin hard) -> step s (LSend c fin hard) = Some s' -> Ordered s'.
Proof.
  intros Ho [Hd Hdir] H. cbn in H. destruct (removed s); [done|]. pose proof Ho as [Hl _ Hcl].
  destruct (GateSend chunkBytes overflowError (sa s) c fin hard) as [o a'] eqn:Eg.
  pose proof (GateSend_spec _ _ _ _ _ _ Eg) as (_ & _ & Hs). destruct o; injection H as <-.
  - destruct Hs. by apply locked_ordered.
  - destruct Hs as [Hb _]. constructor; cbn [locked sa flusher accepted discarded direct delivered canceled]; [|by left|done].
    by rewrite inflight_started, Hb, Hl, Hd, <- !app_assoc.
  - destruct Hs as [Hb _]. apply GateSend_direct in Eg. specialize (Hdir eq_refl).
    constructor; cbn [locked sa flusher accepted discarded direct delivered canceled]; rewrite ?inflight_started, ?Hb, ?Eg, ?Hd; [|right; eauto|done].
    by rewrite Hl, Hd, Hdir, Eg, !app_nil_r.
Qed.

Lemma flusher_ordered s l s' : Inv s -> Ordered s ->
  by_flusher l -> step s l = Some s' -> Ordered s'.
Proof using chunkBytes_nonneg.
  intros [Hg _] [Ho Hd Hcl] Hl H. pose proof (ok_bytes _ _ Hg) as Hn. pose proof (ok_on _ _ Hg) as Hon.
  assert (flusher s <> FOff -> result_ok (gateReplayBuf (sa s)) (drainBuffer chunkBytes (sa s))) as Hdr
    by (intros ?%Hon; by apply drainBuffer_ok).
  destruct l; try done; cbn in H;
    destruct (flusher s) as [| |c| |e] eqn:Ef; try done; rewrite ?Hcl in H; try done; cbn [inflight app] in Ho, Hd.
  - unfold flusherWake in H. destruct (gateState (sa s)) eqn:Es; [case_bool_decide; [done|]|done|]; injection H as <-;
      (eapply moved_ordered; [by apply Hdr|done|by destruct Hd as [?|(? & ? & ?)]; [left|right]|done]).
  - injection H as <-. eapply moved_ordered; [by eapply drainDelivered_ok|done|by destruct Hd as [?|(? & ? & ?)]; [left|right]|].
    destruct Hd as [Hd|[_ [? _]]]; [|done]. by rewrite Ho, datas_app, Hd, <- app_assoc.
  - injection H as <-. eapply moved_ordered; [by apply Hdr|done|by destruct Hd as [?|(? & ? & ?)]; [left|right]|done].
  - destruct (ok_err _ _ Hg _ eq_refl) as [_ Hb]. injection H as <-. eapply moved_ordered; [apply flusherExit_ok; [done|by rewrite Hn, Hb]|done|by destruct Hd as [?|(? & ? & ?)]; [left|right]|].
    rewrite Ho, datas_app, Hb. cbn. by rewrite !app_nil_r.
Qed.

Lemma step_ordered s l s' : Inv s -> Ordered s -> calm s l -> step s l = Some s' -> Ordered s'.
Proof using chunkBytes_nonneg.
  intros Hi Ho Hcalm H. pose proof Ho as [Hl Hd Hcl].
  destruct l; try done; try (refine (flusher_ordered _ _ _ Hi Ho _ H); exact I).
  - injection H as <-. apply locked_ordered; [done|]. unfold Pause. by destruct (gateState (sa s)).
  - injection H as <-. apply locked_ordered; [done|]. unfold Resume. by destruct (gateState (sa s)).
  - injection H as <-. apply locked_ordered; [done|]. unfold ResumeWithReplayInterval. by destruct (_ || _).
  - injection H as <-. apply locked_ordered; [done|]. apply End_spec.
  - by eapply send_ordered.
  - cbn in H. destruct Hd as [Hd|[[c Hd] [Hf Hb]]]; rewrite Hd in H; [done|]. destruct i as [|i]; [|done]. injection H as <-.
    constructor; cbn [sa flusher accepted direct delivered canceled]; [|by left|done].
    rewrite Hl, datas_app, Hd, Hf, Hb. cbn. by rewrite !app_nil_r.
  - cbn in H. rewrite Hcl in H. by destruct (direct s !! i).
  - cbn in H. destruct (removed s); [by injection H as <-|]. destruct force; [done|]. cbn in H.
    unfold cleanupStreamAccumulator in H. cbn [negb andb] in H. destruct (gateFlusherOn (sa s) || _); injection H as <-; by constructor.
Qed.

(** Outside that window the client receives the chunks in the order in which
    they were accepted. *)
Theorem calm_run_ordered ls s : run initial ls = Some s -> calm_run initial ls ->
  accepted s = datas (delivered s) ++ direct s ++ inflight (flusher s) ++ gateReplayBuf (sa s).
Proof using chunkBytes_nonneg.
  assert (forall s0, Inv s0 -> Ordered s0 -> run s0 ls = Some s -> calm_run s0 ls -> Ordered s) as H.
  { induction ls as [|l ls IH]; intros s0 Hi Ho H Hc; cbn in H; [by injection H as <-|].
    destruct Hc as [Hc1 Hc2]. destruct (step s0 l) as [s1|] eqn:Es; [|done].
    eapply IH; [by eapply gate_step_inv|by eapply step_ordered|done|by apply Hc2]. }
  intros Hr Hc. eapply ord_list, H; [apply inv_initial| |done|done]. constructor; [done|by left|done].
Qed.

End Theory.

(** ** Concrete runs: chunks are their sizes *)

Definition demo_run (ls : list (Label Z Z)) : option (System Z Z) := run id 0 initial ls.

(** A chunk sent while the flusher holds the last buffered one overtakes it:
    the flusher has taken it off the buffer, which is all [GateSend] looks at. *)
Theorem live_chunk_overtakes :
  (fun s => (accepted s, delivered s)) <$>
    demo_run [LPause; LSend 1 false false; LResume; LWake; LSend 2 false false; LDirectDeliver 0; LFlushDeliver] =
  Some ([1; 2], [Data 2; Data 1]).
Proof. by vm_compute. Qed.

(** The cap of the replay buffer is tested only while the gate is paused: after
    a resume chunks are added behind a slow drain without a bound. *)
Theorem cap_not_tested_active :
  (fun s => gateReplayBufMaxBytes <? gateReplayBufBytes (sa s)) <$>
    demo_run [LPause; LSend 60000000 false false; LResume; LSend 60000000 false false] = Some true.
Proof. by vm_compute. Qed.

Definition demo_labels : list (Label Z Z) := [LPause; LSend 1 false false; LSend 2 true false; LEnd (Some 7)].
Definition demo_state : System Z Z := default initial (demo_run demo_labels).

Lemma gate_demo_reachable : reachable Z.abs 0 (default initial (run Z.abs 0 initial demo_labels)).
Proof. exists demo_labels. vm_compute. reflexivity. Qed.

Lemma gate_conserves_witness :
  let s := default initial (run Z.abs 0 initial demo_labels) in
  accepted s ≡ₚ datas (delivered s) ++ direct s ++ inflight (flusher s) ++ gateReplayBuf (sa s) ++ discarded s /\
  (gateReplayBuf (sa s) <> [] -> flusher s <> FOff) /\ gateReplayBufBytes (sa s) = total Z.abs (gateReplayBuf (sa s)).
Proof. apply (gate_conserves Z.abs 0 Z.abs_nonneg). exact gate_demo_reachable. Defined.

Lemma ended_gate_drains_witness : exists ls s', Forall flusher_label ls /\ run id 0 demo_state ls = Some s' /\
  drained demo_state s' [1; 2] (Some 7).
Proof. apply (ended_gate_drains id 0 demo_state); by vm_compute. Defined.

Lemma calm_run_ordered_witness :
  let s := default initial (run Z.abs 0 initial [LSend 1 false false; LDirectDeliver 0; LPause; LSend 2 false false]) in
  accepted s = datas (delivered s) ++ direct s ++ inflight (flusher s) ++ gateReplayBuf (sa s) /\ accepted s = [1; 2].
Proof.
  split; [|by vm_compute].
  apply (calm_run_ordered Z.abs 0 Z.abs_nonneg [LSend 1 false false; LDirectDeliver 0; LPause; LSend 2 false false]); [by vm_compute|].
  repeat (split; [by vm_compute|]; intros ? [= <-]). done.
Defined.

End GateTheory.
