(* ===== verification/ProviderQueue.v ===== *)
(** * Provider queues and their life cycle (src/core/bifrost.go)

    The request queue of a provider, its workers, the producers that enqueue,
    and the operations that replace or remove it, as a transition system over
    explicit interleavings.  A [ProviderQueue] is created together with its wait
    group and workers: one [Generation].  A generation is known by its position
    in the list of all that were created, which is its pointer.

    A channel operation, an atomic load or store, and the body of a critical
    section of the provider mutex that has no channel operation are one step.
    A message is the number of the thread that made it; [sent], [answered] and
    [abandoned] record what became of it.  An answer goes into a channel of
    capacity one that belongs to the message, or nowhere when the caller has
    gone: sending it never blocks, and counts as answered.  The capacity of a
    queue is positive. *)

From S2P Require Import Prelude.

Local Open Scope list_scope.

Module ProviderQueue.

Definition Key := string.
Definition Msg := nat.

(** ** Queues and workers *)

(** A worker of [requestWorkerServe]: in its select, processing a message,
    draining after [done], returned. *)
Inductive Worker := WIdle | WServing (m : Msg) | WDraining | WExited.

Inductive OnceState := OnceNotRun | OnceRunning | OnceDone.

#[global] Instance Worker_eq_dec : EqDecision Worker.
Proof. solve_decision. Defined.
#[global] Instance OnceState_eq_dec : EqDecision OnceState.
Proof. solve_decision. Defined.

(** [g_wg] is the counter of the wait group; [g_swept] is set when
    [drainQueueWithErrors] has returned. *)
Record Generation := mkGen {
  g_queue : list Msg;
  g_cap : nat;
  g_closing : bool;
  g_done : bool;
  g_once : OnceState;
  g_wg : nat;
  g_workers : list Worker;
  g_swept : bool }.

(** The queue, the wait group and the workers that [prepareProvider] and
    [UpdateProvider] create. *)
Definition newGeneration (buffer concurrency : nat) : Generation :=
  mkGen [] buffer false false OnceNotRun concurrency (replicate concurrency WIdle) false.

Definition setQueue (g : Generation) (l : list Msg) : Generation :=
  mkGen l (g_cap g) (g_closing g) (g_done g) (g_once g) (g_wg g) (g_workers g) (g_swept g).

Definition setWorker (g : Generation) (i : nat) (w : Worker) : Generation :=
  mkGen (g_queue g) (g_cap g) (g_closing g) (g_done g) (g_once g) (g_wg g) (<[i := w]> (g_workers g)) (g_swept g).

(** A worker returns: the deferred [waitGroup.Done()]. *)
Definition workerExit (g : Generation) (i : nat) : Generation :=
  mkGen (g_queue g) (g_cap g) (g_closing g) (g_done g) (g_once g) (g_wg g - 1) (<[i := WExited]> (g_workers g)) (g_swept g).

(** The two halves of [signalClosing] inside its [sync.Once]. *)
Definition storeClosing (g : Generation) : Generation :=
  mkGen (g_queue g) (g_cap g) true (g_done g) OnceRunning (g_wg g) (g_workers g) (g_swept g).

Definition closeDone (g : Generation) : Generation :=
  mkGen (g_queue g) (g_cap g) (g_closing g) true OnceDone (g_wg g) (g_workers g) (g_swept g).

Definition setSwept (g : Generation) : Generation :=
  mkGen (g_queue g) (g_cap g) (g_closing g) (g_done g) (g_once g) (g_wg g) (g_workers g) true.

(** ** Threads *)

(** A producer in [tryRequest], from the queue it was given on. *)
Inductive ProducerPc :=
| PHave (q : nat) | PTry (q : nat) | PBlock (q : nat) | PWait | PFailed.

(** [RemoveProvider], after the provider mutex is taken. *)
Inductive RemoverPc := RSignal | RClose | RWait | RDrain | RRetired | RReturned.

#[global] Instance RemoverPc_eq_dec : EqDecision RemoverPc.
Proof. solve_decision. Defined.

(** [UpdateProvider], after the new generation is published; [UHold] and
    [UCancel] hold the message taken off the old queue. *)
Inductive UpdaterPc :=
| UTransfer | UHold (m : Msg) | UCancelRest | URetire | USignal | UClose | UReturned.

(** The cleanup goroutine of [UpdateProvider]. *)
Inductive CleanerPc := CWait | CDrain | CReturned.

Inductive Thread :=
| TProducer (k : Key) (pc : ProducerPc)
| TRemover (k : Key) (q : nat) (pc : RemoverPc)
| TUpdater (k : Key) (old new : nat) (pc : UpdaterPc)
| TCleaner (k : Key) (q : nat) (pc : CleanerPc).

(** ** The gateway *)

(** [requestQueues] and [waitGroups] map a provider to its generation;
    [mutexes] has the providers whose write lock is held; [retired] counts the
    cleanups of [retiredWorkerWaits] under way; [late] are the messages that
    were put into a queue after its sweep. *)
Record State := mkState {
  gens : list Generation;
  requestQueues : gmap Key nat;
  waitGroups : gmap Key nat;
  mutexes : gset Key;
  retired : gmap Key nat;
  threads : list Thread;
  sent : list Msg;
  answered : list Msg;
  abandoned : list Msg;
  late : list Msg }.

Definition initial : State := mkState [] ∅ ∅ ∅ ∅ [] [] [] [] [].

Definition setGen (s : State) (q : nat) (g : Generation) : State :=
  mkState (<[q := g]> (gens s)) (requestQueues s) (waitGroups s) (mutexes s) (retired s) (threads s) (sent s) (answered s) (abandoned s) (late s).

Definition setThread (s : State) (t : nat) (th : Thread) : State :=
  mkState (gens s) (requestQueues s) (waitGroups s) (mutexes s) (retired s) (<[t := th]> (threads s)) (sent s) (answered s) (abandoned s) (late s).

Definition addThread (s : State) (th : Thread) : State :=
  mkState (gens s) (requestQueues s) (waitGroups s) (mutexes s) (retired s) (threads s ++ [th]) (sent s) (answered s) (abandoned s) (late s).

Definition answer (s : State) (m : Msg) : State :=
  mkState (gens s) (requestQueues s) (waitGroups s) (mutexes s) (retired s) (threads s) (sent s) (answered s ++ [m]) (abandoned s) (late s).

Definition abandon (s : State) (m : Msg) : State :=
  mkState (gens s) (requestQueues s) (waitGroups s) (mutexes s) (retired s) (threads s) (sent s) (answered s) (abandoned s ++ [m]) (late s).

Definition lock (s : State) (k : Key) : State :=
  mkState (gens s) (requestQueues s) (waitGroups s) ({[k]} ∪ mutexes s) (retired s) (threads s) (sent s) (answered s) (abandoned s) (late s).

Definition unlock (s : State) (k : Key) : State :=
  mkState (gens s) (requestQueues s) (waitGroups s) (mutexes s ∖ {[k]}) (retired s) (threads s) (sent s) (answered s) (abandoned s) (late s).

Definition setRetired (s : State) (k : Key) (n : nat) : State :=
  mkState (gens s) (requestQueues s) (waitGroups s) (mutexes s) (<[k := n]> (retired s)) (threads s) (sent s) (answered s) (abandoned s) (late s).

(** The publication of a new generation under the write lock. *)
Definition publish (s : State) (k : Key) (g : Generation) : State :=
  mkState (gens s ++ [g]) (<[k := length (gens s)]> (requestQueues s)) (<[k := length (gens s)]> (waitGroups s))
    (mutexes s) (retired s) (threads s) (sent s) (answered s) (abandoned s) (late s).

Definition unpublish (s : State) (k : Key) : State :=
  mkState (gens s) (delete k (requestQueues s)) (delete k (waitGroups s)) (mutexes s) (retired s) (threads s) (sent s) (answered s) (abandoned s) (late s).

Definition retiredCount (s : State) (k : Key) : nat := default 0 (retired s !! k).

(** The configuration of a provider and whether its constructor succeeds. *)
Record Config := mkConfig { c_buffer : nat; c_concurrency : nat; c_constructed : bool }.

(** [prepareProvider]: the queue and the wait group are stored before the
    provider is constructed; workers start only when that succeeds. *)
Definition prepareProvider (s : State) (k : Key) (c : Config) : bool * State :=
  if c_constructed c then (true, publish s k (newGeneration (c_buffer c) (c_concurrency c)))
  else (false, publish s k (newGeneration (c_buffer c) 0)).

(** [getProviderQueue] and the start of [tryRequest]: the read lock excludes a
    writer, a missing queue is created under the write lock. *)
Definition request (s : State) (k : Key) (c : Config) : option State :=
  if bool_decide (k ∈ mutexes s) then None
  else match requestQueues s !! k with
       | Some q => Some (addThread s (TProducer k (PHave q)))
       | None =>
           let '(ok, s') := prepareProvider s k c in
           Some (addThread s' (TProducer k (if ok then PHave (length (gens s)) else PFailed)))
       end.

(** The check before the send; [k'] is the provider of the request after the
    hooks, under which a replacement is looked up. *)
Definition checkClosing (s : State) (t : nat) (k' : Key) : option State :=
  match threads s !! t with
  | Some (TProducer k (PHave q)) =>
      g ← gens s !! q;
      if negb (g_closing g) then Some (setThread s t (TProducer k (PTry q)))
      else match requestQueues s !! k' with
           | Some q' =>
               g' ← gens s !! q';
               if negb (bool_decide (q' = q)) && negb (g_closing g') then Some (setThread s t (TProducer k (PTry q')))
               else Some (setThread s t (TProducer k PFailed))
           | None => Some (setThread s t (TProducer k PFailed))
           end
  | _ => None
  end.

(** The queue a producer's select is on. *)
Definition selecting (th : Thread) : option nat :=
  match th with TProducer _ (PTry q) | TProducer _ (PBlock q) => Some q | _ => None end.

(** [case pq.queue <- msg]. *)
Definition sendCase (s : State) (t : nat) : option State :=
  match threads s !! t with
  | Some (TProducer k pc as th) =>
      q ← selecting th; g ← gens s !! q;
      if (length (g_queue g) <? g_cap g)%nat then
        let s := setThread (setGen s q (setQueue g (g_queue g ++ [t]))) t (TProducer k PWait) in
        Some (mkState (gens s) (requestQueues s) (waitGroups s) (mutexes s) (retired s) (threads s) (sent s ++ [t]) (answered s)
                (abandoned s) (if g_swept g then late s ++ [t] else late s))
      else None
  | _ => None
  end.

(** [case <-pq.done] and [case <-ctx.Done()]. *)
Definition doneCase (s : State) (t : nat) : option State :=
  match threads s !! t with
  | Some (TProducer k pc as th) =>
      q ← selecting th; g ← gens s !! q; if g_done g then Some (setThread s t (TProducer k PFailed)) else None
  | _ => None
  end.

Definition ctxCase (s : State) (t : nat) : option State :=
  match threads s !! t with
  | Some (TProducer k pc as th) => _ ← selecting th; Some (setThread s t (TProducer k PFailed))
  | _ => None
  end.

(** [default] of the first select: drop, or check again and block. *)
Definition defaultCase (s : State) (t : nat) (dropExcessRequests : bool) : option State :=
  match threads s !! t with
  | Some (TProducer k (PTry q)) =>
      g ← gens s !! q;
      if (length (g_queue g) <? g_cap g)%nat || g_done g then None
      else if dropExcessRequests || g_closing g then Some (setThread s t (TProducer k PFailed))
      else Some (setThread s t (TProducer k (PBlock q)))
  | _ => None
  end.

(** ** Workers *)

Inductive WorkerAct := WTake | WSeeDone | WReply | WPanic | WDrainOne | WDrainEnd.

Definition workerStep (s : State) (q i : nat) (act : WorkerAct) : option State :=
  g ← gens s !! q; w ← g_workers g !! i;
  match act, w with
  | WTake, WIdle =>
      match g_queue g with
      | m :: rest => Some (setGen s q (setWorker (setQueue g rest) i (WServing m)))
      | [] => None
      end
  | WSeeDone, WIdle => if g_done g then Some (setGen s q (setWorker g i WDraining)) else None
  | WReply, WServing m => Some (answer (setGen s q (setWorker g i WIdle)) m)
  | WPanic, WServing m =>
      Some (abandon (setGen s q (if g_closing g then workerExit g i else setWorker g i WIdle)) m)
  | WDrainOne, WDraining =>
      match g_queue g with
      | m :: rest => Some (answer (setGen s q (setQueue g rest)) m)
      | [] => None
      end
  | WDrainEnd, WDraining =>
      match g_queue g with
      | [] => Some (setGen s q (workerExit g i))
      | _ => None
      end
  | _, _ => None
  end.

(** ** Removal *)

(** [RemoveProvider]: an unknown provider is an error and changes nothing. *)
Definition removeStart (s : State) (k : Key) : option State :=
  if bool_decide (k ∈ mutexes s) then None
  else match requestQueues s !! k with
       | Some q => Some (addThread (lock s k) (TRemover k q RSignal))
       | None => Some s
       end.

(** [drainQueueWithErrors], one message or the end. *)
Definition drainStep (s : State) (q : nat) (g : Generation) : bool * State :=
  match g_queue g with
  | m :: rest => (false, answer (setGen s q (setQueue g rest)) m)
  | [] => (true, setGen s q (setSwept g))
  end.

Definition removerStep (s : State) (t : nat) : option State :=
  match threads s !! t with
  | Some (TRemover k q pc) =>
      g ← gens s !! q;
      let go s pc := Some (setThread s t (TRemover k q pc)) in
      match pc with
      | RSignal => match g_once g with
                   | OnceNotRun => go (setGen s q (storeClosing g)) RClose
                   | OnceRunning => None
                   | OnceDone => go s RWait
                   end
      | RClose => go (setGen s q (closeDone g)) RWait
      | RWait =>
          match waitGroups s !! k with
          | Some w => gw ← gens s !! w; if (g_wg gw =? 0)%nat then go s RDrain else None
          | None => go s RDrain
          end
      | RDrain => let '(fin, s') := drainStep s q g in go s' (if fin then RRetired else RDrain)
      | RRetired => if (retiredCount s k =? 0)%nat then go (unlock (unpublish s k) k) RReturned else None
      | RReturned => None
      end
  | _ => None
  end.

(** ** Update *)

(** [UpdateProvider] up to the publication of the new generation; a missing
    queue is prepared, a failed constructor leaves everything as it is. *)
Definition updateStart (s : State) (k : Key) (c : Config) : option State :=
  if bool_decide (k ∈ mutexes s) then None
  else match requestQueues s !! k with
       | None => Some (snd (prepareProvider s k c))
       | Some old =>
           if negb (c_constructed c) then Some s
           else
             let new := length (gens s) in
             Some (addThread (publish (lock s k) k (newGeneration (c_buffer c) (c_concurrency c))) (TUpdater k old new UTransfer))
       end.

Definition updaterStep (s : State) (t : nat) : option State :=
  match threads s !! t with
  | Some (TUpdater k old new pc) =>
      g ← gens s !! old;
      let go s pc := Some (setThread s t (TUpdater k old new pc)) in
      match pc with
      | UTransfer => match g_queue g with
                     | m :: rest => go (setGen s old (setQueue g rest)) (UHold m)
                     | [] => go s URetire
                     end
      | UHold m =>
          gn ← gens s !! new;
          if (length (g_queue gn) <? g_cap gn)%nat then go (setGen s new (setQueue gn (g_queue gn ++ [m]))) UTransfer
          else go (answer s m) UCancelRest
      | UCancelRest => match g_queue g with
                       | m :: rest => go (answer (setGen s old (setQueue g rest)) m) UCancelRest
                       | [] => go s URetire
                       end
      | URetire => go (setRetired s k (retiredCount s k + 1)) USignal
      | USignal => match g_once g with
                   | OnceNotRun => go (setGen s old (storeClosing g)) UClose
                   | OnceRunning => None
                   | OnceDone => Some (addThread (setThread (unlock s k) t (TUpdater k old new UReturned)) (TCleaner k old CWait))
                   end
      | UClose => Some (addThread (setThread (unlock (setGen s old (closeDone g)) k) t (TUpdater k old new UReturned)) (TCleaner k old CWait))
      | UReturned => None
      end
  | _ => None
  end.

Definition cleanerStep (s : State) (t : nat) : option State :=
  match threads s !! t with
  | Some (TCleaner k q pc) =>
      g ← gens s !! q;
      match pc with
      | CWait => if (g_wg g =? 0)%nat then Some (setThread s t (TCleaner k q CDrain)) else None
      | CDrain =>
          let '(fin, s') := drainStep s q g in
          if fin then Some (setThread (setRetired s' k (retiredCount s' k - 1)) t (TCleaner k q CReturned))
          else Some (setThread s' t (TCleaner k q CDrain))
      | CReturned => None
      end
  | _ => None
  end.

(** ** The transition system *)

Inductive Label :=
| LRequest (k : Key) (c : Config)
| LCheck (t : nat) (k' : Key)
| LSend (t : nat) | LSendDone (t : nat) | LSendCtx (t : nat) | LSendDefault (t : nat) (drop : bool)
| LWorker (q i : nat) (act : WorkerAct)
| LRemove (k : Key) | LRemover (t : nat)
| LUpdate (k : Key) (c : Config) | LUpdater (t : nat)
| LCleaner (t : nat).

Definition step (s : State) (l : Label) : option State :=
  match l with
  | LRequest k c => request s k c
  | LCheck t k' => checkClosing s t k'
  | LSend t => sendCase s t
  | LSendDone t => doneCase s t
  | LSendCtx t => ctxCase s t
  | LSendDefault t drop => defaultCase s t drop
  | LWorker q i act => workerStep s q i act
  | LRemove k => removeStart s k
  | LRemover t => removerStep s t
  | LUpdate k c => updateStart s k c
  | LUpdater t => updaterStep s t
  | LCleaner t => cleanerStep s t
  end.

Fixpoint run (s : State) (ls : list Label) : option State :=
  match ls with
  | [] => Some s
  | l :: ls => s' ← step s l; run s' ls
  end.

Definition reachable (s : State) : Prop := exists ls, run initial ls = Some s.

End ProviderQueue.
