(* ===== verification/ProviderQueueTheory.v ===== *)
(** * Properties of the provider queues

    Over every interleaving of requests, workers, updates and removals: a
    message is never lost and never answered twice; a queue never holds a
    message that nobody will take, except in the two cases the code leaves
    open, a queue that was published without workers and a message that
    arrives after the last sweep; and a sweep runs only when every worker of
    the generation has returned. *)

From S2P Require Import Prelude ProviderQueue.

Local Open Scope list_scope.

Module ProviderQueueTheory.
Import ProviderQueue.

(** ** Lists with one entry replaced *)

(** The concatenation of what the entries hold, seen at one entry. *)
Lemma concat_update {A B} (f : A -> list B) (l : list A) i x : l !! i = Some x ->
  exists R, mjoin (f <$> l) ≡ₚ f x ++ R /\ forall y, mjoin (f <$> <[i := y]> l) ≡ₚ f y ++ R.
Proof.
  intros Hi. exists (mjoin (f <$> delete i l)). split.
  - rewrite (delete_Permutation l i x Hi) at 1. done.
  - intros y. assert (i < length l) as Hlt by (by eapply lookup_lt_Some).
    assert (<[i := y]> l !! i = Some y) as Hy by (by apply list_lookup_insert_eq).
    rewrite (delete_Permutation _ i y Hy). cbn. f_equiv.
    assert (delete i (<[i := y]> l) = delete i l) as ->; [|done].
    rewrite insert_take_drop by done. rewrite !delete_take_drop.
    rewrite take_app_length' by (rewrite length_take; lia).
    rewrite drop_app, length_take_le by lia. rewrite drop_ge by (rewrite length_take; lia).
    replace (S i - i) with 1 by lia. done.
Qed.

(** ** What generations and threads hold *)

Definition wholds (w : Worker) : list Msg := match w with WServing m => [m] | _ => [] end.
Definition gholds (g : Generation) : list Msg := g_queue g ++ mjoin (wholds <$> g_workers g).
Definition tholds (th : Thread) : list Msg := match th with TUpdater _ _ _ (UHold m) => [m] | _ => [] end.

Definition holdings (s : State) : list Msg :=
  answered s ++ abandoned s ++ mjoin (gholds <$> gens s) ++ mjoin (tholds <$> threads s).

Definition live (w : Worker) : Prop := w <> WExited.

#[global] Instance live_dec w : Decision (live w).
Proof. unfold live. apply _. Defined.

Definition liveCount (g : Generation) : nat := length (filter live (g_workers g)).

(** The parts of a generation that do not depend on the rest of the gateway. *)
Record gen_ok (g : Generation) : Prop := mkGenOk {
  ok_wg : g_wg g = liveCount g;
  ok_len : length (g_queue g) <= g_cap g;
  ok_exit : WExited ∈ g_workers g -> g_closing g = true;
  ok_drain : WDraining ∈ g_workers g -> g_closing g = true;
  ok_once : g_once g = OnceNotRun <-> g_closing g = false;
  ok_done : g_done g = true -> g_closing g = true;
  ok_ran : g_once g = OnceDone <-> g_done g = true;
  ok_swept : g_swept g = true -> g_closing g = true /\ g_wg g = 0 }.

Create HintDb pq.

(** Case analysis of a step. *)
Ltac step_cases H := unfold mbind, option_bind in H; repeat (case_match; simplify_eq/=); simplify_eq/=.

Ltac unfold_step H :=
  unfold step, request, checkClosing, sendCase, doneCase, ctxCase, defaultCase, workerStep, removeStart, removerStep,
    updateStart, updaterStep, cleanerStep, prepareProvider, drainStep in H.

Lemma gen_ok_new b c : gen_ok (newGeneration b c).
Proof.
  constructor; cbn; try done; [|lia|..].
  - unfold liveCount. cbn. rewrite filter_all, length_replicate; [done|]. by apply Forall_replicate.
  - by intros [? _]%elem_of_replicate.
  - by intros [? _]%elem_of_replicate.
Qed.

Lemma live_insert (l : list Worker) i w0 w : l !! i = Some w0 -> live w0 ->
  length (filter live (<[i := w]> l)) = if decide (live w) then length (filter live l) else length (filter live l) - 1.
Proof.
  revert i. induction l as [|x l IH]; intros i Hi Hl; [done|]. destruct i as [|i]; cbn in Hi.
  - injection Hi as ->. cbn [insert list_insert]. rewrite !filter_cons. rewrite (decide_True (P := live w0)) by done.
    cbn. destruct (decide (live w)); [done|]. lia.
  - change (<[S i := w]> (x :: l)) with (x :: <[i := w]> l). rewrite !filter_cons.
    pose proof (IH i Hi Hl) as Hlen.
    assert (0 < length (filter live l)) as Hpos.
    { assert (w0 ∈ filter live l) as Hin by (apply list_elem_of_filter; split; [done|by eapply list_elem_of_lookup_2]).
      destruct (filter live l); [by apply elem_of_nil in Hin|cbn; lia]. }
    destruct (decide (live x)); cbn [length]; rewrite Hlen; destruct (decide (live w)); lia.
Qed.

Lemma elem_insert_inv {A} (l : list A) i x y : y ∈ <[i := x]> l -> y = x \/ y ∈ l.
Proof. intros [j Hj]%list_elem_of_lookup. apply list_lookup_insert_Some in Hj as [(_ & -> & _)|[_ Hj]]; [by left|right]. by eapply list_elem_of_lookup_2. Qed.

Lemma gen_ok_setQueue g l : gen_ok g -> length l <= g_cap g -> gen_ok (setQueue g l).
Proof. intros []. by constructor. Qed.

Lemma gen_ok_push g m : gen_ok g -> (length (g_queue g) <? g_cap g)%nat = true -> gen_ok (setQueue g (g_queue g ++ [m])).
Proof. intros Hg Hlt%Nat.ltb_lt. apply gen_ok_setQueue; [done|]. rewrite length_app. cbn. lia. Qed.

Lemma gen_ok_pop g m l : gen_ok g -> g_queue g = m :: l -> gen_ok (setQueue g l).
Proof. intros Hg E. apply gen_ok_setQueue; [done|]. destruct Hg as [_ Hl]. rewrite E in Hl. cbn in Hl. lia. Qed.

Lemma gen_ok_setWorker g i w0 w : gen_ok g -> g_workers g !! i = Some w0 -> live w0 -> live w ->
  (w = WDraining -> g_closing g = true) -> gen_ok (setWorker g i w).
Proof.
  intros [Hwg Hlen Hex Hdr Hon Hdn Hrn Hsw] Hi H0 Hw Hd. constructor; cbn [setWorker g_wg g_queue g_cap g_workers g_closing g_once g_done]; try done.
  - rewrite Hwg. unfold liveCount. cbn. by rewrite (live_insert _ _ _ _ Hi H0), decide_True.
  - intros [?|?]%elem_insert_inv; [by subst w|auto].
  - intros [?|?]%elem_insert_inv; [auto|auto].
Qed.

Lemma gen_ok_exit g i w0 : gen_ok g -> g_workers g !! i = Some w0 -> live w0 -> g_closing g = true -> gen_ok (workerExit g i).
Proof.
  intros [Hwg Hlen Hex Hdr Hon Hdn Hrn Hsw] Hi H0 Hc. constructor; cbn [workerExit g_wg g_queue g_cap g_workers g_closing g_once g_done]; try done.
  - rewrite Hwg. unfold liveCount. cbn. rewrite (live_insert _ _ _ _ Hi H0), decide_False; [done|]. intros Hn. by apply Hn.
  - intros Hs. apply Hsw in Hs as [? Hz]. split; [done|]. by rewrite Hz.
Qed.

Lemma gen_ok_store g : gen_ok g -> g_once g = OnceNotRun -> gen_ok (storeClosing g).
Proof.
  intros [] Ho. constructor; try done; cbn; [|naive_solver]. split; [done|]. intros Hd%ok_ran0. by rewrite Ho in Hd.
Qed.

Lemma gen_ok_close g : gen_ok g -> g_closing g = true -> gen_ok (closeDone g).
Proof. intros [Hwg Hlen Hex Hdr Hon Hdn Hrn Hsw] Hc. constructor; cbn; try done. by rewrite Hc. Qed.

Lemma gen_ok_sweep g : gen_ok g -> g_closing g = true -> g_wg g = 0 -> gen_ok (setSwept g).
Proof. intros []. by constructor. Qed.

(** ** How generations evolve *)

(** What never goes back: a queue that closes stays closing, a wait group that
    is empty stays empty, a sweep stays done; no worker is added. *)
Record gen_le (g g' : Generation) : Prop := mkGenLe {
  le_closing : g_closing g = true -> g_closing g' = true;
  le_done : g_done g = true -> g_done g' = true;
  le_wg : g_wg g = 0 -> g_wg g' = 0;
  le_swept : g_swept g = true -> g_swept g' = true;
  le_workers : length (g_workers g') = length (g_workers g) }.

#[global] Instance gen_le_preorder : PreOrder gen_le.
Proof. split; [by constructor|]. intros a b c [] []. constructor; auto. congruence. Qed.

Lemma gen_le_setQueue g l : gen_le g (setQueue g l).
Proof. by constructor. Qed.
Lemma gen_le_setWorker g i w : gen_le g (setWorker g i w).
Proof. constructor; try done. cbn. apply length_insert. Qed.
Lemma gen_le_exit g i : gen_le g (workerExit g i).
Proof. constructor; try done; cbn; [lia|apply length_insert]. Qed.
Lemma gen_le_store g : gen_le g (storeClosing g).
Proof. by constructor. Qed.
Lemma gen_le_close g : gen_le g (closeDone g).
Proof. by constructor. Qed.
Lemma gen_le_swept g : gen_le g (setSwept g).
Proof. by constructor. Qed.

#[local] Hint Resolve gen_le_setQueue gen_le_setWorker gen_le_exit gen_le_store gen_le_close gen_le_swept : pq.

(** Generations only evolve and are only added. *)
Definition gens_le (l l' : list Generation) : Prop := forall q g, l !! q = Some g -> exists g', l' !! q = Some g' /\ gen_le g g'.

#[global] Instance gens_le_preorder : PreOrder gens_le.
Proof.
  split; [intros l q g H; exists g; by split|]. intros a b c H1 H2 q g (g' & Hg' & Hle)%H1. destruct (H2 _ _ Hg') as (g'' & ? & ?).
  exists g''. split; [done|]. by etrans.
Qed.

Lemma gens_le_insert l q g g' : l !! q = Some g -> gen_le g g' -> gens_le l (<[q := g']> l).
Proof.
  intros Hq Hle q' x Hx. destruct (decide (q' = q)) as [->|N].
  - exists g'. rewrite list_lookup_insert_eq by (by eapply lookup_lt_Some). simplify_eq. done.
  - exists x. rewrite list_lookup_insert_ne by done. done.
Qed.

Lemma gens_le_app l l2 : gens_le l (l ++ l2).
Proof. intros q g Hq. exists g. split; [by apply lookup_app_l_Some|done]. Qed.

(** ** Threads and the generation they work on *)

(** Facts about the generation [q] that a thread relies on. *)
Definition at_gen (l : list Generation) (q : nat) (P : Generation -> Prop) : Prop := exists g, l !! q = Some g /\ P g.

Definition thread_ok (l : list Generation) (th : Thread) : Prop :=
  match th with
  | TProducer _ (PHave q) | TProducer _ (PTry q) | TProducer _ (PBlock q) => is_Some (l !! q)
  | TProducer _ _ => True
  | TRemover _ q pc => at_gen l q (fun g =>
      match pc with
      | RSignal => True
      | RClose => g_closing g = true
      | RWait => g_closing g = true /\ g_done g = true
      | RDrain => g_closing g = true /\ g_done g = true /\ g_wg g = 0
      | RRetired | RReturned => g_closing g = true /\ g_done g = true /\ g_wg g = 0 /\ g_swept g = true
      end)
  | TUpdater _ old new pc => is_Some (l !! new) /\ at_gen l old (fun g =>
      match pc with UClose | UReturned => g_closing g = true | _ => True end)
  | TCleaner _ q pc => at_gen l q (fun g =>
      match pc with
      | CWait => g_closing g = true /\ g_done g = true
      | CDrain => g_closing g = true /\ g_done g = true /\ g_wg g = 0
      | CReturned => g_closing g = true /\ g_done g = true /\ g_wg g = 0 /\ g_swept g = true
      end)
  end.

Lemma at_gen_le l l' q (P : Generation -> Prop) : gens_le l l' -> (forall g g', gen_le g g' -> P g -> P g') -> at_gen l q P -> at_gen l' q P.
Proof. intros Hle HP (g & (g' & Hg' & Hl)%Hle & Hg). exists g'. eauto. Qed.

Lemma is_Some_le l l' q : gens_le l l' -> is_Some (l !! q) -> is_Some (l' !! q).
Proof. intros Hle [g (g' & Hg' & _)%Hle]. by exists g'. Qed.

Lemma thread_ok_le l l' th : gens_le l l' -> thread_ok l th -> thread_ok l' th.
Proof.
  intros Hle. destruct th as [k [q|q|q| |]|k q pc|k old new pc|k q pc]; cbn; try done; try (by apply is_Some_le).
  - apply at_gen_le; [done|]. intros g g' []. destruct pc; naive_solver.
  - intros [? Ha]. split; [by eapply is_Some_le|]. revert Ha. apply at_gen_le; [done|]. intros g g' []. destruct pc; naive_solver.
  - apply at_gen_le; [done|]. intros g g' []. destruct pc; naive_solver.
Qed.

(** ** Locks and the published queues *)

(** What an update or a removal under way claims: the provider whose lock it
    holds, the generation published for it, and the one it retires. *)
Record Claim := mkClaim { cl_key : Key; cl_pub : nat; cl_old : option nat }.

Definition claim (th : Thread) : option Claim :=
  match th with
  | TRemover k q pc => match pc with RReturned => None | _ => Some (mkClaim k q None) end
  | TUpdater k old new pc => match pc with UReturned => None | _ => Some (mkClaim k new (Some old)) end
  | _ => None
  end.

(** The provider maps, [n] being the number of generations: a published
    generation exists and belongs to one provider; a claim holds its lock
    alone, and what it retires is no longer published. *)
Record maps_ok (n : nat) (rq wg : gmap Key nat) (mu : gset Key) (cs : list (option Claim)) : Prop := mkMapsOk {
  mo_wg : wg = rq;
  mo_dom : forall k q, rq !! k = Some q -> q < n;
  mo_inj : forall k k' q, rq !! k = Some q -> rq !! k' = Some q -> k = k';
  mo_lock : forall t c, cs !! t = Some (Some c) -> cl_key c ∈ mu /\ rq !! cl_key c = Some (cl_pub c);
  mo_old : forall t c o, cs !! t = Some (Some c) -> cl_old c = Some o -> o < n /\ forall k, rq !! k <> Some o;
  mo_unique : forall t t' c c', cs !! t = Some (Some c) -> cs !! t' = Some (Some c') -> cl_key c = cl_key c' -> t = t' }.

Definition Maps (s : State) : Prop := maps_ok (length (gens s)) (requestQueues s) (waitGroups s) (mutexes s) (claim <$> threads s).

Lemma snoc_lookup {A} (l : list A) x t y : (l ++ [x]) !! t = Some y -> l !! t = Some y \/ (t = length l /\ y = x).
Proof.
  intros [H|[Hl H]]%lookup_app_Some; [by left|right].
  destruct (t - length l) as [|j] eqn:E; cbn in H; [|by destruct j]. simplify_eq. split; [lia|done].
Qed.

Section MapsOk.
Context {n : nat} {rq wg : gmap Key nat} {mu : gset Key} {cs : list (option Claim)}.
Hypothesis Hok : maps_ok n rq wg mu cs.

Lemma maps_ok_skip : maps_ok n rq wg mu (cs ++ [None]).
Proof.
  destruct Hok as [H1 H2 H3 H4 H5 H6]. constructor; try done.
  - intros t c [Ht|[_ ?]]%snoc_lookup; [|done]. eauto.
  - intros t c o [Ht|[_ ?]]%snoc_lookup; [|done]. eauto.
  - intros t t' c c' [Ht|[_ ?]]%snoc_lookup [Ht'|[_ ?]]%snoc_lookup; try done. eauto.
Qed.

(** A provider without a queue gets one. *)
Lemma maps_ok_publish k : rq !! k = None -> k ∉ mu -> maps_ok (S n) (<[k := n]> rq) (<[k := n]> wg) mu cs.
Proof.
  destruct Hok as [H1 H2 H3 H4 H5 H6]. intros Hk Hmu. constructor; try done.
  - by rewrite H1.
  - intros k' q [[<- <-]|[N Hq]]%lookup_insert_Some; [lia|]. apply H2 in Hq. lia.
  - intros k1 k2 q [[<- <-]|[N Hq]]%lookup_insert_Some [[<- E]|[N' Hq']]%lookup_insert_Some; try done; simplify_eq.
    + apply H2 in Hq'. lia.
    + apply H2 in Hq. lia.
    + eauto.
  - intros t c Ht. destruct (H4 t c Ht) as [Hm Hc]. split; [done|]. rewrite lookup_insert_ne; [done|]. by intros ->.
  - intros t c o Ht Ho. destruct (H5 t c o Ht Ho) as [Hlt Hn]. split; [lia|].
    intros k' [[<- ->]|[N Hq]]%lookup_insert_Some; [lia|]. by apply (Hn k').
Qed.

Lemma unique_snoc c0 : cl_key c0 ∉ mu -> forall t t' c c', (cs ++ [Some c0]) !! t = Some (Some c) ->
  (cs ++ [Some c0]) !! t' = Some (Some c') -> cl_key c = cl_key c' -> t = t'.
Proof.
  intros Hmu t t' c c' [Ht|[-> Hc]]%snoc_lookup [Ht'|[-> Hc']]%snoc_lookup E; try done.
  - by eapply (mo_unique _ _ _ _ _ Hok).
  - injection Hc' as ->. destruct (mo_lock _ _ _ _ _ Hok t c Ht) as [Hm _]. by rewrite E in Hm.
  - injection Hc as ->. destruct (mo_lock _ _ _ _ _ Hok t' c' Ht') as [Hm _]. by rewrite <- E in Hm.
Qed.

(** A removal takes the lock. *)
Lemma maps_ok_remove k q : rq !! k = Some q -> k ∉ mu -> maps_ok n rq wg ({[k]} ∪ mu) (cs ++ [Some (mkClaim k q None)]).
Proof.
  destruct Hok as [H1 H2 H3 H4 H5 H6]. intros Hk Hmu. constructor; try done.
  - intros t c [Ht|[_ [= ->]]]%snoc_lookup; [|set_solver]. destruct (H4 t c Ht). set_solver.
  - intros t c o [Ht|[_ [= ->]]]%snoc_lookup; [|done]. eauto.
  - by apply unique_snoc.
Qed.

(** An update takes the lock and publishes the replacement. *)
Lemma maps_ok_update k old : rq !! k = Some old -> k ∉ mu ->
  maps_ok (S n) (<[k := n]> rq) (<[k := n]> wg) ({[k]} ∪ mu) (cs ++ [Some (mkClaim k n (Some old))]).
Proof.
  destruct Hok as [H1 H2 H3 H4 H5 H6]. intros Hk Hmu. constructor.
  - by rewrite H1.
  - intros k' q [[<- <-]|[N Hq]]%lookup_insert_Some; [lia|]. apply H2 in Hq. lia.
  - intros k1 k2 q [[<- <-]|[N Hq]]%lookup_insert_Some [[<- E]|[N' Hq']]%lookup_insert_Some; try done; simplify_eq.
    + apply H2 in Hq'. lia.
    + apply H2 in Hq. lia.
    + eauto.
  - intros t c [Ht|[_ [= ->]]]%snoc_lookup; cbn; [|by rewrite lookup_insert_eq; set_solver].
    destruct (H4 t c Ht) as [Hm Hc]. split; [set_solver|]. rewrite lookup_insert_ne; [done|]. by intros ->.
  - intros t c o [Ht|[_ [= ->]]]%snoc_lookup Ho; cbn in *; simplify_eq.
    + destruct (H5 t c o Ht Ho) as [Hlt Hn]. split; [lia|].
      intros k' [[<- ->]|[N Hq]]%lookup_insert_Some; [lia|]. by apply (Hn k').
    + pose proof (H2 _ _ Hk) as Hlt. split; [lia|]. intros k' [[<- ->]|[N Hq]]%lookup_insert_Some; [lia|].
      by apply N, (H3 _ _ _ Hk Hq).
  - by apply unique_snoc.
Qed.

(** The claim ends: the lock is released, the maps stay. *)
Lemma maps_ok_release t c : cs !! t = Some (Some c) -> maps_ok n rq wg (mu ∖ {[cl_key c]}) (<[t := None]> cs).
Proof.
  destruct Hok as [H1 H2 H3 H4 H5 H6]. intros Ht. constructor; try done.
  - intros t' c' [(_ & ? & _)|[N Ht']]%list_lookup_insert_Some; [done|]. destruct (H4 t' c' Ht') as [Hm Hc]. split; [|done].
    assert (cl_key c' <> cl_key c) by (intros E; by apply N, (H6 t t' c c')). set_solver.
  - intros t' c' o [(_ & ? & _)|[N Ht']]%list_lookup_insert_Some; [done|]. eauto.
  - intros t1 t2 c1 c2 [(_ & ? & _)|[N Ht1]]%list_lookup_insert_Some [(_ & ? & _)|[N' Ht2]]%list_lookup_insert_Some; try done.
    eauto.
Qed.

(** The removal ends: the provider is forgotten, the lock released. *)
Lemma maps_ok_forget t c : cs !! t = Some (Some c) ->
  maps_ok n (delete (cl_key c) rq) (delete (cl_key c) wg) (mu ∖ {[cl_key c]}) (<[t := None]> cs).
Proof.
  intros Ht. pose proof (maps_ok_release t c Ht) as [H1 H2 H3 H4 H5 H6]. constructor; try done.
  - by rewrite H1.
  - intros k q [_ Hq]%lookup_delete_Some. eauto.
  - intros k k' q [_ Hq]%lookup_delete_Some [_ Hq']%lookup_delete_Some. eauto.
  - intros t' c' Ht'. destruct (H4 t' c' Ht') as [Hm Hc]. split; [done|]. rewrite lookup_delete_ne; [done|set_solver].
  - intros t' c' o Ht' Ho. destruct (H5 t' c' o Ht' Ho) as [Hlt Hn]. split; [done|].
    intros k [_ Hq]%lookup_delete_Some. by apply (Hn k).
Qed.
End MapsOk.

(** The image of the threads under a view that the acting thread keeps. *)
Lemma view_same {A} (f : Thread -> A) s t th th' : threads s !! t = Some th -> f th' = f th -> f <$> <[t := th']> (threads s) = f <$> threads s.
Proof. intros Ht E. rewrite list_fmap_insert, E. apply list_insert_id. by rewrite list_lookup_fmap, Ht. Qed.

Lemma view_lookup {A} (f : Thread -> A) s t th c : threads s !! t = Some th -> f th = c -> (f <$> threads s) !! t = Some c.
Proof. intros Ht E. by rewrite list_lookup_fmap, Ht, <- E. Qed.

Lemma step_Maps s l s' : Maps s -> step s l = Some s' -> Maps s'.
Proof.
  unfold Maps. intros Hok H. unfold_step H. destruct l; step_cases H;
    try done; unfold setGen, setThread, addThread, answer, abandon, lock, unlock, setRetired, publish, unpublish;
    cbn [gens requestQueues waitGroups mutexes threads];
    rewrite ?fmap_app, ?length_insert, ?length_app;
    repeat (erewrite (view_same claim); [|eassumption|reflexivity]); try done;
    repeat match goal with H : bool_decide (_ ∈ _) = false |- _ => apply bool_decide_eq_false in H end;
    cbn [length claim fmap list_fmap]; rewrite ?Nat.add_1_r, ?list_fmap_insert.
  - by apply maps_ok_skip.
  - by apply maps_ok_skip, maps_ok_publish.
  - by apply maps_ok_skip, maps_ok_publish.
  - by apply maps_ok_remove.
  - eapply (maps_ok_forget Hok t (mkClaim _ _ _)), (view_lookup claim); done.
  - by apply maps_ok_update.
  - by apply maps_ok_publish.
  - by apply maps_ok_publish.
  - eapply maps_ok_skip, (maps_ok_release Hok t (mkClaim _ _ _)), (view_lookup claim); done.
  - eapply maps_ok_skip, (maps_ok_release Hok t (mkClaim _ _ _)), (view_lookup claim); done.
Qed.
(** ** Every generation and every thread is in order *)

Definition Local (s : State) : Prop := Forall gen_ok (gens s) /\ Forall (thread_ok (gens s)) (threads s).

Ltac open_state :=
  unfold setGen, setThread, addThread, answer, abandon, lock, unlock, setRetired, publish, unpublish in *;
  cbn [gens requestQueues waitGroups mutexes threads sent answered abandoned late retired] in *.

Lemma gen_le_take g i l w : gen_le g (setWorker (setQueue g l) i w).
Proof. etrans; [apply gen_le_setQueue|apply gen_le_setWorker]. Qed.
#[local] Hint Resolve gen_le_take gens_le_app gens_le_insert : pq.
#[local] Hint Extern 1 (gens_le ?l ?l) => reflexivity : pq.

Lemma step_gens_le s l s' : step s l = Some s' -> gens_le (gens s) (gens s').
Proof. intros H. unfold_step H. destruct l; step_cases H; open_state; try case_match; eauto with pq. Qed.

(** The thread part of [Local], with the generations already moved. *)
Lemma threads_ok_same l l' ths : gens_le l l' -> Forall (thread_ok l) ths -> Forall (thread_ok l') ths.
Proof. intros Hle H. eapply Forall_impl; [exact H|]. intros th. by apply thread_ok_le. Qed.

Lemma at_gen_inv l q (P : Generation -> Prop) g : at_gen l q P -> l !! q = Some g -> P g.
Proof. intros (g' & Hq & HP) Hq'. by simplify_eq. Qed.

#[local] Hint Resolve gen_ok_push gen_ok_pop gen_ok_store gen_ok_close gen_ok_sweep gen_ok_exit : pq.
#[local] Hint Extern 1 (live _) => discriminate : pq.

(** What [Local] says of the generations and the thread a step looks at. *)
Ltac learn Hg Ht :=
  repeat match goal with
  | H : gens ?s !! ?q = Some ?g |- _ =>
      lazymatch goal with _ : gen_ok g |- _ => fail | _ => pose proof (Forall_lookup_1 _ _ _ _ Hg H) end
  | H : threads ?s !! ?t = Some ?th |- _ =>
      lazymatch goal with _ : thread_ok _ th |- _ => fail | _ => pose proof (Forall_lookup_1 _ _ _ _ Ht H) end
  end;
  cbn [thread_ok] in *;
  repeat match goal with
  | H : _ /\ _ |- _ => destruct H
  | H : at_gen _ ?q _, H' : _ !! ?q = Some ?g |- _ => apply (at_gen_inv _ _ _ _ H) in H' as ?; clear H
  end.

Lemma step_gens_ok s l s' : Local s -> step s l = Some s' -> Forall gen_ok (gens s').
Proof.
  intros [Hg Ht] H. unfold_step H. destruct l; step_cases H; try done; open_state; try done; learn Hg Ht;
    first [apply Forall_app_2; [done|]; apply Forall_singleton, gen_ok_new|apply Forall_insert; [done|]]; eauto with pq.
  - eapply (gen_ok_setWorker _ _ WIdle); try done. by eapply gen_ok_pop.
  - eapply gen_ok_setWorker; [done..|]. intros _. by apply ok_done.
  - by eapply gen_ok_setWorker.
  - by eapply gen_ok_setWorker.
  - eapply gen_ok_exit; [done..|]. by eapply ok_drain, list_elem_of_lookup_2.
Qed.

Lemma at_gen_same l q g (P : Generation -> Prop) : l !! q = Some g -> P g -> at_gen l q P.
Proof. intros Hq HP. by exists g. Qed.

Lemma at_gen_set l q g g' (P : Generation -> Prop) : l !! q = Some g -> P g' -> at_gen (<[q := g']> l) q P.
Proof. intros Hq HP. exists g'. split; [|done]. by eapply list_lookup_insert_eq, lookup_lt_Some. Qed.

Lemma at_gen_any l q : is_Some (l !! q) -> at_gen l q (fun _ => True).
Proof. intros [g Hg]. by exists g. Qed.

Lemma once_closing g : gen_ok g -> g_once g = OnceDone -> g_closing g = true.
Proof. intros Hg E. by apply ok_done, ok_ran. Qed.

Lemma once_done g : gen_ok g -> g_once g = OnceDone -> g_closing g = true /\ g_done g = true.
Proof. intros Hg E. split; [by apply once_closing|by apply ok_ran]. Qed.

Lemma published s k q : Maps s -> requestQueues s !! k = Some q -> is_Some (gens s !! q).
Proof. intros HM Hk. apply lookup_lt_is_Some, (mo_dom _ _ _ _ _ HM _ _ Hk). Qed.

(** An update or a removal under way works on what is published. *)
Lemma claim_owns s t th c : Maps s -> threads s !! t = Some th -> claim th = Some c ->
  requestQueues s !! cl_key c = Some (cl_pub c) /\ forall o k, cl_old c = Some o -> requestQueues s !! k <> Some o.
Proof.
  intros HM Ht Hc. pose proof (view_lookup claim _ _ _ _ Ht Hc) as H. destruct HM as [_ _ _ HL HO _]. split.
  - by destruct (HL _ _ H).
  - intros o k Ho. destruct (HO _ _ _ H Ho) as [_ Hn]. apply Hn.
Qed.

(** The removal waits on the wait group of the generation it signalled. *)
Lemma remover_waits s t k q w : Maps s -> threads s !! t = Some (TRemover k q RWait) -> waitGroups s !! k = w -> w = Some q.
Proof. intros HM Ht <-. rewrite (mo_wg _ _ _ _ _ HM). by destruct (claim_owns _ _ _ _ HM Ht eq_refl). Qed.

Lemma step_threads_ok s l s' : Maps s -> Local s -> step s l = Some s' -> Forall (thread_ok (gens s')) (threads s').
Proof.
  intros HM [Hg Ht] H. pose proof (step_gens_le _ _ _ H) as Hle.
  apply (threads_ok_same _ _ _ Hle) in Ht as Ht'.
  unfold_step H. destruct l; step_cases H; try done; open_state; try done;
    repeat first [apply Forall_app_2; [|apply Forall_singleton] | apply Forall_insert]; try done; learn Hg Ht; try done;
    repeat match goal with H : (_ =? 0)%nat = true |- _ => apply Nat.eqb_eq in H end;
    cbn [thread_ok]; try (split; [by eapply is_Some_le|]); eauto 6 using at_gen_same, at_gen_set, at_gen_any, once_closing, once_done, published.
  - rewrite lookup_app_r, Nat.sub_diag by done. by eexists.
  - eapply remover_waits in H2 as E; [|done..]. simplify_eq. by eapply at_gen_same.
  - by eapply remover_waits in H2 as E.
  - split; [rewrite lookup_app_r, Nat.sub_diag by done; by eexists|]. eapply at_gen_any, is_Some_le; [done|]. by eapply published.
  - by eapply at_gen_any, is_Some_le.
Qed.

Lemma step_Local s l s' : Maps s -> Local s -> step s l = Some s' -> Local s'.
Proof. intros HM HL H. split; [by eapply step_gens_ok|by eapply step_threads_ok]. Qed.

(** ** A closing queue has somebody who will sweep it *)

(** The generation a thread is committed to sweep. *)
Definition sweeps (th : Thread) : option nat :=
  match th with
  | TRemover _ q RClose | TRemover _ q RWait | TRemover _ q RDrain => Some q
  | TUpdater _ old _ UClose => Some old
  | TCleaner _ q CWait | TCleaner _ q CDrain => Some q
  | _ => None
  end.

Definition commit_ok (gs : list Generation) (sw : list (option nat)) : Prop :=
  forall q g, gs !! q = Some g -> g_closing g = true -> g_swept g = true \/ Some q ∈ sw.

Definition Commit (s : State) : Prop := commit_ok (gens s) (sweeps <$> threads s).

Lemma elem_insert_ne {A} (l : list A) t x y : y ∈ l -> l !! t <> Some y -> y ∈ <[t := x]> l.
Proof.
  intros [i Hi]%list_elem_of_lookup N. apply list_elem_of_lookup. exists i. rewrite list_lookup_insert_ne; [done|]. by intros <-.
Qed.

Lemma elem_insert_eq {A} (l : list A) t x y : l !! t = Some y -> x ∈ <[t := x]> l.
Proof. intros Hy. apply list_elem_of_lookup. exists t. by eapply list_lookup_insert_eq, lookup_lt_Some. Qed.

Section CommitOk.
Context {gs : list Generation} {sw : list (option nat)}.
Hypothesis Hok : commit_ok gs sw.

Lemma commit_gen q g g' : gs !! q = Some g -> g_closing g' = g_closing g -> g_swept g' = g_swept g -> commit_ok (<[q := g']> gs) sw.
Proof.
  intros Hq Hc Hs q' x [(-> & -> & _)|[N Hx]]%list_lookup_insert_Some; [|by apply Hok]. rewrite Hc, Hs. by apply Hok.
Qed.

Lemma commit_new g : g_closing g = false -> commit_ok (gs ++ [g]) sw.
Proof. intros Hc q x [Hx|[-> ->]]%snoc_lookup; [by apply Hok|]. by rewrite Hc. Qed.

Lemma commit_app x : commit_ok gs (sw ++ [x]).
Proof. intros q g Hq Hc. destruct (Hok q g Hq Hc); [by left|right]. apply elem_of_app. by left. Qed.

Lemma commit_take t q : sw !! t = Some None -> commit_ok gs (<[t := Some q]> sw).
Proof. intros Ht q' g Hq Hc. destruct (Hok q' g Hq Hc); [by left|right]. apply elem_insert_ne; [done|]. by rewrite Ht. Qed.

Lemma commit_close t q g' : sw !! t = Some None -> commit_ok (<[q := g']> gs) (<[t := Some q]> sw).
Proof.
  intros Ht q' g [(-> & -> & _)|[N Hx]]%list_lookup_insert_Some Hc.
  - right. by eapply elem_insert_eq.
  - by eapply commit_take.
Qed.

Lemma commit_done t q g g' : gs !! q = Some g -> sw !! t = Some (Some q) -> g_swept g' = true -> commit_ok (<[q := g']> gs) (<[t := None]> sw).
Proof.
  intros Hq Ht Hs q' x [(-> & -> & _)|[N Hx]]%list_lookup_insert_Some Hc; [by left|].
  destruct (Hok q' x Hx Hc); [by left|right]. apply elem_insert_ne; [done|]. rewrite Ht. congruence.
Qed.

Lemma commit_pass t q : sw !! t = Some (Some q) -> commit_ok gs (<[t := None]> sw ++ [Some q]).
Proof.
  intros Ht q' g Hq Hc. destruct (Hok q' g Hq Hc) as [?|Hin]; [by left|right]. apply elem_of_app.
  destruct (decide (q' = q)) as [->|N]; [right; by apply list_elem_of_singleton|left].
  apply elem_insert_ne; [done|]. rewrite Ht. congruence.
Qed.
End CommitOk.

Lemma step_Commit s l s' : Commit s -> step s l = Some s' -> Commit s'.
Proof.
  unfold Commit. intros Hok H. unfold_step H. destruct l; step_cases H; try done; open_state; try done;
    rewrite ?fmap_app; repeat (erewrite (view_same sweeps); [|eassumption|reflexivity]); try done;
    eauto using commit_gen, commit_new, commit_app;
    rewrite ?list_fmap_insert; cbn [fmap list_fmap sweeps].
  - by eapply commit_close, (view_lookup sweeps).
  - by eapply commit_take, (view_lookup sweeps).
  - by eapply commit_done, eq_refl; [..|eapply (view_lookup sweeps)].
  - by eapply commit_close, (view_lookup sweeps).
  - eapply commit_pass; [by eapply commit_gen|by eapply (view_lookup sweeps)].
  - by eapply commit_done, eq_refl; [..|eapply (view_lookup sweeps)].
Qed.

(** ** A published queue is closing only while its provider is being removed *)

Definition removing (th : Thread) : option (Key * nat) :=
  match th with
  | TRemover k q pc => match pc with RReturned => None | _ => Some (k, q) end
  | _ => None
  end.

Definition pub_ok (gs : list Generation) (rq : gmap Key nat) (rm : list (option (Key * nat))) : Prop :=
  forall k q g, rq !! k = Some q -> gs !! q = Some g -> g_closing g = true -> Some (k, q) ∈ rm.

Definition Pub (s : State) : Prop := pub_ok (gens s) (requestQueues s) (removing <$> threads s).

Section PubOk.
Context {gs : list Generation} {rq : gmap Key nat} {rm : list (option (Key * nat))}.
Hypothesis Hok : pub_ok gs rq rm.

Lemma pub_gen q g g' : gs !! q = Some g -> g_closing g' = g_closing g -> pub_ok (<[q := g']> gs) rq rm.
Proof.
  intros Hq Hc k q' x Hk [(-> & -> & _)|[N Hx]]%list_lookup_insert_Some; [|by apply Hok]. rewrite Hc. by apply (Hok k).
Qed.

Lemma pub_app x : pub_ok gs rq (rm ++ [x]).
Proof. intros k q g Hk Hq Hc. apply elem_of_app. left. by eapply Hok. Qed.

Lemma pub_publish k g : (forall k q, rq !! k = Some q -> q < length gs) -> g_closing g = false ->
  pub_ok (gs ++ [g]) (<[k := length gs]> rq) rm.
Proof.
  intros Hdom Hc k' q x [[<- <-]|[N Hk]]%lookup_insert_Some [Hx|[E ->]]%snoc_lookup; [|by rewrite Hc|by apply Hok|].
  - apply lookup_lt_Some in Hx. lia.
  - apply Hdom in Hk. lia.
Qed.

(** Closing the queue of the provider being removed, or a retired one. *)
Lemma pub_close q g' : (forall k, rq !! k = Some q -> Some (k, q) ∈ rm) -> pub_ok (<[q := g']> gs) rq rm.
Proof. intros Hq k q' x Hk [(-> & -> & _)|[N Hx]]%list_lookup_insert_Some; [by auto|by apply Hok]. Qed.

Lemma pub_forget t k q : rm !! t = Some (Some (k, q)) -> pub_ok gs (delete k rq) (<[t := None]> rm).
Proof.
  intros Ht k' q' g [N Hk]%lookup_delete_Some Hq Hc. apply elem_insert_ne; [by eapply Hok|]. rewrite Ht. congruence.
Qed.
End PubOk.

Lemma step_Pub s l s' : Maps s -> Pub s -> step s l = Some s' -> Pub s'.
Proof.
  unfold Pub. intros HM Hok H. pose proof (mo_dom _ _ _ _ _ HM) as Hdom.
  unfold_step H. destruct l; step_cases H; try done; open_state; try done;
    rewrite ?fmap_app; repeat (erewrite (view_same removing); [|eassumption|reflexivity]); try done;
    eauto using pub_gen, pub_app, pub_publish;
    rewrite ?list_fmap_insert; cbn [fmap list_fmap removing].
  - apply (pub_close Hok). intros k' Hk'. destruct (claim_owns _ _ _ _ HM H0 eq_refl) as [Hk _].
    rewrite (mo_inj _ _ _ _ _ HM _ _ _ Hk' Hk). by eapply list_elem_of_lookup_2, (view_lookup removing).
  - by eapply pub_forget, (view_lookup removing).
  - apply (pub_close Hok). intros k' Hk'. destruct (claim_owns _ _ _ _ HM H0 eq_refl) as [_ Hn]. by apply Hn in Hk'.
Qed.

(** While a provider is updated, its new queue is open. *)
Lemma updater_new_open s t k old new pc g : Maps s -> Pub s -> threads s !! t = Some (TUpdater k old new pc) -> pc <> UReturned ->
  gens s !! new = Some g -> g_closing g = false.
Proof.
  intros HM HP Ht Hpc Hg. destruct (g_closing g) eqn:Hc; [|done].
  assert (claim (TUpdater k old new pc) = Some (mkClaim k new (Some old))) as Hcl by (by destruct pc).
  destruct (claim_owns _ _ _ _ HM Ht Hcl) as [Hk _].
  destruct (proj1 (list_elem_of_lookup _ _) (HP _ _ _ Hk Hg Hc)) as [t' Ht']. rewrite list_lookup_fmap in Ht'.
  destruct (threads s !! t') as [[| k' q' pc' | |]|] eqn:E; cbn in Ht'; try done. destruct pc'; simplify_eq;
  by (pose proof (mo_unique _ _ _ _ _ HM t t' _ _ (view_lookup claim _ _ _ _ Ht Hcl) (view_lookup claim _ _ _ _ E eq_refl) eq_refl); simplify_eq).
Qed.

(** ** After its sweep a queue holds only late messages *)

Definition late_ok (gs : list Generation) (la : list Msg) : Prop :=
  forall q g m, gs !! q = Some g -> g_swept g = true -> m ∈ g_queue g -> m ∈ la.

Definition Late (s : State) : Prop := late_ok (gens s) (late s).

Section LateOk.
Context {gs : list Generation} {la : list Msg}.
Hypothesis Hok : late_ok gs la.

Lemma late_gen q g g' : gs !! q = Some g -> g_swept g' = g_swept g -> g_queue g' ⊆ g_queue g -> late_ok (<[q := g']> gs) la.
Proof.
  intros Hq Hs Hsub q' x m [(-> & -> & _)|[N Hx]]%list_lookup_insert_Some; [|by apply (Hok q')].
  rewrite Hs. intros Hw Hin%Hsub. by apply (Hok q' g).
Qed.

Lemma late_fresh q g' : g_swept g' = false \/ g_queue g' = [] -> late_ok (<[q := g']> gs) la.
Proof.
  intros Hg q' x m [(-> & -> & _)|[N Hx]]%list_lookup_insert_Some; [|by apply (Hok q')]. intros Hs Hin.
  destruct Hg as [E|E]; [by rewrite E in Hs|]. rewrite E in Hin. by apply elem_of_nil in Hin.
Qed.

Lemma late_push q g m : gs !! q = Some g -> g_swept g = true -> late_ok (<[q := setQueue g (g_queue g ++ [m])]> gs) (la ++ [m]).
Proof.
  intros Hq Hs q' x m' [(-> & <- & _)|[N Hx]]%list_lookup_insert_Some Hw Hin; apply elem_of_app.
  - cbn in Hin. apply elem_of_app in Hin as [Hin|Hin]; [left; by apply (Hok q' g)|by right].
  - left. by apply (Hok q' x).
Qed.

Lemma late_new g : g_queue g = [] -> late_ok (gs ++ [g]) la.
Proof. intros E q x m [Hx|[-> ->]]%snoc_lookup; [by apply (Hok q)|]. rewrite E. by intros _ ?%elem_of_nil. Qed.
End LateOk.

Lemma tail_subset (g : Generation) m l : g_queue g = m :: l -> l ⊆ g_queue g.
Proof. intros ->. set_solver. Qed.

Lemma step_Late s l s' : Maps s -> Local s -> Pub s -> Late s -> step s l = Some s' -> Late s'.
Proof.
  unfold Late. intros HM HL HP Hok H.
  unfold_step H. destruct l; step_cases H; try done; open_state; try done;
    eauto using late_gen, late_new, late_push, late_fresh, tail_subset.
  apply (late_fresh Hok). left. cbn. pose proof (updater_new_open _ _ _ _ _ _ _ HM HP H0 ltac:(done) H2) as Hc.
  destruct (g_swept g0) eqn:Hs; [|done]. destruct HL as [HG _].
  apply (ok_swept _ (Forall_lookup_1 _ _ _ _ HG H2)) in Hs as [Hs _]. by rewrite Hc in Hs.
Qed.

(** ** Nothing is lost, nothing is answered twice *)

(** A producer that waits for its answer. *)
Definition waits (ths : list Thread) (m : nat) : Prop := exists k, ths !! m = Some (TProducer k PWait).

Definition Conserve (s : State) : Prop :=
  sent s ≡ₚ holdings s /\ NoDup (sent s) /\ forall m, m ∈ sent s -> waits (threads s) m.

Definition waiting (th : Thread) : bool := match th with TProducer _ PWait => true | _ => false end.

Lemma waits_app ths th m : waits ths m -> waits (ths ++ [th]) m.
Proof. intros [k Hk]. exists k. by apply lookup_app_l_Some. Qed.

Lemma waits_set ths t th th' m : ths !! t = Some th -> waiting th = false -> waits ths m -> waits (<[t := th']> ths) m.
Proof.
  intros Ht Hw [k Hk]. exists k. rewrite list_lookup_insert_ne; [done|]. intros ->. rewrite Ht in Hk. by injection Hk as ->.
Qed.

Lemma sent_push ths l t th k : NoDup l -> (forall m, m ∈ l -> waits ths m) -> ths !! t = Some th -> waiting th = false ->
  NoDup (l ++ [t]) /\ forall m, m ∈ l ++ [t] -> waits (<[t := TProducer k PWait]> ths) m.
Proof.
  intros Hn Hw Ht Hf. split.
  - apply NoDup_app. split; [done|]. split; [|apply NoDup_singleton]. intros m Hm E%list_elem_of_singleton. subst m.
    destruct (Hw _ Hm) as [k' Hk]. rewrite Ht in Hk. by injection Hk as ->.
  - intros m [Hm|E%list_elem_of_singleton]%elem_of_app; [eapply waits_set; eauto|]. subst m.
    exists k. by eapply list_lookup_insert_eq, lookup_lt_Some.
Qed.

Lemma held_put {A} (f : A -> list Msg) l i x y d : l !! i = Some x -> f y ≡ₚ f x ++ d -> mjoin (f <$> <[i := y]> l) ≡ₚ mjoin (f <$> l) ++ d.
Proof. intros Hi E. destruct (concat_update f l i x Hi) as (R & E1 & E2). rewrite E2, E1, E. solve_Permutation. Qed.

Lemma held_get {A} (f : A -> list Msg) l i x y d : l !! i = Some x -> f x ≡ₚ f y ++ d -> mjoin (f <$> l) ≡ₚ mjoin (f <$> <[i := y]> l) ++ d.
Proof. intros Hi E. destruct (concat_update f l i x Hi) as (R & E1 & E2). rewrite E2, E1, E. solve_Permutation. Qed.

Lemma gholds_push g m : gholds (setQueue g (g_queue g ++ [m])) ≡ₚ gholds g ++ [m].
Proof. unfold gholds. cbn. solve_Permutation. Qed.

Lemma gholds_pop g m l : g_queue g = m :: l -> gholds g ≡ₚ gholds (setQueue g l) ++ [m].
Proof. unfold gholds. cbn. intros ->. solve_Permutation. Qed.

Lemma gholds_worker g i w0 w d : g_workers g !! i = Some w0 -> wholds w0 = wholds w ++ d -> gholds g ≡ₚ gholds (setWorker g i w) ++ d.
Proof.
  intros Hi E. unfold gholds. cbn. rewrite (held_get wholds _ _ _ w d Hi); [solve_Permutation|by rewrite E].
Qed.

Lemma gholds_exit g i w0 d : g_workers g !! i = Some w0 -> wholds w0 = d -> gholds g ≡ₚ gholds (workerExit g i) ++ d.
Proof. intros Hi E. exact (gholds_worker g i w0 WExited d Hi E). Qed.

Lemma gholds_take g i m l : g_workers g !! i = Some WIdle -> g_queue g = m :: l -> gholds g ≡ₚ gholds (setWorker (setQueue g l) i (WServing m)).
Proof.
  intros Hi E. rewrite (gholds_pop _ _ _ E). unfold gholds. cbn.
  rewrite (held_put wholds _ _ _ (WServing m) [m] Hi) by done. solve_Permutation.
Qed.

Lemma gholds_new b c : gholds (newGeneration b c) = [].
Proof. unfold gholds. cbn. induction c; [done|]. cbn. done. Qed.

Lemma held_same {A} (f : A -> list Msg) l i x y : l !! i = Some x -> f y = f x -> mjoin (f <$> <[i := y]> l) = mjoin (f <$> l).
Proof. intros Hi E. f_equal. rewrite list_fmap_insert, E. apply list_insert_id. by rewrite list_lookup_fmap, Hi. Qed.

(** Bring the holdings after a step in terms of those before it, or the other
    way around. *)
Ltac move_gen Hs :=
  match goal with
  | H : gens ?s !! ?q = Some ?g |- context [mjoin (gholds <$> <[?q := ?g']> (gens ?s))] =>
      first
        [ rewrite (held_same gholds _ _ _ g' H eq_refl)
        | rewrite (held_put gholds _ _ _ g' _ H (gholds_push _ _))
        | erewrite (held_get gholds _ _ _ g' _ H) in Hs;
          [|first [by eapply gholds_pop | by eapply gholds_worker | by eapply gholds_exit | by rewrite app_nil_r; eapply gholds_take]] ]
  end.
Ltac move_thread Hs :=
  match goal with
  | H : threads ?s !! ?t = Some ?th |- context [mjoin (tholds <$> <[?t := ?th']> (threads ?s))] =>
      first
        [ rewrite (held_same tholds _ _ _ th' H eq_refl)
        | rewrite (held_put tholds _ _ _ th' (tholds th') H) by done
        | rewrite (held_get tholds _ _ _ th' (tholds th) H) in Hs by done ]
  end.

Lemma step_holdings s l s' : sent s ≡ₚ holdings s -> step s l = Some s' -> sent s' ≡ₚ holdings s'.
Proof.
  unfold holdings. intros Hs H.
  unfold_step H. destruct l; step_cases H; try done; open_state;
    repeat (erewrite (view_same tholds); [|eassumption|reflexivity]);
    rewrite ?fmap_app, ?join_app; cbn [fmap list_fmap mjoin list_join tholds]; rewrite ?gholds_new, ?app_nil_r; try done;
    try move_gen Hs; try move_thread Hs; rewrite Hs; cbn [tholds]; solve_Permutation.
Qed.

Lemma step_Conserve s l s' : Conserve s -> step s l = Some s' -> Conserve s'.
Proof.
  intros (Hs & Hn & Hw) H. split; [by eapply step_holdings|]. clear Hs.
  unfold_step H. destruct l; step_cases H; try done; open_state; try done;
    first [ by eapply sent_push | split; [done|]; intros; eauto using waits_app, waits_set ].
Qed.

(** ** The invariant of the gateway *)

Record Inv (s : State) : Prop := mkInv {
  inv_maps : Maps s;
  inv_local : Local s;
  inv_commit : Commit s;
  inv_pub : Pub s;
  inv_late : Late s;
  inv_conserve : Conserve s }.

Lemma step_Inv s l s' : Inv s -> step s l = Some s' -> Inv s'.
Proof.
  intros [] H. constructor; eauto using step_Maps, step_Local, step_Commit, step_Pub, step_Late, step_Conserve.
Qed.

Lemma Inv_initial : Inv initial.
Proof.
  constructor; unfold Maps, Local, Commit, Pub, Late, Conserve; cbn.
  - constructor; try done. all: intros *; by rewrite lookup_nil.
  - done.
  - intros q g. by rewrite lookup_nil.
  - intros k q g. by rewrite lookup_empty.
  - intros q g m. by rewrite lookup_nil.
  - split; [done|]. split; [constructor|]. by intros m ?%elem_of_nil.
Qed.

Lemma run_Inv s ls s' : Inv s -> run s ls = Some s' -> Inv s'.
Proof.
  revert s. induction ls as [|l ls IH]; cbn; intros s HI H; [by simplify_eq|].
  apply bind_Some in H as (s1 & H1 & H2). eapply IH; [|exact H2]. by eapply step_Inv.
Qed.

Lemma reachable_Inv s : reachable s -> Inv s.
Proof. intros [ls H]. eapply run_Inv; [apply Inv_initial|exact H]. Qed.

End ProviderQueueTheory.
