(* ===== verification/ProviderQueueLive.v ===== *)
(** * What the provider queues promise

    The properties of every interleaving that follow from the invariant of
    ProviderQueueTheory.v, and the progress of a removal: from every reachable
    state a removal under way can be finished by its own steps, the workers'
    and the cleanups', so it waits for nothing that cannot happen. *)

From S2P Require Import Prelude ProviderQueue ProviderQueueTheory.

Local Open Scope list_scope.

Module ProviderQueueLive.
Import ProviderQueue ProviderQueueTheory.

(** ** Safety *)

Definition idle_queue (g : Generation) : Prop := g_workers g = [].

Lemma no_live_exited g : liveCount g = 0 -> Forall (fun w => w = WExited) (g_workers g).
Proof.
  unfold liveCount. intros H%nil_length_inv. apply Forall_forall. intros w Hw.
  destruct (decide (w = WExited)) as [|N]; [done|].
  assert (w ∈ filter live (g_workers g)) as Hin by (by apply list_elem_of_filter). rewrite H in Hin. by apply elem_of_nil in Hin.
Qed.

Lemma open_has_worker g : gen_ok g -> g_closing g = false -> g_workers g <> [] -> exists w, w ∈ g_workers g /\ live w.
Proof.
  intros Hg Hc Hne. destruct (g_workers g) as [|w l] eqn:E; [done|]. exists w. split; [by left|].
  intros ->. assert (WExited ∈ g_workers g) as Hin by (rewrite E; by left). apply ok_exit in Hin; [|done]. by rewrite Hc in Hin.
Qed.

(** C21. Whatever the interleaving of requests, workers, updates and removals,
    every message that was put into a queue is in exactly one place: answered,
    abandoned by a worker that panicked, in one queue, in the hands of one
    worker, or carried by one update from the old queue to the new one. *)
Theorem messages_conserved s : reachable s ->
  sent s ≡ₚ answered s ++ abandoned s ++ mjoin (gholds <$> gens s) ++ mjoin (tholds <$> threads s) /\
  NoDup (answered s ++ abandoned s ++ mjoin (gholds <$> gens s) ++ mjoin (tholds <$> threads s)).
Proof.
  intros [_ _ _ _ _ (Hs & Hn & _)]%reachable_Inv. split; [exact Hs|]. by rewrite <- Hs.
Qed.

(** C4. A message in a queue has a worker that will take it or a thread that
    will sweep the queue, except where the queue was created without workers
    and where the message arrived after the sweep. *)
Theorem no_stranded_message s q g m : reachable s -> gens s !! q = Some g -> m ∈ g_queue g ->
  (exists w, w ∈ g_workers g /\ live w) \/ Some q ∈ (sweeps <$> threads s) \/ idle_queue g \/ m ∈ late s.
Proof.
  intros [_ [HG _] HC _ HL _]%reachable_Inv Hq Hm. pose proof (Forall_lookup_1 _ _ _ _ HG Hq) as Hg.
  destruct (g_closing g) eqn:Hc.
  - destruct (HC q g Hq Hc) as [Hs|?]; [|by auto]. right; right; right. by apply (HL q g).
  - destruct (decide (g_workers g = [])) as [?|Hne]; [by auto|]. left. by apply open_has_worker.
Qed.

(** The final sweep of a queue, by a removal or by the cleanup of an
    update, starts only when every worker of that generation has returned, so
    no worker competes with it for the queue. *)
Theorem sweep_after_workers s t th q g : reachable s -> threads s !! t = Some th ->
  (exists k, th = TRemover k q RDrain) \/ (exists k, th = TCleaner k q CDrain) -> gens s !! q = Some g ->
  g_closing g = true /\ g_done g = true /\ Forall (fun w => w = WExited) (g_workers g).
Proof.
  intros [_ [HG HT] _ _ _ _]%reachable_Inv Ht Hth Hq. pose proof (Forall_lookup_1 _ _ _ _ HG Hq) as Hg.
  pose proof (Forall_lookup_1 _ _ _ _ HT Ht) as Hok.
  assert (g_closing g = true /\ g_done g = true /\ g_wg g = 0) as (? & ? & Hz).
  { destruct Hth as [[k ->]|[k ->]]; by apply (at_gen_inv _ _ _ _ Hok Hq). }
  split; [done|]. split; [done|]. apply no_live_exited. by rewrite <- (ok_wg _ Hg).
Qed.

(** C40. Every reachable state is well formed: the wait group of a generation
    counts its workers that have not returned, its queue respects its capacity,
    [done] is closed only after [closing] is set; every published queue exists
    and belongs to one provider; at most one update or removal works on a
    provider and it holds that provider's lock. *)
Theorem queues_well_formed s : reachable s ->
  Forall gen_ok (gens s) /\ Forall (thread_ok (gens s)) (threads s) /\
  maps_ok (length (gens s)) (requestQueues s) (waitGroups s) (mutexes s) (claim <$> threads s).
Proof. intros [HM [HG HT] _ _ _ _]%reachable_Inv. done. Qed.

(** ** A signal that has begun is being finished *)

(** The generation whose [done] channel a thread is about to close. *)
Definition closer (th : Thread) : option nat :=
  match th with TRemover _ q RClose => Some q | TUpdater _ old _ UClose => Some old | _ => None end.

Definition signal_ok (gs : list Generation) (cl : list (option nat)) : Prop :=
  forall q g, gs !! q = Some g -> g_once g = OnceRunning -> Some q ∈ cl.

Definition Signal (s : State) : Prop := signal_ok (gens s) (closer <$> threads s).

Section SignalOk.
Context {gs : list Generation} {cl : list (option nat)}.
Hypothesis Hok : signal_ok gs cl.

Lemma signal_gen q g g' : gs !! q = Some g -> g_once g' = g_once g -> signal_ok (<[q := g']> gs) cl.
Proof. intros Hq Ho q' x [(-> & -> & _)|[N Hx]]%list_lookup_insert_Some; [|by apply Hok]. rewrite Ho. by apply Hok. Qed.

Lemma signal_new g : g_once g = OnceNotRun -> signal_ok (gs ++ [g]) cl.
Proof. intros Ho q x [Hx|[-> ->]]%snoc_lookup; [by apply Hok|]. by rewrite Ho. Qed.

Lemma signal_app x : signal_ok gs (cl ++ [x]).
Proof. intros q g Hq Ho. apply elem_of_app. left. by eapply Hok. Qed.

Lemma signal_begin t q g' : cl !! t = Some None -> signal_ok (<[q := g']> gs) (<[t := Some q]> cl).
Proof.
  intros Ht q' g [(-> & -> & _)|[N Hx]]%list_lookup_insert_Some Ho; [by eapply elem_insert_eq|].
  apply elem_insert_ne; [by eapply Hok|]. by rewrite Ht.
Qed.

Lemma signal_end t q g' : cl !! t = Some (Some q) -> g_once g' = OnceDone -> signal_ok (<[q := g']> gs) (<[t := None]> cl).
Proof.
  intros Ht Hd q' g [(-> & -> & _)|[N Hx]]%list_lookup_insert_Some Ho; [by rewrite Hd in Ho|].
  apply elem_insert_ne; [by eapply Hok|]. rewrite Ht. congruence.
Qed.
End SignalOk.

Lemma step_Signal s l s' : Signal s -> step s l = Some s' -> Signal s'.
Proof.
  unfold Signal. intros Hok H. unfold_step H. destruct l; step_cases H; try done; open_state; try done;
    rewrite ?fmap_app; repeat (erewrite (view_same closer); [|eassumption|reflexivity]); try done;
    eauto using signal_gen, signal_new, signal_app;
    rewrite ?list_fmap_insert; cbn [fmap list_fmap closer].
  - by eapply signal_begin, (view_lookup closer).
  - by eapply signal_end; [|eapply (view_lookup closer)|].
  - by eapply signal_begin, (view_lookup closer).
  - by eapply signal_app, signal_end; [|eapply (view_lookup closer)|].
Qed.

(** ** The count of retired generations *)

(** The provider for which a thread holds a retirement. *)
Definition retiring (th : Thread) : option Key :=
  match th with
  | TUpdater k _ _ USignal | TUpdater k _ _ UClose => Some k
  | TCleaner k _ CWait | TCleaner k _ CDrain => Some k
  | _ => None
  end.

Definition occurrences (k : Key) (l : list (option Key)) : nat := length (filter (fun x => x = Some k) l).

Definition Retired (s : State) : Prop := forall k, retiredCount s k = occurrences k (retiring <$> threads s).

Lemma occurrences_app k l l' : occurrences k (l ++ l') = occurrences k l + occurrences k l'.
Proof. unfold occurrences. by rewrite filter_app, length_app. Qed.

Definition hit (k : Key) (x : option Key) : nat := if decide (x = Some k) then 1 else 0.

Lemma occurrences_insert k l t x y : l !! t = Some x -> occurrences k (<[t := y]> l) + hit k x = occurrences k l + hit k y.
Proof.
  unfold occurrences, hit. revert t. induction l as [|z l IH]; intros [|t] Ht; cbn in Ht; try done.
  - injection Ht as ->. change (<[0 := y]> (x :: l)) with (y :: l). rewrite !filter_cons.
    repeat case_decide; cbn [length]; lia.
  - change (<[S t := y]> (z :: l)) with (z :: <[t := y]> l). rewrite !filter_cons. specialize (IH t Ht).
    repeat case_decide; cbn [length] in *; lia.
Qed.

Lemma occurrences_one k x : occurrences k [x] = hit k x.
Proof. unfold occurrences, hit. rewrite filter_cons. by case_decide. Qed.

Lemma occurrences_thread k s t th th' : threads s !! t = Some th ->
  occurrences k (retiring <$> <[t := th']> (threads s)) + hit k (retiring th) = occurrences k (retiring <$> threads s) + hit k (retiring th').
Proof. intros Ht. rewrite list_fmap_insert. by eapply occurrences_insert, (view_lookup retiring). Qed.

Lemma hit_none k : hit k None = 0.
Proof. done. Qed.

Lemma hit_some k k' : hit k (Some k') = if decide (k' = k) then 1 else 0.
Proof. unfold hit. repeat case_decide; congruence. Qed.

Lemma step_Retired s l s' : Retired s -> step s l = Some s' -> Retired s'.
Proof.
  unfold Retired. intros Hok H k0. specialize (Hok k0).
  unfold_step H. destruct l; step_cases H; try done; unfold retiredCount in *; open_state; try done;
    rewrite ?fmap_app, ?occurrences_app; cbn [fmap list_fmap retiring];
    repeat (erewrite (view_same retiring); [|eassumption|reflexivity]); rewrite ?occurrences_one, ?hit_none; try lia;
    pose proof (fun th => occurrences_thread k0 s t _ th H0) as E; cbn [retiring] in E; rewrite ?hit_some, ?hit_none in *.
  - specialize (E (TUpdater k old new USignal)). cbn [retiring] in E. rewrite ?hit_some, ?hit_none in E.
    case_decide; [subst; rewrite lookup_insert_eq, Hok; cbn [from_option]; unfold id; lia|rewrite lookup_insert_ne by done; lia].
  - specialize (E (TUpdater k old new UReturned)). cbn [retiring] in E. rewrite ?hit_some, ?hit_none in E. lia.
  - specialize (E (TUpdater k old new UReturned)). cbn [retiring] in E. rewrite ?hit_some, ?hit_none in E. lia.
  - specialize (E (TCleaner k q CReturned)). cbn [retiring] in E. rewrite ?hit_some, ?hit_none in E.
    case_decide; [subst; rewrite lookup_insert_eq, Hok; cbn [from_option]; unfold id; lia|rewrite lookup_insert_ne by done; lia].
Qed.

(** ** Progress of a removal *)

Record LiveInv (s : State) : Prop := mkLiveInv { live_inv : Inv s; live_signal : Signal s; live_retired : Retired s }.

Lemma step_LiveInv s l s' : LiveInv s -> step s l = Some s' -> LiveInv s'.
Proof. intros [] H. constructor; eauto using step_Inv, step_Signal, step_Retired. Qed.

Lemma reachable_LiveInv s : reachable s -> LiveInv s.
Proof.
  intros [ls H]. assert (LiveInv initial) as HI.
  { constructor; [apply Inv_initial|by intros q g|done]. }
  revert HI H. generalize initial as s0. induction ls as [|l ls IH]; cbn; intros s0 HI H; [by simplify_eq|].
  apply bind_Some in H as (s1 & H1 & H2). eapply IH; [|exact H2]. by eapply step_LiveInv.
Qed.

Fixpoint total {A} (f : A -> nat) (l : list A) : nat := match l with [] => 0 | x :: l => f x + total f l end.

Lemma total_insert {A} (f : A -> nat) l i x y : l !! i = Some x -> total f (<[i := y]> l) + f x = total f l + f y.
Proof.
  revert i. induction l as [|z l IH]; intros [|i] Hi; cbn in Hi; try done.
  - injection Hi as ->. change (<[0 := y]> (x :: l)) with (y :: l). cbn [total]. lia.
  - change (<[S i := y]> (z :: l)) with (z :: <[i := y]> l). cbn [total]. specialize (IH i Hi). lia.
Qed.

(** What is left to do: queued messages, the states of the workers, and the
    removals and cleanups under way. *)
Definition wrank (w : Worker) : nat := match w with WServing _ => 3 | WIdle => 2 | WDraining => 1 | WExited => 0 end.
Definition grank (g : Generation) : nat := length (g_queue g) + total wrank (g_workers g).
Definition trank (th : Thread) : nat :=
  match th with
  | TRemover _ _ pc => match pc with RSignal => 5 | RClose => 4 | RWait => 3 | RDrain => 2 | RRetired => 1 | RReturned => 0 end
  | TCleaner _ _ pc => match pc with CWait => 2 | CDrain => 1 | CReturned => 0 end
  | _ => 0
  end.
Definition rank (s : State) : nat := total grank (gens s) + total trank (threads s).

Lemma grank_worker g i w w' : g_workers g !! i = Some w -> grank (setWorker g i w') + wrank w = grank g + wrank w'.
Proof. intros Hi. unfold grank. cbn [setWorker g_queue g_workers]. pose proof (total_insert wrank _ _ _ w' Hi). lia. Qed.

Lemma rank_gen s q g g' : gens s !! q = Some g -> rank (setGen s q g') + grank g = rank s + grank g'.
Proof. intros Hq. unfold rank. cbn [setGen gens threads]. pose proof (total_insert grank _ _ _ g' Hq). lia. Qed.

Lemma rank_thread s t th th' : threads s !! t = Some th -> rank (setThread s t th') + trank th = rank s + trank th'.
Proof. intros Ht. unfold rank. cbn [setThread gens threads]. pose proof (total_insert trank _ _ _ th' Ht). lia. Qed.

(** The steps that a removal can count on: its own, those of the cleanups, and
    those of workers that finish, notice [done], drain or return. *)
Definition helper (t : nat) (l : Label) : bool :=
  match l with
  | LRemover t' => (t' =? t)%nat
  | LCleaner _ => true
  | LWorker _ _ act => match act with WReply | WSeeDone | WDrainOne | WDrainEnd => true | _ => false end
  | _ => false
  end.

(** A generation that is done and has workers left lets one of them move. *)
Lemma worker_progress s q g t : gens s !! q = Some g -> gen_ok g -> g_done g = true -> g_wg g <> 0 ->
  exists l s', helper t l = true /\ step s l = Some s' /\ rank s' < rank s /\ threads s' = threads s.
Proof.
  intros Hq Hg Hd Hwg. rewrite (ok_wg _ Hg) in Hwg. unfold liveCount in Hwg.
  destruct (filter live (g_workers g)) as [|w r] eqn:E; [done|].
  assert (w ∈ filter live (g_workers g)) as Hin by (rewrite E; by left). apply list_elem_of_filter in Hin as [Hl Hin].
  apply list_elem_of_lookup in Hin as [i Hi]. pose proof (fun w' => grank_worker g i w w' Hi) as Hr.
  pose proof (fun g' => rank_gen s q g g' Hq) as Hs.
  destruct w as [|m| |]; [| | |done].
  - exists (LWorker q i WSeeDone), (setGen s q (setWorker g i WDraining)). unfold step, workerStep. rewrite Hq. cbn [mbind option_bind]. rewrite Hi. cbn [mbind option_bind]. rewrite Hd.
    specialize (Hr WDraining). specialize (Hs (setWorker g i WDraining)). cbn [wrank] in Hr. repeat split; lia.
  - exists (LWorker q i WReply), (answer (setGen s q (setWorker g i WIdle)) m). unfold step, workerStep. rewrite Hq. cbn [mbind option_bind]. rewrite Hi. cbn [mbind option_bind].
    specialize (Hr WIdle). specialize (Hs (setWorker g i WIdle)). cbn [wrank] in Hr. repeat split. unfold rank in *. cbn in *. lia.
  - destruct (g_queue g) as [|m rest] eqn:Eq.
    + exists (LWorker q i WDrainEnd), (setGen s q (workerExit g i)). unfold step, workerStep. rewrite Hq. cbn [mbind option_bind]. rewrite Hi. cbn [mbind option_bind]. rewrite Eq.
      specialize (Hr WExited). specialize (Hs (workerExit g i)). cbn [wrank] in Hr. unfold grank in *. cbn in *. repeat split; lia.
    + exists (LWorker q i WDrainOne), (answer (setGen s q (setQueue g rest)) m). unfold step, workerStep. rewrite Hq. cbn [mbind option_bind]. rewrite Hi. cbn [mbind option_bind]. rewrite Eq.
      specialize (Hs (setQueue g rest)). unfold grank in Hs. cbn in Hs. rewrite Eq in Hs. cbn in Hs.
      repeat split. unfold rank in *. cbn in *. lia.
Qed.

Lemma cleaner_progress s t t' k q pc : Local s -> threads s !! t' = Some (TCleaner k q pc) -> pc <> CReturned ->
  exists l s', helper t l = true /\ step s l = Some s' /\ rank s' < rank s /\ forall j, j <> t' -> threads s' !! j = threads s !! j.
Proof.
  intros [HG HT] Ht Hpc. pose proof (Forall_lookup_1 _ _ _ _ HT Ht) as (g & Hq & Hth).
  pose proof (Forall_lookup_1 _ _ _ _ HG Hq) as Hg.
  assert (forall s0 th j, j <> t' -> threads (setThread s0 t' th) !! j = threads s0 !! j) as Hne
    by (intros; cbn [setThread threads]; by rewrite list_lookup_insert_ne).
  destruct pc; [| |done].
  - destruct (decide (g_wg g = 0)) as [Hz|Hz].
    + exists (LCleaner t'), (setThread s t' (TCleaner k q CDrain)). unfold step, cleanerStep. rewrite Ht, Hq. cbn [mbind option_bind].
      rewrite Hz. pose proof (rank_thread _ _ _ (TCleaner k q CDrain) Ht) as Hr. cbn [trank] in Hr. repeat split; [lia|by apply Hne].
    + destruct Hth as [_ Hd]. destruct (worker_progress s q g t Hq Hg Hd Hz) as (l & s' & ? & ? & ? & E).
      exists l, s'. repeat split; [done..|]. intros. by rewrite E.
  - exists (LCleaner t'). unfold step, cleanerStep. rewrite Ht, Hq. cbn [mbind option_bind]. unfold drainStep.
    destruct (g_queue g) as [|m rest] eqn:Eq; eexists; (repeat split; [|intros j Hj; by apply (list_lookup_insert_ne (threads s))]).
    + pose proof (rank_gen s q g (setSwept g) Hq) as Hs. pose proof (rank_thread s t' _ (TCleaner k q CReturned) Ht) as Hr.
      unfold rank, grank in *. cbn [setRetired setThread setGen gens threads setSwept g_queue g_workers trank] in *. lia.
    + pose proof (rank_gen s q g (setQueue g rest) Hq) as Hs. pose proof (rank_thread s t' _ (TCleaner k q CDrain) Ht) as Hr.
      unfold rank, grank in *. cbn [setRetired setThread setGen answer gens threads setQueue g_queue g_workers trank] in *.
      rewrite Eq in Hs. cbn [length] in Hs. lia.
Qed.

(** A signal under way on the queue being removed is the removal's own. *)
Lemma remover_signal_free s t k q g : LiveInv s -> threads s !! t = Some (TRemover k q RSignal) -> gens s !! q = Some g -> g_once g <> OnceRunning.
Proof.
  intros [[HM _ _ _ _ _] HS _] Ht Hq Ho. pose proof (HS q g Hq Ho) as Hin.
  apply list_elem_of_lookup in Hin as [t' Ht']. rewrite list_lookup_fmap in Ht'.
  destruct (claim_owns _ _ _ _ HM Ht eq_refl) as [Hk _]. cbn in Hk.
  destruct (threads s !! t') as [[|k' q' []|k' old new []|]|] eqn:E; cbn in Ht'; simplify_eq.
  - destruct (claim_owns _ _ _ _ HM E eq_refl) as [Hk' _]. cbn in Hk'. pose proof (mo_inj _ _ _ _ _ HM _ _ _ Hk Hk') as <-.
    pose proof (mo_unique _ _ _ _ _ HM t t' _ _ (view_lookup claim _ _ _ _ Ht eq_refl) (view_lookup claim _ _ _ _ E eq_refl) eq_refl).
    by simplify_eq.
  - destruct (claim_owns _ _ _ _ HM E eq_refl) as [_ Hn]. by apply (Hn q k eq_refl) in Hk.
Qed.

(** What still counts as retired while a removal waits for it is a cleanup. *)
Lemma retired_cleaner s t k q pc : LiveInv s -> threads s !! t = Some (TRemover k q pc) -> pc <> RReturned -> retiredCount s k <> 0 ->
  exists t' q' pc', threads s !! t' = Some (TCleaner k q' pc') /\ pc' <> CReturned /\ t' <> t.
Proof.
  intros [[HM _ _ _ _ _] _ HR] Ht Hpc Hn. rewrite HR in Hn. unfold occurrences in Hn.
  destruct (filter _ _) as [|x r] eqn:E; [done|]. assert (x ∈ filter (fun x => x = Some k) (retiring <$> threads s)) as Hin by (rewrite E; by left).
  apply list_elem_of_filter in Hin as [-> Hin]. apply list_elem_of_lookup in Hin as [t' Ht']. rewrite list_lookup_fmap in Ht'.
  assert (claim (TRemover k q pc) = Some (mkClaim k q None)) as Hc by (by destruct pc).
  destruct (threads s !! t') as [[| |k' old new pc'|k' q' pc']|] eqn:E'; cbn in Ht'; simplify_eq; destruct pc'; simplify_eq;
  first [ exists t', q'; eexists; split; [exact E'|]; split; [done|congruence]
        | pose proof (mo_unique _ _ _ _ _ HM t t' _ _ (view_lookup claim _ _ _ _ Ht Hc) (view_lookup claim _ _ _ _ E' eq_refl) eq_refl); by simplify_eq ].
Qed.

(** One helper step brings a removal closer to its end. *)
Definition advances (s : State) (t : nat) (k : Key) (q : nat) : Prop :=
  exists l s' pc', helper t l = true /\ step s l = Some s' /\ rank s' < rank s /\
    threads s' !! t = Some (TRemover k q pc') /\ (pc' = RReturned -> requestQueues s' !! k = None).

Lemma advances_other s t k q pc : threads s !! t = Some (TRemover k q pc) -> pc <> RReturned ->
  (exists l s', helper t l = true /\ step s l = Some s' /\ rank s' < rank s /\ threads s' !! t = threads s !! t) -> advances s t k q.
Proof. intros Ht Hpc (l & s' & Hl & Hs & Hr & E). exists l, s', pc. rewrite E. by repeat split. Qed.

(** The removal's own step, given by the state before its program counter moves. *)
Lemma advances_self s t k q pc s0 pc' : threads s !! t = Some (TRemover k q pc) ->
  step s (LRemover t) = Some (setThread s0 t (TRemover k q pc')) -> threads s0 = threads s ->
  total grank (gens s0) + trank (TRemover k q pc') < total grank (gens s) + trank (TRemover k q pc) ->
  (pc' = RReturned -> requestQueues s0 !! k = None) -> advances s t k q.
Proof.
  intros Ht Hs E Hlt Hret. exists (LRemover t), (setThread s0 t (TRemover k q pc')), pc'. split; [apply Nat.eqb_refl|].
  split; [done|]. split; [|split; [|done]].
  - unfold rank. cbn [setThread gens threads]. rewrite E. pose proof (total_insert trank _ _ _ (TRemover k q pc') Ht). lia.
  - cbn [setThread threads]. rewrite E. by eapply list_lookup_insert_eq, lookup_lt_Some.
Qed.

Lemma grank_swap gs q g g' : gs !! q = Some g -> total grank (<[q := g']> gs) + grank g = total grank gs + grank g'.
Proof. apply total_insert. Qed.

Ltac own_step Ht Hq := unfold step, removerStep; rewrite Ht, Hq; cbn [mbind option_bind].

Lemma removal_advances s t k q pc : LiveInv s -> threads s !! t = Some (TRemover k q pc) -> pc <> RReturned -> advances s t k q.
Proof.
  intros HI Ht Hpc. pose proof (live_inv _ HI) as [HM HL _ _ _ _]. destruct HL as [HG HT].
  pose proof (Forall_lookup_1 _ _ _ _ HT Ht) as (g & Hq & Hth). pose proof (Forall_lookup_1 _ _ _ _ HG Hq) as Hg.
  pose proof (fun g' => grank_swap (gens s) q g g' Hq) as Hr.
  destruct pc; [..|done].
  - destruct (g_once g) eqn:Ho; [|by destruct (remover_signal_free _ _ _ _ _ HI Ht Hq)|].
    + eapply (advances_self _ _ _ _ _ (setGen s q (storeClosing g)) RClose Ht); [|done| |done].
      * own_step Ht Hq. by rewrite Ho.
      * specialize (Hr (storeClosing g)). unfold grank in *. cbn [setGen gens storeClosing g_queue g_workers trank] in *. lia.
    + eapply (advances_self _ _ _ _ _ s RWait Ht); [|done|cbn [trank]; lia|done].
      own_step Ht Hq. by rewrite Ho.
  - eapply (advances_self _ _ _ _ _ (setGen s q (closeDone g)) RWait Ht); [|done| |done].
    + by own_step Ht Hq.
    + specialize (Hr (closeDone g)). unfold grank in *. cbn [setGen gens closeDone g_queue g_workers trank] in *. lia.
  - destruct Hth as [_ Hd]. destruct (decide (g_wg g = 0)) as [Hz|Hz].
    + eapply (advances_self _ _ _ _ _ s RDrain Ht); [|done|cbn [trank]; lia|done].
      own_step Ht Hq. rewrite (remover_waits _ _ _ _ _ HM Ht eq_refl).
      rewrite Hq. cbn [mbind option_bind]. by rewrite Hz.
    + eapply advances_other; [done..|]. destruct (worker_progress s q g t Hq Hg Hd Hz) as (l & s' & ? & ? & ? & E).
      exists l, s'. by rewrite E.
  - destruct (g_queue g) as [|m rest] eqn:Eq.
    + eapply (advances_self _ _ _ _ _ (setGen s q (setSwept g)) RRetired Ht); [|done| |done].
      * own_step Ht Hq. unfold drainStep. by rewrite Eq.
      * specialize (Hr (setSwept g)). unfold grank in *. cbn [setGen gens setSwept g_queue g_workers trank] in *. lia.
    + eapply (advances_self _ _ _ _ _ (answer (setGen s q (setQueue g rest)) m) RDrain Ht); [|done| |done].
      * own_step Ht Hq. unfold drainStep. by rewrite Eq.
      * specialize (Hr (setQueue g rest)). unfold grank in Hr. cbn [answer setGen gens setQueue g_queue g_workers trank] in *.
        rewrite Eq in Hr. cbn [length] in Hr. unfold grank in *. lia.
  - destruct (decide (retiredCount s k = 0)) as [Hz|Hz].
    + eapply (advances_self _ _ _ _ _ (unlock (unpublish s k) k) RReturned Ht); [|done|cbn [trank unlock unpublish gens]; lia|].
      * own_step Ht Hq. by rewrite Hz.
      * intros _. apply lookup_delete_eq.
    + eapply advances_other; [done..|]. destruct (retired_cleaner _ _ _ _ _ HI Ht Hpc Hz) as (t' & q' & pc' & Ht' & Hpc' & N).
      destruct (cleaner_progress s t t' k q' pc' (conj HG HT) Ht' Hpc') as (l & s' & ? & ? & ? & E).
      exists l, s'. rewrite (E t) by congruence. done.
Qed.

(** C22. A removal never blocks for good: from every reachable state in which a
    provider is being removed, its own steps, the steps of workers that finish
    or return and those of the cleanups lead to its end, with the provider
    forgotten; no new request, update or other removal is needed. *)
Theorem removal_finishes s t k q pc : reachable s -> threads s !! t = Some (TRemover k q pc) -> pc <> RReturned ->
  exists ls s', Forall (fun l => helper t l = true) ls /\ run s ls = Some s' /\
    threads s' !! t = Some (TRemover k q RReturned) /\ requestQueues s' !! k = None.
Proof.
  intros HI%reachable_LiveInv. remember (rank s) as n eqn:En. revert s pc HI En.
  induction (lt_wf n) as [n _ IH]. intros s pc HI -> Ht Hpc.
  destruct (removal_advances _ _ _ _ _ HI Ht Hpc) as (l & s1 & pc1 & Hl & Hs & Hr & Ht1 & Hret).
  destruct (decide (pc1 = RReturned)) as [->|N].
  - exists [l], s1. split; [by repeat constructor|]. cbn [run]. rewrite Hs. auto.
  - destruct (IH (rank s1) Hr s1 pc1 (step_LiveInv _ _ _ HI Hs) eq_refl Ht1 N) as (ls & s' & Hls & Hrun & ?).
    exists (l :: ls), s'. split; [by constructor|]. cbn [run]. by rewrite Hs.
Qed.

(** ** The two ways a message can be left behind *)

(** Steps of requests and workers; updates, removals and cleanups stand still. *)
Definition ordinary (l : Label) : bool :=
  match l with LRemover _ | LUpdate _ _ | LUpdater _ | LCleaner _ => false | _ => true end.

Definition stuck_at (s : State) (q : nat) (m : Msg) : Prop := exists g, gens s !! q = Some g /\ g_workers g = [] /\ m ∈ g_queue g.

Lemma stuck_set s q m q' g g' : stuck_at s q m -> gens s !! q' = Some g ->
  (q' = q -> g_workers g = [] -> m ∈ g_queue g -> g_workers g' = [] /\ m ∈ g_queue g') ->
  exists x, <[q' := g']> (gens s) !! q = Some x /\ g_workers x = [] /\ m ∈ g_queue x.
Proof.
  intros (x & Hx & Hw & Hm) Hq' Hkeep. destruct (decide (q' = q)) as [->|N].
  - simplify_eq. exists g'. split; [by eapply list_lookup_insert_eq, lookup_lt_Some|]. by apply Hkeep.
  - exists x. by rewrite list_lookup_insert_ne.
Qed.

Lemma stuck_step s l s' q m : stuck_at s q m -> ordinary l = true -> step s l = Some s' -> stuck_at s' q m.
Proof.
  intros Hst Hord H. pose proof Hst as (x & Hx & Hw & Hm). unfold stuck_at.
  unfold_step H. destruct l; try discriminate Hord; step_cases H; open_state;
    try (by exists x); try (exists x; split; [by apply lookup_app_l_Some|done]);
    (eapply stuck_set; [done..|]); cbn [setQueue setWorker workerExit g_workers g_queue]; intros -> E Hin;
    first [ split; [done|]; apply elem_of_app; by left | by rewrite E in * ].
Qed.

Lemma stuck_run s ls s' q m : stuck_at s q m -> Forall (fun l => ordinary l = true) ls -> run s ls = Some s' -> stuck_at s' q m.
Proof.
  revert s. induction ls as [|l ls IH]; cbn; intros s Hst Hls H; [by simplify_eq|].
  apply bind_Some in H as (s1 & H1 & H2). inversion Hls; subst. eapply IH; [|done|exact H2]. by eapply stuck_step.
Qed.

Lemma pq_run_app s ls ls' : run s (ls ++ ls') = (run s ls ≫= fun s1 => run s1 ls').
Proof. revert s. induction ls as [|l ls IH]; intros s; [done|]. cbn. destruct (step s l) as [s1|]; [apply IH|done]. Qed.

Lemma gens_hold (l : list Generation) q g (m : Msg) : l !! q = Some g -> m ∈ g_queue g -> m ∈ mjoin (gholds <$> l).
Proof.
  intros Hq Hm. apply list_elem_of_join. exists (gholds g). split; [apply elem_of_app; by left|].
  apply list_elem_of_fmap. exists g. split; [done|]. by eapply list_elem_of_lookup_2.
Qed.

Lemma held_not_answered s q g m : Inv s -> gens s !! q = Some g -> m ∈ g_queue g -> m ∉ answered s.
Proof.
  intros [_ _ _ _ _ (Hs & Hn & _)] Hq Hm Ha. rewrite Hs in Hn. unfold holdings in Hn. apply NoDup_app in Hn as (_ & Hn & _).
  apply (Hn m Ha). apply elem_of_app. right. apply elem_of_app. left. by eapply gens_hold.
Qed.

(** The first request of a provider fails because its constructor fails; the
    second one is accepted by the queue that was left behind. *)
Definition failed_start (k : Key) (c c' : Config) : list Label := [LRequest k c; LRequest k c'; LCheck 1 k; LSend 1].

Lemma failed_start_stuck k b n c' : exists s, run initial (failed_start k (mkConfig (S b) n false) c') = Some s /\ stuck_at s 0 1.
Proof.
  eexists. split.
  - unfold failed_start, run, step, request, prepareProvider, initial. cbn [mutexes requestQueues].
    rewrite bool_decide_eq_false_2 by set_solver. rewrite lookup_empty.
    cbn -[lookup insert]. rewrite bool_decide_eq_false_2 by set_solver. rewrite lookup_insert_eq.
    cbn. reflexivity.
  - eexists. split; [reflexivity|]. split; [done|]. cbn. by left.
Qed.

(** A provider whose constructor fails keeps the queue that was stored
    before it was constructed: the next request is put into that queue, which
    has no workers, and whatever requests and workers do from then on it is
    never answered. *)
Theorem failed_provider_hangs k b n c' ls s' : Forall (fun l => ordinary l = true) ls ->
  run initial (failed_start k (mkConfig (S b) n false) c' ++ ls) = Some s' -> 1 ∈ sent s' /\ 1 ∉ answered s'.
Proof.
  intros Hls H. destruct (failed_start_stuck k b n c') as (s & Hs & Hst). pose proof H as Hrun.
  rewrite pq_run_app, Hs in H. cbn [mbind option_bind] in H. apply (stuck_run _ _ _ _ _ Hst Hls) in H as (g & Hq & _ & Hm).
  assert (Inv s') as HI by (by apply reachable_Inv; eexists). split; [|by eapply held_not_answered].
  destruct HI as [_ _ _ _ _ (Hsent & _ & _)]. rewrite Hsent. unfold holdings. apply elem_of_app. right. apply elem_of_app. right.
  apply elem_of_app. left. by eapply gens_hold.
Qed.

(** ** Concrete runs *)

Definition cfg : Config := mkConfig 2 1 true.
Local Abbreviation p := "openai"%string.

(** Two requests, one taken by the worker, the provider being updated while the
    other is carried over. *)
Definition demo_update : list Label :=
  [LRequest p cfg; LCheck 0 p; LSend 0; LRequest p cfg; LCheck 1 p; LSend 1; LWorker 0 0 WTake; LUpdate p cfg; LUpdater 2].

(** A request that has passed its check, then a removal up to its sweep. *)
Definition demo_remove : list Label :=
  [LRequest p cfg; LCheck 0 p; LRemove p; LRemover 1; LRemover 1; LWorker 0 0 WSeeDone; LWorker 0 0 WDrainEnd; LRemover 1].

(** The send after the sweep: both cases of the select were ready. *)
Definition demo_late : list Label := demo_remove ++ [LRemover 1; LSend 0].

Definition state_of (ls : list Label) : State := default initial (run initial ls).

Lemma pq_demo_reachable ls : is_Some (run initial ls) -> reachable (state_of ls).
Proof. intros [s Hs]. exists ls. unfold state_of. by rewrite Hs. Qed.

(** A message can indeed arrive after the sweep, and then nobody takes it. *)
Example late_message_left : late (state_of demo_late) = [0] /\ g_queue <$> gens (state_of demo_late) = [[0]].
Proof. vm_compute. done. Qed.

Lemma messages_conserved_witness : let s := state_of demo_update in
  sent s = [0; 1] /\ tholds <$> threads s = [[]; []; [1]] /\ gholds <$> gens s = [[0]; []] /\
  NoDup (answered s ++ abandoned s ++ mjoin (gholds <$> gens s) ++ mjoin (tholds <$> threads s)).
Proof.
  split; [by vm_compute|]. split; [by vm_compute|]. split; [by vm_compute|].
  apply (messages_conserved (state_of demo_update)), pq_demo_reachable. vm_compute. by eexists.
Defined.

Lemma no_stranded_message_witness : let s := state_of (take 3 demo_update) in
  exists g, gens s !! 0 = Some g /\ g_queue g = [0] /\
  ((exists w, w ∈ g_workers g /\ live w) \/ Some 0 ∈ (sweeps <$> threads s) \/ idle_queue g \/ 0 ∈ late s).
Proof.
  eexists. split; [by vm_compute|]. split; [by vm_compute|].
  apply (no_stranded_message (state_of (take 3 demo_update)) 0).
  - apply pq_demo_reachable. vm_compute. by eexists.
  - by vm_compute.
  - vm_compute. by left.
Defined.

Lemma sweep_after_workers_witness : let s := state_of demo_remove in
  exists g, gens s !! 0 = Some g /\ g_closing g = true /\ g_done g = true /\ Forall (fun w => w = WExited) (g_workers g).
Proof.
  eexists. split; [by vm_compute|]. apply (sweep_after_workers (state_of demo_remove) 1 (TRemover p 0 RDrain) 0).
  - apply pq_demo_reachable. vm_compute. by eexists.
  - by vm_compute.
  - left. by eexists.
  - by vm_compute.
Defined.

Lemma queues_well_formed_witness : let s := state_of demo_update in length (gens s) = 2 /\ Forall gen_ok (gens s).
Proof.
  split; [by vm_compute|]. apply (queues_well_formed (state_of demo_update)), pq_demo_reachable. vm_compute. by eexists.
Defined.

Lemma removal_finishes_witness : let s := state_of (take 4 demo_remove) in
  exists ls s', Forall (fun l => helper 1 l = true) ls /\ run s ls = Some s' /\
    threads s' !! 1 = Some (TRemover p 0 RReturned) /\ requestQueues s' !! p = None.
Proof.
  apply (removal_finishes (state_of (take 4 demo_remove)) 1 p 0 RClose).
  - apply pq_demo_reachable. vm_compute. by eexists.
  - by vm_compute.
  - done.
Defined.

Lemma failed_provider_hangs_witness :
  exists s', run initial (failed_start p (mkConfig 1 4 false) cfg ++ [LRequest p cfg]) = Some s' /\ 1 ∈ sent s' /\ 1 ∉ answered s'.
Proof.
  eexists. split; [by vm_compute|]. apply (failed_provider_hangs p 0 4 cfg [LRequest p cfg]); [by repeat constructor|by vm_compute].
Defined.

End ProviderQueueLive.
