(* ===== verification/Calendar.v ===== *)
(** * The calendar of Go's [time] package

    An instant is the number of nanoseconds since the Unix epoch; the civil
    calendar is the proleptic Gregorian one in UTC.  Months are counted
    absolutely (year * 12 + month - 1), so that they form one increasing
    sequence of boundaries.  [Year], [Month], [Day], [Weekday], [Date] and
    [Sub] are the parts of the package the reset windows use. *)

From S2P Require Import Prelude.
From Stdlib Require Import Ascii.

Local Open Scope Z_scope.

Module Calendar.

Definition Time := Z.
Definition Duration := Z.

Definition Millisecond : Duration := 1000000.
Definition Second : Duration := 1000000000.
Definition Hour : Duration := 3600 * Second.
Definition dayNs : Z := 24 * Hour.

(** [time.Time{}]: the first instant of the year one. *)
Definition zeroTime : Time := -62135596800 * Second.
Definition IsZero (t : Time) : bool := t =? zeroTime.

(** [t.Sub(u)] saturates at the ends of [int64]. *)
Definition Sub (t u : Time) : Duration := Z.max (- two63) (Z.min (two63 - 1) (t - u)).

(** ** Days and months *)

Definition day_of (t : Time) : Z := t / dayNs.
Definition day_start (d : Z) : Time := d * dayNs.

(** The first day of the year that begins on the first of March, from the first
    of March of year 0. *)
Definition year_start (y : Z) : Z := 365 * y + y / 4 - y / 100 + y / 400.

(** Days from the first of March of year 0 to the epoch. *)
Definition epochOffset : Z := 719468.

(** The first day of an absolute month, as days since the epoch. *)
Definition month_start (m : Z) : Z :=
  let y := (m - 2) / 12 in let k := (m - 2) mod 12 in year_start y + (153 * k + 2) / 5 - epochOffset.

(** The March-based year of a day: an estimate, corrected by at most one. *)
Definition year_of (z : Z) : Z :=
  let y := z * 400 / 146097 in
  if z <? year_start y then y - 1 else if year_start (y + 1) <=? z then y + 1 else y.

(** The absolute month of a day. *)
Definition month_of (d : Z) : Z :=
  let z := d + epochOffset in let y := year_of z in
  12 * y + (5 * (z - year_start y) + 2) / 153 + 2.

Definition Year (t : Time) : Z := month_of (day_of t) / 12.
Definition Month (t : Time) : Z := month_of (day_of t) mod 12 + 1.
Definition Day (t : Time) : Z := day_of t - month_start (month_of (day_of t)) + 1.

(** Sunday is 0; the epoch was a Thursday. *)
Definition Weekday (t : Time) : Z := (day_of t + 4) mod 7.

(** [time.Date(year, month, day, 0, 0, 0, 0, time.UTC)]: months outside the year
    carry over. *)
Definition Date (year month day : Z) : Time := day_start (month_start (12 * year + month - 1) + day - 1).

(** [t.AddDate(0, 0, days)]. *)
Definition AddDays (t : Time) (days : Z) : Time := t + days * dayNs.

(** ** The months are consecutive intervals *)

Lemma dayNs_val : dayNs = 86400000000000.
Proof. reflexivity. Qed.

Ltac eucl := Z.to_euclidean_division_equations; lia.

Lemma year_start_succ y : 365 <= year_start (y + 1) - year_start y <= 366.
Proof. unfold year_start. eucl. Qed.

Lemma year_of_spec z : year_start (year_of z) <= z < year_start (year_of z + 1).
Proof.
  unfold year_of. set (y := z * 400 / 146097).
  assert (year_start (y - 1) <= z < year_start (y + 2)) as [H1 H2] by (subst y; unfold year_start; split; eucl).
  destruct (Z.ltb_spec z (year_start y)); [replace (y - 1 + 1) with y by lia; lia|].
  destruct (Z.leb_spec (year_start (y + 1)) z); [replace (y + 1 + 1) with (y + 2) by lia; lia|lia].
Qed.

Lemma month_start_eq y k : 0 <= k < 12 -> month_start (12 * y + k + 2) = year_start y + (153 * k + 2) / 5 - epochOffset.
Proof.
  intros Hk. unfold month_start. replace (12 * y + k + 2 - 2) with (y * 12 + k) by lia.
  replace ((y * 12 + k) / 12) with y by eucl. replace ((y * 12 + k) mod 12) with k by eucl. done.
Qed.

Lemma month_split m : exists y k, 0 <= k < 12 /\ m = 12 * y + k + 2.
Proof. exists ((m - 2) / 12), ((m - 2) mod 12). split; [apply Z.mod_pos_bound; lia|]. pose proof (Z.div_mod (m - 2) 12). lia. Qed.

(** The start of the month after the last one of a March-based year. *)
Lemma month_start_next y k : 0 <= k < 12 ->
  month_start (12 * y + k + 2 + 1) = (if k =? 11 then year_start (y + 1) else year_start y + (153 * (k + 1) + 2) / 5) - epochOffset.
Proof.
  intros Hk. destruct (Z.eqb_spec k 11) as [->|N].
  - replace (12 * y + 11 + 2 + 1) with (12 * (y + 1) + 0 + 2) by lia. rewrite month_start_eq by lia. change ((153 * 0 + 2) / 5) with 0. lia.
  - replace (12 * y + k + 2 + 1) with (12 * y + (k + 1) + 2) by lia. by rewrite month_start_eq by lia.
Qed.

Lemma month_length m : 28 <= month_start (m + 1) - month_start m <= 31.
Proof.
  destruct (month_split m) as (y & k & Hk & ->). rewrite month_start_next, month_start_eq by done.
  pose proof (year_start_succ y). destruct (Z.eqb_spec k 11) as [->|N]; [|eucl].
  change ((153 * 11 + 2) / 5) with 337. lia.
Qed.

(** The Gregorian calendar: the months have the lengths everybody knows, and the
    epoch is the first of January 1970. *)
Definition leapYear (y : Z) : bool := (y mod 4 =? 0) && (negb (y mod 100 =? 0) || (y mod 400 =? 0)).
Definition daysIn (y month : Z) : Z :=
  if month =? 2 then if leapYear y then 29 else 28
  else if (month =? 4) || (month =? 6) || (month =? 9) || (month =? 11) then 30 else 31.

Lemma year_length y : year_start (y + 1) - year_start y = if leapYear (y + 1) then 366 else 365.
Proof. unfold year_start, leapYear. repeat case_match; eucl. Qed.

Lemma month_days y month : 1 <= month <= 12 -> month_start (12 * y + month) - month_start (12 * y + month - 1) = daysIn y month.
Proof.
  intros Hm. destruct (Z.le_gt_cases month 2) as [L|L].
  - replace (12 * y + month - 1) with (12 * (y - 1) + (month + 9) + 2) by lia. replace (12 * y + month) with (12 * (y - 1) + (month + 9) + 2 + 1) by lia.
    rewrite month_start_next, month_start_eq by lia. pose proof (year_length (y - 1)) as Hy. replace (y - 1 + 1) with y in * by lia.
    assert (month = 1 \/ month = 2) as [->| ->] by lia; unfold daysIn; cbn -[year_start epochOffset leapYear Z.div]; repeat case_match; eucl.
  - replace (12 * y + month - 1) with (12 * y + (month - 3) + 2) by lia. replace (12 * y + month) with (12 * y + (month - 3) + 2 + 1) by lia.
    rewrite month_start_next, month_start_eq by lia.
    assert (month ∈ [3; 4; 5; 6; 7; 8; 9; 10; 11; 12]) as Hin by (rewrite !elem_of_cons, elem_of_nil; lia).
    rewrite !elem_of_cons, elem_of_nil in Hin. destruct Hin as [->|[->|[->|[->|[->|[->|[->|[->|[->|[->|[]]]]]]]]]]]; unfold daysIn; cbn -[year_start epochOffset leapYear Z.div]; repeat case_match; eucl.
Qed.

Lemma epoch_is_1970 : month_start (12 * 1970 + 1 - 1) = 0.
Proof. reflexivity. Qed.

Lemma month_of_spec d : month_start (month_of d) <= d < month_start (month_of d + 1).
Proof.
  unfold month_of. cbv zeta. set (z := d + epochOffset). pose proof (year_of_spec z) as Hy. pose proof (year_start_succ (year_of z)) as Hl.
  set (y := year_of z) in *. set (r := z - year_start y). assert (0 <= r < 366) as Hr by lia.
  set (k := (5 * r + 2) / 153). assert (0 <= k < 12) as Hk by (subst k; eucl).
  rewrite month_start_next, month_start_eq by done.
  assert ((153 * k + 2) / 5 <= r) as H1 by (subst k; eucl). split; [lia|].
  destruct (Z.eqb_spec k 11); [lia|]. assert (r < (153 * (k + 1) + 2) / 5) as H2 by (subst k; eucl). lia.
Qed.

Lemma month_start_mono m m' : m < m' -> month_start m < month_start m'.
Proof.
  intros H. assert (exists n : nat, m' = m + 1 + Z.of_nat n) as [n ->] by (exists (Z.to_nat (m' - m - 1)); lia). clear H.
  induction n as [|n IH]; [replace (m + 1 + Z.of_nat 0) with (m + 1) by lia; pose proof (month_length m); lia|].
  pose proof (month_length (m + 1 + Z.of_nat n)). replace (m + 1 + Z.of_nat (S n)) with (m + 1 + Z.of_nat n + 1) by lia. lia.
Qed.

Lemma day_of_spec t : day_start (day_of t) <= t < day_start (day_of t + 1).
Proof. unfold day_start, day_of. rewrite dayNs_val. eucl. Qed.

(** A time is the midnight of its own year, month and day, plus the clock. *)
Lemma Date_of_fields t : Date (Year t) (Month t) (Day t) = day_start (day_of t).
Proof.
  unfold Date, Year, Month, Day. f_equal. set (m := month_of (day_of t)).
  replace (12 * (m / 12) + (m mod 12 + 1) - 1) with m; [lia|]. pose proof (Z.div_mod m 12). lia.
Qed.

(** ** [time.ParseDuration] *)

Local Open Scope string_scope.
Local Open Scope Z_scope.

Definition is_digit (c : ascii) : bool := ((48 <=? N_of_ascii c) && (N_of_ascii c <=? 57))%N.
Definition digit_val (c : ascii) : Z := Z.of_N (N_of_ascii c) - 48.

(** [leadingInt]: the digits at the front; [None] when they pass 2^63. *)
Fixpoint leadingInt (x : Z) (s : string) : option (Z * string) :=
  match s with
  | String c s' =>
      if is_digit c then
        if two63 / 10 <? x then None
        else let x := x * 10 + digit_val c in if two63 <? x then None else leadingInt x s'
      else Some (x, s)
  | EmptyString => Some (x, s)
  end.

(** [leadingFraction]: the digits of the fraction and its scale; digits past the
    precision of 64 bits are skipped. *)
Fixpoint leadingFraction (x scale : Z) (overflow : bool) (s : string) : Z * Z * string :=
  match s with
  | String c s' =>
      if is_digit c then
        if overflow then leadingFraction x scale true s'
        else if (two63 - 1) / 10 <? x then leadingFraction x scale true s'
        else let y := x * 10 + digit_val c in
             if two63 <? y then leadingFraction x scale true s' else leadingFraction y (scale * 10) false s'
      else (x, scale, s)
  | EmptyString => (x, scale, s)
  end.

(** The unit: up to the next digit or point. *)
Fixpoint leadingUnit (s : string) : string * string :=
  match s with
  | String c s' =>
      if is_digit c || Ascii.eqb c "." then (EmptyString, s)
      else let '(u, rest) := leadingUnit s' in (String c u, rest)
  | EmptyString => (EmptyString, s)
  end.

Definition unitMap (u : string) : option Z :=
  let mu (a b : nat) := String (ascii_of_nat a) (String (ascii_of_nat b) "s") in
  if String.eqb u "ns" then Some 1
  else if String.eqb u "us" || String.eqb u (mu 194 181)%nat || String.eqb u (mu 206 188)%nat then Some 1000
  else if String.eqb u "ms" then Some Millisecond
  else if String.eqb u "s" then Some Second
  else if String.eqb u "m" then Some (60 * Second)
  else if String.eqb u "h" then Some Hour
  else None.

Section ParseDuration.

(** [uint64(float64(f) * (float64(unit) / scale))]: the product of the fraction
    in floating point. *)
Variable fraction : Z -> Z -> Z -> Z.

(** One number with its unit. *)
Definition parseTerm (s : string) : option (Z * string) :=
  match s with
  | EmptyString => None
  | String c _ =>
      if negb (is_digit c || Ascii.eqb c ".") then None
      else
        '(v, s1) ← leadingInt 0 s;
        let pre := negb (String.length s1 =? String.length s)%nat in
        let '(f, scale, s2, post) :=
          match s1 with
          | String "." r => let '(f, scale, r') := leadingFraction 0 1 false r in
                            (f, scale, r', negb (String.length r' =? String.length r)%nat)
          | _ => (0, 1, s1, false)
          end in
        if negb pre && negb post then None
        else
          let '(u, s3) := leadingUnit s2 in
          unit ← unitMap u;
          if two63 / unit <? v then None
          else
            let v := v * unit in
            let v := if 0 <? f then wrapu64 (v + fraction f unit scale) else v in
            if (0 <? f) && (two63 <? v) then None else Some (v, s3)
  end.

(** Each term consumes text: the length of the text is fuel enough. *)
Fixpoint parseTerms (fuel : nat) (d : Z) (s : string) : option Z :=
  match s, fuel with
  | EmptyString, _ => Some d
  | _, O => None
  | _, S fuel => '(v, s') ← parseTerm s; let d := wrapu64 (d + v) in if two63 <? d then None else parseTerms fuel d s'
  end.

Definition timeParseDuration (s : string) : option Duration :=
  let '(neg, s) := match s with
                   | String "-" r => (true, r)
                   | String "+" r => (false, r)
                   | _ => (false, s)
                   end in
  if String.eqb s "0" then Some 0
  else if String.eqb s "" then None
  else
    d ← parseTerms (String.length s) 0 s;
    if neg then Some (wrap64 (- d)) else if two63 - 1 <? d then None else Some d.

End ParseDuration.

Example duration_terms : timeParseDuration (fun _ _ _ => 0) "1h30m" = Some (90 * 60 * Second).
Proof. reflexivity. Qed.

Example leap_day : (Year 1709164800000000000, Month 1709164800000000000, Day 1709164800000000000) = (2024, 2, 29).
Proof. reflexivity. Qed.

Example new_year : Date 2025 1 1 = 1735689600000000000.
Proof. reflexivity. Qed.

End Calendar.
