(* ===== verification/Windows.v ===== *)
(** * Reset windows of budgets and rate limits
    (src/framework/configstore/tables: utils.go, budget.go, ratelimit.go)

    When a counter of usage starts anew: the calendar period or the rolling
    window an instant falls into, the number of windows between two instants,
    the budget row with its temporary override, and the rate-limit row.  An
    amount of money is a [float64]: here a type with the operations the code
    uses on it. *)

From S2P Require Import Prelude Calendar.
From Stdlib Require Import Ascii.

Local Open Scope string_scope.
Local Open Scope Z_scope.

Module Windows.
Import Calendar.

(** ** Durations (utils.go) *)

(** The last byte of a non-empty text. *)
Fixpoint lastByte (s : string) : option ascii :=
  match s with
  | EmptyString => None
  | String c EmptyString => Some c
  | String _ s => lastByte s
  end.

Fixpoint withoutLast (s : string) : string :=
  match s with
  | EmptyString | String _ EmptyString => EmptyString
  | String c s => String c (withoutLast s)
  end.

Definition IsCalendarAlignableDuration (duration : string) : bool :=
  match lastByte duration with
  | Some "d"%char | Some "w"%char | Some "M"%char | Some "Q"%char | Some "Y"%char => true
  | _ => false
  end.

Definition IsQuarterlyDuration (duration : string) : bool := bool_decide (lastByte duration = Some "Q"%char).

Definition QuarterStartNotApplicable : Z := 1.

(** Go's [/] and [%] truncate towards zero. *)
Definition quarterStartAt (t : Time) (quarterStart : Z) : Time :=
  let quarterStart := if (quarterStart <? 1) || (12 <? quarterStart) then 1 else quarterStart in
  let absoluteMonth := Year t * 12 + Month t - 1 in
  let monthsIntoQuarter := Z.rem (Z.rem (absoluteMonth - (quarterStart - 1)) 3 + 3) 3 in
  let start := absoluteMonth - monthsIntoQuarter in
  Date (Z.quot start 12) (Z.rem start 12 + 1) 1.

Definition GetCalendarPeriodStart (duration : string) (t : Time) (quarterStart : Z) : Time :=
  match lastByte duration with
  | Some "d"%char => Date (Year t) (Month t) (Day t)
  | Some "w"%char =>
      let daysFromMonday := Z.rem (Weekday t + 6) 7 in
      let monday := AddDays t (- daysFromMonday) in
      Date (Year monday) (Month monday) (Day monday)
  | Some "M"%char => Date (Year t) (Month t) 1
  | Some "Q"%char => quarterStartAt t quarterStart
  | Some "Y"%char => Date (Year t) 1 1
  | _ => t
  end.

Definition RollingWindowStart (anchor : Time) (duration : Duration) (now : Time) : Time :=
  if duration <=? 0 then anchor
  else
    let elapsed := Sub now anchor in
    if elapsed <? 0 then anchor else anchor + Z.quot elapsed duration * duration.

Definition CountCalendarPeriods (duration : string) (from to : Time) (quarterStart : Z) : Z :=
  if negb (from <? to) then 0
  else
    match lastByte duration with
    | Some "d"%char =>
        let fromDay := Date (Year from) (Month from) (Day from) in
        let toDay := Date (Year to) (Month to) (Day to) in
        Z.quot (Sub toDay fromDay) (24 * Hour)
    | Some "w"%char =>
        let fromWeek := GetCalendarPeriodStart "1w" from QuarterStartNotApplicable in
        let toWeek := GetCalendarPeriodStart "1w" to QuarterStartNotApplicable in
        Z.quot (Sub toWeek fromWeek) (7 * (24 * Hour))
    | Some "M"%char => (Year to - Year from) * 12 + Month to - Month from
    | Some "Q"%char =>
        let fromQuarter := quarterStartAt from quarterStart in
        let toQuarter := quarterStartAt to quarterStart in
        let months := (Year toQuarter - Year fromQuarter) * 12 + Month toQuarter - Month fromQuarter in
        Z.quot months 3
    | Some "Y"%char => Year to - Year from
    | _ => 0
    end.

Section Windows.

Variable fraction : Z -> Z -> Z -> Z.

(** A number of hours multiplied out in 64 bits. *)
Definition scaled (prefix : string) (factor : Z) : option Duration :=
  d ← timeParseDuration fraction (prefix +:+ "h"); Some (wrap64 (d * factor)).

Definition ParseDuration (duration : string) : option Duration :=
  match lastByte duration with
  | None => None
  | Some "d"%char => scaled (withoutLast duration) 24
  | Some "w"%char => scaled (withoutLast duration) (24 * 7)
  | Some "M"%char => scaled (withoutLast duration) (24 * 30)
  | Some "Q"%char => scaled (withoutLast duration) (24 * 90)
  | Some "Y"%char => scaled (withoutLast duration) (24 * 365)
  | Some _ => timeParseDuration fraction duration
  end.

(** ** Amounts *)

(** [float64]: zero, addition, [<=], [<] and whether a value is finite. *)
Class Amount (F : Type) := mkAmount {
  zeroAmount : F;
  addAmount : F -> F -> F;
  leAmount : F -> F -> bool;
  ltAmount : F -> F -> bool;
  finiteAmount : F -> bool }.

Context {F : Type} `{Amount F}.

(** ** Budgets (budget.go) *)

Inductive BudgetOverrideMode := BudgetOverrideModeNone | BudgetOverrideModeCycles | BudgetOverrideModeForever.

#[global] Instance BudgetOverrideMode_eq_dec : EqDecision BudgetOverrideMode.
Proof. solve_decision. Defined.

(** The row, with [ResetConfig.QuarterStartMonth] (zero when unset). *)
Record TableBudget := mkBudget {
  b_ID : string;
  MaxLimit : F;
  ResetDuration : string;
  LastReset : Time;
  CurrentUsage : F;
  OverrideAmount : F;
  OverrideMode : BudgetOverrideMode;
  OverrideCyclesRemaining : Z;
  OverrideCyclesTotal : Z;
  OverrideAnchorReset : option Time;
  b_QuarterStartMonth : Z;
  b_IsCalendarAligned : bool;
  b_CreatedAt : Time }.

Definition QuarterStartMonth (b : TableBudget) : Z :=
  if (b_QuarterStartMonth b <? 1) || (12 <? b_QuarterStartMonth b) then 1 else b_QuarterStartMonth b.

(** The usage and the boundary of a budget, replaced. *)
Definition setWindow (b : TableBudget) (usage : F) (lastReset : Time) : TableBudget :=
  mkBudget (b_ID b) (MaxLimit b) (ResetDuration b) lastReset usage (OverrideAmount b) (OverrideMode b)
    (OverrideCyclesRemaining b) (OverrideCyclesTotal b) (OverrideAnchorReset b) (b_QuarterStartMonth b)
    (b_IsCalendarAligned b) (b_CreatedAt b).

Definition setOverrideFields (b : TableBudget) (amount : F) (mode : BudgetOverrideMode) (remaining total : Z) (anchor : option Time) : TableBudget :=
  mkBudget (b_ID b) (MaxLimit b) (ResetDuration b) (LastReset b) (CurrentUsage b) amount mode remaining total anchor
    (b_QuarterStartMonth b) (b_IsCalendarAligned b) (b_CreatedAt b).

Definition setAligned (b : TableBudget) (aligned : bool) : TableBudget :=
  mkBudget (b_ID b) (MaxLimit b) (ResetDuration b) (LastReset b) (CurrentUsage b) (OverrideAmount b) (OverrideMode b)
    (OverrideCyclesRemaining b) (OverrideCyclesTotal b) (OverrideAnchorReset b) (b_QuarterStartMonth b) aligned (b_CreatedAt b).

Definition WindowStart (b : TableBudget) (now : Time) : Time :=
  if bool_decide (ResetDuration b = "") then LastReset b
  else if b_IsCalendarAligned b && IsCalendarAlignableDuration (ResetDuration b)
       then GetCalendarPeriodStart (ResetDuration b) now (QuarterStartMonth b)
       else match ParseDuration (ResetDuration b) with
            | Some duration =>
                if duration <=? 0 then LastReset b
                else RollingWindowStart (if IsZero (b_CreatedAt b) then LastReset b else b_CreatedAt b) duration now
            | None => LastReset b
            end.

(** The budget moved onto the calendar grid, or [None] when nothing moves. *)
Definition AdoptCalendarAlignment (b : TableBudget) (now : Time) : option TableBudget :=
  if negb (b_IsCalendarAligned b) || negb (IsCalendarAlignableDuration (ResetDuration b)) then None
  else let start := WindowStart b now in
       if LastReset b <? start then Some (setWindow b (CurrentUsage b) start) else None.

Definition HasActiveOverride (b : TableBudget) : bool :=
  if leAmount (OverrideAmount b) zeroAmount then false
  else match OverrideMode b with
       | BudgetOverrideModeForever => true
       | BudgetOverrideModeCycles => 0 <? OverrideCyclesRemaining b
       | BudgetOverrideModeNone => false
       end.

Definition EffectiveMaxLimit (b : TableBudget) : F :=
  if HasActiveOverride b then addAmount (MaxLimit b) (OverrideAmount b) else MaxLimit b.

Definition equalAmount (x y : F) : bool := leAmount x y && leAmount y x.

(** [nil] is [true]. *)
Definition validateOverride (b : TableBudget) : bool :=
  if negb (finiteAmount (OverrideAmount b)) then false
  else match OverrideMode b with
       | BudgetOverrideModeNone =>
           equalAmount (OverrideAmount b) zeroAmount && (OverrideCyclesRemaining b =? 0) &&
           (OverrideCyclesTotal b =? 0) && bool_decide (OverrideAnchorReset b = None)
       | BudgetOverrideModeCycles =>
           negb (leAmount (OverrideAmount b) zeroAmount) && (0 <? OverrideCyclesRemaining b) &&
           negb (bool_decide (OverrideAnchorReset b = None)) && (OverrideCyclesRemaining b <=? OverrideCyclesTotal b)
       | BudgetOverrideModeForever =>
           negb (leAmount (OverrideAmount b) zeroAmount) && (OverrideCyclesRemaining b =? 0) &&
           (OverrideCyclesTotal b =? 0) && bool_decide (OverrideAnchorReset b = None)
       end.

(** A rejected change leaves the budget as it was. *)
Definition SetOverrideAt (b : TableBudget) (amount : F) (mode : BudgetOverrideMode) (cyclesTotal : Z) (anchor : Time) : bool * TableBudget :=
  let b' := match mode with
            | BudgetOverrideModeCycles => setOverrideFields b amount mode cyclesTotal cyclesTotal (Some anchor)
            | _ => setOverrideFields b amount mode cyclesTotal 0 None
            end in
  if validateOverride b' then (true, b') else (false, b).

Definition SetOverride (b : TableBudget) (amount : F) (mode : BudgetOverrideMode) (cycles : Z) : bool * TableBudget :=
  SetOverrideAt b amount mode cycles (LastReset b).

Definition ClearOverride (b : TableBudget) : TableBudget :=
  setOverrideFields b zeroAmount BudgetOverrideModeNone 0 0 None.

Definition boundaryJitterTolerance : Duration := Millisecond.

Definition WindowsSinceAnchor (b : TableBudget) : Z :=
  match OverrideAnchorReset b with
  | None => 0
  | Some anchor =>
      if bool_decide (ResetDuration b = "") then 0
      else if negb (anchor + boundaryJitterTolerance <? LastReset b) then 0
      else if b_IsCalendarAligned b && IsCalendarAlignableDuration (ResetDuration b)
           then CountCalendarPeriods (ResetDuration b) (anchor + boundaryJitterTolerance)
                  (LastReset b + boundaryJitterTolerance) (QuarterStartMonth b)
           else match ParseDuration (ResetDuration b) with
                | Some duration =>
                    if duration <=? 0 then 0
                    else Z.quot (wrap64 (Sub (LastReset b) anchor + boundaryJitterTolerance)) duration
                | None => 0
                end
  end.

Definition RefreshOverrideCyclesRemaining (b : TableBudget) : TableBudget :=
  match OverrideMode b with
  | BudgetOverrideModeCycles =>
      let remaining := OverrideCyclesTotal b - WindowsSinceAnchor b in
      if remaining <=? 0 then ClearOverride b
      else setOverrideFields b (OverrideAmount b) (OverrideMode b) remaining (OverrideCyclesTotal b) (OverrideAnchorReset b)
  | _ => b
  end.

(** ** Rate limits (ratelimit.go) *)

(** One of the two counters of the row: tokens or requests. *)
Record Counter := mkCounter {
  c_MaxLimit : option Z;
  c_ResetDuration : option string;
  c_CurrentUsage : Z;
  c_LastReset : Time }.

Record TableRateLimit := mkRateLimit {
  r_ID : string;
  Token : Counter;
  Request : Counter;
  r_IsCalendarAligned : bool;
  r_CreatedAt : Time }.

Definition setCounter (c : Counter) (usage : Z) (lastReset : Time) : Counter :=
  mkCounter (c_MaxLimit c) (c_ResetDuration c) usage lastReset.

Definition setCounters (r : TableRateLimit) (token request : Counter) : TableRateLimit :=
  mkRateLimit (r_ID r) token request (r_IsCalendarAligned r) (r_CreatedAt r).

(** One dimension of [BeforeSave]; [nil] is [true]. *)
Definition counterValid (c : Counter) : bool :=
  match c_ResetDuration c with
  | Some s => match ParseDuration s with Some d => 0 <? d | None => false end
  | None => bool_decide (c_MaxLimit c = None)
  end && match c_MaxLimit c with Some n => 0 <? n | None => true end.

Definition rateLimitBeforeSave (r : TableRateLimit) : bool := counterValid (Token r) && counterValid (Request r).

Definition adoptCounter (c : Counter) (now : Time) : bool * Counter :=
  match c_ResetDuration c with
  | None => (false, c)
  | Some duration =>
      if negb (IsCalendarAlignableDuration duration) then (false, c)
      else let start := GetCalendarPeriodStart duration now QuarterStartNotApplicable in
           if c_LastReset c <? start then (true, setCounter c (c_CurrentUsage c) start) else (false, c)
  end.

Definition rateLimitAdopt (r : TableRateLimit) (now : Time) : option TableRateLimit :=
  if negb (r_IsCalendarAligned r) then None
  else let '(t, token) := adoptCounter (Token r) now in
       let '(q, request) := adoptCounter (Request r) now in
       if t || q then Some (setCounters r token request) else None.

End Windows.
End Windows.
