(* ===== verification/WindowsTheory.v ===== *)
(** * Properties of the reset windows

    Calendar periods and rolling windows are both grids: an increasing sequence
    of boundaries, one index per instant.  [GetCalendarPeriodStart] is the
    boundary of an instant, [CountCalendarPeriods] the number of boundaries
    between two, and a finite override of a budget lives for exactly the number
    of windows it was granted for. *)

From S2P Require Import Prelude Calendar Windows.
From Stdlib Require Import Ascii.

Local Open Scope string_scope.
Local Open Scope Z_scope.

Module WindowsTheory.
Import Calendar Windows.

(** ** Grids *)

Record Grid := mkGrid { index : Time -> Z; boundary : Z -> Time }.

Record grid_ok (g : Grid) : Prop := mkGridOk {
  grid_mono : forall i j, i < j -> boundary g i < boundary g j;
  grid_in : forall t, boundary g (index g t) <= t < boundary g (index g t + 1) }.

Section Grid.
Context {g : Grid}.
Hypothesis Hg : grid_ok g.

Lemma grid_le i j : i <= j -> boundary g i <= boundary g j.
Proof. intros H. destruct (Z.eq_dec i j) as [->|N]; [lia|]. pose proof (grid_mono g Hg i j). lia. Qed.

Lemma grid_unique i t : boundary g i <= t < boundary g (i + 1) -> index g t = i.
Proof.
  intros [H1 H2]. destruct (grid_in g Hg t) as [H3 H4]. destruct (Z.lt_trichotomy (index g t) i) as [L|[E|L]]; [|done|].
  - pose proof (grid_le (index g t + 1) i). lia.
  - pose proof (grid_le (i + 1) (index g t)). lia.
Qed.

Lemma grid_boundary_index i : index g (boundary g i) = i.
Proof. apply grid_unique. pose proof (grid_mono g Hg i (i + 1)). lia. Qed.

Lemma grid_index_le t u : t <= u -> index g t <= index g u.
Proof.
  intros H. destruct (Z.le_gt_cases (index g t) (index g u)) as [L|L]; [done|].
  pose proof (grid_le (index g u + 1) (index g t)). destruct (grid_in g Hg t), (grid_in g Hg u). lia.
Qed.

(** A boundary lies in an interval exactly when its number does. *)
Lemma grid_between from to j : from < boundary g j <= to <-> index g from < j <= index g to.
Proof.
  destruct (grid_in g Hg from) as [A B]. destruct (grid_in g Hg to) as [C D]. split; intros [H1 H2]; split.
  - destruct (Z.lt_ge_cases (index g from) j) as [|L]; [done|]. pose proof (grid_le j (index g from) L). lia.
  - pose proof (grid_index_le _ _ H2) as L. by rewrite grid_boundary_index in L.
  - pose proof (grid_le (index g from + 1) j). lia.
  - pose proof (grid_le j (index g to)). lia.
Qed.
End Grid.

(** ** The calendar grids *)

Definition dayGrid : Grid := mkGrid day_of day_start.
Definition weekGrid : Grid := mkGrid (fun t => (day_of t + 3) / 7) (fun j => day_start (7 * j - 3)).

(** Periods of [n] months, the first of which starts [o] months into a year. *)
Definition monthsGrid (n o : Z) : Grid :=
  mkGrid (fun t => (month_of (day_of t) - o) / n) (fun j => day_start (month_start (n * j + o))).

Lemma day_start_mono d e : d < e -> day_start d < day_start e.
Proof. unfold day_start. rewrite dayNs_val. lia. Qed.

Lemma day_start_le d e : d <= e -> day_start d <= day_start e.
Proof. unfold day_start. rewrite dayNs_val. lia. Qed.

Lemma dayGrid_ok : grid_ok dayGrid.
Proof. constructor; [apply day_start_mono|apply day_of_spec]. Qed.

Lemma weekGrid_ok : grid_ok weekGrid.
Proof.
  constructor; cbn; [intros; apply day_start_mono; lia|]. intros t. pose proof (day_of_spec t) as [H1 H2]. split.
  - etrans; [|exact H1]. apply day_start_le. eucl.
  - eapply Z.lt_le_trans; [exact H2|]. apply day_start_le. eucl.
Qed.

Lemma monthsGrid_ok n o : 0 < n -> grid_ok (monthsGrid n o).
Proof.
  intros Hn. constructor; cbn; [intros; apply day_start_mono, month_start_mono; nia|]. intros t.
  pose proof (day_of_spec t) as [H1 H2]. pose proof (month_of_spec (day_of t)) as [H3 H4]. set (m := month_of (day_of t)) in *.
  pose proof (Z.div_mod (m - o) n) as Hd. pose proof (Z.mod_pos_bound (m - o) n Hn) as Hm.
  assert (forall a b, a <= b -> month_start a <= month_start b) as Hle.
  { intros a b L. destruct (Z.eq_dec a b) as [->|N]; [lia|]. pose proof (month_start_mono a b). lia. }
  split.
  - etrans; [|exact H1]. apply day_start_le. etrans; [apply Hle|exact H3]. lia.
  - eapply Z.lt_le_trans; [exact H2|]. apply day_start_le. assert (month_start (m + 1) <= month_start (n * ((m - o) / n + 1) + o)) by (apply Hle; lia). lia.
Qed.

Definition normalQuarter (qs : Z) : Z := if (qs <? 1) || (12 <? qs) then 1 else qs.

(** The grid of a duration with a calendar boundary. *)
Definition calendarGrid (duration : string) (qs : Z) : option Grid :=
  match lastByte duration with
  | Some "d"%char => Some dayGrid
  | Some "w"%char => Some weekGrid
  | Some "M"%char => Some (monthsGrid 1 0)
  | Some "Q"%char => Some (monthsGrid 3 (normalQuarter qs - 1))
  | Some "Y"%char => Some (monthsGrid 12 0)
  | _ => None
  end.

Lemma calendarGrid_ok duration qs g : calendarGrid duration qs = Some g -> grid_ok g.
Proof.
  unfold calendarGrid. intros H. repeat case_match; simplify_eq;
    first [apply dayGrid_ok|apply weekGrid_ok|by apply monthsGrid_ok].
Qed.

Lemma alignable_grid duration qs : IsCalendarAlignableDuration duration = true -> is_Some (calendarGrid duration qs).
Proof. unfold IsCalendarAlignableDuration, calendarGrid. intros H. repeat case_match; first [done|by eexists]. Qed.

(** ** The period of an instant *)

Lemma Date_month y m : Date y m 1 = day_start (month_start (12 * y + m - 1)).
Proof. unfold Date. f_equal. lia. Qed.

Lemma fields_month t : Year t * 12 + Month t - 1 = month_of (day_of t).
Proof. unfold Year, Month. pose proof (Z.div_mod (month_of (day_of t)) 12). lia. Qed.

Lemma month_of_start m : month_of (month_start m) = m.
Proof.
  pose proof (month_of_spec (month_start m)) as [H1 H2]. destruct (Z.lt_trichotomy (month_of (month_start m)) m) as [L|[E|L]]; [|done|].
  - assert (month_start (month_of (month_start m) + 1) <= month_start m); [|lia].
    destruct (Z.eq_dec (month_of (month_start m) + 1) m) as [->|N]; [lia|]. pose proof (month_start_mono (month_of (month_start m) + 1) m). lia.
  - pose proof (month_start_mono m (month_of (month_start m))). lia.
Qed.

Lemma day_of_start d : day_of (day_start d) = d.
Proof. unfold day_of, day_start. rewrite dayNs_val. eucl. Qed.

Lemma quarterStartAt_grid t qs :
  quarterStartAt t qs = day_start (month_start (3 * ((month_of (day_of t) - (normalQuarter qs - 1)) / 3) + (normalQuarter qs - 1))).
Proof.
  unfold quarterStartAt. rewrite fields_month. fold (normalQuarter qs). set (m := month_of (day_of t)). set (o := normalQuarter qs - 1).
  rewrite Date_month. f_equal. f_equal.
  assert (Z.rem (Z.rem (m - o) 3 + 3) 3 = (m - o) mod 3) as -> by eucl.
  set (st := m - (m - o) mod 3). pose proof (Z.quot_rem' st 12). pose proof (Z.div_mod (m - o) 3). lia.
Qed.

Lemma monday_spec t : day_of (AddDays t (- Z.rem (Weekday t + 6) 7)) = 7 * ((day_of t + 3) / 7) - 3.
Proof.
  unfold AddDays, Weekday. assert (forall n, day_of (t + n * dayNs) = day_of t + n) as ->; [|eucl].
  intros n. unfold day_of. rewrite Z.div_add; [done|]. by rewrite dayNs_val.
Qed.

Lemma GetCalendarPeriodStart_grid duration qs g t : calendarGrid duration qs = Some g -> GetCalendarPeriodStart duration t qs = boundary g (index g t).
Proof.
  unfold calendarGrid, GetCalendarPeriodStart. intros H. repeat case_match; simplify_eq; cbn.
  - by rewrite Date_of_fields, monday_spec.
  - rewrite Date_month, Z.div_1_r. f_equal. f_equal. pose proof (fields_month t). lia.
  - rewrite Date_month. f_equal. f_equal. unfold Year. rewrite Z.sub_0_r. lia.
  - apply quarterStartAt_grid.
  - apply Date_of_fields.
Qed.

(** ** The number of periods between two instants *)

(** The instants are less than some 290 years apart: [Sub] does not saturate. *)
Definition near (from to : Time) : Prop := to - from < two63 - 8 * dayNs.

Lemma Sub_exact t u : - two63 <= t - u < two63 -> Sub t u = t - u.
Proof. unfold Sub. lia. Qed.

Lemma days_between a b n : 0 < n -> - two63 <= day_start (n * a) - day_start (n * b) < two63 ->
  Z.quot (Sub (day_start (n * a)) (day_start (n * b))) (n * dayNs) = a - b.
Proof.
  intros Hn Hr. rewrite Sub_exact by done. unfold day_start. replace (n * a * dayNs - n * b * dayNs) with ((a - b) * (n * dayNs)) by lia.
  apply Z.quot_mul. rewrite dayNs_val. lia.
Qed.

Lemma grid_near g from to : grid_ok g -> (forall j, boundary g (j + 1) - boundary g j <= 8 * dayNs) -> from < to -> near from to ->
  - two63 <= boundary g (index g to) - boundary g (index g from) < two63.
Proof.
  intros Hg Hw Hlt Hn. unfold near in Hn. pose proof (grid_in g Hg from). pose proof (grid_in g Hg to). pose proof (Hw (index g from)).
  pose proof (grid_le Hg (index g from) (index g to) ltac:(apply (grid_index_le Hg); lia)) as L. unfold two63 in *. lia.
Qed.

Lemma quarter_fields t qs : Year (quarterStartAt t qs) * 12 + Month (quarterStartAt t qs) - 1 =
  3 * ((month_of (day_of t) - (normalQuarter qs - 1)) / 3) + (normalQuarter qs - 1).
Proof. by rewrite fields_month, quarterStartAt_grid, day_of_start, month_of_start. Qed.

(** Days and weeks are counted by the time between two of them, which [Sub]
    caps; months are counted by their fields. *)
Definition inDays (duration : string) : bool :=
  match lastByte duration with Some "d"%char | Some "w"%char => true | _ => false end.

Lemma CountCalendarPeriods_grid duration qs g from to :
  calendarGrid duration qs = Some g -> from < to -> (inDays duration = true -> near from to) ->
  CountCalendarPeriods duration from to qs = index g to - index g from.
Proof.
  intros Hg Hlt Hn. pose proof (calendarGrid_ok _ _ _ Hg) as Hok. unfold CountCalendarPeriods. rewrite (proj2 (Z.ltb_lt _ _) Hlt). cbn [negb].
  unfold calendarGrid, inDays in *. repeat case_match; simplify_eq; cbn [index monthsGrid]; try specialize (Hn eq_refl).
  - rewrite !(GetCalendarPeriodStart_grid "1w" _ weekGrid) by done. cbn [boundary weekGrid].
    pose proof (grid_near weekGrid from to Hok) as Hr. cbn [boundary weekGrid index] in *.
    set (a := (day_of to + 3) / 7) in *. set (b := (day_of from + 3) / 7) in *.
    assert (forall j, day_start (7 * j - 3) = day_start (7 * j) - 3 * dayNs) as E by (intros; unfold day_start; lia).
    assert (- two63 <= day_start (7 * a) - day_start (7 * b) < two63) as Hd.
    { rewrite !E in Hr. assert (forall j, day_start (7 * (j + 1) - 3) - day_start (7 * j - 3) <= 8 * dayNs) as Hw by (intros; unfold day_start; rewrite dayNs_val; lia).
      specialize (Hr ltac:(intros j; apply Hw) Hlt Hn). lia. }
    rewrite !E. replace (Sub (day_start (7 * a) - 3 * dayNs) (day_start (7 * b) - 3 * dayNs)) with (Sub (day_start (7 * a)) (day_start (7 * b))).
    + by apply days_between.
    + unfold Sub. f_equal. f_equal. lia.
  - rewrite !Z.div_1_r, !Z.sub_0_r. pose proof (fields_month to). pose proof (fields_month from). lia.
  - unfold Year. by rewrite !Z.sub_0_r.
  - pose proof (quarter_fields to qs). pose proof (quarter_fields from qs).
    set (a := (month_of (day_of to) - (normalQuarter qs - 1)) / 3) in *. set (b := (month_of (day_of from) - (normalQuarter qs - 1)) / 3) in *.
    match goal with |- Z.quot ?x 3 = _ => replace x with ((a - b) * 3) by lia end. by apply Z.quot_mul.
  - rewrite !Date_of_fields. pose proof (days_between (day_of to) (day_of from) 1 ltac:(lia)) as Hd. rewrite !Z.mul_1_l in Hd. apply Hd.
    apply (grid_near dayGrid from to Hok); [|done..]. intros j. cbn. unfold day_start. rewrite dayNs_val. lia.
Qed.
(** The instants at which a period of the duration begins, as people say them:
    midnight UTC of any day, of a Monday, of the first of a month, of the first
    of a month whole quarters from the one quarters begin in, of January 1. *)
Definition is_boundary (duration : string) (qs : Z) (x : Time) : Prop :=
  x mod dayNs = 0 /\
  match lastByte duration with
  | Some "d"%char => True
  | Some "w"%char => Weekday x = 1
  | Some "M"%char => Day x = 1
  | Some "Q"%char => Day x = 1 /\ (Month x - normalQuarter qs) mod 3 = 0
  | Some "Y"%char => Day x = 1 /\ Month x = 1
  | _ => False
  end.

Lemma midnight x : x mod dayNs = 0 <-> x = day_start (day_of x).
Proof. unfold day_of, day_start. rewrite dayNs_val. split; intros; eucl. Qed.

Lemma month_boundary n o x : 0 < n ->
  (exists j, x = day_start (month_start (n * j + o))) <->
  x = day_start (day_of x) /\ Day x = 1 /\ (month_of (day_of x) - o) mod n = 0.
Proof.
  intros Hn. unfold Day. split.
  - intros [j ->]. rewrite !day_of_start, month_of_start. split; [done|]. split; [lia|].
    replace (n * j + o - o) with (j * n) by lia. apply Z.mod_mul. lia.
  - intros (Hx & Hd & Hm). exists ((month_of (day_of x) - o) / n). rewrite Hx at 1. f_equal.
    pose proof (Z.div_mod (month_of (day_of x) - o) n). replace (n * ((month_of (day_of x) - o) / n) + o) with (month_of (day_of x)) by lia. lia.
Qed.

Definition indices (a b : Z) : list Z := (fun n => a + 1 + Z.of_nat n) <$> seq 0 (Z.to_nat (b - a)).

Lemma elem_indices a b j : j ∈ indices a b <-> a < j <= b.
Proof.
  unfold indices. rewrite list_elem_of_fmap. split.
  - intros (n & -> & Hn). apply list_elem_of_In, in_seq in Hn. lia.
  - intros H. exists (Z.to_nat (j - a - 1)). split; [lia|]. apply list_elem_of_In, in_seq. lia.
Qed.

Lemma grid_boundaries duration qs g x : calendarGrid duration qs = Some g -> is_boundary duration qs x <-> exists j, x = boundary g j.
Proof.
  unfold is_boundary, calendarGrid. rewrite midnight. intros Hg. repeat case_match; simplify_eq; cbn [boundary dayGrid weekGrid monthsGrid].
  - unfold Weekday. split.
    + intros [Hx Hd]. exists ((day_of x + 3) / 7). rewrite Hx at 1. f_equal. eucl.
    + intros [j ->]. rewrite day_of_start. split; [done|]. eucl.
  - rewrite month_boundary by lia. rewrite Z.mod_1_r. tauto.
  - rewrite month_boundary by lia. unfold Month. rewrite Z.sub_0_r. split; intros (? & ? & ?); (split; [done|]; split; [done|lia]).
  - rewrite month_boundary by lia. unfold Month. set (m := month_of (day_of x)). set (q := normalQuarter qs).
    replace ((m mod 12 + 1 - q) mod 3) with ((m - (q - 1)) mod 3); [done|]. rewrite (Z.div_mod m 12) at 1 by done.
    replace (12 * (m / 12) + m mod 12 - (q - 1)) with (m mod 12 + 1 - q + (4 * (m / 12)) * 3) by lia. by rewrite Z.mod_add.
  - split; [intros [-> _]; by eexists|]. intros [j ->]. by rewrite day_of_start.
Qed.

Lemma not_alignable duration qs : IsCalendarAlignableDuration duration = false ->
  (forall t, GetCalendarPeriodStart duration t qs = t) /\ forall from to, CountCalendarPeriods duration from to qs = 0.
Proof.
  unfold IsCalendarAlignableDuration, GetCalendarPeriodStart, CountCalendarPeriods. intros Hd.
  split; intros; [|destruct (negb _); [done|]]; destruct (lastByte duration) as [[[] [] [] [] [] [] [] []]|]; (done || discriminate Hd).
Qed.

(** C23. The calendar windows of a budget or rate limit whose duration ends in d,
    w, M, Q or Y, whatever the number before it: the start of the period of an
    instant is the last boundary at or before it, and the number of periods
    counted between two instants is the number of boundaries after the first and
    up to the second, none when the second is not later.  A boundary is midnight
    UTC of any day; of a Monday; of the first of a month; of the first of a month
    that is whole quarters from the one quarters begin in; of January 1.  Days
    and weeks are counted for instants less than 2^63 nanoseconds less eight days
    apart (some 292 years), beyond which Go's difference of times is capped.  For
    any other duration an instant is its own start and nothing is counted. *)
Theorem calendar_windows duration qs :
  if IsCalendarAlignableDuration duration then
    (forall t, let s := GetCalendarPeriodStart duration t qs in
       is_boundary duration qs s /\ s <= t /\ forall x, is_boundary duration qs x -> x <= t -> x <= s) /\
    (forall from to, (inDays duration = true -> near from to) ->
       exists l, NoDup l /\ (forall x, x ∈ l <-> is_boundary duration qs x /\ from < x <= to) /\
         CountCalendarPeriods duration from to qs = Z.of_nat (length l))
  else (forall t, GetCalendarPeriodStart duration t qs = t) /\ forall from to, CountCalendarPeriods duration from to qs = 0.
Proof.
  destruct (IsCalendarAlignableDuration duration) eqn:Ea; [|by apply not_alignable].
  apply (alignable_grid _ qs) in Ea as [g Hg]. pose proof (calendarGrid_ok _ _ _ Hg) as Hok. split.
  - intros t. cbv zeta. rewrite (GetCalendarPeriodStart_grid _ _ _ _ Hg). split; [rewrite grid_boundaries by done; by eexists|].
    destruct (grid_in g Hok t). split; [done|]. intros x [j ->]%(grid_boundaries _ _ g) Hx; [|done].
    apply (grid_le Hok). rewrite <- (grid_boundary_index Hok j). by apply (grid_index_le Hok).
  - intros from to Hn. destruct (Z.lt_ge_cases from to) as [Hlt|Hge].
    2: { exists []. split; [constructor|]. split; [intros x; rewrite elem_of_nil; lia|]. unfold CountCalendarPeriods.
         by rewrite (proj2 (Z.ltb_ge _ _) Hge). }
    exists (boundary g <$> indices (index g from) (index g to)). split; [|split].
    + apply NoDup_fmap_2_strong.
      * intros i j _ _ E. destruct (Z.lt_trichotomy i j) as [L|[|L]]; [|done|]; pose proof (grid_mono g Hok _ _ L); lia.
      * apply NoDup_fmap_2; [intros ? ?; lia|apply NoDup_seq].
    + intros x. rewrite list_elem_of_fmap, (grid_boundaries _ _ g) by done. split.
      * intros (j & -> & Hj%elem_indices). split; [by eexists|]. by apply (grid_between Hok).
      * intros [[j ->] Hj]. exists j. split; [done|]. by apply elem_indices, (grid_between Hok).
    + rewrite (CountCalendarPeriods_grid _ _ _ _ _ Hg Hlt Hn). unfold indices. rewrite !length_fmap, length_seq.
      pose proof (grid_index_le Hok from to). lia.
Qed.

(** ** Rolling windows and budgets *)

Definition rollingGrid (anchor : Time) (d : Duration) : Grid := mkGrid (fun t => (t - anchor) / d) (fun j => anchor + j * d).

Lemma rollingGrid_ok anchor d : 0 < d -> grid_ok (rollingGrid anchor d).
Proof.
  intros Hd. constructor; cbn; [intros; nia|]. intros t. pose proof (Z.div_mod (t - anchor) d). pose proof (Z.mod_pos_bound (t - anchor) d Hd). nia.
Qed.

Lemma RollingWindowStart_grid anchor d now : 0 < d -> anchor <= now -> now - anchor < two63 ->
  RollingWindowStart anchor d now = boundary (rollingGrid anchor d) (index (rollingGrid anchor d) now).
Proof.
  intros Hd Ha Hn. unfold RollingWindowStart. destruct (Z.leb_spec d 0); [lia|]. rewrite Sub_exact by (unfold two63 in *; lia).
  destruct (Z.ltb_spec (now - anchor) 0); [lia|]. cbn. by rewrite Z.quot_div_nonneg by lia.
Qed.

Section Budgets.
Context {F : Type} `{Amount F}.
Variable fraction : Z -> Z -> Z -> Z.
Local Abbreviation TableBudget := (@TableBudget F).
Local Abbreviation WindowStart := (WindowStart fraction).
Local Abbreviation WindowsSinceAnchor := (WindowsSinceAnchor fraction).
Local Abbreviation Refresh := (RefreshOverrideCyclesRemaining fraction).

(** Whether the budget follows the calendar. *)
Definition on_calendar (b : TableBudget) : bool := b_IsCalendarAligned b && IsCalendarAlignableDuration (ResetDuration b).

(** The windows of a budget as its persisted row defines them. *)
Definition budgetGrid (b : TableBudget) : option Grid :=
  if on_calendar b then calendarGrid (ResetDuration b) (QuarterStartMonth b)
  else d ← ParseDuration fraction (ResetDuration b);
       if (d <=? 0) || IsZero (b_CreatedAt b) then None else Some (rollingGrid (b_CreatedAt b) d).

(** An instant at which the window arithmetic of the budget is exact. *)
Definition in_range (b : TableBudget) (now : Time) : Prop :=
  on_calendar b = true \/ (b_CreatedAt b <= now /\ now - b_CreatedAt b < two63).

Lemma budgetGrid_ok b g : budgetGrid b = Some g -> grid_ok g.
Proof.
  unfold budgetGrid. destruct (on_calendar b); [apply calendarGrid_ok|]. intros (d & _ & Hd)%bind_Some.
  destruct (Z.leb_spec d 0); cbn in Hd; [done|]. destruct (IsZero _); simplify_eq. by apply rollingGrid_ok.
Qed.

Lemma grid_duration b g : budgetGrid b = Some g -> ResetDuration b <> "".
Proof.
  unfold budgetGrid, on_calendar. intros Hg E. rewrite E in Hg. cbn in Hg. by rewrite andb_false_r in Hg.
Qed.

Lemma WindowStart_grid b g now : budgetGrid b = Some g -> in_range b now -> WindowStart b now = boundary g (index g now).
Proof.
  intros Hg Hr. pose proof (grid_duration _ _ Hg) as Hne. unfold Windows.WindowStart. rewrite bool_decide_eq_false_2 by done.
  unfold budgetGrid, in_range in *. fold (on_calendar b). destruct (on_calendar b); [by apply GetCalendarPeriodStart_grid|].
  destruct Hr as [?|[Ha Hn]]; [done|]. apply bind_Some in Hg as (d & Hd & Hg). rewrite Hd. destruct (Z.leb_spec d 0); cbn in Hg; [done|].
  destruct (IsZero _); simplify_eq. by apply RollingWindowStart_grid.
Qed.

(** ** Finite overrides *)

(** Windows long enough that the tolerance stays within one. *)
Definition wide (g : Grid) : Prop := forall j, 2 * boundaryJitterTolerance <= boundary g (j + 1) - boundary g j.

(** The anchor of a grant made in window [i], up to the error of its transport. *)
Definition anchored (g : Grid) (i : Z) (a : Time) : Prop := Z.abs (a - boundary g i) < boundaryJitterTolerance.

Lemma windows_rolling b a d i j : on_calendar b = false -> ParseDuration fraction (ResetDuration b) = Some d -> 0 < d ->
  OverrideAnchorReset b = Some a -> wide (rollingGrid (b_CreatedAt b) d) -> anchored (rollingGrid (b_CreatedAt b) d) i a ->
  LastReset b = boundary (rollingGrid (b_CreatedAt b) d) j -> i <= j -> (j - i) * d < two63 - 2 * boundaryJitterTolerance ->
  WindowsSinceAnchor b = j - i.
Proof.
  intros Hc Hp Hd Ha Hw Han Hl Hij Hn. unfold Windows.WindowsSinceAnchor. rewrite Ha, bool_decide_eq_false_2 by (intros E; by rewrite E in Hp).
  fold (on_calendar b). rewrite Hc, Hp. unfold wide, anchored in *. cbn in *. specialize (Hw 0). set (c := b_CreatedAt b) in *.
  assert (0 < boundaryJitterTolerance) as Hj by done. destruct (Z.leb_spec d 0) as [|_]; [lia|].
  assert (LastReset b - a = (j - i) * d - (a - (c + i * d))) as E by lia.
  destruct (Z.eq_dec i j) as [<-|N].
  - destruct (Z.ltb_spec (a + boundaryJitterTolerance) (LastReset b)); cbn; lia.
  - assert (d <= (j - i) * d) by nia. destruct (Z.ltb_spec (a + boundaryJitterTolerance) (LastReset b)); cbn; [|lia].
    rewrite Sub_exact by (unfold two63 in *; lia). rewrite wrap64_id by (unfold in_int64, two63 in *; lia).
    rewrite Z.quot_div_nonneg by lia. symmetry. apply (Z.div_unique_pos _ _ _ (boundaryJitterTolerance - (a - (c + i * d)))); lia.
Qed.

Lemma windows_calendar b g a i j : on_calendar b = true -> budgetGrid b = Some g -> OverrideAnchorReset b = Some a -> wide g ->
  anchored g i a -> LastReset b = boundary g j -> i <= j -> boundary g j - boundary g i < two63 - 9 * dayNs ->
  WindowsSinceAnchor b = j - i.
Proof.
  intros Hc Hg Ha Hw Han Hl Hij Hn. pose proof (budgetGrid_ok _ _ Hg) as Hok. unfold Windows.WindowsSinceAnchor.
  rewrite Ha, bool_decide_eq_false_2 by (by eapply grid_duration). fold (on_calendar b). rewrite Hc.
  unfold budgetGrid in Hg. rewrite Hc in Hg. unfold anchored in Han. pose proof (Hw i) as Hi. pose proof (Hw j) as Hj.
  assert (index g (a + boundaryJitterTolerance) = i) as E1 by (apply (grid_unique Hok); lia).
  assert (index g (LastReset b + boundaryJitterTolerance) = j) as E2.
  { apply (grid_unique Hok). rewrite Hl. assert (0 < boundaryJitterTolerance) by done. lia. }
  destruct (Z.eq_dec i j) as [<-|N].
  - destruct (Z.ltb_spec (a + boundaryJitterTolerance) (LastReset b)); cbn [negb]; lia.
  - pose proof (grid_le Hok (i + 1) j). destruct (Z.ltb_spec (a + boundaryJitterTolerance) (LastReset b)) as [L|L]; cbn [negb]; [|lia].
    rewrite (CountCalendarPeriods_grid _ _ g); [by rewrite E1, E2|done| |].
    + assert (0 < boundaryJitterTolerance) by done. lia.
    + intros _. unfold near. assert (boundaryJitterTolerance < dayNs) by done. lia.
Qed.

(** The distance up to which the counting of windows is exact. *)
Definition countable (b : TableBudget) (g : Grid) (i j : Z) : Prop := boundary g j - boundary g i < two63 - 9 * dayNs.

Lemma windows_since b g a i j : budgetGrid b = Some g -> OverrideAnchorReset b = Some a -> wide g -> anchored g i a ->
  LastReset b = boundary g j -> i <= j -> countable b g i j -> WindowsSinceAnchor b = j - i.
Proof.
  intros Hg Ha Hw Han Hl Hij Hn. destruct (on_calendar b) eqn:Hc; [by eapply windows_calendar|].
  unfold budgetGrid in Hg. rewrite Hc in Hg. apply bind_Some in Hg as (d & Hp & Hg). destruct (Z.leb_spec d 0); cbn in Hg; [done|].
  destruct (IsZero _); simplify_eq. unfold countable in Hn. cbn in Hn.
  eapply windows_rolling; try done. assert (2 * boundaryJitterTolerance < 9 * dayNs) by done. lia.
Qed.

(** A finite override lives for exactly the windows it was granted for: a
    grant of [n] windows made in window [i], whatever small error its anchor
    picked up on the way between nodes, raises the limit in window [j] exactly
    when fewer than [n] windows have passed, and says how many are left; every
    node derives this from the row, without counting down. *)
Theorem override_lives_n_windows b g a i j n :
  budgetGrid b = Some g -> wide g -> OverrideMode b = BudgetOverrideModeCycles -> OverrideCyclesTotal b = n ->
  leAmount (OverrideAmount b) zeroAmount = false -> OverrideAnchorReset b = Some a -> anchored g i a ->
  LastReset b = boundary g j -> i <= j -> countable b g i j -> leAmount zeroAmount zeroAmount = true ->
  HasActiveOverride (Refresh b) = (j - i <? n) /\ OverrideCyclesRemaining (Refresh b) = Z.max 0 (n - (j - i)) /\
  EffectiveMaxLimit (Refresh b) = (if j - i <? n then addAmount (MaxLimit b) (OverrideAmount b) else MaxLimit b).
Proof.
  intros Hg Hw Hm Ht Hpos Ha Han Hl Hij Hn Hz. pose proof (windows_since _ _ _ _ _ Hg Ha Hw Han Hl Hij Hn) as E.
  unfold RefreshOverrideCyclesRemaining, EffectiveMaxLimit. rewrite Hm, Ht, E.
  destruct (Z.leb_spec (n - (j - i)) 0) as [L|L].
  - destruct (Z.ltb_spec (j - i) n); [lia|]. unfold HasActiveOverride, ClearOverride, setOverrideFields. cbn. rewrite Hz. repeat split. lia.
  - destruct (Z.ltb_spec (j - i) n); [|lia]. unfold HasActiveOverride, setOverrideFields. cbn. rewrite Hpos.
    destruct (Z.ltb_spec 0 (n - (j - i))); [|lia]. repeat split. lia.
Qed.

End Budgets.

(** ** Concrete windows *)

(** Fiscal quarters from February on: 9 August 2024 lies in the quarter of 1 August. *)
Lemma calendar_windows_witness : IsCalendarAlignableDuration "1Q" = true /\
  (let s := GetCalendarPeriodStart "1Q" (Date 2024 8 9) 2 in s = Date 2024 8 1 /\ is_boundary "1Q" 2 s /\ s <= Date 2024 8 9) /\
  exists l, (forall x, x ∈ l <-> is_boundary "1w" 1 x /\ Date 2024 8 9 < x <= Date 2024 8 26) /\ length l = 3%nat.
Proof.
  split; [reflexivity|]. split.
  - destruct (proj1 (calendar_windows "1Q" 2) (Date 2024 8 9)) as (Hb & Hle & _).
    cbv zeta. split; [vm_compute; reflexivity|split; [exact Hb|exact Hle]].
  - destruct (proj2 (calendar_windows "1w" 1) (Date 2024 8 9) (Date 2024 8 26)) as (l & _ & Hl & Hc); [intros _; vm_compute; reflexivity|].
    exists l. split; [exact Hl|].
    assert (CountCalendarPeriods "1w" (Date 2024 8 9) (Date 2024 8 26) 1 = 3) as E by (vm_compute; reflexivity). lia.
Defined.

#[local] Instance cents : Amount Z := mkAmount Z 0 Z.add Z.leb Z.ltb (fun _ => true).
Definition noFraction (x scale unit : Z) : Z := 0.

(** A monthly budget of 100 with 50 more for three months, granted in January 2024
    and now in March, with an anchor half a millisecond off. *)
Definition marchBudget : TableBudget :=
  mkBudget "b" 100 "1M" (Date 2024 3 1) 0 50 BudgetOverrideModeCycles 3 3 (Some (Date 2024 1 1 + 500000)) 0 true (Date 2023 5 17).

Lemma override_lives_n_windows_witness :
  exists g i j, budgetGrid noFraction marchBudget = Some g /\ anchored g i (Date 2024 1 1 + 500000) /\ LastReset marchBudget = boundary g j /\ j - i = 2 /\
  OverrideCyclesRemaining (RefreshOverrideCyclesRemaining noFraction marchBudget) = 1 /\
  EffectiveMaxLimit (RefreshOverrideCyclesRemaining noFraction marchBudget) = 150.
Proof.
  exists (monthsGrid 1 0), (2024 * 12), (2024 * 12 + 2).
  assert (budgetGrid noFraction marchBudget = Some (monthsGrid 1 0)) as Hg by reflexivity.
  assert (anchored (monthsGrid 1 0) (2024 * 12) (Date 2024 1 1 + 500000)) as Ha by (vm_compute; reflexivity).
  assert (LastReset marchBudget = boundary (monthsGrid 1 0) (2024 * 12 + 2)) as Hl by (vm_compute; reflexivity).
  assert (wide (monthsGrid 1 0)) as Hw.
  { intros j. cbn. pose proof (month_length (1 * j + 0)) as L. replace (1 * (j + 1) + 0) with (1 * j + 0 + 1) by lia.
    unfold day_start. assert (2 * boundaryJitterTolerance <= dayNs) by done. assert (0 < dayNs) by done. nia. }
  destruct (override_lives_n_windows (H := cents) noFraction marchBudget (monthsGrid 1 0) (Date 2024 1 1 + 500000) (2024 * 12) (2024 * 12 + 2) 3 Hg Hw
    eq_refl eq_refl eq_refl eq_refl Ha Hl) as (_ & Hr & He); [lia|vm_compute; reflexivity|reflexivity|].
  rewrite Hr, He. by repeat split.
Defined.

(** A duration is multiplied out in 64 bits: six hundred years wrap around to
    about fifteen. *)
Lemma long_duration_wraps : (fun d => d / (365 * dayNs)) <$> ParseDuration noFraction "600Y" = Some 15.
Proof. vm_compute. reflexivity. Qed.

End WindowsTheory.
