(* ===== verification/Optimistic.v ===== *)
(** * Optimistic updates of a concurrent map

    The loops around [sync.Map] that the governance store uses for every
    counter: load the pointer stored under a key, build a changed copy of the
    row it points to, and publish the copy with [CompareAndSwap], going round
    again when somebody else published first.  Here any number of threads run
    such loops over one map, one access of shared memory at a time.  The
    theorems at the end hold for every loop of this shape: the threads together
    do what a machine does in which load and publication are one step, and a
    failed publication means that another one succeeded in between. *)

From S2P Require Import Prelude Calendar.

Local Open Scope string_scope.
Local Open Scope nat_scope.
Local Open Scope list_scope.

Module Optimistic.
Import Calendar.

Section Optimistic.

(** The row, the place a thread has reached in its operation, and the memory
    next to the map (tables under mutexes, the database). *)
Context {R L S : Type}.

(** What the body of a loop does with the row it loaded. *)
Inductive decision :=
| Goto (l : L)
| Swap (locked : list (S -> S)) (new : R) (l : L).

(** One access to shared memory, by the place the thread has reached. *)
Inductive node :=
| Load (id : string) (k : Time -> option R -> decision)
| Delete (id : string) (l : L)
| Put (id : string) (new : R) (l : L)
| Now (k : Time -> L)
| Locked (f : S -> S) (l : L)
| Read (k : S -> L)
| Stop.

Variable body : L -> node.

(** A thread between two accesses.  [Holding] is a thread that has loaded
    [loaded], still has the sections [locked] to run, and is then going to
    publish [new] and go on at [next], or to go back to [retry]. *)
Inductive pc :=
| At (l : L)
| Holding (retry : L) (id : string) (loaded : option (nat * R)) (locked : list (S -> S)) (new : R) (next : L).

(** A publication or a deletion, as it is recorded. *)
Record Commit := mkCommit {
  by_thread : nat;
  at_place : L;
  at_key : string;
  old_row : option R;
  new_row : option R }.

(** The map holds pointers to rows that are never changed in place: a pointer is
    a number, and [fresh] is the next one to be allocated. *)
Record System := mkSystem {
  rows : gmap string (nat * R);
  fresh : nat;
  side : S;
  threads : list pc;
  log : list Commit }.

Definition setThread (s : System) (t : nat) (p : pc) : System :=
  mkSystem (rows s) (fresh s) (side s) (<[t := p]> (threads s)) (log s).

Definition setSide (s : System) (x : S) : System := mkSystem (rows s) (fresh s) x (threads s) (log s).

Definition row (s : System) (id : string) : option R := snd <$> rows s !! id.

(** [CompareAndSwap] and [LoadOrStore] compare pointers. *)
Definition unchanged (s : System) (id : string) (loaded : option (nat * R)) : bool :=
  bool_decide (fst <$> rows s !! id = fst <$> loaded).

Definition publish (s : System) (t : nat) (l : L) (id : string) (new : R) : System :=
  mkSystem (<[id := (fresh s, new)]> (rows s)) (Datatypes.S (fresh s)) (side s) (threads s)
    (mkCommit t l id (row s id) (Some new) :: log s).

Definition remove (s : System) (t : nat) (l : L) (id : string) : System :=
  mkSystem (delete id (rows s)) (fresh s) (side s) (threads s) (mkCommit t l id (row s id) None :: log s).

(** The decision taken with a loaded row. *)
Definition decided (s : System) (t : nat) (l : L) (id : string) (loaded : option (nat * R)) (d : decision) : System :=
  match d with
  | Goto l' => setThread s t (At l')
  | Swap fs new l' => setThread s t (Holding l id loaded fs new l')
  end.

Definition stepPc (s : System) (t : nat) (now : Time) (p : pc) : System :=
  match p with
  | At l =>
      match body l with
      | Load id k => decided s t l id (rows s !! id) (k now (row s id))
      | Delete id l' => setThread (remove s t l id) t (At l')
      | Put id new l' => setThread (publish s t l id new) t (At l')
      | Now k => setThread s t (At (k now))
      | Locked f l' => setThread (setSide s (f (side s))) t (At l')
      | Read k => setThread s t (At (k (side s)))
      | Stop => s
      end
  | Holding l id loaded (f :: fs) new l' => setThread (setSide s (f (side s))) t (Holding l id loaded fs new l')
  | Holding l id loaded [] new l' =>
      if unchanged s id loaded then setThread (publish s t l id new) t (At l') else setThread s t (At l)
  end.

(** What happens: an operation is started on a new thread, or a thread takes a
    step with the clock showing [now]. *)
Inductive event :=
| Spawn (l : L)
| Step (t : nat) (now : Time).

Definition step (s : System) (e : event) : System :=
  match e with
  | Spawn l => mkSystem (rows s) (fresh s) (side s) (threads s ++ [At l]) (log s)
  | Step t now => match threads s !! t with Some p => stepPc s t now p | None => s end
  end.

Definition run (s : System) (es : list event) : System := fold_left step es s.

(** A map nobody works on yet. *)
Definition initial (x : S) (m : gmap string (nat * R)) (n : nat) : System := mkSystem m n x [] [].

(** ** The atomic machine *)

(** The same operations with load, decision and publication in one step. *)
Record Atomic := mkAtomic {
  a_rows : gmap string R;
  a_threads : list L;
  a_log : list Commit }.

Definition aset (a : Atomic) (t : nat) (l : L) : Atomic := mkAtomic (a_rows a) (<[t := l]> (a_threads a)) (a_log a).

Definition acommit (a : Atomic) (t : nat) (l : L) (id : string) (new : option R) : Atomic :=
  mkAtomic (match new with Some r => <[id := r]> (a_rows a) | None => delete id (a_rows a) end) (a_threads a)
    (mkCommit t l id (a_rows a !! id) new :: a_log a).

(** A step of the atomic machine, which may read anything from the tables. *)
Inductive astep (a : Atomic) : Atomic -> Prop :=
| astep_spawn l : astep a (mkAtomic (a_rows a) (a_threads a ++ [l]) (a_log a))
| astep_goto t l id k now l' : a_threads a !! t = Some l -> body l = Load id k -> k now (a_rows a !! id) = Goto l' -> astep a (aset a t l')
| astep_swap t l id k now fs new l' : a_threads a !! t = Some l -> body l = Load id k ->
    k now (a_rows a !! id) = Swap fs new l' -> astep a (aset (acommit a t l id (Some new)) t l')
| astep_delete t l id l' : a_threads a !! t = Some l -> body l = Delete id l' -> astep a (aset (acommit a t l id None) t l')
| astep_put t l id new l' : a_threads a !! t = Some l -> body l = Put id new l' -> astep a (aset (acommit a t l id (Some new)) t l')
| astep_now t l k now : a_threads a !! t = Some l -> body l = Now k -> astep a (aset a t (k now))
| astep_locked t l f l' : a_threads a !! t = Some l -> body l = Locked f l' -> astep a (aset a t l')
| astep_read t l k x : a_threads a !! t = Some l -> body l = Read k -> astep a (aset a t (k x)).

Definition place (p : pc) : L := match p with At l => l | Holding l _ _ _ _ _ => l end.

(** A loaded row that has not been published counts as not yet loaded. *)
Definition abstract (s : System) : Atomic := mkAtomic (snd <$> rows s) (place <$> threads s) (log s).

(** What a thread holds: a decision taken on a row that, as long as its pointer
    is the one in the map, is the row in the map. *)
Definition held (s : System) (p : pc) : Prop :=
  match p with
  | At _ => True
  | Holding l id loaded fs new l' =>
      (exists k now ran, body l = Load id k /\ k now (snd <$> loaded) = Swap (ran ++ fs) new l') /\
      forall q r, loaded = Some (q, r) -> q < fresh s /\ forall r', rows s !! id = Some (q, r') -> r' = r
  end.

Definition consistent (s : System) : Prop :=
  (forall id q r, rows s !! id = Some (q, r) -> q < fresh s) /\ Forall (held s) (threads s).

Lemma held_publish s t l id new p : held s p -> held (publish s t l id new) p.
Proof.
  destruct p as [|l1 i loaded fs n l2]; [done|]. cbn. intros [Hk Hp]. split; [done|].
  intros q r E. destruct (Hp q r E) as [Hq Hr]. split; [lia|]. intros r'.
  destruct (decide (i = id)) as [->|N]; [rewrite lookup_insert_eq; intros; simplify_eq; lia|].
  rewrite lookup_insert_ne by done. apply Hr.
Qed.

Lemma held_remove s t l id p : held s p -> held (remove s t l id) p.
Proof.
  destruct p as [|l1 i loaded fs n l2]; [done|]. cbn. intros [Hk Hp]. split; [done|].
  intros q r E. destruct (Hp q r E) as [Hq Hr]. split; [done|]. intros r'.
  destruct (decide (i = id)) as [->|N]; [by rewrite lookup_delete_eq|]. rewrite lookup_delete_ne by done. apply Hr.
Qed.

Lemma consistent_setThread s t p : consistent s -> held s p -> consistent (setThread s t p).
Proof. intros [Hr Hh] Hp. split; [done|]. by apply Forall_insert. Qed.

Lemma consistent_publish s t l id new : consistent s -> consistent (publish s t l id new).
Proof.
  intros [Hr Hh]. split; [|eapply Forall_impl; [exact Hh|]; intros; by apply held_publish].
  intros i q r. cbn. destruct (decide (i = id)) as [->|N]; [rewrite lookup_insert_eq; intros; simplify_eq; lia|].
  rewrite lookup_insert_ne by done. intros ?%Hr. lia.
Qed.

Lemma consistent_remove s t l id : consistent s -> consistent (remove s t l id).
Proof.
  intros [Hr Hh]. split; [|eapply Forall_impl; [exact Hh|]; intros; by apply held_remove].
  intros i q r. cbn. rewrite lookup_delete_Some. intros [_ ?]. eauto.
Qed.

Lemma stepPc_consistent s t now p : consistent s -> threads s !! t = Some p -> consistent (stepPc s t now p).
Proof.
  intros Hc Ht. pose proof Hc as [Hr Hh]. pose proof (Forall_lookup_1 _ _ _ _ Hh Ht) as Hp.
  destruct p as [l|l id loaded [|f fs] new l']; cbn.
  - destruct (body l) as [id k|id l'|id n l'|k|f l'|k|] eqn:Eb; try (by apply consistent_setThread); [| | |done].
    + destruct (k now (row s id)) as [l'|fs new l'] eqn:Ek; [by apply consistent_setThread|].
      apply consistent_setThread; [done|]. split; [by exists k, now, []|]. intros q r E. split; [eauto|]. intros r' E'. congruence.
    + apply consistent_setThread; [by apply consistent_remove|done].
    + apply consistent_setThread; [by apply consistent_publish|done].
  - destruct (unchanged s id loaded); apply consistent_setThread; try done. by apply consistent_publish.
  - apply consistent_setThread; [done|]. destruct Hp as [(k & now' & ran & Eb & Ek) Hp]. split; [|done].
    exists k, now', (ran ++ [f]). by rewrite <- app_assoc.
Qed.

Lemma step_consistent s e : consistent s -> consistent (step s e).
Proof.
  destruct e as [l|t now]; cbn; [|destruct (threads s !! t) eqn:Ht; eauto using stepPc_consistent].
  intros [Hr Hh]. split; [done|]. apply Forall_app. by repeat constructor.
Qed.

Lemma run_consistent es : forall s, consistent s -> consistent (run s es).
Proof. induction es as [|e es IH]; intros s Hc; [done|]. by apply IH, step_consistent. Qed.

(** The row under a key whose pointer is the one a thread loaded is the row it
    took its decision on. *)
Lemma unchanged_row s l id loaded fs new l' : held s (Holding l id loaded fs new l') -> unchanged s id loaded = true ->
  row s id = snd <$> loaded.
Proof.
  intros [_ Hp] Hu%bool_decide_eq_true. unfold row. destruct (rows s !! id) as [[q r]|] eqn:E, loaded as [[q' r']|]; simplify_eq/=; [|done].
  destruct (Hp _ _ eq_refl) as [_ Hr]. f_equal. by apply Hr.
Qed.

Lemma abstract_row s id : a_rows (abstract s) !! id = row s id.
Proof. cbn. apply lookup_fmap. Qed.

Lemma abstract_setThread s t p : abstract (setThread s t p) = aset (abstract s) t (place p).
Proof. unfold abstract, aset. cbn. by rewrite list_fmap_insert. Qed.

Lemma abstract_publish s t l id new : abstract (publish s t l id new) = acommit (abstract s) t l id (Some new).
Proof. unfold abstract, acommit, publish. cbn. by rewrite fmap_insert, lookup_fmap. Qed.

Lemma abstract_remove s t l id : abstract (remove s t l id) = acommit (abstract s) t l id None.
Proof. unfold abstract, acommit, remove. cbn. by rewrite fmap_delete, lookup_fmap. Qed.

Lemma aset_same a t l : a_threads a !! t = Some l -> aset a t l = a.
Proof. intros H. destruct a. unfold aset. cbn in *. by rewrite list_insert_id. Qed.

Lemma stepPc_refines s t now p : consistent s -> threads s !! t = Some p ->
  rtc astep (abstract s) (abstract (stepPc s t now p)).
Proof.
  intros [Hr Hh] Ht. pose proof (Forall_lookup_1 _ _ _ _ Hh Ht) as Hp.
  assert (a_threads (abstract s) !! t = Some (place p)) as Ha by (cbn; by rewrite list_lookup_fmap, Ht).
  assert (forall q, place q = place p -> abstract (setThread s t q) = abstract s) as Hsame.
  { intros q Hq. rewrite abstract_setThread, Hq. by apply aset_same. }
  destruct p as [l|l id loaded [|f fs] new l']; cbn in *.
  - destruct (body l) as [id k|id l'|id n l'|k|f l'|k|] eqn:Eb.
    + destruct (k now (row s id)) as [l'|fs new l'] eqn:Ek; cbn; [|by rewrite Hsame].
      rewrite abstract_setThread. eapply rtc_once, (astep_goto _ _ _ _ _ now); [done..|]. by rewrite abstract_row.
    + rewrite abstract_setThread, abstract_remove. eapply rtc_once, astep_delete; done.
    + rewrite abstract_setThread, abstract_publish. eapply rtc_once, astep_put; done.
    + rewrite abstract_setThread. by apply rtc_once, (astep_now _ t l k now).
    + rewrite abstract_setThread. by apply rtc_once, (astep_locked _ t l f l').
    + rewrite abstract_setThread. by apply rtc_once, (astep_read _ t l k (side s)).
    + done.
  - destruct (unchanged s id loaded) eqn:Hu; [|by rewrite Hsame].
    destruct Hp as [(k & now' & ran & Eb & Ek) Hp']. rewrite abstract_setThread, abstract_publish.
    eapply rtc_once, (astep_swap _ _ _ _ _ now'); [done..|]. rewrite abstract_row.
    rewrite (unchanged_row s l id loaded [] new l'); [exact Ek| |done]. split; [by exists k, now', ran|exact Hp'].
  - rewrite abstract_setThread. change (abstract (setSide s (f (side s)))) with (abstract s). by rewrite aset_same.
Qed.

(** Every interleaving of the loops does, at the moments of its publications,
    what the atomic machine does. *)
Lemma run_refines es : forall s, consistent s -> rtc astep (abstract s) (abstract (run s es)).
Proof.
  induction es as [|e es IH]; intros s Hc; [done|]. cbn. etrans; [|apply IH; by apply step_consistent].
  destruct e as [l|t now]; cbn.
  - unfold abstract at 2. cbn. rewrite fmap_app. apply rtc_once, astep_spawn.
  - destruct (threads s !! t) eqn:Ht; [by apply stepPc_refines|done].
Qed.

(** What every section a thread can run preserves of the memory on the side is
    preserved by every interleaving. *)
Lemma side_invariant (P : S -> S -> Prop) `{!PreOrder P} es :
  (forall l f l', body l = Locked f l' -> forall x, P x (f x)) ->
  (forall l id k now r fs n l', body l = Load id k -> k now r = Swap fs n l' -> Forall (fun f => forall x, P x (f x)) fs) ->
  forall s, consistent s -> P (side s) (side (run s es)).
Proof.
  intros Hl Hf. induction es as [|e es IH]; intros s Hc; [done|]. change (run s (e :: es)) with (run (step s e) es).
  etrans; [|apply IH; by apply step_consistent]. destruct e as [l|t now]; cbn; [done|]. destruct (threads s !! t) as [p|] eqn:Ht; [|done].
  destruct Hc as [_ Hh]. pose proof (Forall_lookup_1 _ _ _ _ Hh Ht) as Hp.
  destruct p as [l|l id loaded [|f fs] n l']; cbn.
  - destruct (body l) as [id k|id l'|id n l'|k|f l'|k|] eqn:Eb; try done; [by destruct (k now (row s id))|]. by eapply Hl.
  - by destruct (unchanged s id loaded).
  - destruct Hp as [(k & now' & ran & Eb & Ek) _]. pose proof (Hf _ _ _ _ _ _ _ _ Eb Ek) as Hall.
    apply Forall_app in Hall as [_ [Hx _]%Forall_cons]. apply Hx.
Qed.

(** ** Retries are paid for by others *)

(** The map is changed only by recorded commits. *)
Lemma step_log s e : exists cs, log (step s e) = cs ++ log s /\ length cs <= 1 /\
  forall id, Forall (fun c => at_key c <> id) cs -> rows (step s e) !! id = rows s !! id.
Proof.
  assert (forall s' : System, log s' = log s -> rows s' = rows s -> exists cs, log s' = cs ++ log s /\ length cs <= 1 /\
    forall id, Forall (fun c => at_key c <> id) cs -> rows s' !! id = rows s !! id) as Hnone.
  { intros s' Hl Hr. exists []. rewrite Hr. cbn. repeat split; [done|lia]. }
  destruct e as [l|t now]; cbn; [by apply Hnone|]. destruct (threads s !! t) as [[l|l i loaded [|f fs] n l']|]; cbn; try (by apply Hnone).
  - destruct (body l) as [i k|i l'|i n l'|k|f l'|k|]; try by apply Hnone.
    + destruct (k now (row s i)); by apply Hnone.
    + eexists [_]. cbn. split; [done|split; [lia|]]. intros j [Hj _]%Forall_cons. by rewrite lookup_delete_ne.
    + eexists [_]. cbn. split; [done|split; [lia|]]. intros j [Hj _]%Forall_cons. by rewrite lookup_insert_ne.
  - destruct (unchanged s i loaded); [|by apply Hnone].
    eexists [_]. cbn. split; [done|split; [lia|]]. intros j [Hj _]%Forall_cons. by rewrite lookup_insert_ne.
Qed.

Lemma run_log es : forall s, exists cs, log (run s es) = cs ++ log s /\
  forall id, Forall (fun c => at_key c <> id) cs -> rows (run s es) !! id = rows s !! id.
Proof.
  induction es as [|e es IH]; intros s; [by exists []|].
  change (run s (e :: es)) with (run (step s e) es). destruct (IH (step s e)) as (cs & -> & Hc).
  destruct (step_log s e) as (cs' & -> & _ & Hc'). exists (cs ++ cs'). split; [by rewrite app_assoc|].
  intros id [Hi Hi']%Forall_app. by rewrite Hc, Hc'.
Qed.

Definition finished (s : System) (t : nat) : bool :=
  match threads s !! t with
  | Some (At l) => match body l with Stop => true | _ => false end
  | Some _ => false
  | None => true
  end.

(** The steps thread [t] takes before it has finished. *)
Fixpoint own_steps (s : System) (es : list event) (t : nat) : nat :=
  match es with
  | [] => 0
  | e :: es =>
      match e with
      | Step u _ => if bool_decide (u = t) && negb (finished s t) then 1 else 0
      | Spawn _ => 0
      end + own_steps (step s e) es t
  end.

Definition by_others (t : nat) (cs : list Commit) : nat := length (filter (fun c => by_thread c <> t) cs).

(** A measure of the places of an operation that goes down with every access, if
    no publication fails. *)
Variable rank : L -> nat.

Definition decreasing (l : L) : Prop :=
  match body l with
  | Load _ k => forall now r, match k now r with Goto l' => rank l' < rank l | Swap fs _ l' => length fs + 1 + rank l' < rank l end
  | Delete _ l' | Put _ _ l' | Locked _ l' => rank l' < rank l
  | Now k => forall now, rank (k now) < rank l
  | Read k => forall x, rank (k x) < rank l
  | Stop => True
  end.

Hypothesis rank_decreases : forall l, decreasing l.

(** The accesses a thread still makes when it is left alone. *)
Definition potential (s : System) (p : pc) : nat :=
  match p with
  | At l => rank l
  | Holding l id loaded fs _ l' => length fs + 1 + (if unchanged s id loaded then rank l' else rank l)
  end.

(** What is true of a thread whose operation started with [K] accesses. *)
Definition bounded (K : nat) (p : pc) : Prop :=
  match p with At l => rank l <= K | Holding l _ _ _ _ l' => rank l' <= rank l <= K end.

Lemma own_step s t now p K : threads s !! t = Some p -> finished s t = false -> bounded K p ->
  exists p', threads (stepPc s t now p) !! t = Some p' /\ bounded K p' /\
    potential (stepPc s t now p) p' + 1 <= potential s p.
Proof.
  intros Ht Hf Hb. pose proof (lookup_lt_Some _ _ _ Ht) as Hl. unfold finished in Hf. rewrite Ht in Hf.
  assert (forall q (s' : System), length (threads s') = length (threads s) -> threads (setThread s' t q) !! t = Some q) as Hset.
  { intros q s' E. cbn. apply list_lookup_insert_eq. lia. }
  destruct p as [l|l i loaded [|f fs] n l']; cbn in *.
  - pose proof (rank_decreases l) as Hd. unfold decreasing in Hd. destruct (body l) as [i k|i l'|i n l'|k|f l'|k|]; [| | | | | |done].
    + specialize (Hd now (row s i)). destruct (k now (row s i)) as [l'|fs n l']; cbn; (eexists; split; [by apply list_lookup_insert_eq|cbn]); [lia|].
      unfold unchanged. cbn. rewrite bool_decide_eq_true_2 by done. lia.
    + eexists. split; [by apply list_lookup_insert_eq|]. cbn. lia.
    + eexists. split; [by apply list_lookup_insert_eq|]. cbn. lia.
    + specialize (Hd now). eexists. split; [by apply list_lookup_insert_eq|]. cbn. lia.
    + eexists. split; [by apply list_lookup_insert_eq|]. cbn. lia.
    + specialize (Hd (side s)). eexists. split; [by apply list_lookup_insert_eq|]. cbn. lia.
  - destruct (unchanged s i loaded); (eexists; split; [by apply list_lookup_insert_eq|cbn; lia]).
  - eexists. split; [by apply list_lookup_insert_eq|]. cbn. change (unchanged (setThread _ _ _) i loaded) with (unchanged s i loaded). lia.
Qed.

Lemma by_others_app t cs cs' : by_others t (cs ++ cs') = by_others t cs + by_others t cs'.
Proof. unfold by_others. by rewrite filter_app, length_app. Qed.

(** A step of another thread leaves the place of [t], and raises what is left to
    do only when it commits. *)
Lemma other_step s e t p K : threads s !! t = Some p -> (forall now, e <> Step t now) -> bounded K p ->
  threads (step s e) !! t = Some p /\
  potential (step s e) p + K * by_others t (log s) <= potential s p + K * by_others t (log (step s e)).
Proof.
  intros Ht He Hb. assert (threads (step s e) !! t = Some p) as Ht'.
  { destruct e as [l|u now]; cbn; [by apply lookup_app_l_Some|]. assert (u <> t) by (intros ->; by eapply He).
    destruct (threads s !! u) as [[l|l i loaded [|f fs] n l']|]; cbn; [| | |done].
    - destruct (body l); cbn; rewrite ?list_lookup_insert_ne by done; try done.
      unfold decided. destruct (k now (row s id)); cbn; by rewrite list_lookup_insert_ne.
    - destruct (unchanged s i loaded); cbn; by rewrite list_lookup_insert_ne.
    - by rewrite list_lookup_insert_ne. }
  split; [done|]. destruct (step_log s e) as (cs & Hlog & Hlen & Hrows). rewrite Hlog, by_others_app.
  assert (cs = [] \/ by_others t cs = 1) as [->|E].
  { assert (log (step s e) = log s \/ exists c, log (step s e) = c :: log s /\ by_thread c <> t) as [E|(c & E & Hc)].
    - destruct e as [l|u now]; cbn; [by left|]. assert (u <> t) by (intros ->; by eapply He).
      destruct (threads s !! u) as [[l|l i loaded [|f fs] n l']|]; cbn; [| | |by left].
      + destruct (body l); cbn; try (by left); [unfold decided; destruct (k now (row s id)); by left|right; by eexists|right; by eexists].
      + destruct (unchanged s i loaded); [right; by eexists|by left].
      + by left.
    - left. rewrite E in Hlog. destruct cs; [done|]. apply (f_equal length) in Hlog. cbn in Hlog. rewrite length_app in Hlog. lia.
    - right. rewrite E in Hlog. destruct cs as [|c' [|]]; cbn in *; [|simplify_eq|lia].
      + apply (f_equal length) in Hlog. cbn in Hlog. lia.
      + unfold by_others. cbn. by rewrite decide_True. }
  - assert (potential (step s e) p = potential s p) as ->; [|cbn; lia].
    destruct p as [l|l i loaded fs n l']; [done|]. cbn. unfold unchanged. by rewrite Hrows.
  - rewrite E. destruct p as [l|l i loaded fs n l']; cbn in *; [lia|].
    destruct (unchanged (step s e) i loaded), (unchanged s i loaded); lia.
Qed.

(** In every interleaving a thread makes, until it has finished, at most the
    accesses of an undisturbed run and as many again for every publication of
    another thread. *)
Lemma work_bounded es : forall s t p K, threads s !! t = Some p -> bounded K p ->
  own_steps s es t + K * by_others t (log s) <= potential s p + K * by_others t (log (run s es)).
Proof.
  induction es as [|e es IH]; intros s t p K Ht Hb; [cbn; lia|]. cbn [own_steps].
  change (run s (e :: es)) with (run (step s e) es).
  assert ((exists now, e = Step t now) \/ ~ exists now, e = Step t now) as [[now ->]|N].
  { destruct e as [l|u now]; [right; by intros []|]. destruct (decide (u = t)) as [->|]; [left; by eexists|right; intros []; simplify_eq]. }
  - rewrite bool_decide_eq_true_2 by done. cbn [andb]. destruct (finished s t) eqn:Hf; cbn [negb].
    + assert (step s (Step t now) = s) as Hs.
      { cbn. rewrite Ht. unfold finished in Hf. rewrite Ht in Hf. destruct p as [l|]; [|done]. cbn. by destruct (body l). }
      rewrite Hs. by apply IH.
    + cbn [step]. rewrite Ht. destruct (own_step _ _ now _ _ Ht Hf Hb) as (p' & Ht' & Hb' & Hp).
      pose proof (IH _ _ _ _ Ht' Hb') as H. destruct (step_log s (Step t now)) as (cs & Hlog & _).
      cbn [step] in Hlog. rewrite Ht in Hlog. rewrite Hlog, by_others_app in H. nia.
  - destruct (other_step s e t p K) as [Ht' Hp]; [done|naive_solver|done|].
    pose proof (IH _ _ _ _ Ht' Hb) as H.
    assert (match e with Step u _ => if bool_decide (u = t) && negb (finished s t) then 1 else 0 | Spawn _ => 0 end = 0) as ->; [|lia].
    destruct e as [|u now]; [done|]. rewrite bool_decide_eq_false_2 by naive_solver. done.
Qed.

End Optimistic.
End Optimistic.
