(* ===== verification/Ledger.v ===== *)
(** * Ledgers of optimistic updates

    What holds of every family of operations on [Optimistic], once a few laws of
    their single moves are known: a value of a row (the usage of a counter) is the
    ledger of the commits, and an operation that reports success has made exactly
    one entry in it. *)

From S2P Require Import Prelude Calendar Optimistic.

Local Open Scope nat_scope.
Local Open Scope list_scope.

Module Ledger.
Import Calendar Optimistic.

Section Moves.
Context {R L S : Type}.
Variable body : L -> node (R := R) (L := L) (S := S).
Local Abbreviation System := (@System R L S).
Local Abbreviation Atomic := (@Atomic R L).
Local Abbreviation Commit := (@Commit R L).

(** A move of one thread, with what it commits: key, old row and new row. *)
Inductive moves (l : L) : option (string * option R * option R) -> L -> Prop :=
| m_goto id k now r l' : body l = Load id k -> k now r = Goto l' -> moves l None l'
| m_swap id k now old fs new l' : body l = Load id k -> k now old = Swap fs new l' -> moves l (Some (id, old, Some new)) l'
| m_delete id old l' : body l = Delete id l' -> moves l (Some (id, old, None)) l'
| m_put id old new l' : body l = Put id new l' -> moves l (Some (id, old, Some new)) l'
| m_now k now : body l = Now k -> moves l None (k now)
| m_locked f l' : body l = Locked f l' -> moves l None l'
| m_read k x : body l = Read k -> moves l None (k x).

(** The steps of the atomic machine are a spawn, a move without a commit, or a
    move that commits over the row that is there. *)
Lemma astep_moves (a a' : Atomic) : astep body a a' ->
  (exists l, a' = mkAtomic (a_rows a) (a_threads a ++ [l]) (a_log a)) \/
  (exists t l l', a_threads a !! t = Some l /\ moves l None l' /\ a' = aset a t l') \/
  (exists t l id new l', a_threads a !! t = Some l /\ moves l (Some (id, a_rows a !! id, new)) l' /\ a' = aset (acommit a t l id new) t l').
Proof.
  intros [l|t l id k now l' Hl Hb Hk|t l id k now fs new l' Hl Hb Hk|t l id l' Hl Hb|t l id new l' Hl Hb|t l k now Hl Hb|t l f l' Hl Hb|t l k x Hl Hb].
  - left. by exists l.
  - right; left. exists t, l, l'. eauto using m_goto.
  - right; right. exists t, l, id, (Some new), l'. eauto using m_swap.
  - right; right. exists t, l, id, None, l'. eauto using m_delete.
  - right; right. exists t, l, id, (Some new), l'. eauto using m_put.
  - right; left. exists t, l, (k now). eauto using m_now.
  - right; left. exists t, l, l'. eauto using m_locked.
  - right; left. exists t, l, (k x). eauto using m_read.
Qed.

(** An invariant of the atomic machine holds of every interleaving. *)
Lemma run_invariant (P : Atomic -> Prop) (s : System) es : consistent body s -> P (abstract s) ->
  (forall a a', P a -> astep body a a' -> P a') -> P (abstract (run body s es)).
Proof.
  intros Hc H0 Hstep. pose proof (run_refines body es s Hc) as Hr. revert H0. induction Hr as [|a a' a'' Ha Hr IH]; eauto.
Qed.

(** Pointers below the next one to be allocated. *)
Definition allocated (m : gmap string (nat * R)) (n : nat) : Prop := forall id q r, m !! id = Some (q, r) -> q < n.

Lemma initial_consistent m n x : allocated m n -> consistent body (initial x m n).
Proof. intros Hm. split; [|done]. intros id q r. apply Hm. Qed.

(** A property of rows that every commit keeps. *)
Lemma rows_invariant (P : R -> Prop) m n x es id r : allocated m n -> (forall i q r, m !! i = Some (q, r) -> P r) ->
  (forall l i old new l', moves l (Some (i, old, Some new)) l' -> (forall r, old = Some r -> P r) -> P new) ->
  row (run body (initial x m n) es) id = Some r -> P r.
Proof.
  intros Hm H0 Hmove. rewrite <- abstract_row. revert id r.
  apply (run_invariant (fun a => forall id r, a_rows a !! id = Some r -> P r)); [by apply initial_consistent| |].
  - intros id r. cbn. rewrite lookup_fmap. intros ([q r'] & Hr & ->)%fmap_Some. by eapply H0.
  - intros a a' Hi [(l & ->)|[(t & l & l' & _ & _ & ->)|(t & l & id & new & l' & _ & Hw & ->)]]%astep_moves; [done..|].
    intros i r. destruct new as [new|]; cbn.
    + destruct (decide (i = id)) as [->|N]; [|rewrite lookup_insert_ne by done; apply Hi].
      rewrite lookup_insert_eq. intros ?; simplify_eq. eapply Hmove; [exact Hw|]. intros r0. apply Hi.
    + rewrite lookup_delete_Some. intros [_ Hr]. by eapply Hi.
Qed.

(** Commits are made by threads that exist. *)
Lemma log_threads m n x es : allocated m n ->
  Forall (fun c => by_thread c < length (threads (run body (initial x m n) es))) (log (run body (initial x m n) es)).
Proof.
  intros Hm. set (s := run body (initial x m n) es). replace (length (threads s)) with (length (a_threads (abstract s))) by apply length_fmap.
  change (log s) with (a_log (abstract s)).
  apply (run_invariant (fun a => Forall (fun c => by_thread c < length (a_threads a)) (a_log a))); [by apply initial_consistent|constructor|].
  intros a a' Hi [(l & ->)|[(t & l & l' & _ & _ & ->)|(t & l & id & new & l' & Ht & Hw & ->)]]%astep_moves; cbn.
  - rewrite length_app. eapply Forall_impl; [exact Hi|]. cbn. lia.
  - by rewrite length_insert.
  - rewrite length_insert. constructor; [cbn; by eapply lookup_lt_Some|done].
Qed.

(** ** The value of a row *)

Section Value.
Context {U : Type}.
Variable value : R -> U.

(** What a commit at a place makes of the value. *)
Variable book : L -> option R -> option R -> option U -> option U.
Hypothesis book_ok : forall l id old new l', moves l (Some (id, old, new)) l' -> value <$> new = book l old new (value <$> old).

Fixpoint ledger (m : gmap string (nat * R)) (id : string) (cs : list Commit) : option U :=
  match cs with
  | [] => value ∘ snd <$> m !! id
  | c :: cs => if bool_decide (at_key c = id) then book (at_place c) (old_row c) (new_row c) (ledger m id cs) else ledger m id cs
  end.

Lemma ledger_value m n x es id : allocated m n ->
  value <$> row (run body (initial x m n) es) id = ledger m id (log (run body (initial x m n) es)).
Proof.
  intros Hm. rewrite <- abstract_row. set (s := run body (initial x m n) es). change (log s) with (a_log (abstract s)). revert id.
  apply (run_invariant (fun a => forall id, value <$> a_rows a !! id = ledger m id (a_log a))); [by apply initial_consistent| |].
  - intros id. cbn. rewrite lookup_fmap. by destruct (m !! id).
  - intros a a' Hi [(l & ->)|[(t & l & l' & _ & _ & ->)|(t & l & id & new & l' & _ & Hw & ->)]]%astep_moves; [done..|].
    intros i. cbn. destruct (decide (i = id)) as [->|N].
    + rewrite bool_decide_eq_true_2, <- Hi, <- (book_ok _ _ _ _ _ Hw) by done.
      destruct new; [by rewrite lookup_insert_eq|by rewrite lookup_delete_eq].
    + rewrite bool_decide_eq_false_2, <- Hi by done. destruct new; [by rewrite lookup_insert_ne|by rewrite lookup_delete_ne].
Qed.

End Value.

(** ** One entry for each success *)

Section Entries.
Context {C : Type}.

(** The entry an unfinished operation is going to make, the entry a commit at a
    place makes, and the places at which the operation has ended. *)
Variable pending : L -> option C.
Variable entry : L -> option C.
Variable success failure : L.

(** Moves keep what is pending, or fail, or make the entry and succeed. *)
Record Entering : Prop := {
  stop_success : body success = Stop;
  stop_failure : body failure = Stop;
  quiet_moves l l' : moves l None l' -> l' <> success /\ (pending l' = pending l \/ l' = failure);
  commit_moves l i old new l' : moves l (Some (i, old, new)) l' ->
    (entry l = None /\ pending l' = pending l) \/ (entry l = pending l /\ l' = success) }.

Definition entries (t : nat) (cs : list Commit) : list C := omap (fun c => entry (at_place c)) (filter (fun c => by_thread c = t) cs).

Lemma entries_other t c cs : by_thread c <> t -> entries t (c :: cs) = entries t cs.
Proof. intros Hc. unfold entries. by rewrite filter_cons_False. Qed.

Lemma entries_own t l id old new cs : entries t (mkCommit t l id old new :: cs) = option_list (entry l) ++ entries t cs.
Proof. unfold entries. rewrite filter_cons_True by done. cbn. by destruct (entry l). Qed.

Lemma entries_none t cs : Forall (fun c => by_thread c < t) cs -> entries t cs = [].
Proof. induction 1 as [|c cs Hc _ IH]; [done|]. rewrite entries_other by lia. done. Qed.

(** A thread on its way to an entry has made none; one that reports success has
    made exactly that one; one that failed has made none. *)
Definition accounted (t : nat) (e : C) (a : Atomic) : Prop :=
  exists l, a_threads a !! t = Some l /\
    ((pending l = Some e /\ entries t (a_log a) = []) \/
     (l = success /\ entries t (a_log a) = [e]) \/ (l = failure /\ entries t (a_log a) = [])).

Lemma stopped l c l' : body l = Stop -> ~ moves l c l'.
Proof. intros Hs Hm. inversion Hm; congruence. Qed.

Lemma accounted_step t e a a' : Entering -> accounted t e a -> astep body a a' -> accounted t e a'.
Proof.
  intros He (q & Hq & Hcase) [(l & ->)|[(u & l & l' & Hl & Hm & ->)|(u & l & i & new & l' & Hl & Hm & ->)]]%astep_moves.
  - exists q. split; [by apply lookup_app_l_Some|done].
  - destruct (decide (u = t)) as [->|N]; [|exists q; split; [by cbn; rewrite list_lookup_insert_ne|done]].
    exists l'. split; [cbn; rewrite list_lookup_insert_eq; [done|by eapply lookup_lt_Some]|]. simplify_eq. cbn.
    destruct Hcase as [[Hc Hl']|[[-> _]|[-> _]]]; [|by destruct (stopped _ _ _ (stop_success He) Hm)|by destruct (stopped _ _ _ (stop_failure He) Hm)].
    destruct (quiet_moves He _ _ Hm) as [_ [E| ->]]; [left; by rewrite E|by right; right].
  - destruct (decide (u = t)) as [->|N].
    + exists l'. split; [cbn; rewrite list_lookup_insert_eq; [done|by eapply lookup_lt_Some]|]. simplify_eq. cbn [aset acommit a_log].
      rewrite entries_own. destruct Hcase as [[Hc Hl']|[[-> _]|[-> _]]]; [|by destruct (stopped _ _ _ (stop_success He) Hm)|by destruct (stopped _ _ _ (stop_failure He) Hm)].
      rewrite Hl'. destruct (commit_moves He _ _ _ _ _ Hm) as [[-> E]|[-> ->]]; [left; by rewrite E|right; left; by rewrite Hc].
    + exists q. split; [by cbn; rewrite list_lookup_insert_ne|]. cbn [aset acommit a_log]. by rewrite entries_other.
Qed.

(** An operation started at any point of any run. *)
Lemma spawned_accounted m n x es es' l e : Entering -> allocated m n -> pending l = Some e ->
  let s0 := run body (initial x m n) es in
  let t := length (threads s0) in
  accounted t e (abstract (run body s0 (Spawn l :: es'))).
Proof.
  intros He Hm Hp s0 t. pose proof (run_consistent body es _ (initial_consistent m n x Hm)) as Hc.
  apply (run_invariant (accounted t e) (step body s0 (Spawn l)) es'); [by apply step_consistent| |intros; by eapply accounted_step].
  exists l. split; [cbn; rewrite fmap_app; apply list_lookup_middle; by rewrite length_fmap|]. left. split; [done|].
  by apply entries_none, log_threads.
Qed.

End Entries.
End Moves.
End Ledger.
