(* ===== verification/GovStore.v ===== *)
(** * Budgets of the governance store (src/plugins/governance/store.go)

    The usage counters of budgets, kept in a [sync.Map] that requests, sweeps,
    configuration changes and dumps to the database work on at the same time.
    Each operation is a place in the loops of [Optimistic]; [body] says what a
    thread at that place does next.  The tables under
    [LastDBUsagesBudgetsMu] and the database rows are the memory on the side. *)

From S2P Require Import Prelude Calendar Windows Optimistic.

Local Open Scope string_scope.
Local Open Scope Z_scope.
Local Open Scope list_scope.

Module GovStore.
Import Calendar Windows Optimistic.

Section GovStore.
Variable fraction : Z -> Z -> Z -> Z.
Context {F : Type} `{Amount F}.
Local Abbreviation TableBudget := (@TableBudget F).
Local Abbreviation Refresh := (RefreshOverrideCyclesRemaining fraction).

(** ** When a window has closed *)

Definition budgetResetTarget (budget : TableBudget) (now : Time) : option Time :=
  if bool_decide (ResetDuration budget = "") then None
  else
    let valid :=
      if negb (b_IsCalendarAligned budget) || negb (IsCalendarAlignableDuration (ResetDuration budget))
      then match ParseDuration fraction (ResetDuration budget) with Some duration => negb (duration <=? 0) | None => false end
      else true in
    if valid
    then let target := WindowStart fraction budget now in
         if LastReset budget <? target then Some target else None
    else None.

(** ** Changed copies of a row *)

Definition resetTo (old : TableBudget) (target : Time) : TableBudget := Refresh (setWindow old zeroAmount target).

Definition charge (old : TableBudget) (cost : F) : TableBudget := setWindow old (addAmount (CurrentUsage old) cost) (LastReset old).

Definition merge (old config : TableBudget) : TableBudget := Refresh (setWindow config (CurrentUsage old) (LastReset old)).

Definition rebase (old : TableBudget) (usage : F) (newLastReset : option Time) : TableBudget :=
  Refresh (setWindow old usage
    (match newLastReset with Some t => if LastReset old <? t then t else LastReset old | None => LastReset old end)).

Definition adopted (old : TableBudget) (now : Time) : option TableBudget :=
  Refresh <$> AdoptCalendarAlignment fraction (setAligned old true) now.

(** ** Dumps *)

Record budgetDumpRow := mkDumpRow {
  d_ID : string;
  d_CurrentUsage : F;
  d_LastReset : Time;
  d_OverrideAmount : F;
  d_OverrideMode : BudgetOverrideMode;
  d_OverrideCyclesRemaining : Z;
  d_OverrideCyclesTotal : Z;
  d_OverrideAnchorReset : option Time }.

Definition dumpRow (b : TableBudget) (usage : F) : budgetDumpRow :=
  mkDumpRow (b_ID b) usage (LastReset b) (OverrideAmount b) (OverrideMode b) (OverrideCyclesRemaining b)
    (OverrideCyclesTotal b) (OverrideAnchorReset b).

(** The row of a budget with the usage other nodes reported for it. *)
Definition foldBaseline (baselines : gmap string F) (b : TableBudget) : budgetDumpRow :=
  dumpRow b (match baselines !! b_ID b with Some x => addAmount (CurrentUsage b) x | None => CurrentUsage b end).

(** [sort.Slice] by ID, of rows with different IDs. *)
Fixpoint insertRow (r : budgetDumpRow) (rows : list budgetDumpRow) : list budgetDumpRow :=
  match rows with
  | [] => [r]
  | r' :: rest => if String.leb (d_ID r) (d_ID r') then r :: rows else r' :: insertRow r rest
  end.

Definition sortRows : list budgetDumpRow -> list budgetDumpRow := foldr insertRow [].

Inductive Guard := Before | NotAfter.

Definition guarded (g : Guard) (stored lastReset : Time) : bool :=
  match g with Before => stored <? lastReset | NotAfter => stored <=? lastReset end.

(** The two guarded updates of a row. *)
Definition updateOverride (row : budgetDumpRow) (db : gmap string budgetDumpRow) : gmap string budgetDumpRow :=
  match db !! d_ID row with
  | Some x =>
      if guarded Before (d_LastReset x) (d_LastReset row)
      then <[d_ID row := mkDumpRow (d_ID x) (d_CurrentUsage x) (d_LastReset x) (d_OverrideAmount row) (d_OverrideMode row)
             (d_OverrideCyclesRemaining row) (d_OverrideCyclesTotal row) (d_OverrideAnchorReset row)]> db
      else db
  | None => db
  end.

Definition updateUsage (g : Guard) (row : budgetDumpRow) (db : gmap string budgetDumpRow) : gmap string budgetDumpRow :=
  match db !! d_ID row with
  | Some x =>
      if guarded g (d_LastReset x) (d_LastReset row)
      then <[d_ID row := mkDumpRow (d_ID x) (d_CurrentUsage row) (d_LastReset row) (d_OverrideAmount x) (d_OverrideMode x)
             (d_OverrideCyclesRemaining x) (d_OverrideCyclesTotal x) (d_OverrideAnchorReset x)]> db
      else db
  | None => db
  end.

(** One statement per row and update, or one multi-row statement per update. *)
Definition writeBudgetBatch (supportsBatchedDump : bool) (g : Guard) (batch : list budgetDumpRow)
    (db : gmap string budgetDumpRow) : gmap string budgetDumpRow :=
  if negb supportsBatchedDump
  then fold_left (fun db row => updateUsage g row (updateOverride row db)) batch db
  else fold_left (fun db row => updateUsage g row db) batch (fold_left (fun db row => updateOverride row db) batch db).

(** ** The memory on the side *)

Record Tables := mkTables {
  LastDBUsagesBudgets : gmap string F;
  budgetResetGens : gmap string Z;
  onBudgetsReset : option (list (list TableBudget));
  database : gmap string budgetDumpRow }.

Definition two64 : Z := 2 ^ 64.

(** A missing generation reads as zero; the counter is a [uint64]. *)
Definition gen (gens : gmap string Z) (id : string) : Z := default 0 (gens !! id).

Definition markBudgetResetLocked (id : string) (gens : gmap string Z) : gmap string Z := <[id := (gen gens id + 1) mod two64]> gens.

Definition setBaseline (id : string) (usage : F) (x : Tables) : Tables :=
  mkTables (<[id := usage]> (LastDBUsagesBudgets x)) (budgetResetGens x) (onBudgetsReset x) (database x).

(** The section every reset runs: the baseline is cleared and the generation bumped. *)
Definition clearBaseline (id : string) (x : Tables) : Tables :=
  mkTables (<[id := zeroAmount]> (LastDBUsagesBudgets x)) (markBudgetResetLocked id (budgetResetGens x)) (onBudgetsReset x) (database x).

Definition dropBaseline (id : string) (x : Tables) : Tables :=
  mkTables (delete id (LastDBUsagesBudgets x)) (markBudgetResetLocked id (budgetResetGens x)) (onBudgetsReset x) (database x).

(** The reset hook is called with the budgets that were reset, if there are any. *)
Definition callHook (reset : list TableBudget) (x : Tables) : Tables :=
  match reset, onBudgetsReset x with
  | _ :: _, Some calls => mkTables (LastDBUsagesBudgets x) (budgetResetGens x) (Some (reset :: calls)) (database x)
  | _, _ => x
  end.

Definition setDatabase (f : gmap string budgetDumpRow -> gmap string budgetDumpRow) (x : Tables) : Tables :=
  mkTables (LastDBUsagesBudgets x) (budgetResetGens x) (onBudgetsReset x) (f (database x)).

Definition keepUnresetRows (batch : list budgetDumpRow) (snapshot gens : gmap string Z) : list budgetDumpRow :=
  filter (fun row => gen gens (d_ID row) = gen snapshot (d_ID row)) batch.

(** ** Places of the operations *)

(** What the reset path returns to: its caller, or the loop of a bump. *)
Inductive Caller := ToCaller | ToBump (id : string) (cost : F) (resetAttempts : nat).

Inductive TxOutcome := Committed | Deadlock | Failed.

Inductive Result :=
| Charged | Absent | Stored | Deleted | Unmoved
| Loaded (b : option TableBudget)
| Reset (budgets : list TableBudget)
| Rebased (b : TableBudget)
| Dumped | DumpFailed.

Inductive Place :=
| Bump (id : string) (cost : F) (resetAttempts : nat)
| ResetExpired (ids : list string) (k : Caller)
| ResetNext (now : Time) (ids : list string) (done : list TableBudget) (k : Caller)
| ResetAt (id : string) (newLastReset : Time) (now : Time) (ids : list string) (done : list TableBudget) (k : Caller)
| ResetMark (b : TableBudget) (now : Time) (ids : list string) (done : list TableBudget) (k : Caller)
| Upsert (id : string) (config : TableBudget)
| Edit (id : string) (config : TableBudget)
| StoreBudget (id : string) (budget : TableBudget)
| Rebase (id : string) (usage : F) (newLastReset : option Time)
| ResetUsage (id : string)
| ResetUsageMark (id : string) (b : TableBudget)
| Adopt (id : string) (now : Time)
| DeleteBudget (id : string)
| DeleteMark (id : string)
| LoadBudget (id : string)
| SetBudgetDBBaseline (id : string) (usage : F)
| Dump (baselines : gmap string F) (ids : list string) (txs : list TxOutcome)
| DumpRange (baselines : gmap string F) (ids : list string) (gens : gmap string Z) (rows : list budgetDumpRow) (txs : list TxOutcome)
| DumpCheck (rows : list budgetDumpRow) (gens : gmap string Z) (txs : list TxOutcome)
| DumpWrite (g : Guard) (batch : list budgetDumpRow) (rows : list budgetDumpRow) (gens : option (gmap string Z)) (txs : list TxOutcome)
| Returned (r : Result).

Local Abbreviation decision := (@decision TableBudget Place Tables).
Local Abbreviation node := (@node TableBudget Place Tables).

Definition maxRequestTimeResetAttempts : nat := 3.

(** One round of the loop of [BumpBudgetUsage]. *)
Definition BumpBudgetUsage (id : string) (cost : F) (resetAttempts : nat) (now : Time) (raw : option TableBudget) : decision :=
  match raw with
  | None => Goto (Returned Absent)
  | Some old =>
      match budgetResetTarget old now with
      | Some target =>
          if (resetAttempts <? maxRequestTimeResetAttempts)%nat
          then Goto (ResetExpired [id] (ToBump id cost (S resetAttempts)))
          else Swap [clearBaseline id] (charge (resetTo old target) cost) (Returned Charged)
      | None => Swap [] (charge old cost) (Returned Charged)
      end
  end.

(** The reset path is left: after the hook, the results go to the caller. *)
Definition leaveReset (reset : list TableBudget) (k : Caller) : Place :=
  match k with ToCaller => Returned (Reset reset) | ToBump id cost n => Bump id cost n end.

(** [resetOne] with [resetExpiredBudgetFromSnapshot]: the target of a snapshot. *)
Definition resetExpiredBudgetFromSnapshot (now : Time) (ids : list string) (reset : list TableBudget) (k : Caller)
    (raw : option TableBudget) : decision :=
  match raw with
  | None => Goto (ResetNext now ids reset k)
  | Some budget =>
      match budgetResetTarget budget now with
      | Some target => Goto (ResetAt (b_ID budget) target now ids reset k)
      | None => Goto (ResetNext now ids reset k)
      end
  end.

(** One round of the loop of [ResetBudgetAt], from within the reset path. *)
Definition ResetBudgetAt (newLastReset now : Time) (ids : list string) (reset : list TableBudget) (k : Caller)
    (raw : option TableBudget) : decision :=
  match raw with
  | None => Goto (ResetNext now ids reset k)
  | Some old =>
      if negb (LastReset old <? newLastReset) then Goto (ResetNext now ids reset k)
      else let clone := resetTo old newLastReset in Swap [] clone (ResetMark clone now ids reset k)
  end.

Definition UpsertBudgetConfig (config : TableBudget) (raw : option TableBudget) : decision :=
  match raw with
  | None => Swap [] (Refresh config) (Returned Stored)
  | Some old => Swap [] (merge old config) (Returned Stored)
  end.

(** A budget in the handlers that update a virtual key, team, customer, model
    configuration or provider: usage and boundary are copied from the map, and
    the row is stored, whatever the map holds by then. *)
Definition editBudget (id : string) (config : TableBudget) (raw : option TableBudget) : decision :=
  Goto (StoreBudget id (match raw with Some old => setWindow config (CurrentUsage old) (LastReset old) | None => config end)).

Definition RebaseBudget (usage : F) (newLastReset : option Time) (next : TableBudget -> Place) (raw : option TableBudget) : decision :=
  match raw with
  | None => Goto (Returned Absent)
  | Some old => let clone := rebase old usage newLastReset in Swap [] clone (next clone)
  end.

Definition AdoptCalendarAlignmentInMemory (now : Time) (raw : option TableBudget) : decision :=
  match raw with
  | None => Goto (Returned Unmoved)
  | Some old => match adopted old now with Some clone => Swap [] clone (Returned Stored) | None => Goto (Returned Unmoved) end
  end.

Definition dumpBatchSize : nat := 500.

(** The next batch of a dump, kept rows only; an empty one is skipped. *)
Definition nextBatch (rows : list budgetDumpRow) (gens : gmap string Z) (txs : list TxOutcome) (x : Tables) : Place :=
  match keepUnresetRows (take dumpBatchSize rows) gens (budgetResetGens x) with
  | [] => DumpCheck (drop dumpBatchSize rows) gens txs
  | batch => DumpWrite NotAfter batch (drop dumpBatchSize rows) (Some gens) txs
  end.

(** After a transaction: a deadlock of a dump is left to the next one, any other
    error ends it; [ResetExpiredBudgets] stops at every error. *)
Definition afterTx (rows : list budgetDumpRow) (gens : option (gmap string Z)) (tx : TxOutcome) (txs : list TxOutcome) : Place :=
  match gens, tx with
  | Some gens, (Committed | Deadlock) => DumpCheck rows gens txs
  | None, Committed =>
      match rows with [] => Returned Dumped | _ => DumpWrite Before (take dumpBatchSize rows) (drop dumpBatchSize rows) None txs end
  | _, _ => Returned DumpFailed
  end.

(** [ResetExpiredBudgets]: the rows to persist after a sweep. *)
Definition ResetExpiredBudgets (reset : list TableBudget) (txs : list TxOutcome) : Place :=
  let rows := sortRows ((fun b => dumpRow b (CurrentUsage b)) <$> reset) in
  match rows with [] => Returned Dumped | _ => DumpWrite Before (take dumpBatchSize rows) (drop dumpBatchSize rows) None txs end.

Variable supportsBatchedDump : bool.

(** What a thread does at each place. *)
Definition body (p : Place) : node :=
  match p with
  | Bump id cost n => Load id (fun now raw => BumpBudgetUsage id cost n now raw)
  | ResetExpired ids k => Now (fun now => ResetNext now ids [] k)
  | ResetNext now [] reset k => Locked (callHook reset) (leaveReset reset k)
  | ResetNext now (id :: ids) reset k => Load id (fun _ raw => resetExpiredBudgetFromSnapshot now ids reset k raw)
  | ResetAt id target now ids reset k => Load id (fun _ raw => ResetBudgetAt target now ids reset k raw)
  | ResetMark b now ids reset k => Locked (clearBaseline (b_ID b)) (ResetNext now ids (reset ++ [b]) k)
  | Upsert id config => Load id (fun _ raw => UpsertBudgetConfig config raw)
  | Edit id config => Load id (fun _ raw => editBudget id config raw)
  | StoreBudget id budget => Put id (Refresh budget) (Returned Stored)
  | Rebase id usage t => Load id (fun _ raw => RebaseBudget usage t (fun b => Returned (Rebased b)) raw)
  | ResetUsage id => Load id (fun _ raw => RebaseBudget zeroAmount None (ResetUsageMark id) raw)
  | ResetUsageMark id b => Locked (clearBaseline id) (Returned (Rebased b))
  | Adopt id now => Load id (fun _ raw => AdoptCalendarAlignmentInMemory now raw)
  | DeleteBudget id => Delete id (DeleteMark id)
  | DeleteMark id => Locked (dropBaseline id) (Returned Deleted)
  | LoadBudget id => Load id (fun _ raw => Goto (Returned (Loaded raw)))
  | SetBudgetDBBaseline id usage => Locked (setBaseline id usage) (Returned Stored)
  | Dump baselines ids txs => Read (fun x => DumpRange baselines ids (budgetResetGens x) [] txs)
  | DumpRange baselines [] gens rows txs => Now (fun _ => DumpCheck (sortRows rows) gens txs)
  | DumpRange baselines (id :: ids) gens rows txs =>
      Load id (fun _ raw => Goto (DumpRange baselines ids gens
        (match raw with Some b => rows ++ [foldBaseline baselines b] | None => rows end) txs))
  | DumpCheck [] gens txs => Now (fun _ => Returned Dumped)
  | DumpCheck rows gens txs => Read (nextBatch rows gens txs)
  | DumpWrite g batch rows gens [] =>
      Locked (setDatabase (writeBudgetBatch supportsBatchedDump g batch)) (afterTx rows gens Committed [])
  | DumpWrite g batch rows gens (Committed :: txs) =>
      Locked (setDatabase (writeBudgetBatch supportsBatchedDump g batch)) (afterTx rows gens Committed txs)
  | DumpWrite g batch rows gens (tx :: txs) => Now (fun _ => afterTx rows gens tx txs)
  | Returned _ => Stop
  end.

End GovStore.
End GovStore.
