(* ===== verification/GovStoreTheory.v ===== *)
(** * Budgets under concurrency: what the store guarantees

    Theorems about every interleaving of the operations of [GovStore]: the
    usage of a budget is the ledger of the charges committed since it was last
    set, boundaries move forward, published overrides are current, loops end.
    The commits of the operations are classified once ([moves_writes]); what
    follows for every interleaving comes from [Ledger]. *)

From S2P Require Import Prelude Calendar Windows WindowsTheory Optimistic Ledger GovStore.
From Stdlib Require Import Sorting.Sorted.

Local Open Scope string_scope.
Local Open Scope Z_scope.
Local Open Scope list_scope.

Module GovStoreTheory.
Import Calendar Windows WindowsTheory Optimistic Ledger GovStore.

Section Theory.
Variable fraction : Z -> Z -> Z -> Z.
Context {F : Type} `{Amount F}.
Variable supportsBatchedDump : bool.
Local Abbreviation TableBudget := (@TableBudget F).
Local Abbreviation Place := (@Place F).
Local Abbreviation Tables := (@Tables F).
Local Abbreviation Refresh := (RefreshOverrideCyclesRemaining fraction).
Local Abbreviation budgetResetTarget := (budgetResetTarget fraction).
Local Abbreviation resetTo := (resetTo fraction).
Local Abbreviation body := (body fraction supportsBatchedDump).
Local Abbreviation System := (@System TableBudget Place Tables).
Local Abbreviation run := (run body).
Local Abbreviation event := (@event Place).
Local Abbreviation Commit := (@Commit TableBudget Place).
Local Abbreviation Atomic := (@Atomic TableBudget Place).

(** ** Rows *)

(** Refreshing changes nothing but the override. *)
Lemma Refresh_window b : CurrentUsage (Refresh b) = CurrentUsage b /\ LastReset (Refresh b) = LastReset b.
Proof. unfold RefreshOverrideCyclesRemaining. destruct (OverrideMode b); [done| |done]. by destruct (Z.leb _ _). Qed.

Lemma Refresh_usage b : CurrentUsage (Refresh b) = CurrentUsage b.
Proof. apply Refresh_window. Qed.

Lemma Refresh_boundary b : LastReset (Refresh b) = LastReset b.
Proof. apply Refresh_window. Qed.

Lemma Refresh_idem b : Refresh (Refresh b) = Refresh b.
Proof.
  unfold RefreshOverrideCyclesRemaining at 2 3. destruct (OverrideMode b) eqn:Em.
  - unfold RefreshOverrideCyclesRemaining. by rewrite Em.
  - destruct (Z.leb_spec (OverrideCyclesTotal b - WindowsSinceAnchor fraction b) 0) as [L|L]; [done|].
    unfold RefreshOverrideCyclesRemaining. cbn.
    change (WindowsSinceAnchor fraction (setOverrideFields b _ _ _ _ _)) with (WindowsSinceAnchor fraction b).
    by destruct (Z.leb_spec (OverrideCyclesTotal b - WindowsSinceAnchor fraction b) 0); [lia|].
  - unfold RefreshOverrideCyclesRemaining. by rewrite Em.
Qed.

Lemma charge_refreshed b cost : Refresh b = b -> Refresh (charge b cost) = charge b cost.
Proof.
  intros Hb. unfold RefreshOverrideCyclesRemaining in *. cbn. change (WindowsSinceAnchor fraction (charge b cost)) with (WindowsSinceAnchor fraction b).
  destruct (OverrideMode b) eqn:Em; [done| |done]. destruct (Z.leb_spec (OverrideCyclesTotal b - WindowsSinceAnchor fraction b) 0).
  - apply (f_equal OverrideMode) in Hb. cbn in Hb. congruence.
  - apply (f_equal OverrideCyclesRemaining) in Hb. cbn in Hb. unfold charge, setWindow, setOverrideFields. cbn. by rewrite Hb, Em.
Qed.

Lemma target_after (b : TableBudget) now t : budgetResetTarget b now = Some t -> LastReset b < t.
Proof.
  unfold GovStore.budgetResetTarget. case_bool_decide; [done|]. cbv zeta. case_match; [|done].
  destruct (Z.ltb_spec (LastReset b) (WindowStart fraction b now)); intros; simplify_eq; lia.
Qed.

Lemma adopted_row (old : TableBudget) now c : adopted fraction old now = Some c ->
  Refresh c = c /\ CurrentUsage c = CurrentUsage old /\ LastReset old < LastReset c.
Proof.
  unfold adopted. intros (c' & Hc & ->)%fmap_Some. unfold AdoptCalendarAlignment in Hc. case_match; [done|].
  cbv zeta in Hc. destruct (Z.ltb_spec (LastReset (setAligned old true)) (WindowStart fraction (setAligned old true) now)); simplify_eq.
  rewrite Refresh_idem, Refresh_usage, Refresh_boundary. done.
Qed.

(** ** The steps of the atomic machine *)

(** The publications: from a place, on a key, of a row over a row, to a place. *)
Inductive writes : Place -> string -> option TableBudget -> option TableBudget -> Place -> Prop :=
| w_charge id cost n old : writes (Bump id cost n) id (Some old) (Some (charge old cost)) (Returned Charged)
| w_inline id cost n old t : LastReset old < t -> (maxRequestTimeResetAttempts <= n)%nat ->
    writes (Bump id cost n) id (Some old) (Some (charge (resetTo old t) cost)) (Returned Charged)
| w_reset id t now ids reset k old : LastReset old < t ->
    writes (ResetAt id t now ids reset k) id (Some old) (Some (resetTo old t)) (ResetMark (resetTo old t) now ids reset k)
| w_upsert_new id config : writes (Upsert id config) id None (Some (Refresh config)) (Returned Stored)
| w_upsert id config old : writes (Upsert id config) id (Some old) (Some (merge fraction old config)) (Returned Stored)
| w_store id b old : writes (StoreBudget id b) id old (Some (Refresh b)) (Returned Stored)
| w_rebase id u t old : let b := rebase fraction old u t in writes (Rebase id u t) id (Some old) (Some b) (Returned (Rebased b))
| w_reset_usage id old : let b := rebase fraction old zeroAmount None in
    writes (ResetUsage id) id (Some old) (Some b) (ResetUsageMark id b)
| w_adopt id now old c : adopted fraction old now = Some c -> writes (Adopt id now) id (Some old) (Some c) (Returned Stored)
| w_delete id old : writes (DeleteBudget id) id old None (DeleteMark id).

(** The charge an unfinished operation is going to make. *)
Definition pending (p : Place) : option (string * F) :=
  match p with
  | Bump id cost _ | ResetExpired _ (ToBump id cost _) | ResetNext _ _ _ (ToBump id cost _)
  | ResetAt _ _ _ _ _ (ToBump id cost _) | ResetMark _ _ _ _ (ToBump id cost _) => Some (id, cost)
  | _ => None
  end.

Local Abbreviation moves := (moves body).

(** A move without a publication. *)
Definition quiet (p p' : Place) : Prop := p' <> Returned Charged /\ (pending p' = pending p \/ p' = Returned Absent).

Lemma body_load p id k now raw d : body p = Load id k -> k now raw = d ->
  match d with Goto p' => quiet p p' | Swap _ new p' => writes p id raw (Some new) p' end.
Proof.
  intros Hb <-. destruct p; cbn in Hb; repeat case_match; simplify_eq/=.
  all: unfold BumpBudgetUsage, resetExpiredBudgetFromSnapshot, ResetBudgetAt, UpsertBudgetConfig, editBudget, RebaseBudget,
    AdoptCalendarAlignmentInMemory in *; repeat case_match; simplify_eq/=.
  all: try (split; [done|]; solve [by left|by right]).
  all: try constructor.
  all: repeat match goal with
    | E : budgetResetTarget _ _ = Some _ |- _ => apply target_after in E
    | E : Nat.ltb _ _ = false |- _ => apply Nat.ltb_ge in E
    | E : negb _ = false |- _ => apply negb_false_iff, Z.ltb_lt in E
    end; try done; try lia.
Qed.

Lemma moves_quiet p p' : moves p None p' -> quiet p p'.
Proof.
  assert (forall r k now ids, quiet (ResetNext now ids r k) (leaveReset r k)) as Hleave by (by intros r [|? ? ?] now ids; (split; [done|by left])).
  intros Hm. inversion Hm as [id k now r ? Hb Hk| | | |k now Hb|f ? Hb|k x Hb]; subst; [exact (body_load _ _ _ _ _ _ Hb Hk)|..].
  all: destruct p; cbn in Hb; repeat case_match; simplify_eq/=; unfold afterTx, nextBatch; repeat case_match;
    first [apply Hleave|split; [done|]; solve [by left|by right]].
Qed.

Lemma moves_writes p id old new p' : moves p (Some (id, old, new)) p' -> writes p id old new p'.
Proof.
  intros Hm. inversion Hm as [|? k now ? fs ? ? Hb Hk|? ? ? Hb|? ? ? ? Hb| | |]; subst; [exact (body_load _ _ _ _ _ _ Hb Hk)|..];
    destruct p; cbn in Hb; repeat case_match; simplify_eq; constructor.
Qed.

(** A store with rows loaded from the database, each refreshed by [storeBudget]. *)
Definition start (m : gmap string (nat * TableBudget)) (n : nat) (x : Tables) : System := initial x m n.

Definition loaded (m : gmap string (nat * TableBudget)) (n : nat) : Prop :=
  allocated m n /\ forall id q b, m !! id = Some (q, b) -> Refresh b = b.

Lemma start_consistent m n x : loaded m n -> consistent body (start m n x).
Proof. intros [Hm _]. by apply initial_consistent. Qed.

(** ** Overrides are current *)

Lemma writes_refreshed p id old new p' : writes p id old (Some new) p' -> (forall b, old = Some b -> Refresh b = b) -> Refresh new = new.
Proof.
  intros Hw Ho. inversion Hw; subst; rewrite ?Refresh_idem; try done.
  - by apply charge_refreshed, Ho.
  - apply charge_refreshed. unfold GovStore.resetTo. by rewrite Refresh_idem.
  - unfold GovStore.resetTo. by rewrite Refresh_idem.
  - unfold merge. by rewrite Refresh_idem.
  - subst b. unfold rebase. by rewrite Refresh_idem.
  - subst b. unfold rebase. by rewrite Refresh_idem.
  - by eapply adopted_row.
Qed.

Lemma rows_refreshed m n x es id b : loaded m n -> row (run (start m n x) es) id = Some b -> Refresh b = b.
Proof.
  intros [Hm Hr]. apply (rows_invariant body (fun b => Refresh b = b)); [done|done|].
  intros p i old new p' Hw%moves_writes. by eapply writes_refreshed.
Qed.

(** ** The ledger *)

(** What a commit makes of the usage: a charge adds to it, in the order of the
    publications, unless it resets the budget inline. *)
Definition bookUsage (p : Place) (old new : option TableBudget) (usage : option F) : option F :=
  match p with
  | Bump _ cost _ =>
      if bool_decide (LastReset <$> old = LastReset <$> new) then (fun u => addAmount u cost) <$> usage else Some (addAmount zeroAmount cost)
  | ResetAt _ _ _ _ _ _ | ResetUsage _ => Some zeroAmount
  | Rebase _ u _ => Some u
  | Upsert _ config => Some (default (CurrentUsage config) usage)
  | StoreBudget _ b => Some (CurrentUsage b)
  | Adopt _ _ => usage
  | _ => None
  end.

(** The usage of a budget, computed from what was committed since it was last set. *)
Definition usageOf : gmap string (nat * TableBudget) -> string -> list Commit -> option F := ledger CurrentUsage bookUsage.

Lemma book_usage p id old new p' : moves p (Some (id, old, new)) p' -> CurrentUsage <$> new = bookUsage p old new (CurrentUsage <$> old).
Proof.
  intros Hw%moves_writes. inversion Hw as [|? ? ? ? ? Hlt| | | | | | |? ? ? ? Hc|]; subst; cbn; unfold GovStore.resetTo, merge; rewrite ?Refresh_usage; try done.
  - by rewrite bool_decide_eq_true_2.
  - rewrite bool_decide_eq_false_2; [done|]. rewrite Refresh_boundary. cbn. intros ?; simplify_eq; lia.
  - subst b. unfold rebase. by rewrite Refresh_usage.
  - subst b. unfold rebase. by rewrite Refresh_usage.
  - by destruct (adopted_row _ _ _ Hc) as (_ & -> & _).
Qed.

(** The charge a commit makes, and the charges a thread has committed. *)
Definition chargeOf (p : Place) : option (string * F) := match p with Bump id cost _ => Some (id, cost) | _ => None end.

Definition charges : nat -> list Commit -> list (string * F) := entries chargeOf.

Lemma charging : Entering body pending chargeOf (Returned Charged) (Returned Absent).
Proof.
  constructor; [done|done|apply moves_quiet|]. intros p i old new p' Hw%moves_writes.
  inversion Hw; subst; solve [by right|by left].
Qed.

(** C11. No charge is lost or counted twice: in every interleaving of charges,
    resets, sweeps, configuration changes, deletions and dumps, the usage of each
    budget is the ledger of the charges committed since it was last set, and a
    charge started at any point has committed exactly its own entry once it
    reports success, and none before that or when it found no budget. *)
Theorem every_charge_counted m n x es es' id cost : loaded m n ->
  let s0 := run (start m n x) es in
  let t := length (threads s0) in
  let s := run s0 (Spawn (Bump id cost 0) :: es') in
  (forall i, CurrentUsage <$> row s i = usageOf m i (log s)) /\
  exists p, place <$> threads s !! t = Some p /\
    charges t (log s) = match p with Returned Charged => [(id, cost)] | _ => [] end.
Proof.
  intros Hm s0 t s. split.
  - intros i. subst s s0. unfold Optimistic.run. rewrite <- fold_left_app. by apply (ledger_value body CurrentUsage bookUsage book_usage), Hm.
  - destruct (spawned_accounted body pending chargeOf _ _ m n x es es' (Bump id cost 0) (id, cost) charging (proj1 Hm) eq_refl) as (p & Hp & Hcase).
    exists p. cbn in Hp. rewrite list_lookup_fmap in Hp. split; [exact Hp|].
    destruct Hcase as [[Hpend Hl]|[[-> Hl]|[-> Hl]]]; [|exact Hl..]. etrans; [exact Hl|].
    destruct p as [| | | | | | | | | | | | | | | | | | | |[]]; done.
Qed.

(** ** Windows are reset once *)

(** The log holds no blind stores and no deletions of a key. *)
Definition steady (id : string) (cs : list Commit) : Prop :=
  Forall (fun c => at_key c = id -> match at_place c with StoreBudget _ _ | DeleteBudget _ => False | _ => True end) cs.

Definition isReset (p : Place) : bool := match p with ResetAt _ _ _ _ _ _ => true | _ => false end.

(** A commit on a key after another: the boundary has not moved back, and a reset
    has moved it forward. *)
Definition later (id : string) (c c' : Commit) : Prop :=
  at_key c = id -> at_key c' = id -> forall b b', new_row c = Some b -> new_row c' = Some b' ->
  LastReset b' <= LastReset b /\ (isReset (at_place c) = true -> LastReset b' < LastReset b).

Lemma writes_boundary p id b new p' : writes p id (Some b) (Some new) p' ->
  match p with StoreBudget _ _ => True | _ => LastReset b <= LastReset new /\ (isReset p = true -> LastReset b < LastReset new) end.
Proof.
  intros Hw. inversion Hw as [|? ? ? ? ? Hlt|? ? ? ? ? ? ? Hlt| | | | | |? ? ? ? Hc|]; subst; cbn; unfold GovStore.resetTo, merge;
    rewrite ?Refresh_boundary; cbn; try (split; [lia|]; intros; lia).
  - done.
  - subst b0. unfold rebase. rewrite Refresh_boundary. cbn. split; [|done]. destruct t as [t|]; [|lia].
    destruct (Z.ltb_spec (LastReset b) t); lia.
  - subst b0. unfold rebase. rewrite Refresh_boundary. cbn. split; [lia|done].
  - destruct (adopted_row _ _ _ Hc) as (_ & _ & ?). split; [lia|done].
Qed.

(** A window is reset at most once: as long as no edit stores a copied row and
    the budget is not deleted, every commit leaves the boundary of the budget at
    or after where the earlier ones put it, and every reset strictly after. *)
Theorem reset_once_per_window m n x es id : loaded m n ->
  let s := run (start m n x) es in steady id (log s) -> StronglySorted (later id) (log s).
Proof.
  intros Hm s. change (log s) with (a_log (abstract s)).
  assert (steady id (a_log (abstract s)) -> StronglySorted (later id) (a_log (abstract s)) /\
    forall c b, c ∈ a_log (abstract s) -> at_key c = id -> new_row c = Some b ->
      exists b', a_rows (abstract s) !! id = Some b' /\ LastReset b <= LastReset b') as Hinv; [|by intros Hs; apply Hinv].
  apply (run_invariant body (fun a => steady id (a_log a) -> StronglySorted (later id) (a_log a) /\
    forall c b, c ∈ a_log a -> at_key c = id -> new_row c = Some b -> exists b', a_rows a !! id = Some b' /\ LastReset b <= LastReset b'));
    [by apply start_consistent|by split; [constructor|intros ? ? ?%elem_of_nil]|].
  intros a a' Hi [(p & ->)|[(t & p & p' & _ & _ & ->)|(t & p & i & new & p' & _ & Hw%moves_writes & ->)]]%astep_moves; [done..|].
  cbn [aset acommit a_log a_rows]. intros [Hok Hst]%Forall_cons. specialize (Hi Hst) as [Hsort Hrow]. cbn in Hok.
  assert (i = id -> forall b, new = Some b -> forall c b', c ∈ a_log a -> at_key c = id -> new_row c = Some b' ->
    LastReset b' <= LastReset b /\ (isReset p = true -> LastReset b' < LastReset b)) as Hnew.
  { intros -> b -> c b' Hin Hk Hb'. destruct (Hrow _ _ Hin Hk Hb') as (b0 & Hb0 & Hle). rewrite Hb0 in Hw.
    pose proof (writes_boundary _ _ _ _ _ Hw) as Hb. specialize (Hok eq_refl). destruct p; try done; destruct Hb as [? Hb]; (split; [lia|]); intros E; specialize (Hb E); lia. }
  split.
  - constructor; [done|]. apply Forall_forall. intros c Hin Hk Hk' b b' Hb Hb'. cbn in *. eauto.
  - intros c b [->|Hin]%elem_of_cons Hk Hb; cbn in *.
    + subst. exists b. split; [by apply lookup_insert_eq|lia].
    + destruct (decide (i = id)) as [->|N]; [|destruct new; rewrite ?lookup_insert_ne, ?lookup_delete_ne by done; eauto].
      destruct new as [new|].
      * exists new. split; [by apply lookup_insert_eq|]. by eapply Hnew.
      * specialize (Hok eq_refl). inversion Hw; subst. done.
Qed.

(** A published override is never stale: in every interleaving, the remaining
    cycles of a finite override in the store are the windows it was granted for
    less those that have passed since its anchor, and an override without any
    left is not in the store. *)
Theorem published_override_current m n x es id b : loaded m n -> row (run (start m n x) es) id = Some b ->
  OverrideMode b = BudgetOverrideModeCycles ->
  OverrideCyclesRemaining b = OverrideCyclesTotal b - WindowsSinceAnchor fraction b /\ 0 < OverrideCyclesRemaining b.
Proof.
  intros Hm Hb Hmode. pose proof (rows_refreshed _ _ _ _ _ _ Hm Hb) as Hr. unfold RefreshOverrideCyclesRemaining in Hr.
  rewrite Hmode in Hr. destruct (Z.leb_spec (OverrideCyclesTotal b - WindowsSinceAnchor fraction b) 0).
  - apply (f_equal OverrideMode) in Hr. cbn in Hr. congruence.
  - apply (f_equal OverrideCyclesRemaining) in Hr. cbn in Hr. lia.
Qed.

(** ** The loops end *)

Definition rankBump (n : nat) : nat := (maxRequestTimeResetAttempts - n) * 7 + 4.

Definition rankCaller (k : Caller (F := F)) : nat := match k with ToCaller => 0 | ToBump _ _ n => rankBump n end.

Definition rankNext (ids : list string) (k : Caller (F := F)) : nat := 4 * length ids + 1 + rankCaller k.

(** The accesses an operation makes undisturbed. *)
Definition rank (p : Place) : nat :=
  match p with
  | Bump _ _ n => rankBump n
  | ResetExpired ids k => S (rankNext ids k)
  | ResetNext _ ids _ k => rankNext ids k
  | ResetAt _ _ _ ids _ k => rankNext ids k + 3
  | ResetMark _ _ ids _ k => S (rankNext ids k)
  | Upsert _ _ | Edit _ _ | Rebase _ _ _ | Adopt _ _ | DeleteBudget _ => 2
  | ResetUsage _ => 3
  | StoreBudget _ _ | ResetUsageMark _ _ | DeleteMark _ | LoadBudget _ | SetBudgetDBBaseline _ _ => 1
  | Dump _ ids _ => 3 + 4 * length ids
  | DumpRange _ ids _ rows _ => 2 + 4 * length ids + 3 * length rows
  | DumpCheck rows _ _ => 1 + 3 * length rows
  | DumpWrite _ _ rows _ _ => 2 + 3 * length rows
  | Returned _ => 0
  end%nat.

Lemma length_sortRows rows : length (sortRows (F := F) rows) = length rows.
Proof.
  assert (forall r l, length (insertRow (F := F) r l) = S (length l)) as Hins.
  { intros r l. induction l as [|r' l IH]; cbn; [done|]. destruct (String.leb _ _); cbn; [done|by rewrite IH]. }
  induction rows as [|r rows IH]; [done|]. unfold sortRows in *. cbn. by rewrite Hins, IH.
Qed.

Lemma rank_afterTx rows gens tx txs : (rank (afterTx rows gens tx txs) < 2 + 3 * length rows)%nat.
Proof.
  unfold afterTx. destruct gens, tx; cbn; try lia. destruct rows as [|r rows]; cbn; [lia|]. rewrite length_drop. lia.
Qed.

Lemma rank_nextBatch r rows gens txs x : (rank (nextBatch (r :: rows) gens txs x) < 1 + 3 * S (length rows))%nat.
Proof. unfold nextBatch. case_match; cbn; rewrite length_drop; lia. Qed.

Lemma rank_Bump id cost n now raw : match BumpBudgetUsage fraction id cost n now raw with
  | Goto p => rank p < rankBump n | Swap fs _ p => length fs + 1 + rank p < rankBump n end%nat.
Proof.
  unfold BumpBudgetUsage. destruct raw as [old|]; [destruct (budgetResetTarget old now) as [t|]|].
  - destruct (Nat.ltb_spec n maxRequestTimeResetAttempts); cbn; unfold rankNext; cbn; unfold rankBump, maxRequestTimeResetAttempts in *; lia.
  - cbn. unfold rankBump. lia.
  - cbn. unfold rankBump. lia.
Qed.

Lemma rank_decreases p : decreasing body rank p.
Proof.
  destruct p as [id cost n|ids k|now [|i ids] done k| | | | | | | | | | | | | | |b [|i ids] gens rows txs|[|r rows] gens txs|g batch rows gens [|[] txs]|]; unfold decreasing, GovStore.body; try done.
  - intros now raw. apply rank_Bump.
  - intros now. cbn. lia.
  - unfold rankNext. destruct k; cbn; unfold rankNext; cbn; lia.
  - intros _ raw. unfold resetExpiredBudgetFromSnapshot. destruct raw as [b|]; [destruct (budgetResetTarget b now)|]; cbn; unfold rankNext; cbn; lia.
  - intros _ raw. unfold ResetBudgetAt. destruct raw as [b|]; [destruct (negb _)|]; cbn; unfold rankNext; cbn; lia.
  - cbn. lia.
  - intros _ raw. unfold UpsertBudgetConfig. destruct raw; cbn; lia.
  - intros _ raw. cbn. lia.
  - cbn. lia.
  - intros _ raw. unfold RebaseBudget. destruct raw; cbn; lia.
  - intros _ raw. unfold RebaseBudget. destruct raw; cbn; lia.
  - cbn. lia.
  - intros _ raw. unfold AdoptCalendarAlignmentInMemory. destruct raw as [b|]; [destruct (adopted fraction b now)|]; cbn; lia.
  - cbn. lia.
  - cbn. lia.
  - intros _ raw. cbn. lia.
  - cbn. lia.
  - intros x. cbn. lia.
  - intros _. cbn. rewrite length_sortRows. lia.
  - intros _ raw. cbn. destruct raw; rewrite ?length_app; cbn; lia.
  - intros _. cbn. lia.
  - intros x. apply rank_nextBatch.
  - apply rank_afterTx.
  - apply rank_afterTx.
  - intros _. apply rank_afterTx.
  - intros _. apply rank_afterTx.
  - done.
Qed.

(** A charge cannot spin: from any state of the store and for any clock it
    finishes within 25 accesses to shared memory, plus 25 for every publication
    of another operation that gets in between. *)
Theorem charge_terminates (s : System) id cost es :
  let t := length (threads s) in
  let s' := step body s (Spawn (Bump id cost 0)) in
  (own_steps body s' es t + 25 * by_others t (log s) <= 25 + 25 * by_others t (log (run s' es)))%nat.
Proof.
  intros t s'. pose proof (work_bounded body rank rank_decreases es s' t (At (Bump id cost 0)) 25) as Hw.
  apply Hw; [subst s' t; cbn; by apply list_lookup_middle|cbn; unfold rankBump; cbn; lia].
Qed.

(** ** Resets land on the boundaries every node computes *)

Local Abbreviation budgetGrid := (budgetGrid fraction).

Lemma Refresh_fields (b : TableBudget) : ResetDuration (Refresh b) = ResetDuration b /\ b_IsCalendarAligned (Refresh b) = b_IsCalendarAligned b /\
  b_CreatedAt (Refresh b) = b_CreatedAt b /\ b_QuarterStartMonth (Refresh b) = b_QuarterStartMonth b /\ b_ID (Refresh b) = b_ID b.
Proof. unfold RefreshOverrideCyclesRemaining. destruct (OverrideMode b); [done| |done]. by destruct (Z.leb _ _). Qed.

Lemma resetTo_grid (b : TableBudget) t : budgetGrid (resetTo b t) = budgetGrid b.
Proof.
  unfold WindowsTheory.budgetGrid, on_calendar, QuarterStartMonth, GovStore.resetTo.
  destruct (Refresh_fields (setWindow b zeroAmount t)) as (-> & -> & -> & -> & _). done.
Qed.

Lemma resetTo_in_range (b : TableBudget) t now : in_range (resetTo b t) now <-> in_range b now.
Proof.
  unfold in_range, on_calendar, GovStore.resetTo. destruct (Refresh_fields (setWindow b zeroAmount t)) as (-> & -> & -> & _ & _). done.
Qed.

Lemma target_grid (b : TableBudget) g now : budgetGrid b = Some g -> in_range b now ->
  budgetResetTarget b now = if LastReset b <? boundary g (index g now) then Some (boundary g (index g now)) else None.
Proof.
  intros Hg Hr. unfold GovStore.budgetResetTarget. rewrite bool_decide_eq_false_2 by (by eapply grid_duration).
  rewrite (WindowStart_grid fraction b g now Hg Hr). cbv zeta.
  assert ((if negb (b_IsCalendarAligned b) || negb (IsCalendarAlignableDuration (ResetDuration b))
    then match ParseDuration fraction (ResetDuration b) with Some duration => negb (duration <=? 0) | None => false end else true) = true) as ->; [|done].
  unfold WindowsTheory.budgetGrid, on_calendar in Hg. destruct (b_IsCalendarAligned b), (IsCalendarAlignableDuration _); cbn in *; try done.
  all: apply bind_Some in Hg as (d & -> & Hg); destruct (Z.leb_spec d 0); by cbn in *.
Qed.

(** A budget is due exactly when its boundary lies before the window of the
    present instant, and its reset lands on the start of that window, however
    many windows have passed: the start depends on the persisted row and the
    instant only, and after the reset the budget is not due again within the
    window. *)
Theorem reset_lands_on_boundary (b : TableBudget) g now : budgetGrid b = Some g -> in_range b now ->
  budgetResetTarget b now = (if LastReset b <? boundary g (index g now) then Some (boundary g (index g now)) else None) /\
  forall t now', budgetResetTarget b now = Some t -> in_range b now' -> index g now' = index g now -> budgetResetTarget (resetTo b t) now' = None.
Proof.
  intros Hg Hr. rewrite (target_grid _ _ _ Hg Hr). split; [done|]. intros t now' Ht Hr' E.
  rewrite (target_grid (resetTo b t) g) by (rewrite ?resetTo_grid, ?resetTo_in_range; done).
  unfold GovStore.resetTo. rewrite Refresh_boundary, E. cbn. destruct (Z.ltb_spec (LastReset b) (boundary g (index g now))); simplify_eq.
  by rewrite Z.ltb_irrefl.
Qed.

(** ** The database *)

(** Both ways of writing a batch have the same effect on rows with different IDs. *)
Lemma updates_commute g r r' (db : gmap string budgetDumpRow) : d_ID r <> d_ID r' ->
  updateOverride r (updateUsage g r' db) = updateUsage (F := F) g r' (updateOverride r db).
Proof.
  intros N. unfold updateOverride, updateUsage.
  assert (forall x y (d : gmap string (@budgetDumpRow F)), <[d_ID r := x]> d !! d_ID r' = d !! d_ID r' /\ <[d_ID r' := y]> d !! d_ID r = d !! d_ID r) as Hne
    by (intros; by rewrite !lookup_insert_ne).
  destruct (db !! d_ID r') as [x'|] eqn:E'; [destruct (guarded g (d_LastReset x') (d_LastReset r')) eqn:G'|];
    (destruct (db !! d_ID r) as [x|] eqn:E; [destruct (guarded Before (d_LastReset x) (d_LastReset r)) eqn:G|]);
    rewrite ?(proj2 (Hne x x' db)), ?(proj1 (Hne x x' db)), ?E, ?E', ?G, ?G'; try done.
  all: repeat match goal with |- context [<[?k := ?v]> ?d !! ?k'] => rewrite (lookup_insert_ne d k k' v) by done end; rewrite ?E, ?E', ?G, ?G'; try done.
  by apply insert_insert_ne.
Qed.

(** The one-statement form of a dump batch on PostgreSQL and the row-by-row
    form on other databases leave the same rows behind. *)
Theorem dump_forms_agree g (batch : list budgetDumpRow) db : NoDup (d_ID <$> batch) ->
  writeBudgetBatch (F := F) true g batch db = writeBudgetBatch false g batch db.
Proof.
  unfold writeBudgetBatch. cbn [negb]. revert db. induction batch as [|r batch IH]; intros db Hd; [done|].
  cbn in *. apply NoDup_cons in Hd as [N Hd]. rewrite <- IH by done. f_equal.
  set (o := fold_left (fun db row => updateOverride row db) batch).
  assert (forall db', o (updateUsage g r db') = updateUsage g r (o db')) as Hc; [|by rewrite Hc].
  subst o. clear IH Hd. induction batch as [|r' batch IH]; intros db'; [done|]. cbn in *. apply not_elem_of_cons in N as [N1 N2].
  rewrite updates_commute by done. by apply IH.
Qed.

(** One database holds every row of another, with a boundary not before it. *)
Definition notBehind (x y : Tables) : Prop :=
  forall id r, database x !! id = Some r -> exists r', database y !! id = Some r' /\ d_LastReset r <= d_LastReset r'.

#[local] Instance notBehind_preorder : PreOrder notBehind.
Proof.
  split; [intros x id r Hr; exists r; by split|]. intros x y z Hxy Hyz id r (r' & Hr' & L)%Hxy.
  apply Hyz in Hr' as (r'' & Hr'' & L'). exists r''. split; [done|lia].
Qed.

Lemma notBehind_same x y : database y = database x -> notBehind x y.
Proof. intros E id r Hr. exists r. rewrite E. split; [done|lia]. Qed.

Lemma update_notBehind (f : gmap string budgetDumpRow -> gmap string budgetDumpRow) row :
  (forall g, f = updateOverride row \/ f = updateUsage g row -> forall db id r, db !! id = Some r ->
    exists r', f db !! id = Some r' /\ d_LastReset (F := F) r <= d_LastReset r').
Proof.
  intros g Hf db id r Hr. assert (forall x, db !! d_ID row = Some x -> id = d_ID row -> r = x) as Hsame by (intros; congruence).
  assert (forall x, (id = d_ID row -> d_LastReset r <= d_LastReset x) ->
    exists r', <[d_ID row := x]> db !! id = Some r' /\ d_LastReset r <= d_LastReset r') as Hins.
  { intros x Hx. destruct (decide (id = d_ID row)) as [->|N]; [exists x; rewrite lookup_insert_eq; auto|].
    exists r. rewrite lookup_insert_ne by done. split; [done|lia]. }
  assert (exists r', db !! id = Some r' /\ d_LastReset r <= d_LastReset r') as Hid by (exists r; split; [done|lia]).
  destruct Hf as [-> | ->]; unfold updateOverride, updateUsage; (destruct (db !! d_ID row) as [x|] eqn:E; [|done]).
  - destruct (guarded Before _ _); [|done]. apply Hins. intros ->. cbn. rewrite (Hsame x) by done. lia.
  - destruct (guarded g _ _) eqn:G; [|done]. apply Hins. intros ->. cbn. rewrite (Hsame x) by done.
    destruct g; cbn in G; [apply Z.ltb_lt in G|apply Z.leb_le in G]; lia.
Qed.

Lemma batch_notBehind bd g batch x : notBehind x (setDatabase (writeBudgetBatch bd g batch) x).
Proof.
  assert (forall (f : budgetDumpRow -> gmap string budgetDumpRow -> gmap string budgetDumpRow) l db id r,
    (forall row, f row = updateOverride row \/ f row = updateUsage g row) -> db !! id = Some r ->
    exists r', fold_left (fun db row => f row db) l db !! id = Some r' /\ d_LastReset (F := F) r <= d_LastReset r') as Hfold.
  { intros f l. induction l as [|row l IH]; intros db id r Hf Hr; [exists r; split; [done|lia]|].
    destruct (update_notBehind (f row) row g (Hf row) db id r Hr) as (r' & Hr' & L).
    destruct (IH (f row db) id r' Hf Hr') as (r'' & Hr'' & L'). exists r''. split; [done|lia]. }
  intros id r Hr. unfold setDatabase, writeBudgetBatch. cbn. destruct bd; cbn.
  - destruct (Hfold updateOverride batch (database x) id r) as (r' & Hr' & L); [auto..|].
    destruct (Hfold (updateUsage g) batch _ id r' ltac:(auto) Hr') as (r'' & Hr'' & L'). exists r''. split; [done|lia].
  - revert id r Hr. generalize (database x). induction batch as [|row batch IH]; intros db id r Hr; [exists r; split; [done|lia]|]. cbn.
    destruct (update_notBehind (updateOverride row) row g ltac:(auto) db id r Hr) as (r' & Hr' & L).
    destruct (update_notBehind (updateUsage g row) row g ltac:(auto) _ id r' Hr') as (r'' & Hr'' & L').
    destruct (IH _ id r'' Hr'') as (r3 & Hr3 & L3). exists r3. split; [done|lia].
Qed.

(** The database never falls back: whatever dumps, resets and transactions of
    any number of threads are interleaved or fail, a row stays in the database
    and its boundary only moves forward. *)
Theorem database_never_behind m n x es : loaded m n ->
  forall id r, database x !! id = Some r ->
  exists r', database (side (run (start m n x) es)) !! id = Some r' /\ d_LastReset r <= d_LastReset r'.
Proof.
  intros Hm. change (notBehind (side (start m n x)) (side (run (start m n x) es))).
  apply (side_invariant body notBehind); [| |by apply start_consistent].
  - intros p f p' Hb y. destruct p; cbn in Hb; repeat case_match; simplify_eq; try apply batch_notBehind; apply notBehind_same; try done.
    unfold callHook. repeat case_match; done.
  - intros p id k now r fs b p' Hb Hk. destruct p; cbn in Hb; repeat case_match; simplify_eq/=; unfold BumpBudgetUsage,
      resetExpiredBudgetFromSnapshot, ResetBudgetAt, UpsertBudgetConfig, RebaseBudget, AdoptCalendarAlignmentInMemory in *; repeat case_match;
      simplify_eq/=; repeat constructor. intros y. by apply notBehind_same.
Qed.

End Theory.

(** ** Concrete stores *)

(** Amounts in whole cents, and durations without a fraction. *)
#[local] Instance cents : Amount Z := mkAmount Z 0 Z.add Z.leb Z.ltb (fun _ => true).
Definition noFraction (x scale unit : Z) : Z := 0.

(** A budget with hourly windows from the epoch on, and its override of two cycles. *)
Definition hourly (usage : Z) (created : Time) : Windows.TableBudget :=
  mkBudget "b" 100 "1h" created usage 0 BudgetOverrideModeNone 0 0 None 0 false created.

Definition granted : Windows.TableBudget :=
  mkBudget "b" 100 "1h" 0 0 50 BudgetOverrideModeCycles 2 2 (Some 0) 0 false 0.

Local Abbreviation Tables := (@Tables Z).
Local Abbreviation TableBudget := (@TableBudget Z).
Local Abbreviation event := (@event (@Place Z)).

Definition noTables : Tables := mkTables ∅ ∅ None ∅.

Local Abbreviation run := (run (body noFraction false)).
Local Abbreviation one := (fun b : TableBudget => {["b" := (0%nat, b)]} : gmap string (nat * TableBudget)).
Local Abbreviation startOne := (fun b => start (one b) 1 noTables).

Lemma loaded_one b : RefreshOverrideCyclesRemaining noFraction b = b -> loaded noFraction (one b) 1.
Proof. intros Hb. split; intros id q b' [<- ?]%lookup_singleton_Some; simplify_eq; auto. Qed.

(** A charge of five and an upsert of the same budget, interleaved. *)
Definition charged_run : list event := [Step 0 1; Step 1 1; Step 0 1; Step 1 1; Step 1 1; Step 1 1].

Lemma every_charge_counted_witness :
  loaded noFraction (one (hourly 7 0)) 1 /\
  let s := run (run (startOne (hourly 7 0)) []) (Spawn (Bump "b" 5 0) :: Spawn (Upsert "b" (hourly 0 0)) :: charged_run) in
  CurrentUsage <$> row s "b" = Some 12 /\ usageOf (one (hourly 7 0)) "b" (log s) = Some 12 /\ charges 0 (log s) = [("b", 5)].
Proof.
  assert (loaded noFraction (one (hourly 7 0)) 1) as Hm by (by apply loaded_one). split; [done|].
  destruct (every_charge_counted noFraction false _ _ noTables [] (Spawn (Upsert "b" (hourly 0 0)) :: charged_run) "b" 5 Hm) as [Hu (p & Hp & Hc)].
  cbv zeta. split; [|split].
  - rewrite Hu. vm_compute. reflexivity.
  - rewrite <- Hu. vm_compute. reflexivity.
  - vm_compute. reflexivity.
Defined.

(** Two sweeps an hour later, by two threads, and a late charge. *)
Definition two_sweeps : list event :=
  let now := 3600000000001 in
  [Spawn (ResetExpired ["b"] ToCaller); Spawn (ResetExpired ["b"] ToCaller); Step 0 now; Step 1 now; Step 0 now; Step 1 now;
   Step 0 now; Step 1 now; Step 0 now; Step 1 now; Step 1 now; Step 1 now; Step 0 now; Step 0 now].

Lemma reset_once_per_window_witness :
  let s := run (startOne (hourly 7 0)) two_sweeps in
  loaded noFraction (one (hourly 7 0)) 1 /\ steady "b" (log s) /\ length (log s) = 1%nat /\ StronglySorted (later "b") (log s).
Proof.
  intros s. assert (loaded noFraction (one (hourly 7 0)) 1) as Hm by (by apply loaded_one).
  assert (steady "b" (log s)) as Hs by (vm_compute; repeat constructor). split; [exact Hm|split; [exact Hs|split; [vm_compute; reflexivity|]]].
  by apply (reset_once_per_window noFraction false _ _ noTables two_sweeps "b" Hm).
Defined.

Lemma published_override_current_witness :
  let s := run (startOne granted) [Spawn (ResetExpired ["b"] ToCaller); Step 0 3600000000001; Step 0 0; Step 0 0; Step 0 0; Step 0 0; Step 0 0] in
  exists b, row s "b" = Some b /\ OverrideCyclesRemaining b = 1 /\ OverrideCyclesRemaining b = OverrideCyclesTotal b - WindowsSinceAnchor noFraction b.
Proof.
  intros s. assert (loaded noFraction (one granted) 1) as Hm by (apply loaded_one; vm_compute; reflexivity).
  eexists. assert (row s "b" = Some (mkBudget "b" 100 "1h" 3600000000000 0 50 BudgetOverrideModeCycles 1 2 (Some 0) 0 false 0)) as Hb by (vm_compute; reflexivity).
  split; [exact Hb|]. split; [reflexivity|]. exact (proj1 (published_override_current noFraction false _ _ noTables _ _ _ Hm Hb ltac:(reflexivity))).
Defined.

Lemma reset_lands_on_boundary_witness :
  budgetGrid noFraction (hourly 7 0) = Some (rollingGrid 0 3600000000000) /\
  GovStore.budgetResetTarget noFraction (hourly 7 0) 18000000000001 = Some 18000000000000.
Proof.
  assert (budgetGrid noFraction (hourly 7 0) = Some (rollingGrid 0 3600000000000)) as Hg.
  { assert (ParseDuration noFraction (ResetDuration (hourly 7 0)) = Some 3600000000000) as Hp by (vm_compute; reflexivity).
    unfold budgetGrid. by rewrite Hp. }
  split; [exact Hg|]. destruct (reset_lands_on_boundary noFraction (hourly 7 0) _ 18000000000001 Hg) as [Ht _]; [right; vm_compute; split; [discriminate|reflexivity]|].
  rewrite Ht. vm_compute. reflexivity.
Defined.

Definition storedRow (usage : Z) (lastReset : Time) : @budgetDumpRow Z := mkDumpRow "b" usage lastReset 0 BudgetOverrideModeNone 0 0 None.

Lemma dump_forms_agree_witness :
  NoDup (d_ID <$> [storedRow 3 10]) /\ writeBudgetBatch true NotAfter [storedRow 3 10] {["b" := storedRow 1 10]} = {["b" := storedRow 3 10]}.
Proof.
  assert (NoDup (d_ID <$> [storedRow 3 10])) as Hd by (apply NoDup_singleton). split; [done|].
  rewrite (dump_forms_agree NotAfter [storedRow 3 10] {["b" := storedRow 1 10]} Hd). vm_compute. reflexivity.
Defined.

Definition oneRow (r : budgetDumpRow) : Tables := mkTables ∅ ∅ None {["b" := r]}.

Definition dump_run : list event := [Spawn (Dump ∅ ["b"] []); Step 0 0; Step 0 0; Step 0 0; Step 0 0; Step 0 0].

Lemma database_never_behind_witness :
  loaded noFraction (one (hourly 7 20)) 1 /\
  exists r', database (side (run (start (one (hourly 7 20)) 1 (oneRow (storedRow 1 10))) dump_run)) !! "b" = Some r' /\
    10 <= d_LastReset r' /\ d_CurrentUsage r' = 7.
Proof.
  assert (loaded noFraction (one (hourly 7 20)) 1) as Hm by (by apply loaded_one). split; [done|].
  destruct (database_never_behind noFraction false _ _ (oneRow (storedRow 1 10)) dump_run Hm "b" (storedRow 1 10) ltac:(reflexivity)) as (r' & Hr & L).
  exists r'. split; [done|split; [exact L|]]. revert Hr. vm_compute. intros E. injection E as <-. reflexivity.
Defined.

(** An edit of a budget's owner loses a concurrent charge: the handler copies
    the usage, a charge commits and reports success, and the handler stores the
    copied row over it.  [UpsertBudgetConfig] in the same interleaving keeps it. *)
Theorem edit_loses_charge :
  let events := fun edit => [Spawn (Bump "b" 5 0); Spawn edit; Step 1 1; Step 0 1; Step 0 1; Step 1 1; Step 1 1; Step 1 1] in
  let s := run (startOne (hourly 7 0)) (events (Edit "b" (hourly 0 0))) in
  let s' := run (startOne (hourly 7 0)) (events (Upsert "b" (hourly 0 0))) in
  charges 0 (log s) = [("b", 5)] /\ place <$> threads s = [Returned Charged; Returned Stored] /\ CurrentUsage <$> row s "b" = Some 7 /\
  place <$> threads s' = [Returned Charged; Returned Stored] /\ CurrentUsage <$> row s' "b" = Some 12.
Proof. vm_compute. repeat split. Qed.

(** A reset becomes visible in two steps, the row first and its generation
    after it: a dump that checks the generations in between keeps the row it read
    before the reset and writes the cleared usage to the database. *)
Theorem half_done_reset_is_dumped :
  let s0 := start (one (hourly 7 0)) 1 (oneRow (storedRow 0 0)) in
  let s := run s0 [Spawn (Dump ∅ ["b"] []); Spawn (ResetUsage "b"); Step 0 1; Step 0 1; Step 0 1; Step 1 1; Step 1 1;
                   Step 0 1; Step 0 1; Step 0 1; Step 1 1] in
  place <$> threads s = [Returned Dumped; Returned (Rebased (hourly 0 0))] /\ CurrentUsage <$> row s "b" = Some 0 /\
  d_CurrentUsage <$> database (side s) !! "b" = Some 7.
Proof. vm_compute. repeat split. Qed.

(** A budget that was never reset and has no creation time does not converge:
    the clock difference saturates, so each reset advances the boundary by at
    most 292 years; a charge gives up after three resets and charges a window
    that ended 854 years ago, and the budget is still due. *)
Theorem unanchored_budget_does_not_converge :
  let now := 1700000000000000000 in
  let s := run (startOne (hourly 7 zeroTime)) (Spawn (Bump "b" 5 0) :: repeat (Step 0 now) 25) in
  place <$> threads s = [Returned Charged] /\ length (log s) = 4%nat /\ CurrentUsage <$> row s "b" = Some 5 /\
  (fun b => (now - LastReset b) / (365 * dayNs)) <$> row s "b" = Some 854 /\
  (fun b => bool_decide (is_Some (GovStore.budgetResetTarget noFraction b now))) <$> row s "b" = Some true.
Proof. vm_compute. repeat split. Qed.

End GovStoreTheory.
