(* ===== verification/GovRate.v ===== *)
(** * Rate limits of the governance store (src/plugins/governance/store.go)

    The token and request counters of rate limits: the same loops as for
    budgets ([GovStore]), on a row with two counters that expire
    independently, each with its own baseline table under its own mutex. *)

From S2P Require Import Prelude Calendar Windows Optimistic.

Local Open Scope string_scope.
Local Open Scope Z_scope.
Local Open Scope list_scope.

Module GovRate.
Import Calendar Windows Optimistic.

Section GovRate.
Variable fraction : Z -> Z -> Z -> Z.

(** ** When a counter has expired *)

Definition rateLimitResetTarget (resetDuration : option string) (calendarAligned : bool) (anchor lastReset now : Time) : option Time :=
  match resetDuration with
  | None => None
  | Some resetDuration =>
      if calendarAligned && IsCalendarAlignableDuration resetDuration
      then let period := GetCalendarPeriodStart resetDuration now QuarterStartNotApplicable in
           if lastReset <? period then Some period else None
      else match ParseDuration fraction resetDuration with
           | None => None
           | Some duration =>
               if duration <=? 0 then None
               else let target := RollingWindowStart (if IsZero anchor then lastReset else anchor) duration now in
                    if lastReset <? target then Some target else None
           end
  end.

Definition rateLimitResetTargets (r : TableRateLimit) (now : Time) : option Time * option Time :=
  let target := fun c => rateLimitResetTarget (c_ResetDuration c) (r_IsCalendarAligned r) (r_CreatedAt r) (c_LastReset c) now in
  (target (Token r), target (Request r)).

(** ** Changed copies of a row *)

Definition zeroAt (target : option Time) (c : Counter) : Counter :=
  match target with Some t => setCounter c 0 t | None => c end.

Definition addUsage (n : Z) (c : Counter) : Counter := setCounter c (wrap64 (c_CurrentUsage c + n)) (c_LastReset c).

(** What a request adds to a counter. *)
Definition count (r : TableRateLimit) (tokensUsed : Z) (shouldUpdateTokens shouldUpdateRequests : bool) : TableRateLimit :=
  setCounters r (if shouldUpdateTokens then addUsage tokensUsed (Token r) else Token r)
    (if shouldUpdateRequests then addUsage 1 (Request r) else Request r).

(** A counter whose target is later than its boundary is reset. *)
Definition resetCounter (target : option Time) (c : Counter) : bool * Counter :=
  match target with
  | Some t => if c_LastReset c <? t then (true, setCounter c 0 t) else (false, c)
  | None => (false, c)
  end.

Definition keepCounter (old config : Counter) : Counter := setCounter config (c_CurrentUsage old) (c_LastReset old).

Definition mergeRate (old config : TableRateLimit) : TableRateLimit :=
  setCounters config (keepCounter (Token old) (Token config)) (keepCounter (Request old) (Request config)).

Definition rebaseCounter (usage : Z) (lastReset : option Time) (c : Counter) : Counter :=
  setCounter c usage (match lastReset with Some t => if c_LastReset c <? t then t else c_LastReset c | None => c_LastReset c end).

Definition rateAligned (r : TableRateLimit) : TableRateLimit := mkRateLimit (r_ID r) (Token r) (Request r) true (r_CreatedAt r).

(** ** The memory on the side *)

Record Tables := mkTables {
  LastDBUsagesTokensRateLimits : gmap string Z;
  LastDBUsagesRequestsRateLimits : gmap string Z;
  onRateLimitsReset : option (list (list TableRateLimit)) }.

Definition setTokens (id : string) (n : Z) (x : Tables) : Tables :=
  mkTables (<[id := n]> (LastDBUsagesTokensRateLimits x)) (LastDBUsagesRequestsRateLimits x) (onRateLimitsReset x).

Definition setRequests (id : string) (n : Z) (x : Tables) : Tables :=
  mkTables (LastDBUsagesTokensRateLimits x) (<[id := n]> (LastDBUsagesRequestsRateLimits x)) (onRateLimitsReset x).

Definition dropTokens (id : string) (x : Tables) : Tables :=
  mkTables (delete id (LastDBUsagesTokensRateLimits x)) (LastDBUsagesRequestsRateLimits x) (onRateLimitsReset x).

Definition dropRequests (id : string) (x : Tables) : Tables :=
  mkTables (LastDBUsagesTokensRateLimits x) (delete id (LastDBUsagesRequestsRateLimits x)) (onRateLimitsReset x).

Definition callHook (reset : list TableRateLimit) (x : Tables) : Tables :=
  match reset, onRateLimitsReset x with
  | _ :: _, Some calls => mkTables (LastDBUsagesTokensRateLimits x) (LastDBUsagesRequestsRateLimits x) (Some (reset :: calls))
  | _, _ => x
  end.

(** ** Places of the operations *)

(** The increments of a [BumpRateLimitUsage]. *)
Record Increment := mkIncrement { tokensUsed : Z; shouldUpdateTokens : bool; shouldUpdateRequests : bool }.

Inductive Caller := ToCaller | ToBump (id : string) (n : Increment) (resetAttempts : nat).

Inductive Result := Counted | Folded | Absent | Stored | Deleted | Unmoved | Loaded (r : option TableRateLimit) | Reset (l : list TableRateLimit) | Rebased (r : TableRateLimit).

Inductive Place :=
| Bump (id : string) (n : Increment) (resetAttempts : nat)
| BumpBy (id : string) (tokenDelta requestDelta : Z)
| ResetExpired (ids : list string) (k : Caller)
| ResetNext (now : Time) (ids : list string) (done : list TableRateLimit) (k : Caller)
| ResetAt (id : string) (token request : option Time) (now : Time) (ids : list string) (done : list TableRateLimit) (k : Caller)
| MarkTokens (r : TableRateLimit) (token request : option Time) (now : Time) (ids : list string) (done : list TableRateLimit) (k : Caller)
| MarkRequests (r : TableRateLimit) (request : option Time) (now : Time) (ids : list string) (done : list TableRateLimit) (k : Caller)
| Upsert (id : string) (config : TableRateLimit)
| Edit (id : string) (config : TableRateLimit)
| StoreRateLimit (id : string) (r : TableRateLimit)
| Rebase (id : string) (tokens requests : Z) (tokenLastReset requestLastReset : option Time)
| Adopt (id : string) (now : Time)
| DeleteRateLimit (id : string)
| DeleteTokens (id : string)
| DeleteRequests (id : string)
| LoadRateLimit (id : string)
| BaselineTokens (id : string) (tokens requests : Z)
| BaselineRequests (id : string) (requests : Z)
| Returned (r : Result).

Local Abbreviation decision := (@decision TableRateLimit Place Tables).
Local Abbreviation node := (@node TableRateLimit Place Tables).

Definition maxRequestTimeResetAttempts : nat := 3.

Definition isDue (t : option Time) : bool := match t with Some _ => true | None => false end.

Definition BumpRateLimitUsage (id : string) (n : Increment) (resetAttempts : nat) (now : Time) (raw : option TableRateLimit) : decision :=
  match raw with
  | None => Goto (Returned Absent)
  | Some old =>
      let '(token, request) := rateLimitResetTargets old now in
      if (isDue token || isDue request) && (resetAttempts <? maxRequestTimeResetAttempts)%nat
      then Goto (ResetExpired [id] (ToBump id n (S resetAttempts)))
      else
        let clone := setCounters old (zeroAt token (Token old)) (zeroAt request (Request old)) in
        Swap ((if isDue token then [setTokens id 0] else []) ++ (if isDue request then [setRequests id 0] else []))
          (count clone (tokensUsed n) (shouldUpdateTokens n) (shouldUpdateRequests n)) (Returned Counted)
  end.

Definition BumpRateLimitUsageBy (tokenDelta requestDelta : Z) (raw : option TableRateLimit) : decision :=
  match raw with
  | None => Goto (Returned Absent)
  | Some old => Swap [] (setCounters old (addUsage tokenDelta (Token old)) (addUsage requestDelta (Request old))) (Returned Folded)
  end.

Definition leaveReset (reset : list TableRateLimit) (k : Caller) : Place :=
  match k with ToCaller => Returned (Reset reset) | ToBump id n a => Bump id n a end.

Definition resetExpiredRateLimitFromSnapshot (now : Time) (ids : list string) (reset : list TableRateLimit) (k : Caller)
    (raw : option TableRateLimit) : decision :=
  match raw with
  | None => Goto (ResetNext now ids reset k)
  | Some r =>
      let '(token, request) := rateLimitResetTargets r now in
      if isDue token || isDue request then Goto (ResetAt (r_ID r) token request now ids reset k) else Goto (ResetNext now ids reset k)
  end.

(** After a successful reset: the baselines of the counters that were due. *)
Definition afterReset (r : TableRateLimit) (token request : option Time) (now : Time) (ids : list string) (reset : list TableRateLimit)
    (k : Caller) : Place :=
  if isDue token then MarkTokens r token request now ids reset k
  else if isDue request then MarkRequests r request now ids reset k
  else ResetNext now ids (reset ++ [r]) k.

Definition ResetRateLimitAt (token request : option Time) (now : Time) (ids : list string) (reset : list TableRateLimit) (k : Caller)
    (raw : option TableRateLimit) : decision :=
  if negb (isDue token) && negb (isDue request) then Goto (ResetNext now ids reset k)
  else match raw with
       | None => Goto (ResetNext now ids reset k)
       | Some old =>
           let '(t, tokens) := resetCounter token (Token old) in
           let '(q, requests) := resetCounter request (Request old) in
           if negb (t || q) then Goto (ResetNext now ids reset k)
           else let clone := setCounters old tokens requests in Swap [] clone (afterReset clone token request now ids reset k)
       end.

Definition UpsertRateLimitConfig (config : TableRateLimit) (raw : option TableRateLimit) : decision :=
  match raw with
  | None => Swap [] config (Returned Stored)
  | Some old => Swap [] (mergeRate old config) (Returned Stored)
  end.

(** A rate limit in the handlers that update its owner: the counters are copied,
    and the row is stored, whatever the map holds by then. *)
Definition editRateLimit (id : string) (config : TableRateLimit) (raw : option TableRateLimit) : decision :=
  Goto (StoreRateLimit id (match raw with Some old => mergeRate old config | None => config end)).

Definition RebaseRateLimit (tokens requests : Z) (tokenLastReset requestLastReset : option Time) (raw : option TableRateLimit) : decision :=
  match raw with
  | None => Goto (Returned Absent)
  | Some old =>
      let clone := setCounters old (rebaseCounter tokens tokenLastReset (Token old)) (rebaseCounter requests requestLastReset (Request old)) in
      Swap [] clone (Returned (Rebased clone))
  end.

Definition AdoptRateLimitCalendarAlignmentInMemory (now : Time) (raw : option TableRateLimit) : decision :=
  match raw with
  | None => Goto (Returned Unmoved)
  | Some old => match rateLimitAdopt (rateAligned old) now with Some clone => Swap [] clone (Returned Stored) | None => Goto (Returned Unmoved) end
  end.

Definition body (p : Place) : node :=
  match p with
  | Bump id n a => Load id (fun now raw => BumpRateLimitUsage id n a now raw)
  | BumpBy id tokens requests =>
      if (tokens =? 0) && (requests =? 0) then Now (fun _ => Returned Unmoved)
      else Load id (fun _ raw => BumpRateLimitUsageBy tokens requests raw)
  | ResetExpired ids k => Now (fun now => ResetNext now ids [] k)
  | ResetNext now [] reset k => Locked (callHook reset) (leaveReset reset k)
  | ResetNext now (id :: ids) reset k => Load id (fun _ raw => resetExpiredRateLimitFromSnapshot now ids reset k raw)
  | ResetAt id token request now ids reset k => Load id (fun _ raw => ResetRateLimitAt token request now ids reset k raw)
  | MarkTokens r token request now ids reset k => Locked (setTokens (r_ID r) 0) (afterReset r None request now ids reset k)
  | MarkRequests r request now ids reset k => Locked (setRequests (r_ID r) 0) (ResetNext now ids (reset ++ [r]) k)
  | Upsert id config => Load id (fun _ raw => UpsertRateLimitConfig config raw)
  | Edit id config => Load id (fun _ raw => editRateLimit id config raw)
  | StoreRateLimit id r => Put id r (Returned Stored)
  | Rebase id tokens requests tl rl => Load id (fun _ raw => RebaseRateLimit tokens requests tl rl raw)
  | Adopt id now => Load id (fun _ raw => AdoptRateLimitCalendarAlignmentInMemory now raw)
  | DeleteRateLimit id => Delete id (DeleteTokens id)
  | DeleteTokens id => Locked (dropTokens id) (DeleteRequests id)
  | DeleteRequests id => Locked (dropRequests id) (Returned Deleted)
  | LoadRateLimit id => Load id (fun _ raw => Goto (Returned (Loaded raw)))
  | BaselineTokens id tokens requests => Locked (setTokens id tokens) (BaselineRequests id requests)
  | BaselineRequests id requests => Locked (setRequests id requests) (Returned Stored)
  | Returned _ => Stop
  end.

End GovRate.
End GovRate.
