(* ===== verification/GovRateTheory.v ===== *)
(** * Rate limits under concurrency: what the store guarantees

    The ledger of both counters of a rate limit, and the bound on the work of a
    request that counts itself, from [Ledger] and [Optimistic]. *)

From S2P Require Import Prelude Calendar Windows Optimistic Ledger GovRate.

Local Open Scope string_scope.
Local Open Scope Z_scope.
Local Open Scope list_scope.

Module GovRateTheory.
Import Calendar Windows Optimistic Ledger GovRate.

Section Theory.
Variable fraction : Z -> Z -> Z -> Z.
Local Abbreviation body := (body fraction).
Local Abbreviation run := (run body).
Local Abbreviation moves := (moves body).
Local Abbreviation System := (@System TableRateLimit Place Tables).
Local Abbreviation Commit := (@Commit TableRateLimit Place).

(** ** Moves *)

Lemma target_later d aligned anchor lastReset now t : rateLimitResetTarget fraction d aligned anchor lastReset now = Some t -> lastReset < t.
Proof.
  unfold rateLimitResetTarget. destruct d as [d|]; [|done]. destruct (aligned && _); cbv zeta.
  - destruct (Z.ltb_spec lastReset (GetCalendarPeriodStart d now QuarterStartNotApplicable)); intros; simplify_eq; lia.
  - destruct (ParseDuration fraction d) as [n|]; [|done]. destruct (n <=? 0); [done|].
    destruct (Z.ltb_spec lastReset (RollingWindowStart (if IsZero anchor then lastReset else anchor) n now)); intros; simplify_eq; lia.
Qed.

Lemma targets_later r now token request : rateLimitResetTargets fraction r now = (token, request) ->
  (forall t, token = Some t -> c_LastReset (Token r) < t) /\ (forall t, request = Some t -> c_LastReset (Request r) < t).
Proof. intros [= <- <-]. split; intros t; apply target_later. Qed.

(** The increment an unfinished operation is going to make. *)
Definition pending (p : Place) : option (string * Increment) :=
  match p with
  | Bump id n _ | ResetExpired _ (ToBump id n _) | ResetNext _ _ _ (ToBump id n _) | ResetAt _ _ _ _ _ _ (ToBump id n _)
  | MarkTokens _ _ _ _ _ _ (ToBump id n _) | MarkRequests _ _ _ _ _ (ToBump id n _) => Some (id, n)
  | _ => None
  end.

(** The publications. *)
Inductive writes : Place -> string -> option TableRateLimit -> option TableRateLimit -> Place -> Prop :=
| w_count id n a old token request : (forall t, token = Some t -> c_LastReset (Token old) < t) ->
    (forall t, request = Some t -> c_LastReset (Request old) < t) ->
    writes (Bump id n a) id (Some old) (Some (count (setCounters old (zeroAt token (Token old)) (zeroAt request (Request old)))
      (tokensUsed n) (shouldUpdateTokens n) (shouldUpdateRequests n))) (Returned Counted)
| w_by id tokens requests old :
    writes (BumpBy id tokens requests) id (Some old) (Some (setCounters old (addUsage tokens (Token old)) (addUsage requests (Request old)))) (Returned Folded)
| w_reset id token request now ids reset k old p : pending p = pending (ResetNext now ids reset k) ->
    writes (ResetAt id token request now ids reset k) id (Some old)
      (Some (setCounters old (resetCounter token (Token old)).2 (resetCounter request (Request old)).2)) p
| w_upsert_new id config : writes (Upsert id config) id None (Some config) (Returned Stored)
| w_upsert id config old : writes (Upsert id config) id (Some old) (Some (mergeRate old config)) (Returned Stored)
| w_store id r old : writes (StoreRateLimit id r) id old (Some r) (Returned Stored)
| w_rebase id tokens requests tl rl old :
    let r := setCounters old (rebaseCounter tokens tl (Token old)) (rebaseCounter requests rl (Request old)) in
    writes (Rebase id tokens requests tl rl) id (Some old) (Some r) (Returned (Rebased r))
| w_adopt id now old c : rateLimitAdopt (rateAligned old) now = Some c -> writes (Adopt id now) id (Some old) (Some c) (Returned Stored)
| w_delete id old : writes (DeleteRateLimit id) id old None (DeleteTokens id).

Definition quiet (p p' : Place) : Prop := p' <> Returned Counted /\ (pending p' = pending p \/ p' = Returned Absent).

Lemma afterReset_pending r token request now ids reset k : pending (afterReset r token request now ids reset k) = pending (ResetNext now ids reset k).
Proof. unfold afterReset. destruct (isDue token), (isDue request); done. Qed.

Lemma rate_body_load p id k now raw d : body p = Load id k -> k now raw = d ->
  match d with Goto p' => quiet p p' | Swap _ new p' => writes p id raw (Some new) p' end.
Proof.
  intros Hb <-. destruct p; cbn in Hb; repeat case_match; simplify_eq/=.
  all: unfold BumpRateLimitUsage, BumpRateLimitUsageBy, resetExpiredRateLimitFromSnapshot, ResetRateLimitAt, UpsertRateLimitConfig,
    editRateLimit, RebaseRateLimit, AdoptRateLimitCalendarAlignmentInMemory in *; repeat case_match; simplify_eq/=.
  all: try (split; [done|]; solve [by left|by right]).
  all: try by constructor.
  all: repeat match goal with
    | E : rateLimitResetTargets _ _ _ = _ |- _ => apply targets_later in E as [? ?]
    | E : resetCounter ?t ?c = (?b, ?x) |- _ => replace x with (resetCounter t c).2 by (by rewrite E); clear E
    end; constructor; auto using afterReset_pending.
Qed.

Lemma rate_moves_quiet p p' : moves p None p' -> quiet p p'.
Proof.
  intros Hm. inversion Hm as [id k now r ? Hb Hk| | | |k now Hb|f ? Hb|k x Hb]; subst; [exact (rate_body_load _ _ _ _ _ _ Hb Hk)|..].
  all: destruct p as [| | |now' [] done' []| | | | | | | | | | | | | | |]; cbn in Hb; repeat case_match; simplify_eq/=; unfold quiet; rewrite ?afterReset_pending;
    first [split; [unfold afterReset; by destruct (isDue _)|by left]|split; [done|]; solve [by left|by right]].
Qed.

Lemma rate_moves_writes p id old new p' : moves p (Some (id, old, new)) p' -> writes p id old new p'.
Proof.
  intros Hm. inversion Hm as [|? k now ? fs ? ? Hb Hk|? ? ? Hb|? ? ? ? Hb| | |]; subst; [exact (rate_body_load _ _ _ _ _ _ Hb Hk)|..];
    destruct p; cbn in Hb; repeat case_match; simplify_eq; constructor.
Qed.

(** ** The ledger *)

(** The tokens and requests a rate limit has counted. *)
Definition counted (r : TableRateLimit) : Z * Z := (c_CurrentUsage (Token r), c_CurrentUsage (Request r)).

(** One counter after a commit that may have reset it: what it held if its
    boundary is the old one, and zero otherwise. *)
Definition carried (dim : TableRateLimit -> Counter) (old new : option TableRateLimit) (n : Z) : Z :=
  if bool_decide (c_LastReset ∘ dim <$> old = c_LastReset ∘ dim <$> new) then n else 0.

Definition bookCounts (p : Place) (old new : option TableRateLimit) (usage : option (Z * Z)) : option (Z * Z) :=
  match p with
  | Bump _ n _ =>
      (fun u => let t := carried Token old new u.1 in let q := carried Request old new u.2 in
         (if shouldUpdateTokens n then wrap64 (t + tokensUsed n) else t, if shouldUpdateRequests n then wrap64 (q + 1) else q)) <$> usage
  | BumpBy _ tokens requests => (fun u => (wrap64 (u.1 + tokens), wrap64 (u.2 + requests))) <$> usage
  | ResetAt _ _ _ _ _ _ _ => (fun u => (carried Token old new u.1, carried Request old new u.2)) <$> usage
  | Rebase _ tokens requests _ _ => Some (tokens, requests)
  | Upsert _ config => Some (default (counted config) usage)
  | StoreRateLimit _ r => Some (counted r)
  | Adopt _ _ => usage
  | _ => None
  end.

Lemma carried_some dim old new n : carried dim (Some old) (Some new) n = if decide (c_LastReset (dim old) = c_LastReset (dim new)) then n else 0.
Proof. unfold carried. cbn. repeat case_bool_decide; case_decide; congruence. Qed.

Lemma zeroAt_usage target c : (forall t, target = Some t -> c_LastReset c < t) ->
  c_CurrentUsage (zeroAt target c) = if decide (c_LastReset c = c_LastReset (zeroAt target c)) then c_CurrentUsage c else 0.
Proof.
  intros Hl. destruct target as [t|]; cbn; [|by rewrite decide_True]. specialize (Hl t eq_refl). by rewrite decide_False by lia.
Qed.

Lemma resetCounter_usage target c :
  c_CurrentUsage (resetCounter target c).2 = if decide (c_LastReset c = c_LastReset (resetCounter target c).2) then c_CurrentUsage c else 0.
Proof.
  destruct target as [t|]; cbn; [|by rewrite decide_True]. destruct (Z.ltb_spec (c_LastReset c) t); cbn; [|by rewrite decide_True].
  by rewrite decide_False by lia.
Qed.

Lemma adopt_counted r now c : rateLimitAdopt r now = Some c -> counted c = counted r.
Proof.
  unfold rateLimitAdopt, adoptCounter. intros Hc. repeat case_match; simplify_eq/=; done.
Qed.

Lemma count_counted r tokens ut ur : counted (count r tokens ut ur) =
  (if ut then wrap64 (c_CurrentUsage (Token r) + tokens) else c_CurrentUsage (Token r),
   if ur then wrap64 (c_CurrentUsage (Request r) + 1) else c_CurrentUsage (Request r)).
Proof. by destruct ut, ur. Qed.

Lemma count_boundaries r tokens ut ur : c_LastReset (Token (count r tokens ut ur)) = c_LastReset (Token r) /\
  c_LastReset (Request (count r tokens ut ur)) = c_LastReset (Request r).
Proof. by destruct ut, ur. Qed.

Lemma book_counts p id old new p' : moves p (Some (id, old, new)) p' -> counted <$> new = bookCounts p old new (counted <$> old).
Proof.
  intros Hw%rate_moves_writes. inversion Hw as [? n ? o token request Ht Hq| | | | | | |? ? ? ? Hc|]; subst; cbn -[count]; try done.
  - rewrite count_counted, !carried_some. destruct (count_boundaries (setCounters o (zeroAt token (Token o)) (zeroAt request (Request o)))
      (tokensUsed n) (shouldUpdateTokens n) (shouldUpdateRequests n)) as [-> ->]. cbn. by rewrite <- (zeroAt_usage token), <- (zeroAt_usage request).
  - rewrite !carried_some. cbn. by rewrite <- !resetCounter_usage.
  - by rewrite (adopt_counted _ _ _ Hc).
Qed.

Definition countsOf : gmap string (nat * TableRateLimit) -> string -> list Commit -> option (Z * Z) := ledger counted bookCounts.

Definition incrementOf (p : Place) : option (string * Increment) := match p with Bump id n _ => Some (id, n) | _ => None end.

Definition increments : nat -> list Commit -> list (string * Increment) := entries incrementOf.

Lemma counting : Entering body pending incrementOf (Returned Counted) (Returned Absent).
Proof.
  constructor; [done|done|apply rate_moves_quiet|]. intros p i old new p' Hw%rate_moves_writes. inversion Hw; subst; solve [by right|by left].
Qed.

(** C12. No request is lost or counted twice: in every interleaving the counters of
    each rate limit are the ledger of the increments committed since each of
    them was last reset or set, in 64-bit arithmetic, and a request has committed
    exactly its own increment once it reports success. *)
Theorem every_request_counted m n x es es' id inc : allocated m n ->
  let s0 := run (initial x m n) es in
  let t := length (threads s0) in
  let s := run s0 (Spawn (Bump id inc 0) :: es') in
  (forall i, counted <$> row s i = countsOf m i (log s)) /\
  exists p, place <$> threads s !! t = Some p /\
    increments t (log s) = match p with Returned Counted => [(id, inc)] | _ => [] end.
Proof.
  intros Hm s0 t s. split.
  - intros i. subst s s0. unfold Optimistic.run. rewrite <- fold_left_app. by apply (ledger_value body counted bookCounts book_counts).
  - destruct (spawned_accounted body pending incrementOf _ _ m n x es es' (Bump id inc 0) (id, inc) counting Hm eq_refl) as (p & Hp & Hcase).
    exists p. cbn in Hp. rewrite list_lookup_fmap in Hp. split; [exact Hp|].
    destruct Hcase as [[Hpend Hl]|[[-> Hl]|[-> Hl]]]; [|exact Hl..]. etrans; [exact Hl|].
    destruct p as [| | | | | | | | | | | | | | | | | |[]]; done.
Qed.

(** ** The loops end *)

Definition rankBump (a : nat) : nat := (maxRequestTimeResetAttempts - a) * 8 + 5.

Definition rankCaller (k : Caller) : nat := match k with ToCaller => 0 | ToBump _ _ a => rankBump a end.

Definition rankNext (ids : list string) (k : Caller) : nat := 5 * length ids + 1 + rankCaller k.

Definition rank (p : Place) : nat :=
  match p with
  | Bump _ _ a => rankBump a
  | ResetExpired ids k => S (rankNext ids k)
  | ResetNext _ ids _ k => rankNext ids k
  | ResetAt _ _ _ _ ids _ k => rankNext ids k + 4
  | MarkTokens _ _ _ _ ids _ k => rankNext ids k + 2
  | MarkRequests _ _ _ ids _ k => rankNext ids k + 1
  | BumpBy _ _ _ | Upsert _ _ | Edit _ _ | Rebase _ _ _ _ _ | Adopt _ _ | DeleteTokens _ | BaselineTokens _ _ _ => 2
  | DeleteRateLimit _ => 3
  | StoreRateLimit _ _ | DeleteRequests _ | LoadRateLimit _ | BaselineRequests _ _ => 1
  | Returned _ => 0
  end%nat.

Lemma rank_afterReset r token request now ids reset k : (rank (afterReset r token request now ids reset k) <= rankNext ids k + 2)%nat.
Proof. unfold afterReset. destruct (isDue token), (isDue request); cbn; unfold rankNext; lia. Qed.

Lemma rate_rank_Bump id n a now raw : match BumpRateLimitUsage fraction id n a now raw with
  | Goto p => rank p < rankBump a | Swap fs _ p => length fs + 1 + rank p < rankBump a end%nat.
Proof.
  unfold BumpRateLimitUsage. destruct raw as [old|]; [|cbn; unfold rankBump; lia].
  destruct (rateLimitResetTargets fraction old now) as [token request].
  destruct (isDue token || isDue request), (Nat.ltb_spec a maxRequestTimeResetAttempts); cbn [andb];
    try (cbn; unfold rankNext; cbn; unfold rankBump, maxRequestTimeResetAttempts in *; lia).
  all: cbn; rewrite length_app; destruct (isDue token), (isDue request); cbn; unfold rankBump; lia.
Qed.

Lemma rate_rank_decreases p : decreasing body rank p.
Proof.
  destruct p as [id n a|id tk rq|ids k|now [|i ids] reset k|id tk rq now ids reset k|r tk rq now ids reset k| | | | | | | | | | | | |]; unfold decreasing, GovRate.body.
  - intros now raw. apply rate_rank_Bump.
  - destruct (_ && _); [intros _; cbn; lia|]. intros _ raw. destruct raw; cbn; lia.
  - intros now. cbn. lia.
  - unfold rankNext. destruct k; cbn; unfold rankNext; cbn; lia.
  - intros _ raw. unfold resetExpiredRateLimitFromSnapshot. destruct raw as [r|]; [destruct (rateLimitResetTargets fraction r now) as [token request]; destruct (_ || _)|]; cbn; unfold rankNext; cbn; lia.
  - intros _ raw. unfold ResetRateLimitAt. destruct (_ && _); [cbn; unfold rankNext; cbn; lia|]. destruct raw as [old|]; [|cbn; unfold rankNext; lia].
    destruct (resetCounter tk (Token old)), (resetCounter rq (Request old)). destruct (negb _); [cbn; unfold rankNext; lia|].
    pose proof (rank_afterReset (setCounters old c c0) tk rq now ids reset k). cbn [length rank]. lia.
  - unfold afterReset. cbn [isDue]. destruct (isDue rq); cbn; unfold rankNext; lia.
  - cbn. lia.
  - intros _ raw. destruct raw; cbn; lia.
  - intros _ raw. cbn. lia.
  - cbn. lia.
  - intros _ raw. destruct raw; cbn; lia.
  - intros _ raw. unfold AdoptRateLimitCalendarAlignmentInMemory. destruct raw as [old|]; [destruct (rateLimitAdopt (rateAligned old) now)|]; cbn; lia.
  - cbn. lia.
  - cbn. lia.
  - cbn. lia.
  - intros _ raw. cbn. lia.
  - cbn. lia.
  - cbn. lia.
  - done.
Qed.

(** A request that counts itself cannot spin: it finishes within 29 accesses to
    shared memory, plus 29 for every publication of another operation that gets
    in between, whatever the clock shows. *)
Theorem request_terminates (s : System) id inc es :
  let t := length (threads s) in
  let s' := step body s (Spawn (Bump id inc 0)) in
  (own_steps body s' es t + 29 * by_others t (log s) <= 29 + 29 * by_others t (log (run s' es)))%nat.
Proof.
  intros t s'. pose proof (work_bounded body rank rate_rank_decreases es s' t (At (Bump id inc 0)) 29) as Hw.
  apply Hw; [subst s' t; cbn; by apply list_lookup_middle|cbn; unfold rankBump; cbn; lia].
Qed.

End Theory.

(** ** A concrete rate limit *)

Definition noFraction (x scale unit : Z) : Z := 0.

(** A thousand tokens and ten requests a minute, from the epoch on. *)
Definition perMinute (tokens requests : Z) : TableRateLimit :=
  mkRateLimit "r" (mkCounter (Some 1000) (Some "1m") tokens 0) (mkCounter (Some 10) (Some "1m") requests 0) false 0.

Lemma every_request_counted_witness :
  let m := {["r" := (0%nat, perMinute 100 3)]} : gmap string (nat * TableRateLimit) in
  let inc := mkIncrement 20 true true in
  let s := run (body noFraction) (initial (mkTables ∅ ∅ None) m 1) (Spawn (Bump "r" inc 0) :: repeat (Step 0 60000000001) 11) in
  allocated m 1 /\ counted <$> row s "r" = Some (20, 1) /\ increments 0 (log s) = [("r", inc)].
Proof.
  cbv zeta. assert (allocated {["r" := (0%nat, perMinute 100 3)]} 1) as Hm by (intros id q r [<- ?]%lookup_singleton_Some; simplify_eq; lia).
  split; [exact Hm|].
  destruct (every_request_counted noFraction _ _ (mkTables ∅ ∅ None) [] (repeat (Step 0 60000000001) 11) "r" (mkIncrement 20 true true) Hm) as [Hu _].
  split; [|vm_compute; reflexivity]. etrans; [exact (Hu "r")|]. vm_compute. reflexivity.
Defined.

End GovRateTheory.
