(* ===== verification/GovPolicy.v ===== *)
(** * Governance checks over the in-memory store
    (src/plugins/governance/store.go, teammodelpolicy.go)

    Virtual keys, teams, customers, providers and model configurations, which
    budgets and rate limits apply to a request, and whether they admit it.  A
    Go map with a string key is a [gmap]; the order a [range] over it happens
    to take is the argument [iter].  The model catalogue is outside of this
    model: its name normalization is the argument [GetBaseModelName]. *)

From S2P Require Import Prelude GoStrings Schemas Calendar Windows GovStore.

Local Open Scope string_scope.
Local Open Scope Z_scope.
Local Open Scope list_scope.

Module GovPolicy.
Import Schemas Calendar Windows GovStore.

(** ** Owners of budgets and rate limits *)

(** Budgets and rate limits are named by their IDs: the rows are those of the store.
    The weight of a provider is a float, like the amounts of budgets;
    [pc_RateLimit] is the ID of the embedded row. *)
Record ProviderConfig {F : Type} := mkProviderConfig {
  pc_Provider : string;
  pc_Weight : option F;
  pc_AllowedModels : WhiteList.t;
  pc_BlacklistedModels : BlackList.t;
  pc_AllowAllKeys : bool;
  pc_Keys : list string;
  pc_Budgets : list string;
  pc_RateLimitID : option string;
  pc_RateLimit : option string }.
Arguments ProviderConfig : clear implicits.
Arguments mkProviderConfig {F}.

Record Customer := mkCustomer { cu_ID : string; cu_Name : string; cu_Budgets : list string; cu_RateLimitID : option string }.

Record Team := mkTeam {
  tm_ID : string;
  tm_Name : string;
  tm_Budgets : list string;
  tm_RateLimitID : option string;
  tm_CustomerID : option string;
  tm_Customer : option Customer }.

Record MCPConfig := mkMCPConfig { mcp_ClientID : string; mcp_ClientName : string; mcp_ToolsToExecute : WhiteList.t }.

(** [vk_RateLimit] tells whether the row is embedded. *)
Record VirtualKey {F : Type} := mkVirtualKey {
  vk_ID : string;
  vk_Name : string;
  vk_IsActive : option bool;
  vk_ExpiresAt : option Time;
  vk_ProviderConfigs : list (ProviderConfig F);
  vk_Budgets : list string;
  vk_RateLimitID : option string;
  vk_RateLimit : bool;
  vk_TeamID : option string;
  vk_Team : option Team;
  vk_CustomerID : option string;
  vk_Customer : option Customer;
  vk_MCPConfigs : list MCPConfig }.
Arguments VirtualKey : clear implicits.
Arguments mkVirtualKey {F}.

Record ModelConfig := mkModelConfig {
  mc_ID : string;
  mc_ModelName : string;
  mc_Provider : option string;
  mc_Scope : string;
  mc_ScopeID : option string;
  mc_Budgets : list string;
  mc_RateLimitID : option string }.

Record TableProvider := mkTableProvider { p_BudgetID : option string; p_RateLimitID : option string }.

Record TeamModelPolicy := mkTeamModelPolicy { AllowedModels : list string; BlacklistedModels : list string }.

Definition IsActiveValue {F} (vk : VirtualKey F) : bool := default true (vk_IsActive vk).

Definition IsExpiredAt {F} (vk : VirtualKey F) (now : Time) : bool :=
  match vk_ExpiresAt vk with Some t => negb (now <? t) | None => false end.

(** ** Team policies (teammodelpolicy.go) *)

Definition IsUnrestricted (p : TeamModelPolicy) : bool :=
  bool_decide (AllowedModels p = []) && bool_decide (BlacklistedModels p = []).

Definition TeamPolicyAllowsModel (policy : option TeamModelPolicy) (model : string) : bool :=
  match policy with
  | None => true
  | Some p =>
      if IsUnrestricted p then true
      else if BlackList.IsBlocked (BlacklistedModels p) model then false
      else WhiteList.IsAllowed (AllowedModels p) model
  end.

Definition TeamPolicyDeniesAllModels (policy : option TeamModelPolicy) : bool :=
  match policy with
  | None => false
  | Some p => if IsUnrestricted p then false else bool_decide (AllowedModels p = [])
  end.

Definition FilterModelsByTeamPolicy (models : list string) (policy : option TeamModelPolicy) : list string :=
  if match policy with None => true | Some p => IsUnrestricted p end then models
  else filter (fun model => TeamPolicyAllowsModel policy model = true) models.

(** ** Decisions (resolver.go) *)

Inductive Decision :=
| DecisionAllow | DecisionVirtualKeyNotFound | DecisionVirtualKeyBlocked | DecisionRateLimited | DecisionBudgetExceeded
| DecisionTokenLimited | DecisionRequestLimited | DecisionModelBlocked | DecisionProviderBlocked | DecisionMCPToolBlocked.

#[global] Instance Decision_eq_dec : EqDecision Decision.
Proof. solve_decision. Defined.

Definition isRateLimitViolation (d : Decision) : bool :=
  match d with DecisionRateLimited | DecisionTokenLimited | DecisionRequestLimited => true | _ => false end.

Definition isBudgetViolation (d : Decision) : bool := match d with DecisionBudgetExceeded => true | _ => false end.

(** The scopes of model configurations (tables/modelconfig.go). *)
Definition ModelConfigScopeGlobal : string := "global".
Definition ModelConfigScopeVirtualKey : string := "virtual_key".
Definition ModelConfigScopeUser : string := "user".
Definition modelConfigWildcard : string := "*".

Section Policy.
Variable fraction : Z -> Z -> Z -> Z.
Context {F : Type} `{Amount F}.
Local Abbreviation TableBudget := (@TableBudget F).
Local Abbreviation VirtualKey := (VirtualKey F).
Variable GetBaseModelName : option (string -> string).
Variable iter : forall A : Type, gmap string A -> list (string * A).

(** The maps of the store. *)
Record Store := mkStore {
  budgets : gmap string TableBudget;
  rateLimits : gmap string TableRateLimit;
  virtualKeys : gmap string VirtualKey;
  teams : gmap string Team;
  customers : gmap string Customer;
  modelConfigs : gmap string ModelConfig;
  providers : gmap string TableProvider;
  teamModelPolicies : gmap (string * string) TeamModelPolicy }.

Definition LoadBudget (gs : Store) (id : string) : option TableBudget := budgets gs !! id.
Definition LoadRateLimit (gs : Store) (id : string) : option TableRateLimit := rateLimits gs !! id.
Definition GetVirtualKey (gs : Store) (value : string) : option VirtualKey := virtualKeys gs !! value.

Definition GetTeamModelPolicy (gs : Store) (teamID provider : string) : option TeamModelPolicy :=
  if bool_decide (teamID = "") || bool_decide (provider = "") then None else teamModelPolicies gs !! (teamID, provider).

(** ** Whether limits admit a request *)

(** A limit of a counter: expired counters are not looked at. *)
Definition limitExpired (c : Counter) (now : Time) : bool :=
  match c_ResetDuration c with
  | Some s => match ParseDuration fraction s with Some duration => duration <=? Sub now (c_LastReset c) | None => false end
  | None => false
  end.

Definition limitViolated (c : Counter) (baseline : Z) (now : Time) : bool :=
  negb (limitExpired c now) && match c_MaxLimit c with Some n => n <=? wrap64 (c_CurrentUsage c + baseline) | None => false end.

(** The decision on one rate limit.  The kind of a single violation is read off
    its message, which ends in the reset duration. *)
Definition rateLimitDecision (r : TableRateLimit) (tokensBaselines requestsBaselines : gmap string Z) (now : Time) : Decision :=
  let token := limitViolated (Token r) (default 0 (tokensBaselines !! r_ID r)) now in
  let request := limitViolated (Request r) (default 0 (requestsBaselines !! r_ID r)) now in
  match token, request with
  | true, true => DecisionRateLimited
  | true, false => DecisionTokenLimited
  | false, true =>
      if Contains (default "unknown" (c_ResetDuration (Request r))) "token" then DecisionTokenLimited else DecisionRequestLimited
  | false, false => DecisionAllow
  end.

(** The first decision that is not [DecisionAllow]. *)
Fixpoint firstDenial (l : list Decision) : Decision :=
  match l with
  | [] => DecisionAllow
  | d :: l => if decide (d = DecisionAllow) then firstDenial l else d
  end.

Definition CheckRateLimit (entityWiseRateLimits : gmap string (list TableRateLimit)) (tokensBaselines requestsBaselines : gmap string Z)
    (now : Time) : Decision :=
  firstDenial ((fun r => rateLimitDecision r tokensBaselines requestsBaselines now) <$> concat (snd <$> iter _ entityWiseRateLimits)).

Definition budgetDecision (b : TableBudget) (baselines : gmap string F) (now : Time) : Decision :=
  match budgetResetTarget fraction b now with
  | Some _ => DecisionAllow
  | None =>
      let baseline := default zeroAmount (baselines !! b_ID b) in
      if leAmount (EffectiveMaxLimit b) (addAmount (CurrentUsage b) baseline) then DecisionBudgetExceeded else DecisionAllow
  end.

Definition CheckBudget (entityWiseBudgets : gmap string (list TableBudget)) (baselines : gmap string F) (now : Time) : Decision :=
  firstDenial ((fun b => budgetDecision b baselines now) <$> concat (snd <$> iter _ entityWiseBudgets)).

(** ** What applies to a virtual key *)

(** [m[key] = append(m[key], x)]. *)
Definition appendTo {A} (key : string) (x : A) (m : gmap string (list A)) : gmap string (list A) :=
  <[key := default [] (m !! key) ++ [x]]> m.

(** A rate limit that exists is added to a category. *)
Definition addRateLimit (gs : Store) (category : string) (id : option string) (m : gmap string (list TableRateLimit)) :
    gmap string (list TableRateLimit) :=
  match id with
  | Some id => match LoadRateLimit gs id with Some r => appendTo category r m | None => m end
  | None => m
  end.

(** The owners reached from a virtual key: its team, the customer of the team, and
    its own customer, unless that one was reached through the team. *)
Definition teamOf (gs : Store) (vk : VirtualKey) : option Team := id ← vk_TeamID vk; teams gs !! id.

Definition teamCustomerID (gs : Store) (vk : VirtualKey) : string := default "" (team ← teamOf gs vk; tm_CustomerID team).

Definition teamCustomerOf (gs : Store) (vk : VirtualKey) : option Customer :=
  team ← teamOf gs vk; id ← tm_CustomerID team; customers gs !! id.

Definition ownCustomerOf (gs : Store) (vk : VirtualKey) : option Customer :=
  id ← vk_CustomerID vk;
  if bool_decide (teamCustomerID gs vk = "") || negb (bool_decide (id = teamCustomerID gs vk)) then customers gs !! id else None.

Definition collectRateLimitsFromHierarchy (gs : Store) (vk : VirtualKey) (requestedProvider : string) : gmap string (list TableRateLimit) :=
  let m := fold_left (fun m pc => if bool_decide (pc_Provider pc = requestedProvider) then addRateLimit gs (pc_Provider pc) (pc_RateLimitID pc) m else m)
             (vk_ProviderConfigs vk) ∅ in
  let m := addRateLimit gs "VK" (vk_RateLimitID vk) m in
  let m := addRateLimit gs "Team" (team ← teamOf gs vk; tm_RateLimitID team) m in
  let m := addRateLimit gs "Customer" (c ← teamCustomerOf gs vk; cu_RateLimitID c) m in
  addRateLimit gs "Customer" (c ← ownCustomerOf gs vk; cu_RateLimitID c) m.

(** A budget that exists and was not seen is added to a category. *)
Definition addBudget (gs : Store) (category : string) (dedup : bool) (x : gset string * gmap string (list TableBudget)) (id : string) :
    gset string * gmap string (list TableBudget) :=
  if dedup && bool_decide (id ∈ x.1) then x
  else match LoadBudget gs id with
       | Some b => ({[b_ID b]} ∪ x.1, appendTo category b x.2)
       | None => x
       end.

Definition addBudgets (gs : Store) (category : string) (dedup : bool) (ids : list string) (x : gset string * gmap string (list TableBudget)) :
    gset string * gmap string (list TableBudget) :=
  fold_left (addBudget gs category dedup) ids x.

(** The budgets of customers are added without looking at those already seen. *)
Definition collectBudgetsFromHierarchy (gs : Store) (vk : VirtualKey) (requestedProvider : string) : gmap string (list TableBudget) :=
  let x := fold_left (fun x pc => if bool_decide (pc_Provider pc = requestedProvider) then addBudgets gs (pc_Provider pc) true (pc_Budgets pc) x else x)
             (vk_ProviderConfigs vk) (∅, ∅) in
  let x := addBudgets gs "VK" true (vk_Budgets vk) x in
  let x := addBudgets gs "Team" true (match teamOf gs vk with Some team => tm_Budgets team | None => [] end) x in
  let x := addBudgets gs "Customer" false (match teamCustomerOf gs vk with Some c => cu_Budgets c | None => [] end) x in
  snd (addBudgets gs "Customer" false (match ownCustomerOf gs vk with Some c => cu_Budgets c | None => [] end) x).

Definition collectBudgetIDsFromMemory (gs : Store) (vk : VirtualKey) (provider : string) : list string :=
  b_ID <$> concat (snd <$> iter _ (collectBudgetsFromHierarchy gs vk provider)).

Definition collectRateLimitIDsFromMemory (gs : Store) (vk : VirtualKey) (provider : string) : list string :=
  r_ID <$> concat (snd <$> iter _ (collectRateLimitsFromHierarchy gs vk provider)).

(** ** What applies to a model *)

Definition modelConfigStoreKey (scope scopeID modelKey : string) (provider : option string) : string :=
  let base := match provider with Some p => modelKey +:+ ":" +:+ p | None => modelKey end in
  if bool_decide (scope = "") || bool_decide (scope = ModelConfigScopeGlobal) then base
  else scope +:+ ":" +:+ scopeID +:+ ":" +:+ base.

Definition findScopedModelOnlyConfig (gs : Store) (scope scopeID model : string) : option ModelConfig :=
  let tryKey := fun modelKey => modelConfigs gs !! modelConfigStoreKey scope scopeID modelKey None in
  match GetBaseModelName with
  | Some base =>
      if bool_decide (base model = model) then tryKey model
      else match tryKey (base model) with Some mc => Some mc | None => tryKey model end
  | None => tryKey model
  end.

(** The four tiers, without repeated IDs. *)
Fixpoint dedupConfigs (seen : list string) (l : list (option ModelConfig)) : list ModelConfig :=
  match l with
  | [] => []
  | None :: l => dedupConfigs seen l
  | Some mc :: l => if bool_decide (mc_ID mc ∈ seen) then dedupConfigs seen l else mc :: dedupConfigs (mc_ID mc :: seen) l
  end.

Definition collectModelConfigsFor (gs : Store) (scope scopeID model : string) (provider : option string) : list ModelConfig :=
  let loadKey := fun modelKey prov => modelConfigs gs !! modelConfigStoreKey scope scopeID modelKey prov in
  dedupConfigs []
    [match provider with Some _ => loadKey model provider | None => None end;
     findScopedModelOnlyConfig gs scope scopeID model;
     match provider with Some _ => loadKey modelConfigWildcard provider | None => None end;
     loadKey modelConfigWildcard None].

Definition modelConfigEntityKey (mc : ModelConfig) : string :=
  let name := if bool_decide (mc_ModelName mc = modelConfigWildcard) then "AllModels" else mc_ModelName mc in
  "Model:" +:+ name +:+ match mc_Provider mc with Some p => ":Provider:" +:+ p | None => "" end +:+
  (if bool_decide (mc_Scope mc = "") || bool_decide (mc_Scope mc = ModelConfigScopeGlobal) then ""
   else ":" +:+ mc_Scope mc +:+ ":" +:+ default "" (mc_ScopeID mc)).

Definition loadModelConfigBudgets (gs : Store) (mc : ModelConfig) : list TableBudget := omap (LoadBudget gs) (mc_Budgets mc).

Definition providerStr (provider : string) : option string := if bool_decide (provider = "") then None else Some provider.

(** The budgets of the configurations by entity, in [CheckModelBudget] and its scoped form. *)
Definition modelBudgets (gs : Store) (scope scopeID model provider : string) : gmap string (list TableBudget) :=
  fold_left (fun m mc => match loadModelConfigBudgets gs mc with [] => m | bs => <[modelConfigEntityKey mc := bs]> m end)
    (collectModelConfigsFor gs scope scopeID model (providerStr provider)) ∅.

Definition modelRateLimits (gs : Store) (scope scopeID model provider : string) : gmap string (list TableRateLimit) :=
  fold_left (fun m mc => match id ← mc_RateLimitID mc; LoadRateLimit gs id with Some r => <[modelConfigEntityKey mc := [r]]> m | None => m end)
    (collectModelConfigsFor gs scope scopeID model (providerStr provider)) ∅.

(** ** The rows an alert looks at *)

Definition CollectBudgetsForVK (gs : Store) (vk : VirtualKey) (provider : string) : list TableBudget :=
  concat (snd <$> iter _ (collectBudgetsFromHierarchy gs vk provider)).

(** The rows whose ID is not in the list yet are appended, in order. *)
Definition addRows (have rows : list TableBudget) : list TableBudget :=
  fold_left (fun have b => if bool_decide (b_ID b ∈ b_ID <$> have) then have else have ++ [b]) rows have.

Definition CollectBudgetsForModelConfigs (gs : Store) (mcs : list ModelConfig) : list TableBudget :=
  addRows [] (concat (loadModelConfigBudgets gs <$> mcs)).

(** ** The checks by level *)

Definition CheckVirtualKeyBudget (gs : Store) (vk : VirtualKey) (provider : string) (baselines : gmap string F) (now : Time) : Decision :=
  CheckBudget (collectBudgetsFromHierarchy gs vk provider) baselines now.

Definition CheckVirtualKeyRateLimit (gs : Store) (vk : VirtualKey) (provider : string) (tb rb : gmap string Z) (now : Time) : Decision :=
  CheckRateLimit (collectRateLimitsFromHierarchy gs vk provider) tb rb now.

Definition CheckProviderBudget (gs : Store) (provider : string) (baselines : gmap string F) (now : Time) : Decision :=
  match p ← providers gs !! provider; id ← p_BudgetID p; LoadBudget gs id with
  | Some b => CheckBudget {[provider := [b]]} baselines now
  | None => DecisionAllow
  end.

Definition CheckProviderRateLimit (gs : Store) (provider : string) (tb rb : gmap string Z) (now : Time) : Decision :=
  match p ← providers gs !! provider; id ← p_RateLimitID p; LoadRateLimit gs id with
  | Some r => CheckRateLimit {[provider := [r]]} tb rb now
  | None => DecisionAllow
  end.

Definition CheckModelBudget (gs : Store) (model provider : string) (baselines : gmap string F) (now : Time) : Decision :=
  CheckBudget (modelBudgets gs ModelConfigScopeGlobal "" model provider) baselines now.

Definition CheckModelRateLimit (gs : Store) (model provider : string) (tb rb : gmap string Z) (now : Time) : Decision :=
  CheckRateLimit (modelRateLimits gs ModelConfigScopeGlobal "" model provider) tb rb now.

Definition CheckScopedModelBudget (gs : Store) (scope scopeID model provider : string) (baselines : gmap string F) (now : Time) : Decision :=
  if bool_decide (scope = "") || bool_decide (scopeID = "") then DecisionAllow
  else CheckBudget (modelBudgets gs scope scopeID model provider) baselines now.

Definition CheckScopedModelRateLimit (gs : Store) (scope scopeID model provider : string) (tb rb : gmap string Z) (now : Time) : Decision :=
  if bool_decide (scope = "") || bool_decide (scopeID = "") then DecisionAllow
  else CheckRateLimit (modelRateLimits gs scope scopeID model provider) tb rb now.

Definition CollectTeamBudgets (gs : Store) (teamID : string) : list TableBudget :=
  if bool_decide (teamID = "") then [] else match teams gs !! teamID with Some team => omap (LoadBudget gs) (tm_Budgets team) | None => [] end.

Definition CollectTeamRateLimits (gs : Store) (teamID : string) : list TableRateLimit :=
  if bool_decide (teamID = "") then []
  else match team ← teams gs !! teamID; id ← tm_RateLimitID team; LoadRateLimit gs id with Some r => [r] | None => [] end.

Definition CollectCustomerBudgets (gs : Store) (customerID : string) : list TableBudget :=
  if bool_decide (customerID = "") then []
  else match customers gs !! customerID with Some c => omap (LoadBudget gs) (cu_Budgets c) | None => [] end.

Definition CollectCustomerRateLimits (gs : Store) (customerID : string) : list TableRateLimit :=
  if bool_decide (customerID = "") then []
  else match c ← customers gs !! customerID; id ← cu_RateLimitID c; LoadRateLimit gs id with Some r => [r] | None => [] end.

Definition CheckTeamBudget (gs : Store) (teamID : string) (baselines : gmap string F) (now : Time) : Decision :=
  match CollectTeamBudgets gs teamID with
  | [] => DecisionAllow
  | l => CheckBudget {["Team:" +:+ teamID := l]} baselines now
  end.

(** The team's rate limit is looked up for an empty ID as well. *)
Definition CheckTeamRateLimit (gs : Store) (teamID : string) (tb rb : gmap string Z) (now : Time) : Decision :=
  match team ← teams gs !! teamID; id ← tm_RateLimitID team; LoadRateLimit gs id with
  | Some r => CheckRateLimit {["Team:" +:+ teamID := [r]]} tb rb now
  | None => DecisionAllow
  end.

Definition CheckCustomerBudget (gs : Store) (customerID : string) (baselines : gmap string F) (now : Time) : Decision :=
  match CollectCustomerBudgets gs customerID with
  | [] => DecisionAllow
  | l => CheckBudget {["Customer:" +:+ customerID := l]} baselines now
  end.

Definition CheckCustomerRateLimit (gs : Store) (customerID : string) (tb rb : gmap string Z) (now : Time) : Decision :=
  match CollectCustomerRateLimits gs customerID with
  | [] => DecisionAllow
  | l => CheckRateLimit {["Customer:" +:+ customerID := l]} tb rb now
  end.

(** The community build has no governance of single users. *)
Definition CheckUserBudget (gs : Store) (userID : string) : Decision := DecisionAllow.
Definition CheckUserRateLimit (gs : Store) (userID : string) : Decision := DecisionAllow.

End Policy.
End GovPolicy.
