(* ===== verification/GovPolicyTheory.v ===== *)
(** * What the limit checks promise

    A check of a group of rows admits a request exactly when every row in it
    does, whatever order the maps are ranged over, and the rows of a group are
    those named by the owners the request reaches. *)

From S2P Require Import Prelude GoStrings Schemas Calendar Windows GovStore GovPolicy.

Local Open Scope string_scope.
Local Open Scope Z_scope.
Local Open Scope list_scope.

Module GovPolicyTheory.
Import Schemas Calendar Windows GovStore GovPolicy.

(** A value that occurs in one of the lists of a map. *)
Definition InMap {A} (m : gmap string (list A)) (x : A) : Prop := exists k l, m !! k = Some l /\ x ∈ l.

Lemma InMap_empty {A} (x : A) : ~ InMap ∅ x.
Proof. intros (k & l & Hk & _). by rewrite lookup_empty in Hk. Qed.

Lemma InMap_singleton {A} k (l : list A) x : InMap {[k := l]} x <-> x ∈ l.
Proof.
  split; [|intros Hx; exists k, l; by rewrite lookup_singleton_eq].
  intros (k' & l' & [-> ->]%lookup_singleton_Some & Hx). done.
Qed.

Lemma InMap_appendTo {A} k (y : A) m x : InMap (appendTo k y m) x <-> x = y \/ InMap m x.
Proof.
  unfold appendTo, InMap. split.
  - intros (k' & l & Hl & Hx). destruct (decide (k = k')) as [->|Hne].
    + rewrite lookup_insert_eq in Hl. injection Hl as <-. apply elem_of_app in Hx as [Hx|Hx%list_elem_of_singleton]; [|by left].
      right. destruct (m !! k') as [l|] eqn:E; cbn in Hx; [by exists k', l|by apply elem_of_nil in Hx].
    + rewrite lookup_insert_ne in Hl by done. right. by exists k', l.
  - intros [->|(k' & l & Hl & Hx)].
    + exists k, (default [] (m !! k) ++ [y]). rewrite lookup_insert_eq. split; [done|]. set_solver.
    + destruct (decide (k = k')) as [->|Hne].
      * exists k', (default [] (m !! k') ++ [y]). rewrite lookup_insert_eq, Hl. split; [done|]. set_solver.
      * exists k', l. by rewrite lookup_insert_ne.
Qed.

(** Filing lists under names, the last non-empty list under a name wins: what
    is found at the end is what was there under names not filed again, and what
    is filed by an element that no later one overrides. *)
Definition refiled {A B} (key : B -> string) (val : B -> list A) (k : string) (l : list B) : Prop :=
  exists b, b ∈ l /\ key b = k /\ val b <> [].

Fixpoint FiledLast {A B} (key : B -> string) (val : B -> list A) (l : list B) (x : A) : Prop :=
  match l with
  | [] => False
  | b :: l => (x ∈ val b /\ ~ refiled key val (key b) l) \/ FiledLast key val l x
  end.

Lemma refiled_cons {A B} (key : B -> string) (val : B -> list A) k b l :
  refiled key val k (b :: l) <-> (key b = k /\ val b <> []) \/ refiled key val k l.
Proof. unfold refiled. set_solver. Qed.

Lemma InMap_fold_insert {A B} (key : B -> string) (val : B -> list A) (l : list B) (m : gmap string (list A)) x :
  InMap (fold_left (fun m b => match val b with [] => m | v => <[key b := v]> m end) l m) x <->
  (exists k v, m !! k = Some v /\ x ∈ v /\ ~ refiled key val k l) \/ FiledLast key val l x.
Proof.
  revert m. induction l as [|b l IH]; intros m; cbn [fold_left FiledLast].
  { split; [|intros [(k & v & Hk & Hx & _)|[]]; by exists k, v].
    intros (k & v & Hk & Hx). left. exists k, v. split_and!; [done..|]. intros (b & Hb & _). by apply elem_of_nil in Hb. }
  rewrite IH. setoid_rewrite refiled_cons. destruct (val b) as [|y v] eqn:E.
  - set_solver.
  - rewrite <-E. split.
    + intros [(k & w & Hk & Hx & Hn)|Hf]; [|by right; right].
      apply lookup_insert_Some in Hk as [[<- <-]|[Hne Hk]]; [right; left; done|].
      left. exists k, w. rewrite E. naive_solver.
    + intros [(k & w & Hk & Hx & Hn)|[[Hx Hn]|Hf]]; [|left|by right].
      * left. exists k, w. rewrite E in Hn. rewrite lookup_insert_ne; [naive_solver|]. intros <-. apply Hn. by left.
      * exists (key b), (val b). by rewrite lookup_insert_eq.
Qed.

Lemma firstDenial_allow l : firstDenial l = DecisionAllow <-> Forall (fun d => d = DecisionAllow) l.
Proof.
  induction l as [|d l IH]; cbn; [done|]. rewrite Forall_cons. case_decide as E; [tauto|]. split; [done|by intros []].
Qed.

Lemma firstDenial_in l : firstDenial l = DecisionAllow \/ firstDenial l ∈ l.
Proof. induction l as [|d l IH]; cbn; [by left|]. case_decide; set_solver. Qed.

Lemma bind_ex {A B} (o : option A) (f : A -> option B) (P : B -> Prop) :
  (exists y, o ≫= f = Some y /\ P y) <-> exists x, o = Some x /\ exists y, f x = Some y /\ P y.
Proof. setoid_rewrite bind_Some. naive_solver. Qed.

Lemma match_ex {A B} (o : option A) (f : A -> list B) (P : B -> Prop) :
  (exists y, y ∈ match o with Some x => f x | None => [] end /\ P y) <-> exists x, o = Some x /\ exists y, y ∈ f x /\ P y.
Proof. destruct o; set_solver. Qed.

Lemma ex_or {A} (P Q R : A -> Prop) : (exists x, (P x \/ Q x) /\ R x) <-> (exists x, P x /\ R x) \/ (exists x, Q x /\ R x).
Proof. naive_solver. Qed.

Section Checks.
Variable fraction : Z -> Z -> Z -> Z.
Context {F : Type} `{Amount F}.
Variable iter : forall A : Type, gmap string A -> list (string * A).
(** A [range] over a map meets every entry once, in some order. *)
Hypothesis iter_range : forall A m, iter A m ≡ₚ map_to_list m.

Local Abbreviation TableBudget := (@TableBudget F).
Local Abbreviation VirtualKey := (VirtualKey F).
Local Abbreviation Store := (@Store F).
Local Abbreviation CheckBudget := (CheckBudget fraction iter).
Local Abbreviation CheckRateLimit := (CheckRateLimit fraction iter).

Lemma concat_iter {A} (m : gmap string (list A)) x : x ∈ concat (snd <$> iter _ m) <-> InMap m x.
Proof.
  rewrite elem_of_concat. split.
  - intros (l & ([k l'] & -> & Hin)%list_elem_of_fmap & Hx). exists k, l'. split; [|done].
    apply elem_of_map_to_list. by rewrite <-(iter_range _ m).
  - intros (k & l & Hl & Hx). exists l. split; [|done]. apply list_elem_of_fmap. exists (k, l). split; [done|].
    rewrite iter_range. by apply elem_of_map_to_list.
Qed.

Lemma CheckBudget_allow m baselines now :
  CheckBudget m baselines now = DecisionAllow <-> forall b, InMap m b -> budgetDecision fraction b baselines now = DecisionAllow.
Proof. unfold GovPolicy.CheckBudget. rewrite firstDenial_allow, Forall_fmap, Forall_forall. setoid_rewrite concat_iter. done. Qed.

Lemma CheckRateLimit_allow m tb rb now :
  CheckRateLimit m tb rb now = DecisionAllow <-> forall r, InMap m r -> rateLimitDecision fraction r tb rb now = DecisionAllow.
Proof. unfold GovPolicy.CheckRateLimit. rewrite firstDenial_allow, Forall_fmap, Forall_forall. setoid_rewrite concat_iter. done. Qed.

Lemma CheckBudget_kinds m baselines now :
  CheckBudget m baselines now = DecisionAllow \/ CheckBudget m baselines now = DecisionBudgetExceeded.
Proof.
  unfold GovPolicy.CheckBudget. edestruct firstDenial_in as [->|Hin]; [by left|].
  apply list_elem_of_fmap in Hin as (b & -> & _). unfold budgetDecision. repeat case_match; auto.
Qed.

Lemma CheckRateLimit_kinds m tb rb now :
  CheckRateLimit m tb rb now = DecisionAllow \/ isRateLimitViolation (CheckRateLimit m tb rb now) = true.
Proof.
  unfold GovPolicy.CheckRateLimit. edestruct firstDenial_in as [->|Hin]; [by left|].
  apply list_elem_of_fmap in Hin as (r & -> & _). unfold rateLimitDecision. repeat case_match; auto.
Qed.
End Checks.

(** ** The owners a virtual key reaches *)

Section Owners.
Context {F : Type}.
Variable GetBaseModelName : option (string -> string).

Local Abbreviation TableBudget := (@TableBudget F).
Local Abbreviation VirtualKey := (VirtualKey F).
Local Abbreviation Store := (@Store F).

(** The store files every budget under its own ID. *)
Definition Keyed (gs : Store) : Prop := forall id b, budgets gs !! id = Some b -> b_ID b = id.

(** The budgets and the rate limit of an owner. *)
Definition Holder : Type := list string * option string.

Definition customerHolder (c : Customer) : Holder := (cu_Budgets c, cu_RateLimitID c).

Definition teamHolder (t : Team) : Holder := (tm_Budgets t, tm_RateLimitID t).

(** The configurations of the provider, the key, its team, the customer of the
    team, and the customer of the key. *)
Definition keyHolders (gs : Store) (vk : VirtualKey) (provider : string) : list Holder :=
  ((fun pc => (pc_Budgets pc, pc_RateLimitID pc)) <$> filter (fun pc => pc_Provider pc = provider) (vk_ProviderConfigs vk)) ++
  [(vk_Budgets vk, vk_RateLimitID vk)] ++
  option_list (teamHolder <$> teamOf gs vk) ++
  option_list (customerHolder <$> teamCustomerOf gs vk) ++
  option_list (customerHolder <$> (vk_CustomerID vk ≫= fun id => customers gs !! id)).

Definition holdsBudget (gs : Store) (h : Holder) (b : TableBudget) : Prop := exists id, id ∈ h.1 /\ LoadBudget gs id = Some b.
Definition holdsRateLimit (gs : Store) (h : Holder) (r : TableRateLimit) : Prop := exists id, h.2 = Some id /\ LoadRateLimit gs id = Some r.

(** The customer of the key, when it is not that of the team already reached. *)
Lemma customers_reached (gs : Store) (vk : VirtualKey) c :
  (teamCustomerOf gs vk = Some c \/ ownCustomerOf gs vk = Some c) <->
  (teamCustomerOf gs vk = Some c \/ (vk_CustomerID vk ≫= fun id => customers gs !! id) = Some c).
Proof.
  unfold ownCustomerOf, teamCustomerID, teamCustomerOf. destruct (vk_CustomerID vk) as [id|]; cbn; [|done].
  destruct (teamOf gs vk) as [t|]; cbn; [|done]. destruct (tm_CustomerID t) as [tid|]; cbn; [|done].
  repeat case_bool_decide; cbn; subst; naive_solver.
Qed.

Lemma addRateLimit_InMap (gs : Store) category id m r :
  InMap (addRateLimit gs category id m) r <-> InMap m r \/ exists i, id = Some i /\ LoadRateLimit gs i = Some r.
Proof.
  unfold addRateLimit. destruct id as [i|]; [|naive_solver].
  destruct (LoadRateLimit gs i) as [r'|] eqn:E; [rewrite InMap_appendTo|]; naive_solver.
Qed.

Lemma fold_InMap {A B C} (P : C -> Prop) {step : B -> C -> B} (view : B -> A -> Prop) (R : C -> A -> Prop) (l : list C) (x : B) (a : A) :
  (forall x c, P c -> view (step x c) a <-> view x a \/ R c a) -> Forall P l ->
  view (fold_left step l x) a <-> view x a \/ exists c, c ∈ l /\ R c a.
Proof.
  intros Hstep. revert x. induction l as [|c l IH]; intros x Hl; cbn [fold_left].
  { split; [by left|]. intros [?|(c & Hc & _)]; [done|by apply elem_of_nil in Hc]. }
  apply Forall_cons in Hl as [Hc Hl]. rewrite IH, Hstep by done. set_solver.
Qed.

Lemma exists_keyHolders (gs : Store) (vk : VirtualKey) provider (P : Holder -> Prop) :
  (exists h, h ∈ keyHolders gs vk provider /\ P h) <->
  (exists pc, pc ∈ vk_ProviderConfigs vk /\ pc_Provider pc = provider /\ P (pc_Budgets pc, pc_RateLimitID pc)) \/
  P (vk_Budgets vk, vk_RateLimitID vk) \/
  (exists t, teamOf gs vk = Some t /\ P (teamHolder t)) \/
  (exists c, (teamCustomerOf gs vk = Some c \/ ownCustomerOf gs vk = Some c) /\ P (customerHolder c)).
Proof.
  setoid_rewrite customers_reached. unfold keyHolders. setoid_rewrite elem_of_app. setoid_rewrite elem_of_app.
  setoid_rewrite elem_of_app. setoid_rewrite elem_of_app. setoid_rewrite list_elem_of_fmap. setoid_rewrite list_elem_of_filter.
  setoid_rewrite list_elem_of_singleton. setoid_rewrite elem_option_list. setoid_rewrite fmap_Some. split.
  - intros (h & Hh & HP). destruct_or!; naive_solver.
  - intros [(pc & Hin & Hp & HP)|[HP|[(t & Ht & HP)|(c & Hc & HP)]]]; (eexists; split; [|exact HP]); naive_solver.
Qed.

Lemma hierarchy_rates (gs : Store) (vk : VirtualKey) provider r :
  InMap (collectRateLimitsFromHierarchy gs vk provider) r <->
  exists h, h ∈ keyHolders gs vk provider /\ holdsRateLimit gs h r.
Proof.
  unfold collectRateLimitsFromHierarchy, holdsRateLimit. rewrite !addRateLimit_InMap.
  rewrite (fold_InMap (fun _ => True) InMap
    (fun pc r => pc_Provider pc = provider /\ exists i, pc_RateLimitID pc = Some i /\ LoadRateLimit gs i = Some r)).
  - rewrite !bind_ex, exists_keyHolders. pose proof (@InMap_empty TableRateLimit r).
    unfold teamHolder, customerHolder. naive_solver.
  - intros m pc _. case_bool_decide; [rewrite addRateLimit_InMap|]; naive_solver.
  - by apply Forall_true.
Qed.

(** Budgets already seen are in the collection, so skipping them loses nothing. *)
Definition Seen (gs : Store) (x : gset string * gmap string (list TableBudget)) : Prop :=
  forall id, id ∈ x.1 -> exists b, LoadBudget gs id = Some b /\ InMap x.2 b.

(** [x'] collects what [x] does and the budgets in [R]. *)
Definition Collects (gs : Store) (x x' : gset string * gmap string (list TableBudget)) (R : TableBudget -> Prop) : Prop :=
  Seen gs x' /\ forall b, InMap x'.2 b <-> InMap x.2 b \/ R b.

Lemma addBudget_collects (gs : Store) category dedup x id :
  Keyed gs -> Seen gs x -> Collects gs x (addBudget gs category dedup x id) (fun b => LoadBudget gs id = Some b).
Proof.
  intros Hk Hs. unfold addBudget, Collects. destruct (dedup && bool_decide (id ∈ x.1)) eqn:Ed.
  - split; [done|]. intros b. split; [by left|]. intros [?|Hb]; [done|].
    apply andb_true_iff in Ed as [_ Hin%bool_decide_eq_true]. destruct (Hs id Hin) as (b' & Hb' & ?). congruence.
  - destruct (LoadBudget gs id) as [b0|] eqn:E; [|split; [done|naive_solver]]. cbn. split.
    + intros id' Hid. cbn in *. setoid_rewrite InMap_appendTo. apply elem_of_union in Hid as [->%elem_of_singleton|Hid].
      * exists b0. rewrite (Hk id b0 E). auto.
      * destruct (Hs id' Hid) as (b & ? & ?). eauto.
    + intros b. rewrite InMap_appendTo. naive_solver.
Qed.

Lemma fold_collects {C} (gs : Store) step (R : C -> TableBudget -> Prop) (l : list C) x :
  (forall x c, Seen gs x -> Collects gs x (step x c) (R c)) -> Seen gs x ->
  Collects gs x (fold_left step l x) (fun b => exists c, c ∈ l /\ R c b).
Proof.
  intros Hstep. revert x. induction l as [|c l IH]; intros x Hs; cbn [fold_left].
  { split; [done|]. intros b. split; [by left|]. intros [?|(c & Hc & _)]; [done|by apply elem_of_nil in Hc]. }
  destruct (Hstep x c Hs) as [Hs' Hv]. destruct (IH _ Hs') as [Hs'' Hv']. split; [done|]. intros b. rewrite Hv', Hv. set_solver.
Qed.

Lemma addBudgets_collects (gs : Store) category dedup ids x :
  Keyed gs -> Seen gs x -> Collects gs x (addBudgets gs category dedup ids x) (fun b => exists id, id ∈ ids /\ LoadBudget gs id = Some b).
Proof. intros Hk. apply fold_collects. intros y id. by apply addBudget_collects. Qed.

Lemma collects_trans (gs : Store) x y z R S :
  Collects gs x y R -> Collects gs y z S -> Collects gs x z (fun b => R b \/ S b).
Proof. intros [_ Hxy] [Hz Hyz]. split; [done|]. intros b. rewrite Hyz, Hxy. tauto. Qed.

Lemma hierarchy_budgets (gs : Store) (vk : VirtualKey) provider b :
  Keyed gs ->
  InMap (collectBudgetsFromHierarchy gs vk provider) b <-> exists h, h ∈ keyHolders gs vk provider /\ holdsBudget gs h b.
Proof.
  intros Hk. unfold collectBudgetsFromHierarchy. set (x0 := (∅, ∅)).
  assert (Seen gs x0) as H0 by (intros id Hid; cbn in Hid; set_solver).
  pose proof (fold_collects gs
    (fun x pc => if bool_decide (pc_Provider pc = provider) then addBudgets gs (pc_Provider pc) true (pc_Budgets pc) x else x)
    (fun pc b => pc_Provider pc = provider /\ exists id, id ∈ pc_Budgets pc /\ LoadBudget gs id = Some b) (vk_ProviderConfigs vk) x0) as H1.
  destruct H1 as [S1 V1]; [|done|].
  { intros x pc Hs. case_bool_decide as Hp; [|split; [done|naive_solver]].
    destruct (addBudgets_collects gs (pc_Provider pc) true (pc_Budgets pc) x Hk Hs) as [? Hv]. split; [done|].
    intros b'. rewrite Hv. naive_solver. }
  set (x1 := fold_left _ _ x0) in *.
  destruct (addBudgets_collects gs "VK" true (vk_Budgets vk) x1 Hk S1) as [S2 V2]. set (x2 := addBudgets _ _ _ _ x1) in *.
  destruct (addBudgets_collects gs "Team" true (match teamOf gs vk with Some team => tm_Budgets team | None => [] end) x2 Hk S2) as [S3 V3].
  set (x3 := addBudgets _ _ _ _ x2) in *.
  destruct (addBudgets_collects gs "Customer" false (match teamCustomerOf gs vk with Some c => cu_Budgets c | None => [] end) x3 Hk S3) as [S4 V4].
  set (x4 := addBudgets _ _ _ _ x3) in *.
  destruct (addBudgets_collects gs "Customer" false (match ownCustomerOf gs vk with Some c => cu_Budgets c | None => [] end) x4 Hk S4) as [_ V5].
  rewrite V5, V4, V3, V2, V1, exists_keyHolders, !(match_ex _ _ (fun id => LoadBudget gs id = Some b)), ex_or.
  pose proof (@InMap_empty TableBudget b) as Hno. unfold holdsBudget. cbn [fst]. clear - Hno. subst x0. cbn [snd] in *. tauto.
Qed.

(** ** How often the hierarchy names a budget *)

(** All that the lists of a map hold. *)
Definition flatten {A} (m : gmap string (list A)) : list A := concat (snd <$> map_to_list m).

Lemma concat_perm {A} (l l' : list (list A)) : l ≡ₚ l' -> concat l ≡ₚ concat l'.
Proof.
  induction 1 as [|x l l' _ IH|x y l|l1 l2 l3 _ IH1 _ IH2]; cbn; [done|by rewrite IH| |by rewrite IH1].
  rewrite !app_assoc. by rewrite (Permutation_app_comm x y).
Qed.

Lemma flatten_appendTo {A} k (x : A) m : flatten (appendTo k x m) ≡ₚ flatten m ++ [x].
Proof.
  unfold flatten, appendTo. etransitivity; [|apply Permutation_app_comm]. destruct (m !! k) as [l|] eqn:E; cbn.
  - rewrite <-(map_to_list_delete m k l E), <-(map_to_list_delete (<[k:=l ++ [x]]> m) k (l ++ [x])) by apply lookup_insert_eq.
    rewrite delete_insert_eq. cbn. rewrite <-app_assoc. cbn. by rewrite Permutation_middle.
  - by rewrite map_to_list_insert.
Qed.

(** The budgets named by a list of IDs that exist and were not seen, each once,
    and what has been seen then. *)
Fixpoint eachOnce (gs : Store) (seen : gset string) (ids : list string) : list string :=
  match ids with
  | [] => []
  | id :: ids =>
      if bool_decide (id ∈ seen) then eachOnce gs seen ids
      else match LoadBudget gs id with
           | Some _ => id :: eachOnce gs ({[id]} ∪ seen) ids
           | None => eachOnce gs seen ids
           end
  end.

Fixpoint seenAfter (gs : Store) (seen : gset string) (ids : list string) : gset string :=
  match ids with
  | [] => seen
  | id :: ids =>
      if bool_decide (id ∈ seen) then seenAfter gs seen ids
      else match LoadBudget gs id with Some _ => seenAfter gs ({[id]} ∪ seen) ids | None => seenAfter gs seen ids end
  end.

Definition existing (gs : Store) (ids : list string) : list string :=
  filter (fun id => is_Some (LoadBudget gs id)) ids.

Lemma eachOnce_spec (gs : Store) seen ids :
  NoDup (eachOnce gs seen ids) /\
  forall id, id ∈ eachOnce gs seen ids <-> id ∈ ids /\ id ∉ seen /\ is_Some (LoadBudget gs id).
Proof.
  revert seen. induction ids as [|i ids IH]; intros seen; cbn [eachOnce].
  { split; [constructor|]. intros id. split; [by intros ?%elem_of_nil|by intros [?%elem_of_nil _]]. }
  case_bool_decide as Hi; [destruct (IH seen) as [Hn Hs]; split; [done|]; intros id; rewrite Hs, elem_of_cons; naive_solver|].
  destruct (LoadBudget gs i) as [b|] eqn:E.
  - destruct (IH ({[i]} ∪ seen)) as [Hn Hs]. split.
    + constructor; [|done]. rewrite Hs. set_solver.
    + intros id. rewrite !elem_of_cons, Hs, not_elem_of_union, not_elem_of_singleton.
      destruct (decide (id = i)) as [->|]; [|naive_solver]. split; [intros _; eauto|by left].
  - destruct (IH seen) as [Hn Hs]. split; [done|]. intros id. rewrite Hs, elem_of_cons. split; [naive_solver|].
    intros ([->|?] & ? & Hx); [rewrite E in Hx; by destruct Hx|done].
Qed.

Lemma eachOnce_app (gs : Store) seen a b :
  eachOnce gs seen (a ++ b) = eachOnce gs seen a ++ eachOnce gs (seenAfter gs seen a) b /\
  seenAfter gs seen (a ++ b) = seenAfter gs (seenAfter gs seen a) b.
Proof.
  revert seen. induction a as [|i a IH]; intros seen; cbn; [done|].
  case_bool_decide; [apply IH|]. destruct (LoadBudget gs i); [|apply IH]. destruct (IH ({[i]} ∪ seen)) as [-> ->]. done.
Qed.

(** The IDs a collection holds. *)
Definition heldIDs (x : gset string * gmap string (list TableBudget)) : list string := b_ID <$> flatten x.2.

Lemma addBudgets_once (gs : Store) category ids x : Keyed gs ->
  let x' := addBudgets gs category true ids x in
  heldIDs x' ≡ₚ heldIDs x ++ eachOnce gs x.1 ids /\ x'.1 = seenAfter gs x.1 ids.
Proof.
  intros Hk. cbv zeta. unfold addBudgets. revert x. induction ids as [|id ids IH]; intros x; cbn [fold_left eachOnce seenAfter].
  { by rewrite app_nil_r. }
  destruct (IH (addBudget gs category true x id)) as [Hh Hs]. rewrite Hh, Hs. unfold addBudget. cbn [andb].
  destruct (bool_decide (id ∈ x.1)); [done|]. destruct (LoadBudget gs id) as [b|] eqn:E; [|done].
  cbn [fst]. rewrite (Hk id b E). split; [|done]. unfold heldIDs. cbn [snd]. rewrite flatten_appendTo, fmap_app. cbn.
  by rewrite (Hk id b E), <-app_assoc.
Qed.

(** Customers' budgets are added without looking at what was seen. *)
Lemma addBudgets_each (gs : Store) category ids x : Keyed gs ->
  heldIDs (addBudgets gs category false ids x) ≡ₚ heldIDs x ++ existing gs ids.
Proof.
  intros Hk. unfold addBudgets, existing. revert x. induction ids as [|id ids IH]; intros x; cbn [fold_left].
  { by rewrite app_nil_r. }
  rewrite IH. unfold addBudget. cbn [andb]. destruct (LoadBudget gs id) as [b|] eqn:E.
  - rewrite filter_cons_True by (by rewrite E; eexists). unfold heldIDs. cbn [snd]. rewrite flatten_appendTo, fmap_app. cbn.
    by rewrite (Hk id b E), <-app_assoc.
  - rewrite filter_cons_False by (by rewrite E; intros []). done.
Qed.

Lemma configBudgets_once (gs : Store) pcs provider x : Keyed gs ->
  let x' := fold_left (fun x (pc : ProviderConfig F) => if bool_decide (pc_Provider pc = provider) then addBudgets gs (pc_Provider pc) true (pc_Budgets pc) x else x) pcs x in
  let ids := concat (pc_Budgets <$> filter (fun pc => pc_Provider pc = provider) pcs) in
  heldIDs x' ≡ₚ heldIDs x ++ eachOnce gs x.1 ids /\ x'.1 = seenAfter gs x.1 ids.
Proof.
  intros Hk. cbv zeta. revert x. induction pcs as [|pc pcs IH]; intros x; cbn [fold_left]; [by rewrite app_nil_r|].
  case_bool_decide as Hp; [rewrite filter_cons_True by done|rewrite filter_cons_False by done; apply IH].
  cbn [fmap list_fmap concat]. destruct (addBudgets_once gs (pc_Provider pc) (pc_Budgets pc) x Hk) as [Hh Hs].
  destruct (IH (addBudgets gs (pc_Provider pc) true (pc_Budgets pc) x)) as [Hh' Hs'].
  destruct (eachOnce_app gs x.1 (pc_Budgets pc) (concat (pc_Budgets <$> filter (fun pc => pc_Provider pc = provider) pcs))) as [He He'].
  change (list_fmap (ProviderConfig F) (list string) pc_Budgets ?l) with (pc_Budgets <$> l).
  rewrite He, He', Hh', Hs', Hh, Hs. split; [by rewrite <-app_assoc|done].
Qed.

(** The budgets a key reaches: those of the provider's configurations, the key
    and its team once each, then those of the customer of the team and those of
    the customer of the key, whatever was reached before. *)
Definition reachedBudgets (gs : Store) (vk : VirtualKey) (provider : string) : list string :=
  eachOnce gs ∅ (concat (pc_Budgets <$> filter (fun pc => pc_Provider pc = provider) (vk_ProviderConfigs vk)) ++
    vk_Budgets vk ++ match teamOf gs vk with Some team => tm_Budgets team | None => [] end) ++
  existing gs (match teamCustomerOf gs vk with Some c => cu_Budgets c | None => [] end) ++
  existing gs (match ownCustomerOf gs vk with Some c => cu_Budgets c | None => [] end).

Lemma hierarchy_reached (gs : Store) (vk : VirtualKey) provider : Keyed gs ->
  b_ID <$> flatten (collectBudgetsFromHierarchy gs vk provider) ≡ₚ reachedBudgets gs vk provider.
Proof.
  intros Hk. unfold collectBudgetsFromHierarchy, reachedBudgets.
  match goal with |- b_ID <$> flatten (snd ?x) ≡ₚ _ => change (b_ID <$> flatten (snd x)) with (heldIDs x) end.
  rewrite !(addBudgets_each gs _ _ _ Hk).
  match goal with |- context [addBudgets gs "Team" true ?ids ?x] => destruct (addBudgets_once gs "Team" ids x Hk) as [-> _] end.
  match goal with |- context [addBudgets gs "VK" true ?ids ?x] => destruct (addBudgets_once gs "VK" ids x Hk) as [-> ->] end.
  destruct (configBudgets_once gs (vk_ProviderConfigs vk) provider (∅, ∅) Hk) as [-> ->]. cbn [fst].
  rewrite (proj1 (eachOnce_app gs ∅ _ _)), (proj1 (eachOnce_app gs _ (vk_Budgets vk) _)).
  unfold heldIDs, flatten. cbn [snd]. rewrite map_to_list_empty. cbn. by rewrite <-!app_assoc.
Qed.

(** ** The configurations of a model *)

Definition configHolder (mc : ModelConfig) : Holder := (mc_Budgets mc, mc_RateLimitID mc).

(** A configuration is hidden when a later one that carries limits of the kind
    is filed under the same entity name.  The holders that count keep their
    budgets and their rate limit unless those are hidden. *)
Definition hasBudgets (gs : Store) (mc : ModelConfig) : bool := negb (bool_decide (loadModelConfigBudgets gs mc = [])).

Definition hasRateLimit (gs : Store) (mc : ModelConfig) : bool :=
  match mc_RateLimitID mc ≫= LoadRateLimit gs with Some _ => true | None => false end.

Definition hiddenBy (limited : ModelConfig -> bool) (mc : ModelConfig) (later : list ModelConfig) : bool :=
  existsb (fun mc' => bool_decide (modelConfigEntityKey mc' = modelConfigEntityKey mc) && limited mc') later.

Fixpoint countingHolders (gs : Store) (l : list ModelConfig) : list Holder :=
  match l with
  | [] => []
  | mc :: later =>
      ((if hiddenBy (hasBudgets gs) mc later then [] else mc_Budgets mc),
       (if hiddenBy (hasRateLimit gs) mc later then None else mc_RateLimitID mc)) :: countingHolders gs later
  end.

Lemma hiddenBy_refiled {A} (limited : ModelConfig -> bool) (val : ModelConfig -> list A) mc later :
  (forall mc, limited mc = true <-> val mc <> []) ->
  hiddenBy limited mc later = true <-> refiled modelConfigEntityKey val (modelConfigEntityKey mc) later.
Proof.
  intros Hl. unfold hiddenBy, refiled. rewrite existsb_exists. split.
  - intros (mc' & Hin%list_elem_of_In & [Hk%bool_decide_eq_true Hv%Hl]%andb_true_iff). by exists mc'.
  - intros (mc' & Hin%list_elem_of_In & Hk & Hv%Hl). exists mc'. by rewrite bool_decide_true, Hv.
Qed.

Lemma loadModelConfigBudgets_spec (gs : Store) mc b : b ∈ loadModelConfigBudgets gs mc <-> holdsBudget gs (configHolder mc) b.
Proof. unfold loadModelConfigBudgets, holdsBudget. by rewrite list_elem_of_omap. Qed.

Lemma hasBudgets_spec (gs : Store) mc : hasBudgets gs mc = true <-> loadModelConfigBudgets gs mc <> [].
Proof. unfold hasBudgets. by rewrite negb_true_iff, bool_decide_eq_false. Qed.

Lemma modelBudgets_spec (gs : Store) scope scopeID model provider b :
  InMap (modelBudgets GetBaseModelName gs scope scopeID model provider) b <->
  exists h, h ∈ countingHolders gs (collectModelConfigsFor GetBaseModelName gs scope scopeID model (providerStr provider)) /\ holdsBudget gs h b.
Proof.
  unfold modelBudgets. rewrite (InMap_fold_insert modelConfigEntityKey (loadModelConfigBudgets gs)).
  transitivity (FiledLast modelConfigEntityKey (loadModelConfigBudgets gs)
    (collectModelConfigsFor GetBaseModelName gs scope scopeID model (providerStr provider)) b).
  { split; [|tauto]. intros [(k & v & Hk & _)|?]; [|done]. by rewrite lookup_empty in Hk. }
  induction (collectModelConfigsFor _ _ _ _ _ _) as [|mc l IH]; cbn [FiledLast countingHolders].
  { split; [done|]. intros (h & Hh & _). by apply elem_of_nil in Hh. }
  rewrite IH, <-(hiddenBy_refiled (hasBudgets gs)) by apply hasBudgets_spec.
  setoid_rewrite elem_of_cons. rewrite loadModelConfigBudgets_spec. unfold holdsBudget, configHolder. cbn [fst].
  destruct (hiddenBy _ mc l) eqn:Eh.
  - split; [intros [[_ Hn]|(h & ?)]; [done|exists h; tauto]|].
    intros (h & [->|Hh] & id & Hid & Hb); [by apply elem_of_nil in Hid|]. right. exists h. eauto.
  - split; [intros [[(id & ? & ?) _]|(h & ? & ?)]; [eexists; split; [by left|by exists id]|exists h; tauto]|].
    intros (h & [->|Hh] & id & Hid & Hb); [left; split; [by exists id|done]|]. right. exists h. eauto.
Qed.

Lemma hasRateLimit_spec (gs : Store) mc :
  hasRateLimit gs mc = true <-> option_list (mc_RateLimitID mc ≫= LoadRateLimit gs) <> [].
Proof. unfold hasRateLimit. destruct (mc_RateLimitID mc ≫= LoadRateLimit gs); cbn; naive_solver. Qed.

Lemma modelRateLimits_spec (gs : Store) scope scopeID model provider r :
  InMap (modelRateLimits GetBaseModelName gs scope scopeID model provider) r <->
  exists h, h ∈ countingHolders gs (collectModelConfigsFor GetBaseModelName gs scope scopeID model (providerStr provider)) /\ holdsRateLimit gs h r.
Proof.
  unfold modelRateLimits. set (rate := fun mc => mc_RateLimitID mc ≫= fun id => LoadRateLimit gs id).
  set (rows := fun mc => option_list (rate mc)).
  assert (forall l (m : gmap string (list TableRateLimit)),
    fold_left (fun (m : gmap string (list TableRateLimit)) (mc : ModelConfig) => match rate mc with
                           | Some r => <[modelConfigEntityKey mc := [r]]> m | None => m end) l m =
    fold_left (fun (m : gmap string (list TableRateLimit)) mc => match rows mc with [] => m | v => <[modelConfigEntityKey mc := v]> m end) l m) as Hf.
  { intros l. induction l as [|mc l IH]; intros m; [done|]. cbn [fold_left]. rewrite IH. f_equal. unfold rows.
    by destruct (rate mc). }
  etransitivity; [erewrite Hf; exact (InMap_fold_insert modelConfigEntityKey rows _ ∅ r)|].
  transitivity (FiledLast modelConfigEntityKey rows
    (collectModelConfigsFor GetBaseModelName gs scope scopeID model (providerStr provider)) r).
  { split; [|tauto]. intros [(k & v & Hk & _)|?]; [|done]. by rewrite lookup_empty in Hk. }
  induction (collectModelConfigsFor _ _ _ _ _ _) as [|mc l IH]; cbn [FiledLast countingHolders].
  { split; [done|]. intros (h & Hh & _). by apply elem_of_nil in Hh. }
  rewrite IH, <-(hiddenBy_refiled (hasRateLimit gs)) by apply hasRateLimit_spec.
  setoid_rewrite elem_of_cons. unfold rows, rate, holdsRateLimit. rewrite elem_option_list, bind_Some. cbn [snd].
  destruct (hiddenBy _ mc l) eqn:Eh.
  - split; [intros [[_ Hn]|(h & ?)]; [done|exists h; tauto]|].
    intros (h & [->|Hh] & id & Hid & Hb); [done|]. right. exists h. eauto.
  - split; [intros [[(id & ? & ?) _]|(h & ? & ?)]; [eexists; split; [by left|by exists id]|exists h; tauto]|].
    intros (h & [->|Hh] & id & Hid & Hb); [left; split; [by exists id|done]|]. right. exists h. eauto.
Qed.

End Owners.
End GovPolicyTheory.
