(* ===== verification/GovResolver.v ===== *)
(** * Governance decisions on a request
    (src/plugins/governance/resolver.go, main.go, utils.go)

    The evaluation of a request against its virtual key, the limits of its
    provider and model, and the owners of the key; the tools a key grants; and
    the hooks that turn a decision into a short circuit.  The store is read in
    one state; each check reads the clock for itself ([now]).  The text of a
    failed check, which prints amounts, is the argument [reason]. *)

From S2P Require Import Prelude GoStrings Schemas Request Context Pipeline Calendar Windows GovStore GovPolicy.

Local Open Scope string_scope.
Local Open Scope Z_scope.
Local Open Scope list_scope.

Module GovResolver.
Import Schemas Request Context Pipeline Calendar Windows GovStore GovPolicy.

(** ** Names *)

Definition KeyGovernanceVirtualKeyID : string := "bifrost-governance-virtual-key-id".
Definition KeyGovernanceVirtualKeyName : string := "bifrost-governance-virtual-key-name".
Definition KeyGovernanceTeamID : string := "bifrost-governance-team-id".
Definition KeyGovernanceTeamName : string := "bifrost-governance-team-name".
Definition KeyGovernanceCustomerID : string := "bifrost-governance-customer-id".
Definition KeyGovernanceCustomerName : string := "bifrost-governance-customer-name".
Definition KeyMCPAddedTools : string := "bifrost-mcp-added-tools".
Definition KeyMCPIncludeTools : string := "mcp-include-tools".
Definition KeyMCPIncludeClients : string := "mcp-include-clients".
Definition KeyRequestHeaders : string := "bifrost-request-headers".
Definition governanceRejectedContextKey : string := "bf-governance-rejected".

(** [string(decision)]. *)
Definition decisionText (d : Decision) : string :=
  match d with
  | DecisionAllow => "allow"
  | DecisionVirtualKeyNotFound => "virtual_key_not_found"
  | DecisionVirtualKeyBlocked => "virtual_key_blocked"
  | DecisionRateLimited => "rate_limited"
  | DecisionBudgetExceeded => "budget_exceeded"
  | DecisionTokenLimited => "token_limited"
  | DecisionRequestLimited => "request_limited"
  | DecisionModelBlocked => "model_blocked"
  | DecisionProviderBlocked => "provider_blocked"
  | DecisionMCPToolBlocked => "mcp_tool_blocked"
  end.

(** ** Request types that carry no model (utils.go) *)

Definition modelFreeRequests : list RequestType :=
  [ListModelsRequest; MCPToolExecutionRequest; BatchCreateRequest; BatchListRequest; BatchRetrieveRequest; BatchCancelRequest;
   BatchResultsRequest; FileUploadRequest; FileListRequest; FileRetrieveRequest; FileDeleteRequest; FileContentRequest;
   ContainerCreateRequest; ContainerListRequest; ContainerRetrieveRequest; ContainerDeleteRequest; ContainerFileCreateRequest;
   ContainerFileListRequest; ContainerFileRetrieveRequest; ContainerFileContentRequest; ContainerFileDeleteRequest;
   CachedContentListRequest; CachedContentRetrieveRequest; CachedContentUpdateRequest; CachedContentDeleteRequest;
   ResponsesRetrieveRequest; ResponsesRetrieveStreamRequest; ResponsesDeleteRequest; ResponsesCancelRequest;
   ResponsesInputItemsRequest; VideoRetrieveRequest; VideoDownloadRequest; VideoListRequest; VideoDeleteRequest;
   VideoRemixRequest; PassthroughRequest; PassthroughStreamRequest].

Definition IsModelRequiredForRequest (requestType : RequestType) : bool :=
  negb (bool_decide (requestType ∈ modelFreeRequests)).

Definition isPassthrough (requestType : RequestType) : bool :=
  bool_decide (requestType = PassthroughRequest) || bool_decide (requestType = PassthroughStreamRequest).

(** ** Tools a virtual key grants (main.go) *)

Section Tools.
Context {F : Type}.
Variable iter : forall A : Type, gmap string A -> list (string * A).

(** The names of the tools one configuration of the key grants. *)
Definition configTools (c : MCPConfig) : list string :=
  if WhiteList.IsEmpty (mcp_ToolsToExecute c) then []
  else if WhiteList.IsUnrestricted (mcp_ToolsToExecute c) then [mcp_ClientName c +:+ "-*"]
  else (fun tool => mcp_ClientName c +:+ "-" +:+ tool) <$> filter (fun tool => tool <> "") (mcp_ToolsToExecute c).

Definition computeMCPIncludeToolsWith (vk : VirtualKey F) (allowAllVKsClients : gmap string string) : list string :=
  let handledClients := mcp_ClientID <$> vk_MCPConfigs vk in
  concat (configTools <$> vk_MCPConfigs vk) ++
  ((fun p => snd p +:+ "-*") <$> filter (fun p => fst p ∉ handledClients) (iter _ allowAllVKsClients)).

Definition matchesClient (toolPattern clientName : string) : bool :=
  bool_decide (toolPattern = clientName +:+ "-*") || HasPrefix toolPattern (clientName +:+ "-").

(** The first configuration of a matching client decides alone. *)
Fixpoint configVerdict (configs : list MCPConfig) (toolPattern : string) : option bool :=
  match configs with
  | [] => None
  | c :: configs =>
      let clientName := mcp_ClientName c in
      if matchesClient toolPattern clientName then
        Some (if bool_decide (toolPattern = clientName +:+ "-*") then negb (WhiteList.IsEmpty (mcp_ToolsToExecute c))
              else if WhiteList.IsUnrestricted (mcp_ToolsToExecute c) then true
              else WhiteList.Contains (mcp_ToolsToExecute c) (str_drop (String.length (clientName +:+ "-")) toolPattern))
      else configVerdict configs toolPattern
  end.

Definition isMCPToolAllowedByVKWith (vk : VirtualKey F) (toolPattern : string) (allowAllClients : gmap string string) : bool :=
  match configVerdict (vk_MCPConfigs vk) toolPattern with
  | Some verdict => verdict
  | None => existsb (fun p => matchesClient toolPattern (snd p)) (iter _ allowAllClients)
  end.

(** [strings.CutSuffix pattern "-*"]. *)
Definition wildcardClient (pattern : string) : option string :=
  let n := (String.length pattern - 2)%nat in
  if bool_decide (2 <= String.length pattern)%nat && bool_decide (str_drop n pattern = "-*") then Some (str_take n pattern) else None.

Definition addTool (pruned : list string) (tool : string) : list string :=
  if bool_decide (tool ∈ pruned) then pruned else pruned ++ [tool].

Definition pruneStep (vk : VirtualKey F) (allowAllClients : gmap string string) (pruned : list string) (pattern : string) : list string :=
  let vkTools := computeMCPIncludeToolsWith vk allowAllClients in
  if bool_decide (pattern = "") then pruned
  else match wildcardClient pattern with
       | Some clientName =>
           if bool_decide (pattern ∈ vkTools) then addTool pruned pattern
           else fold_left addTool (filter (fun tool => HasPrefix tool (clientName +:+ "-") = true) vkTools) pruned
       | None => if isMCPToolAllowedByVKWith vk pattern allowAllClients then addTool pruned pattern else pruned
       end.

Definition pruneTools (vk : VirtualKey F) (allowAllClients : gmap string string) (requested : list string) : list string :=
  fold_left (pruneStep vk allowAllClients) requested [].

(** Nothing is written when the caller gave no list. *)
Definition pruneMCPIncludeToolsFromContext (ctx : BifrostContext) (vk : VirtualKey F) (allowAllClients : gmap string string) :
    bool * list CtxOp :=
  match value ctx KeyMCPIncludeTools with
  | VNil => (false, [])
  | v =>
      let requested := match v with VStrings l => l | _ => [] end in
      (true, [OpSet KeyMCPIncludeTools (VStrings (pruneTools vk allowAllClients requested))])
  end.

(** What the client manager offers of the tools of a client
    (src/core/mcp/utils.go); [toolName] carries the prefix of its client. *)
Definition shouldSkipToolForRequest (includeTools : Value) (clientName toolName : string) : bool :=
  match includeTools with
  | VStrings l => negb (bool_decide (clientName +:+ "-*" ∈ l) || bool_decide (toolName ∈ l))
  | _ => false
  end.

(** How [PreRequestHook] settles the list of tools for a virtual key. *)
Definition stampIncludeTools (ctx : BifrostContext) (vk : VirtualKey F) (allowAllClients : gmap string string)
    (disableAutoToolInject : option bool) : list CtxOp :=
  let '(includeToolsProvided, ops) := pruneMCPIncludeToolsFromContext ctx vk allowAllClients in
  let autoInjectDisabled := default false disableAutoToolInject in
  let includeClientsPresent := match value ctx KeyMCPIncludeClients with VNil => false | _ => true end in
  if negb includeToolsProvided && (negb autoInjectDisabled || includeClientsPresent)
  then ops ++ [OpSet KeyMCPIncludeTools (VStrings (computeMCPIncludeToolsWith vk allowAllClients))]
  else ops.
End Tools.

(** ** Evaluation (resolver.go) *)

(** The checks of an evaluation, in the order of the code. *)
Inductive Check :=
| ProviderRate | ProviderBudget | ModelRate | ModelBudget
| KeyExpiry | KeyRate | KeyBudget | KeyModelRate | KeyModelBudget
| CustomerRate | CustomerBudget | TeamRate | TeamBudget
| UserRate | UserBudget | UserModelRate | UserModelBudget.

Record EvaluationRequest := mkEvaluation { ev_VirtualKey : string; ev_Provider : string; ev_Model : string; ev_UserID : string }.

(** A check that fails comes with an error. *)
Definition refused (d : Decision) : bool := negb (bool_decide (d = DecisionAllow)).

Section Resolver.
Variable fraction : Z -> Z -> Z -> Z.
Context {F : Type} `{Amount F}.
Variable GetBaseModelName : option (string -> string).
Variable iter : forall A : Type, gmap string A -> list (string * A).
Variable reason : Check -> Decision -> string.
(** [IsModelAllowedForProvider] of the model catalogue over the configured
    providers, when the plugin has both. *)
Variable catalog : option (string -> string -> WhiteList.t -> bool).

Local Abbreviation TableBudget := (@TableBudget F).
Local Abbreviation VirtualKey := (VirtualKey F).
Local Abbreviation Store := (@Store F).
Local Abbreviation configsFor := (collectModelConfigsFor GetBaseModelName).

Record EvaluationResult := mkResult {
  res_Decision : Decision;
  res_Reason : string;
  res_VirtualKey : option VirtualKey;
  res_RateLimitInfo : option TableRateLimit;
  res_BudgetInfo : list TableBudget }.

Definition plain (d : Decision) (text : string) : EvaluationResult := mkResult d text None None [].

Definition populateBudgetInfo (r : EvaluationResult) (source : list TableBudget) : EvaluationResult :=
  mkResult (res_Decision r) (res_Reason r) (res_VirtualKey r) (res_RateLimitInfo r) (addRows (res_BudgetInfo r) source).

Definition modelConfigBudgetInfo (gs : Store) (scope scopeID model provider : string) (r : EvaluationResult) : EvaluationResult :=
  populateBudgetInfo r (CollectBudgetsForModelConfigs gs (configsFor gs scope scopeID model (providerStr provider))).

Definition attachGlobalBudgetInfo (gs : Store) (provider model : string) (r : EvaluationResult) : EvaluationResult :=
  modelConfigBudgetInfo gs ModelConfigScopeGlobal "" model provider r.

Definition attachScopedModelBudgetInfo (gs : Store) (request : EvaluationRequest) (scope scopeID : string) (r : EvaluationResult) :
    EvaluationResult :=
  if bool_decide (ev_Model request = "") then r else modelConfigBudgetInfo gs scope scopeID (ev_Model request) (ev_Provider request) r.

(** The first check that applies and fails, with its decision. *)
Fixpoint firstRefused (checks : list (bool * Check * Decision)) : option (Check * Decision) :=
  match checks with
  | [] => None
  | (applies, c, d) :: checks => if applies && refused d then Some (c, d) else firstRefused checks
  end.

(** A run of checks ends in the first refusal, or in the given result. *)
Definition runChecks (checks : list (bool * Check * Decision)) (finish : EvaluationResult -> EvaluationResult) (allowed : string) :
    EvaluationResult :=
  match firstRefused checks with
  | Some (c, d) => finish (plain d (reason c d))
  | None => finish (plain DecisionAllow allowed)
  end.

Definition EvaluateModelAndProviderRequest (gs : Store) (now : Check -> Time) (provider model : string) : EvaluationResult :=
  let hasProvider := negb (bool_decide (provider = "")) in
  let hasModel := negb (bool_decide (model = "")) in
  runChecks
    [(hasProvider, ProviderRate, CheckProviderRateLimit fraction iter gs provider ∅ ∅ (now ProviderRate));
     (hasProvider, ProviderBudget, CheckProviderBudget fraction iter gs provider ∅ (now ProviderBudget));
     (hasModel, ModelRate, CheckModelRateLimit fraction GetBaseModelName iter gs model provider ∅ ∅ (now ModelRate));
     (hasModel, ModelBudget, CheckModelBudget fraction GetBaseModelName iter gs model provider ∅ (now ModelBudget))]
    (attachGlobalBudgetInfo gs provider model)
    "Request allowed by governance policy (provider-level and model-level checks passed)".

Definition EvaluateCustomerRequest (gs : Store) (now : Check -> Time) (customerID : string) : EvaluationResult :=
  if bool_decide (customerID = "") then plain DecisionAllow "No customer ID provided, skipping customer-level checks"
  else runChecks
    [(true, CustomerRate, CheckCustomerRateLimit fraction iter gs customerID ∅ ∅ (now CustomerRate));
     (true, CustomerBudget, CheckCustomerBudget fraction iter gs customerID ∅ (now CustomerBudget))]
    (fun r => populateBudgetInfo r (CollectCustomerBudgets gs customerID))
    "Customer-level checks passed".

Definition EvaluateTeamRequest (gs : Store) (now : Check -> Time) (teamID : string) : EvaluationResult :=
  if bool_decide (teamID = "") then plain DecisionAllow "No team ID provided, skipping team-level checks"
  else runChecks
    [(true, TeamRate, CheckTeamRateLimit fraction iter gs teamID ∅ ∅ (now TeamRate));
     (true, TeamBudget, CheckTeamBudget fraction iter gs teamID ∅ (now TeamBudget))]
    (fun r => populateBudgetInfo r (CollectTeamBudgets gs teamID))
    "Team-level checks passed".

Definition EvaluateUserRequest (gs : Store) (now : Check -> Time) (userID : string) (request : EvaluationRequest) : EvaluationResult :=
  if bool_decide (userID = "") then plain DecisionAllow "No user ID provided, skipping user-level checks"
  else
    let hasModel := negb (bool_decide (ev_Model request = "")) in
    runChecks
      [(true, UserRate, CheckUserRateLimit gs userID);
       (true, UserBudget, CheckUserBudget gs userID);
       (hasModel, UserModelRate, CheckScopedModelRateLimit fraction GetBaseModelName iter gs ModelConfigScopeUser userID
          (ev_Model request) (ev_Provider request) ∅ ∅ (now UserModelRate));
       (hasModel, UserModelBudget, CheckScopedModelBudget fraction GetBaseModelName iter gs ModelConfigScopeUser userID
          (ev_Model request) (ev_Provider request) ∅ (now UserModelBudget))]
      (attachScopedModelBudgetInfo gs request ModelConfigScopeUser userID)
      "User-level checks passed".

(** ** The virtual key *)

Definition isProviderAllowed (vk : VirtualKey) (provider : string) : bool :=
  existsb (fun pc => bool_decide (pc_Provider pc = provider)) (vk_ProviderConfigs vk).

(** The policy of the embedded team of the key. *)
Definition teamPolicyOf (gs : Store) (vk : VirtualKey) (provider : string) : option TeamModelPolicy :=
  match vk_Team vk with
  | Some team => if bool_decide (tm_ID team = "") then None else GetTeamModelPolicy gs (tm_ID team) provider
  | None => None
  end.

Definition vkAllows (pc : ProviderConfig F) (provider model : string) : bool :=
  match catalog with
  | Some IsModelAllowedForProvider => IsModelAllowedForProvider provider model (pc_AllowedModels pc)
  | None => WhiteList.IsAllowed (pc_AllowedModels pc) model
  end.

Definition isModelAllowed (gs : Store) (vk : VirtualKey) (provider model : string) : bool :=
  let teamPolicy := teamPolicyOf gs vk provider in
  let matching := filter (fun pc => pc_Provider pc = provider) (vk_ProviderConfigs vk) in
  if match teamPolicy with Some p => BlackList.IsBlocked (BlacklistedModels p) model | None => false end then false
  else if existsb (fun pc => BlackList.IsBlocked (pc_BlacklistedModels pc) model) matching then false
  else existsb (fun pc => vkAllows pc provider model && TeamPolicyAllowsModel teamPolicy model) matching.

Definition loadOpt (gs : Store) (id : option string) : option TableRateLimit := id ← id; LoadRateLimit gs id.

(** The rate limit shown with a refusal: that of the provider, else that of the key. *)
Definition rateLimitInfo (gs : Store) (vk : VirtualKey) (provider : string) : option TableRateLimit :=
  let pcs := filter (fun pc => pc_Provider pc = provider /\ is_Some (pc_RateLimitID pc)) (vk_ProviderConfigs vk) in
  match loadOpt gs (pc ← head pcs; pc_RateLimitID pc) with
  | Some r => Some r
  | None => loadOpt gs (vk_RateLimitID vk)
  end.

Definition withKey (r : EvaluationResult) (vk : VirtualKey) : EvaluationResult :=
  mkResult (res_Decision r) (res_Reason r) (Some vk) (res_RateLimitInfo r) (res_BudgetInfo r).

Definition withRateLimit (r : EvaluationResult) (info : option TableRateLimit) : EvaluationResult :=
  mkResult (res_Decision r) (res_Reason r) (res_VirtualKey r) info (res_BudgetInfo r).

(** The attributes of the key on the context. *)
Definition stampKey (vk : VirtualKey) : list CtxOp :=
  [OpSet KeyGovernanceVirtualKeyID (VString (vk_ID vk)); OpSet KeyGovernanceVirtualKeyName (VString (vk_Name vk))] ++
  match vk_Team vk with
  | Some team =>
      [OpSet KeyGovernanceTeamID (VString (tm_ID team)); OpSet KeyGovernanceTeamName (VString (tm_Name team))] ++
      match tm_Customer team with
      | Some c => [OpSet KeyGovernanceCustomerID (VString (cu_ID c)); OpSet KeyGovernanceCustomerName (VString (cu_Name c))]
      | None => []
      end
  | None => []
  end ++
  match vk_Customer vk with
  | Some c => [OpSet KeyGovernanceCustomerID (VString (cu_ID c)); OpSet KeyGovernanceCustomerName (VString (cu_Name c))]
  | None => []
  end.

(** The provider keys the request may use, from the first configuration of its provider. *)
Definition includeOnlyKeys (vk : VirtualKey) (provider : string) : list CtxOp :=
  match head (filter (fun pc => pc_Provider pc = provider) (vk_ProviderConfigs vk)) with
  | Some pc => if pc_AllowAllKeys pc then [] else [OpSet KeyGovernanceIncludeOnlyKeys (VStrings (pc_Keys pc))]
  | None => []
  end.

(** The limits of the key, with the result of the first one that fails. *)
Definition keyLimits (gs : Store) (now : Check -> Time) (vk : VirtualKey) (provider model : string) : option EvaluationResult :=
  let hasModel := negb (bool_decide (model = "")) in
  match firstRefused
    [(true, KeyRate, CheckVirtualKeyRateLimit fraction iter gs vk provider ∅ ∅ (now KeyRate));
     (true, KeyBudget, CheckVirtualKeyBudget fraction iter gs vk provider ∅ (now KeyBudget));
     (hasModel, KeyModelRate, CheckScopedModelRateLimit fraction GetBaseModelName iter gs ModelConfigScopeVirtualKey (vk_ID vk)
        model provider ∅ ∅ (now KeyModelRate));
     (hasModel, KeyModelBudget, CheckScopedModelBudget fraction GetBaseModelName iter gs ModelConfigScopeVirtualKey (vk_ID vk)
        model provider ∅ (now KeyModelBudget))] with
  | None => None
  | Some (c, d) =>
      let r := withKey (plain d (reason c d)) vk in
      Some match c with
           | KeyRate => populateBudgetInfo (withRateLimit r (rateLimitInfo gs vk provider)) (CollectBudgetsForVK iter gs vk provider)
           | KeyBudget => populateBudgetInfo r (CollectBudgetsForVK iter gs vk provider)
           | _ => modelConfigBudgetInfo gs ModelConfigScopeVirtualKey (vk_ID vk) model provider r
           end
  end.

Definition EvaluateVirtualKeyRequest (gs : Store) (now : Check -> Time) (virtualKeyValue provider model : string)
    (requestType : RequestType) (skipRateLimitsAndBudgets : bool) : EvaluationResult * list CtxOp :=
  match GetVirtualKey gs virtualKeyValue with
  | None => (plain DecisionVirtualKeyNotFound "Virtual key not found", [])
  | Some vk =>
      let stamp := stampKey vk in
      if negb (IsActiveValue vk) then (plain DecisionVirtualKeyBlocked "Virtual key is inactive", stamp)
      else if IsExpiredAt vk (now KeyExpiry) then (plain DecisionVirtualKeyBlocked "Virtual key has expired", stamp)
      else if negb (bool_decide (requestType = MCPToolExecutionRequest)) && negb (bool_decide (requestType = ListModelsRequest)) &&
              negb (isProviderAllowed vk provider) then
        (withKey (plain DecisionProviderBlocked ("Provider '" +:+ provider +:+ "' is not allowed for this virtual key")) vk, stamp)
      else if (IsModelRequiredForRequest requestType || (isPassthrough requestType && negb (bool_decide (model = "")))) &&
              negb (isModelAllowed gs vk provider model) then
        (withKey (plain DecisionModelBlocked ("Model '" +:+ model +:+ "' is not allowed for this virtual key")) vk, stamp)
      else
        match if skipRateLimitsAndBudgets then None else keyLimits gs now vk provider model with
        | Some r => (r, stamp)
        | None =>
            (populateBudgetInfo (withKey (plain DecisionAllow "Request allowed by governance policy") vk)
               (CollectBudgetsForVK iter gs vk provider),
             stamp ++ includeOnlyKeys vk provider)
        end
  end.

(** ** The whole evaluation (main.go) *)

(** The configuration of the plugin it reads. *)
Record GovernancePlugin := mkGovernancePlugin {
  isVkMandatory : option bool;
  requiredHeaders : option (list string);
  allowAllClients : gmap string string }.

Definition denial (type : string) (status : option Z) (message : string) : BifrostError :=
  mkError (Some type) false status (Some (mkErrorField None None message None)) None emptyExtra.

Definition statusOf (d : Decision) : option Z :=
  match d with
  | DecisionAllow => None
  | DecisionVirtualKeyNotFound | DecisionVirtualKeyBlocked | DecisionModelBlocked | DecisionProviderBlocked
  | DecisionMCPToolBlocked => Some 403
  | DecisionRateLimited | DecisionTokenLimited | DecisionRequestLimited => Some 429
  | DecisionBudgetExceeded => Some 402
  end.

(** The rows of the earlier step follow those of the later one. *)
Definition mergeBudgetInfo (prior next : EvaluationResult) : EvaluationResult := populateBudgetInfo next (res_BudgetInfo prior).

Definition stringValue (ctx : BifrostContext) (k : string) : string := match value ctx k with VString s => s | _ => "" end.

Definition hasDirectKeyAuth (ctx : BifrostContext) : bool := match value ctx KeyDirectKey with VKey _ => true | _ => false end.

(** The IDs of the owners whose limits are checked: the foreign key, else the embedded row. *)
Definition customerIDOf (vk : VirtualKey) : string :=
  match vk_CustomerID vk, vk_Customer vk, vk_Team vk with
  | Some id, _, _ => id
  | None, Some c, _ => cu_ID c
  | None, None, Some team =>
      match tm_CustomerID team, tm_Customer team with
      | Some id, _ => id
      | None, Some c => cu_ID c
      | None, None => ""
      end
  | None, None, None => ""
  end.

Definition teamIDOf (vk : VirtualKey) : string :=
  match vk_TeamID vk, vk_Team vk with
  | Some id, _ => id
  | None, Some team => tm_ID team
  | None, None => ""
  end.

(** A later step runs when the result so far allows the request. *)
Definition andThen (applies : bool) (r : EvaluationResult) (step : EvaluationResult) : EvaluationResult :=
  if applies && bool_decide (res_Decision r = DecisionAllow) then mergeBudgetInfo r step else r.

(** The tools injected into the request against the key of the result. *)
Definition checkAddedTools (pl : GovernancePlugin) (ctx : BifrostContext) (r : EvaluationResult) : EvaluationResult :=
  match res_VirtualKey r with
  | Some vk =>
      let addedTools := match value ctx KeyMCPAddedTools with VStrings l => l | _ => [] end in
      match filter (fun tool => isMCPToolAllowedByVKWith iter vk tool (allowAllClients pl) = false) addedTools with
      | [] => r
      | disallowed =>
          if bool_decide (res_Decision r = DecisionAllow)
          then withKey (plain DecisionMCPToolBlocked
                 ("MCP tools not allowed for virtual key '" +:+ vk_Name vk +:+ "': " +:+ String.concat ", " disallowed)) vk
          else r
      end
  | None => r
  end.

(** The steps up to the decision. *)
Definition decideRequest (gs : Store) (pl : GovernancePlugin) (ctx : BifrostContext) (now : Check -> Time)
    (request : EvaluationRequest) (requestType : RequestType) : EvaluationResult * list CtxOp :=
  let provider := ev_Provider request in
  let model := ev_Model request in
  let hasKey := negb (bool_decide (ev_VirtualKey request = "")) in
  let skip := boolValue ctx KeySkipBudgetAndRateLimits in
  let r := if skip then plain DecisionAllow "Provider-level and model-level checks skipped for read-only request"
           else EvaluateModelAndProviderRequest gs now provider model in
  let hierarchyVK := if hasKey then GetVirtualKey gs (ev_VirtualKey request) else None in
  let skipKeyLimits := negb (bool_decide (ev_UserID request = "")) || skip in
  let onKey := hasKey && bool_decide (res_Decision r = DecisionAllow) in
  let key := EvaluateVirtualKeyRequest gs now (ev_VirtualKey request) provider model requestType skipKeyLimits in
  let r := andThen hasKey r key.1 in
  let customerID := match hierarchyVK with Some vk => customerIDOf vk | None => "" end in
  let r := andThen (negb skip && negb (bool_decide (customerID = ""))) r (EvaluateCustomerRequest gs now customerID) in
  let teamID := match hierarchyVK with Some vk => teamIDOf vk | None => "" end in
  let r := andThen (negb skip && negb (bool_decide (teamID = ""))) r (EvaluateTeamRequest gs now teamID) in
  let r := andThen (negb skip) r (EvaluateUserRequest gs now (ev_UserID request) request) in
  (checkAddedTools pl ctx r, if onKey then key.2 else []).

Definition EvaluateGovernanceRequest (gs : Store) (pl : GovernancePlugin) (ctx : BifrostContext) (now : Check -> Time)
    (request : EvaluationRequest) (requestType : RequestType) : option EvaluationResult * option BifrostError * list CtxOp :=
  let hasKey := negb (bool_decide (ev_VirtualKey request = "")) in
  let isVirtualKeyValid := hasKey && bool_decide (is_Some (GetVirtualKey gs (ev_VirtualKey request))) in
  if hasKey && negb isVirtualKeyValid then
    (None, Some (denial "virtual_key_not_found" (Some 401)
       "virtual key not found. The provided virtual key does not exist or has been revoked."), [])
  else if negb isVirtualKeyValid && negb (hasDirectKeyAuth ctx) && bool_decide (ev_UserID request = "") &&
          bool_decide (isVkMandatory pl = Some true) then
    (None, Some (denial "virtual_key_required" (Some 401)
       "virtual key is required. Provide a virtual key via the x-bf-vk header."), [])
  else
    let '(r, ops) := decideRequest gs pl ctx now request requestType in
    let d := res_Decision r in
    if bool_decide (d = DecisionAllow) then (Some r, None, ops ++ [OpClear governanceRejectedContextKey])
    else
      let mark := match value ctx governanceRejectedContextKey with
                  | VBool _ => []
                  | _ => [OpSet governanceRejectedContextKey (VBool true)]
                  end in
      (Some r, Some (denial (decisionText d) (statusOf d) (res_Reason r)), ops ++ mark).

(** ** Hooks *)

(** The names the header map of the request has, already lowercased. *)
Definition validateRequiredHeaders (pl : GovernancePlugin) (ctx : BifrostContext) : option BifrostError :=
  match requiredHeaders pl with
  | None | Some [] => None
  | Some required =>
      let headers := match value ctx KeyRequestHeaders with VStrings names => names | _ => [] end in
      match filter (fun h => ToLower h ∉ headers) required with
      | [] => None
      | missing => Some (denial "missing_required_headers" (Some 400) ("missing required headers: " +:+ String.concat ", " missing))
      end
  end.

Definition rejectWith (e : BifrostError) : LLMPluginShortCircuit := mkShort None (Some e) false.

Definition PreLLMHook {B} (gs : Store) (pl : GovernancePlugin) (now : Check -> Time) (ctx : BifrostContext) (req : BifrostRequest B) :
    option LLMPluginShortCircuit * list CtxOp :=
  match validateRequiredHeaders pl ctx with
  | Some e => (Some (rejectWith e), [])
  | None =>
      let '(provider, model, _) := GetRequestFields req in
      let request := mkEvaluation (stringValue ctx KeyVirtualKey) provider model "" in
      let '(_, err, ops) := EvaluateGovernanceRequest gs pl ctx now request (br_RequestType req) in
      (rejectWith <$> err, ops)
  end.

(** What a tool execution is refused with, if it is; [isCodemodeTool] names the
    tools of code mode.  [later] is the clock of the second check of the key. *)
Definition PreMCPHook (gs : Store) (pl : GovernancePlugin) (now : Check -> Time) (later : Time) (isCodemodeTool : string -> bool)
    (ctx : BifrostContext) (isExecuteTool : bool) (toolName : string) : option BifrostError * list CtxOp :=
  if negb isExecuteTool || isCodemodeTool toolName then (None, [])
  else
    match validateRequiredHeaders pl ctx with
    | Some e => (Some e, [])
    | None =>
        let virtualKeyValue := stringValue ctx KeyVirtualKey in
        let request := mkEvaluation virtualKeyValue "" "" "" in
        match EvaluateGovernanceRequest gs pl ctx now request MCPToolExecutionRequest with
        | (_, Some e, ops) => (Some e, ops)
        | (_, None, ops) =>
            let reject d message :=
              (Some (denial (decisionText d) (Some 403) message), ops ++ [OpSet governanceRejectedContextKey (VBool true)]) in
            if bool_decide (virtualKeyValue = "") then (None, ops)
            else match GetVirtualKey gs virtualKeyValue with
                 | None => reject DecisionVirtualKeyNotFound "Virtual key not found"
                 | Some vk =>
                     if negb (IsActiveValue vk) then reject DecisionVirtualKeyBlocked "Virtual key is inactive"
                     else if IsExpiredAt vk later then reject DecisionVirtualKeyBlocked "Virtual key has expired"
                     else if negb (isMCPToolAllowedByVKWith iter vk toolName (allowAllClients pl)) then
                       reject DecisionMCPToolBlocked
                         ("MCP tool '" +:+ toolName +:+ "' is not allowed for virtual key '" +:+ vk_Name vk +:+ "'")
                     else (None, ops)
                 end
        end
    end.

End Resolver.
End GovResolver.
