(* ===== verification/GovResolverTheory.v ===== *)
(** * What the governance evaluation promises

    A request is admitted exactly when its key is valid for it and every limit
    that applies to it has room; a list of tools that a caller gives is narrowed
    to the tools of its key. *)

From S2P Require Import Prelude GoStrings Schemas Request Context Pipeline Calendar Windows GovStore GovPolicy GovPolicyTheory GovResolver.

Local Open Scope string_scope.
Local Open Scope Z_scope.
Local Open Scope list_scope.

Module GovResolverTheory.
Import Schemas Request Context Pipeline Calendar Windows GovStore GovPolicy GovPolicyTheory GovResolver.

Section Resolver.
Variable fraction : Z -> Z -> Z -> Z.
Context {F : Type} `{Amount F}.
Variable GetBaseModelName : option (string -> string).
Variable iter : forall A : Type, gmap string A -> list (string * A).
Hypothesis iter_range : forall A m, iter A m ≡ₚ map_to_list m.
Variable reason : Check -> Decision -> string.
Variable catalog : option (string -> string -> WhiteList.t -> bool).

Local Abbreviation TableBudget := (@TableBudget F).
Local Abbreviation VirtualKey := (VirtualKey F).
Local Abbreviation Store := (@Store F).
Local Abbreviation EvaluationResult := (@EvaluationResult F).
Local Abbreviation configs := (collectModelConfigsFor GetBaseModelName).

(** ** The limits that apply to a request *)

Definition providerHolders (gs : Store) (provider : string) : list Holder :=
  (fun p => (option_list (p_BudgetID p), p_RateLimitID p)) <$> option_list (providers gs !! provider).

Definition configHolders (gs : Store) (scope scopeID model provider : string) : list Holder :=
  configHolder <$> configs gs scope scopeID model (providerStr provider).

(** Those of them whose limits are looked at: a configuration that a later tier
    with limits hides under its entity name counts for nothing. *)
Definition countedHolders (gs : Store) (scope scopeID model provider : string) : list Holder :=
  countingHolders gs (configs gs scope scopeID model (providerStr provider)).

Definition unless {A} (s : string) (l : list A) : list A := if bool_decide (s = "") then [] else l.

Definition at_ (rate budget : Check) (l : list Holder) : list (Check * Check * Holder) := (fun h => (rate, budget, h)) <$> l.

(** Every owner of limits, with the checks that look at it. *)
Definition holders (gs : Store) (request : EvaluationRequest) : list (Check * Check * Holder) :=
  let provider := ev_Provider request in
  let model := ev_Model request in
  let user := ev_UserID request in
  unless provider (at_ ProviderRate ProviderBudget (providerHolders gs provider)) ++
  unless model (at_ ModelRate ModelBudget (countedHolders gs ModelConfigScopeGlobal "" model provider)) ++
  match (if bool_decide (ev_VirtualKey request = "") then None else GetVirtualKey gs (ev_VirtualKey request)) with
  | Some vk =>
      (if bool_decide (user = "") then
         at_ KeyRate KeyBudget (keyHolders gs vk provider) ++
         unless model (unless (vk_ID vk) (at_ KeyModelRate KeyModelBudget (countedHolders gs ModelConfigScopeVirtualKey (vk_ID vk) model provider)))
       else []) ++
      unless (customerIDOf vk) (at_ CustomerRate CustomerBudget (customerHolder <$> option_list (customers gs !! customerIDOf vk))) ++
      unless (teamIDOf vk) (at_ TeamRate TeamBudget (teamHolder <$> option_list (teams gs !! teamIDOf vk)))
  | None => []
  end ++
  unless user (unless model (at_ UserModelRate UserModelBudget (countedHolders gs ModelConfigScopeUser user model provider))).

(** A budget has room when its window is over, or its usage is below its
    effective limit. *)
Definition WindowOver (b : TableBudget) (now : Time) : Prop :=
  ResetDuration b <> "" /\
  ((b_IsCalendarAligned b = true /\ IsCalendarAlignableDuration (ResetDuration b) = true) \/
   exists d, ParseDuration fraction (ResetDuration b) = Some d /\ 0 < d) /\
  LastReset b < WindowStart fraction b now.

Definition BudgetHasRoom (b : TableBudget) (now : Time) : Prop :=
  WindowOver b now \/ leAmount (EffectiveMaxLimit b) (addAmount (CurrentUsage b) zeroAmount) = false.

(** A counter has room when its window is over, when it has no limit, or when
    its usage is below it; a rate limit when both of its counters have. *)
Definition CounterHasRoom (c : Counter) (now : Time) : Prop :=
  (exists s d, c_ResetDuration c = Some s /\ ParseDuration fraction s = Some d /\ d <= Sub now (c_LastReset c)) \/
  forall n, c_MaxLimit c = Some n -> wrap64 (c_CurrentUsage c) < n.

Definition RateLimitHasRoom (r : TableRateLimit) (now : Time) : Prop :=
  CounterHasRoom (Token r) now /\ CounterHasRoom (Request r) now.

Definition budgetsAdmit (gs : Store) (now : Time) (h : Holder) : Prop :=
  forall b, holdsBudget gs h b -> BudgetHasRoom b now.

Definition ratesAdmit (gs : Store) (now : Time) (h : Holder) : Prop :=
  forall r, holdsRateLimit gs h r -> RateLimitHasRoom r now.

(** The code's decisions say exactly that. *)
Lemma windowOver_target (b : TableBudget) now : is_Some (budgetResetTarget fraction b now) <-> WindowOver b now.
Proof.
  unfold budgetResetTarget, WindowOver. case_bool_decide as He; [split; [by intros []|by intros []]|]. cbv zeta.
  destruct (b_IsCalendarAligned b && IsCalendarAlignableDuration (ResetDuration b)) eqn:Ec.
  - apply andb_true_iff in Ec as [-> ->]. cbn [negb orb].
    destruct (LastReset b <? WindowStart fraction b now) eqn:El; [apply Z.ltb_lt in El|apply Z.ltb_ge in El];
      split; [naive_solver|by eexists|by intros []|intros (_ & _ & ?); lia].
  - assert (negb (b_IsCalendarAligned b) || negb (IsCalendarAlignableDuration (ResetDuration b)) = true) as ->
      by (rewrite <-negb_andb, Ec; done).
    assert (~ (b_IsCalendarAligned b = true /\ IsCalendarAlignableDuration (ResetDuration b) = true)) as Hn.
    { intros [E1 E2]. by rewrite E1, E2 in Ec. }
    destruct (ParseDuration fraction (ResetDuration b)) as [d|]; [|split; [by intros []|naive_solver]].
    destruct (Z.leb_spec d 0); cbn [negb]; [split; [by intros []|intros (_ & [?|(d' & [= <-] & ?)] & _); [done|lia]]|].
    destruct (LastReset b <? WindowStart fraction b now) eqn:El; [apply Z.ltb_lt in El|apply Z.ltb_ge in El];
      split; [intros _; split_and!; eauto|by eexists|by intros []|intros (_ & _ & ?); lia].
Qed.

Lemma budgetDecision_room (b : TableBudget) now : budgetDecision fraction b ∅ now = DecisionAllow <-> BudgetHasRoom b now.
Proof.
  unfold budgetDecision, BudgetHasRoom. rewrite <-windowOver_target, lookup_empty. cbn [default].
  destruct (budgetResetTarget fraction b now); [naive_solver|].
  destruct (leAmount _ _); split; try done; [by intros [[]|]|by right].
Qed.

Lemma limitViolated_room (c : Counter) now : limitViolated fraction c 0 now = false <-> CounterHasRoom c now.
Proof.
  unfold limitViolated, CounterHasRoom. rewrite Z.add_0_r.
  transitivity (limitExpired fraction c now = true \/ forall n, c_MaxLimit c = Some n -> wrap64 (c_CurrentUsage c) < n).
  - destruct (limitExpired fraction c now); cbn [negb andb]; [naive_solver|].
    destruct (c_MaxLimit c) as [n|]; [|naive_solver]. destruct (Z.leb_spec n (wrap64 (c_CurrentUsage c))).
    + split; [done|]. intros [?|Hn]; [done|]. specialize (Hn n eq_refl). lia.
    + split; [|done]. intros _. right. intros n' [= <-]. lia.
  - f_equiv. unfold limitExpired. destruct (c_ResetDuration c) as [s|]; [|naive_solver].
    destruct (ParseDuration fraction s) as [d|] eqn:E; [rewrite Z.leb_le|]; split; try done.
    + intros Hd. exists s, d. done.
    + by intros (? & ? & [= <-] & [= <-]%(eq_trans (eq_sym E)) & ?).
    + intros (? & ? & [= <-] & ? & ?). congruence.
Qed.

Lemma rateLimitDecision_room (r : TableRateLimit) now :
  rateLimitDecision fraction r ∅ ∅ now = DecisionAllow <-> RateLimitHasRoom r now.
Proof.
  unfold rateLimitDecision, RateLimitHasRoom. rewrite !lookup_empty, <-!limitViolated_room. cbn [default].
  destruct (limitViolated _ (Token r) _ _), (limitViolated _ (Request r) _ _); repeat case_match; naive_solver.
Qed.

Definition Admits (gs : Store) (now : Check -> Time) (x : Check * Check * Holder) : Prop :=
  let '(rate, budget, h) := x in ratesAdmit gs (now rate) h /\ budgetsAdmit gs (now budget) h.

(** Every limit has room at the instant it is looked at. *)
Definition WithinLimits (gs : Store) (now : Check -> Time) (request : EvaluationRequest) : Prop :=
  Forall (Admits gs now) (holders gs request).

(** ** Validity of the key *)

Definition providerExempt (requestType : RequestType) : Prop := requestType = MCPToolExecutionRequest \/ requestType = ListModelsRequest.

Definition modelChecked (requestType : RequestType) (model : string) : Prop :=
  IsModelRequiredForRequest requestType = true \/ (isPassthrough requestType = true /\ model <> "").

Definition KeyAdmits (gs : Store) (now : Time) (request : EvaluationRequest) (requestType : RequestType) (vk : VirtualKey) : Prop :=
  IsActiveValue vk = true /\ IsExpiredAt vk now = false /\
  (providerExempt requestType \/ isProviderAllowed vk (ev_Provider request) = true) /\
  (modelChecked requestType (ev_Model request) -> isModelAllowed catalog gs vk (ev_Provider request) (ev_Model request) = true).

(** ** Runs of checks *)

Lemma firstRefused_none (checks : list (bool * Check * Decision)) :
  firstRefused checks = None <-> Forall (fun x => x.1.1 = true -> x.2 = DecisionAllow) checks.
Proof.
  induction checks as [|[[a c] d] l IH]; cbn; [done|]. rewrite Forall_cons, <-IH. unfold refused. cbn.
  destruct a, (decide (d = DecisionAllow)) as [->|Hd]; cbn; try (rewrite bool_decide_false by done); cbn; naive_solver.
Qed.

Lemma firstRefused_refused (checks : list (bool * Check * Decision)) c d : firstRefused checks = Some (c, d) -> d <> DecisionAllow.
Proof.
  induction checks as [|[[a c'] d'] l IH]; cbn; [done|]. destruct (a && refused d') eqn:E; [|done].
  intros [= <- <-]. apply andb_true_iff in E as [_ E]. unfold refused in E. by case_bool_decide.
Qed.

Lemma runChecks_allow checks (finish : EvaluationResult -> EvaluationResult) text :
  (forall r, res_Decision (finish r) = res_Decision r) ->
  res_Decision (runChecks reason checks finish text) = DecisionAllow <-> Forall (fun x => x.1.1 = true -> x.2 = DecisionAllow) checks.
Proof.
  intros Hf. unfold runChecks. rewrite <-firstRefused_none. destruct (firstRefused checks) as [[c d]|] eqn:E; rewrite Hf; cbn; [|done].
  apply firstRefused_refused in E. naive_solver.
Qed.

Lemma andThen_allow a (r s : EvaluationResult) :
  res_Decision (andThen a r s) = DecisionAllow <-> res_Decision r = DecisionAllow /\ (a = true -> res_Decision s = DecisionAllow).
Proof. unfold andThen. destruct a; cbn; [|naive_solver]. case_bool_decide; cbn; naive_solver. Qed.

Lemma andThen_key a (r s : EvaluationResult) :
  res_VirtualKey (andThen a r s) = if a && bool_decide (res_Decision r = DecisionAllow) then res_VirtualKey s else res_VirtualKey r.
Proof. unfold andThen. by destruct (a && _). Qed.

(** ** Each check looks at the rows of its holders *)

Local Abbreviation CheckBudget_allow := (CheckBudget_allow fraction iter iter_range).
Local Abbreviation CheckRateLimit_allow := (CheckRateLimit_allow fraction iter iter_range).

Definition allBudgets (gs : Store) (now : Time) (l : list Holder) : Prop := forall h, h ∈ l -> budgetsAdmit gs now h.
Definition allRates (gs : Store) (now : Time) (l : list Holder) : Prop := forall h, h ∈ l -> ratesAdmit gs now h.

(** A check of the rows of some holders. *)
Lemma budgets_checked (gs : Store) now m l :
  (forall b, InMap m b <-> exists h, h ∈ l /\ holdsBudget gs h b) ->
  GovPolicy.CheckBudget fraction iter m ∅ now = DecisionAllow <-> allBudgets gs now l.
Proof. intros Hm. rewrite CheckBudget_allow. setoid_rewrite Hm. setoid_rewrite budgetDecision_room. unfold allBudgets, budgetsAdmit. naive_solver. Qed.

Lemma rates_checked (gs : Store) now m l :
  (forall r, InMap m r <-> exists h, h ∈ l /\ holdsRateLimit gs h r) ->
  GovPolicy.CheckRateLimit fraction iter m ∅ ∅ now = DecisionAllow <-> allRates gs now l.
Proof. intros Hm. rewrite CheckRateLimit_allow. setoid_rewrite Hm. setoid_rewrite rateLimitDecision_room. unfold allRates, ratesAdmit. naive_solver. Qed.

Lemma list_budgets_checked (gs : Store) now key ids rate l :
  (forall b, b ∈ l <-> holdsBudget gs (ids, rate) b) ->
  match l with [] => DecisionAllow | b :: l => GovPolicy.CheckBudget fraction iter {[key := b :: l]} ∅ now end = DecisionAllow <->
  allBudgets gs now [(ids, rate)].
Proof.
  intros Hl. transitivity (GovPolicy.CheckBudget fraction iter {[key := l]} ∅ now = DecisionAllow).
  - destruct l; [|done]. rewrite CheckBudget_allow. split; [|done]. intros _ b Hb%InMap_singleton. by apply elem_of_nil in Hb.
  - apply budgets_checked. intros b. rewrite InMap_singleton, Hl. setoid_rewrite list_elem_of_singleton. naive_solver.
Qed.

Lemma list_rates_checked (gs : Store) now key ids rate :
  match id ← rate; LoadRateLimit gs id with
  | Some r => GovPolicy.CheckRateLimit fraction iter {[key := [r]]} ∅ ∅ now
  | None => DecisionAllow
  end = DecisionAllow <-> allRates gs now [(ids, rate)].
Proof.
  unfold allRates, ratesAdmit, holdsRateLimit. setoid_rewrite list_elem_of_singleton.
  destruct rate as [id|]; cbn; [|naive_solver]. destruct (LoadRateLimit gs id) as [r|] eqn:E; [|naive_solver].
  rewrite CheckRateLimit_allow. setoid_rewrite rateLimitDecision_room. setoid_rewrite InMap_singleton. setoid_rewrite list_elem_of_singleton. naive_solver.
Qed.

Lemma omap_holds (gs : Store) ids rate b : b ∈ omap (LoadBudget gs) ids <-> holdsBudget gs (ids, rate) b.
Proof. unfold holdsBudget. by rewrite list_elem_of_omap. Qed.

Lemma provider_budgets (gs : Store) provider now :
  CheckProviderBudget fraction iter gs provider ∅ now = DecisionAllow <-> allBudgets gs now (providerHolders gs provider).
Proof.
  unfold CheckProviderBudget, providerHolders. destruct (providers gs !! provider) as [p|]; cbn;
    [|split; [|done]; intros _ h Hh; by apply elem_of_nil in Hh].
  rewrite <-(list_budgets_checked gs now provider _ _ (omap (LoadBudget gs) (option_list (p_BudgetID p)))) by (intros b; apply omap_holds).
  destruct (p_BudgetID p) as [id|]; cbn; [|done]. by destruct (LoadBudget gs id).
Qed.

Lemma provider_rates (gs : Store) provider now :
  CheckProviderRateLimit fraction iter gs provider ∅ ∅ now = DecisionAllow <-> allRates gs now (providerHolders gs provider).
Proof.
  unfold CheckProviderRateLimit, providerHolders. destruct (providers gs !! provider) as [p|]; cbn;
    [|split; [|done]; intros _ h Hh; by apply elem_of_nil in Hh].
  rewrite <-(list_rates_checked gs now provider). done.
Qed.

Lemma owner_budgets (gs : Store) key (o : option Holder) now :
  match match o with Some h => omap (LoadBudget gs) h.1 | None => [] end with
  | [] => DecisionAllow
  | b :: l => GovPolicy.CheckBudget fraction iter {[key := b :: l]} ∅ now
  end = DecisionAllow <-> allBudgets gs now (option_list o).
Proof.
  destruct o as [[ids rate]|]; cbn; [|split; [|done]; intros _ h Hh; by apply elem_of_nil in Hh].
  apply list_budgets_checked. intros b. apply omap_holds.
Qed.

Lemma team_budgets (gs : Store) id now : id <> "" ->
  CheckTeamBudget fraction iter gs id ∅ now = DecisionAllow <-> allBudgets gs now (teamHolder <$> option_list (teams gs !! id)).
Proof.
  intros Hid. unfold CheckTeamBudget, CollectTeamBudgets. rewrite bool_decide_false by done.
  rewrite fmap_option_list, <-(owner_budgets gs ("Team:" +:+ id)). by destruct (teams gs !! id).
Qed.

Lemma customer_budgets (gs : Store) id now : id <> "" ->
  CheckCustomerBudget fraction iter gs id ∅ now = DecisionAllow <-> allBudgets gs now (customerHolder <$> option_list (customers gs !! id)).
Proof.
  intros Hid. unfold CheckCustomerBudget, CollectCustomerBudgets. rewrite bool_decide_false by done.
  rewrite fmap_option_list, <-(owner_budgets gs ("Customer:" +:+ id)). by destruct (customers gs !! id).
Qed.

Lemma team_rates (gs : Store) id now : id <> "" ->
  CheckTeamRateLimit fraction iter gs id ∅ ∅ now = DecisionAllow <-> allRates gs now (teamHolder <$> option_list (teams gs !! id)).
Proof.
  intros Hid. unfold CheckTeamRateLimit. destruct (teams gs !! id) as [t|]; cbn;
    [|split; [|done]; intros _ h Hh; by apply elem_of_nil in Hh].
  apply list_rates_checked.
Qed.

Lemma customer_rates (gs : Store) id now : id <> "" ->
  CheckCustomerRateLimit fraction iter gs id ∅ ∅ now = DecisionAllow <-> allRates gs now (customerHolder <$> option_list (customers gs !! id)).
Proof.
  intros Hid. unfold CheckCustomerRateLimit, CollectCustomerRateLimits. rewrite bool_decide_false by done.
  destruct (customers gs !! id) as [c|]; cbn; [|split; [|done]; intros _ h Hh; by apply elem_of_nil in Hh].
  etransitivity; [|apply (list_rates_checked gs now ("Customer:" +:+ id) (cu_Budgets c) (cu_RateLimitID c))]. destruct (cu_RateLimitID c) as [rid|]; cbn; [|done].
  by destruct (LoadRateLimit gs rid).
Qed.

Lemma config_budgets (gs : Store) scope scopeID model provider now :
  GovPolicy.CheckBudget fraction iter (modelBudgets GetBaseModelName gs scope scopeID model provider) ∅ now = DecisionAllow <->
  allBudgets gs now (countedHolders gs scope scopeID model provider).
Proof. apply budgets_checked. intros b. apply modelBudgets_spec. Qed.

Lemma config_rates (gs : Store) scope scopeID model provider now :
  GovPolicy.CheckRateLimit fraction iter (modelRateLimits GetBaseModelName gs scope scopeID model provider) ∅ ∅ now = DecisionAllow <->
  allRates gs now (countedHolders gs scope scopeID model provider).
Proof. apply rates_checked. intros r. apply modelRateLimits_spec. Qed.

(** ** The steps *)

Lemma Forall_at gs now rate budget l :
  Forall (Admits gs now) (at_ rate budget l) <-> allRates gs (now rate) l /\ allBudgets gs (now budget) l.
Proof. unfold at_, allRates, allBudgets. rewrite Forall_fmap, Forall_forall. unfold Admits. cbn. naive_solver. Qed.

Lemma Forall_unless {A} (P : A -> Prop) s l : Forall P (unless s l) <-> (s <> "" -> Forall P l).
Proof. unfold unless. case_bool_decide; [|naive_solver]. split; [naive_solver|by intros _; constructor]. Qed.

Lemma not_empty s : negb (bool_decide (s = "")) = true <-> s <> "".
Proof. case_bool_decide; naive_solver. Qed.

Ltac run_checks :=
  rewrite runChecks_allow by (intros ?; try reflexivity; unfold attachScopedModelBudgetInfo; by case_match);
  rewrite !Forall_cons; cbn [fst snd]; rewrite ?not_empty.

Lemma modelAndProvider_allow (gs : Store) now provider model :
  res_Decision (EvaluateModelAndProviderRequest fraction GetBaseModelName iter reason gs now provider model) = DecisionAllow <->
  Forall (Admits gs now) (unless provider (at_ ProviderRate ProviderBudget (providerHolders gs provider)) ++
    unless model (at_ ModelRate ModelBudget (countedHolders gs ModelConfigScopeGlobal "" model provider))).
Proof.
  unfold EvaluateModelAndProviderRequest. run_checks. rewrite Forall_app, !Forall_unless, !Forall_at.
  unfold CheckModelRateLimit, CheckModelBudget. rewrite provider_rates, provider_budgets, config_rates, config_budgets by done.
  rewrite Forall_nil. tauto.
Qed.

Lemma customer_allow (gs : Store) now id : id <> "" ->
  res_Decision (EvaluateCustomerRequest fraction iter reason gs now id) = DecisionAllow <->
  Forall (Admits gs now) (at_ CustomerRate CustomerBudget (customerHolder <$> option_list (customers gs !! id))).
Proof.
  intros Hid. unfold EvaluateCustomerRequest. rewrite bool_decide_false by done. run_checks.
  rewrite Forall_at, customer_rates, customer_budgets by done. rewrite Forall_nil. tauto.
Qed.

Lemma team_allow (gs : Store) now id : id <> "" ->
  res_Decision (EvaluateTeamRequest fraction iter reason gs now id) = DecisionAllow <->
  Forall (Admits gs now) (at_ TeamRate TeamBudget (teamHolder <$> option_list (teams gs !! id))).
Proof.
  intros Hid. unfold EvaluateTeamRequest. rewrite bool_decide_false by done. run_checks.
  rewrite Forall_at, team_rates, team_budgets by done. rewrite Forall_nil. tauto.
Qed.

Lemma scoped_rates (gs : Store) scope id model provider now :
  scope <> "" ->
  CheckScopedModelRateLimit fraction GetBaseModelName iter gs scope id model provider ∅ ∅ now = DecisionAllow <->
  (id <> "" -> allRates gs now (countedHolders gs scope id model provider)).
Proof.
  intros Hs. unfold CheckScopedModelRateLimit. rewrite (bool_decide_false (scope = "")) by done. cbn [orb].
  case_bool_decide; [naive_solver|]. rewrite config_rates by done. naive_solver.
Qed.

Lemma scoped_budgets (gs : Store) scope id model provider now :
  scope <> "" ->
  CheckScopedModelBudget fraction GetBaseModelName iter gs scope id model provider ∅ now = DecisionAllow <->
  (id <> "" -> allBudgets gs now (countedHolders gs scope id model provider)).
Proof.
  intros Hs. unfold CheckScopedModelBudget. rewrite (bool_decide_false (scope = "")) by done. cbn [orb].
  case_bool_decide; [naive_solver|]. rewrite config_budgets by done. naive_solver.
Qed.

Lemma user_allow (gs : Store) now user request :
  res_Decision (EvaluateUserRequest fraction GetBaseModelName iter reason gs now user request) = DecisionAllow <->
  Forall (Admits gs now) (unless user (unless (ev_Model request) (at_ UserModelRate UserModelBudget
    (countedHolders gs ModelConfigScopeUser user (ev_Model request) (ev_Provider request))))).
Proof.
  unfold EvaluateUserRequest. rewrite !Forall_unless, Forall_at. case_bool_decide as Hu; [naive_solver|].
  run_checks. rewrite scoped_rates, scoped_budgets by done. rewrite Forall_nil. unfold CheckUserRateLimit, CheckUserBudget. tauto.
Qed.

Lemma keyLimits_allow (gs : Store) now (vk : VirtualKey) provider model :
  Keyed gs ->
  keyLimits fraction GetBaseModelName iter reason gs now vk provider model = None <->
  Forall (Admits gs now) (at_ KeyRate KeyBudget (keyHolders gs vk provider) ++
    unless model (unless (vk_ID vk) (at_ KeyModelRate KeyModelBudget (countedHolders gs ModelConfigScopeVirtualKey (vk_ID vk) model provider)))).
Proof.
  intros Hk. unfold keyLimits.
  transitivity (firstRefused
    [(true, KeyRate, CheckVirtualKeyRateLimit fraction iter gs vk provider ∅ ∅ (now KeyRate));
     (true, KeyBudget, CheckVirtualKeyBudget fraction iter gs vk provider ∅ (now KeyBudget));
     (negb (bool_decide (model = "")), KeyModelRate, CheckScopedModelRateLimit fraction GetBaseModelName iter gs
        ModelConfigScopeVirtualKey (vk_ID vk) model provider ∅ ∅ (now KeyModelRate));
     (negb (bool_decide (model = "")), KeyModelBudget, CheckScopedModelBudget fraction GetBaseModelName iter gs
        ModelConfigScopeVirtualKey (vk_ID vk) model provider ∅ (now KeyModelBudget))] = None).
  { by destruct (firstRefused _) as [[c d]|]. }
  rewrite firstRefused_none, !Forall_cons. cbn [fst snd]. rewrite not_empty, Forall_app, !Forall_unless, !Forall_at.
  rewrite scoped_rates, scoped_budgets by done. unfold CheckVirtualKeyRateLimit, CheckVirtualKeyBudget.
  rewrite (rates_checked gs _ _ (keyHolders gs vk provider)) by (intros r; apply hierarchy_rates).
  rewrite (budgets_checked gs _ _ (keyHolders gs vk provider)) by (intros b; by apply hierarchy_budgets).
  rewrite Forall_nil. tauto.
Qed.

Lemma keyLimits_refused (gs : Store) now (vk : VirtualKey) provider model r :
  keyLimits fraction GetBaseModelName iter reason gs now vk provider model = Some r -> res_Decision r <> DecisionAllow.
Proof.
  unfold keyLimits. destruct (firstRefused _) as [[c d]|] eqn:E; [|done]. apply firstRefused_refused in E. intros [= <-].
  by destruct c.
Qed.

Local Abbreviation evaluateKey := (EvaluateVirtualKeyRequest fraction GetBaseModelName iter reason catalog).

Lemma provider_gate (vk : VirtualKey) requestType provider :
  negb (bool_decide (requestType = MCPToolExecutionRequest)) && negb (bool_decide (requestType = ListModelsRequest)) &&
    negb (isProviderAllowed vk provider) = false <->
  providerExempt requestType \/ isProviderAllowed vk provider = true.
Proof. unfold providerExempt. destruct (isProviderAllowed vk provider); repeat case_bool_decide; cbn; intuition congruence. Qed.

Lemma model_gate (gs : Store) (vk : VirtualKey) requestType provider model :
  (IsModelRequiredForRequest requestType || (isPassthrough requestType && negb (bool_decide (model = "")))) &&
    negb (isModelAllowed catalog gs vk provider model) = false <->
  (modelChecked requestType model -> isModelAllowed catalog gs vk provider model = true).
Proof.
  unfold modelChecked. rewrite <-(not_empty model), <-andb_true_iff, <-orb_true_iff.
  destruct (_ || _), (isModelAllowed catalog gs vk provider model); cbn; intuition congruence.
Qed.

(** An admitted key is on the result. *)
Lemma virtualKey_result (gs : Store) now request requestType skip vk :
  GetVirtualKey gs (ev_VirtualKey request) = Some vk -> KeyAdmits gs (now KeyExpiry) request requestType vk ->
  (skip = false -> keyLimits fraction GetBaseModelName iter reason gs now vk (ev_Provider request) (ev_Model request) = None) ->
  let key := evaluateKey gs now (ev_VirtualKey request) (ev_Provider request) (ev_Model request) requestType skip in
  res_Decision key.1 = DecisionAllow /\ res_VirtualKey key.1 = Some vk.
Proof.
  intros Hvk (Ha & He & Hp & Hm) Hl. cbv zeta. unfold EvaluateVirtualKeyRequest. rewrite Hvk, Ha, He.
  apply provider_gate in Hp. apply model_gate in Hm. cbn [negb]. rewrite Hp, Hm. destruct skip; [done|]. by rewrite Hl.
Qed.

Lemma virtualKey_allow (gs : Store) now request requestType skip :
  res_Decision (evaluateKey gs now (ev_VirtualKey request) (ev_Provider request) (ev_Model request) requestType skip).1 = DecisionAllow <->
  exists vk, GetVirtualKey gs (ev_VirtualKey request) = Some vk /\ KeyAdmits gs (now KeyExpiry) request requestType vk /\
    (skip = false -> keyLimits fraction GetBaseModelName iter reason gs now vk (ev_Provider request) (ev_Model request) = None).
Proof.
  split; [|intros (vk & Hvk & Ha & Hl); by apply (virtualKey_result gs now request requestType skip vk Hvk Ha Hl)].
  unfold EvaluateVirtualKeyRequest. destruct (GetVirtualKey gs (ev_VirtualKey request)) as [vk|]; [|done].
  destruct (IsActiveValue vk) eqn:Ea; [|done]. destruct (IsExpiredAt vk (now KeyExpiry)) eqn:Ee; [done|].
  cbn [negb]. destruct (_ && negb (isProviderAllowed vk (ev_Provider request))) eqn:Ep; [done|].
  destruct (_ && negb (isModelAllowed catalog gs vk (ev_Provider request) (ev_Model request))) eqn:Em; [done|].
  rewrite provider_gate in Ep. rewrite model_gate in Em. intros Hd. exists vk. split; [done|]. split; [by split_and!|].
  intros ->. destruct (keyLimits _ _ _ _ _ _ _ _ _) as [r|] eqn:El; [|done]. by apply keyLimits_refused in El.
Qed.

(** ** The whole evaluation *)

Definition addedTools (ctx : BifrostContext) : list string := match value ctx KeyMCPAddedTools with VStrings l => l | _ => [] end.

Definition ToolsGranted (pl : GovernancePlugin) (ctx : BifrostContext) (vk : VirtualKey) : Prop :=
  forall tool, tool ∈ addedTools ctx -> isMCPToolAllowedByVKWith iter vk tool (allowAllClients pl) = true.

Lemma checkAddedTools_allow pl ctx (r : EvaluationResult) :
  res_Decision (checkAddedTools iter pl ctx r) = DecisionAllow <->
  res_Decision r = DecisionAllow /\ (forall vk, res_VirtualKey r = Some vk -> ToolsGranted pl ctx vk).
Proof.
  unfold checkAddedTools, ToolsGranted. destruct (res_VirtualKey r) as [vk|]; [|naive_solver]. fold (addedTools ctx).
  destruct (filter _ (addedTools ctx)) as [|tool l] eqn:Ef.
  - split; [|by intros []]. intros Hr. split; [done|]. intros vk' [= <-] tool Ht. apply not_false_iff_true. intros Hn.
    assert (tool ∈ filter (fun tool => isMCPToolAllowedByVKWith iter vk tool (allowAllClients pl) = false) (addedTools ctx)) as Hin
      by (by apply list_elem_of_filter). rewrite Ef in Hin. by apply elem_of_nil in Hin.
  - assert (tool ∈ filter (fun tool => isMCPToolAllowedByVKWith iter vk tool (allowAllClients pl) = false) (addedTools ctx)) as Hin
      by (rewrite Ef; left). apply list_elem_of_filter in Hin as [Hn Hin].
    case_bool_decide as Hr; [|naive_solver]. split; [done|]. intros [_ Hall]. specialize (Hall vk eq_refl tool Hin). congruence.
Qed.

Lemma user_key (gs : Store) now user request :
  res_VirtualKey (EvaluateUserRequest fraction GetBaseModelName iter reason gs now user request) = None.
Proof. unfold EvaluateUserRequest, runChecks, attachScopedModelBudgetInfo. repeat case_match; done. Qed.

Definition keyOf (gs : Store) (request : EvaluationRequest) : option VirtualKey :=
  if bool_decide (ev_VirtualKey request = "") then None else GetVirtualKey gs (ev_VirtualKey request).

Local Abbreviation decide_ := (decideRequest fraction GetBaseModelName iter reason catalog).

Lemma key_named (gs : Store) (request : EvaluationRequest) :
  (if negb (bool_decide (ev_VirtualKey request = "")) then GetVirtualKey gs (ev_VirtualKey request) else None) = keyOf gs request.
Proof. unfold keyOf. by case_bool_decide. Qed.

(** A step that runs when an owner is named. *)
Lemma owner_step (gs : Store) now request (owner : VirtualKey -> string) step l :
  (forall id, id <> "" -> res_Decision (step id) = DecisionAllow <-> Forall (Admits gs now) (l id)) ->
  let id := match keyOf gs request with Some vk => owner vk | None => "" end in
  (negb (bool_decide (id = "")) = true -> res_Decision (step id : EvaluationResult) = DecisionAllow) <->
  forall vk, keyOf gs request = Some vk -> Forall (Admits gs now) (unless (owner vk) (l (owner vk))).
Proof.
  intros Hs. cbv zeta. setoid_rewrite Forall_unless. rewrite not_empty. destruct (keyOf gs request) as [vk|]; [|naive_solver].
  split; [intros Hd vk' [= <-] Hid; by apply Hs, Hd|]. intros Hd Hid. apply Hs; [done|]. by apply Hd.
Qed.

Definition KeyValid (gs : Store) (now : Time) (request : EvaluationRequest) (requestType : RequestType) : Prop :=
  ev_VirtualKey request <> "" -> exists vk, keyOf gs request = Some vk /\ KeyAdmits gs now request requestType vk.

(** Whether the named key admits the request and, unless they are skipped, its limits do. *)
Lemma key_step (gs : Store) now request requestType skip :
  (negb (bool_decide (ev_VirtualKey request = "")) = true ->
   res_Decision (evaluateKey gs now (ev_VirtualKey request) (ev_Provider request) (ev_Model request) requestType skip).1 = DecisionAllow) <->
  KeyValid gs (now KeyExpiry) request requestType /\
  (skip = false -> forall vk, keyOf gs request = Some vk ->
     keyLimits fraction GetBaseModelName iter reason gs now vk (ev_Provider request) (ev_Model request) = None).
Proof.
  rewrite not_empty, virtualKey_allow. unfold KeyValid, keyOf. case_bool_decide as He; [naive_solver|]. split.
  - intros Hk. destruct (Hk He) as (vk & Hvk & Ha & Hl). split; [eauto|]. intros Hs vk' Hvk'. rewrite Hvk in Hvk'. injection Hvk' as <-. auto.
  - intros [Hk Hl] _. destruct (Hk He) as (vk & Hvk & Ha). exists vk. auto.
Qed.

Lemma forall_Some {A} (x : A) (Q : A -> Prop) : (forall y, Some x = Some y -> Q y) <-> Q x.
Proof. naive_solver. Qed.

Lemma forall_None {A} (Q : A -> Prop) : (forall y, None = Some y -> Q y) <-> True.
Proof. naive_solver. Qed.

Lemma holders_split (gs : Store) now request :
  WithinLimits gs now request <->
  Forall (Admits gs now) (unless (ev_Provider request) (at_ ProviderRate ProviderBudget (providerHolders gs (ev_Provider request))) ++
    unless (ev_Model request) (at_ ModelRate ModelBudget (countedHolders gs ModelConfigScopeGlobal "" (ev_Model request) (ev_Provider request)))) /\
  (forall vk, keyOf gs request = Some vk ->
    (ev_UserID request = "" -> Forall (Admits gs now) (at_ KeyRate KeyBudget (keyHolders gs vk (ev_Provider request)) ++
      unless (ev_Model request) (unless (vk_ID vk) (at_ KeyModelRate KeyModelBudget
        (countedHolders gs ModelConfigScopeVirtualKey (vk_ID vk) (ev_Model request) (ev_Provider request)))))) /\
    Forall (Admits gs now) (unless (customerIDOf vk) (at_ CustomerRate CustomerBudget (customerHolder <$> option_list (customers gs !! customerIDOf vk)))) /\
    Forall (Admits gs now) (unless (teamIDOf vk) (at_ TeamRate TeamBudget (teamHolder <$> option_list (teams gs !! teamIDOf vk))))) /\
  Forall (Admits gs now) (unless (ev_UserID request) (unless (ev_Model request) (at_ UserModelRate UserModelBudget
    (countedHolders gs ModelConfigScopeUser (ev_UserID request) (ev_Model request) (ev_Provider request))))).
Proof.
  unfold WithinLimits, holders. fold (keyOf gs request).
  destruct (keyOf gs request) as [vk|]; [rewrite (forall_Some vk)|rewrite forall_None]; rewrite !Forall_app, ?Forall_nil; [|tauto].
  case_bool_decide; rewrite ?Forall_app, ?Forall_nil; tauto.
Qed.

(** When limits are skipped the added tools are checked against the key. *)
Lemma decide_skipping (gs : Store) pl ctx now request requestType :
  boolValue ctx KeySkipBudgetAndRateLimits = true ->
  res_Decision (decide_ gs pl ctx now request requestType).1 = DecisionAllow <->
  KeyValid gs (now KeyExpiry) request requestType /\ (forall vk, keyOf gs request = Some vk -> ToolsGranted pl ctx vk).
Proof.
  intros Hskip. unfold decideRequest. rewrite Hskip, orb_true_r. cbn [fst negb andb andThen].
  rewrite checkAddedTools_allow, andThen_allow, andThen_key, key_step. cbn [res_Decision plain].
  rewrite (bool_decide_true (DecisionAllow = DecisionAllow)), andb_true_r by done.
  destruct (bool_decide (ev_VirtualKey request = "")) eqn:Hne; cbn [negb res_VirtualKey plain].
  - unfold keyOf. rewrite Hne. naive_solver.
  - apply bool_decide_eq_false in Hne.
    assert (KeyValid gs (now KeyExpiry) request requestType -> exists vk, keyOf gs request = Some vk /\
      res_VirtualKey (evaluateKey gs now (ev_VirtualKey request) (ev_Provider request) (ev_Model request) requestType true).1 = Some vk) as Hr.
    { intros Hv. destruct (Hv Hne) as (vk & Hvk & Ha). exists vk. split; [done|]. unfold keyOf in Hvk. rewrite bool_decide_false in Hvk by done.
      by apply virtualKey_result. }
    split.
    + intros [[_ [Hv _]] Ht]. split; [done|]. intros vk Hvk. destruct (Hr Hv) as (vk' & Hvk' & Hres). apply Ht. congruence.
    + intros [Hv Ht]. split; [done|]. intros vk Hvk. destruct (Hr Hv) as (vk' & Hvk' & Hres). apply Ht. congruence.
Qed.

(** The result of the step for users carries no key. *)
Lemma user_step pl ctx (r u : EvaluationResult) :
  res_VirtualKey u = None ->
  res_Decision (checkAddedTools iter pl ctx (andThen true r u)) = DecisionAllow <-> res_Decision r = DecisionAllow /\ res_Decision u = DecisionAllow.
Proof.
  intros Hu. rewrite checkAddedTools_allow, andThen_allow, andThen_key, Hu. split; [naive_solver|]. intros [Hr Hd].
  rewrite bool_decide_true by done. naive_solver.
Qed.

(** In every other case the added tools are not looked at. *)
Lemma decide_checking (gs : Store) pl ctx now request requestType :
  Keyed gs -> boolValue ctx KeySkipBudgetAndRateLimits = false ->
  res_Decision (decide_ gs pl ctx now request requestType).1 = DecisionAllow <->
  KeyValid gs (now KeyExpiry) request requestType /\ WithinLimits gs now request.
Proof.
  intros Hk Hskip. unfold decideRequest. rewrite Hskip, orb_false_r. cbn [fst negb andb]. rewrite key_named.
  rewrite user_step by apply user_key. rewrite !andThen_allow, holders_split, modelAndProvider_allow, user_allow by done.
  rewrite key_step, negb_false_iff, bool_decide_eq_true.
  rewrite (owner_step gs now request customerIDOf _ _ (customer_allow gs now)).
  rewrite (owner_step gs now request teamIDOf _ _ (team_allow gs now)).
  destruct (keyOf gs request) as [vk|]; [|rewrite !forall_None; tauto].
  rewrite !forall_Some, keyLimits_allow by auto. tauto.
Qed.

Local Abbreviation evaluate := (EvaluateGovernanceRequest fraction GetBaseModelName iter reason catalog).

Definition NoKeyNeeded (pl : GovernancePlugin) (ctx : BifrostContext) (request : EvaluationRequest) : Prop :=
  ev_VirtualKey request = "" -> isVkMandatory pl = Some true -> hasDirectKeyAuth ctx = true \/ ev_UserID request <> "".

(** The gates in front of the evaluation. *)
Lemma evaluate_gates (gs : Store) pl ctx now request requestType :
  (exists r ops, evaluate gs pl ctx now request requestType = (Some r, None, ops)) <->
  (ev_VirtualKey request <> "" -> is_Some (GetVirtualKey gs (ev_VirtualKey request))) /\ NoKeyNeeded pl ctx request /\
  res_Decision (decide_ gs pl ctx now request requestType).1 = DecisionAllow.
Proof.
  unfold EvaluateGovernanceRequest, NoKeyNeeded. destruct (decide_ gs pl ctx now request requestType) as [r ops]. cbn [fst].
  assert ((exists r' ops', (if bool_decide (res_Decision r = DecisionAllow) then (Some r, None, ops ++ [OpClear governanceRejectedContextKey])
      else (Some r, Some (denial (decisionText (res_Decision r)) (statusOf (res_Decision r)) (res_Reason r)),
        ops ++ match value ctx governanceRejectedContextKey with VBool _ => [] | _ => [OpSet governanceRejectedContextKey (VBool true)] end))
      = (Some r', None, ops')) <-> res_Decision r = DecisionAllow) as Hd.
  { case_bool_decide; [split; eauto|split; [by intros (? & ? & ?)|done]]. }
  destruct (bool_decide_reflect (ev_VirtualKey request = "")) as [He|He]; cbn [negb andb].
  - destruct (negb (hasDirectKeyAuth ctx) && _ && _) eqn:Eg.
    + apply andb_true_iff in Eg as [[Hk%negb_true_iff Hu%bool_decide_eq_true]%andb_true_iff Hm%bool_decide_eq_true].
      split; [by intros (? & ? & ?)|]. intros (_ & Hn & _). destruct (Hn He Hm); congruence.
    + rewrite Hd. assert (isVkMandatory pl = Some true -> hasDirectKeyAuth ctx = true \/ ev_UserID request <> "") as Hn; [|tauto].
      intros Hm. rewrite (bool_decide_true (isVkMandatory pl = Some true)), andb_true_r in Eg by done.
      apply andb_false_iff in Eg as [?%negb_false_iff|?%bool_decide_eq_false]; auto.
  - destruct (bool_decide_reflect (is_Some (GetVirtualKey gs (ev_VirtualKey request)))) as [Hs|Hs]; cbn [negb andb].
    + rewrite Hd. tauto.
    + split; [by intros (? & ? & ?)|tauto].
Qed.

(** C13. Governance admits a request exactly when a mandatory key is not
    missing, a key that is named exists, is active and unexpired and allows the
    provider and the model, and, unless the request skips limits, every budget
    and rate limit of its provider, its model, its key, the team and customers
    of the key and its user has room at the instant it is looked at: its window
    is over, or its usage is below its limit.  The limits of a model
    configuration count unless a later tier with such limits is filed under the
    same entity name, which hides it.  When limits are skipped the tools added
    to the request are checked instead.  The store is assumed to file every
    budget under its own ID. *)
Theorem admitted_iff (gs : Store) pl ctx now request requestType :
  Keyed gs ->
  (exists r ops, evaluate gs pl ctx now request requestType = (Some r, None, ops)) <->
  NoKeyNeeded pl ctx request /\ KeyValid gs (now KeyExpiry) request requestType /\
  (if boolValue ctx KeySkipBudgetAndRateLimits then forall vk, keyOf gs request = Some vk -> ToolsGranted pl ctx vk
   else WithinLimits gs now request).
Proof.
  intros Hk. rewrite evaluate_gates.
  assert (KeyValid gs (now KeyExpiry) request requestType -> ev_VirtualKey request <> "" -> is_Some (GetVirtualKey gs (ev_VirtualKey request))) as Hs.
  { intros Hv Hne. destruct (Hv Hne) as (vk & Hvk & _). unfold keyOf in Hvk. rewrite bool_decide_false in Hvk by done. by exists vk. }
  destruct (boolValue ctx KeySkipBudgetAndRateLimits) eqn:Es; [rewrite decide_skipping by done|rewrite decide_checking by done]; tauto.
Qed.

(** Unless limits are skipped, neither the tools the gateway added to the
    request nor the clients open to every key change the decision: the check of
    added tools needs a key on the result, and the step for users has dropped it. *)
Theorem added_tools_unchecked (gs : Store) pl ctx now request requestType tools clients :
  boolValue ctx KeySkipBudgetAndRateLimits = false ->
  let pl' := mkGovernancePlugin (isVkMandatory pl) (requiredHeaders pl) clients in
  evaluate gs pl' (setReservedValue ctx KeyMCPAddedTools (VStrings tools)) now request requestType =
  evaluate gs pl ctx now request requestType.
Proof.
  intros Hskip. cbv zeta. set (ctx' := setReservedValue ctx KeyMCPAddedTools (VStrings tools)).
  assert (forall k, k <> KeyMCPAddedTools -> value ctx' k = value ctx k) as Hv by (intros k Hk; by apply value_set_ne).
  assert (forall pl ctx (r u : EvaluationResult), res_VirtualKey u = None ->
    checkAddedTools iter pl ctx (andThen true r u) = andThen true r u) as Hlast.
  { intros pl0 ctx0 r u Hu. unfold andThen. cbn [andb]. case_bool_decide as Hr; unfold checkAddedTools.
    - cbn [mergeBudgetInfo populateBudgetInfo res_VirtualKey]. by rewrite Hu.
    - destruct (res_VirtualKey r); [|done]. destruct (filter _ _); [done|]. by rewrite bool_decide_false. }
  unfold EvaluateGovernanceRequest, hasDirectKeyAuth. rewrite !Hv by done. cbn [isVkMandatory].
  assert (decide_ gs (mkGovernancePlugin (isVkMandatory pl) (requiredHeaders pl) clients) ctx' now request requestType =
    decide_ gs pl ctx now request requestType) as ->; [|done].
  unfold decideRequest. assert (boolValue ctx' KeySkipBudgetAndRateLimits = false) as -> by (unfold boolValue; by rewrite Hv).
  rewrite Hskip. cbn [negb andb]. by rewrite !Hlast by apply user_key.
Qed.

End Resolver.

(** ** An example *)

#[local] Instance cents : Amount Z := mkAmount Z 0 Z.add Z.leb Z.ltb (fun _ => true).

Definition wholeUnits : Z -> Z -> Z -> Z := fun _ _ _ => 0.
Definition keyOrder (A : Type) (m : gmap string A) : list (string * A) := map_to_list m.
Definition kindOnly (c : Check) (d : Decision) : string := decisionText d.

Definition exampleStore : Store :=
  mkStore {["b" := mkBudget "b" 100 "1h" 0 40 0 BudgetOverrideModeNone 0 0 None 0 false 0]} ∅
    {["sk" := mkVirtualKey "vk" "key" None None [mkProviderConfig "openai" None ["*"] [] true [] ["b"] None None] [] None false None None None None []]}
    ∅ ∅ ∅ ∅ ∅.
Definition exampleRequest : EvaluationRequest := mkEvaluation "sk" "openai" "gpt" "".

Lemma example_keyed : Keyed exampleStore.
Proof. intros id b Hb. cbn [budgets exampleStore] in Hb. by apply lookup_singleton_Some in Hb as [<- <-]. Qed.

Lemma admitted_iff_witness :
  (exists r ops, EvaluateGovernanceRequest wholeUnits None keyOrder kindOnly None exampleStore (mkGovernancePlugin None None ∅) (mkCtx ∅ ∅ false)
     (fun _ => 10) exampleRequest ChatCompletionRequest = (Some r, None, ops)) /\
  WithinLimits wholeUnits None exampleStore (fun _ => 10) exampleRequest.
Proof.
  assert (exists r ops, EvaluateGovernanceRequest wholeUnits None keyOrder kindOnly None exampleStore (mkGovernancePlugin None None ∅) (mkCtx ∅ ∅ false)
     (fun _ => 10) exampleRequest ChatCompletionRequest = (Some r, None, ops)) as Hadmit by (eexists _, _; vm_compute; reflexivity).
  split; [exact Hadmit|].
  apply (proj1 (admitted_iff wholeUnits None keyOrder (fun A m => reflexivity _) kindOnly None exampleStore (mkGovernancePlugin None None ∅)
    (mkCtx ∅ ∅ false) (fun _ => 10) exampleRequest ChatCompletionRequest example_keyed) Hadmit).
Defined.

Lemma added_tools_unchecked_witness :
  EvaluateGovernanceRequest wholeUnits None keyOrder kindOnly None exampleStore (mkGovernancePlugin None None ∅)
    (setReservedValue (mkCtx ∅ ∅ false) KeyMCPAddedTools (VStrings ["shell-exec"])) (fun _ => 10) exampleRequest ChatCompletionRequest =
  EvaluateGovernanceRequest wholeUnits None keyOrder kindOnly None exampleStore (mkGovernancePlugin None None ∅) (mkCtx ∅ ∅ false) (fun _ => 10)
    exampleRequest ChatCompletionRequest /\
  isMCPToolAllowedByVKWith keyOrder (default (mkVirtualKey "" "" None None [] [] None false None None None None [])
    (GetVirtualKey exampleStore "sk")) "shell-exec" ∅ = false.
Proof.
  split; [|reflexivity].
  apply (added_tools_unchecked wholeUnits None keyOrder kindOnly None exampleStore (mkGovernancePlugin None None ∅) (mkCtx ∅ ∅ false) (fun _ => 10)
    exampleRequest ChatCompletionRequest ["shell-exec"] ∅).
  reflexivity.
Defined.

(** Deleting a batch carries no model, and is not among the requests without one. *)
Lemma batch_delete_needs_model : IsModelRequiredForRequest BatchDeleteRequest = true.
Proof. done. Qed.
End GovResolverTheory.
