(* ===== verification/GovToolsTheory.v ===== *)
(** * The tools a request is offered are tools its virtual key grants

    The list of tools settled for a request, whether a caller's list narrowed
    to the key or the list of the key itself, offers no tool of a client that
    the key does not grant. *)

From S2P Require Import Prelude GoStrings Schemas Context GovPolicy GovResolver.

Local Open Scope string_scope.
Local Open Scope list_scope.

Module GovToolsTheory.
Import Schemas Context GovPolicy GovResolver.

(** Names of clients have no hyphen (src/core/mcp/utils.go, ValidateMCPClientName). *)
Definition hyphenFree (s : string) : Prop := GoStrings.Contains s "-" = false.

Lemma hyphenFree_cons a s : hyphenFree (String a s) -> a <> Ascii.ascii_of_nat 45 /\ hyphenFree s.
Proof.
  unfold hyphenFree. intros Hn. split.
  - intros ->. apply not_true_iff_false in Hn. apply Hn, Contains_spec. by exists "", s.
  - apply not_true_iff_false. intros Hs. apply not_true_iff_false in Hn. apply Hn. by apply (Contains_app_l (String a "") s "-").
Qed.

Lemma hyphen_split a b x y : hyphenFree a -> hyphenFree b -> a +:+ "-" +:+ x = b +:+ "-" +:+ y -> a = b /\ x = y.
Proof.
  revert b. induction a as [|c a IH]; intros [|d b] Ha Hb Heq; cbn in Heq.
  - by injection Heq.
  - injection Heq as <- _. by apply hyphenFree_cons in Hb as [[] _].
  - injection Heq as -> _. by apply hyphenFree_cons in Ha as [[] _].
  - injection Heq as -> Heq. apply hyphenFree_cons in Ha as [_ Ha], Hb as [_ Hb]. by destruct (IH b Ha Hb Heq) as [-> ->].
Qed.

Lemma matchesClient_spec client t name : hyphenFree client -> hyphenFree name ->
  matchesClient (client +:+ "-" +:+ t) name = bool_decide (client = name).
Proof.
  intros Hc Hn. unfold matchesClient. apply eq_true_iff_eq. rewrite orb_true_iff, !bool_decide_eq_true, HasPrefix_spec. split.
  - intros [Heq|(u & Heq)].
    + apply (hyphen_split client name t "*") in Heq as [-> _]; done.
    + rewrite str_app_assoc in Heq. by apply hyphen_split in Heq as [-> _].
  - intros ->. right. exists t. by rewrite str_app_assoc.
Qed.

Lemma wildcardClient_star client : wildcardClient (client +:+ "-*") = Some client.
Proof.
  unfold wildcardClient. rewrite str_length_app. cbn [String.length].
  replace (String.length client + 2 - 2)%nat with (String.length client) by lia.
  rewrite str_drop_app, str_take_app, bool_decide_true by lia. done.
Qed.

Lemma Contains_in (l : WhiteList.t) x : x ∈ l -> WhiteList.Contains l x = true.
Proof. intros Hx. apply existsb_exists. exists x. split; [by apply list_elem_of_In|]. apply String.eqb_refl. Qed.

(** A valid list that is not the wildcard alone does not hold it. *)
Lemma valid_no_star l : WhiteList.Validate l = Ok tt -> WhiteList.IsUnrestricted l = false -> "*" ∉ l.
Proof.
  unfold WhiteList.Validate. intros Hv Hu Hin. rewrite (Contains_in l "*" Hin) in Hv. cbn [andb] in Hv.
  case_bool_decide as Hl; [done|]. destruct l as [|x [|y l]]; cbn in *; [by apply elem_of_nil in Hin| |lia].
  apply list_elem_of_singleton in Hin as <-. done.
Qed.

Section Tools.
Context {F : Type}.
Variable iter : forall A : Type, gmap string A -> list (string * A).
Hypothesis iter_range : forall A m, iter A m ≡ₚ map_to_list m.
Variable vk : VirtualKey F.
Variable allowAll : gmap string string.

Local Abbreviation granted := (fun tool => isMCPToolAllowedByVKWith iter vk tool allowAll = true).
Local Abbreviation vkTools := (computeMCPIncludeToolsWith iter vk allowAll).

(** Clients have names of their own; a client open to all keys is known by its ID. *)
Record WellNamed : Prop := mkWellNamed {
  names_distinct : NoDup (mcp_ClientName <$> vk_MCPConfigs vk);
  names_hyphenFree : forall c, c ∈ vk_MCPConfigs vk -> hyphenFree (mcp_ClientName c);
  tools_valid : forall c, c ∈ vk_MCPConfigs vk -> WhiteList.Validate (mcp_ToolsToExecute c) = Ok tt;
  open_hyphenFree : forall id name, allowAll !! id = Some name -> hyphenFree name;
  open_identified : forall id name c, allowAll !! id = Some name -> c ∈ vk_MCPConfigs vk -> mcp_ClientName c = name -> mcp_ClientID c = id }.

Hypothesis well_named : WellNamed.

(** The configuration of a client decides on its tools. *)
Lemma configVerdict_of c t :
  c ∈ vk_MCPConfigs vk ->
  configVerdict (vk_MCPConfigs vk) (mcp_ClientName c +:+ "-" +:+ t) =
  Some (if bool_decide (t = "*") then negb (WhiteList.IsEmpty (mcp_ToolsToExecute c))
        else if WhiteList.IsUnrestricted (mcp_ToolsToExecute c) then true
        else WhiteList.Contains (mcp_ToolsToExecute c) t).
Proof.
  pose proof (names_distinct well_named) as Hnd. pose proof (names_hyphenFree well_named) as Hh. revert Hnd Hh.
  induction (vk_MCPConfigs vk) as [|c' l IH]; intros Hnd Hh Hc; [by apply elem_of_nil in Hc|]. cbn [configVerdict].
  rewrite matchesClient_spec by (apply Hh; set_solver). cbn in Hnd. apply NoDup_cons in Hnd as [Hn Hnd].
  apply elem_of_cons in Hc as [->|Hc].
  - rewrite bool_decide_true by done. rewrite <-(str_app_assoc _ "-" t), str_drop_app, str_app_assoc.
    rewrite (bool_decide_ext _ (t = "*")); [done|]. split; [|by intros ->].
    intros Heq. apply str_app_inj in Heq. by injection Heq.
  - rewrite bool_decide_false; [|intros E; apply Hn; rewrite <-E; by apply list_elem_of_fmap_2].
    apply IH; [done|intros; apply Hh; by right|done].
Qed.

Lemma configVerdict_none l client t :
  hyphenFree client -> (forall c, c ∈ l -> hyphenFree (mcp_ClientName c) /\ mcp_ClientName c <> client) ->
  configVerdict l (client +:+ "-" +:+ t) = None.
Proof.
  intros Hc. induction l as [|c l IH]; intros Hl; [done|]. cbn [configVerdict].
  destruct (Hl c (list_elem_of_here _ _)) as [Hh Hne]. rewrite matchesClient_spec, bool_decide_false by done.
  apply IH. intros c' Hc'. apply Hl. by right.
Qed.

(** A name in the list of the key, or the wildcard of a client in it, grants the tool. *)
Lemma vkTools_granted client t :
  hyphenFree client -> client +:+ "-*" ∈ vkTools \/ client +:+ "-" +:+ t ∈ vkTools -> granted (client +:+ "-" +:+ t).
Proof.
  intros Hc Hin. assert (exists u, (u = "*" \/ u = t) /\ client +:+ "-" +:+ u ∈ vkTools) as (u & Hu & Hin').
  { destruct Hin; [exists "*"|exists t]; auto. }
  clear Hin. unfold computeMCPIncludeToolsWith in Hin'. apply elem_of_app in Hin' as [Hin|Hin].
  - apply elem_of_concat in Hin as (ts & Hts & Hin).
    apply list_elem_of_fmap in Hts as (c & -> & Hcc). unfold configTools in Hin.
    destruct (WhiteList.IsEmpty (mcp_ToolsToExecute c)) eqn:Ee; [by apply elem_of_nil in Hin|].
    pose proof (names_hyphenFree well_named c Hcc) as Hh.
    destruct (WhiteList.IsUnrestricted (mcp_ToolsToExecute c)) eqn:Eu.
    + apply list_elem_of_singleton in Hin. apply (hyphen_split client _ u "*") in Hin as [-> ->]; [|done..].
      cbv beta. unfold isMCPToolAllowedByVKWith. rewrite configVerdict_of, Eu, Ee by done. by case_bool_decide.
    + apply list_elem_of_fmap in Hin as (tool & Heq & [Hne Ht]%list_elem_of_filter). apply hyphen_split in Heq as [-> ->]; [|done..].
      cbv beta. unfold isMCPToolAllowedByVKWith.
      pose proof (valid_no_star _ (tools_valid well_named c Hcc) Eu) as Hstar.
      destruct Hu as [-> | ->]; [done|]. rewrite configVerdict_of, Eu, Ee by done. case_bool_decide; [done|]. by apply Contains_in.
  - apply list_elem_of_fmap in Hin as ([id name] & Heq & [Hid Ha]%list_elem_of_filter). cbn in Heq, Hid.
    rewrite (iter_range _ allowAll) in Ha. apply elem_of_map_to_list in Ha.
    apply (hyphen_split client _ u "*") in Heq as [-> ->]; [|done|by eapply open_hyphenFree].
    cbv beta. unfold isMCPToolAllowedByVKWith. rewrite configVerdict_none; [|done|].
    + apply existsb_exists. exists (id, name). split.
      * apply list_elem_of_In. rewrite (iter_range _ allowAll). by apply elem_of_map_to_list.
      * cbn [snd]. rewrite matchesClient_spec by done. by apply bool_decide_true.
    + intros c Hcc. split; [by apply names_hyphenFree|]. intros Hn. apply Hid.
      rewrite <-(open_identified well_named id name c Ha Hcc Hn). by apply list_elem_of_fmap_2.
Qed.

(** What a narrowed list may hold. *)
Definition kept (e : string) : Prop := e ∈ vkTools \/ (wildcardClient e = None /\ granted e).

Lemma addTool_kept pruned e : Forall kept pruned -> kept e -> Forall kept (addTool pruned e).
Proof. intros Hp He. unfold addTool. case_bool_decide; [done|]. rewrite Forall_app. auto. Qed.

Lemma addTools_kept l pruned : Forall kept pruned -> Forall kept l -> Forall kept (fold_left addTool l pruned).
Proof.
  revert pruned. induction l as [|e l IH]; intros pruned Hp Hl; [done|]. apply Forall_cons in Hl as [He Hl].
  cbn [fold_left]. apply IH; [by apply addTool_kept|done].
Qed.

Lemma pruneStep_kept pruned pattern : Forall kept pruned -> Forall kept (pruneStep iter vk allowAll pruned pattern).
Proof.
  intros Hp. unfold pruneStep. case_bool_decide; [done|]. destruct (wildcardClient pattern) as [client|] eqn:Ew.
  - case_bool_decide as Hin; [by apply addTool_kept; [|left]|]. apply addTools_kept; [done|]. apply Forall_forall.
    intros e [_ He]%list_elem_of_filter. by left.
  - destruct (isMCPToolAllowedByVKWith iter vk pattern allowAll) eqn:Ea; [|done]. apply addTool_kept; [done|]. by right.
Qed.

Lemma pruneTools_kept requested : Forall kept (pruneTools iter vk allowAll requested).
Proof.
  unfold pruneTools. assert (Forall kept []) as Hp by constructor. revert Hp. generalize ([] : list string).
  induction requested as [|e l IH]; intros pruned Hp; [done|]. cbn [fold_left]. by apply IH, pruneStep_kept.
Qed.

Lemma kept_granted l client t :
  hyphenFree client -> Forall kept l -> client +:+ "-*" ∈ l \/ client +:+ "-" +:+ t ∈ l -> granted (client +:+ "-" +:+ t).
Proof.
  rewrite Forall_forall. intros Hc Hl [Hin|Hin]; destruct (Hl _ Hin) as [Hv|[Hw Hg]].
  - apply vkTools_granted; auto.
  - by rewrite wildcardClient_star in Hw.
  - apply vkTools_granted; auto.
  - done.
Qed.
Lemma vkTools_kept : Forall kept vkTools.
Proof. apply Forall_forall. by left. Qed.

(** The list on the context once the tools are settled. *)
Lemma settled_list ctx disable :
  let v := value (applyOps ctx (stampIncludeTools iter ctx vk allowAll disable)) KeyMCPIncludeTools in
  v = VNil \/ exists l, v = VStrings l /\ Forall kept l.
Proof.
  cbv zeta. assert (forall l, value (applyOps ctx [OpSet KeyMCPIncludeTools (VStrings l)]) KeyMCPIncludeTools = VStrings l) as Hset.
  { intros l. cbn. unfold SetValue, dropsWrite.
    assert (bool_decide (KeyMCPIncludeTools ∈ reservedKeys) = false) as -> by done. rewrite andb_false_r.
    apply value_set_eq. }
  unfold stampIncludeTools, pruneMCPIncludeToolsFromContext. destruct (value ctx KeyMCPIncludeTools) eqn:Ev; cbn [negb andb].
  2-10: (right; rewrite Hset; eexists; split; [done|]; apply pruneTools_kept).
  destruct (negb _ || _); cbn [app]; [|by left]. right. rewrite Hset. eexists. split; [done|]. apply vkTools_kept.
Qed.
End Tools.

(** C20. Once the list of tools of a request is settled, whatever list its caller
    gave, a tool of a client that is offered under that list is one the virtual
    key grants. *)
Theorem offered_tools_granted {F} (iter : forall A : Type, gmap string A -> list (string * A)) (vk : VirtualKey F) allowAll ctx disable client t :
  (forall A m, iter A m ≡ₚ map_to_list m) -> WellNamed vk allowAll -> hyphenFree client ->
  let v := value (applyOps ctx (stampIncludeTools iter ctx vk allowAll disable)) KeyMCPIncludeTools in
  v <> VNil -> shouldSkipToolForRequest v client (client +:+ "-" +:+ t) = false ->
  isMCPToolAllowedByVKWith iter vk (client +:+ "-" +:+ t) allowAll = true.
Proof.
  intros Hiter Hw Hc. cbv zeta. destruct (settled_list iter vk allowAll ctx disable) as [->|(l & -> & Hl)]; [done|].
  intros _ Hs. unfold shouldSkipToolForRequest in Hs. apply negb_false_iff, orb_true_iff in Hs. rewrite !bool_decide_eq_true in Hs.
  by apply (kept_granted iter Hiter vk allowAll Hw l).
Qed.

Definition filesKey : VirtualKey Z :=
  mkVirtualKey "vk" "files" None None [] [] None false None None None None [mkMCPConfig "c1" "fs" ["read"; "list"]].

Lemma filesKey_wellNamed : WellNamed filesKey {["c2" := "web"]}.
Proof.
  split.
  - by repeat (constructor; [set_solver|]); constructor.
  - by intros c ->%list_elem_of_singleton.
  - by intros c ->%list_elem_of_singleton.
  - by intros id name [<- <-]%lookup_singleton_Some.
  - by intros id name c [<- <-]%lookup_singleton_Some ->%list_elem_of_singleton.
Qed.

(** A caller asks for every file tool and one of another client: the file tools of the key are offered. *)
Lemma offered_tools_granted_witness :
  let ctx := mkCtx {[KeyMCPIncludeTools := VStrings ["fs-*"; "db-drop"]]} ∅ false in
  value (applyOps ctx (stampIncludeTools (fun A => @map_to_list string A (gmap string A) _) ctx filesKey {["c2" := "web"]} None)) KeyMCPIncludeTools =
    VStrings ["fs-read"; "fs-list"] /\
  isMCPToolAllowedByVKWith (fun A => @map_to_list string A (gmap string A) _) filesKey "fs-read" {["c2" := "web"]} = true.
Proof.
  split; [by vm_compute|].
  apply (offered_tools_granted (fun A => @map_to_list string A (gmap string A) _) filesKey {["c2" := "web"]}
    (mkCtx {[KeyMCPIncludeTools := VStrings ["fs-*"; "db-drop"]]} ∅ false) None "fs" "read").
  - done.
  - apply filesKey_wellNamed.
  - done.
  - by vm_compute.
  - by vm_compute.
Defined.
End GovToolsTheory.
