(* ===== verification/GovTracker.v ===== *)
(** * Usage tracking and billing
    (src/plugins/governance/tracker.go, main.go, store.go)

    A finished request becomes a usage update; the tracker settles each physical
    call once and issues the charges of every owner.  A charge of a budget or a
    rate limit is a call of the store (GovStore.v, GovRate.v), which never
    fails; here it is an entry of the trace of an update.  The maps of owners
    are read in one state.  The tokens of a response, its cost and the usage
    billed with an error are arguments. *)

From S2P Require Import Prelude GoStrings Schemas Context Pipeline Calendar Windows GovStore GovPolicy.

Local Open Scope string_scope.
Local Open Scope Z_scope.
Local Open Scope list_scope.

Module GovTracker.
Import Schemas Context Pipeline Calendar Windows GovStore GovPolicy.

Section Tracker.
Context {F : Type} `{Amount F}.
Variable GetBaseModelName : option (string -> string).
Variable iter : forall A : Type, gmap string A -> list (string * A).

Local Abbreviation VirtualKey := (VirtualKey F).
Local Abbreviation Store := (@Store F).
Local Abbreviation configsFor := (collectModelConfigsFor GetBaseModelName).

Record UsageUpdate := mkUsageUpdate {
  uu_VirtualKey : string;
  uu_Provider : string;
  uu_Model : string;
  uu_Success : bool;
  uu_TokensUsed : Z;
  uu_Cost : F;
  uu_RequestID : string;
  uu_UserID : string;
  uu_IsStreaming : bool;
  uu_IsFinalChunk : bool;
  uu_HasUsageData : bool;
  uu_AttemptNumber : Z }.

(** A charge of one row: [BumpBudgetUsage] or [BumpRateLimitUsage]. *)
Inductive Charge :=
| ChargeBudget (id : string) (cost : F)
| ChargeRateLimit (id : string) (tokensUsed : Z) (shouldUpdateTokens shouldUpdateRequests : bool).

(** ** The charges of each level (store.go) *)

Definition budgetCharges (cost : F) (ids : list string) : list Charge := (fun id => ChargeBudget id cost) <$> ids.

Definition rateCharges (tokens : Z) (ut ur : bool) (ids : list string) : list Charge :=
  (fun id => ChargeRateLimit id tokens ut ur) <$> ids.

Definition configBudgetIDs (mcs : list ModelConfig) : list string := concat (mc_Budgets <$> mcs).
Definition configRateLimitIDs (mcs : list ModelConfig) : list string := omap mc_RateLimitID mcs.

Definition providerBudgetIDs (gs : Store) (provider : string) : list string :=
  if bool_decide (provider = "") then [] else option_list (p ← providers gs !! provider; p_BudgetID p).
Definition providerRateLimitIDs (gs : Store) (provider : string) : list string :=
  if bool_decide (provider = "") then [] else option_list (p ← providers gs !! provider; p_RateLimitID p).

Definition UpdateProviderAndModelBudgetUsageInMemory (gs : Store) (model provider : string) (cost : F) : list Charge :=
  budgetCharges cost (providerBudgetIDs gs provider ++
    configBudgetIDs (configsFor gs ModelConfigScopeGlobal "" model (providerStr provider))).

Definition UpdateProviderAndModelRateLimitUsageInMemory (gs : Store) (model provider : string) (tokens : Z) (ut ur : bool) : list Charge :=
  rateCharges tokens ut ur (providerRateLimitIDs gs provider ++
    configRateLimitIDs (configsFor gs ModelConfigScopeGlobal "" model (providerStr provider))).

Definition UpdateScopedModelBudgetUsageInMemory (gs : Store) (scope scopeID model provider : string) (cost : F) : list Charge :=
  if bool_decide (scope = "") || bool_decide (scopeID = "") then []
  else budgetCharges cost (configBudgetIDs (configsFor gs scope scopeID model (providerStr provider))).

Definition UpdateScopedModelRateLimitUsageInMemory (gs : Store) (scope scopeID model provider : string) (tokens : Z) (ut ur : bool) :
    list Charge :=
  if bool_decide (scope = "") || bool_decide (scopeID = "") then []
  else rateCharges tokens ut ur (configRateLimitIDs (configsFor gs scope scopeID model (providerStr provider))).

Definition UpdateVirtualKeyBudgetUsageInMemory (gs : Store) (vk : VirtualKey) (provider : string) (cost : F) : list Charge :=
  budgetCharges cost (collectBudgetIDsFromMemory iter gs vk provider).

Definition UpdateVirtualKeyRateLimitUsageInMemory (gs : Store) (vk : VirtualKey) (provider : string) (tokens : Z) (ut ur : bool) : list Charge :=
  rateCharges tokens ut ur (collectRateLimitIDsFromMemory iter gs vk provider).

(** The community build has no governance of single users. *)
Definition UpdateUserBudgetUsageInMemory (userID : string) (cost : F) : list Charge := [].
Definition UpdateUserRateLimitUsageInMemory (userID : string) (tokens : Z) (ut ur : bool) : list Charge := [].

(** The IDs a request is attributed to, without repetitions. *)
Definition addNew (l ids : list string) : list string :=
  fold_left (fun l id => if bool_decide (id ∈ l) then l else l ++ [id]) ids l.

Definition scopeConfigs (gs : Store) (virtualKey userID provider model : string) : list ModelConfig :=
  if bool_decide (model = "") then []
  else
    configsFor gs ModelConfigScopeGlobal "" model (providerStr provider) ++
    (if bool_decide (userID = "") then [] else configsFor gs ModelConfigScopeUser userID model (providerStr provider)) ++
    match (if bool_decide (virtualKey = "") then None else GetVirtualKey gs virtualKey) with
    | Some vk => configsFor gs ModelConfigScopeVirtualKey (vk_ID vk) model (providerStr provider)
    | None => []
    end.

Definition CollectApplicableGovernanceIDs (gs : Store) (virtualKey userID provider model : string) : list string * list string :=
  let mcs := scopeConfigs gs virtualKey userID provider model in
  let vk := if bool_decide (virtualKey = "") then None else GetVirtualKey gs virtualKey in
  (addNew [] (providerBudgetIDs gs provider ++ configBudgetIDs mcs ++
     match vk with Some vk => collectBudgetIDsFromMemory iter gs vk provider | None => [] end),
   addNew [] (providerRateLimitIDs gs provider ++ configRateLimitIDs mcs ++
     match vk with Some vk => collectRateLimitIDsFromMemory iter gs vk provider | None => [] end)).

(** ** Settling an update (tracker.go) *)

Definition when {A} (b : bool) (l : list A) : list A := if b then l else [].

Definition hasUsage (u : UsageUpdate) : bool := (0 <? uu_TokensUsed u) || ltAmount zeroAmount (uu_Cost u).

Definition isTerminal (u : UsageUpdate) : bool := negb (uu_IsStreaming u) || uu_IsFinalChunk u.

(** The charges of an update, level by level. *)
Definition levels (gs : Store) (u : UsageUpdate) : list (list Charge) :=
  let ut := negb (uu_IsStreaming u) || uu_HasUsageData u in
  let ur := uu_Success u && (negb (uu_IsStreaming u) || uu_IsFinalChunk u) in
  let pays := ut && ltAmount zeroAmount (uu_Cost u) in
  let hasModel := negb (bool_decide (uu_Model u = "")) in
  let hasUser := negb (bool_decide (uu_UserID u = "")) in
  let tokens := uu_TokensUsed u in
  let cost := uu_Cost u in
  let model := uu_Model u in
  let provider := uu_Provider u in
  [when hasModel (UpdateProviderAndModelRateLimitUsageInMemory gs model provider tokens ut ur);
   when (hasModel && pays) (UpdateProviderAndModelBudgetUsageInMemory gs model provider cost);
   when hasUser (UpdateUserRateLimitUsageInMemory (uu_UserID u) tokens ut ur);
   when (hasUser && pays) (UpdateUserBudgetUsageInMemory (uu_UserID u) cost);
   when (hasUser && hasModel) (UpdateScopedModelRateLimitUsageInMemory gs ModelConfigScopeUser (uu_UserID u) model provider tokens ut ur);
   when (hasUser && hasModel && pays) (UpdateScopedModelBudgetUsageInMemory gs ModelConfigScopeUser (uu_UserID u) model provider cost)] ++
  match (if bool_decide (uu_VirtualKey u = "") then None else GetVirtualKey gs (uu_VirtualKey u)) with
  | None => []
  | Some vk =>
      [when hasModel (UpdateScopedModelRateLimitUsageInMemory gs ModelConfigScopeVirtualKey (vk_ID vk) model provider tokens ut ur);
       when (hasModel && pays) (UpdateScopedModelBudgetUsageInMemory gs ModelConfigScopeVirtualKey (vk_ID vk) model provider cost);
       when (vk_RateLimit vk || bool_decide (0 < length (vk_ProviderConfigs vk))%nat || bool_decide (is_Some (vk_TeamID vk)) ||
             bool_decide (is_Some (vk_CustomerID vk)))
         (UpdateVirtualKeyRateLimitUsageInMemory gs vk provider tokens ut ur);
       when pays (UpdateVirtualKeyBudgetUsageInMemory gs vk provider cost)]
  end.

Definition billedEntryTTL : Z := 5 * Minute.

Definition billingKey (u : UsageUpdate) : string := uu_RequestID u +:+ ":" +:+ Itoa (uu_AttemptNumber u).

Definition tryClaimBilling (billed : gmap string Time) (u : UsageUpdate) (now : Time) : bool * gmap string Time :=
  if bool_decide (uu_RequestID u = "") then (true, billed)
  else match billed !! billingKey u with
       | Some _ => (false, billed)
       | None => (true, <[billingKey u := now]> billed)
       end.

Definition sweepBilled (billed : gmap string Time) (now : Time) : gmap string Time :=
  filter (fun p => negb (snd p <? now - billedEntryTTL) = true) billed.

(** Whether an update is settled, and the keys claimed so far. *)
Definition accept (billed : gmap string Time) (u : UsageUpdate) (now : Time) : bool * gmap string Time :=
  if negb (uu_Success u) && negb (hasUsage u) then (false, billed)
  else if isTerminal u then tryClaimBilling billed u now
  else (true, billed).

Definition UpdateUsage (gs : Store) (billed : gmap string Time) (u : UsageUpdate) (now : Time) : list Charge * gmap string Time :=
  let '(settled, billed) := accept billed u now in
  (if settled then concat (levels gs u) else [], billed).

(** ** Interleaved updates *)

(** The set of claims is behind a lock: updates and sweeps take turns on it. *)
Inductive Event := Settle (gs : Store) (u : UsageUpdate) (now : Time) | Sweep (now : Time).

Definition eventTime (e : Event) : Time := match e with Settle _ _ now => now | Sweep now => now end.

Definition handle (billed : gmap string Time) (e : Event) : list Charge * gmap string Time :=
  match e with
  | Settle gs u now => UpdateUsage gs billed u now
  | Sweep now => ([], sweepBilled billed now)
  end.

(** The claims after some events. *)
Definition claims (billed : gmap string Time) (events : list Event) : gmap string Time :=
  fold_left (fun billed e => snd (handle billed e)) events billed.

(** ** From a response to an update (main.go) *)

Section Hooks.
Variable tokensOf : BifrostResponse -> Z.
Variable CalculateCost : BifrostResponse -> F.
(** The tokens and the cost of the usage billed with an error. *)
Variable billedUsage : BifrostError -> option (Z * F).

Definition postHookWorker (result : option BifrostResponse) (bifrostErr : option BifrostError) (provider model : string)
    (requestType : RequestType) (virtualKey requestID userID : string) (isFinalChunk : bool) (attemptNumber : Z) : option UsageUpdate :=
  let isStreaming := IsStreamRequestType requestType in
  if negb isStreaming || isFinalChunk then
    let '(tokensUsed, cost) :=
      match result with
      | Some r => (tokensOf r, CalculateCost r)
      | None => default (0, zeroAmount) (e ← bifrostErr; billedUsage e)
      end in
    Some (mkUsageUpdate virtualKey provider model (bool_decide (is_Some result)) tokensUsed cost requestID userID isStreaming isFinalChunk
            ((0 <? tokensUsed) || ltAmount zeroAmount cost) attemptNumber)
  else None.

Definition KeySkipVirtualKeyUsageTracking : string := "bifrost-skip-virtual-key-usage-tracking".
Definition KeyGovernanceBudgetIDs : string := "bifrost-governance-budget-ids".
Definition KeyGovernanceRateLimitIDs : string := "bifrost-governance-rate-limit-ids".

Definition stringOf (ctx : BifrostContext) (k : string) : string := match value ctx k with VString s => s | _ => "" end.

Definition isRejected (ctx : BifrostContext) (k : string) : bool := match value ctx k with VBool _ => true | _ => false end.

(** [GetResponseFields] without the resolved model. *)
Definition GetResponseFields (result : option BifrostResponse) (err : option BifrostError) : RequestType * string * string :=
  match (match result with Some r => rs_Extra r | None => be_ExtraFields <$> err end) with
  | Some x => (xf_RequestType x, xf_Provider x, xf_OriginalModelRequested x)
  | None => ("", "", "")
  end.

(** The update the hook hands to a worker, and what it writes on the context.
    The list of models of a list-models response is not filtered here. *)
Definition PostLLMHook (gs : Store) (ctx : BifrostContext) (result : option BifrostResponse) (err : option BifrostError) :
    option UsageUpdate * list CtxOp :=
  if isRejected ctx "bf-governance-rejected" then (None, [])
  else
    let '(requestType, provider, requestedModel) := GetResponseFields result err in
    let isFinalChunk := boolValue ctx KeyStreamEndIndicator in
    let effectiveVK := if boolValue ctx KeySkipVirtualKeyUsageTracking then "" else stringOf ctx KeyVirtualKey in
    if bool_decide (requestedModel = "") then (None, [])
    else
      let '(budgetIDs, rateLimitIDs) := CollectApplicableGovernanceIDs gs effectiveVK "" provider requestedModel in
      let ids k l := match l with [] => [] | _ => [OpSet k (VStrings l)] end in
      let attemptNumber := match value ctx KeyNumberOfRetries with VInt n => n | _ => 0 end in
      (postHookWorker result err provider requestedModel requestType effectiveVK (stringOf ctx KeyRequestID) "" isFinalChunk attemptNumber,
       ids KeyGovernanceBudgetIDs budgetIDs ++ ids KeyGovernanceRateLimitIDs rateLimitIDs).

(** The update after a tool ran: [success] and [toolCost] are those of its response. *)
Definition PostMCPHook (ctx : BifrostContext) (isExecuteTool success isCodemodeTool : bool) (toolCost : F) : option UsageUpdate :=
  let virtualKey := if boolValue ctx KeySkipVirtualKeyUsageTracking then "" else stringOf ctx KeyVirtualKey in
  if isRejected ctx "bf-governance-rejected" || negb isExecuteTool || bool_decide (virtualKey = "") || (success && isCodemodeTool) then None
  else
    let cost := if success then toolCost else zeroAmount in
    Some (mkUsageUpdate virtualKey "" "" success 0 cost (stringOf ctx KeyRequestID) "" false true (ltAmount zeroAmount cost) 0).
End Hooks.

End Tracker.
End GovTracker.
