(* ===== verification/GovTrackerTheory.v ===== *)
(** * What the usage tracker promises

    Within the life of a claim, of all the updates of one physical call exactly
    the first is settled; and the list of the rows an update charges is exact,
    and for the answer to a request of a key compared with the rows its
    evaluation looked at. *)

From S2P Require Import Prelude GoStrings Schemas Context Pipeline Calendar Windows GovStore GovPolicy GovPolicyTheory GovResolver GovResolverTheory GovTracker.

Local Open Scope string_scope.
Local Open Scope Z_scope.
Local Open Scope list_scope.

Module GovTrackerTheory.
Import Schemas Context Pipeline Calendar Windows GovStore GovPolicy GovPolicyTheory GovResolver GovResolverTheory GovTracker.

(** ** The key of a claim names one physical call *)

Definition callKey (requestID : string) (attempt : Z) : string := requestID +:+ ":" +:+ Itoa attempt.

Lemma callKey_inj r1 n1 r2 n2 : callKey r1 n1 = callKey r2 n2 -> r1 = r2 /\ n1 = n2.
Proof. intros [-> Hn]%last_colon; [|apply Itoa_colon..]. split; [done|]. by apply Itoa_inj. Qed.

Lemma ex_eq {A} (x : A) (P : A -> Prop) : (exists y, x = y /\ P y) <-> P x.
Proof. naive_solver. Qed.

Section Billing.
Context {F : Type} `{Amount F}.
Variable GetBaseModelName : option (string -> string).
Variable iter : forall A : Type, gmap string A -> list (string * A).

Local Abbreviation UsageUpdate := (@UsageUpdate F).
Local Abbreviation Event := (@Event F).
Local Abbreviation handle := (handle GetBaseModelName iter).

(** An update with something to bill. *)
Definition countable (u : UsageUpdate) : bool := uu_Success u || hasUsage u.

(** A terminal update of one physical call. *)
Definition ofCall (requestID : string) (attempt : Z) (u : UsageUpdate) : bool :=
  isTerminal u && bool_decide (uu_RequestID u = requestID) && bool_decide (uu_AttemptNumber u = attempt).

Definition updates (events : list Event) : list UsageUpdate :=
  omap (fun e => match e with Settle _ u _ => Some u | Sweep _ => None end) events.

(** The updates that are settled, in order. *)
Fixpoint settled (billed : gmap string Time) (events : list Event) : list UsageUpdate :=
  match events with
  | [] => []
  | e :: events =>
      match e with Settle _ u now => when (fst (accept billed u now)) [u] | Sweep _ => [] end ++ settled (snd (handle billed e)) events
  end.

Section Call.
Variable requestID : string.
Variable attempt : Z.
Hypothesis named : requestID <> "".
Local Abbreviation key := (callKey requestID attempt).

(** An update of another call, or with nothing to bill, leaves the claim alone. *)
Lemma admit_other (billed : gmap string Time) (u : UsageUpdate) now :
  ofCall requestID attempt u && countable u = false -> snd (accept billed u now) !! key = billed !! key.
Proof.
  intros Hu. unfold accept, ofCall, countable in *. destruct (negb (uu_Success u) && negb (hasUsage u)) eqn:Ec; [done|].
  destruct (isTerminal u) eqn:Et; [|done]. unfold tryClaimBilling. destruct (bool_decide_reflect (uu_RequestID u = "")) as [Hr|Hr]; [done|].
  destruct (billed !! billingKey u) as [t|] eqn:Eb; [done|]. cbn. apply lookup_insert_ne. intros Hk.
  apply (callKey_inj (uu_RequestID u) (uu_AttemptNumber u)) in Hk as [Hk1 Hk2]. rewrite !bool_decide_true in Hu by done.
  by destruct (uu_Success u), (hasUsage u).
Qed.

(** The first update of the call claims it, and the others find it claimed. *)
Lemma admit_call (billed : gmap string Time) (u : UsageUpdate) now :
  ofCall requestID attempt u = true -> countable u = true ->
  accept billed u now = match billed !! key with Some _ => (false, billed) | None => (true, <[key := now]> billed) end.
Proof.
  unfold ofCall, countable, accept. intros [[Ht Hr%bool_decide_eq_true]%andb_true_iff Hn%bool_decide_eq_true]%andb_true_iff Hc.
  assert (negb (uu_Success u) && negb (hasUsage u) = false) as -> by (by destruct (uu_Success u), (hasUsage u)).
  rewrite Ht. unfold tryClaimBilling. rewrite bool_decide_false by congruence. unfold billingKey. by rewrite Hr, Hn.
Qed.

Lemma admit_nothing (billed : gmap string Time) (u : UsageUpdate) now : countable u = false -> accept billed u now = (false, billed).
Proof. unfold countable, accept. by destruct (uu_Success u), (hasUsage u). Qed.

(** A claim lives through the sweeps of its time. *)
Lemma sweep_keeps (billed : gmap string Time) now (t : Time) : billed !! key = Some t -> now <= t + billedEntryTTL -> sweepBilled billed now !! key = Some t.
Proof.
  intros Hb Hn. unfold sweepBilled. apply map_lookup_filter_Some. split; [done|]. cbn. apply negb_true_iff, Z.ltb_ge. lia.
Qed.

Lemma sweep_none (billed : gmap string Time) now : billed !! key = None -> sweepBilled billed now !! key = None.
Proof. intros Hb. unfold sweepBilled. apply map_lookup_filter_None. by left. Qed.

Lemma handle_claims (billed : gmap string Time) e : snd (handle billed e) = match e with Settle _ u now => snd (accept billed u now) | Sweep now => sweepBilled billed now end.
Proof. destruct e as [gs u now|now]; [|done]. cbn. unfold UpdateUsage. by destruct (accept billed u now). Qed.

Local Abbreviation ours := (filter (fun u : UsageUpdate => ofCall requestID attempt u = true)).
Local Abbreviation billable := (filter (fun u : UsageUpdate => ofCall requestID attempt u && countable u = true)).

Lemma settled_claimed (billed : gmap string Time) events (t : Time) :
  billed !! key = Some t -> Forall (fun e => eventTime e <= t + billedEntryTTL) events -> ours (settled billed events) = [].
Proof.
  revert billed. induction events as [|e events IH]; intros billed Hb He; [done|]. apply Forall_cons in He as [He Hes].
  cbn [settled]. rewrite filter_app, handle_claims. destruct e as [gs u now|now]; cbn [app eventTime] in *.
  - destruct (ofCall requestID attempt u) eqn:Eo.
    + destruct (countable u) eqn:Ec; [rewrite admit_call by done; rewrite Hb|rewrite admit_nothing by done]; cbn; by apply IH.
    + rewrite IH; [|by rewrite admit_other by (by rewrite Eo)|done]. rewrite app_nil_r.
      destruct (accept billed u now).1; [|done]. cbn [when]. rewrite filter_cons_False; [done|congruence].
  - cbn. apply IH; [by apply sweep_keeps|done].
Qed.

Lemma settled_unclaimed (billed : gmap string Time) events (t : Time) :
  billed !! key = None -> Forall (fun e => t <= eventTime e <= t + billedEntryTTL) events ->
  ours (settled billed events) = take 1 (billable (updates events)).
Proof.
  revert billed. induction events as [|e events IH]; intros billed Hb He; [done|]. apply Forall_cons in He as [He Hes].
  cbn [settled]. rewrite filter_app, handle_claims. destruct e as [gs u now|now]; cbn [app eventTime] in *.
  2: { cbn. rewrite IH; [done|by apply sweep_none|done]. }
  change (updates (Settle gs u now :: events)) with (u :: updates events).
  destruct (ofCall requestID attempt u) eqn:Eo; [destruct (countable u) eqn:Ec|].
  - rewrite admit_call by done. rewrite Hb. cbn [fst snd when]. rewrite filter_cons_True by done.
    rewrite (filter_cons_True _ u) by (by rewrite Eo, Ec). cbn [take]. rewrite filter_nil.
    rewrite (settled_claimed _ _ now); [done|by rewrite lookup_insert_eq|]. eapply Forall_impl; [done|]. cbn. lia.
  - rewrite admit_nothing by done. cbn [fst snd when]. rewrite filter_nil, (filter_cons_False _ u) by (by rewrite Eo, Ec). by apply IH.
  - rewrite (filter_cons_False _ u) by (by rewrite Eo). rewrite IH; [|by rewrite admit_other by (by rewrite Eo)|done].
    destruct (accept billed u now).1; [|done]. cbn [when]. rewrite filter_cons_False; [done|congruence].
Qed.
End Call.

(** C16. Over any interleaving of updates and sweeps that spans at most the life of a
    claim, exactly the first update with something to bill of a physical call,
    a request and an attempt, is settled: none is charged twice and none is lost. *)
Theorem settles_once requestID attempt (events : list Event) t :
  requestID <> "" -> Forall (fun e => t <= eventTime e <= t + billedEntryTTL) events ->
  filter (fun u => ofCall requestID attempt u = true) (settled ∅ events) =
  take 1 (filter (fun u => ofCall requestID attempt u && countable u = true) (updates events)).
Proof. intros Hid He. by apply (settled_unclaimed requestID attempt Hid ∅ events t). Qed.

(** ** Charged and enforced *)

Hypothesis iter_range : forall A m, iter A m ≡ₚ map_to_list m.

Local Abbreviation Store := (@Store F).
Local Abbreviation VirtualKey := (VirtualKey F).
Local Abbreviation countedHolders := (countedHolders GetBaseModelName).
Local Abbreviation configsFor := (collectModelConfigsFor GetBaseModelName).
Local Abbreviation keyOf := (@keyOf F).

(** The budgets of the holders a check reaches. *)
Definition holds (l : list Holder) (id : string) : Prop := exists h, h ∈ l /\ id ∈ h.1.

(** A budget of a configuration that a later tier hides from the checks. *)
Definition hiddenBudget (gs : Store) (scope scopeID model provider id : string) : Prop :=
  exists earlier mc later,
    collectModelConfigsFor GetBaseModelName gs scope scopeID model (providerStr provider) = earlier ++ mc :: later /\
    id ∈ mc_Budgets mc /\ hiddenBy (hasBudgets gs) mc later = true.

Lemma configBudgetIDs_spec (gs : Store) scope scopeID model provider id :
  let mcs := collectModelConfigsFor GetBaseModelName gs scope scopeID model (providerStr provider) in
  (id ∈ configBudgetIDs mcs -> holds (countedHolders gs scope scopeID model provider) id \/ hiddenBudget gs scope scopeID model provider id) /\
  (holds (countedHolders gs scope scopeID model provider) id -> id ∈ configBudgetIDs mcs).
Proof.
  unfold configBudgetIDs, holds, GovResolverTheory.countedHolders, hiddenBudget. cbv zeta.
  induction (collectModelConfigsFor _ _ _ _ _ _) as [|mc l IH]; cbn [countingHolders fmap list_fmap concat].
  { split; [by intros ?%elem_of_nil|by intros (h & ?%elem_of_nil & _)]. }
  destruct IH as [IH1 IH2]. rewrite elem_of_app. split.
  - intros [Hid|Hid].
    + destruct (hiddenBy (hasBudgets gs) mc l) eqn:Eh; [right; by exists [], mc, l|]. left. eexists. split; [by left|done].
    + destruct (IH1 Hid) as [(h & Hh & ?)|(e & mc' & later & -> & ?)]; [left; exists h; split; [by right|done]|].
      right. by exists (mc :: e), mc', later.
  - intros (h & [->|Hh]%elem_of_cons & Hid); [|right; apply IH2; by exists h]. cbn in Hid.
    destruct (hiddenBy _ mc l); [by apply elem_of_nil in Hid|by left].
Qed.

Lemma providerBudgetIDs_spec (gs : Store) provider id :
  id ∈ providerBudgetIDs gs provider <-> provider <> "" /\ holds (providerHolders gs provider) id.
Proof.
  unfold providerBudgetIDs, holds, providerHolders. case_bool_decide as Hp; [set_solver|]. rewrite elem_option_list.
  destruct (providers gs !! provider) as [p|]; cbn; [|set_solver]. setoid_rewrite list_elem_of_singleton. split.
  - intros Hb. split; [done|]. eexists. split; [done|]. by apply elem_option_list.
  - intros (_ & h & -> & Hid). by apply elem_option_list.
Qed.

Lemma keyBudgetIDs_spec (gs : Store) (vk : VirtualKey) provider id :
  Keyed gs -> is_Some (LoadBudget gs id) ->
  id ∈ collectBudgetIDsFromMemory iter gs vk provider <-> holds (keyHolders gs vk provider) id.
Proof.
  intros Hk [b Hb]. unfold collectBudgetIDsFromMemory, holds. rewrite list_elem_of_fmap. setoid_rewrite (concat_iter iter iter_range).
  setoid_rewrite hierarchy_budgets; [|done]. split.
  - intros (b' & -> & h & Hh & i & Hi & Hl). exists h. split; [done|]. by rewrite (Hk i b' Hl).
  - intros (h & Hh & Hi). exists b. split; [symmetry; by apply Hk|]. exists h. split; [done|]. by exists id.
Qed.

(** ** The charges of an update *)

Definition budgetsCharged (l : list (@Charge F)) : list (string * F) :=
  omap (fun c => match c with ChargeBudget id cost => Some (id, cost) | ChargeRateLimit _ _ _ _ => None end) l.

(** An update that costs something and carries its usage. *)
Definition pays (u : UsageUpdate) : bool := (negb (uu_IsStreaming u) || uu_HasUsageData u) && ltAmount zeroAmount (uu_Cost u).

(** The budgets an update is charged to, with their repetitions: those of the
    provider and of every configuration of the model, those of the user's and
    the key's configurations of the model, and those the key reaches. *)
Definition chargedIDs (gs : Store) (u : UsageUpdate) : list string :=
  let model := uu_Model u in
  let provider := uu_Provider u in
  let ofScope scope id := configBudgetIDs (configsFor gs scope id model (providerStr provider)) in
  unless model (providerBudgetIDs gs provider ++ ofScope ModelConfigScopeGlobal "" ++
                unless (uu_UserID u) (ofScope ModelConfigScopeUser (uu_UserID u))) ++
  match (if bool_decide (uu_VirtualKey u = "") then None else GetVirtualKey gs (uu_VirtualKey u)) with
  | Some vk => unless model (unless (vk_ID vk) (ofScope ModelConfigScopeVirtualKey (vk_ID vk))) ++ reachedBudgets gs vk provider
  | None => []
  end.

Lemma charged_app l1 l2 : budgetsCharged (l1 ++ l2) = budgetsCharged l1 ++ budgetsCharged l2.
Proof. apply omap_app. Qed.

Lemma charged_when b l : budgetsCharged (when b l) = when b (budgetsCharged l).
Proof. by destruct b. Qed.

Lemma charged_budgets cost ids : budgetsCharged (budgetCharges cost ids) = (fun id => (id, cost)) <$> ids.
Proof. induction ids as [|id ids IH]; [done|]. cbn. f_equal. exact IH. Qed.

Lemma charged_rates tokens ut ur ids : budgetsCharged (rateCharges tokens ut ur ids) = [].
Proof. induction ids as [|id ids IH]; [done|exact IH]. Qed.

Lemma when_nil {A} b : when b ([] : list A) = [].
Proof. by destruct b. Qed.

Lemma memory_reached (gs : Store) (vk : VirtualKey) provider : Keyed gs ->
  collectBudgetIDsFromMemory iter gs vk provider ≡ₚ reachedBudgets gs vk provider.
Proof.
  intros Hk. rewrite <-(hierarchy_reached gs vk provider Hk). unfold collectBudgetIDsFromMemory.
  apply fmap_Permutation, concat_perm, fmap_Permutation, iter_range.
Qed.

Lemma levels_charged (gs : Store) u : Keyed gs ->
  budgetsCharged (concat (levels GetBaseModelName iter gs u)) ≡ₚ
  if pays u then (fun id => (id, uu_Cost u)) <$> chargedIDs gs u else [].
Proof.
  intros Hk. unfold levels. fold (pays u). rewrite concat_app, charged_app.
  set (key := if bool_decide (uu_VirtualKey u = "") then None else GetVirtualKey gs (uu_VirtualKey u)).
  unfold UpdateProviderAndModelRateLimitUsageInMemory, UpdateProviderAndModelBudgetUsageInMemory, UpdateScopedModelRateLimitUsageInMemory,
    UpdateScopedModelBudgetUsageInMemory, UpdateVirtualKeyRateLimitUsageInMemory, UpdateVirtualKeyBudgetUsageInMemory,
    UpdateUserBudgetUsageInMemory, UpdateUserRateLimitUsageInMemory.
  rewrite (bool_decide_false (ModelConfigScopeUser = "")), (bool_decide_false (ModelConfigScopeVirtualKey = "")) by done. cbn [orb].
  assert (forall (b1 b2 : bool) ids tokens ut ur, budgetsCharged (when b1 (if b2 then [] else rateCharges tokens ut ur ids)) = []) as Hr.
  { intros [] [] ids tokens ut ur; try done. apply charged_rates. }
  assert (forall b scope id, budgetsCharged (when b (if bool_decide (id = "") then [] else budgetCharges (uu_Cost u)
      (configBudgetIDs (configsFor gs scope id (uu_Model u) (providerStr (uu_Provider u)))))) =
    when b ((fun id => (id, uu_Cost u)) <$> unless id (configBudgetIDs (configsFor gs scope id (uu_Model u) (providerStr (uu_Provider u)))))) as Hb.
  { intros b scope id. rewrite charged_when. unfold unless. case_bool_decide; [done|]. by rewrite charged_budgets. }
  assert (budgetsCharged ([] : list (@Charge F)) = []) as Hnil by done.
  unfold chargedIDs. fold key. rewrite fmap_app. cbn [concat].
  rewrite !charged_app, ?Hr, ?Hb, !charged_when, charged_rates, charged_budgets, !when_nil, Hnil. cbn [app].
  destruct key as [vk|]; cbn [concat].
  - rewrite !charged_app, Hr, Hb, !charged_when, charged_rates, charged_budgets, when_nil, Hnil. cbn [app].
    destruct (pays u); [|by rewrite !andb_false_r, !when_nil].
    rewrite !andb_true_r, !when_nil, (memory_reached gs vk (uu_Provider u) Hk). unfold unless. cbn [when].
    repeat case_bool_decide; cbn [when negb andb]; rewrite ?fmap_app, ?app_nil_r, <-?app_assoc; done.
  - rewrite Hnil. destruct (pays u); [|by rewrite !andb_false_r, ?when_nil]. rewrite !andb_true_r, ?when_nil. unfold unless.
    repeat case_bool_decide; cbn [when negb andb]; rewrite ?fmap_app, ?app_nil_r, <-?app_assoc; done.
Qed.

(** A request of a virtual key for a model, and the update of its response. *)
Definition answered (request : EvaluationRequest) (u : UsageUpdate) : Prop :=
  uu_VirtualKey u = ev_VirtualKey request /\ uu_Provider u = ev_Provider request /\ uu_Model u = ev_Model request /\
  uu_Model u <> "" /\ uu_UserID u = "" /\ ev_UserID request = "".

Definition held (l : list (Check * Check * Holder)) (id : string) : Prop := exists x, x ∈ l /\ id ∈ x.2.1.

Lemma held_app l1 l2 id : held (l1 ++ l2) id <-> held l1 id \/ held l2 id.
Proof. unfold held. setoid_rewrite elem_of_app. apply ex_or. Qed.

Lemma held_nil id : held [] id <-> False.
Proof. split; [|done]. intros (x & Hx & _). by apply elem_of_nil in Hx. Qed.

Lemma held_unless s l id : held (unless s l) id <-> s <> "" /\ held l id.
Proof. unfold unless. case_bool_decide; [rewrite held_nil|]; tauto. Qed.

Lemma held_at rate budget l id : held (at_ rate budget l) id <-> holds l id.
Proof.
  unfold held, holds, at_. setoid_rewrite list_elem_of_fmap. split.
  - intros (x & (h & -> & Hh) & Hid). by exists h.
  - intros (h & Hh & Hid). exists (rate, budget, h). split; [by exists h|done].
Qed.

(** A budget of the team or the customer that the key embeds without naming it
    by a foreign key. *)
Definition embeddedBudget (gs : Store) (vk : VirtualKey) (id : string) : Prop :=
  (vk_TeamID vk = None /\ exists t, teams gs !! teamIDOf vk = Some t /\ id ∈ tm_Budgets t) \/
  (vk_CustomerID vk = None /\ exists c, customers gs !! customerIDOf vk = Some c /\ id ∈ cu_Budgets c).

Lemma team_linked (gs : Store) (vk : VirtualKey) provider id :
  holds (teamHolder <$> option_list (teams gs !! teamIDOf vk)) id -> holds (keyHolders gs vk provider) id \/ embeddedBudget gs vk id.
Proof.
  intros (h & Hh & Hid). apply list_elem_of_fmap in Hh as (t & -> & Hin). apply elem_option_list in Hin. cbn in Hid.
  destruct (vk_TeamID vk) as [tid|] eqn:E; [left|right; left; eauto].
  apply (exists_keyHolders gs vk provider (fun h => id ∈ h.1)). right; right; left. exists t. split; [|done].
  unfold teamOf. rewrite E. unfold teamIDOf in Hin. by rewrite E in Hin.
Qed.

Lemma customer_linked (gs : Store) (vk : VirtualKey) provider id :
  holds (customerHolder <$> option_list (customers gs !! customerIDOf vk)) id -> holds (keyHolders gs vk provider) id \/ embeddedBudget gs vk id.
Proof.
  intros (h & Hh & Hid). apply list_elem_of_fmap in Hh as (c & -> & Hin). apply elem_option_list in Hin. cbn in Hid.
  destruct (vk_CustomerID vk) as [cid|] eqn:E; [left|right; right; eauto].
  apply (exists_keyHolders gs vk provider (fun h => id ∈ h.1)). right; right; right. exists c. split; [|done].
  apply customers_reached. right. rewrite E. unfold customerIDOf in Hin. by rewrite E in Hin.
Qed.

(** The budgets an evaluation of the request looks at. *)
Definition lookedAt (gs : Store) (request : EvaluationRequest) (id : string) : Prop :=
  held (holders GetBaseModelName gs request) id.

Lemma elem_of_unless {A} s (l : list A) x : x ∈ unless s l <-> s <> "" /\ x ∈ l.
Proof. unfold unless. case_bool_decide; [rewrite elem_of_nil|]; tauto. Qed.

Lemma charged_looked_at (gs : Store) request u id :
  Keyed gs -> answered request u -> is_Some (LoadBudget gs id) ->
  (id ∈ chargedIDs gs u -> lookedAt gs request id \/
     hiddenBudget gs ModelConfigScopeGlobal "" (uu_Model u) (uu_Provider u) id \/
     exists vk, keyOf gs request = Some vk /\ hiddenBudget gs ModelConfigScopeVirtualKey (vk_ID vk) (uu_Model u) (uu_Provider u) id) /\
  (lookedAt gs request id -> id ∈ chargedIDs gs u \/ exists vk, keyOf gs request = Some vk /\ embeddedBudget gs vk id).
Proof.
  intros Hk (Hvk & Hp & Hm & Hne & Hu & Hu') Hex. unfold chargedIDs, lookedAt, holders. rewrite Hvk, Hp, Hm, Hu, Hu' in *.
  fold (keyOf gs request). rewrite !held_app, !held_unless, !held_at.
  rewrite (bool_decide_true ("" = "")) by done. rewrite !elem_of_app, !elem_of_unless, !elem_of_app, !elem_of_unless, providerBudgetIDs_spec.
  pose proof (eq_refl "" : "" = "") as He.
  pose proof (configBudgetIDs_spec gs ModelConfigScopeGlobal "" (ev_Model request) (ev_Provider request) id) as [Hg1 Hg2].
  assert (forall vk, id ∈ reachedBudgets gs vk (ev_Provider request) <-> holds (keyHolders gs vk (ev_Provider request)) id) as Hreach.
  { intros vk. rewrite <-(keyBudgetIDs_spec gs vk (ev_Provider request) id Hk Hex). by rewrite (memory_reached gs vk _ Hk). }
  destruct (keyOf gs request) as [vk|] eqn:Ek.
  - pose proof (configBudgetIDs_spec gs ModelConfigScopeVirtualKey (vk_ID vk) (ev_Model request) (ev_Provider request) id) as [Hv1 Hv2].
    pose proof (team_linked gs vk (ev_Provider request) id). pose proof (customer_linked gs vk (ev_Provider request) id).
    rewrite !elem_of_app, !held_app, !held_unless, !held_at, !elem_of_unless, Hreach. setoid_rewrite (inj_iff Some). rewrite !ex_eq. tauto.
  - rewrite !held_nil, elem_of_nil. tauto.
Qed.

(** C17. What an update charges.  Any update is charged, once per entry and by
    its cost, to this list of budgets, and to nothing else: the budget of the
    provider and those of the model's configurations (global, of the user, of
    the key), the budgets of the key's configurations of the provider, of the
    key and of its team once each, and those of the customer of the team and of
    the customer of the key whatever was charged before; nothing if it costs
    nothing or is a stream chunk without usage.  For the answer to a request of
    a key, without a user, that names a model, these are the budgets the
    evaluation of the request looked at, but for two kinds: a configuration
    hidden by a later tier is charged and not looked at, and a team or customer
    that the key embeds without a foreign key is looked at and not charged.
    The store is assumed to file every budget under its own ID. *)
Theorem charged_iff_enforced (gs : Store) u :
  Keyed gs ->
  budgetsCharged (concat (levels GetBaseModelName iter gs u)) ≡ₚ
    (if pays u then (fun id => (id, uu_Cost u)) <$> chargedIDs gs u else []) /\
  forall request id, answered request u -> is_Some (LoadBudget gs id) ->
    (id ∈ chargedIDs gs u -> lookedAt gs request id \/
       hiddenBudget gs ModelConfigScopeGlobal "" (uu_Model u) (uu_Provider u) id \/
       exists vk, keyOf gs request = Some vk /\ hiddenBudget gs ModelConfigScopeVirtualKey (vk_ID vk) (uu_Model u) (uu_Provider u) id) /\
    (lookedAt gs request id -> id ∈ chargedIDs gs u \/ exists vk, keyOf gs request = Some vk /\ embeddedBudget gs vk id).
Proof. intros Hk. split; [by apply levels_charged|]. intros request id. by apply charged_looked_at. Qed.

End Billing.

(** ** Examples *)

#[local] Instance cents : Amount Z := mkAmount Z 0 Z.add Z.leb Z.ltb (fun _ => true).

(** The answer of a model, and the two tools that the agent runs for it: the
    tools carry the request ID of the answer and no attempt of their own. *)
Definition modelAnswer : UsageUpdate := mkUsageUpdate "sk" "openai" "gpt" true 120 5 "req-1" "" false false true 0.
Definition toolCall (cost : Z) : UsageUpdate := mkUsageUpdate "sk" "" "" true 0 cost "req-1" "" false true true 0.

Definition agentTurn : list Event :=
  [Settle exampleStore modelAnswer 0; Sweep (2 * Minute); Settle exampleStore (toolCall 3) (2 * Minute); Settle exampleStore (toolCall 7) (3 * Minute)].

(** Of an agent's turn only the answer of the model is settled: the tools cost nothing. *)
Lemma settles_once_witness :
  filter (fun u => ofCall "req-1" 0 u = true) (settled None keyOrder ∅ agentTurn) = [modelAnswer] /\
  updates agentTurn = [modelAnswer; toolCall 3; toolCall 7].
Proof.
  split; [|reflexivity].
  rewrite (settles_once None keyOrder "req-1" 0 agentTurn 0); [reflexivity|discriminate|].
  repeat (constructor; [vm_compute; split; discriminate|]). constructor.
Defined.

Lemma charged_iff_enforced_witness :
  budgetsCharged (concat (levels None keyOrder exampleStore modelAnswer)) ≡ₚ [("b", 5)] /\
  lookedAt None exampleStore exampleRequest "b".
Proof.
  destruct (charged_iff_enforced None keyOrder (fun A m => reflexivity _) exampleStore modelAnswer example_keyed) as [Hc Hl].
  split; [exact Hc|].
  destruct (Hl exampleRequest "b") as [[Hlook|[(e & mc & later & Hm & _)|(vk & Hk & e & mc & later & Hm & _)]] _].
  - vm_compute. repeat split. discriminate.
  - vm_compute. by eexists.
  - vm_compute. left.
  - exact Hlook.
  - vm_compute in Hm. by destruct e.
  - vm_compute in Hk. injection Hk as <-. vm_compute in Hm. by destruct e.
Defined.
End GovTrackerTheory.
