(* ===== verification/KeyConfig.v ===== *)
(** * Key configuration of the model catalogue
    (src/framework/modelcatalog/keyconfig/store.go)

    What the keys of each provider allow: the entries of the keys, the
    aggregated lists of allowed and blocked models and the index of aliases.
    A writer builds the state of a provider and installs it under the lock, so
    an operation is one step.  Go ranges over the maps of aliases and of blocked
    models in no particular order: [iter] is the order it happens to take. *)

From S2P Require Import Prelude GoStrings Schemas.

Local Open Scope string_scope.
Local Open Scope list_scope.

Module KeyConfig.
Import Schemas.

Section KeyConfig.
(** What an alias carries besides its name. *)
Context {AliasConfig : Type}.
Variable iter : forall A : Type, gmap string A -> list (string * A).

(** A key with its aliases, which [Schemas.Key] leaves out. *)
Record ConfiguredKey := mkConfigured { ck_Key : Key; ck_Aliases : gmap string AliasConfig }.

Record KeyEntry := mkEntry {
  e_KeyID : string;
  e_Enabled : bool;
  e_Allowed : WhiteList.t;
  e_Blacklisted : BlackList.t;
  e_Aliases : gmap string AliasConfig }.

Record AliasOwner := mkOwner { ao_KeyID : string; ao_Config : AliasConfig }.

Record providerState := mkState {
  entries : list KeyEntry;
  allowed : WhiteList.t;
  blacklisted : BlackList.t;
  aliasIndex : gmap string AliasOwner }.

Definition Store : Type := gmap ModelProvider providerState.

(** ** Building the state of a provider *)

Definition isEnabled (k : ConfiguredKey) : bool := default true (k_Enabled (ck_Key k)).

Definition entryOf (k : ConfiguredKey) : KeyEntry :=
  mkEntry (k_ID (ck_Key k)) (isEnabled k) (k_Models (ck_Key k)) (k_BlacklistedModels (ck_Key k)) (ck_Aliases k).

(** A key that takes part in the aggregation. *)
Definition counts (k : ConfiguredKey) : bool := isEnabled k && negb (BlackList.IsBlockAll (k_BlacklistedModels (ck_Key k))).

(** How often a blocked model was seen, and how it was first spelled. *)
Definition bump (agg : gmap string (nat * string)) (m : string) : gmap string (nat * string) :=
  let '(count, name) := default (0%nat, m) (agg !! ToLower m) in
  <[ToLower m := (S count, name)]> agg.

Definition addAllowed (blocked : BlackList.t) (acc : WhiteList.t) (m : string) : WhiteList.t :=
  if BlackList.IsBlocked blocked m then acc
  else if WhiteList.Contains acc m then acc
  else acc ++ [m].

Definition addAliases (index : gmap string AliasOwner) (k : ConfiguredKey) : gmap string AliasOwner :=
  fold_left (fun index p => <[ToLower (fst p) := mkOwner (k_ID (ck_Key k)) (snd p)]> index) (iter _ (ck_Aliases k)) index.

Record Aggregate := mkAggregate {
  allModelsAllowed : bool;
  enabledKeysCount : nat;
  agg_allowed : WhiteList.t;
  blacklistAgg : gmap string (nat * string);
  agg_index : gmap string AliasOwner }.

Definition addKey (a : Aggregate) (k : ConfiguredKey) : Aggregate :=
  if counts k then
    let models := k_Models (ck_Key k) in
    let blocked := k_BlacklistedModels (ck_Key k) in
    mkAggregate
      (allModelsAllowed a || WhiteList.IsUnrestricted models)
      (S (enabledKeysCount a))
      (if WhiteList.IsUnrestricted models then agg_allowed a else fold_left (addAllowed blocked) models (agg_allowed a))
      (fold_left bump blocked (blacklistAgg a))
      (addAliases (agg_index a) k)
  else a.

Definition IsStandardProvider (provider : ModelProvider) : bool := bool_decide (provider ∈ StandardProviders).

(** A provider that is meant to work without keys. *)
Definition keyless (provider : ModelProvider) (keys : list ConfiguredKey) : bool :=
  match keys with [] => negb (IsStandardProvider provider) || IsKeylessProvider provider | _ => false end.

Definition buildState (provider : ModelProvider) (keys : list ConfiguredKey) : option providerState :=
  let a := fold_left addKey keys (mkAggregate (keyless provider keys) 0 [] ∅ ∅) in
  if bool_decide (enabledKeysCount a = 0%nat) && negb (allModelsAllowed a) then None
  else Some (mkState (entryOf <$> keys)
         (if allModelsAllowed a then ["*"] else agg_allowed a)
         ((fun p => snd (snd p)) <$> filter (fun p => fst (snd p) = enabledKeysCount a) (iter _ (blacklistAgg a)))
         (agg_index a)).

(** ** Writers *)

Definition SetProvider (s : Store) (provider : ModelProvider) (keys : list ConfiguredKey) : Store :=
  match buildState provider keys with
  | Some st => <[provider := st]> s
  | None => delete provider s
  end.

Definition Replace (snapshot : gmap ModelProvider (list ConfiguredKey)) : Store := map_imap buildState snapshot.

Definition RemoveProvider (s : Store) (provider : ModelProvider) : Store := delete provider s.

(** ** Readers *)

Definition EntriesFor (s : Store) (provider : ModelProvider) : list KeyEntry :=
  match s !! provider with Some st => entries st | None => [] end.

Definition EntryFor (s : Store) (provider : ModelProvider) (keyID : string) : option KeyEntry :=
  st ← s !! provider; head (filter (fun e => e_KeyID e = keyID) (entries st)).

(** [None] is the nil slice: of a provider that is not in the store, and of one
    whose keys list no model (the list was never appended to). *)
Definition AllowedFor (s : Store) (provider : ModelProvider) : option WhiteList.t :=
  st ← s !! provider; match allowed st with [] => None | l => Some l end.

Definition BlacklistedFor (s : Store) (provider : ModelProvider) : BlackList.t :=
  match s !! provider with Some st => blacklisted st | None => [] end.

(** A key that can serve a model. *)
Definition serves (e : KeyEntry) (model : string) : bool :=
  negb (negb (e_Enabled e) || BlackList.IsBlockAll (e_Blacklisted e) || BlackList.IsBlocked (e_Blacklisted e) model) &&
  WhiteList.IsAllowed (e_Allowed e) model.

Definition anyKeyAllows (st : providerState) (model : string) : bool := existsb (fun e => serves e model) (entries st).

Definition IsAllowed (s : Store) (provider : ModelProvider) (model : string) : bool :=
  match s !! provider with
  | None => false
  | Some st =>
      match entries st with
      | [] => WhiteList.IsAllowed (allowed st) model && negb (BlackList.IsBlocked (blacklisted st) model)
      | _ => anyKeyAllows st model
      end
  end.

Definition KeysAllowingModel (s : Store) (provider : ModelProvider) (model : string) : list string :=
  match s !! provider with
  | None => []
  | Some st => e_KeyID <$> filter (fun e => serves e model = true) (entries st)
  end.

Definition ResolveAlias (s : Store) (provider : ModelProvider) (model : string) : option AliasOwner :=
  st ← s !! provider; aliasIndex st !! ToLower model.

Definition Providers (s : Store) : list ModelProvider := fst <$> iter _ s.

End KeyConfig.
End KeyConfig.
