(* ===== verification/KeyConfigTheory.v ===== *)
(** * The aggregated key configuration is exact

    The lists the catalogue keeps for a provider, in terms of its keys: which
    keys serve a model, which models every key blocks and which some key lists.
    The allowed and blocked lists together only bound what the keys serve. *)

From S2P Require Import Prelude GoStrings Schemas KeyConfig.

Local Open Scope string_scope.
Local Open Scope list_scope.

Module KeyConfigTheory.
Import Schemas KeyConfig.

(** ** Lists of models *)

Lemma EqualFold_iff a b : EqualFold a b = true <-> ToLower a = ToLower b.
Proof. unfold EqualFold. by rewrite String.eqb_eq. Qed.

Lemma blacklist_contains (l : BlackList.t) m : BlackList.Contains l m = true <-> ToLower m ∈ ToLower <$> l.
Proof.
  unfold BlackList.Contains. rewrite existsb_exists, list_elem_of_fmap.
  setoid_rewrite <-list_elem_of_In. setoid_rewrite EqualFold_iff. naive_solver.
Qed.

Lemma whitelist_contains (l : WhiteList.t) m : WhiteList.Contains l m = true <-> ToLower m ∈ ToLower <$> l.
Proof. apply blacklist_contains. Qed.

Lemma fold_eq a b : ToLower a = ToLower b -> forall l, BlackList.IsBlocked l a = BlackList.IsBlocked l b.
Proof.
  intros E l. unfold BlackList.IsBlocked. f_equal. apply eq_true_iff_eq. by rewrite !blacklist_contains, E.
Qed.

(** [Validate] leaves no two spellings of one model. *)
Lemma noDuplicates_spec seen l : WhiteList.noDuplicates seen l = None -> NoDup (ToLower <$> l) /\ forall m, m ∈ ToLower <$> l -> m ∉ seen.
Proof.
  revert seen. induction l as [|v l IH]; intros seen; cbn; [split; [constructor|by intros ? ?%elem_of_nil]|].
  case_bool_decide as Hs; [done|]. intros [Hnd Hout]%IH. split.
  - constructor; [|done]. intros Hin. apply (Hout _ Hin). by left.
  - intros m [->|Hin]%elem_of_cons; [done|]. intros Hm. apply (Hout _ Hin). by right.
Qed.

(** ** The aggregation *)

Section Aggregation.
Context {AliasConfig : Type}.
Variable iter : forall A : Type, gmap string A -> list (string * A).
Hypothesis iter_range : forall A m, iter A m ≡ₚ map_to_list m.

Local Abbreviation ConfiguredKey := (@ConfiguredKey AliasConfig).
Local Abbreviation Aggregate := (@Aggregate AliasConfig).
Local Abbreviation models k := (k_Models (ck_Key k)).
Local Abbreviation blocks k := (k_BlacklistedModels (ck_Key k)).

(** What the handlers check before they store a key. *)
Definition Valid (k : ConfiguredKey) : Prop :=
  BlackList.Validate (blocks k) = Ok tt /\ WhiteList.Validate (models k) = Ok tt.

Definition countOf (agg : gmap string (nat * string)) (l : string) : nat := match agg !! l with Some (n, _) => n | None => 0 end.

Definition Spelled (agg : gmap string (nat * string)) : Prop := forall l n name, agg !! l = Some (n, name) -> ToLower name = l /\ n <> 0%nat.

Lemma bump_count agg m l : countOf (bump agg m) l = (countOf agg l + if bool_decide (ToLower m = l) then 1 else 0)%nat.
Proof.
  unfold bump, countOf. destruct (default (0%nat, m) (agg !! ToLower m)) as [c name] eqn:E.
  case_bool_decide as Hl; [subst l; rewrite lookup_insert_eq|rewrite lookup_insert_ne by done; lia].
  destruct (agg !! ToLower m) as [[c' n']|]; cbn in E; injection E as <- <-; lia.
Qed.

Lemma bump_spelled agg m : Spelled agg -> Spelled (bump agg m).
Proof.
  intros Hs l n name. unfold bump. destruct (default (0%nat, m) (agg !! ToLower m)) as [c nm] eqn:E.
  rewrite lookup_insert_Some. intros [[<- [= <- <-]]|[_ ?]]; [|by apply (Hs l n name)].
  split; [|done]. destruct (agg !! ToLower m) as [[c' n']|] eqn:E'; cbn in E; injection E as <- <-; [|done].
  by apply Hs in E' as [].
Qed.

Lemma bumps_count bl agg l : NoDup (ToLower <$> bl) ->
  countOf (fold_left bump bl agg) l = (countOf agg l + if bool_decide (l ∈ ToLower <$> bl) then 1 else 0)%nat.
Proof.
  revert agg. induction bl as [|m bl IH]; intros agg; cbn; [intros; rewrite bool_decide_false by apply not_elem_of_nil; lia|].
  intros [Hm Hnd]%NoDup_cons. rewrite IH, bump_count by done. destruct (decide (ToLower m = l)) as [<-|Hl].
  - rewrite (bool_decide_true (ToLower m ∈ _ :: _)) by (by left). rewrite bool_decide_true, bool_decide_false by done. lia.
  - rewrite (bool_decide_ext (l ∈ ToLower m :: (ToLower <$> bl)) (l ∈ ToLower <$> bl)) by (rewrite elem_of_cons; naive_solver).
    rewrite (bool_decide_false (ToLower m = l)) by done. lia.
Qed.

Lemma bumps_spelled bl agg : Spelled agg -> Spelled (fold_left bump bl agg).
Proof. revert agg. induction bl as [|m bl IH]; intros agg Hs; cbn; [done|]. apply IH, bump_spelled, Hs. Qed.

Lemma addAllowed_spec bl l acc m : WhiteList.Contains (fold_left (addAllowed bl) l acc) m = true <->
  WhiteList.Contains acc m = true \/ (WhiteList.Contains l m = true /\ BlackList.IsBlocked bl m = false).
Proof.
  revert acc. induction l as [|x l IH]; intros acc; cbn [fold_left].
  { rewrite (whitelist_contains []). cbn. rewrite elem_of_nil. tauto. }
  rewrite IH, !whitelist_contains. cbn. rewrite elem_of_cons. unfold addAllowed.
  destruct (BlackList.IsBlocked bl x) eqn:Eb.
  - split; [tauto|]. intros [?|[[Hx|?] Hm]]; [tauto| |tauto]. rewrite (fold_eq m x Hx bl) in Hm. congruence.
  - destruct (WhiteList.Contains acc x) eqn:Ec.
    + rewrite whitelist_contains in Ec. split; [tauto|]. intros [?|[[->|?] ?]]; tauto.
    + rewrite fmap_app, elem_of_app. cbn. rewrite list_elem_of_singleton. split.
      * intros [[?|Hx]|?]; [tauto| |tauto]. right. split; [by left|]. by rewrite (fold_eq m x Hx).
      * tauto.
Qed.

Lemma lower_star s : ToLower s = "*" -> s = "*".
Proof.
  destruct s as [|c s]; [done|]. cbn. intros [= Hc Hs]. destruct s; [|done]. f_equal. revert Hc.
  destruct c as [[] [] [] [] [] [] [] []]; vm_compute; congruence.
Qed.

(** In a validated list a star stands alone. *)
Lemma star_alone (l : list string) : BlackList.Contains l "*" && bool_decide (1 < length l)%nat = false ->
  ToLower "*" ∈ ToLower <$> l -> l = ["*"].
Proof.
  rewrite <-blacklist_contains. intros E Hc. rewrite Hc in E. cbn [andb] in E. apply bool_decide_eq_false in E.
  destruct l as [|x [|]]; cbn in *; [done| |lia]. rewrite orb_false_r, EqualFold_iff in Hc. by rewrite (lower_star x Hc).
Qed.

Lemma valid_blocks (k : ConfiguredKey) : Valid k ->
  NoDup (ToLower <$> blocks k) /\ (ToLower "*" ∈ ToLower <$> blocks k -> BlackList.IsBlockAll (blocks k) = true).
Proof.
  intros [Hb _]. unfold BlackList.Validate in Hb. destruct (BlackList.Contains (blocks k) "*" && _) eqn:E; [done|].
  destruct (WhiteList.noDuplicates [] (blocks k)) eqn:Ed; [done|]. split; [by apply noDuplicates_spec in Ed as []|].
  intros Hs. by rewrite (star_alone _ E Hs).
Qed.

Lemma valid_models (k : ConfiguredKey) : Valid k -> ToLower "*" ∈ ToLower <$> models k -> WhiteList.IsUnrestricted (models k) = true.
Proof.
  intros [_ Hw]. unfold WhiteList.Validate in Hw. destruct (WhiteList.Contains (models k) "*" && _) eqn:E; [done|].
  intros Hs. by rewrite (star_alone _ E Hs).
Qed.

Lemma exists_cons {A} (P : A -> Prop) y l : (exists x, x ∈ y :: l /\ P x) <-> P y \/ exists x, x ∈ l /\ P x.
Proof. setoid_rewrite elem_of_cons. naive_solver. Qed.

(** What the loop over the keys has gathered. *)
Record Gathered (a0 : Aggregate) (keys : list ConfiguredKey) (a : Aggregate) : Prop := {
  g_all : allModelsAllowed a = allModelsAllowed a0 || existsb (fun k => counts k && WhiteList.IsUnrestricted (models k)) keys;
  g_count : enabledKeysCount a = (enabledKeysCount a0 + length (filter (fun k => counts k = true) keys))%nat;
  g_allowed : forall m, WhiteList.Contains (agg_allowed a) m = true <-> WhiteList.Contains (agg_allowed a0) m = true \/
    exists k, k ∈ keys /\ counts k = true /\ WhiteList.IsUnrestricted (models k) = false /\
      WhiteList.Contains (models k) m = true /\ BlackList.IsBlocked (blocks k) m = false;
  g_spelled : Spelled (blacklistAgg a0) -> Spelled (blacklistAgg a);
  g_blocked : forall l, countOf (blacklistAgg a) l =
    (countOf (blacklistAgg a0) l + length (filter (fun k => counts k = true /\ l ∈ ToLower <$> blocks k) keys))%nat }.

Lemma gather a0 keys : Forall Valid keys -> Gathered a0 keys (fold_left (addKey iter) keys a0).
Proof.
  intros Hv. revert a0. induction Hv as [|k keys Hk _ IH]; intros a0; cbn [fold_left].
  { split; cbn; try (intros; lia); [by rewrite orb_false_r|intros m; split; [tauto|]|done].
    intros [?|(k & Hin & _)]; [done|by apply elem_of_nil in Hin]. }
  destruct (IH (addKey iter a0 k)) as [Ha Hc Hm Hs Hb]. destruct (valid_blocks k Hk) as [Hnd _].
  revert Ha Hc Hm Hs Hb. generalize (fold_left (addKey iter) keys (addKey iter a0 k)) as a. intros a.
  unfold addKey. destruct (counts k) eqn:Ek; intros Ha Hc Hm Hs Hb.
  - cbn [allModelsAllowed enabledKeysCount agg_allowed blacklistAgg] in *. split.
    + rewrite Ha. cbn. rewrite Ek. cbn. by rewrite orb_assoc.
    + rewrite Hc, filter_cons_True by done. cbn. lia.
    + intros m. rewrite Hm. destruct (WhiteList.IsUnrestricted (models k)) eqn:Eu.
      * rewrite exists_cons. intuition congruence.
      * rewrite addAllowed_spec, exists_cons. tauto.
    + intros H0. by apply Hs, bumps_spelled.
    + intros l. rewrite Hb, bumps_count by done. case_bool_decide.
      * rewrite (filter_cons_True _ k) by done. cbn. lia.
      * rewrite (filter_cons_False _ k) by tauto. lia.
  - split.
    + rewrite Ha. cbn. by rewrite Ek.
    + by rewrite Hc, filter_cons_False by congruence.
    + intros m. rewrite Hm, exists_cons. intuition congruence.
    + done.
    + intros l. rewrite Hb, (filter_cons_False _ k) by (rewrite Ek; by intros []). done.
Qed.

(** ** The state of a provider *)

Definition keyServes (k : ConfiguredKey) (m : string) : bool :=
  isEnabled k && negb (BlackList.IsBlocked (blocks k) m) && WhiteList.IsAllowed (models k) m.

Lemma serves_entry (k : ConfiguredKey) m : serves (entryOf k) m = keyServes k m.
Proof.
  unfold serves, keyServes, entryOf, BlackList.IsBlocked. cbn [e_Enabled e_Blacklisted e_Allowed].
  by destruct (isEnabled k), (BlackList.IsBlockAll (blocks k)), (BlackList.Contains (blocks k) m).
Qed.

Lemma serves_counts (k : ConfiguredKey) m : keyServes k m = true -> counts k = true.
Proof. unfold keyServes, counts, BlackList.IsBlocked. destruct (isEnabled k), (BlackList.IsBlockAll (blocks k)); done. Qed.

Lemma filter_length_both {A} (P Q : A -> Prop) `{!forall x, Decision (P x), !forall x, Decision (Q x)} (l : list A) :
  (length (filter (fun x => P x /\ Q x) l) <= length (filter P l))%nat /\
  (length (filter (fun x => P x /\ Q x) l) = length (filter P l) <-> forall x, x ∈ l -> P x -> Q x).
Proof.
  induction l as [|x l [IHle IH]].
  { split; [done|]. split; [by intros _ ? ?%elem_of_nil|done]. }
  rewrite !filter_cons. setoid_rewrite elem_of_cons. destruct (decide (P x)) as [HP|HP].
  - destruct (decide (Q x)) as [HQ|HQ].
    + rewrite decide_True by done. cbn. split; [lia|]. rewrite Nat.succ_inj_wd, IH. naive_solver.
    + rewrite decide_False by tauto. cbn. split; [lia|]. split; [lia|]. intros Hall. destruct HQ. naive_solver.
  - rewrite decide_False by tauto. split; [done|]. rewrite IH. naive_solver.
Qed.

Lemma filter_nonempty {A} (P : A -> Prop) `{!forall x, Decision (P x)} (l : list A) :
  length (filter P l) <> 0%nat <-> exists x, x ∈ l /\ P x.
Proof.
  rewrite length_zero_iff_nil. split.
  - destruct (filter P l) as [|x r] eqn:E; [done|]. intros _. exists x. apply and_comm, (list_elem_of_filter P l x). rewrite E. by left.
  - intros (x & Hx & HP) E. assert (x ∈ filter P l) as Hin by by apply list_elem_of_filter.
    rewrite E in Hin. by apply elem_of_nil in Hin.
Qed.

Lemma start_empty (b : bool) : Spelled (blacklistAgg (mkAggregate b 0 [] ∅ (∅ : gmap string (@AliasOwner AliasConfig)))).
Proof. intros l n name Hl. cbn in Hl. by rewrite lookup_empty in Hl. Qed.

(** The names that reach the blocked list. *)
Lemma blocked_names (a : Aggregate) m : Spelled (blacklistAgg a) -> enabledKeysCount a <> 0%nat ->
  ToLower m ∈ ToLower <$> ((fun p => snd (snd p)) <$> filter (fun p => fst (snd p) = enabledKeysCount a) (iter _ (blacklistAgg a))) <->
  countOf (blacklistAgg a) (ToLower m) = enabledKeysCount a.
Proof.
  intros Hs Hn. rewrite <-list_fmap_compose, list_elem_of_fmap. split.
  - intros ([l [n name]] & E & [Hl Hin]%list_elem_of_filter). cbn in *. rewrite iter_range in Hin. apply elem_of_map_to_list in Hin.
    destruct (Hs _ _ _ Hin) as [Hname _]. rewrite E, Hname. unfold countOf. by rewrite Hin.
  - unfold countOf. destruct (blacklistAgg a !! ToLower m) as [[n name]|] eqn:E; [|congruence]. intros <-.
    exists (ToLower m, (n, name)). split; [cbn; by destruct (Hs _ _ _ E) as [-> _]|].
    apply list_elem_of_filter. split; [done|]. rewrite iter_range. by apply elem_of_map_to_list.
Qed.

(** The two lists of the aggregate, in terms of the keys. *)
Lemma aggregate_blocks (b : bool) keys m : Forall Valid keys ->
  let a := fold_left (addKey iter) keys (mkAggregate b 0 [] ∅ ∅) in
  BlackList.IsBlocked ((fun p => snd (snd p)) <$> filter (fun p => fst (snd p) = enabledKeysCount a) (iter _ (blacklistAgg a))) m = true <->
  (exists k, k ∈ keys /\ counts k = true) /\ forall k, k ∈ keys -> counts k = true -> BlackList.IsBlocked (blocks k) m = true.
Proof.
  intros Hv. cbv zeta. destruct (gather (mkAggregate b 0 [] ∅ ∅) keys Hv) as [_ Hc _ Hs Hb].
  set (a := fold_left _ _ _) in *. specialize (Hs (start_empty b)). cbn in Hc.
  set (names := (fun p => snd (snd p)) <$> _).
  assert (enabledKeysCount a <> 0%nat <-> exists k, k ∈ keys /\ counts k = true) as Hne.
  { rewrite Hc. apply (filter_nonempty (fun k => counts k = true)). }
  assert (forall m, enabledKeysCount a <> 0%nat -> ToLower m ∈ ToLower <$> names <->
    forall k, k ∈ keys -> counts k = true -> ToLower m ∈ ToLower <$> blocks k) as Hn.
  { intros m' H0. unfold names. rewrite blocked_names, Hb, Hc by done. cbn [blacklistAgg]. unfold countOf. rewrite lookup_empty. cbn [plus].
    apply (filter_length_both (fun k => counts k = true) (fun k => ToLower m' ∈ ToLower <$> blocks k) keys). }
  assert (forall k, k ∈ keys -> counts k = true -> BlackList.IsBlockAll (blocks k) = false) as Hall.
  { intros k _ Hk. unfold counts in Hk. apply andb_true_iff in Hk as [_ Hk]. by apply negb_true_iff in Hk. }
  assert (names <> [] -> enabledKeysCount a <> 0%nat) as H0.
  { intros Hnn E. apply Hnn. unfold names. destruct (filter _ (iter _ (blacklistAgg a))) as [|[l [n name]] r] eqn:Ef; [done|].
    assert ((l, (n, name)) ∈ filter (fun p => fst (snd p) = enabledKeysCount a) (iter _ (blacklistAgg a))) as Hin by (rewrite Ef; by left).
    apply list_elem_of_filter in Hin as [Hz Hin]. rewrite iter_range in Hin. apply elem_of_map_to_list, Hs in Hin as [_ ?]. cbn in Hz. congruence. }
  assert (BlackList.IsBlockAll names = false) as Hstar.
  { destruct (BlackList.IsBlockAll names) eqn:E; [|done]. exfalso.
    assert (names = ["*"]) as En. { clear -E. destruct names as [|x [|]]; try done. cbn in E. apply String.eqb_eq in E. by subst. }
    assert (enabledKeysCount a <> 0%nat) as H1 by (apply H0; by rewrite En).
    pose proof (proj1 (Hn "*" H1)) as Hk. destruct (proj1 Hne H1) as (k & Hin & Hck).
    specialize (Hk ltac:(rewrite En; by left) k Hin Hck). rewrite Forall_forall in Hv.
    destruct (valid_blocks k (Hv k Hin)) as [_ Hs']. rewrite (Hall k Hin Hck) in Hs'. by discriminate Hs'. }
  unfold BlackList.IsBlocked at 1. rewrite Hstar. cbn [orb]. rewrite blacklist_contains. split.
  - intros Hin. assert (enabledKeysCount a <> 0%nat) as H1. { apply H0. intros E. rewrite E in Hin. by apply elem_of_nil in Hin. }
    split; [by apply Hne|]. intros k Hk Hck. unfold BlackList.IsBlocked. rewrite orb_true_iff, blacklist_contains. right. by apply (proj1 (Hn m H1)).
  - intros [Hex Hf]. apply Hne in Hex. apply Hn; [done|]. intros k Hk Hck. specialize (Hf k Hk Hck).
    unfold BlackList.IsBlocked in Hf. rewrite (Hall k Hk Hck) in Hf. by apply blacklist_contains.
Qed.

(** The list of allowed models, when no key is unrestricted. *)
Lemma aggregate_allows (a : Aggregate) keys m : Forall Valid keys ->
  (forall m, WhiteList.Contains (agg_allowed a) m = true <-> exists k, k ∈ keys /\ counts k = true /\
     WhiteList.IsUnrestricted (models k) = false /\ WhiteList.Contains (models k) m = true /\ BlackList.IsBlocked (blocks k) m = false) ->
  WhiteList.IsAllowed (agg_allowed a) m = true <-> WhiteList.Contains (agg_allowed a) m = true.
Proof.
  intros Hv Hm. unfold WhiteList.IsAllowed. rewrite orb_true_iff. split; [|by right]. intros [Hu|]; [|done]. exfalso.
  assert (agg_allowed a = ["*"]) as E.
  { destruct (agg_allowed a) as [|x [|]]; try done. cbn in Hu. apply String.eqb_eq in Hu. by subst. }
  destruct (proj1 (Hm "*")) as (k & Hin & _ & Hu' & Hc & _); [by rewrite E|].
  rewrite Forall_forall in Hv. rewrite (valid_models k (Hv k Hin)) in Hu'; [done|]. by apply whitelist_contains.
Qed.

Definition allows (l : option WhiteList.t) (m : string) : Prop := exists l', l = Some l' /\ WhiteList.IsAllowed l' m = true.

Lemma nil_or_some (l : WhiteList.t) m : allows (match l with [] => None | x :: l => Some (x :: l) end) m <-> WhiteList.IsAllowed l m = true.
Proof.
  unfold allows. destruct l as [|x l]; [by split; [intros (? & ? & _)|]|].
  split; [by intros (? & [= <-] & ?)|intros ?; by exists (x :: l)].
Qed.

(** What some key lists, or would serve if it were not for other models it blocks. *)
Definition lists (k : ConfiguredKey) (m : string) : Prop :=
  counts k = true /\ (WhiteList.IsUnrestricted (models k) = true \/
    WhiteList.Contains (models k) m = true /\ BlackList.IsBlocked (blocks k) m = false).

(** Nothing counts: nothing serves a model, blocks it or lists it. *)
Lemma none_counts (keys : list ConfiguredKey) : (forall k, k ∈ keys -> counts k = false) ->
  forall m, filter (fun k => keyServes k m = true) keys = [] /\ (~ exists k, k ∈ keys /\ keyServes k m = true) /\
    (~ exists k, k ∈ keys /\ counts k = true) /\ ~ exists k, k ∈ keys /\ lists k m.
Proof.
  intros Hnone m. assert (forall k, k ∈ keys -> keyServes k m = true -> False) as Hs.
  { intros k Hk ?%serves_counts. rewrite Hnone in *; done. }
  split_and!.
  - apply filter_none, Forall_forall. eauto.
  - intros (k & ? & ?). eauto.
  - intros (k & ? & ?). rewrite Hnone in *; done.
  - intros (k & ? & Hl & _). rewrite Hnone in Hl; done.
Qed.

Lemma filter_entries (keys : list ConfiguredKey) m :
  e_KeyID <$> filter (fun e => serves e m = true) (entryOf <$> keys) = (fun k => k_ID (ck_Key k)) <$> filter (fun k => keyServes k m = true) keys.
Proof.
  induction keys as [|k keys IH]; [done|]. rewrite fmap_cons, !filter_cons, serves_entry. case_decide; cbn; congruence.
Qed.

Lemma any_serves (keys : list ConfiguredKey) m :
  existsb (fun e => serves e m) (entryOf <$> keys) = true <-> exists k, k ∈ keys /\ keyServes k m = true.
Proof.
  induction keys as [|k keys IH]; [split; [done|by intros (? & ?%elem_of_nil & _)]|].
  rewrite fmap_cons. cbn [existsb]. by rewrite orb_true_iff, serves_entry, IH, exists_cons.
Qed.

(** What the allowed list of the state means. *)
Lemma provider_allows provider (keys : list ConfiguredKey) (a : Aggregate) m : Forall Valid keys ->
  a = fold_left (addKey iter) keys (mkAggregate (keyless provider keys) 0 [] ∅ ∅) ->
  WhiteList.IsAllowed (if allModelsAllowed a then ["*"] else agg_allowed a) m = true <->
  keyless provider keys = true \/ exists k, k ∈ keys /\ lists k m.
Proof.
  intros Hv Ea. destruct (gather (mkAggregate (keyless provider keys) 0 [] ∅ ∅) keys Hv) as [Ha _ Hm _ _].
  rewrite <-Ea in Ha, Hm. cbn [allModelsAllowed agg_allowed] in Ha, Hm. destruct (allModelsAllowed a) eqn:Eall.
  - split; [intros _|done]. symmetry in Ha. apply orb_true_iff in Ha as [?|(k & Hk & Hu)%existsb_exists]; [by left|].
    apply andb_true_iff in Hu as [? ?]. right. exists k. rewrite list_elem_of_In. unfold lists. auto.
  - symmetry in Ha. apply orb_false_iff in Ha as [Hkl Hu]. rewrite (aggregate_allows a keys m Hv).
    + rewrite Hm, Hkl. unfold lists. cbn. split.
      * intros [?|(k & ? & ? & ? & ? & ?)]; [done|]. right. exists k. auto.
      * intros [?|(k & Hk & Hc & [Hun|[? ?]])]; [done| |].
        { assert (existsb (fun k => counts k && WhiteList.IsUnrestricted (models k)) keys = true) as Hf; [|congruence].
          apply existsb_exists. exists k. rewrite <-list_elem_of_In, Hc, Hun. done. }
        right. exists k. split_and!; try done. destruct (WhiteList.IsUnrestricted (models k)) eqn:Hun; [|done].
        assert (existsb (fun k => counts k && WhiteList.IsUnrestricted (models k)) keys = true) as Hf; [|congruence].
        apply existsb_exists. exists k. rewrite <-list_elem_of_In, Hc, Hun. done.
    + intros m'. rewrite Hm. cbn. split; [intros [?|?]; done|by right].
Qed.

(** After the keys of a provider are set: the keys that can serve a model are
    those that list it and do not block it; the model is allowed when there is
    such a key, or when the provider works without keys; it is on the blocked
    list when every key that takes part blocks it; and it is on the allowed
    list when some key lists it, even one that is unrestricted and blocks it. *)
Theorem key_config_exact (s : Store) provider (keys : list ConfiguredKey) m : Forall Valid keys ->
  let s' := SetProvider iter s provider keys in
  KeysAllowingModel s' provider m = (fun k => k_ID (ck_Key k)) <$> filter (fun k => keyServes k m = true) keys /\
  (IsAllowed s' provider m = true <-> keyless provider keys = true \/ exists k, k ∈ keys /\ keyServes k m = true) /\
  (BlackList.IsBlocked (BlacklistedFor s' provider) m = true <->
     (exists k, k ∈ keys /\ counts k = true) /\ forall k, k ∈ keys -> counts k = true -> BlackList.IsBlocked (blocks k) m = true) /\
  (allows (AllowedFor s' provider) m <-> keyless provider keys = true \/ exists k, k ∈ keys /\ lists k m).
Proof.
  intros Hv. cbv zeta. pose proof (aggregate_blocks (keyless provider keys) keys m Hv) as Hbl. cbv zeta in Hbl.
  destruct (gather (mkAggregate (keyless provider keys) 0 [] ∅ ∅) keys Hv) as [Ha Hc _ _ _].
  unfold SetProvider, buildState, KeysAllowingModel, IsAllowed, BlacklistedFor, AllowedFor, allows, Store in *.
  pose proof (fun m => provider_allows provider keys _ m Hv eq_refl) as Hal.
  set (a := fold_left _ _ _) in *. cbn [allModelsAllowed enabledKeysCount plus] in *.
  destruct (bool_decide (enabledKeysCount a = 0%nat) && negb (allModelsAllowed a)) eqn:Ed.
  - apply andb_true_iff in Ed as [E0%bool_decide_eq_true Eall%negb_true_iff]. rewrite Ha in Eall. apply orb_false_iff in Eall as [Ek _].
    assert (forall k, k ∈ keys -> counts k = false) as Hnone.
    { intros k Hk. destruct (counts k) eqn:Eck; [|done]. exfalso. rewrite Hc in E0. revert E0.
      apply (filter_nonempty (fun k => counts k = true)). by exists k. }
    cbv iota. destruct (none_counts keys Hnone m) as (-> & ? & ? & ?). rewrite lookup_delete_eq, Ek. cbn. naive_solver.
  - cbv iota. rewrite lookup_insert_eq. cbn [entries allowed blacklisted mbind option_bind]. split_and!.
    + apply filter_entries.
    + destruct keys as [|k keys'].
      * rewrite (bool_decide_true (enabledKeysCount a = 0%nat)) in Ed by done. apply negb_false_iff in Ed. rewrite Ed in *.
        cbn [existsb] in Ha. rewrite orb_false_r in Ha. rewrite <-Ha. split; [by left|intros _].
        rewrite fmap_nil. cbv iota. rewrite andb_true_iff, negb_true_iff. split; [done|]. apply not_true_iff_false. rewrite Hbl.
        by intros [(? & ?%elem_of_nil & _) _].
      * rewrite fmap_cons. cbv iota. unfold anyKeyAllows. cbn [entries]. rewrite <-fmap_cons, any_serves. cbn [keyless]. naive_solver.
    + apply Hbl.
    + rewrite <-Hal. apply nil_or_some.
Qed.

End Aggregation.

(** ** Keys that no list describes *)

Definition keyNamed (id : string) (models blocked : list string) : @ConfiguredKey unit :=
  mkConfigured (mkKey id id "" models blocked 100 None false false false None None None None None) ∅.

Definition insertionOrder (A : Type) (m : gmap string A) : list (string * A) := map_to_list m.

(** One key serves everything but a model, the other one model only. *)
Definition twoKeys : list (@ConfiguredKey unit) := [keyNamed "a" ["*"] ["gpt-4"]; keyNamed "b" ["gpt-3"] []].

Lemma twoKeys_valid : Forall Valid twoKeys.
Proof. repeat constructor. Qed.

(** No key serves the blocked model, yet it is on the allowed list and not on
    the blocked one. *)
Lemma key_config_exact_witness :
  let s := SetProvider insertionOrder ∅ OpenAI twoKeys in
  KeysAllowingModel s OpenAI "gpt-4" = [] /\ IsAllowed s OpenAI "gpt-4" = false /\
  BlackList.IsBlocked (BlacklistedFor s OpenAI) "gpt-4" = false /\ allows (AllowedFor s OpenAI) "gpt-4".
Proof.
  cbv zeta. destruct (key_config_exact insertionOrder (fun _ _ => reflexivity _) ∅ OpenAI twoKeys "gpt-4" twoKeys_valid) as (Hk & Hi & Hb & Ha).
  split; [exact Hk|]. split; [apply not_true_is_false; intros H; apply Hi in H as [H|(k & Hin & H)]|].
  - discriminate H.
  - apply elem_of_cons in Hin as [->|Hin]; [discriminate H|]. apply list_elem_of_singleton in Hin as ->. discriminate H.
  - split; [apply not_true_is_false; intros H; apply Hb in H as [_ H]|].
    + specialize (H (keyNamed "b" ["gpt-3"] [])). discriminate H; [by right; left|done].
    + apply Ha. right. exists (keyNamed "a" ["*"] ["gpt-4"]). split; [by left|]. split; [done|by left].
Defined.

End KeyConfigTheory.
