(* ===== verification/LiveModels.v ===== *)
(** * Cache of live model lists
    (src/framework/modelcatalog/live/store.go)

    The answers of providers to list-models calls, per provider, key and mode,
    with a counter of invalidations per provider.  Every method is one critical
    section.  A fetch reads the counter, calls the provider, and commits against
    the counter it read: [Event] interleaves fetches with everything else, and
    the theorem says that a fetch cannot bring back what was dropped under it. *)

From S2P Require Import Prelude GoStrings Schemas.

Local Open Scope string_scope.
Local Open Scope Z_scope.
Local Open Scope list_scope.

Module LiveModels.
Import Schemas.

(** A cached answer is named by its provider, its key ("" for keyless
    providers), and whether it is unfiltered. *)
Definition LiveKey : Type := ModelProvider * string * bool.

Record Store := mkStore { entries : gmap LiveKey (list string); gen : gmap ModelProvider Z }.

Definition New : Store := mkStore ∅ ∅.

Definition Upsert (s : Store) (provider keyID : string) (unfiltered : bool) (models : list string) : Store :=
  mkStore (<[(provider, keyID, unfiltered) := models]> (entries s)) (gen s).

Definition Generation (s : Store) (provider : ModelProvider) : Z := default 0 (gen s !! provider).

Definition UpsertIfCurrent (s : Store) (provider keyID : string) (unfiltered : bool) (models : list string) (g : Z) : bool * Store :=
  if bool_decide (Generation s provider = g) then (true, Upsert s provider keyID unfiltered models) else (false, s).

Definition bumpLocked (s : Store) (provider : ModelProvider) : Store :=
  mkStore (entries s) (<[provider := wrapu64 (Generation s provider + 1)]> (gen s)).

(** The entries that satisfy a test are kept. *)
Definition keepEntries (s : Store) (keep : LiveKey -> bool) : Store :=
  mkStore (filter (fun p => keep (fst p) = true) (entries s)) (gen s).

Definition Invalidate (s : Store) (provider keyID : string) : Store :=
  bumpLocked (mkStore (delete (provider, keyID, true) (delete (provider, keyID, false) (entries s))) (gen s)) provider.

Definition InvalidateProvider (s : Store) (provider : ModelProvider) : Store :=
  bumpLocked (keepEntries s (fun k => negb (bool_decide (k.1.1 = provider)))) provider.

Definition RetainKeys (s : Store) (provider : ModelProvider) (keep : list string) : Store :=
  bumpLocked (keepEntries s (fun k => negb (bool_decide (k.1.1 = provider)) || bool_decide (k.1.2 ∈ keep))) provider.

(** The kept keys are compared by key and mode only. *)
Definition Retain (s : Store) (provider : ModelProvider) (keep : list LiveKey) : Store :=
  bumpLocked (keepEntries s (fun k => negb (bool_decide (k.1.1 = provider)) ||
    existsb (fun kk => bool_decide (kk.1.2 = k.1.2) && bool_decide (kk.2 = k.2)) keep)) provider.

Definition unionForProvider (s : Store) (provider : ModelProvider) (unfiltered : bool) : list string :=
  SortStrings (remove_dups (concat (snd <$> filter (fun p => p.1.1.1 = provider /\ p.1.2 = unfiltered) (map_to_list (entries s))))).

Definition ModelsForProvider (s : Store) (provider : ModelProvider) : list string := unionForProvider s provider false.
Definition UnfilteredModelsForProvider (s : Store) (provider : ModelProvider) : list string := unionForProvider s provider true.
Definition Snapshot (s : Store) : gmap LiveKey (list string) := entries s.

(** ** Fetches and everything else *)

Inductive Event :=
| EUpsert (provider keyID : string) (unfiltered : bool) (models : list string)
| EStart (fetch : nat) (provider : ModelProvider)
| ECommit (fetch : nat) (provider keyID : string) (unfiltered : bool) (models : list string)
| EInvalidate (provider keyID : string)
| EInvalidateProvider (provider : ModelProvider)
| ERetainKeys (provider : ModelProvider) (keep : list string)
| ERetain (provider : ModelProvider) (keep : list LiveKey).

(** The store, and the counter each fetch has read. *)
Definition State : Type := Store * gmap nat Z.

Definition handle (x : State) (e : Event) : State :=
  let '(s, captured) := x in
  match e with
  | EUpsert p k u ms => (Upsert s p k u ms, captured)
  | EStart f p => (s, <[f := Generation s p]> captured)
  | ECommit f p k u ms => match captured !! f with Some g => (snd (UpsertIfCurrent s p k u ms g), captured) | None => x end
  | EInvalidate p k => (Invalidate s p k, captured)
  | EInvalidateProvider p => (InvalidateProvider s p, captured)
  | ERetainKeys p keep => (RetainKeys s p keep, captured)
  | ERetain p keep => (Retain s p keep, captured)
  end.

Definition run (x : State) (es : list Event) : State := fold_left handle es x.

(** ** What was dropped stays dropped *)

(** Before the drop: a fetch in [late] is one of this provider. *)
Definition ofProvider (provider : ModelProvider) (late : list nat) (e : Event) : Prop :=
  match e with EStart f p => f ∈ late -> p = provider | _ => True end.

(** The event drops the entries of a key, in both modes. *)
Definition drops (provider keyID : string) (e : Event) : Prop :=
  match e with
  | EInvalidate p k => p = provider /\ k = keyID
  | EInvalidateProvider p => p = provider
  | ERetainKeys p keep => p = provider /\ keyID ∉ keep
  | ERetain p keep => p = provider /\ Forall (fun kk => kk.1.2 <> keyID) keep
  | _ => False
  end.

(** After the drop: the key is committed by fetches of [late] only, none of
    which starts again, and it is not written unconditionally. *)
Definition quiet (provider keyID : string) (late : list nat) (e : Event) : Prop :=
  match e with
  | EUpsert p k _ _ => (p, k) <> (provider, keyID)
  | EStart f _ => f ∉ late
  | ECommit f p k _ _ => (p, k) = (provider, keyID) -> f ∈ late
  | _ => True
  end.

Section Race.
Variables (provider keyID : string) (late : list nat).

Definition Gone (s : Store) : Prop := forall u, entries s !! (provider, keyID, u) = None.

(** The fetches in flight read a counter that is between [lo] and [n] behind. *)
Definition Behind (lo : Z) (x : State) (n : Z) : Prop :=
  in_uint64 (Generation x.1 provider) /\
  forall f g, f ∈ late -> x.2 !! f = Some g -> in_uint64 g /\ exists d, lo <= d <= n /\ Generation x.1 provider = wrapu64 (g + d).

Lemma behind_mono lo x n n' : n <= n' -> Behind lo x n -> Behind lo x n'.
Proof.
  intros Hn (Hg & Hc). split; [done|]. intros f g Hf Hfg. destruct (Hc f g Hf Hfg) as (? & d & ? & ?).
  split; [done|]. exists d. split; [lia|done].
Qed.

Lemma bump_behind lo (s : Store) captured n p : Behind lo (s, captured) n -> Behind lo (bumpLocked s p, captured) (n + 1).
Proof.
  intros (Hg & Hc). unfold Behind, bumpLocked, Generation in *. cbn in *. destruct (decide (p = provider)) as [->|Hp].
  - rewrite lookup_insert_eq. cbn. split; [apply wrapu64_range|]. intros f g Hf Hfg.
    destruct (Hc f g Hf Hfg) as (Hu & d & Hd & E). split; [done|]. exists (d + 1). split; [lia|].
    rewrite E, wrapu64_add_l. f_equal. lia.
  - rewrite lookup_insert_ne by done. split; [done|]. intros f g Hf Hfg.
    destruct (Hc f g Hf Hfg) as (Hu & d & Hd & E). split; [done|]. exists d. split; [lia|done].
Qed.

(** A bump of the provider itself puts every fetch behind. *)
Lemma bump_late (s : Store) captured n : Behind 0 (s, captured) n -> Behind 1 (bumpLocked s provider, captured) (n + 1).
Proof.
  intros (Hg & Hc). unfold Behind, bumpLocked, Generation in *. cbn in *. rewrite lookup_insert_eq. cbn.
  split; [apply wrapu64_range|]. intros f g Hf Hfg. destruct (Hc f g Hf Hfg) as (Hu & d & Hd & E).
  split; [done|]. exists (d + 1). split; [lia|]. rewrite E, wrapu64_add_l. f_equal. lia.
Qed.

Lemma UpsertIfCurrent_gen s p k u ms g : gen (snd (UpsertIfCurrent s p k u ms g)) = gen s.
Proof. unfold UpsertIfCurrent. by case_bool_decide. Qed.

Lemma handle_before x n e : 0 <= n -> ofProvider provider late e -> Behind 0 x n -> Behind 0 (handle x e) (n + 1).
Proof.
  destruct x as [s captured]. intros Hn Hq Hb. destruct e as [p k u ms|f p|f p k u ms|p k|p|p keep|p keep]; cbn in *; try by apply bump_behind.
  - apply (behind_mono _ _ n); [lia|done].
  - apply (behind_mono _ _ n); [lia|]. destruct Hb as (Hg & Hc). split; [done|]. intros f' g Hf'. cbn. rewrite lookup_insert_Some.
    intros [[<- <-]|[_ Hfg]]; [|by apply (Hc f' g)]. rewrite (Hq Hf'). split; [done|]. exists 0. split; [lia|]. by rewrite Z.add_0_r, wrapu64_id.
  - apply (behind_mono _ _ n); [lia|]. destruct (captured !! f) as [g|]; [|done]. unfold Behind, Generation in *. cbn in *. by rewrite UpsertIfCurrent_gen.
Qed.

Lemma drop_effect s captured n e : Behind 0 (s, captured) n -> drops provider keyID e ->
  Gone (handle (s, captured) e).1 /\ Behind 1 (handle (s, captured) e) (n + 1).
Proof.
  intros Hb. destruct e as [p k u ms|f p|f p k u ms|p k|p|p keep|p keep]; cbn; try done.
  - intros [-> ->]. split; [|by apply bump_late]. intros u. cbn. rewrite !lookup_delete_None. destruct u; auto.
  - intros ->. split; [|by apply bump_late]. intros u. cbn. apply map_lookup_filter_None. right. intros ms _. cbn. by rewrite bool_decide_true.
  - intros [-> Hk]. split; [|by apply bump_late]. intros u. cbn. apply map_lookup_filter_None. right. intros ms _. cbn.
    by rewrite bool_decide_true, bool_decide_false.
  - intros [-> Hk]. split; [|by apply bump_late]. intros u. cbn. apply map_lookup_filter_None. right. intros ms _. cbn.
    rewrite bool_decide_true by done. cbn. rewrite not_true_iff_false. induction Hk as [|kk keep Hkk _ IH]; [done|]. cbn.
    by rewrite bool_decide_false.
Qed.

(** A late fetch finds the counter moved. *)
Lemma commit_dropped (s : Store) captured n f g u ms : n < two64 -> Behind 1 (s, captured) n -> f ∈ late -> captured !! f = Some g ->
  UpsertIfCurrent s provider keyID u ms g = (false, s).
Proof.
  intros Hn (_ & Hc) Hf Hg. destruct (Hc f g Hf Hg) as (Hu & d & Hd & E). unfold UpsertIfCurrent.
  rewrite bool_decide_false; [done|]. cbn in E. rewrite E. apply wrapu64_shift_ne; [done|lia].
Qed.

Lemma handle_after x n e : n < two64 -> quiet provider keyID late e -> Gone x.1 -> Behind 1 x n ->
  Gone (handle x e).1 /\ Behind 1 (handle x e) (n + 1).
Proof.
  destruct x as [s captured]. intros Hn Hq He Hb. destruct e as [p k u ms|f p|f p k u ms|p k|p|p keep|p keep]; cbn in *.
  - split; [|apply (behind_mono _ _ n); [lia|done]]. intros u'. cbn. rewrite lookup_insert_ne; [done|congruence].
  - split; [done|]. apply (behind_mono _ _ n); [lia|]. destruct Hb as (Hg & Hc). split; [done|]. intros f' g Hf'. cbn.
    rewrite lookup_insert_ne by congruence. by apply (Hc f' g).
  - destruct (captured !! f) as [g|] eqn:Eg; [|split; [done|apply (behind_mono _ _ n); [lia|done]]].
    destruct (decide ((p, k) = (provider, keyID))) as [[= -> ->]|Hne].
    + rewrite (commit_dropped s captured n f g) by auto. split; [done|]. apply (behind_mono _ _ n); [lia|done].
    + split; [|apply (behind_mono _ _ n); [lia|]; unfold Behind, Generation in *; cbn in *; by rewrite UpsertIfCurrent_gen].
      unfold UpsertIfCurrent. case_bool_decide; [|done]. intros u'. cbn. rewrite lookup_insert_ne; [done|congruence].
  - split; [|by apply bump_behind]. intros u. cbn. rewrite !lookup_delete_None. auto.
  - split; [|by apply bump_behind]. intros u. cbn. apply map_lookup_filter_None. by left.
  - split; [|by apply bump_behind]. intros u. cbn. apply map_lookup_filter_None. by left.
  - split; [|by apply bump_behind]. intros u. cbn. apply map_lookup_filter_None. by left.
Qed.

Lemma run_before es : Forall (ofProvider provider late) es -> Behind 0 (run (New, ∅) es) (Z.of_nat (length es)).
Proof.
  induction es as [|e es IH] using rev_ind; intros Hq.
  - split; [by vm_compute|]. intros f g _ Hf. cbn in Hf. by rewrite lookup_empty in Hf.
  - apply Forall_app in Hq as [Hq He]. unfold run. rewrite fold_left_app, length_app. cbn [fold_left length].
    rewrite Nat2Z.inj_add. apply handle_before; [lia|by inversion He|by apply IH].
Qed.

Lemma run_after x n es : n + Z.of_nat (length es) < two64 -> Forall (quiet provider keyID late) es ->
  Gone x.1 -> Behind 1 x n -> Gone (run x es).1.
Proof.
  intros Hl Hq. revert x n Hl. induction Hq as [|e es He _ IH]; intros x n Hl Hx Hb; [done|]. cbn [length] in Hl.
  destruct (handle_after x n e) as [? ?]; [lia|done..|]. apply (IH _ (n + 1)); [lia|done..].
Qed.
End Race.

(** Once the cached lists of a key are dropped they stay away, whatever runs
    beside: a fetch that read the counter of its provider before the drop
    commits nothing, however long it takes and whatever else is dropped. *)
Theorem dropped_stays_dropped provider keyID late before drop after u :
  Forall (ofProvider provider late) before -> drops provider keyID drop -> Forall (quiet provider keyID late) after ->
  Z.of_nat (length before + length after) + 1 < two64 ->
  entries (run (New, ∅) (before ++ drop :: after)).1 !! (provider, keyID, u) = None.
Proof.
  intros Hb Hd Ha Hl. unfold run. rewrite fold_left_app. cbn [fold_left]. fold (run (New, ∅) before).
  pose proof (run_before provider late before Hb) as H0. destruct (run (New, ∅) before) as [s captured].
  destruct (drop_effect provider keyID late s captured _ drop H0 Hd) as [Hg H1].
  apply (run_after provider keyID late _ _ after) in H1; [by apply H1|lia|done..].
Qed.

(** The background refresher reads the counter, the key is deleted, another key
    is listed, and the answer for the deleted one arrives. *)
Lemma dropped_stays_dropped_witness :
  let race := [EStart 0 "openai"; EInvalidate "openai" "k1"; EStart 1 "openai"; ECommit 1 "openai" "k2" false ["gpt-4"];
               ECommit 0 "openai" "k1" false ["gpt-3"]] in
  entries (run (New, ∅) race).1 !! ("openai", "k1", false) = None /\ ModelsForProvider (run (New, ∅) race).1 "openai" = ["gpt-4"].
Proof.
  cbv zeta. split; [|by vm_compute].
  apply (dropped_stays_dropped "openai" "k1" [0%nat] [EStart 0 "openai"] (EInvalidate "openai" "k1")
    [EStart 1 "openai"; ECommit 1 "openai" "k2" false ["gpt-4"]; ECommit 0 "openai" "k1" false ["gpt-3"]]).
  - repeat constructor.
  - done.
  - rewrite !Forall_cons. cbn. split_and!; [by intros H%list_elem_of_singleton|congruence|by left|by constructor].
  - by vm_compute.
Defined.

End LiveModels.
