(* ===== verification/ModelCatalog.v ===== *)
(** * The model catalogue
    (src/framework/modelcatalog/models.go, main.go, pool.go, datasheet/store.go;
    model names of src/core/schemas/utils.go)

    Which provider serves a model, what a model is called there, and which
    models a list of a virtual key permits.  The catalogue combines the lists
    of live models, the configuration of keys and a view of the datasheet.  The
    set of known providers is global state of the program: [known].  [iter] and
    [iterLive] are the orders a [range] over a map happens to take. *)

From S2P Require Import Prelude GoStrings Schemas KeyConfig LiveModels.
From Stdlib Require Import Ascii.

Local Open Scope string_scope.
Local Open Scope list_scope.

Module ModelCatalog.
Import Schemas.

(** ** Model names *)

(** [strings.Split s sep] for a separator of one byte. *)
Fixpoint splitOn (sep : ascii) (s : string) : list string :=
  match s with
  | "" => [""]
  | String c s' =>
      if Ascii.eqb c sep then "" :: splitOn sep s'
      else match splitOn sep s' with
           | p :: ps => String c p :: ps
           | [] => [String c ""]
           end
  end.

Definition digits (n : nat) (s : string) : bool := bool_decide (String.length s = n) && all_digits s.
Definition someDigits (s : string) : bool := negb (bool_decide (s = "")) && all_digits s.

(** The regular expressions of version suffixes. *)
Definition anthropicDate (s : string) : bool := digits 8 s.

Definition openAIDate (s : string) : bool :=
  match splitOn "-" s with [y; m; d] => digits 4 y && digits 2 m && digits 2 d | _ => false end.

Definition taggedVersion (s : string) : bool :=
  bool_decide (s ∈ ["alpha"; "beta"; "preview"; "canary"; "experimental"]) ||
  (HasPrefix s "rc" && someDigits (str_drop 2 s)) ||
  (HasPrefix s "v" && bool_decide (length (splitOn "." (str_drop 1 s)) <= 3)%nat && forallb someDigits (splitOn "." (str_drop 1 s))).

Definition SplitModelAndVersion (id : string) : string * string :=
  let parts := splitOn "-" id in
  let n := length parts in
  let base k := String.concat "-" (take (n - k) parts) in
  let last k := String.concat "-" (drop (n - k) parts) in
  if bool_decide (3 <= n)%nat && openAIDate (last 3) then (base 3, last 3)
  else if bool_decide (2 <= n)%nat && (anthropicDate (last 1) || taggedVersion (last 1)) then (base 1, last 1)
  else (id, "").

Definition BaseModelName (id : string) : string := fst (SplitModelAndVersion id).

(** The prefix up to the first slash, when it names a provider. *)
Definition ParseModelString (known : gset string) (model : string) (defaultProvider : ModelProvider) : ModelProvider * string :=
  match Index model "/" with
  | Some i => if bool_decide (str_take i model ∈ known) then (str_take i model, str_drop (S i) model) else (defaultProvider, model)
  | None => (defaultProvider, model)
  end.

Definition knownProviders0 : gset string := list_to_set StandardProviders.
Definition RegisterKnownProvider (known : gset string) (provider : ModelProvider) : gset string := {[provider]} ∪ known.
Definition UnregisterKnownProvider (known : gset string) (provider : ModelProvider) : gset string :=
  if bool_decide (provider ∈ StandardProviders) then known else known ∖ {[provider]}.

(** ** The datasheet *)

Record TableModelPricing := mkPricing { pr_Model : string; pr_Provider : string; pr_BaseModel : string; pr_IsDeprecated : bool }.

Record Datasheet := mkDatasheet {
  baseModelIndex : gmap string string;
  datasheetByProvider : gmap ModelProvider (list string);
  deprecatedByProvider : gmap ModelProvider (list string) }.

Definition normalizeProvider (p : string) : ModelProvider :=
  if Contains p "vertex_ai" || bool_decide (p = "google-vertex") then Vertex
  else if Contains p "bedrock" then Bedrock
  else if Contains p "cohere" then Cohere
  else if Contains p "runwayml" then Runway
  else if Contains p "fireworks_ai" then Fireworks
  else p.

Section Catalogue.
Context {AliasConfig : Type}.
Variable iter : forall A : Type, gmap string A -> list (string * A).
Variable iterLive : gmap LiveModels.LiveKey (list string) -> list (LiveModels.LiveKey * list string).
Variable known : gset string.

(** The models of each provider among some rows, sorted. *)
Definition modelsByProvider (rows : list TableModelPricing) : gmap ModelProvider (list string) :=
  let provs := remove_dups ((fun r => normalizeProvider (pr_Provider r)) <$> rows) in
  list_to_map ((fun p => (p, SortStrings (remove_dups (pr_Model <$> filter (fun r => normalizeProvider (pr_Provider r) = p) rows)))) <$> provs).

Definition rebuildDatasheetViewUnsafe (pricingData : gmap string TableModelPricing) : Datasheet :=
  let rows := snd <$> iter _ pricingData in
  mkDatasheet
    (fold_left (fun index r => if bool_decide (pr_BaseModel r = "") then index else <[pr_Model r := pr_BaseModel r]> index) rows ∅)
    (modelsByProvider rows)
    (modelsByProvider (filter (fun r => pr_IsDeprecated r = true) rows)).

(** [BaseModelName] of the datasheet. *)
Definition baseModelNameUnsafe (d : Datasheet) (model : string) : string :=
  match baseModelIndex d !! model with
  | Some base => base
  | None =>
      let baseName := snd (ParseModelString known model "") in
      match (if bool_decide (baseName = model) then None else baseModelIndex d !! baseName) with
      | Some base => base
      | None => BaseModelName baseName
      end
  end.

Definition IsSameModel (d : Datasheet) (model1 model2 : string) : bool :=
  bool_decide (model1 = model2) || bool_decide (baseModelNameUnsafe d model1 = baseModelNameUnsafe d model2).

Definition DatasheetModelsForProvider (d : Datasheet) (provider : ModelProvider) : list string :=
  default [] (datasheetByProvider d !! provider).
Definition DeprecatedDatasheetModelsForProvider (d : Datasheet) (provider : ModelProvider) : list string :=
  default [] (deprecatedByProvider d !! provider).
Definition DatasheetProviders (d : Datasheet) : list ModelProvider := fst <$> iter _ (datasheetByProvider d).

(** ** Models of a provider *)

Record ModelCatalog := mkCatalog {
  datasheet : Datasheet;
  live : LiveModels.Store;
  keyconf : @KeyConfig.Store AliasConfig }.

Definition providersWithPartialListModels : list ModelProvider := [Perplexity; Vertex].

(** Appending what a test accepts and the list does not have yet. *)
Definition addNewBy (ok : string -> bool) (out models : list string) : list string :=
  fold_left (fun out m => if bool_decide (m ∈ out) then out else if ok m then out ++ [m] else out) models out.

(** [allowed] is nil or permits the model. *)
Definition permits (allowed : option WhiteList.t) (m : string) : bool :=
  match allowed with Some l => WhiteList.IsAllowed l m | None => true end.

Definition appendAllowedDatasheetModels (out models : list string) (allowed : option WhiteList.t) (blacklisted : BlackList.t) : list string :=
  match models with
  | [] => out
  | _ => SortStrings (addNewBy (fun m => negb (BlackList.IsBlocked blacklisted m) && permits allowed m) out models)
  end.

(** The aliases and the listed models of an enabled key. *)
Definition addEntry (allowed : option WhiteList.t) (blacklisted : BlackList.t) (out : list string) (e : @KeyConfig.KeyEntry AliasConfig) :
    list string :=
  if KeyConfig.e_Enabled e then
    let out := addNewBy (fun alias => negb (BlackList.IsBlocked blacklisted alias) &&
                 match allowed with Some l => WhiteList.IsAllowed l alias | None => false end) out (fst <$> iter _ (KeyConfig.e_Aliases e)) in
    addNewBy (fun m => negb (bool_decide (m = "*") || BlackList.IsBlocked blacklisted m)) out (KeyConfig.e_Allowed e)
  else out.

Definition GetModelsForProvider (mc : ModelCatalog) (provider : ModelProvider) : list string :=
  let blacklisted := KeyConfig.BlacklistedFor (keyconf mc) provider in
  let allowed := KeyConfig.AllowedFor (keyconf mc) provider in
  let out :=
    match LiveModels.ModelsForProvider (live mc) provider with
    | [] =>
        match allowed with
        | Some l => filter (fun m => negb (BlackList.IsBlocked blacklisted m) && WhiteList.IsAllowed l m = true)
                      (DatasheetModelsForProvider (datasheet mc) provider)
        | None => []
        end
    | liveModels =>
        let toAppend := if bool_decide (provider ∈ providersWithPartialListModels)
                        then DatasheetModelsForProvider (datasheet mc) provider
                        else DeprecatedDatasheetModelsForProvider (datasheet mc) provider in
        appendAllowedDatasheetModels liveModels toAppend allowed blacklisted
    end in
  fold_left (addEntry allowed blacklisted) (KeyConfig.EntriesFor (keyconf mc) provider) out.

Definition GetUnfilteredModelsForProvider (mc : ModelCatalog) (provider : ModelProvider) : list string :=
  let liveModels := LiveModels.UnfilteredModelsForProvider (live mc) provider in
  let datasheetModels := DatasheetModelsForProvider (datasheet mc) provider in
  match liveModels, datasheetModels with
  | [], _ => datasheetModels
  | _, [] => liveModels
  | _, _ => SortStrings (addNewBy (fun _ => true) (addNewBy (fun _ => true) [] liveModels) datasheetModels)
  end.

(** ** Providers of a model *)

(** The providers the catalogue has heard of, without repetitions. *)
Definition knownProviders (mc : ModelCatalog) : list ModelProvider :=
  addNewBy (fun _ => true) []
    (DatasheetProviders (datasheet mc) ++ ((fun p => p.1.1.1) <$> iterLive (LiveModels.Snapshot (live mc))) ++
     KeyConfig.Providers iter (keyconf mc)).

(** The providers found so far, and those already marked as seen. *)
Definition Found : Type := list ModelProvider * list ModelProvider.

Definition found (f : Found) (p : ModelProvider) : Found := (f.1 ++ [p], p :: f.2).

(** A provider that lists the model, under this or another name of its base. *)
Definition listsModel (mc : ModelCatalog) (model : string) (p : ModelProvider) : bool :=
  let base := baseModelNameUnsafe (datasheet mc) in
  existsb (fun m => bool_decide (m = model) || bool_decide (base m = base model)) (GetModelsForProvider mc p).

(** A provider that lists the model under the prefix of one already found. *)
Definition addNested (mc : ModelCatalog) (model : string) (f : Found) (p : ModelProvider) : Found :=
  if bool_decide (p ∈ f.2) then f
  else if existsb (fun q => bool_decide ((q +:+ "/" +:+ model) ∈ GetModelsForProvider mc p)) f.1 then found f p else f.

Definition configMatches (mc : ModelCatalog) (model : string) (p : ModelProvider) : bool :=
  let allowed := default [] (KeyConfig.AllowedFor (keyconf mc) p) in
  negb (BlackList.IsBlocked (KeyConfig.BlacklistedFor (keyconf mc) p) model) &&
  (bool_decide (is_Some (KeyConfig.ResolveAlias (keyconf mc) p model)) && WhiteList.IsAllowed allowed model ||
   WhiteList.Contains allowed model ||
   WhiteList.IsUnrestricted allowed && bool_decide (DatasheetModelsForProvider (datasheet mc) p = []) &&
     bool_decide (LiveModels.UnfilteredModelsForProvider (live mc) p = [])).

(** Groq and Bedrock are added without being marked as seen. *)
Definition GetProvidersForModel (mc : ModelCatalog) (model : string) : list ModelProvider :=
  let f := fold_left (fun f p => if listsModel mc model p && negb (bool_decide (p ∈ f.2)) then found f p else f) (knownProviders mc) ([], []) in
  let f := addNested mc model (addNested mc model f OpenRouter) Vertex in
  let f := if negb (bool_decide (Groq ∈ f.2)) && Contains model "gpt-" && bool_decide (("openai/" +:+ model) ∈ GetModelsForProvider mc Groq)
           then (f.1 ++ [Groq], f.2) else f in
  let f := if negb (bool_decide (Bedrock ∈ f.2)) && Contains model "claude" && existsb (fun m => Contains m model) (GetModelsForProvider mc Bedrock)
           then (f.1 ++ [Bedrock], f.2) else f in
  fst (fold_left (fun f p => if negb (bool_decide (p ∈ f.2)) && configMatches mc model p then found f p else f)
         (KeyConfig.Providers iter (keyconf mc)) f).

(** ** Models a virtual key permits *)

(** Of the configuration of a provider: whether it is a custom one, and whether
    that one says anything about listing models. *)
Record CustomProviderConfig := mkCustom { AllowListModels : option bool }.
Record ConfiguredProvider := mkConfiguredProvider { CustomConfig : option CustomProviderConfig }.

Definition hasListModelsEndpointDisabled (c : option ConfiguredProvider) : bool :=
  match c with Some (mkConfiguredProvider (Some (mkCustom (Some allow)))) => negb allow | _ => false end.

Definition IsModelAllowedForProvider (mc : ModelCatalog) (provider : ModelProvider) (model : string)
    (providerConfig : option ConfiguredProvider) (allowedModels : WhiteList.t) : bool :=
  if WhiteList.IsUnrestricted allowedModels then
    hasListModelsEndpointDisabled providerConfig || bool_decide (provider ∈ GetProvidersForModel mc model)
  else if WhiteList.IsEmpty allowedModels then false
  else
    existsb (fun allowedModel => bool_decide (allowedModel = model) ||
      (Contains allowedModel "/" && bool_decide (allowedModel ∈ GetModelsForProvider mc provider) &&
       bool_decide (snd (ParseModelString known allowedModel "") = model))) allowedModels.

(** ** The name of a model at a provider *)

Definition refineNestedProviderModel (mc : ModelCatalog) (provider : ModelProvider) (model : string) : result string string :=
  let candidate poolModel :=
    let '(providerPart, modelPart) := ParseModelString known poolModel "" in
    if bool_decide (providerPart = "") || negb (bool_decide (model = modelPart)) then None else Some (providerPart +:+ "/" +:+ modelPart) in
  match addNewBy (fun _ => true) [] (omap candidate (GetModelsForProvider mc provider)) with
  | [] => Ok model
  | [candidate] => Ok candidate
  | _ => Err "multiple compatible models found"
  end.

Definition nestedProviders : list ModelProvider := [Groq; Replicate; Perplexity; OpenRouter].

(** Each round strips a prefix: the length of the name is fuel enough. *)
Fixpoint refine (fuel : nat) (mc : ModelCatalog) (provider : ModelProvider) (model : string) : result string string :=
  let '(prefixProvider, modelPart) := ParseModelString known model "" in
  if bool_decide (prefixProvider = "") then
    if bool_decide (provider ∈ nestedProviders) then refineNestedProviderModel mc provider model else Ok model
  else if bool_decide (prefixProvider = provider) then
    match fuel with S fuel => refine fuel mc provider modelPart | O => Err "out of fuel" end
  else Ok model.

Definition RefineModelForProvider (mc : ModelCatalog) (provider : ModelProvider) (model : string) : result string string :=
  refine (String.length model) mc provider model.

(** ** Lists of models a provider answers with (pool.go) *)

Definition extractModelIDs (ids : list string) (provider : ModelProvider) : list string :=
  addNewBy (fun _ => true) []
    (omap (fun id => let '(p, m) := ParseModelString known id "" in
                     if negb (bool_decide (p = "")) && negb (bool_decide (p = provider)) then None else Some m) ids).

End Catalogue.
End ModelCatalog.
