(* ===== verification/ModelCatalogTheory.v ===== *)
(** * Refining a model's name settles it *)

From S2P Require Import Prelude GoStrings Schemas KeyConfig LiveModels ModelCatalog.

Local Open Scope string_scope.
Local Open Scope list_scope.

Module ModelCatalogTheory.
Import Schemas ModelCatalog.

Section Refine.
Context {AliasConfig : Type}.
Variable iter : forall A : Type, gmap string A -> list (string * A).
Variable known : gset string.

Local Abbreviation Catalog := (@ModelCatalog.ModelCatalog AliasConfig).

(** [Stripped own model bare]: [bare] is [model] less some of its leading [own/]. *)
Inductive Stripped (own : string) : string -> string -> Prop :=
| stripped_none m : Stripped own m m
| stripped_one m m' : Stripped own m m' -> Stripped own (own +:+ "/" +:+ m) m'.

(** [q/bare], which the catalogue lists for the provider. *)
Definition Listed (mc : Catalog) (provider bare r : string) : Prop :=
  r ∈ GetModelsForProvider iter mc provider /\ exists q, q ∈ known /\ r = q +:+ "/" +:+ bare.

Lemma ParseModelString_prefixed m p r : "" ∉ known -> ParseModelString known m "" = (p, r) -> p <> "" -> p ∈ known /\ m = p +:+ "/" +:+ r.
Proof.
  unfold ParseModelString. intros Hk. destruct (Index m "/") as [i|] eqn:Hi; [|congruence]. case_bool_decide as Hin; [|congruence].
  intros [= <- <-] _. split; [done|]. apply Index_Some_split in Hi. cbn [String.length] in Hi.
  by replace (i + 1)%nat with (S i) in Hi by lia.
Qed.

Lemma ParseModelString_bare m r : "" ∉ known -> ParseModelString known m "" = ("", r) -> r = m.
Proof.
  unfold ParseModelString. intros Hk. destruct (Index m "/") as [i|]; [|congruence]. case_bool_decide as Hin; [|congruence].
  intros [= He <-]. rewrite He in Hin. done.
Qed.

Lemma addNewBy_all_elem (out models : list string) x : x ∈ addNewBy (fun _ => true) out models <-> x ∈ out \/ x ∈ models.
Proof.
  unfold addNewBy. revert out. induction models as [|m models IH]; intros out; cbn [fold_left]; [set_solver|].
  rewrite IH. case_bool_decide; set_solver.
Qed.

Lemma addNewBy_all_NoDup (out models : list string) : NoDup out -> NoDup (addNewBy (fun _ => true) out models).
Proof.
  unfold addNewBy. revert out. induction models as [|m models IH]; intros out Hn; cbn [fold_left]; [done|].
  apply IH. case_bool_decide; [done|]. apply NoDup_app. repeat split; [done|set_solver|apply NoDup_singleton].
Qed.

(** What a provider's own catalogue makes of a name. *)
Lemma refineNested_spec (mc : Catalog) provider model :
  "" ∉ known ->
  match refineNestedProviderModel iter known mc provider model with
  | Ok r => r = model \/ Listed mc provider model r /\ ParseModelString known r "" <> ("", r) /\ (ParseModelString known r "").2 = model
  | Err e => e = "multiple compatible models found" /\ exists r r', r <> r' /\ Listed mc provider model r /\ Listed mc provider model r'
  end.
Proof.
  intros Hk. unfold refineNestedProviderModel. match goal with |- context [omap ?f _] => set (candidate := f) end. set (l := omap candidate _).
  assert (Hl : forall r, r ∈ l -> Listed mc provider model r /\ ParseModelString known r "" <> ("", r) /\ (ParseModelString known r "").2 = model).
  { intros r [pm [Hin Hc]]%list_elem_of_omap. unfold candidate in Hc. destruct (ParseModelString known pm "") as [p part] eqn:Hp.
    case_bool_decide as Hp0; [done|]. destruct (decide (model = part)) as [<-|]; [|by rewrite bool_decide_false in Hc].
    rewrite bool_decide_true in Hc by done. cbn [orb negb] in Hc. apply (inj Some) in Hc as <-.
    apply ParseModelString_prefixed in Hp as Hq; [|done..]. destruct Hq as [Hq Hpm].
    rewrite <- Hpm, Hp. repeat split; [done|by exists p|congruence]. }
  pose proof (addNewBy_all_NoDup [] l NoDup_nil_2) as Hn.
  assert (He : forall r, r ∈ addNewBy (fun _ => true) [] l -> r ∈ l) by (intros r; rewrite addNewBy_all_elem; set_solver).
  destruct (addNewBy _ [] l) as [|r [|r' rs]]; [by left|right; apply Hl, He; set_solver|].
  split; [done|]. exists r, r'. apply NoDup_cons in Hn as [Hn _]. split; [set_solver|].
  split; apply Hl, He; set_solver.
Qed.

(** The recursion of the source, without its fuel. *)
Lemma refine_fuel (mc : Catalog) provider fuel model :
  "" ∉ known -> (String.length model <= fuel)%nat -> refine iter known fuel mc provider model = RefineModelForProvider iter known mc provider model.
Proof.
  intros Hk. unfold RefineModelForProvider. revert model.
  induction fuel as [fuel IH] using lt_wf_ind. intros model Hf.
  destruct (decide (fuel = String.length model)) as [->|Hne]; [done|].
  destruct fuel as [|fuel]; [lia|]. destruct (String.length model) as [|n] eqn:Hn.
  - destruct model; [|done]. reflexivity.
  - cbn [refine]. destruct (ParseModelString known model "") as [p part] eqn:Hp. case_bool_decide as Hp0; [done|]. case_bool_decide; [|done].
    apply ParseModelString_prefixed in Hp as [_ ->]; [|done..]. rewrite !str_length_app in *. cbn in *.
    rewrite (IH fuel), <- (IH n) by lia. reflexivity.
Qed.

Lemma RefineModelForProvider_eq (mc : Catalog) provider model :
  "" ∉ known ->
  RefineModelForProvider iter known mc provider model =
  let '(prefixProvider, modelPart) := ParseModelString known model "" in
  if bool_decide (prefixProvider = "") then
    if bool_decide (provider ∈ nestedProviders) then refineNestedProviderModel iter known mc provider model else Ok model
  else if bool_decide (prefixProvider = provider) then RefineModelForProvider iter known mc provider modelPart
  else Ok model.
Proof.
  intros Hk. rewrite <- (refine_fuel mc provider (S (String.length model))) by (done || lia). cbn [refine].
  destruct (ParseModelString known model "") as [p part] eqn:Hp. case_bool_decide as Hp0; [done|]. case_bool_decide; [|done].
  apply ParseModelString_prefixed in Hp as [_ ->]; [|done..]. rewrite refine_fuel; [done..|]. rewrite !str_length_app. cbn. lia.
Qed.

(** Refining the name of a model for a provider always ends.  What it
    answers is the name less some leading prefixes of the provider itself, or,
    for the four providers whose models are named after other providers, what
    the catalogue lists under one known prefix of that; refining the answer
    again changes nothing, so that the several places that refine agree.  It
    fails only when the catalogue lists the model under two prefixes. *)
Theorem refine_settles (mc : Catalog) provider model :
  "" ∉ known ->
  match RefineModelForProvider iter known mc provider model with
  | Ok r =>
      (exists bare, Stripped provider model bare /\ (r = bare \/ provider ∈ nestedProviders /\ Listed mc provider bare r)) /\
      RefineModelForProvider iter known mc provider r = Ok r
  | Err e =>
      e = "multiple compatible models found" /\ provider ∈ nestedProviders /\
      exists bare r r', Stripped provider model bare /\ r <> r' /\ Listed mc provider bare r /\ Listed mc provider bare r'
  end.
Proof.
  intros Hk. remember (String.length model) as n eqn:Hn. revert model Hn.
  induction n as [n IH] using lt_wf_ind. intros model ->.
  pose proof (RefineModelForProvider_eq mc provider model Hk) as E.
  destruct (ParseModelString known model "") as [p part] eqn:Hp. case_bool_decide as Hp0.
  - case_bool_decide as Hnest.
    + pose proof (refineNested_spec mc provider model Hk) as Hs. rewrite <- E in Hs.
      destruct (RefineModelForProvider iter known mc provider model) as [r|e] eqn:Hr.
      2: { destruct Hs as [-> (r & r' & Hs)]. split; [done|]. split; [done|]. exists model, r, r'. split; [constructor|done]. }
      destruct Hs as [->|(Hl & Hpr & Hm)]; [split; [exists model; split; [constructor|by left]|done]|].
      split; [exists model; split; [constructor|by right]|].
      rewrite RefineModelForProvider_eq by done. destruct (ParseModelString known r "") as [q m] eqn:Hq in Hpr, Hm |- *. cbn [snd] in Hm. subst m.
      case_bool_decide as Hq0; [exfalso; apply Hpr; rewrite Hq0 in *; apply ParseModelString_bare in Hq as ->; done|].
      case_bool_decide; [done|done].
    + rewrite E. split; [exists model; split; [constructor|by left]|done].
  - apply ParseModelString_prefixed in Hp as [Hin ->]; [|done..]. case_bool_decide as Hpp.
    + subst p. assert (Hlt : (String.length part < String.length (provider +:+ "/" +:+ part))%nat) by (rewrite !str_length_app; cbn; lia).
      specialize (IH _ Hlt part eq_refl). rewrite E. destruct (RefineModelForProvider iter known mc provider part) as [r|e].
      * destruct IH as [(bare & Hs & Hb) Hi]. split; [|done]. exists bare. split; [by constructor|done].
      * destruct IH as (He & Hnest & bare & r & r' & Hs & Hrest). split; [done|]. split; [done|]. exists bare, r, r'. split; [by constructor|done].
    + rewrite E. split; [eexists; split; [constructor|by left]|done].
Qed.
End Refine.

(** Groq lists gpt-oss-120b as openai/gpt-oss-120b; a caller may write groq/. *)
Definition groqCatalog : @ModelCatalog.ModelCatalog unit :=
  mkCatalog (ModelCatalog.mkDatasheet ∅ ∅ ∅)
    (LiveModels.Upsert LiveModels.New Groq "k1" false ["openai/gpt-oss-120b"; "llama-3"])
    ∅.

Lemma refine_settles_witness :
  let iter : forall A, gmap string A -> list (string * A) := fun A (m : gmap string A) => map_to_list m in
  "" ∉ knownProviders0 /\
  RefineModelForProvider iter knownProviders0 groqCatalog Groq "groq/gpt-oss-120b" = Ok "openai/gpt-oss-120b" /\
  RefineModelForProvider iter knownProviders0 groqCatalog Groq "openai/gpt-oss-120b" = Ok "openai/gpt-oss-120b".
Proof.
  assert (Hk : "" ∉ knownProviders0) by (apply (bool_decide_unpack _); vm_compute; exact I).
  split; [exact Hk|].
  assert (E : RefineModelForProvider (fun A (m : gmap string A) => map_to_list m) knownProviders0 groqCatalog Groq "groq/gpt-oss-120b" = Ok "openai/gpt-oss-120b") by (vm_compute; reflexivity).
  pose proof (refine_settles (fun A (m : gmap string A) => map_to_list m) knownProviders0 groqCatalog Groq "groq/gpt-oss-120b" Hk) as H.
  rewrite E in H. cbv zeta. split; [exact E|apply H].
Defined.
End ModelCatalogTheory.
