(* ===== verification/GovBalance.v ===== *)
(** * Choosing a provider for a model
    (src/plugins/governance/main.go, resolver.go, utils.go;
    src/plugins/modelcatalogresolver/main.go)

    A request that names a model and no provider: governance picks one of the
    providers of the virtual key by weight, with the others as fallbacks, and
    publishes which providers the key allows; the model-catalogue resolver picks
    one of what the catalogue offers when no earlier plugin did.  Random numbers
    are an argument ([draw] scales one by the total weight); [sort.Slice] is an
    argument, since it is not stable.  Routing logs are left out. *)

From S2P Require Import Prelude GoStrings Schemas Request Context Calendar Windows GovStore GovPolicy GovResolver.

Local Open Scope string_scope.
Local Open Scope Z_scope.
Local Open Scope list_scope.

Module GovBalance.
Import Schemas Request Context Calendar Windows GovStore GovPolicy GovResolver.

Definition KeyRoutingAllowedProviders : string := "bifrost-routing-allowed-providers".
Definition KeyIntegrationType : string := "bifrost-integration-type".
Definition KeyIsAzureUserAgent : string := "bifrost-is-azure-user-agent".
Definition RoutingEngineGovernance : string := "governance".
Definition RoutingEngineModelCatalog : string := "model-catalog".

(** [schemas.AppendToContextList] on a list of strings. *)
Definition appendToList (ctx : BifrostContext) (k x : string) : list CtxOp :=
  let l := match value ctx k with VStrings l => l | _ => [] end in
  if bool_decide (x ∈ l) then [] else [OpSet k (VStrings (l ++ [x]))].

Section Balance.
Variable fraction : Z -> Z -> Z -> Z.
Context {F : Type} `{Amount F}.
Variable iter : forall A : Type, gmap string A -> list (string * A).
(** The catalogue: whether a list permits a model at a provider, and the name of
    a model there. *)
Variable catalog : option (string -> string -> WhiteList.t -> bool).
Variable refiner : option (string -> string -> result string string).
(** The weight 1.0. *)
Variable one : F.
Variable sortSlice : list (ProviderConfig F) -> list (ProviderConfig F).

Local Abbreviation VirtualKey := (VirtualKey F).
Local Abbreviation Store := (@Store F).
Local Abbreviation Config := (ProviderConfig F).

Definition getWeight (w : option F) : F := default one w.

(** ** Providers that are out of budget *)

Definition isProviderBudgetViolated (gs : Store) (vk : VirtualKey) (config : Config) (now : Check -> Time) : bool :=
  refused (CheckProviderBudget fraction iter gs (pc_Provider config) ∅ (now ProviderBudget)) ||
  (negb (bool_decide (pc_Budgets config = [])) && refused (CheckVirtualKeyBudget fraction iter gs vk (pc_Provider config) ∅ (now KeyBudget))).

Definition isProviderRateLimitViolated (gs : Store) (vk : VirtualKey) (config : Config) (now : Check -> Time) : bool :=
  refused (CheckProviderRateLimit fraction iter gs (pc_Provider config) ∅ ∅ (now ProviderRate)) ||
  (bool_decide (is_Some (pc_RateLimitID config)) && refused (CheckVirtualKeyRateLimit fraction iter gs vk (pc_Provider config) ∅ ∅ (now KeyRate))).

(** ** Load balancing *)

Definition blacklistedProviders (configs : list Config) (model : string) : list string :=
  pc_Provider <$> filter (fun c => BlackList.IsBlocked (pc_BlacklistedModels c) model = true) configs.

(** [now i] is the clock while the [i]-th configuration is looked at. *)
Definition isEligible (gs : Store) (vk : VirtualKey) (now : nat -> Check -> Time) (model : string) (i : nat) (config : Config) : bool :=
  negb (bool_decide (pc_Provider config ∈ blacklistedProviders (vk_ProviderConfigs vk) model)) &&
  vkAllows catalog config (pc_Provider config) model &&
  negb (isProviderBudgetViolated gs vk config (now i)) &&
  negb (isProviderRateLimitViolated gs vk config (now i)).

Definition allowedProviderConfigs (gs : Store) (vk : VirtualKey) (now : nat -> Check -> Time) (model : string) : list Config :=
  concat (imap (fun i config => if isEligible gs vk now model i config then [config] else []) (vk_ProviderConfigs vk)).

Definition weightedConfigs (l : list Config) : list Config := filter (fun c => is_Some (pc_Weight c)) l.

Definition totalWeight (l : list Config) : F := fold_left (fun total c => addAmount total (getWeight (pc_Weight c))) l zeroAmount.

Fixpoint pick (currentWeight : F) (l : list Config) (randomValue : F) : option string :=
  match l with
  | [] => None
  | c :: l =>
      let currentWeight := addAmount currentWeight (getWeight (pc_Weight c)) in
      if leAmount randomValue currentWeight then Some (pc_Provider c) else pick currentWeight l randomValue
  end.

(** The first one stands in when none, or one without a name, was picked. *)
Definition selectProvider (l : list Config) (draw : F -> F) : string :=
  match pick zeroAmount l (draw (totalWeight l)) with
  | None | Some "" => match l with c :: _ => pc_Provider c | [] => "" end
  | Some p => p
  end.

Definition refineModel (provider model : string) : result string string :=
  match refiner with Some f => f provider model | None => Ok model end.

(** A provider whose name for the model is ambiguous is skipped. *)
Definition fallbacksOf (l : list Config) (selected model : string) : list Fallback :=
  omap (fun c =>
    if bool_decide (pc_Provider c = selected) then None
    else match refineModel (pc_Provider c) model with Ok m => Some (mkFallback (pc_Provider c) m) | Err _ => None end) (sortSlice l).

Definition loadBalanceProvider {B} (gs : Store) (now : nat -> Check -> Time) (draw : F -> F) (ctx : BifrostContext)
    (req : BifrostRequest B) (vk : VirtualKey) : result string (BifrostRequest B * list CtxOp) :=
  let '(provider, model, existing) := GetRequestFields req in
  if bool_decide (model = "") || negb (bool_decide (provider = "")) then Ok (req, [])
  else match weightedConfigs (allowedProviderConfigs gs vk now model) with
       | [] => Ok (req, [])
       | configs =>
           let selected := selectProvider configs draw in
           match refineModel selected model with
           | Err e => Err e
           | Ok refined =>
               let req := SetModel (SetProvider req selected) refined in
               let req := if bool_decide (existing = []) && bool_decide (1 < length configs)%nat
                          then SetFallbacks req (fallbacksOf configs selected model) else req in
               Ok (req, appendToList ctx KeyRoutingEnginesUsed RoutingEngineGovernance)
           end
       end.

(** A list of providers on the context is a list of strings. *)
Definition publishRoutingAllowlist (vk : VirtualKey) (model : string) : list CtxOp :=
  let permits pc := bool_decide (model = "") ||
    (WhiteList.IsAllowed (pc_AllowedModels pc) model && negb (BlackList.IsBlocked (pc_BlacklistedModels pc) model)) in
  [OpSet KeyRoutingAllowedProviders (VStrings (pc_Provider <$> filter (fun pc => permits pc = true) (vk_ProviderConfigs vk)))].

(** ** What the hook stamps of the key *)

Definition stampGovernanceCtxFromVK (vk : VirtualKey) : list CtxOp :=
  let set k v := OpSet k (VString v) in
  match vk_TeamID vk with Some id => [set KeyGovernanceTeamID id] | None => [] end ++
  match vk_Team vk with
  | Some team =>
      set KeyGovernanceTeamName (tm_Name team) ::
      match tm_CustomerID team with
      | Some id =>
          set KeyGovernanceCustomerID id ::
          match tm_Customer team with Some c => [set KeyGovernanceCustomerName (cu_Name c)] | None => [] end
      | None => []
      end
  | None =>
      match vk_CustomerID vk with Some id => [set KeyGovernanceCustomerID id] | None => [] end ++
      match vk_Customer vk with Some c => [set KeyGovernanceCustomerName (cu_Name c)] | None => [] end
  end.

End Balance.

(** ** The model-catalogue resolver *)

Section Resolver.
(** [GetProvidersForModel] of the catalogue. *)
Variable providersForModel : string -> list string.

Definition integrationTypeToDefaultProvider (integration : string) : option string :=
  if bool_decide (integration = "openai") then Some OpenAI
  else if bool_decide (integration = "anthropic") then Some Anthropic
  else if bool_decide (integration = "genai") then Some Gemini
  else if bool_decide (integration = "bedrock") then Some Bedrock
  else if bool_decide (integration = "cohere") then Some Cohere
  else None.

(** The selected provider and the candidates. *)
Definition ResolveProviderFromCatalog (ctx : BifrostContext) (model : string) : string * list string :=
  if bool_decide (model = "") then ("", [])
  else
    let providers := SortStrings (providersForModel model) in
    let providers := match value ctx KeyRoutingAllowedProviders with
                     | VStrings allowed => filter (fun p => p ∈ allowed) providers
                     | _ => providers
                     end in
    match providers with
    | [] => ("", [])
    | first :: _ =>
        let integration := match value ctx KeyIntegrationType with VString s => s | _ => "" end in
        let selected :=
          match integrationTypeToDefaultProvider integration with
          | Some d =>
              let preferred := if bool_decide (integration = "openai") && boolValue ctx KeyIsAzureUserAgent then Azure else d in
              if bool_decide (preferred ∈ providers) then preferred else first
          | None => first
          end in
        (selected, providers)
    end.

Definition resolverPreRequestHook {B} (ctx : BifrostContext) (req : BifrostRequest B) : BifrostRequest B * list CtxOp :=
  if isPassthrough (br_RequestType req) then (req, [])
  else
    let '(provider, model, existing) := GetRequestFields req in
    if negb (bool_decide (provider = "")) || bool_decide (model = "") then (req, [])
    else
      let '(selected, candidates) := ResolveProviderFromCatalog ctx model in
      if bool_decide (selected = "") then (req, [])
      else
        let req := SetProvider req selected in
        let fallbacks := (fun p => mkFallback p model) <$> filter (fun p => p <> selected) candidates in
        let req := if bool_decide (existing = []) && bool_decide (1 < length candidates)%nat && negb (bool_decide (fallbacks = []))
                   then SetFallbacks req fallbacks else req in
        (req, appendToList ctx KeyRoutingEnginesUsed RoutingEngineModelCatalog).
End Resolver.
End GovBalance.
