(* ===== verification/GovRules.v ===== *)
(** * Routing rules
    (src/plugins/governance/routing.go, routingmultimodal.go, routingcelrefs.go,
    store.go; src/framework/routing/routing.go)

    The rules of a scope in memory with their compiled programs; the CEL
    expressions are compiled ([Compile]), parsed ([Parse]) and evaluated ([Eval])
    by a library.  An evaluation walks the scopes of a request, fires the first
    rule that matches, and goes on with what that rule chose while it asks for
    it.  Random choices are arguments by the step they belong to, as is the
    configured depth, which may change meanwhile.  Routing logs are left out. *)

From S2P Require Import Prelude GoStrings Schemas Request Context Calendar Windows GovStore GovPolicy GovResolver GovBalance ModelCatalog.
From Stdlib Require Import Ascii.

Local Open Scope string_scope.
Local Open Scope Z_scope.
Local Open Scope list_scope.

Module GovRules.
Import Schemas Request Context Calendar Windows GovStore GovPolicy GovResolver GovBalance.

Definition KeyGovernanceRoutingRuleID : string := "bifrost-governance-routing-rule-id".
Definition KeyGovernanceRoutingRuleName : string := "bifrost-governance-routing-rule-name".
Definition RoutingEngineRoutingRule : string := "routing-rule".

(** ** Expressions (framework/routing) *)

Definition isQuote (c : ascii) : bool := Ascii.eqb c "034" || Ascii.eqb c "'".

(** The part of a text up to the first quote, and what follows that quote. *)
Fixpoint untilQuote (s : string) : option (string * ascii * string) :=
  match s with
  | "" => None
  | String c s' =>
      if isQuote c then Some ("", c, s')
      else match untilQuote s' with Some (key, q, rest) => Some (String c key, q, rest) | None => None end
  end.

(** A quoted text that is not empty: the match and the rest. *)
Definition quoted (s : string) : option (string * string) :=
  match s with
  | String q s' =>
      if isQuote q then
        match untilQuote s' with
        | Some ("", _, _) | None => None
        | Some (key, q', rest) => Some (String q key +:+ String q' "", rest)
        end
      else None
  | "" => None
  end.

(** The name, a bracket, a quoted text and a bracket. *)
Definition matchAccess (name s : string) : option (string * string) :=
  if HasPrefix s (name +:+ "[") then
    match quoted (str_drop (S (String.length name)) s) with
    | Some (key, String "]" rest) => Some (name +:+ "[" +:+ key +:+ "]", rest)
    | _ => None
    end
  else None.

(** [\s+], which knows no vertical tab; the match and the rest. *)
Definition reSpace (c : ascii) : bool := bool_decide (nat_of_ascii c ∈ [9; 10; 12; 13; 32]%nat).

Fixpoint spaces (s : string) : option (string * string) :=
  match s with
  | String c s' =>
      if reSpace c then match spaces s' with Some (w, rest) => Some (String c w, rest) | None => Some (String c "", s') end else None
  | "" => None
  end.

(** A quoted text, [in] and the name. *)
Definition matchIn (name s : string) : option (string * string) :=
  match quoted s with
  | Some (key, rest) =>
      match spaces rest with
      | Some (w, rest) =>
          if HasPrefix rest "in" then
            match spaces (str_drop 2 rest) with
            | Some (w', rest) =>
                if HasPrefix rest name then Some (key +:+ w +:+ "in" +:+ w' +:+ name, str_drop (String.length name) rest) else None
            | None => None
            end
          else None
      | None => None
      end
  | None => None
  end.

(** [ReplaceAllStringFunc s ToLower]: the leftmost matches, one after the other. *)
Fixpoint lowerMatches (fuel : nat) (m : string -> option (string * string)) (s : string) : string :=
  match fuel, s with
  | S fuel, String c s' =>
      match m s with
      | Some (hit, rest) => ToLower hit +:+ lowerMatches fuel m rest
      | None => String c (lowerMatches fuel m s')
      end
  | _, _ => s
  end.

Definition lowerAll (m : string -> option (string * string)) (s : string) : string := lowerMatches (String.length s) m s.

Definition NormalizeMapKeysInCEL (expr : string) : string :=
  let expr := lowerAll (matchAccess "headers") expr in
  let expr := lowerAll (matchAccess "params") expr in
  let expr := lowerAll (matchIn "headers") expr in
  lowerAll (matchIn "params") expr.

Definition validPatterns : list string :=
  ["=="; "!="; "&&"; "||"; ">"; "<"; ">="; "<="; "in "; "matches "; ".startsWith("; ".contains("; ".endsWith("; "["; "]"; "("; ")"; "!"].

Definition ValidateCELExpression (expr : string) : bool :=
  let normalized := TrimSpace expr in
  bool_decide (normalized ∈ [""; "true"; "false"]) || existsb (Contains normalized) validPatterns.

(** ** Identifiers of a parsed expression (routingcelrefs.go) *)

(** The kinds of expressions of the library, without what is not looked at. *)
Inductive CelExpr :=
| IdentKind (name : string)
| LiteralKind
| CallKind (target : option CelExpr) (args : list CelExpr)
| ComprehensionKind (iterRange : CelExpr) (iterVar iterVar2 accuVar : string) (accuInit loopCondition loopStep result : CelExpr)
| ListKind (elements : list CelExpr)
| MapKind (entries : list (CelExpr * CelExpr))
| SelectKind (operand : CelExpr)
| StructKind (fields : list CelExpr).

(** [scopedIdents] counts the declarations around; a name that is empty is none. *)
Definition addScopedCELIdentifiers (parent : gmap string nat) (identifiers : list string) : gmap string nat :=
  fold_left (fun scoped i => if bool_decide (i = "") then scoped else <[i := S (default 0%nat (scoped !! i))]> scoped) identifiers parent.

Fixpoint celExprReferencesIdentifier (expr : CelExpr) (identifier : string) (scopedIdents : gmap string nat) : bool :=
  match expr with
  | IdentKind name => bool_decide (name = identifier) && bool_decide (default 0%nat (scopedIdents !! identifier) = 0%nat)
  | LiteralKind => false
  | CallKind target args =>
      match target with Some t => celExprReferencesIdentifier t identifier scopedIdents | None => false end ||
      existsb (fun a => celExprReferencesIdentifier a identifier scopedIdents) args
  | ComprehensionKind iterRange iterVar iterVar2 accuVar accuInit loopCondition loopStep result =>
      celExprReferencesIdentifier iterRange identifier scopedIdents ||
      (let scoped := addScopedCELIdentifiers scopedIdents [iterVar; iterVar2; accuVar] in
       celExprReferencesIdentifier accuInit identifier scoped || celExprReferencesIdentifier loopCondition identifier scoped ||
       celExprReferencesIdentifier loopStep identifier scoped || celExprReferencesIdentifier result identifier scoped)
  | ListKind elements => existsb (fun e => celExprReferencesIdentifier e identifier scopedIdents) elements
  | MapKind entries =>
      existsb (fun '(k, v) => celExprReferencesIdentifier k identifier scopedIdents || celExprReferencesIdentifier v identifier scopedIdents) entries
  | SelectKind operand => celExprReferencesIdentifier operand identifier scopedIdents
  | StructKind fields => existsb (fun e => celExprReferencesIdentifier e identifier scopedIdents) fields
  end.

(** ** Content of a request (routingmultimodal.go) *)

Record MultimodalFlags := mkFlags {
  HasImage : bool; HasAudio : bool; HasFile : bool; ImageCount : Z; AudioCount : Z; FileCount : Z }.

Definition emptyMultimodalFlags : MultimodalFlags := mkFlags false false false 0 0 0.

(** The types of the content blocks, by message; the names of the three kinds
    that count are those of the chat or of the responses API. *)
Definition flagBlock (image audio file : string) (f : MultimodalFlags) (type : string) : MultimodalFlags :=
  if bool_decide (type = image) then mkFlags true (HasAudio f) (HasFile f) (ImageCount f + 1) (AudioCount f) (FileCount f)
  else if bool_decide (type = audio) then mkFlags (HasImage f) true (HasFile f) (ImageCount f) (AudioCount f + 1) (FileCount f)
  else if bool_decide (type = file) then mkFlags (HasImage f) (HasAudio f) true (ImageCount f) (AudioCount f) (FileCount f + 1)
  else f.

Definition flagsFromChatMessages (messages : list (list string)) : MultimodalFlags :=
  fold_left (fun f blocks => fold_left (flagBlock "image_url" "input_audio" "file") blocks f) messages emptyMultimodalFlags.

Definition flagsFromResponsesMessages (messages : list (list string)) : MultimodalFlags :=
  fold_left (fun f blocks => fold_left (flagBlock "input_image" "input_audio" "input_file") blocks f) messages emptyMultimodalFlags.

(** [blocks] reads the blocks of a typed request. *)
Definition extractMultimodalFlags {B} (blocks : B -> list (list string)) (req : BifrostRequest B) : MultimodalFlags :=
  if bool_decide (br_RequestType req ∈ [ChatCompletionRequest; ChatCompletionStreamRequest]) then
    match br_field req FChat with Some s => flagsFromChatMessages (blocks (sub_Body s)) | None => emptyMultimodalFlags end
  else if bool_decide (br_RequestType req ∈ [ResponsesRequest; ResponsesStreamRequest]) then
    match br_field req FResponses with Some s => flagsFromResponsesMessages (blocks (sub_Body s)) | None => emptyMultimodalFlags end
  else emptyMultimodalFlags.

(** ** Rules *)

Record TableRoutingTarget {F : Type} := mkTarget {
  tg_Provider : option string; tg_Model : option string; tg_KeyID : option string; tg_Weight : F }.
Arguments TableRoutingTarget : clear implicits.
Arguments mkTarget {F}.

Record TableRoutingRule {F : Type} := mkRule {
  rr_ID : string;
  rr_Name : string;
  rr_Enabled : option bool;
  rr_CelExpression : string;
  rr_Targets : list (TableRoutingTarget F);
  rr_ParsedFallbacks : list string;
  rr_Scope : string;
  rr_ScopeID : option string;
  rr_ChainRule : bool;
  rr_Priority : Z;
  rr_CreatedAt : Time }.
Arguments TableRoutingRule : clear implicits.
Arguments mkRule {F}.

Definition EnabledValue {F} (r : TableRoutingRule F) : bool := default true (rr_Enabled r).

Record ScopeLevel := mkScope { ScopeName : string; ScopeID : string }.

Record RoutingDecision := mkDecision {
  rd_Provider : string; rd_Model : string; rd_KeyID : string; rd_Fallbacks : list string; rd_MatchedRuleID : string; rd_MatchedRuleName : string }.

Record BudgetAndRateLimitStatus {F : Type} := mkStatus {
  BudgetPercentUsed : F; RateLimitTokenPercentUsed : F; RateLimitRequestPercentUsed : F }.
Arguments BudgetAndRateLimitStatus : clear implicits.
Arguments mkStatus {F}.

(** What an expression can name. *)
Record Variables {F : Type} := mkVariables {
  var_model : string; var_provider : string; var_request_type : string;
  var_headers : gmap string string; var_params : gmap string string;
  var_virtual_key_id : string; var_virtual_key_name : string; var_user_id : string;
  var_team_id : string; var_team_name : string; var_customer_id : string; var_customer_name : string;
  var_status : BudgetAndRateLimitStatus F;
  var_complexity_tier : string;
  var_flags : MultimodalFlags }.
Arguments Variables : clear implicits.
Arguments mkVariables {F}.

(** What evaluating a program gives. *)
Inductive EvalResult := EvalError (message : string) | EvalUnknown | EvalBool (b : bool) | EvalOther (type : string).

Definition buildScopeChain {F} (virtualKey : option (VirtualKey F)) (userID : string) : list ScopeLevel :=
  let customer c := mkScope "customer" (cu_ID c) in
  match virtualKey with Some vk => [mkScope "virtual_key" (vk_ID vk)] | None => [] end ++
  (if bool_decide (userID = "") then [] else [mkScope "user" userID]) ++
  match virtualKey with
  | Some vk =>
      match vk_Team vk, vk_Customer vk with
      | Some team, _ => mkScope "team" (tm_ID team) :: match tm_Customer team with Some c => [customer c] | None => [] end
      | None, Some c => [customer c]
      | None, None => []
      end
  | None => []
  end ++ [mkScope "global" ""].

(** ** Rules in memory (store.go) *)

Section Rules.
Context {F : Type} {P : Type}.
(** [Env.Compile] and [Env.Program]. *)
Variable Compile : string -> result string P.
(** [sort.Slice] by priority, and by priority and age. *)
Variable sortRules : list (TableRoutingRule F) -> list (TableRoutingRule F).
Variable sortAllRules : list (TableRoutingRule F) -> list (TableRoutingRule F).
Variable iter : forall A : Type, gmap string A -> list (string * A).

Local Abbreviation Rule := (TableRoutingRule F).

Record RuleStore := mkRuleStore { routingRules : gmap string (list Rule); compiledRoutingPrograms : gmap string P }.

Definition setRules (s : RuleStore) (m : gmap string (list Rule)) : RuleStore := mkRuleStore m (compiledRoutingPrograms s).
Definition setPrograms (s : RuleStore) (m : gmap string P) : RuleStore := mkRuleStore (routingRules s) m.

Definition HasRoutingRules (s : RuleStore) : bool := negb (bool_decide (routingRules s = ∅)).

Definition GetAllRoutingRules (s : RuleStore) : list Rule := sortAllRules (concat (snd <$> iter _ (routingRules s))).

Definition scopeKey (scope scopeID : string) : string := if bool_decide (scope = "global") then "global:" else scope +:+ ":" +:+ scopeID.

Definition GetScopedRoutingRules (s : RuleStore) (scope scopeID : string) : list Rule :=
  filter (fun r => EnabledValue r = true) (default [] (routingRules s !! scopeKey scope scopeID)).

(** Compiling the expression of a rule, an empty one being [true]. *)
Definition compileExpr (expr : string) : result string P :=
  let expr := NormalizeMapKeysInCEL (if bool_decide (expr = "") then "true" else expr) in
  if ValidateCELExpression expr then Compile expr else Err "invalid CEL expression".

(** A program is looked up, and compiled and kept when it is not there. *)
Definition loadProgram (s : RuleStore) (rule : Rule) : option P := compiledRoutingPrograms s !! rr_ID rule.

Definition compileAndKeep (s : RuleStore) (rule : Rule) : result string P * RuleStore :=
  match compileExpr (rr_CelExpression rule) with
  | Err e => (Err e, s)
  | Ok p => (Ok p, setPrograms s (<[rr_ID rule := p]> (compiledRoutingPrograms s)))
  end.

Definition GetRoutingProgram (s : RuleStore) (rule : Rule) : result string P * RuleStore :=
  match loadProgram s rule with
  | Some p => (Ok p, s)
  | None => compileAndKeep s rule
  end.

(** Removing a rule from every scope; a scope without rules goes. *)
Definition removeRule (id : string) (m : gmap string (list Rule)) : gmap string (list Rule) :=
  omap (fun rules => match filter (fun r => rr_ID r <> id) rules with [] => None | l => Some l end) m.

Definition ruleKey (rule : Rule) : string := scopeKey (rr_Scope rule) (default "" (rr_ScopeID rule)).

(** An update up to the point where the rule has no program. *)
Definition replaceRule (s : RuleStore) (rule : Rule) : RuleStore :=
  let m := removeRule (rr_ID rule) (routingRules s) in
  let key := ruleKey rule in
  let s := setRules s (<[key := sortRules (default [] (m !! key) ++ [rule])]> m) in
  setPrograms s (delete (rr_ID rule) (compiledRoutingPrograms s)).

Definition UpdateRoutingRuleInMemory (s : RuleStore) (rule : Rule) : RuleStore := snd (GetRoutingProgram (replaceRule s rule) rule).

Definition DeleteRoutingRuleInMemory (s : RuleStore) (id : string) : RuleStore :=
  let s := setRules s (removeRule id (routingRules s)) in
  setPrograms s (delete id (compiledRoutingPrograms s)).

(** The part of [rebuildInMemoryStructures] that loads rules; the key of a scope
    is not that of [scopeKey] for a global rule with a scope ID. *)
Definition rebuildRoutingRules (rules : list Rule) (programs : gmap string P) : RuleStore :=
  let key r := rr_Scope r +:+ ":" +:+ default "" (rr_ScopeID r) in
  let rulesMap := fold_left (fun m r => <[key r := default [] (m !! key r) ++ [r]]> m) rules ∅ in
  let s := mkRuleStore (sortRules <$> rulesMap) programs in
  fold_left (fun s r => snd (GetRoutingProgram s r)) (concat (snd <$> iter _ (routingRules s))) s.

End Rules.

(** ** Evaluation (routing.go) *)

Section Engine.
Context {F : Type} `{Amount F} {P : Type}.
Variable Compile : string -> result string P.
Variable Parse : string -> option CelExpr.
(** The flag tells that [complexity_tier] is marked as unknown. *)
Variable Eval : P -> Variables F -> bool -> EvalResult.
Variable GetBaseModelName : option (string -> string).
Variable iter : forall A : Type, gmap string A -> list (string * A).
(** [float64(n)] and [x / y * 100]. *)
Variable floatOf : Z -> F.
Variable percent : F -> F -> F.
(** [rand.IntN n] and [rand.Float64() * total] at a step. *)
Variable drawIndex : nat -> nat -> nat.
Variable drawFloat : nat -> F -> F.
Variable maxDepth : nat -> Z.

Local Abbreviation Rule := (TableRoutingRule F).
Local Abbreviation Target := (TableRoutingTarget F).
Local Abbreviation VirtualKey := (VirtualKey F).
Local Abbreviation Store := (@Store F).
Local Abbreviation RuleStore := (@RuleStore F P).
Local Abbreviation Status := (BudgetAndRateLimitStatus F).

(** *** How much of the limits is used (store.go) *)

Definition maxAmount (x y : F) : F := if ltAmount x y then y else x.

Definition counterPercent (c : Counter) (used : F) : F :=
  match c_MaxLimit c with
  | Some n => if 0 <? n then maxAmount used (percent (floatOf (c_CurrentUsage c)) (floatOf n)) else used
  | None => used
  end.

Definition applyRateLimit (gs : Store) (id : option string) (st : Status) : Status :=
  match id ≫= LoadRateLimit gs with
  | Some r => mkStatus (BudgetPercentUsed st) (counterPercent (Windows.Token r) (RateLimitTokenPercentUsed st))
                (counterPercent (Windows.Request r) (RateLimitRequestPercentUsed st))
  | None => st
  end.

Definition applyBudget (gs : Store) (st : Status) (id : string) : Status :=
  match LoadBudget gs id with
  | Some b =>
      if ltAmount zeroAmount (EffectiveMaxLimit b)
      then mkStatus (maxAmount (BudgetPercentUsed st) (percent (CurrentUsage b) (EffectiveMaxLimit b))) (RateLimitTokenPercentUsed st) (RateLimitRequestPercentUsed st)
      else st
  | None => st
  end.

Definition applyModelConfig (gs : Store) (st : Status) (mc : ModelConfig) : Status :=
  fold_left (applyBudget gs) (mc_Budgets mc) (applyRateLimit gs (mc_RateLimitID mc) st).

Definition nonGlobalModelConfigScopeChain (vk : option VirtualKey) : list (string * string) :=
  match vk with Some vk => [(ModelConfigScopeVirtualKey, vk_ID vk)] | None => [] end.

(** Only the first configuration of the provider counts. *)
Definition GetBudgetAndRateLimitStatus (gs : Store) (model provider : string) (vk : option VirtualKey) : Status :=
  let configsFor scope id := collectModelConfigsFor GetBaseModelName gs scope id model (providerStr provider) in
  let st := mkStatus zeroAmount zeroAmount zeroAmount in
  let st :=
    if bool_decide (model = "") then st
    else
      fold_left (applyModelConfig gs)
        (configsFor ModelConfigScopeGlobal "" ++ concat ((fun p => configsFor p.1 p.2) <$> nonGlobalModelConfigScopeChain vk)) st in
  let st :=
    match providers gs !! provider with
    | Some p => fold_left (applyBudget gs) (option_list (p_BudgetID p)) (applyRateLimit gs (p_RateLimitID p) st)
    | None => st
    end in
  match vk ≫= fun vk => head (filter (fun pc => pc_Provider pc = provider) (vk_ProviderConfigs vk)) with
  | Some pc => fold_left (applyBudget gs) (pc_Budgets pc) (applyRateLimit gs (pc_RateLimit pc) st)
  | None => st
  end.

(** *** What expressions see *)

Record RoutingContext {B : Type} := mkRoutingContext {
  rc_VirtualKey : option VirtualKey;
  rc_UserID : string;
  rc_Provider : string;
  rc_Model : string;
  rc_RequestType : string;
  rc_Headers : gmap string string;
  rc_QueryParams : gmap string string;
  rc_Request : BifrostRequest B;
  rc_computeComplexity : option (option string) }.
Arguments RoutingContext : clear implicits.

(** Of names that differ in case alone, the last one the map is ranged over wins. *)
Definition lowerKeys (m : gmap string string) : gmap string string :=
  fold_left (fun acc p => <[ToLower p.1 := p.2]> acc) (iter _ m) ∅.

Definition extractRoutingVariables {B} (blocks : B -> list (list string)) (ctx : RoutingContext B) (provider model : string)
    (status : Status) : Variables F :=
  let vk := rc_VirtualKey ctx in
  let team := vk ≫= vk_Team in
  let customer := match team ≫= tm_Customer with Some c => Some c | None => vk ≫= vk_Customer end in
  let text {A} (f : A -> string) o := match o with Some x => f x | None => "" end in
  mkVariables model provider (rc_RequestType ctx) (lowerKeys (rc_Headers ctx)) (lowerKeys (rc_QueryParams ctx))
    (text vk_ID vk) (text vk_Name vk) (rc_UserID ctx) (text tm_ID team) (text tm_Name team) (text cu_ID customer) (text cu_Name customer)
    status "" (extractMultimodalFlags blocks (rc_Request ctx)).

Definition withTier (v : Variables F) (tier : string) : Variables F :=
  mkVariables (var_model v) (var_provider v) (var_request_type v) (var_headers v) (var_params v) (var_virtual_key_id v)
    (var_virtual_key_name v) (var_user_id v) (var_team_id v) (var_team_name v) (var_customer_id v) (var_customer_name v) (var_status v)
    tier (var_flags v).

Definition evaluateCELExpression (program : P) (variables : Variables F) (unknown : bool) : result string bool :=
  match Eval program variables unknown with
  | EvalError message => if Contains message "no such key" then Ok false else Err ("CEL evaluation error: " +:+ message)
  | EvalUnknown => Ok false
  | EvalBool b => Ok b
  | EvalOther type => Err ("CEL expression did not return boolean, got: " +:+ type)
  end.

Definition celExpressionReferencesIdentifier (expr identifier : string) : bool :=
  if bool_decide (expr = "") || bool_decide (identifier = "") then false
  else match Parse expr with Some e => celExprReferencesIdentifier e identifier ∅ | None => false end.

(** *** Targets *)

Definition validTargets (targets : list Target) : list Target := filter (fun t => leAmount zeroAmount (tg_Weight t) = true) targets.

Fixpoint pickTarget (cumulative : F) (l : list Target) (r : F) : option Target :=
  match l with
  | [] => None
  | t :: l =>
      let cumulative := addAmount cumulative (tg_Weight t) in
      if ltAmount r cumulative then Some t else pickTarget cumulative l r
  end.

Definition selectWeightedTarget (step : nat) (targets : list Target) : option Target :=
  let valid := validTargets targets in
  match valid with
  | [] => None
  | t :: rest =>
      let total := fold_left (fun total t => addAmount total (tg_Weight t)) valid zeroAmount in
      if leAmount total zeroAmount && leAmount zeroAmount total then valid !! drawIndex step (length valid)
      else match rest with
           | [] => Some t
           | _ => match pickTarget zeroAmount valid (drawFloat step total) with Some t => Some t | None => last valid end
           end
  end.

(** *** Rules *)

(** What an evaluation carries along: the store, the tier once computed, and the
    computation of the tier while it is still to be made. *)
Record EvalState := mkEvalState { es_Store : RuleStore; es_Tier : option string; es_Compute : option (option string) }.

Definition setOr (name : option string) (current : string) : string :=
  match name with Some "" | None => current | Some s => s end.

Definition decisionOf (provider model : string) (rule : Rule) (target : Target) : RoutingDecision :=
  mkDecision (setOr (tg_Provider target) provider) (setOr (tg_Model target) model) (default "" (tg_KeyID target))
    (rr_ParsedFallbacks rule) (rr_ID rule) (rr_Name rule).

Definition tryRule (step : nat) (visited : list string) (provider model : string) (variables : Variables F) (st : EvalState) (rule : Rule) :
    option (Rule * RoutingDecision) * EvalState :=
  if bool_decide (rr_ID rule ∈ visited) then (None, st)
  else
    let references := celExpressionReferencesIdentifier (rr_CelExpression rule) "complexity_tier" in
    let st := match es_Tier st, es_Compute st with
              | None, Some tier => if references then mkEvalState (es_Store st) tier None else st
              | _, _ => st
              end in
    let '(program, s) := GetRoutingProgram Compile (es_Store st) rule in
    let st := mkEvalState s (es_Tier st) (es_Compute st) in
    match program with
    | Err _ => (None, st)
    | Ok program =>
        match evaluateCELExpression program (withTier variables (default "" (es_Tier st))) (references && bool_decide (es_Tier st = None)) with
        | Ok true =>
            match selectWeightedTarget step (rr_Targets rule) with
            | Some target => (Some (rule, decisionOf provider model rule target), st)
            | None => (None, st)
            end
        | _ => (None, st)
        end
    end.

Fixpoint scanRules (step : nat) (visited : list string) (provider model : string) (variables : Variables F) (st : EvalState)
    (rules : list Rule) : option (Rule * RoutingDecision) * EvalState :=
  match rules with
  | [] => (None, st)
  | rule :: rules =>
      match tryRule step visited provider model variables st rule with
      | (Some found, st) => (Some found, st)
      | (None, st) => scanRules step visited provider model variables st rules
      end
  end.

Definition scopedRules (s : RuleStore) (chain : list ScopeLevel) : list Rule :=
  concat ((fun scope => GetScopedRoutingRules s (ScopeName scope) (ScopeID scope)) <$> chain).

(** Every round marks one more rule: one round more than there are rules is fuel enough. *)
Fixpoint routingChain {B} (fuel : nat) (gs : Store) (blocks : B -> list (list string)) (ctx : RoutingContext B) (rules : list Rule)
    (step : nat) (visited : list string) (provider model : string) (final : option RoutingDecision) (ops : list CtxOp) (st : EvalState) :
    option (option RoutingDecision * list CtxOp * EvalState) :=
  if maxDepth step <=? Z.of_nat step then Some (final, ops, st)
  else
    match fuel with
    | O => None
    | S fuel =>
        let status := GetBudgetAndRateLimitStatus gs model provider (rc_VirtualKey ctx) in
        let variables := extractRoutingVariables blocks ctx provider model status in
        match scanRules step visited provider model variables st rules with
        | (None, st) => Some (final, ops, st)
        | (Some (rule, d), st) =>
            let ops := ops ++ [OpSet KeyGovernanceRoutingRuleID (VString (rd_MatchedRuleID d));
                               OpSet KeyGovernanceRoutingRuleName (VString (rd_MatchedRuleName d))] in
            if rr_ChainRule rule
            then routingChain fuel gs blocks ctx rules (S step) (rr_ID rule :: visited) (rd_Provider d) (rd_Model d) (Some d) ops st
            else Some (Some d, ops, st)
        end
    end.

Definition EvaluateRoutingRules {B} (gs : Store) (blocks : B -> list (list string)) (s : RuleStore) (ctx : RoutingContext B) :
    option (option RoutingDecision * list CtxOp * RuleStore) :=
  match scopedRules s (buildScopeChain (rc_VirtualKey ctx) (rc_UserID ctx)) with
  | [] => Some (None, [], s)
  | rules =>
      match routingChain (S (length rules)) gs blocks ctx rules 0 [] (rc_Provider ctx) (rc_Model ctx) None [] (mkEvalState s None (rc_computeComplexity ctx)) with
      | Some (d, ops, st) => Some (d, ops, es_Store st)
      | None => None
      end
  end.

(** ** Hooks (main.go) *)

(** A fallback of a rule: one without a known provider is left out; one without a
    model takes that of the request as it came in. *)
Definition resolveFallback (known : gset string) (model fb : string) : option Fallback :=
  let '(fbProvider, fbModel) := ModelCatalog.ParseModelString known fb "" in
  let fbProvider := TrimSpace fbProvider in
  let fbModel := TrimSpace fbModel in
  if bool_decide (fbProvider = "") then None else Some (mkFallback fbProvider (if bool_decide (fbModel = "") then model else fbModel)).

(** [headers] and [queryParams] are the maps of the request; [complexity] is what
    the analyzer, if there is one, makes of a request.  No user is ever named. *)
Definition applyRoutingRules {B} (known : gset string) (gs : Store) (blocks : B -> list (list string)) (s : RuleStore)
    (complexity : option (BifrostRequest B -> option string)) (headers queryParams : gmap string string)
    (ctx : BifrostContext) (req : BifrostRequest B) (vk : option VirtualKey) : option (BifrostRequest B * list CtxOp * RuleStore) :=
  let '(provider, model, _) := GetRequestFields req in
  if bool_decide (model = "") then Some (req, [], s)
  else
    let routingCtx := mkRoutingContext B vk "" provider model (br_RequestType req) headers queryParams req ((fun f => f req) <$> complexity) in
    match EvaluateRoutingRules gs blocks s routingCtx with
    | None => None
    | Some (None, ops, s) => Some (req, ops, s)
    | Some (Some d, ops, s) =>
        let req := if bool_decide (rd_Provider d = "") then req else SetProvider req (rd_Provider d) in
        let req := if bool_decide (rd_Model d = "") then req else SetModel req (rd_Model d) in
        let req := if bool_decide (rd_Fallbacks d = []) then req else SetFallbacks req (omap (resolveFallback known model) (rd_Fallbacks d)) in
        let pin := if bool_decide (rd_KeyID d = "") then [] else [OpSet KeyRoutingPinnedAPIKeyID (VString (rd_KeyID d))] in
        Some (req, ops ++ appendToList (applyOps ctx ops) KeyRoutingEnginesUsed RoutingEngineRoutingRule ++ pin, s)
    end.

End Engine.

(** ** The whole hook before a request *)

Section Hook.
Context {F : Type} `{Amount F} {P B : Type}.
Variable fraction : Z -> Z -> Z -> Z.
Variable Compile : string -> result string P.
Variable Parse : string -> option CelExpr.
Variable Eval : P -> Variables F -> bool -> EvalResult.
Variable GetBaseModelName : option (string -> string).
Variable iter : forall A : Type, gmap string A -> list (string * A).
Variable floatOf : Z -> F.
Variable percent : F -> F -> F.
Variable drawIndex : nat -> nat -> nat.
Variable drawFloat : nat -> F -> F.
Variable maxDepth : nat -> Z.
Variable catalog : option (string -> string -> WhiteList.t -> bool).
Variable refiner : option (string -> string -> result string string).
Variable one : F.
Variable sortSlice : list (ProviderConfig F) -> list (ProviderConfig F).
Variable known : gset string.
Variable blocks : B -> list (list string).
Variable complexity : option (BifrostRequest B -> option string).

(** The clock of the key's expiry, and that of the configurations. *)
Record HookClock := mkHookClock { hc_Expiry : Time; hc_Configs : nat -> Check -> Time }.

(** The error, the request, the operations on the context and the store of the
    rules; [None] is fuel that ran out. *)
Definition PreRequestHook (gs : @GovPolicy.Store F) (s : @RuleStore F P) (pl : GovernancePlugin) (disableAutoToolInject : option bool)
    (clock : HookClock) (draw : F -> F) (headers queryParams : gmap string string) (ctx : BifrostContext) (req : BifrostRequest B) :
    option (option string * BifrostRequest B * list CtxOp * @RuleStore F P) :=
  let unchanged := Some (None, req, [], s) in
  let virtualKeyValue := stringValue ctx KeyVirtualKey in
  let virtualKey := if bool_decide (virtualKeyValue = "") then None else GetVirtualKey gs virtualKeyValue in
  let usable := match virtualKey with Some vk => IsActiveValue vk && negb (IsExpiredAt vk (hc_Expiry clock)) | None => false end in
  if isPassthrough (br_RequestType req) then unchanged
  else if bool_decide (virtualKeyValue = "") && negb (HasRoutingRules s) then unchanged
  else if negb (bool_decide (virtualKeyValue = "")) && negb usable then unchanged
  else
    let stamp := match virtualKey with Some vk => stampGovernanceCtxFromVK vk | None => [] end in
    match (if HasRoutingRules s
           then applyRoutingRules Compile Parse Eval GetBaseModelName iter floatOf percent drawIndex drawFloat maxDepth known gs blocks s
                  complexity headers queryParams (applyOps ctx stamp) req virtualKey
           else Some (req, [], s)) with
    | None => None
    | Some (req, ops, s) =>
        match virtualKey with
        | None => Some (None, req, stamp ++ ops, s)
        | Some vk =>
            let '(_, routedModel, _) := GetRequestFields req in
            let ops := stamp ++ ops ++ publishRoutingAllowlist vk routedModel in
            match loadBalanceProvider fraction iter catalog refiner one sortSlice gs (hc_Configs clock) draw (applyOps ctx ops) req vk with
            | Err e => Some (Some e, req, ops, s)
            | Ok (req, balanced) =>
                let ops := ops ++ balanced in
                Some (None, req, ops ++ stampIncludeTools iter (applyOps ctx ops) vk (allowAllClients pl) disableAutoToolInject, s)
            end
        end
    end.
End Hook.
End GovRules.
