(* ===== verification/GovRulesTheory.v ===== *)
(** * Routing rules: the chain that fires, rules in memory, stale programs *)

From S2P Require Import Prelude GoStrings Schemas Request Context Calendar Windows GovStore GovPolicy GovResolver GovBalance ModelCatalog GovRules.
From Stdlib Require Import Sorting.Sorted.

Local Open Scope string_scope.
Local Open Scope Z_scope.
Local Open Scope list_scope.

Module GovRulesTheory.
Import Schemas Request Context Calendar Windows GovStore GovPolicy GovResolver GovBalance GovRules.

(** ** What fires *)

Section Chain.
Context {F : Type} `{Amount F} {P : Type}.
Variable Compile : string -> result string P.
Variable Parse : string -> option CelExpr.
Variable Eval : P -> Variables F -> bool -> EvalResult.
Variable GetBaseModelName : option (string -> string).
Variable iter : forall A : Type, gmap string A -> list (string * A).
Variable floatOf : Z -> F.
Variable percent : F -> F -> F.
Variable drawIndex : nat -> nat -> nat.
Variable drawFloat : nat -> F -> F.
Variable maxDepth : nat -> Z.

Local Abbreviation Rule := (TableRoutingRule F).
Local Abbreviation RuleStore := (@RuleStore F P).
Local Abbreviation references r := (celExpressionReferencesIdentifier Parse (rr_CelExpression r) "complexity_tier").
Local Abbreviation try := (tryRule Compile Parse Eval drawIndex drawFloat).
Local Abbreviation scan := (scanRules Compile Parse Eval drawIndex drawFloat).
Local Abbreviation chainFrom := (routingChain Compile Parse Eval GetBaseModelName iter floatOf percent drawIndex drawFloat maxDepth).

(** Every kept program of one of the rules is that of its expression. *)
Definition Coherent (rules : list Rule) (s : RuleStore) : Prop :=
  forall r p, r ∈ rules -> compiledRoutingPrograms s !! rr_ID r = Some p -> compileExpr Compile (rr_CelExpression r) = Ok p.

(** The program a rule is evaluated with: the kept one, or else that of its
    expression. *)
Definition programOf (s : RuleStore) (r : Rule) : option P :=
  match compiledRoutingPrograms s !! rr_ID r with
  | Some p => Some p
  | None => match compileExpr Compile (rr_CelExpression r) with Ok p => Some p | Err _ => None end
  end.

(** Rules of one ID say the same. *)
Definition SameExpression (rules : list Rule) : Prop :=
  forall r r', r ∈ rules -> r' ∈ rules -> rr_ID r = rr_ID r' -> rr_CelExpression r = rr_CelExpression r'.

Section Request.
Context {B : Type}.
Variable gs : @GovPolicy.Store F.
Variable blocks : B -> list (list string).
Variable ctx : @RoutingContext F B.
Variable rules : list Rule.
(** The store when the evaluation starts. *)
Variable s0 : RuleStore.
Hypothesis same : SameExpression rules.

Definition seenVariables (provider model : string) : Variables F :=
  extractRoutingVariables iter blocks ctx provider model
    (GetBudgetAndRateLimitStatus GetBaseModelName floatOf percent gs model provider (rc_VirtualKey ctx)).

(** The tier of the request, when there is an analyzer and it finds one. *)
Definition tierOf : option string := mjoin (rc_computeComplexity ctx).

(** What a rule decides on a provider and a model, when the tier is known
    already or not: a rule that names it makes it known. *)
Definition decides (step : nat) (known : bool) (provider model : string) (r : Rule) : option RoutingDecision :=
  match programOf s0 r with
  | None => None
  | Some p =>
      let tier := if known || references r then tierOf else None in
      match evaluateCELExpression Eval p (withTier (seenVariables provider model) (default "" tier)) (references r && bool_decide (tier = None)) with
      | Ok true => decisionOf provider model r <$> selectWeightedTarget drawIndex drawFloat step (rr_Targets r)
      | _ => None
      end
  end.

(** Whether the tier is known after some rules were looked at. *)
Definition knownAfter (visited : list string) (known : bool) (l : list Rule) : bool :=
  known || existsb (fun r => negb (bool_decide (rr_ID r ∈ visited)) && references r) l.

(** No rule of a list that has not fired decides. *)
Definition Silent (step : nat) (visited : list string) (known : bool) (provider model : string) (l : list Rule) : Prop :=
  forall earlier r later, l = earlier ++ r :: later ->
    rr_ID r ∈ visited \/ decides step (knownAfter visited known earlier) provider model r = None.

(** The first rule in the order of the scopes, of those that have not fired,
    that decides, and whether the tier is known then. *)
Definition FirstFiring (step : nat) (visited : list string) (known : bool) (provider model : string) (r : Rule) (d : RoutingDecision)
    (known' : bool) : Prop :=
  exists before after, rules = before ++ r :: after /\ rr_ID r ∉ visited /\
    Silent step visited known provider model before /\
    decides step (knownAfter visited known before) provider model r = Some d /\ known' = knownAfter visited known (before ++ [r]).

(** The rules that fire one after the other. *)
Inductive Fires : nat -> list string -> bool -> string -> string -> list (Rule * RoutingDecision) -> Prop :=
| fires_depth step visited known provider model : maxDepth step <= Z.of_nat step -> Fires step visited known provider model []
| fires_none step visited known provider model :
    Z.of_nat step < maxDepth step -> Silent step visited known provider model rules -> Fires step visited known provider model []
| fires_last step visited known provider model r d known' :
    Z.of_nat step < maxDepth step -> FirstFiring step visited known provider model r d known' -> rr_ChainRule r = false ->
    Fires step visited known provider model [(r, d)]
| fires_more step visited known provider model r d known' l :
    Z.of_nat step < maxDepth step -> FirstFiring step visited known provider model r d known' -> rr_ChainRule r = true ->
    Fires (S step) (rr_ID r :: visited) known' (rd_Provider d) (rd_Model d) l ->
    Fires step visited known provider model ((r, d) :: l).

(** ** The evaluation along the way *)

Record Along (known : bool) (st : @EvalState F P) : Prop := mkAlong {
  al_programs : forall r, r ∈ rules -> programOf (es_Store st) r = programOf s0 r;
  al_rules : routingRules (es_Store st) = routingRules s0;
  al_tier : if known then es_Compute st = None /\ es_Tier st = tierOf
            else es_Tier st = None /\ es_Compute st = rc_computeComplexity ctx }.

Lemma GetRoutingProgram_programOf (s : RuleStore) (r : Rule) :
  r ∈ rules ->
  (match (GetRoutingProgram Compile s r).1 with Ok p => Some p | Err _ => None end) = programOf s r /\
  (forall r', r' ∈ rules -> programOf (GetRoutingProgram Compile s r).2 r' = programOf s r') /\
  routingRules (GetRoutingProgram Compile s r).2 = routingRules s.
Proof.
  intros Hr. unfold GetRoutingProgram, loadProgram, compileAndKeep, programOf.
  destruct (compiledRoutingPrograms s !! rr_ID r) as [p|] eqn:E; [done|].
  destruct (compileExpr Compile (rr_CelExpression r)) as [p|e] eqn:Ec; cbn; [|done].
  split_and!; [done| |done]. intros r' Hr'. destruct (decide (rr_ID r = rr_ID r')) as [He|He].
  - by rewrite <-He, lookup_insert_eq, E, <-(same r r' Hr Hr' He), Ec.
  - by rewrite lookup_insert_ne.
Qed.

(** The tier is computed at most once, and only for a rule that names it. *)
Lemma lazy_tier known (st : @EvalState F P) (refs : bool) :
  Along known st ->
  let st' := match es_Tier st, es_Compute st with
             | None, Some tier => if refs then mkEvalState (es_Store st) tier None else st
             | _, _ => st
             end in
  Along (known || refs) st' /\ es_Tier st' = if known || refs then tierOf else None.
Proof.
  intros [Hp Hr Ht]. unfold tierOf in *. destruct known; cbn [orb].
  - destruct Ht as [Hc Ht]. rewrite Hc. destruct (es_Tier st) eqn:Et; (split; [split; [done..|]|]; unfold tierOf; rewrite ?Et; done).
  - destruct Ht as [Ht Hc]. rewrite Ht, Hc. destruct (rc_computeComplexity ctx) as [c|] eqn:Ec, refs; cbn;
      (split; [split; [done..|]; unfold tierOf; rewrite ?Ec, ?Ht, ?Hc; done|by rewrite ?Ht]).
Qed.

Lemma tryRule_spec known step visited provider model st (r : Rule) :
  r ∈ rules -> Along known st ->
  let '(o, st') := try step visited provider model (seenVariables provider model) st r in
  Along (knownAfter visited known [r]) st' /\
  o = if bool_decide (rr_ID r ∈ visited) then None else (fun d => (r, d)) <$> decides step known provider model r.
Proof.
  intros Hr Ha. unfold tryRule, knownAfter. cbn [existsb]. case_bool_decide as Hv; cbn [negb andb orb]; [by rewrite orb_false_r|].
  rewrite orb_false_r. pose proof (lazy_tier known st (references r) Ha) as Hl. cbv zeta in Hl.
  set (st1 := match es_Tier st with Some _ => _ | None => _ end) in *. destruct Hl as [[Hpr Hrr Htier] Ht].
  pose proof (GetRoutingProgram_programOf (es_Store st1) r Hr) as (Hp & Hp' & Hr').
  unfold decides. rewrite <-(Hpr r Hr), <-Hp. rewrite Ht.
  destruct (GetRoutingProgram Compile (es_Store st1) r) as [program s']; cbn in Hp, Hp', Hr' |- *.
  assert (Ha2 : Along (known || references r) (mkEvalState s' (es_Tier st1) (es_Compute st1))).
  { split; cbn; [intros r' Hin; by rewrite Hp', Hpr|congruence|exact Htier]. }
  rewrite Ht in Ha2. destruct program as [p|e]; [|done].
  destruct (evaluateCELExpression _ _ _ _) as [[]|]; [|done..]. by destruct (selectWeightedTarget _ _ _ _).
Qed.

Lemma knownAfter_app visited known l l' : knownAfter visited known (l ++ l') = knownAfter visited (knownAfter visited known l) l'.
Proof. unfold knownAfter. by rewrite existsb_app, orb_assoc. Qed.

Lemma Silent_snoc step visited known provider model l r :
  Silent step visited known provider model l ->
  rr_ID r ∈ visited \/ decides step (knownAfter visited known l) provider model r = None ->
  Silent step visited known provider model (l ++ [r]).
Proof.
  intros Hs Hr e r' later E. destruct later as [|r'' later _] using rev_ind.
  - by apply app_inj_tail in E as [-> ->].
  - rewrite app_comm_cons, app_assoc in E. apply app_inj_tail in E as [-> _]. by eapply Hs.
Qed.

Lemma scanRules_spec step visited known provider model st (todo before : list Rule) :
  rules = before ++ todo -> Along (knownAfter visited known before) st -> Silent step visited known provider model before ->
  let '(o, st') := scan step visited provider model (seenVariables provider model) st todo in
  exists known', Along known' st' /\
  match o with
  | Some (r, d) => FirstFiring step visited known provider model r d known'
  | None => Silent step visited known provider model rules
  end.
Proof.
  revert st before. induction todo as [|r todo IH]; intros st before Hrules Ha Hb; cbn [scanRules].
  - eexists. split; [done|]. by rewrite Hrules, app_nil_r.
  - assert (Hr : r ∈ rules) by (rewrite Hrules; set_solver).
    pose proof (tryRule_spec _ step visited provider model st r Hr Ha) as Ht.
    destruct (try step visited provider model (seenVariables provider model) st r) as [o st']. destruct Ht as [Ha' Ho].
    rewrite <-knownAfter_app in Ha'.
    assert (Hno : o = None -> rr_ID r ∈ visited \/ decides step (knownAfter visited known before) provider model r = None).
    { intros ->. case_bool_decide; [by left|right]. by destruct (decides step _ provider model r). }
    destruct o as [[r' d]|].
    + eexists. split; [done|]. case_bool_decide as Hv; [done|].
      destruct (decides step (knownAfter visited known before) provider model r) as [d'|] eqn:Ed; [|done].
      injection Ho as -> ->. by exists before, todo.
    + apply (IH st' (before ++ [r])); [by rewrite <- app_assoc|done|]. apply Silent_snoc; [done|by apply Hno].
Qed.

Definition marks (l : list (Rule * RoutingDecision)) : list CtxOp :=
  concat ((fun p => [OpSet KeyGovernanceRoutingRuleID (VString (rr_ID p.1)); OpSet KeyGovernanceRoutingRuleName (VString (rr_Name p.1))]) <$> l).

Definition lastOr (final : option RoutingDecision) (l : list (Rule * RoutingDecision)) : option RoutingDecision :=
  match last l with Some (_, d) => Some d | None => final end.

Lemma FirstFiring_inv step visited known provider model r d known' :
  FirstFiring step visited known provider model r d known' ->
  r ∈ rules /\ rr_ID r ∉ visited /\ rd_MatchedRuleID d = rr_ID r /\ rd_MatchedRuleName d = rr_Name r.
Proof.
  intros (b & a & -> & Hv & _ & Hd & _). split; [set_solver|]. split; [done|]. unfold decides in Hd.
  destruct (programOf _ _) as [p|]; [|done]. destruct (evaluateCELExpression _ _ _ _) as [[]|]; [|done..].
  destruct (selectWeightedTarget _ _ _ _); [|done]. by injection Hd as <-.
Qed.

(** The IDs that may still fire. *)
Definition remaining (visited : list string) : nat := length (filter (fun id => id ∉ visited) (remove_dups (rr_ID <$> rules))).

Lemma remaining_bounded visited : (remaining visited <= length rules)%nat.
Proof.
  clear same. unfold remaining. rewrite length_filter, <- (length_fmap rr_ID rules).
  apply submseteq_length, NoDup_submseteq; [apply NoDup_remove_dups|]. intros id. by rewrite elem_of_remove_dups.
Qed.

Lemma remaining_decreases visited r : r ∈ rules -> rr_ID r ∉ visited -> (remaining (rr_ID r :: visited) < remaining visited)%nat.
Proof.
  clear same. intros Hr Hv. unfold remaining. set (ids := remove_dups _).
  assert (Hin : rr_ID r ∈ ids) by (apply elem_of_remove_dups, list_elem_of_fmap; eauto).
  apply list_elem_of_split in Hin as (l1 & l2 & ->). rewrite !filter_app, !filter_cons.
  rewrite decide_False by set_solver. rewrite (decide_True (P := rr_ID r ∉ visited)) by done.
  rewrite !length_app. cbn [length].
  assert (Hle : forall l, (length (filter (fun id => id ∉ rr_ID r :: visited) l) <= length (filter (fun id => id ∉ visited) l))%nat).
  { induction l as [|x l IHl]; [done|]. rewrite !filter_cons. repeat case_decide; cbn; try lia. set_solver. }
  specialize (Hle l1) as H1. specialize (Hle l2). lia.
Qed.

Lemma routingChain_spec fuel step visited known provider model final ops st :
  (remaining visited < fuel)%nat -> Along known st ->
  exists l st' known', chainFrom fuel gs blocks ctx rules step visited provider model final ops st = Some (lastOr final l, ops ++ marks l, st') /\
    Fires step visited known provider model l /\ Along known' st'.
Proof.
  revert step visited known provider model final ops st.
  induction fuel as [|fuel IH]; intros step visited known provider model final ops st Hf Ha; [lia|].
  cbn [routingChain]. destruct (Z.leb_spec (maxDepth step) (Z.of_nat step)) as [Hd|Hd].
  - exists [], st, known. split; [by rewrite app_nil_r|]. split; [by constructor|done].
  - fold (seenVariables provider model).
    assert (Along (knownAfter visited known []) st) as Ha0 by (unfold knownAfter; cbn; by rewrite orb_false_r).
    pose proof (scanRules_spec step visited known provider model st rules [] eq_refl Ha0 ltac:(by intros []; intros)) as Hs.
    destruct (scan step visited provider model (seenVariables provider model) st rules) as [[[r d]|] st']; destruct Hs as (known' & Ha' & Hs).
    + apply FirstFiring_inv in Hs as Hi. destruct Hi as (Hr & Hv & -> & ->). destruct (rr_ChainRule r) eqn:Ec.
      * pose proof (remaining_decreases visited r Hr Hv) as Hl.
        destruct (IH (S step) (rr_ID r :: visited) known' (rd_Provider d) (rd_Model d) (Some d)
          (ops ++ [OpSet KeyGovernanceRoutingRuleID (VString (rr_ID r)); OpSet KeyGovernanceRoutingRuleName (VString (rr_Name r))]) st')
          as (l & st'' & k'' & -> & Hfire & Ha''); [lia|done|].
        exists ((r, d) :: l), st'', k''. split; [|split; [by eapply fires_more|done]].
        f_equal. f_equal. f_equal; [|by rewrite <- app_assoc]. unfold lastOr. rewrite last_cons. by destruct (last l) as [[]|].
      * exists [(r, d)], st', known'. split; [done|]. split; [by eapply fires_last|done].
    + exists [], st', known'. split; [by rewrite app_nil_r|]. split; [by constructor|done].
Qed.

(** No rule fires twice; all but the last ask to go on. *)
Definition Orderly (visited : list string) (l : list (Rule * RoutingDecision)) : Prop :=
  NoDup (rr_ID <$> l.*1) /\ (forall r d, (r, d) ∈ l -> r ∈ rules /\ rr_ID r ∉ visited) /\
  (forall p, p ∈ take (length l - 1) l -> rr_ChainRule p.1 = true).

Lemma nothing_fired visited : Orderly visited [].
Proof. split_and!; [constructor| |]; intros *; by rewrite elem_of_nil. Qed.

Lemma Fires_inv step visited known provider model l : Fires step visited known provider model l -> Orderly visited l.
Proof.
  induction 1 as [| |step visited known provider model r d known' Hm Hf Hc|step visited known provider model r d known' l Hm Hf Hc HF (Hn & Hi & Ht)];
    [by apply nothing_fired..| |].
  - apply FirstFiring_inv in Hf as (? & ? & _). split_and!; [apply NoDup_singleton| |cbn; set_solver].
    intros r' d' Hin. apply list_elem_of_singleton in Hin. by injection Hin as -> ->.
  - apply FirstFiring_inv in Hf as (? & ? & _). split_and!.
    + cbn. apply NoDup_cons. split; [|done]. intros Hin. apply list_elem_of_fmap in Hin as (r' & He & Hin).
      apply list_elem_of_fmap in Hin as ([r'' d''] & -> & Hin). apply Hi in Hin as [_ Hin]. cbn in He. set_solver.
    + intros r' d' [Hin|Hin]%elem_of_cons; [by injection Hin as -> ->|]. apply Hi in Hin. set_solver.
    + intros p. destruct l as [|q l]; [cbn; set_solver|]. cbn [length] in *. 
      replace (S (S (length l)) - 1)%nat with (S (S (length l) - 1))%nat by lia. cbn [take].
      intros [->|Hp]%elem_of_cons; [done|by apply Ht].
Qed.

Lemma Orderly_length visited l : Orderly visited l -> (length l <= length rules)%nat.
Proof.
  intros (Hn & Hi & _). rewrite <- (length_fmap fst l), <- (length_fmap rr_ID (l.*1)), <- (length_fmap rr_ID rules).
  apply submseteq_length, NoDup_submseteq; [done|]. intros id Hid.
  apply list_elem_of_fmap in Hid as (r & -> & Hr). apply list_elem_of_fmap in Hr as ([r' d] & -> & Hr).
  apply list_elem_of_fmap. exists r'. split; [done|]. by apply Hi in Hr as [? _].
Qed.

End Request.

(** C14. Evaluating the routing rules of a request answers the decision of the
    last of a chain of rules: each is the first, in the order of the scopes of
    the request and of the rules in them, that has not fired yet, whose program
    holds of what the one before chose, and that has a target to choose.  The
    program of a rule is the one kept for its ID when the evaluation starts, or
    else that of its expression; the complexity tier is known to a rule when it
    or a rule looked at before names it.  All but the last ask to go on; no rule
    fires twice, so that there are at most as many steps as rules, whatever depth
    is configured; the loop ends.  The names of the rules are marked on the
    context in turn; the rules stay, and so does the program of every rule.
    Rules of one ID are assumed to have one expression, and the store not to
    change meanwhile. *)
Theorem routing_follows_rules {B} (gs : @GovPolicy.Store F) (blocks : B -> list (list string)) (ctx : @RoutingContext F B) (s : RuleStore) :
  let rules := scopedRules s (buildScopeChain (rc_VirtualKey ctx) (rc_UserID ctx)) in
  SameExpression rules ->
  exists l s',
    EvaluateRoutingRules Compile Parse Eval GetBaseModelName iter floatOf percent drawIndex drawFloat maxDepth gs blocks s ctx =
      Some (lastOr None l, marks l, s') /\
    Fires gs blocks ctx rules s 0 [] false (rc_Provider ctx) (rc_Model ctx) l /\
    Orderly rules [] l /\ (length l <= length rules)%nat /\
    (forall r, r ∈ rules -> programOf s' r = programOf s r) /\ routingRules s' = routingRules s.
Proof.
  intros rules Hsame. unfold EvaluateRoutingRules. fold rules.
  destruct (decide (rules = [])) as [Hnil|Hne].
  - exists [], s. rewrite Hnil. split; [done|].
    assert (HF : Fires gs blocks ctx [] s 0 [] false (rc_Provider ctx) (rc_Model ctx) []).
    { destruct (Z.le_gt_cases (maxDepth 0) (Z.of_nat 0)); [by constructor|]. apply fires_none; [done|]. by intros []; intros. }
    split; [done|]. split; [by apply nothing_fired|]. split; [done|]. by split.
  - assert (Ha : Along ctx rules s false (mkEvalState s None (rc_computeComplexity ctx))) by (by split).
    destruct (routingChain_spec gs blocks ctx rules s Hsame (S (length rules)) 0 [] false (rc_Provider ctx) (rc_Model ctx) None [] _
      (le_n_S _ _ (remaining_bounded rules [])) Ha)
      as (l & st' & known' & HE & HF & [Hp Hr _]).
    exists l, (es_Store st'). pose proof (Fires_inv _ _ _ _ _ Hsame _ _ _ _ _ _ HF) as Ho. apply Orderly_length in Ho as Hl.
    split; [|done]. destruct rules as [|r0 rules0]; [done|]. by rewrite HE.

Qed.

(** ** The evaluation answers, whatever the rules and the programs are *)

Lemma scanRules_found step visited provider model variables st (rules : list Rule) r d st' :
  scan step visited provider model variables st rules = (Some (r, d), st') -> r ∈ rules /\ rr_ID r ∉ visited.
Proof.
  revert st. induction rules as [|r' rules IH]; intros st; cbn [scanRules]; [done|]. unfold tryRule. case_bool_decide as Hv.
  { intros Hs%IH. set_solver. }
  set (st1 := match es_Tier st with Some _ => _ | None => _ end). destruct (GetRoutingProgram _ _ _) as [[p|e] s']; [|intros Hs%IH; set_solver].
  destruct (evaluateCELExpression _ _ _ _) as [[]|]; [|intros Hs%IH; set_solver..].
  destruct (selectWeightedTarget _ _ _ _); [|intros Hs%IH; set_solver]. intros [= <- _ _]. set_solver.
Qed.

Lemma routingChain_returns {B} (gs : @GovPolicy.Store F) (blocks : B -> list (list string)) ctx rules fuel step visited provider model final ops st :
  (remaining rules visited < fuel)%nat -> is_Some (chainFrom fuel gs blocks ctx rules step visited provider model final ops st).
Proof.
  revert step visited provider model final ops st. induction fuel as [|fuel IH]; intros step visited provider model final ops st Hf; [lia|].
  cbn [routingChain]. destruct (_ <=? _); [done|]. destruct (scan _ _ _ _ _ _ _) as [[[r d]|] st'] eqn:Es; [|done].
  apply scanRules_found in Es as [Hr Hv]. destruct (rr_ChainRule r); [|done]. apply IH. pose proof (remaining_decreases rules visited r Hr Hv). lia.
Qed.

Lemma EvaluateRoutingRules_returns {B} (gs : @GovPolicy.Store F) (blocks : B -> list (list string)) s ctx :
  is_Some (EvaluateRoutingRules Compile Parse Eval GetBaseModelName iter floatOf percent drawIndex drawFloat maxDepth gs blocks s ctx).
Proof.
  unfold EvaluateRoutingRules. destruct (scopedRules s _) as [|r rules] eqn:E; [done|].
  destruct (routingChain_returns gs blocks ctx (r :: rules) (S (length (r :: rules))) 0 [] (rc_Provider ctx) (rc_Model ctx) None []
    (mkEvalState s None (rc_computeComplexity ctx)) (le_n_S _ _ (remaining_bounded _ _))) as [[[d ops] st] ->]. done.
Qed.

(** With a coherent cache the program is that of the expression. *)
Lemma programOf_coherent (rules : list Rule) (s : RuleStore) r : Coherent rules s -> r ∈ rules ->
  programOf s r = match compileExpr Compile (rr_CelExpression r) with Ok p => Some p | Err _ => None end.
Proof. intros Hc Hr. unfold programOf. destruct (_ !! _) as [p|] eqn:E; [|done]. by rewrite (Hc r p Hr E). Qed.

(** A rule that does not name the tier, and whose program cannot tell its
    values apart, decides the same whether it is known or not. *)
Lemma decides_unnamed {B} (gs : @GovPolicy.Store F) (blocks : B -> list (list string)) (ctx : @RoutingContext F B) s step known provider model r :
  references r = false ->
  (forall p v t t', programOf s r = Some p -> Eval p (withTier v t) false = Eval p (withTier v t') false) ->
  decides gs blocks ctx s step known provider model r = decides gs blocks ctx s step false provider model r.
Proof.
  intros Hr He. unfold decides. rewrite Hr. destruct (programOf s r) as [p|]; [|done]. cbn [andb orb].
  unfold evaluateCELExpression. by rewrite (He p _ _ (default "" (if false then tierOf ctx else None)) eq_refl).
Qed.
End Chain.

(** ** Rules in memory *)

Section Memory.
Context {F : Type} {P : Type}.
Variable Compile : string -> result string P.
Variable sortRules : list (TableRoutingRule F) -> list (TableRoutingRule F).

Local Abbreviation Rule := (TableRoutingRule F).
Local Abbreviation RuleStore := (@RuleStore F P).

Definition ByPriority : list Rule -> Prop := StronglySorted (fun r r' => rr_Priority r <= rr_Priority r').

Hypothesis sort_permutes : forall l, sortRules l ≡ₚ l.
Hypothesis sort_sorts : forall l, ByPriority (sortRules l).

(** The rules in memory are [A], by ID: each under its scope, in the order of
    priorities; the programs are those of their expressions. *)
Record Rep (s : RuleStore) (A : gmap string Rule) : Prop := mkRep {
  rep_id : forall id r, A !! id = Some r -> rr_ID r = id;
  rep_lists : forall key l, routingRules s !! key = Some l -> l <> [] /\ ByPriority l /\ NoDup (rr_ID <$> l);
  rep_in : forall key r, r ∈ default [] (routingRules s !! key) <-> A !! rr_ID r = Some r /\ ruleKey r = key;
  rep_programs : forall id p, compiledRoutingPrograms s !! id = Some p ->
    exists r, A !! id = Some r /\ compileExpr Compile (rr_CelExpression r) = Ok p }.

Lemma ByPriority_filter (Q : Rule -> Prop) `{!forall r, base.Decision (Q r)} l : ByPriority l -> ByPriority (filter Q l).
Proof.
  induction 1 as [|r l Hl IH Hr]; [constructor|]. rewrite filter_cons. case_decide; [|done]. constructor; [done|].
  rewrite Forall_forall in *. intros x [_ Hx]%list_elem_of_filter. by apply Hr.
Qed.

Lemma NoDup_ids_filter (Q : Rule -> Prop) `{!forall r, base.Decision (Q r)} (l : list Rule) : NoDup (rr_ID <$> l) -> NoDup (rr_ID <$> filter Q l).
Proof.
  induction l as [|r l IH]; [done|]. rewrite fmap_cons, NoDup_cons. intros [Hr Hn]. rewrite filter_cons. case_decide; [|by apply IH].
  cbn. apply NoDup_cons. split; [|by apply IH]. intros (r' & He & [_ Hr']%list_elem_of_filter)%list_elem_of_fmap.
  apply Hr, list_elem_of_fmap. by exists r'.
Qed.

Lemma removeRule_lookup id (m : gmap string (list Rule)) key :
  default [] (removeRule id m !! key) = filter (fun r => rr_ID r <> id) (default [] (m !! key)).
Proof.
  unfold removeRule. rewrite lookup_omap. destruct (m !! key) as [l|]; [|done]. cbn.
  by destruct (filter _ l).
Qed.

Lemma removeRule_some id (m : gmap string (list Rule)) key l :
  removeRule id m !! key = Some l -> exists l', m !! key = Some l' /\ l = filter (fun r => rr_ID r <> id) l' /\ l <> [].
Proof.
  unfold removeRule. rewrite lookup_omap. destruct (m !! key) as [l'|]; [|done]. cbn. intros Hf. exists l'. split; [done|].
  destruct (filter _ l') eqn:E; [done|]. by injection Hf as <-.
Qed.

Lemma DeleteRoutingRule_rep s A id : Rep s A -> Rep (DeleteRoutingRuleInMemory s id) (delete id A).
Proof.
  intros [Hid Hl Hin Hp]. split; cbn.
  - intros id' r [_ Hr]%lookup_delete_Some. by apply Hid.
  - intros key l (l' & Hk & -> & Hn)%removeRule_some. apply Hl in Hk as (_ & Hs & Hd).
    split; [done|]. split; [by apply ByPriority_filter|by apply NoDup_ids_filter].
  - intros key r. rewrite removeRule_lookup, list_elem_of_filter, Hin, lookup_delete_Some. naive_solver.
  - intros id' p [Hne Hr]%lookup_delete_Some. apply Hp in Hr as (r & Hr & Hc). exists r. by rewrite lookup_delete_ne.
Qed.

Lemma GetRoutingProgram_rep s A (r : Rule) :
  Rep s A -> A !! rr_ID r = Some r ->
  (match (GetRoutingProgram Compile s r).1, compileExpr Compile (rr_CelExpression r) with
   | Ok p, Ok p' => p = p' | Err _, Err _ => True | _, _ => False end) /\ Rep (GetRoutingProgram Compile s r).2 A.
Proof.
  intros HR Hr. destruct HR as [Hid Hl Hin Hp] eqn:E. unfold GetRoutingProgram, loadProgram, compileAndKeep.
  destruct (compiledRoutingPrograms s !! rr_ID r) as [p|] eqn:El; cbn.
  - split; [|by constructor]. apply Hp in El as (r' & Hr' & Hc). rewrite Hr in Hr'. injection Hr' as <-. by rewrite Hc.
  - destruct (compileExpr Compile (rr_CelExpression r)) as [p|e] eqn:Ec; cbn; [|split; [done|by constructor]].
    split; [done|]. split; [done|done|done|]. cbn. intros id p' [[<- <-]|[Hne Hp']]%lookup_insert_Some; [by exists r|by apply Hp].
Qed.

Lemma replaceRule_rep s A (rule : Rule) : Rep s A -> Rep (replaceRule sortRules s rule) (<[rr_ID rule := rule]> A).
Proof.
  intros HR. apply (DeleteRoutingRule_rep s A (rr_ID rule)) in HR as [Hid Hl Hin Hp]. cbn in *.
  set (m := removeRule (rr_ID rule) (routingRules s)) in *.
  assert (Hfresh : forall r, r ∈ default [] (m !! ruleKey rule) -> rr_ID r <> rr_ID rule).
  { intros r Hr He. apply Hin in Hr as [Hr _]. rewrite He in Hr. by rewrite lookup_delete_eq in Hr. }
  split; cbn.
  - intros id r [[<- <-]|[Hne Hr]]%lookup_insert_Some; [done|]. apply Hid. by rewrite lookup_delete_ne.
  - intros key l [[<- <-]|[Hne Hr]]%lookup_insert_Some; [|by apply (Hl key)]. split_and!; [|apply sort_sorts|].
    + intros Hn. pose proof (sort_permutes (default [] (m !! ruleKey rule) ++ [rule])) as Hperm. fold m in Hn. rewrite Hn in Hperm.
      apply Permutation_nil_l in Hperm. by destruct (default [] (m !! ruleKey rule)).
    + rewrite sort_permutes. fold m. rewrite fmap_app. apply NoDup_app. split_and!; [| |apply NoDup_singleton].
      * destruct (m !! ruleKey rule) as [l|] eqn:El; [by apply (Hl _ _ El)|constructor].
      * intros id (r & -> & Hr)%list_elem_of_fmap. cbn. rewrite list_elem_of_singleton. by apply Hfresh.
  - intros key r. fold m. destruct (decide (key = ruleKey rule)) as [->|Hk].
    + rewrite lookup_insert_eq. cbn. rewrite sort_permutes, elem_of_app, list_elem_of_singleton, Hin, lookup_insert_Some, lookup_delete_Some.
      split; [intros [[[? ?] ?]| ->]; tauto|]. intros [[[? ->]|[? ?]] ?]; tauto.
    + rewrite lookup_insert_ne by done. rewrite Hin, lookup_insert_Some, lookup_delete_Some.
      split; [tauto|]. intros [[[_ <-]|?] ?]; [congruence|tauto].
  - intros id p Hr. apply Hp in Hr as (r & [Hne Hr]%lookup_delete_Some & Hc). exists r. by rewrite lookup_insert_ne.
Qed.

(** Loading the rules at start. *)
Variable iter : forall A : Type, gmap string A -> list (string * A).
Hypothesis iter_range : forall A m, iter A m ≡ₚ map_to_list m.

Definition loadKey (r : Rule) : string := rr_Scope r +:+ ":" +:+ default "" (rr_ScopeID r).
Definition group (m : gmap string (list Rule)) (r : Rule) : gmap string (list Rule) := <[loadKey r := default [] (m !! loadKey r) ++ [r]]> m.

Lemma group_lookup rules m key :
  default [] (fold_left group rules m !! key) = default [] (m !! key) ++ filter (fun r => loadKey r = key) rules.
Proof.
  revert m. induction rules as [|r rules IH]; intros m; cbn [fold_left]; [by rewrite app_nil_r|].
  rewrite IH, filter_cons. unfold group at 1. case_decide as Hk.
  - subst key. rewrite lookup_insert_eq. cbn. by rewrite <- app_assoc.
  - by rewrite lookup_insert_ne.
Qed.

Lemma group_nonempty rules m key l :
  (forall key l, m !! key = Some l -> l <> []) -> fold_left group rules m !! key = Some l -> l <> [].
Proof.
  revert m. induction rules as [|r rules IH]; intros m Hm; cbn [fold_left]; [apply Hm|].
  apply IH. unfold group at 1. intros key' l' [[_ <-]|[_ Hl]]%lookup_insert_Some; [by destruct (default [] (m !! loadKey r))|by apply (Hm key')].
Qed.

Lemma programs_rep rules s A :
  Rep s A -> (forall r, r ∈ rules -> A !! rr_ID r = Some r) -> Rep (fold_left (fun s r => (GetRoutingProgram Compile s r).2) rules s) A.
Proof.
  revert s. induction rules as [|r rules IH]; intros s HR Hr; cbn [fold_left]; [done|].
  apply IH; [|set_solver]. apply GetRoutingProgram_rep; [done|]. apply Hr. set_solver.
Qed.

Lemma rebuildRoutingRules_rep rules :
  NoDup (rr_ID <$> rules) -> (forall r, r ∈ rules -> rr_Scope r = "global" -> default "" (rr_ScopeID r) = "") ->
  Rep (rebuildRoutingRules Compile sortRules iter rules ∅) (list_to_map ((fun r => (rr_ID r, r)) <$> rules)).
Proof.
  intros Hn Hg. set (A := list_to_map _ : gmap string Rule).
  assert (HA : forall r, A !! rr_ID r = Some r <-> r ∈ rules).
  { intros r. unfold A. rewrite <- elem_of_list_to_map.
    - rewrite list_elem_of_fmap. split; [intros (r' & [= Hid ->] & Hr); done|by exists r].
    - by rewrite <- list_fmap_compose. }
  assert (HI : forall id r, A !! id = Some r -> rr_ID r = id).
  { intros id r Hr%elem_of_list_to_map_2. by apply list_elem_of_fmap in Hr as (r' & [= -> ->] & _). }
  assert (Hkey : forall r, r ∈ rules -> loadKey r = ruleKey r).
  { intros r Hr. unfold loadKey, ruleKey, scopeKey. case_bool_decide as Hs; [|done]. by rewrite Hs, Hg. }
  unfold rebuildRoutingRules. set (m := sortRules <$> _).
  assert (Hin : forall key r, r ∈ default [] (m !! key) <-> A !! rr_ID r = Some r /\ ruleKey r = key).
  { intros key r. unfold m. rewrite lookup_fmap.
    replace (fold_left _ rules ∅ !! key) with (fold_left group rules ∅ !! key) by done.
    assert (Hd : forall o : option (list Rule), r ∈ default [] (sortRules <$> o) <-> r ∈ default [] o).
    { intros [l|]; cbn; [by rewrite sort_permutes|done]. }
    rewrite Hd, group_lookup, lookup_empty, HA. cbn. rewrite list_elem_of_filter. split; intros [H1 H2]; rewrite Hkey in *; tauto. }
  assert (HR : Rep (mkRuleStore m ∅) A).
  { split; [done| |done|]; cbn; [|intros id p; by rewrite lookup_empty].
    intros key l. unfold m. rewrite lookup_fmap. replace (fold_left _ rules ∅ !! key) with (fold_left group rules ∅ !! key) by done.
    destruct (fold_left group rules ∅ !! key) as [l'|] eqn:El; [|done]. intros [= <-]. split_and!; [|apply sort_sorts|].
    - intros He. apply group_nonempty in El; [|by intros ? ?; rewrite lookup_empty].
      pose proof (sort_permutes l') as Hp. rewrite He in Hp. by apply Permutation_nil_l in Hp.
    - rewrite sort_permutes. pose proof (group_lookup rules ∅ key) as Hl. rewrite El, lookup_empty in Hl. cbn in Hl. subst l'.
      by apply NoDup_ids_filter. }
  apply programs_rep; [done|]. intros r Hr. apply elem_of_concat in Hr as (l & Hl & Hr).
  apply list_elem_of_fmap in Hl as ([key l'] & -> & Hl). rewrite iter_range in Hl. apply elem_of_map_to_list in Hl. cbn in *.
  apply (Hin key). by rewrite Hl.
Qed.

(** The rules in memory behave as a table of rules by ID.  Loading,
    updating (which moves a rule between scopes) and deleting keep every rule
    under its scope alone, each scope in the order of priorities, and drop the
    program of a rule that changes; a scope is read as its enabled rules; a
    program is always that of the current expression, so that evaluations see
    what the table says. *)
Theorem rules_in_memory (s : RuleStore) (A : gmap string Rule) :
  (forall rules, NoDup (rr_ID <$> rules) -> (forall r, r ∈ rules -> rr_Scope r = "global" -> default "" (rr_ScopeID r) = "") ->
     Rep (rebuildRoutingRules Compile sortRules iter rules ∅) (list_to_map ((fun r => (rr_ID r, r)) <$> rules))) /\
  (Rep s A ->
   (forall rule, Rep (UpdateRoutingRuleInMemory Compile sortRules s rule) (<[rr_ID rule := rule]> A)) /\
   (forall id, Rep (DeleteRoutingRuleInMemory s id) (delete id A)) /\
   (forall rule, A !! rr_ID rule = Some rule -> Rep (GetRoutingProgram Compile s rule).2 A) /\
   (forall scope id, let l := GetScopedRoutingRules s scope id in
      ByPriority l /\ NoDup (rr_ID <$> l) /\
      forall r, r ∈ l <-> A !! rr_ID r = Some r /\ ruleKey r = scopeKey scope id /\ EnabledValue r = true) /\
   (HasRoutingRules s = true <-> A <> ∅) /\
   forall chain, SameExpression (scopedRules s chain) /\ Coherent Compile (scopedRules s chain) s).
Proof.
  split; [apply rebuildRoutingRules_rep|]. intros HR. split_and!.
  - intros rule. apply (replaceRule_rep s A rule) in HR. unfold UpdateRoutingRuleInMemory.
    by apply GetRoutingProgram_rep; [|rewrite lookup_insert_eq].
  - intros id. by apply DeleteRoutingRule_rep.
  - intros rule Hr. by apply GetRoutingProgram_rep.
  - intros scope id. unfold GetScopedRoutingRules. destruct HR as [Hid Hl Hin Hp]. split_and!.
    + apply ByPriority_filter. destruct (routingRules s !! scopeKey scope id) as [l|] eqn:E; [by apply (Hl _ _ E)|constructor].
    + apply NoDup_ids_filter. destruct (routingRules s !! scopeKey scope id) as [l|] eqn:E; [by apply (Hl _ _ E)|constructor].
    + intros r. rewrite list_elem_of_filter, Hin. tauto.
  - unfold HasRoutingRules. destruct HR as [Hid Hl Hin Hp]. rewrite negb_true_iff, bool_decide_eq_false. split; intros Hne He; apply Hne.
    + apply map_eq. intros key. rewrite lookup_empty. destruct (routingRules s !! key) as [[|r l]|] eqn:E; [by apply Hl in E as [? _]| |done].
      assert (Hr : r ∈ default [] (routingRules s !! key)) by (rewrite E; set_solver). apply Hin in Hr as [Hr _]. by rewrite He, lookup_empty in Hr.
    + apply map_eq. intros id. rewrite lookup_empty. destruct (A !! id) as [r|] eqn:E; [|done].
      apply Hid in E as Hid'. subst id. assert (Hr : r ∈ default [] (routingRules s !! ruleKey r)) by by apply Hin.
      rewrite He, lookup_empty in Hr. by apply elem_of_nil in Hr.
  - intros chain. assert (Hs : forall r, r ∈ scopedRules s chain -> A !! rr_ID r = Some r).
    { intros r (l & Hl & Hr)%elem_of_concat. apply list_elem_of_fmap in Hl as (scope & -> & _).
      apply list_elem_of_filter in Hr as [_ Hr]. by apply (rep_in _ _ HR) in Hr as [Hr _]. }
    split.
    + intros r r' Hr%Hs Hr'%Hs He. rewrite He in Hr. congruence.
    + intros r p Hr%Hs Hp. apply (rep_programs _ _ HR) in Hp as (r' & Hr' & Hc). congruence.
Qed.

(** The answer of [GetRoutingProgram] is kept without looking again: of an
    evaluation that misses the program of a rule just after an update dropped it,
    with the rule as it was, the program of the old expression is kept after the
    one of the new expression, and every later evaluation of the rule gets it,
    until the rule is updated or deleted. *)
Theorem stale_program_sticks (s : RuleStore) (old new : Rule) (p p' : P) (later : list Rule) :
  rr_ID old = rr_ID new ->
  compileExpr Compile (rr_CelExpression old) = Ok p -> compileExpr Compile (rr_CelExpression new) = Ok p' ->
  let dropped := replaceRule sortRules s new in
  let updated := (GetRoutingProgram Compile dropped new).2 in
  let kept := (compileAndKeep Compile updated old).2 in
  updated = UpdateRoutingRuleInMemory Compile sortRules s new /\ (GetRoutingProgram Compile updated new).1 = Ok p' /\
  loadProgram dropped old = None /\
  (GetRoutingProgram Compile (fold_left (fun s r => (GetRoutingProgram Compile s r).2) later kept) new).1 = Ok p.
Proof.
  intros Hid Hold Hnew dropped updated kept.
  assert (Hmiss : loadProgram dropped new = None) by (unfold dropped, loadProgram; cbn; by rewrite lookup_delete_eq).
  split; [done|]. split_and!.
  - unfold updated, GetRoutingProgram at 2, compileAndKeep. rewrite Hmiss, Hnew. unfold GetRoutingProgram, loadProgram. cbn.
    by rewrite lookup_insert_eq.
  - unfold loadProgram in *. by rewrite Hid.
  - assert (Hk : compiledRoutingPrograms kept !! rr_ID new = Some p).
    { unfold kept, compileAndKeep. rewrite Hold. cbn. by rewrite Hid, lookup_insert_eq. }
    clearbody kept. revert kept Hk. induction later as [|r later IH]; intros kept Hk; cbn [fold_left].
    + unfold GetRoutingProgram, loadProgram. by rewrite Hk.
    + apply IH. unfold GetRoutingProgram, loadProgram, compileAndKeep.
      destruct (compiledRoutingPrograms kept !! rr_ID r) eqn:E; [done|]. destruct (compileExpr Compile (rr_CelExpression r)); [|done].
      cbn. rewrite lookup_insert_ne; [done|]. congruence.
Qed.
End Memory.

(** ** Examples *)

#[local] Instance cents : Amount Z := mkAmount Z 0 Z.add Z.leb Z.ltb (fun _ => true).

Fixpoint insertRule (r : TableRoutingRule Z) (l : list (TableRoutingRule Z)) : list (TableRoutingRule Z) :=
  match l with
  | [] => [r]
  | r' :: l' => if rr_Priority r <=? rr_Priority r' then r :: l else r' :: insertRule r l'
  end.

Definition sortByPriority (l : list (TableRoutingRule Z)) : list (TableRoutingRule Z) := foldr insertRule [] l.

Lemma insertRule_permutes r l : insertRule r l ≡ₚ r :: l.
Proof. induction l as [|r' l IH]; cbn; [done|]. destruct (rr_Priority r <=? rr_Priority r'); [done|]. rewrite IH. constructor. Qed.

Lemma sortByPriority_permutes l : sortByPriority l ≡ₚ l.
Proof. induction l as [|r l IH]; cbn; [done|]. rewrite insertRule_permutes. by f_equiv. Qed.

Lemma sortByPriority_sorts l : ByPriority (sortByPriority l).
Proof.
  induction l as [|r l IHl]; cbn; [constructor|]. unfold ByPriority in *. fold (sortByPriority l). revert IHl.
  generalize (sortByPriority l). intros l0 IH. induction IH as [|r' l' Hl IH Hr]; cbn; [repeat constructor|].
  destruct (Z.leb_spec (rr_Priority r) (rr_Priority r')).
  - constructor; [by constructor|]. constructor; [done|]. rewrite Forall_forall in *. intros x Hx. etransitivity; [done|by apply Hr].
  - constructor; [done|]. rewrite insertRule_permutes. constructor; [lia|done].
Qed.

Definition fromAny : TableRoutingRule Z :=
  mkRule "r1" "to azure" None "" [mkTarget (Some "azure") None None 1] [] "global" None true 0 0.
Definition fromAzure : TableRoutingRule Z :=
  mkRule "r2" "to groq" (Some true) "provider == 'azure'" [mkTarget (Some "groq") (Some "llama") (Some "k") 1] ["openai/"] "global" None false 1 0.

Definition keep (expr : string) : result string string := Ok expr.
Definition evalText (program : string) (v : Variables Z) (_ : bool) : EvalResult :=
  EvalBool (bool_decide (program = "true") || bool_decide (var_provider v = "azure")).
Definition order (A : Type) (m : gmap string A) : list (string * A) := map_to_list m.

Definition twoRules : @RuleStore Z string := rebuildRoutingRules keep sortByPriority order [fromAzure; fromAny] ∅.
Definition chatRequest : @RoutingContext Z unit :=
  mkRoutingContext unit None "" "openai" "gpt" "chat_completion" ∅ ∅ (mkRequest "chat_completion" (fun _ => None)) None.

Lemma twoRules_rep : Rep keep twoRules (list_to_map [("r2", fromAzure); ("r1", fromAny)]).
Proof.
  apply (rebuildRoutingRules_rep keep sortByPriority sortByPriority_permutes sortByPriority_sorts order (fun _ _ => reflexivity _) [fromAzure; fromAny]).
  - apply (bool_decide_unpack _). by vm_compute.
  - intros r Hr. apply elem_of_cons in Hr as [->|Hr]; [done|]. by apply list_elem_of_singleton in Hr as ->.
Qed.

Lemma routing_follows_rules_witness :
  exists s', EvaluateRoutingRules keep (fun _ => None) evalText None order (fun z => z) (fun x y => x * 100 / y) (fun _ _ => 0%nat) (fun _ x => x)
    (fun _ => 10) (GovPolicy.mkStore ∅ ∅ ∅ ∅ ∅ ∅ ∅ ∅) (fun _ => []) twoRules chatRequest =
      Some (Some (mkDecision "groq" "llama" "k" ["openai/"] "r2" "to groq"),
            [OpSet KeyGovernanceRoutingRuleID (VString "r1"); OpSet KeyGovernanceRoutingRuleName (VString "to azure");
             OpSet KeyGovernanceRoutingRuleID (VString "r2"); OpSet KeyGovernanceRoutingRuleName (VString "to groq")], s').
Proof.
  pose proof (routing_follows_rules keep (fun _ => None) evalText None order (fun z => z) (fun x y => x * 100 / y) (fun _ _ => 0%nat) (fun _ x => x)
    (fun _ => 10) (GovPolicy.mkStore ∅ ∅ ∅ ∅ ∅ ∅ ∅ ∅) (fun _ => []) chatRequest twoRules) as H.
  assert (Hs : forall r, r ∈ scopedRules twoRules (buildScopeChain (F := Z) None "") -> r = fromAny \/ r = fromAzure).
  { intros r Hr. vm_compute in Hr. apply elem_of_cons in Hr as [->|Hr]; [by left|]. apply list_elem_of_singleton in Hr as ->. by right. }
  destruct H as (l & s' & HE & _).
  - intros r r' [-> | ->]%Hs [-> | ->]%Hs He; done.
  - exists s'. rewrite HE. apply (f_equal (option_map fst)) in HE. cbn [option_map fst] in HE.
    match type of HE with ?x = _ => let y := eval vm_compute in x in assert (Hx : x = y) by (vm_compute; reflexivity) end.
    rewrite HE in Hx. injection Hx as -> ->. reflexivity.
Defined.

Lemma rules_in_memory_witness :
  Rep keep (UpdateRoutingRuleInMemory keep sortByPriority (DeleteRoutingRuleInMemory twoRules "r2") fromAzure)
    (<["r2" := fromAzure]> (delete "r2" (list_to_map [("r2", fromAzure); ("r1", fromAny)]))).
Proof.
  pose proof (rules_in_memory keep sortByPriority sortByPriority_permutes sortByPriority_sorts order (fun _ _ => reflexivity _) twoRules
    (list_to_map [("r2", fromAzure); ("r1", fromAny)])) as [_ H].
  pose proof (rules_in_memory keep sortByPriority sortByPriority_permutes sortByPriority_sorts order (fun _ _ => reflexivity _)
    (DeleteRoutingRuleInMemory twoRules "r2") (delete "r2" (list_to_map [("r2", fromAzure); ("r1", fromAny)]))) as [_ H2].
  exact (proj1 (H2 (proj1 (proj2 (H twoRules_rep)) "r2")) fromAzure).
Defined.

Lemma stale_program_sticks_witness :
  let narrowed := mkRule "r1" "to azure" None "provider == 'azure'" [] [] "global" None true 0 0 in
  let updated := UpdateRoutingRuleInMemory keep sortByPriority twoRules narrowed in
  (GetRoutingProgram keep updated narrowed).1 = Ok "provider == 'azure'" /\
  (GetRoutingProgram keep (compileAndKeep keep updated fromAny).2 narrowed).1 = Ok "true".
Proof.
  cbv zeta. set (narrowed := mkRule "r1" _ _ _ _ _ _ _ _ _ _).
  pose proof (stale_program_sticks keep sortByPriority twoRules fromAny narrowed "true" "provider == 'azure'" [] eq_refl eq_refl eq_refl)
    as (E & H1 & _ & H2).
  rewrite E in H1, H2. split; [exact H1|exact H2].
Defined.
End GovRulesTheory.
