(* ===== verification/GovBalanceTheory.v ===== *)
(** * No layer of routing after the rules leaves the providers of the key *)

From S2P Require Import Prelude GoStrings Schemas Request Context Pipeline Calendar Windows GovStore GovPolicy GovResolver GovBalance GovRules GovRulesTheory.
From S2P Require Import KeyConfig LiveModels ModelCatalog.

Local Open Scope string_scope.
Local Open Scope Z_scope.
Local Open Scope list_scope.

Module GovBalanceTheory.
Import Schemas Request Context Pipeline Calendar Windows GovStore GovPolicy GovResolver GovBalance GovRules GovRulesTheory.

(** ** Choosing by weight *)

Section Balance.
Variable fraction : Z -> Z -> Z -> Z.
Context {F : Type} `{Amount F}.
Variable iter : forall A : Type, gmap string A -> list (string * A).
Variable catalog : option (string -> string -> WhiteList.t -> bool).
Variable refiner : option (string -> string -> result string string).
Variable one : F.
Variable sortSlice : list (ProviderConfig F) -> list (ProviderConfig F).
Hypothesis slice_permutes : forall l, sortSlice l ≡ₚ l.

Local Abbreviation Config := (ProviderConfig F).
Local Abbreviation VirtualKey := (VirtualKey F).
Local Abbreviation Store := (@GovPolicy.Store F).

(** A configuration of the key that takes part in the choice: it has a weight,
    it allows the model, no configuration of its provider blocks the model, and
    the provider is within its budgets and rate limits. *)
Definition Eligible (gs : Store) (vk : VirtualKey) (now : nat -> Check -> Time) (model : string) (c : Config) : Prop :=
  exists i, vk_ProviderConfigs vk !! i = Some c /\ is_Some (pc_Weight c) /\
    (forall c', c' ∈ vk_ProviderConfigs vk -> pc_Provider c' = pc_Provider c -> BlackList.IsBlocked (pc_BlacklistedModels c') model = false) /\
    vkAllows catalog c (pc_Provider c) model = true /\
    isProviderBudgetViolated fraction iter gs vk c (now i) = false /\
    isProviderRateLimitViolated fraction iter gs vk c (now i) = false.

Lemma weighted_eligible gs vk now model c :
  c ∈ weightedConfigs (allowedProviderConfigs fraction iter catalog gs vk now model) <-> Eligible gs vk now model c.
Proof.
  unfold weightedConfigs, allowedProviderConfigs. rewrite list_elem_of_filter, elem_of_concat. unfold Eligible.
  setoid_rewrite elem_of_lookup_imap. split.
  - intros [Hw (l & (i & c' & -> & Hi) & Hc)]. destruct (isEligible _ _ _ _ _ _ _ i c') eqn:E; [|by apply elem_of_nil in Hc].
    apply list_elem_of_singleton in Hc as <-. exists i. split; [done|]. split; [done|].
    unfold isEligible in E. rewrite !andb_true_iff, !negb_true_iff, bool_decide_eq_false in E. destruct E as [[[Hb Ha] Hg] Hr].
    split; [|done]. intros c' Hc' Hp. apply not_true_is_false. intros Hbl. apply Hb. rewrite <- Hp. unfold blacklistedProviders.
    apply list_elem_of_fmap. exists c'. split; [done|]. by apply list_elem_of_filter.
  - intros (i & Hi & Hw & Hb & Ha & Hg & Hr). split; [done|]. eexists. split; [by exists i, c|].
    replace (isEligible fraction iter catalog gs vk now model i c) with true; [set_solver|]. symmetry.
    unfold isEligible. rewrite !andb_true_iff, !negb_true_iff, bool_decide_eq_false. split_and!; [|done..].
    unfold blacklistedProviders. intros (c' & He & [Hbl Hc']%list_elem_of_filter)%list_elem_of_fmap.
    by rewrite (Hb c' Hc' (eq_sym He)) in Hbl.
Qed.

Lemma pick_elem w (l : list Config) r p : pick one w l r = Some p -> exists c, c ∈ l /\ pc_Provider c = p.
Proof.
  revert w. induction l as [|c l IH]; intros w; cbn; [done|]. destruct (leAmount _ _); [intros [= <-]; exists c; set_solver|].
  intros (c' & Hc & Hp)%IH. exists c'. set_solver.
Qed.

Lemma selectProvider_elem (l : list Config) draw : l <> [] -> exists c, c ∈ l /\ pc_Provider c = selectProvider one l draw.
Proof.
  intros Hl. assert (Hh : exists c, c ∈ l /\ pc_Provider c = match l with c :: _ => pc_Provider c | [] => "" end).
  { destruct l as [|c l]; [done|]. exists c. set_solver. }
  unfold selectProvider. destruct (pick one zeroAmount l _) as [[|a p]|] eqn:E; [done| |done]. by apply pick_elem in E.
Qed.

Lemma fallbacksOf_elem (l : list Config) selected model fb :
  fb ∈ fallbacksOf refiner sortSlice l selected model ->
  exists c, c ∈ l /\ pc_Provider c = fb_Provider fb /\ fb_Provider fb <> selected /\ refineModel refiner (pc_Provider c) model = Ok (fb_Model fb).
Proof.
  unfold fallbacksOf. intros (c & Hc & He)%list_elem_of_omap. rewrite slice_permutes in Hc. case_bool_decide as Hs; [done|].
  destruct (refineModel refiner (pc_Provider c) model) as [m|] eqn:Em; [|done]. injection He as <-. by exists c.
Qed.

(** A request that names a model and no provider gets the provider of a
    configuration of its virtual key, one that has a weight, allows the model,
    is within its budgets and rate limits and of whose provider no configuration
    blocks the model, with the name the model has at that provider; fallbacks
    are added when the request has none, from the other such configurations
    alone and never to the provider that was chosen.  The request stays as it is
    when there is no such configuration, and is refused only when the name of
    the model is ambiguous at the provider that was chosen. *)
Lemma loadBalance_spec {B} (gs : Store) now draw (ctx : BifrostContext) (req : BifrostRequest B) (vk : VirtualKey) :
  let '(provider, model, existing) := GetRequestFields req in
  let eligible := Eligible gs vk now model in
  match loadBalanceProvider fraction iter catalog refiner one sortSlice gs now draw ctx req vk with
  | Err e => exists c, eligible c /\ refineModel refiner (pc_Provider c) model = Err e
  | Ok (req', ops) =>
      req' = req /\ ops = [] /\ (model = "" \/ provider <> "" \/ forall c, ~ eligible c) \/
      model <> "" /\ provider = "" /\
      exists c refined, eligible c /\ refineModel refiner (pc_Provider c) model = Ok refined /\
        (req' = SetModel (SetProvider req (pc_Provider c)) refined \/
         existing = [] /\ exists fallbacks, req' = SetFallbacks (SetModel (SetProvider req (pc_Provider c)) refined) fallbacks /\
           forall fb, fb ∈ fallbacks -> fb_Provider fb <> pc_Provider c /\
             exists c', eligible c' /\ pc_Provider c' = fb_Provider fb /\ refineModel refiner (pc_Provider c') model = Ok (fb_Model fb))
  end.
Proof.
  destruct (GetRequestFields req) as [[provider model] existing] eqn:Ef. cbv zeta. unfold loadBalanceProvider. rewrite Ef.
  destruct (bool_decide (model = "")) eqn:Em; cbn [orb].
  { apply bool_decide_eq_true in Em. left. tauto. }
  apply bool_decide_eq_false in Em. case_bool_decide as Hp; cbn [negb]; [|left; tauto].
  destruct (weightedConfigs _) as [|c0 l0] eqn:El.
  { left. split; [done|]. split; [done|]. right; right. intros c Hc. apply weighted_eligible in Hc. rewrite El in Hc. by apply elem_of_nil in Hc. }
  rewrite <- El. destruct (selectProvider_elem (weightedConfigs (allowedProviderConfigs fraction iter catalog gs vk now model)) draw) as (c & Hc & Hs);
    [by rewrite El|]. apply weighted_eligible in Hc. rewrite <- Hs.
  destruct (refineModel refiner (pc_Provider c) model) as [refined|e] eqn:Er; [|by exists c].
  right. split; [done|]. split; [done|]. exists c, refined. split; [done|]. split; [done|].
  destruct (bool_decide (existing = []) && _) eqn:Ex; [right|by left]. apply andb_true_iff in Ex as [Ex _]. apply bool_decide_eq_true in Ex.
  split; [done|]. eexists. split; [done|]. intros fb (c' & Hc' & ? & ? & ?)%fallbacksOf_elem. apply weighted_eligible in Hc'.
  split; [done|]. by exists c'.
Qed.
End Balance.

(** ** The layers together *)

Section Routed.
Context {B : Type}.
(** The typed request as it came in, and the providers that may be named. *)
Variable f : Field.
Variable sub : Request.Sub B.
Variable within : string -> Prop.
Hypothesis full : shape f = FullShape.

(** The request after some layers: a provider that may be named or none, and
    the fallbacks it came with or, if it came with none, such providers. *)
Definition Routed (req : BifrostRequest B) : Prop :=
  exists sub', only req f sub' /\ (sub_Provider sub' <> "" -> within (sub_Provider sub')) /\
    (if bool_decide (sub_Fallbacks sub = []) then forall fb, fb ∈ sub_Fallbacks sub' -> within (fb_Provider fb)
     else sub_Fallbacks sub' = sub_Fallbacks sub).

Lemma routed_fields req p m fbs :
  Routed req -> GetRequestFields req = (p, m, fbs) ->
  (p <> "" -> within p) /\
  (if bool_decide (sub_Fallbacks sub = []) then forall fb, fb ∈ fbs -> within (fb_Provider fb) else fbs = sub_Fallbacks sub).
Proof. intros (sub' & Ho & Hp & Hf) E. rewrite (GetRequestFields_only _ _ _ Ho), full in E. by injection E as <- <- <-. Qed.

Lemma routed_start req : only req f sub -> sub_Provider sub = "" -> Routed req.
Proof.
  intros Ho Hp. exists sub. split; [done|]. split; [by rewrite Hp|]. case_bool_decide as He; [|done].
  rewrite He. intros fb Hfb. by apply elem_of_nil in Hfb.
Qed.

Lemma routed_provider req p : Routed req -> (p <> "" -> within p) -> Routed (SetProvider req p).
Proof.
  intros (sub' & Ho & Hp & Hf) Hw. unfold SetProvider. rewrite (active_only _ _ f sub' Ho), decide_True by by apply full_in_setProvider.
  eexists. split; [by eapply only_setField|]. by split.
Qed.

Lemma routed_model req m : Routed req -> Routed (SetModel req m).
Proof.
  intros (sub' & Ho & Hp & Hf). unfold SetModel. rewrite (active_only _ _ f sub' Ho), decide_True by by apply full_in_setModel.
  eexists. split; [by eapply only_setField|]. by split.
Qed.

Lemma routed_fallbacks req fbs :
  Routed req -> sub_Fallbacks sub = [] -> (forall fb, fb ∈ fbs -> within (fb_Provider fb)) -> Routed (SetFallbacks req fbs).
Proof.
  intros (sub' & Ho & Hp & Hf) He Hw. unfold SetFallbacks. rewrite (active_only _ _ f sub' Ho), decide_True by by apply full_in_setFallbacks.
  eexists. split; [by eapply only_setField|]. split; [done|]. by rewrite bool_decide_true.
Qed.

Lemma resolved_candidates providersForModel ctx model allowed p :
  value ctx KeyRoutingAllowedProviders = VStrings allowed ->
  let '(selected, candidates) := ResolveProviderFromCatalog providersForModel ctx model in
  (selected <> "" -> selected ∈ allowed) /\ (p ∈ candidates -> p ∈ allowed).
Proof.
  intros Hv. unfold ResolveProviderFromCatalog. case_bool_decide; [cbn; split; [done|by intros ?%elem_of_nil]|]. rewrite Hv.
  set (l := filter (fun p => p ∈ allowed) (SortStrings (providersForModel model))).
  assert (Hl : forall q, q ∈ l -> q ∈ allowed) by (intros q Hq; by apply list_elem_of_filter in Hq as [? _]).
  destruct l as [|first rest] eqn:El; [cbn; split; [done|by intros ?%elem_of_nil]|]. rewrite <- El in *. clearbody l.
  split; [|apply Hl]. intros _. assert (Hfirst : first ∈ allowed) by (apply Hl; rewrite El; set_solver).
  destruct (integrationTypeToDefaultProvider _); [|done]. case_bool_decide; [by apply Hl|done].
Qed.

Lemma routed_resolver providersForModel ctx req allowed :
  value ctx KeyRoutingAllowedProviders = VStrings allowed -> (forall p, p ∈ allowed -> within p) -> Routed req ->
  Routed (resolverPreRequestHook providersForModel ctx req).1.
Proof.
  intros Hv Hw HR. unfold resolverPreRequestHook. destruct (isPassthrough _); [done|].
  destruct (GetRequestFields req) as [[p m] existing] eqn:E. destruct (_ || _) eqn:Ep; [done|].
  pose proof (resolved_candidates providersForModel ctx m allowed) as Hc.
  destruct (ResolveProviderFromCatalog providersForModel ctx m) as [selected candidates] eqn:Es.
  destruct (bool_decide (selected = "")) eqn:Hs; [done|]. apply bool_decide_eq_false in Hs. destruct (Hc "" Hv) as [Hsel _].
  assert (HR' : Routed (SetProvider req selected)) by (apply routed_provider; [done|intros _; by apply Hw, Hsel]).
  cbn [fst]. destruct (bool_decide (existing = []) && _ && _) eqn:Ex; [|done].
  apply andb_true_iff in Ex as [[Ex _]%andb_true_iff _]. apply bool_decide_eq_true in Ex.
  apply routed_fallbacks; [done| |].
  - destruct (routed_fields _ _ _ _ HR E) as [_ Hf]. case_bool_decide as He; [done|]. congruence.
  - intros fb (q & -> & [_ Hq]%list_elem_of_filter)%list_elem_of_fmap. cbn. apply Hw. by apply (Hc q Hv).
Qed.
End Routed.

(** Setting a field leaves one typed request. *)
Lemma full_SetProvider {B} (req : BifrostRequest B) f sub p : shape f = FullShape -> only req f sub -> exists sub', only (SetProvider req p) f sub'.
Proof.
  intros Hf Ho. unfold SetProvider. rewrite (active_only _ _ f sub Ho), decide_True by by apply full_in_setProvider.
  eexists. by eapply only_setField.
Qed.
Lemma full_SetModel {B} (req : BifrostRequest B) f sub m : shape f = FullShape -> only req f sub -> exists sub', only (SetModel req m) f sub'.
Proof.
  intros Hf Ho. unfold SetModel. rewrite (active_only _ _ f sub Ho), decide_True by by apply full_in_setModel.
  eexists. by eapply only_setField.
Qed.
Lemma full_SetFallbacks {B} (req : BifrostRequest B) f sub l : shape f = FullShape -> only req f sub -> exists sub', only (SetFallbacks req l) f sub'.
Proof.
  intros Hf Ho. unfold SetFallbacks. rewrite (active_only _ _ f sub Ho), decide_True by by apply full_in_setFallbacks.
  eexists. by eapply only_setField.
Qed.

(** The operations that leave a value of the context alone. *)
Definition leaves (k : string) (op : CtxOp) : Prop := match op with OpSet k' _ => k' <> k | _ => False end.

Lemma applyOps_app c a b : applyOps c (a ++ b) = applyOps (applyOps c a) b.
Proof. apply foldl_app. Qed.

Lemma applyOps_leaves c ops k : Forall (leaves k) ops -> value (applyOps c ops) k = value c k.
Proof.
  intros Hf. revert c. induction Hf as [|op ops Hop Hf IH]; intros c; [done|]. cbn. rewrite IH.
  destruct op as [k' v| | | | | | | | | |]; try done. cbn. unfold SetValue. destruct (dropsWrite c k'); [done|]. by apply value_set_ne.
Qed.

Lemma appendToList_leaves ctx k x k' : k <> k' -> Forall (leaves k') (appendToList ctx k x).
Proof. intros Hne. unfold appendToList. case_bool_decide; repeat constructor; done. Qed.

Lemma stampIncludeTools_leaves {F} iter ctx (vk : VirtualKey F) clients d : Forall (leaves KeyRoutingAllowedProviders) (stampIncludeTools iter ctx vk clients d).
Proof.
  unfold stampIncludeTools, pruneMCPIncludeToolsFromContext.
  destruct (value ctx KeyMCPIncludeTools), (negb (default false d) || _); cbn; repeat constructor; done.
Qed.

Lemma loadBalance_leaves {F B} `{Amount F} fraction iter catalog refiner one sortSlice (gs : @GovPolicy.Store F) now draw ctx
    (req req' : BifrostRequest B) vk ops :
  loadBalanceProvider fraction iter catalog refiner one sortSlice gs now draw ctx req vk = Ok (req', ops) ->
  Forall (leaves KeyRoutingAllowedProviders) ops.
Proof.
  unfold loadBalanceProvider. destruct (GetRequestFields req) as [[provider model] existing].
  destruct (_ || _); [intros [= <- <-]; constructor|].
  destruct (weightedConfigs _) as [|c l]; [intros [= <- <-]; constructor|].
  destruct (refineModel _ _ _); [|done]. intros [= <- <-]. by apply appendToList_leaves.
Qed.

Section Together.
Context {F : Type} `{Amount F} {P B : Type}.
Variable fraction : Z -> Z -> Z -> Z.
Variable Compile : string -> result string P.
Variable Parse : string -> option CelExpr.
Variable Eval : P -> Variables F -> bool -> EvalResult.
Variable GetBaseModelName : option (string -> string).
Variable iter : forall A : Type, gmap string A -> list (string * A).
Variable floatOf : Z -> F.
Variable percent : F -> F -> F.
Variable drawIndex : nat -> nat -> nat.
Variable drawFloat : nat -> F -> F.
Variable maxDepth : nat -> Z.
Variable catalog : option (string -> string -> WhiteList.t -> bool).
Variable refiner : option (string -> string -> result string string).
Variable one : F.
Variable sortSlice : list (ProviderConfig F) -> list (ProviderConfig F).
Hypothesis slice_permutes : forall l, sortSlice l ≡ₚ l.
Variable known : gset string.
Variable blocks : B -> list (list string).
Variable complexity : option (BifrostRequest B -> option string).

Local Abbreviation hook := (GovRules.PreRequestHook fraction Compile Parse Eval GetBaseModelName iter floatOf percent drawIndex drawFloat maxDepth
  catalog refiner one sortSlice known blocks complexity).

(** A provider of the key that may serve the model: one of its configurations
    takes part in the choice by weight, or lists the model and does not block it. *)
Definition WithinKey (gs : @GovPolicy.Store F) (vk : VirtualKey F) (now : nat -> Check -> Time) (model p : string) : Prop :=
  exists c, c ∈ vk_ProviderConfigs vk /\ pc_Provider c = p /\
    (Eligible fraction iter catalog gs vk now model c \/
     WhiteList.IsAllowed (pc_AllowedModels c) model = true /\ BlackList.IsBlocked (pc_BlacklistedModels c) model = false).

(** What the key publishes. *)
Definition published (vk : VirtualKey F) (model : string) : list string :=
  pc_Provider <$> filter (fun pc => (bool_decide (model = "") ||
    (WhiteList.IsAllowed (pc_AllowedModels pc) model && negb (BlackList.IsBlocked (pc_BlacklistedModels pc) model))) = true) (vk_ProviderConfigs vk).

Lemma published_value ctx ops (vk : VirtualKey F) model :
  value (applyOps ctx (ops ++ publishRoutingAllowlist vk model)) KeyRoutingAllowedProviders = VStrings (published vk model).
Proof.
  rewrite applyOps_app. cbn. unfold SetValue, dropsWrite.
  rewrite (bool_decide_false (KeyRoutingAllowedProviders ∈ reservedKeys)) by (apply (bool_decide_unpack _); by vm_compute).
  rewrite andb_false_r. by rewrite value_set_eq.
Qed.

Lemma published_within gs (vk : VirtualKey F) now model p : model <> "" -> p ∈ published vk model -> WithinKey gs vk now model p.
Proof.
  intros Hne (c & -> & [Hc Hin]%list_elem_of_filter)%list_elem_of_fmap. rewrite bool_decide_false in Hc by done. cbn [orb] in Hc.
  apply andb_true_iff in Hc as [Ha Hb]. rewrite negb_true_iff in Hb. exists c. tauto.
Qed.

(** The request once the routing rules, if there are any, were evaluated. *)
Definition afterRules (gs : @GovPolicy.Store F) (s : @RuleStore F P) headers queryParams ctx (req : BifrostRequest B) (vk : VirtualKey F) :
    option (BifrostRequest B * list CtxOp * @RuleStore F P) :=
  if HasRoutingRules s
  then applyRoutingRules Compile Parse Eval GetBaseModelName iter floatOf percent drawIndex drawFloat maxDepth known gs blocks s
         complexity headers queryParams (applyOps ctx (stampGovernanceCtxFromVK vk)) req (Some vk)
  else Some (req, [], s).

(** The rules answer, and leave one typed request, of the type it had. *)
Lemma afterRules_only gs s headers queryParams ctx (req : BifrostRequest B) f sub vk :
  only req f sub -> shape f = FullShape ->
  exists req0 ops0 s0 sub0, afterRules gs s headers queryParams ctx req vk = Some (req0, ops0, s0) /\ only req0 f sub0.
Proof.
  intros Ho Hfull. unfold afterRules. destruct (HasRoutingRules s); [|by exists req, [], s, sub].
  unfold applyRoutingRules. destruct (GetRequestFields req) as [[p m] fbs]. case_bool_decide; [by exists req, [], s, sub|].
  set (rc := mkRoutingContext _ _ _ _ _ _ _ _ _ _).
  destruct (EvaluateRoutingRules_returns Compile Parse Eval GetBaseModelName iter floatOf percent drawIndex drawFloat maxDepth gs blocks s rc)
    as [[[[d|] ops] s'] ->]; [|by exists req, ops, s', sub].
  assert (Hset : exists sub0, only
    (let r := if bool_decide (rd_Provider d = "") then req else SetProvider req (rd_Provider d) in
     let r := if bool_decide (rd_Model d = "") then r else SetModel r (rd_Model d) in
     if bool_decide (rd_Fallbacks d = []) then r else SetFallbacks r (omap (resolveFallback known m) (rd_Fallbacks d))) f sub0).
  { assert (HR : exists sub', only req f sub') by eauto. clear Ho. revert HR.
    generalize req. intros r HR. cbv zeta.
    assert (HP : exists sub', only (if bool_decide (rd_Provider d = "") then r else SetProvider r (rd_Provider d)) f sub')
      by (case_bool_decide; [done|]; destruct HR as [sub' HR]; by eapply full_SetProvider).
    revert HP. generalize (if bool_decide (rd_Provider d = "") then r else SetProvider r (rd_Provider d)). clear r HR. intros r HR.
    assert (HM : exists sub', only (if bool_decide (rd_Model d = "") then r else SetModel r (rd_Model d)) f sub')
      by (case_bool_decide; [done|]; destruct HR as [sub' HR]; by eapply full_SetModel).
    revert HM. generalize (if bool_decide (rd_Model d = "") then r else SetModel r (rd_Model d)). clear r HR. intros r HR.
    case_bool_decide; [done|]. destruct HR as [sub' HR]. by eapply full_SetFallbacks. }
  destruct Hset as [sub0 Hset]. do 3 eexists. exists sub0. split; [reflexivity|exact Hset].
Qed.

(** C15. A request of a usable virtual key, after the routing rules, the choice
    by weight and the model-catalogue resolver.  When the rules, or the client,
    named a provider, the later layers leave the request as the rules made it.
    Otherwise it names no provider or one that the key has for the model the
    rules left, however the random choice falls and whatever the catalogue
    offers, and also when governance refuses to choose; fallbacks that were added
    are such providers too, and those that were there are kept.  The rules
    themselves may name any provider.  The request is one of those that carry a
    model and fallbacks, not a passthrough; the key is one the store has, active
    and not expired. *)
Theorem routed_within_key (gs : @GovPolicy.Store F) (s : @RuleStore F P) pl d clock draw headers queryParams ctx
    (req : BifrostRequest B) f sub vk providersForModel :
  only req f sub -> shape f = FullShape ->
  GetVirtualKey gs (stringValue ctx KeyVirtualKey) = Some vk -> stringValue ctx KeyVirtualKey <> "" ->
  IsActiveValue vk = true -> IsExpiredAt vk (hc_Expiry clock) = false -> isPassthrough (br_RequestType req) = false ->
  exists req0 ops0 s0 err req1 ops,
    afterRules gs s headers queryParams ctx req vk = Some (req0, ops0, s0) /\
    hook gs s pl d clock draw headers queryParams ctx req = Some (err, req1, ops, s0) /\
    let '(p0, model, fbs0) := GetRequestFields req0 in
    let within := WithinKey gs vk (hc_Configs clock) model in
    let final := (resolverPreRequestHook providersForModel (applyOps ctx ops) req1).1 in
    if bool_decide (p0 = "") then
      forall p m fbs, GetRequestFields final = (p, m, fbs) ->
        (p <> "" -> within p) /\
        (if bool_decide (fbs0 = []) then forall fb, fb ∈ fbs -> within (fb_Provider fb) else fbs = fbs0)
    else final = req0.
Proof.
  intros Ho0 Hfull Hvk Hkey Hact Hexp Hpass.
  destruct (afterRules_only gs s headers queryParams ctx req f sub vk Ho0 Hfull) as (req0 & ops0 & s0 & sub0 & Hafter & Ho).
  exists req0, ops0, s0. pose proof Hafter as Hrules. unfold afterRules in Hrules.
  assert (Hf : GetRequestFields req0 = (sub_Provider sub0, default "" (sub_Model sub0), sub_Fallbacks sub0))
    by by rewrite (GetRequestFields_only _ _ _ Ho), Hfull.
  unfold GovRules.PreRequestHook. rewrite Hpass, (bool_decide_false (stringValue ctx KeyVirtualKey = "")) by done. cbn [negb andb].
  rewrite Hvk, Hact, Hexp. cbn [negb andb]. rewrite Hrules, Hf. set (model := default "" (sub_Model sub0)).
  set (pub := stampGovernanceCtxFromVK vk ++ ops0 ++ publishRoutingAllowlist vk model).
  set (within := WithinKey gs vk (hc_Configs clock) model).
  pose proof (published_value ctx (stampGovernanceCtxFromVK vk ++ ops0) vk model) as Hpub. rewrite <- app_assoc in Hpub. fold pub in Hpub.
  pose proof (loadBalance_spec fraction iter catalog refiner one sortSlice slice_permutes gs (hc_Configs clock) draw (applyOps ctx pub) req0 vk) as Hbal.
  rewrite Hf in Hbal. cbv zeta in Hbal. fold model in Hbal.
  assert (Hstay : sub_Provider sub0 <> "" -> forall c, (resolverPreRequestHook providersForModel c req0).1 = req0).
  { intros Hn c. unfold resolverPreRequestHook. destruct (isPassthrough (br_RequestType req0)); [done|]. rewrite Hf, (bool_decide_false (sub_Provider sub0 = "")) by done. done. }
  assert (Helig : forall c, Eligible fraction iter catalog gs vk (hc_Configs clock) model c -> within (pc_Provider c)).
  { intros c Hc. exists c. split; [|tauto]. destruct Hc as (i & Hi & _). by eapply list_elem_of_lookup_2. }
  assert (Hunnamed : model = "" -> sub_Provider sub0 = "" -> forall c, (resolverPreRequestHook providersForModel c req0).1 = req0).
  { intros Hm Hp c. unfold resolverPreRequestHook. destruct (isPassthrough (br_RequestType req0)); [done|]. rewrite Hf. fold model. rewrite Hm, orb_true_r. done. }
  destruct (loadBalanceProvider _ _ _ _ _ _ _ _ _ _ _ _) as [[req' balanced]|e] eqn:Elb; do 3 eexists; (split; [exact Hafter|]; split; [reflexivity|]);
    case_bool_decide as Hp.
  - assert (HR : Routed f sub0 within req0) by by apply routed_start.
    intros p m fbs. eapply (routed_fields f); [done|].
    destruct Hbal as [(-> & -> & Hcase)|(Hne & _ & c & refined & Hc & _ & Hreq)].
    + destruct (decide (model = "")) as [Hm|Hm]; [by rewrite Hunnamed|].
      eapply routed_resolver; [done| |intros q Hq; by eapply published_within|done].
      rewrite app_nil_r, applyOps_app, (applyOps_leaves (applyOps ctx pub)) by apply stampIncludeTools_leaves. exact Hpub.
    + eapply routed_resolver; [done| |intros q Hq; by eapply published_within|].
      * rewrite applyOps_app, (applyOps_leaves (applyOps ctx (pub ++ balanced))) by apply stampIncludeTools_leaves.
        rewrite applyOps_app, (applyOps_leaves (applyOps ctx pub)) by (by eapply loadBalance_leaves). exact Hpub.
      * destruct Hreq as [->|(He & fallbacks & -> & Hfb)].
        -- apply routed_model, routed_provider; [done..|]. intros _. by apply Helig.
        -- apply routed_fallbacks; [done| |done|].
           ++ apply routed_model, routed_provider; [done..|]. intros _. by apply Helig.
           ++ intros fb (_ & c' & Hc' & <- & _)%Hfb. by apply Helig.
  - destruct Hbal as [(-> & _)|(_ & Hno & _)]; [by apply Hstay|done].
  - assert (HR : Routed f sub0 within req0) by by apply routed_start.
    intros p m fbs. eapply (routed_fields f); [done|]. destruct (decide (model = "")) as [Hm|Hm]; [by rewrite Hunnamed|].
    eapply routed_resolver; [done|exact Hpub|intros q Hq; by eapply published_within|done].
  - by apply Hstay.
Qed.
End Together.

(** ** Examples *)

#[local] Instance cents : Amount Z := mkAmount Z 0 Z.add Z.leb Z.ltb (fun _ => true).

Definition order (A : Type) (m : gmap string A) : list (string * A) := map_to_list m.

(** A catalogue in which Groq lists a model of OpenAI. *)
Definition groqModels : @ModelCatalog.ModelCatalog unit :=
  ModelCatalog.mkCatalog (ModelCatalog.mkDatasheet ∅ ∅ ∅) (LiveModels.Upsert LiveModels.New Groq "k1" false ["openai/gpt-oss-120b"; "llama-3"]) ∅.

Definition groqAllows (provider model : string) (allowed : WhiteList.t) : bool :=
  ModelCatalog.IsModelAllowedForProvider order (fun m => map_to_list m) ModelCatalog.knownProviders0 groqModels provider model None allowed.
Definition groqNames (provider model : string) : result string string :=
  ModelCatalog.RefineModelForProvider order ModelCatalog.knownProviders0 groqModels provider model.

Definition groqConfig (models : WhiteList.t) : ProviderConfig Z := mkProviderConfig Groq (Some 1) models [] true [] [] None None.
Definition groqKey (models : WhiteList.t) : VirtualKey Z :=
  mkVirtualKey "vk" "key" None None [groqConfig models; mkProviderConfig "openai" None ["gpt-4o"] [] true [] [] None None]
    [] None false None None None None [].
Definition groqStore (models : WhiteList.t) : @GovPolicy.Store Z := GovPolicy.mkStore ∅ ∅ {["sk" := groqKey models]} ∅ ∅ ∅ ∅ ∅.

Definition ask (model : string) : BifrostRequest unit := onlyField ChatCompletionRequest FChat (mkSub "" (Some model) [] tt).
Definition askCtx : BifrostContext := mkCtx {[KeyVirtualKey := VString "sk"]} ∅ false.

Definition balanced (models : WhiteList.t) (model : string) : result string (BifrostRequest unit * list CtxOp) :=
  loadBalanceProvider (fun x _ _ => x) order (Some groqAllows) (Some groqNames) 1 (fun l => l) (groqStore models) (fun _ _ => 0)
    (fun x => x) askCtx (ask model) (groqKey models).

Definition checked (models : WhiteList.t) (req : BifrostRequest unit) : option (option string) :=
  (fun short => e ← sc_Error short; be_Type e) <$>
  (PreLLMHook (fun x _ _ => x) None order (fun _ _ => "") (Some groqAllows) (groqStore models)
    (mkGovernancePlugin None None ∅) (fun _ => 0) askCtx req).1.

(** A virtual key that lists a model under its own name for Groq: governance
    chooses Groq for it, gives the request the name the catalogue has for it
    there, which carries the prefix of its maker, and then refuses the request
    for a model that the key does not list.  Before the name is changed the same
    check lets it pass. *)
Theorem balanced_then_blocked :
  exists req ops,
    balanced ["gpt-oss-120b"] "gpt-oss-120b" = Ok (req, ops) /\
    GetRequestFields req = (Groq, "openai/gpt-oss-120b", []) /\
    checked ["gpt-oss-120b"] req = Some (Some "model_blocked") /\
    checked ["gpt-oss-120b"] (SetModel req "gpt-oss-120b") = None.
Proof. do 2 eexists. split; [reflexivity|]. split; [reflexivity|]. split; vm_compute; reflexivity. Qed.

Lemma routed_within_key_witness :
  exists err req1 ops, GovRules.PreRequestHook (fun x _ _ => x) (fun e => Ok e) (fun _ => None) (fun (_ : string) (_ : Variables Z) _ => EvalBool true) None order
      (fun z => z) (fun x y => x * 100 / y) (fun _ _ => 0%nat) (fun _ x => x) (fun _ => 10) (Some groqAllows) (Some groqNames) 1 (fun l => l)
      ModelCatalog.knownProviders0 (fun _ : unit => []) None (groqStore ["llama-3"]) (mkRuleStore ∅ ∅) (mkGovernancePlugin None None ∅) None
      (mkHookClock 0 (fun _ _ => 0)) (fun x => x) ∅ ∅ askCtx (ask "gpt-4o") = Some (err, req1, ops, mkRuleStore ∅ ∅) /\
    (GetRequestFields (resolverPreRequestHook (fun _ => ["groq"; "openai"]) (applyOps askCtx ops) req1).1).1.1 = "openai" /\
    WithinKey (fun x _ _ => x) order (Some groqAllows) (groqStore ["llama-3"]) (groqKey ["llama-3"]) (fun _ _ => 0) "gpt-4o" "openai".
Proof.
  destruct (routed_within_key (P := string) (B := unit) (fun x _ _ => x) (fun e => Ok e) (fun _ => None) (fun _ _ _ => EvalBool true) None order
    (fun z => z) (fun x y => x * 100 / y) (fun _ _ => 0%nat) (fun _ x => x) (fun _ => 10) (Some groqAllows) (Some groqNames) 1 (fun l => l)
    (fun l => reflexivity l) ModelCatalog.knownProviders0 (fun _ => []) None (groqStore ["llama-3"]) (mkRuleStore ∅ ∅)
    (mkGovernancePlugin None None ∅) None (mkHookClock 0 (fun _ _ => 0)) (fun x => x) ∅ ∅ askCtx (ask "gpt-4o") FChat
    (mkSub "" (Some "gpt-4o") [] tt) (groqKey ["llama-3"]) (fun _ => ["groq"; "openai"])) as (req0 & ops0 & s0 & err & req1 & ops & Hr & E & Hw);
    [apply only_onlyField|first [reflexivity|discriminate|idtac]..].
  vm_compute in Hr. injection Hr as <- <- <-. exists err, req1, ops. split; [exact E|].
  destruct (GetRequestFields (resolverPreRequestHook (fun _ => ["groq"; "openai"]) (applyOps askCtx ops) req1).1) as [[p m] fbs] eqn:Ef.
  destruct (Hw p m fbs Ef) as [Hp _]. vm_compute in E. injection E as <- <- <-. vm_compute in Ef. injection Ef as <- <- <-.
  split; [reflexivity|]. apply Hp. discriminate.
Defined.
End GovBalanceTheory.
