(* ===== verification/Webhooks.v ===== *)
(** * Webhook deliveries (src/framework/webhooks, and the queue of
    src/framework/configstore/rdb.go)

    A row of the table of webhook jobs is a delivery on its way.  The
    dispatcher of a node lists the rows that are due, claims one until the end
    of a lease, sends one signed request, appends a row to the history, and
    then moves the job to its next attempt or deletes it.  The rows are kept as
    they were written (the columns of SQLite); [WebhookNetwork]
    interleaves the dispatchers of several nodes. *)

From S2P Require Import Prelude GoStrings Schemas Calendar.

Local Open Scope string_scope.
Local Open Scope Z_scope.
Local Open Scope list_scope.

Module Webhooks.
Import Schemas Calendar.

(** ** Events and endpoints (src/framework/configstore/tables/webhooks.go) *)

Definition WebhookEvent : Type := string.

Definition WebhookEventAsyncJobCompleted : WebhookEvent := "async_job.completed".
Definition WebhookEventAsyncJobFailed : WebhookEvent := "async_job.failed".
Definition WebhookEventAlertBudgetThreshold : WebhookEvent := "alert.budget_threshold".
Definition WebhookEventAlertSpendRate : WebhookEvent := "alert.spend_rate".
Definition WebhookEventAlertErrorRate : WebhookEvent := "alert.error_rate".
Definition WebhookEventBudgetExceeded : WebhookEvent := "budget.exceeded".

Definition WebhookEvents : list WebhookEvent :=
  [WebhookEventAsyncJobCompleted; WebhookEventAsyncJobFailed; WebhookEventAlertBudgetThreshold;
   WebhookEventAlertSpendRate; WebhookEventAlertErrorRate; WebhookEventBudgetExceeded].

Definition IsValid (e : WebhookEvent) : bool := bool_decide (e ∈ WebhookEvents).

(** The configuration of an endpoint; the secret and the headers are given by
    their values. *)
Record TableWebhookEndpoint := mkEndpoint {
  we_ID : string;
  URL : string;
  Secret : option string;
  Events : list WebhookEvent;
  Headers : list (string * string);
  IncludeResponse : bool;
  AllowPrivateNetwork : bool;
  MaxRetries : Z;
  RetryBackoffInitialSeconds : Z;
  RetryBackoffMaxSeconds : Z;
  AttemptTimeoutSeconds : Z;
  MaxResponsePayloadKBs : Z;
  MaxConcurrentDeliveries : Z;
  Disabled : bool;
}.

Definition protectedWebhookHeaders : list string :=
  ["webhook-id"; "webhook-timestamp"; "webhook-signature"; "x-bifrost-event"; "content-type";
   "content-length"; "user-agent"; "host"; "connection"; "transfer-encoding"].

Definition IsProtectedWebhookHeader (name : string) : bool :=
  bool_decide (ToLower name ∈ protectedWebhookHeaders).

Definition subscribesTo (endpoint : TableWebhookEndpoint) (event : WebhookEvent) : bool :=
  bool_decide (event ∈ Events endpoint).

(** ** Jobs and their queue *)

Record TableWebhookJob := mkJob {
  ID : string;
  EndpointID : string;
  AsyncJobID : string;
  Event : WebhookEvent;
  PayloadJSON : string;
  AttemptCount : Z;
  NextAttemptAt : Time;
  ClaimedBy : string;
  ClaimedUntil : option Time;
  CreatedAt : Time;
}.

#[export] Instance TableWebhookJob_eq_dec : EqDecision TableWebhookJob.
Proof. solve_decision. Defined.

(** A job as its callers build it: unattempted, unclaimed, due at once. *)
Definition newJob (id endpointID asyncJobID : string) (event : WebhookEvent) (payload : string) : TableWebhookJob :=
  mkJob id endpointID asyncJobID event payload 0 zeroTime "" None zeroTime.

Notation Queue := (gmap string TableWebhookJob).

Inductive QueueError :=
| InvalidJob (message : string)
| ErrAlreadyExists
| LeaseInThePast
| NotOwned
| StorageError.

#[export] Instance QueueError_eq_dec : EqDecision QueueError.
Proof. solve_decision. Defined.

Definition Microsecond : Duration := 1000.
Definition normalizeLeaseTime (t : Time) : Time := t - t mod Microsecond.

(** [db] is whether the statement reaches the database. *)
Definition CreateWebhookJob (q : Queue) (job : TableWebhookJob) (now : Time) (db : bool) : result QueueError Queue :=
  if bool_decide (ID job = "") then Err (InvalidJob "webhook job id is required")
  else if bool_decide (EndpointID job = "") then Err (InvalidJob "webhook job endpoint id is required")
  else if bool_decide (AsyncJobID job = "") then Err (InvalidJob "webhook job async job id is required")
  else if negb (IsValid (Event job)) then Err (InvalidJob "unknown webhook event")
  else if negb (AttemptCount job =? 0) || negb (bool_decide (ClaimedBy job = "")) || bool_decide (is_Some (ClaimedUntil job))
       then Err (InvalidJob "new webhook job must be unattempted and unclaimed")
  else
    let next := if IsZero (NextAttemptAt job) then now else NextAttemptAt job in
    if negb db then Err StorageError
    else if bool_decide (is_Some (q !! ID job)) then Err ErrAlreadyExists
    else Ok (<[ID job := mkJob (ID job) (EndpointID job) (AsyncJobID job) (Event job) (PayloadJSON job) 0 next "" None now]> q).

(** [next_attempt_at <= now AND (claimed_until IS NULL OR claimed_until < now)]. *)
Definition due (now : Time) (job : TableWebhookJob) : bool :=
  (NextAttemptAt job <=? now) && match ClaimedUntil job with None => true | Some l => l <? now end.

Fixpoint insertByTime (x : TableWebhookJob) (l : list TableWebhookJob) : list TableWebhookJob :=
  match l with
  | [] => [x]
  | y :: l' => if NextAttemptAt x <=? NextAttemptAt y then x :: l else y :: insertByTime x l'
  end.

(** [rows] are the rows in the order the database meets them, which decides
    between jobs that are due at the same time. *)
Definition ListDueWebhookJobs (rows : list TableWebhookJob) (now : Time) (limit : Z) : list TableWebhookJob :=
  let jobs := foldr insertByTime [] (base.filter (fun j => due now j = true) rows) in
  if 0 <? limit then take (Z.to_nat limit) jobs else jobs.

Definition claimRow (runnerID : string) (leaseUntil : Time) (job : TableWebhookJob) : TableWebhookJob :=
  mkJob (ID job) (EndpointID job) (AsyncJobID job) (Event job) (PayloadJSON job) (AttemptCount job)
        (NextAttemptAt job) runnerID (Some leaseUntil) (CreatedAt job).

Definition ClaimWebhookJob (q : Queue) (id runnerID : string) (leaseUntil now : Time) (db : bool) : result QueueError (bool * Queue) :=
  let leaseUntil := normalizeLeaseTime leaseUntil in
  if negb (now <? leaseUntil) then Err LeaseInThePast
  else if negb db then Err StorageError
  else match q !! id with
       | Some job => if due now job then Ok (true, <[id := claimRow runnerID leaseUntil job]> q) else Ok (false, q)
       | None => Ok (false, q)
       end.

(** [id = ? AND claimed_by = ? AND claimed_until = ?]. *)
Definition ownedBy (runnerID : string) (leaseUntil : Time) (job : TableWebhookJob) : bool :=
  bool_decide (ClaimedBy job = runnerID) && bool_decide (ClaimedUntil job = Some (normalizeLeaseTime leaseUntil)).

Definition rescheduleRow (nextAttemptAt : Time) (job : TableWebhookJob) : TableWebhookJob :=
  mkJob (ID job) (EndpointID job) (AsyncJobID job) (Event job) (PayloadJSON job) (AttemptCount job + 1)
        nextAttemptAt "" None (CreatedAt job).

Definition RescheduleWebhookJob (q : Queue) (id runnerID : string) (leaseUntil nextAttemptAt : Time) (db : bool) : result QueueError Queue :=
  if negb db then Err StorageError
  else match q !! id with
       | Some job => if ownedBy runnerID leaseUntil job then Ok (<[id := rescheduleRow nextAttemptAt job]> q) else Err NotOwned
       | None => Err NotOwned
       end.

Definition DeleteWebhookJob (q : Queue) (id runnerID : string) (leaseUntil : Time) (db : bool) : result QueueError Queue :=
  if negb db then Err StorageError
  else match q !! id with
       | Some job => if ownedBy runnerID leaseUntil job then Ok (delete id q) else Err NotOwned
       | None => Err NotOwned
       end.

(** The operational counters of an endpoint's row. *)
Record Counters := mkCounters { ConsecutiveFailures : Z; LastSuccessAt : option Time; LastFailureAt : option Time }.

Definition RecordWebhookEndpointSuccess (c : gmap string Counters) (id : string) (now : Time) (db : bool) : result QueueError (gmap string Counters) :=
  if negb db then Err StorageError
  else match c !! id with
       | Some x => Ok (<[id := mkCounters 0 (Some now) (LastFailureAt x)]> c)
       | None => Err NotOwned
       end.

Definition RecordWebhookEndpointFailure (c : gmap string Counters) (id : string) (now : Time) (db : bool) : result QueueError (Z * gmap string Counters) :=
  if negb db then Err StorageError
  else match c !! id with
       | Some x => Ok (ConsecutiveFailures x + 1, <[id := mkCounters (ConsecutiveFailures x + 1) (LastSuccessAt x) (Some now)]> c)
       | None => Err NotOwned
       end.

(** ** Tuning *)

Definition defaultMaxRetries : Z := 4.
Definition defaultRetryBackoffInitial : Duration := 30 * Second.
Definition defaultRetryBackoffMax : Duration := 30 * Minute.
Definition defaultAttemptTimeout : Duration := 10 * Second.
Definition defaultMaxResponsePayloadKBs : Z := 256.
Definition defaultMaxConcurrentDeliveries : Z := 10.
Definition enqueueAttempts : nat := 3.
Definition scanBatchSize : Z := 64.

Record endpointTuning := mkTuning {
  maxRetries : Z;
  retryBackoffInitial : Duration;
  retryBackoffMax : Duration;
  attemptTimeout : Duration;
  maxResponsePayloadBytes : Z;
  maxConcurrentDeliveries : Z;
}.

Definition orDefault (set : Z) (value default : Z) : Z := if 0 <? set then value else default.

Definition tuningFor (endpoint : option TableWebhookEndpoint) : endpointTuning :=
  match endpoint with
  | None => mkTuning defaultMaxRetries defaultRetryBackoffInitial defaultRetryBackoffMax defaultAttemptTimeout
              (defaultMaxResponsePayloadKBs * 1024) defaultMaxConcurrentDeliveries
  | Some e => mkTuning
      (orDefault (MaxRetries e) (MaxRetries e) defaultMaxRetries)
      (orDefault (RetryBackoffInitialSeconds e) (RetryBackoffInitialSeconds e *i Second)%go defaultRetryBackoffInitial)
      (orDefault (RetryBackoffMaxSeconds e) (RetryBackoffMaxSeconds e *i Second)%go defaultRetryBackoffMax)
      (orDefault (AttemptTimeoutSeconds e) (AttemptTimeoutSeconds e *i Second)%go defaultAttemptTimeout)
      (orDefault (MaxResponsePayloadKBs e) (MaxResponsePayloadKBs e *i 1024)%go (defaultMaxResponsePayloadKBs * 1024))
      (orDefault (MaxConcurrentDeliveries e) (MaxConcurrentDeliveries e) defaultMaxConcurrentDeliveries)
  end.

(** The doubling loop, which stops before [retryNo] iterations; [n] counts the
    iterations left. *)
Fixpoint doubleBackoff (backoffMax : Duration) (n : nat) (backoff : Duration) : Duration :=
  match n with
  | O => backoff
  | S n =>
      if backoff <? backoffMax then
        if Z.quot backoffMax 2 <? backoff then backoffMax
        else doubleBackoff backoffMax n (backoff *i 2)%go
      else backoff
  end.

(** [jitter b] is the truncation of [float64(b) * (0.8 + 0.4*rand)]. *)
Definition retryBackoff (jitter : Z -> Z) (retryNo : Z) (tuning : endpointTuning) : Duration :=
  let backoff := doubleBackoff (retryBackoffMax tuning) (Z.to_nat (retryNo - 1)) (retryBackoffInitial tuning) in
  let backoff := Z.min backoff (retryBackoffMax tuning) in
  Z.min (jitter backoff) (retryBackoffMax tuning).

(** [max(2*tuning.attemptTimeout, 30*time.Second)]. *)
Definition leaseOf (tuning : endpointTuning) : Duration := Z.max (2 *i attemptTimeout tuning)%go (30 * Second).

(** ** Payloads (payload.go, payload_alert.go) *)

Definition AsyncJobStatus : Type := string.
Definition AsyncJobStatusPending : AsyncJobStatus := "pending".
Definition AsyncJobStatusProcessing : AsyncJobStatus := "processing".
Definition AsyncJobStatusCompleted : AsyncJobStatus := "completed".
Definition AsyncJobStatusFailed : AsyncJobStatus := "failed".

(** The columns of an async job that deliveries read. *)
Record AsyncJob := mkAsyncJob {
  aj_ID : string;
  Status : AsyncJobStatus;
  RequestID : string;
  aj_RequestType : RequestType;
  Response : string;
  StatusCode : Z;
  aj_Error : string;
  WebhookEndpointID : option string;
  ExpiresAt : option Time;
  aj_CreatedAt : Time;
  CompletedAt : option Time;
}.

Definition EventForJobStatus (status : AsyncJobStatus) : option WebhookEvent :=
  if bool_decide (status = AsyncJobStatusCompleted) then Some WebhookEventAsyncJobCompleted
  else if bool_decide (status = AsyncJobStatusFailed) then Some WebhookEventAsyncJobFailed
  else None.

Definition statusForEvent (event : WebhookEvent) : AsyncJobStatus :=
  if bool_decide (event = WebhookEventAsyncJobFailed) then AsyncJobStatusFailed else AsyncJobStatusCompleted.

Record eventData := mkEventData {
  JobID : string;
  ed_RequestType : RequestType;
  ed_Status : AsyncJobStatus;
  ed_StatusCode : Z;
  ed_CreatedAt : option Time;
  ed_CompletedAt : option Time;
  ResultURL : string;
  ResultExpiresAt : option Time;
  ed_Response : option string;
  ResponseOmitted : bool;
  ed_Error : option string;
  ErrorOmitted : bool;
  ResultExpired : bool;
}.

Record eventEnvelope := mkEnvelope { ee_Event : WebhookEvent; ee_CreatedAt : Time; Data : eventData }.

Definition asyncResultPathByType : list (RequestType * string) :=
  [(TextCompletionRequest, "/v1/async/completions");
   (ChatCompletionRequest, "/v1/async/chat/completions");
   (ResponsesRequest, "/v1/async/responses");
   (EmbeddingRequest, "/v1/async/embeddings");
   (SpeechRequest, "/v1/async/audio/speech");
   (TranscriptionRequest, "/v1/async/audio/transcriptions");
   (ImageGenerationRequest, "/v1/async/images/generations");
   (ImageEditRequest, "/v1/async/images/edits");
   (ImageVariationRequest, "/v1/async/images/variations");
   (RerankRequest, "/v1/async/rerank");
   (OCRRequest, "/v1/async/ocr")].

Definition AsyncResultPath (requestType : RequestType) (jobID : string) : option string :=
  base ← snd <$> find (fun p => bool_decide (p.1 = requestType)) asyncResultPathByType;
  Some (base ++ "/" ++ jobID)%string.

(** The envelope that [renderPayload] marshals. *)
Definition payloadOf (job : AsyncJob) (event : WebhookEvent) (includeResponse : bool) (maxResponseBytes : Z) (now : Time) : eventEnvelope :=
  let inlined (s : string) := includeResponse && negb (bool_decide (s = "")) in
  let fits (s : string) := Z.of_nat (String.length s) <=? maxResponseBytes in
  mkEnvelope event now
    (mkEventData (aj_ID job) (aj_RequestType job) (Status job) (StatusCode job) (Some (aj_CreatedAt job)) (CompletedAt job)
       (default "" (AsyncResultPath (aj_RequestType job) (aj_ID job))) (ExpiresAt job)
       (if inlined (Response job) && fits (Response job) then Some (Response job) else None)
       (inlined (Response job) && negb (fits (Response job)))
       (if inlined (aj_Error job) && fits (aj_Error job) then Some (aj_Error job) else None)
       (inlined (aj_Error job) && negb (fits (aj_Error job)))
       false).

(** The envelope that [renderExpiredPayload] marshals. *)
Definition expiredPayloadOf (job : TableWebhookJob) (now : Time) : eventEnvelope :=
  mkEnvelope (Event job) now
    (mkEventData (AsyncJobID job) "" (statusForEvent (Event job)) 0 None None "" None None false None false true).

(** ** One request to a receiver (client.go, signer.go) *)

Record attemptResult := mkResult { statusCode : Z; errText : string }.

Record HttpRequest := mkHttpRequest { hr_URL : string; hr_Headers : list (string * string); hr_Body : string; hr_Private : bool }.

Section Client.
(** [url.Parse], the scheme of the URL; base64, HMAC-SHA256, [time.Unix]; the
    HTTP client, which answers a status and the text kept for the history, or
    the error of the transport. *)
Variable parseScheme : string -> option string.
Variable base64Decode : string -> option string.
Variable base64Encode : string -> string.
Variable hmacSHA256 : string -> string -> string.
Variable send : HttpRequest -> result string (Z * string).

(** [strings.TrimPrefix]. *)
Definition TrimPrefix (s p : string) : string := if HasPrefix s p then str_drop (String.length p) s else s.

Definition secretPrefix : string := "whsec_".

Definition decodeSecret (secret : string) : result string string :=
  if bool_decide (secret = "") then Err "webhook signing secret is empty"
  else match base64Decode (TrimPrefix secret secretPrefix) with
       | None => Err "invalid webhook signing secret"
       | Some key =>
           let n := Z.of_nat (String.length key) in
           if (n <? 24) || (64 <? n) then Err "webhook signing secret must decode to 24-64 bytes" else Ok key
       end.

Definition unixSeconds (t : Time) : Z := t / Second.

Definition signedContent (webhookID : string) (timestamp : Time) (body : string) : string :=
  (webhookID ++ "." ++ Itoa (unixSeconds timestamp) ++ "." ++ body)%string.

Definition Sign (secret webhookID : string) (timestamp : Time) (body : string) : result string string :=
  match decodeSecret secret with
  | Err e => Err e
  | Ok key => Ok ("v1," ++ base64Encode (hmacSHA256 key (signedContent webhookID timestamp body)))%string
  end.

(** [req.Header.Set]: names are compared in canonical form, here by case. *)
Definition headerSet (h : list (string * string)) (name value : string) : list (string * string) :=
  base.filter (fun p => ToLower p.1 <> ToLower name) h ++ [(name, value)].

Definition customHeaders (endpoint : TableWebhookEndpoint) : list (string * string) :=
  foldl (fun h p => if IsProtectedWebhookHeader p.1 then h else headerSet h p.1 p.2) [] (Headers endpoint).

(** The headers of the delivery itself, set after the custom ones. *)
Definition reservedHeaders (event : WebhookEvent) (webhookID : string) (timestamp : Time) (signature : string) : list (string * string) :=
  [("Content-Type", "application/json"); ("User-Agent", "Bifrost-Webhooks/1.0"); ("webhook-id", webhookID);
   ("webhook-timestamp", Itoa (unixSeconds timestamp)); ("webhook-signature", signature); ("X-Bifrost-Event", event)].

Definition deliver (endpoint : TableWebhookEndpoint) (event : WebhookEvent) (webhookID body : string) (timestamp : Time) : option HttpRequest * attemptResult :=
  match parseScheme (URL endpoint) with
  | None => (None, mkResult 0 "invalid webhook URL scheme")
  | Some scheme =>
      if negb (bool_decide (scheme = "http")) && negb (bool_decide (scheme = "https")) then (None, mkResult 0 "invalid webhook URL scheme")
      else if bool_decide (scheme = "http") && negb (AllowPrivateNetwork endpoint)
           then (None, mkResult 0 "https is required unless allow_private_network is set")
      else match Sign (default "" (Secret endpoint)) webhookID timestamp body with
           | Err e => (None, mkResult 0 ("cannot sign delivery: " ++ e))
           | Ok signature =>
               let req := mkHttpRequest (URL endpoint)
                 (foldl (fun h p => headerSet h p.1 p.2) (customHeaders endpoint) (reservedHeaders event webhookID timestamp signature))
                 body (AllowPrivateNetwork endpoint) in
               (Some req,
                match send req with
                | Err e => mkResult 0 e
                | Ok (code, snippet) =>
                    if (200 <=? code) && (code <? 300) then mkResult code ""
                    else mkResult code ("receiver responded " ++ Itoa code ++ ": " ++ snippet)
                end)
           end
  end.
End Client.

Inductive WebhookDeliveryOutcome :=
| OutcomeDelivered | OutcomeRetryableFailure | OutcomePermanentFailure | OutcomeExhausted.

#[export] Instance WebhookDeliveryOutcome_eq_dec : EqDecision WebhookDeliveryOutcome.
Proof. solve_decision. Defined.

Definition classify (r : attemptResult) : WebhookDeliveryOutcome :=
  if (200 <=? statusCode r) && (statusCode r <? 300) then OutcomeDelivered
  else if (statusCode r =? 0) || (statusCode r =? 408) || (statusCode r =? 429) || (500 <=? statusCode r)
       then OutcomeRetryableFailure
  else OutcomePermanentFailure.

(** ** The dispatcher of a node (dispatcher.go) *)

Record WebhookDelivery := mkDelivery {
  wd_ID : string;
  WebhookID : string;
  wd_EndpointID : string;
  wd_AsyncJobID : string;
  wd_RequestID : string;
  wd_Event : WebhookEvent;
  AttemptNo : Z;
  Outcome : WebhookDeliveryOutcome;
  wd_StatusCode : Z;
  wd_Error : string;
  wd_CreatedAt : Time;
  wd_ExpiresAt : option Time;
}.

Record Dispatcher := mkDispatcher { runnerID : string; historyRetention : Duration; perEndpoint : gmap string Z }.

Definition NewDispatcher (runnerID : string) (historyRetention : Duration) : Dispatcher :=
  mkDispatcher runnerID historyRetention ∅.

Notation Resolver := (gmap string TableWebhookEndpoint).

Definition concurrencyLimitFor (resolver : Resolver) (endpointID : string) : Z :=
  maxConcurrentDeliveries (tuningFor (resolver !! endpointID)).

Definition inFlight (d : Dispatcher) (endpointID : string) : Z := default 0 (perEndpoint d !! endpointID).

Definition reserveEndpointSlot (d : Dispatcher) (endpointID : string) (limit : Z) : bool * Dispatcher :=
  if limit <=? inFlight d endpointID then (false, d)
  else (true, mkDispatcher (runnerID d) (historyRetention d) (<[endpointID := inFlight d endpointID + 1]> (perEndpoint d))).

Definition releaseEndpointSlot (d : Dispatcher) (endpointID : string) : Dispatcher :=
  mkDispatcher (runnerID d) (historyRetention d)
    (if inFlight d endpointID <=? 1 then delete endpointID (perEndpoint d)
     else <[endpointID := inFlight d endpointID - 1]> (perEndpoint d)).

(** The jobs of a scan that start a delivery, and the slots they take. *)
Fixpoint dispatchJobs (resolver : Resolver) (jobs : list TableWebhookJob) (d : Dispatcher) : list TableWebhookJob * Dispatcher :=
  match jobs with
  | [] => ([], d)
  | job :: jobs =>
      let '(ok, d) := reserveEndpointSlot d (EndpointID job) (concurrencyLimitFor resolver (EndpointID job)) in
      let '(started, d) := dispatchJobs resolver jobs d in
      (if ok then job :: started else started, d)
  end.

Definition dispatchOnce (resolver : Resolver) (rows : list TableWebhookJob) (now : Time) (db : bool) (d : Dispatcher) : list TableWebhookJob * Dispatcher :=
  if db then dispatchJobs resolver (ListDueWebhookJobs rows now scanBatchSize) d else ([], d).

(** What [processDue] does before [attempt]: the claim, with the end of its
    lease when it is won. *)
Definition claim (d : Dispatcher) (q : Queue) (job : TableWebhookJob) (endpoint : option TableWebhookEndpoint) (now storeNow : Time) (db : bool) : option Time * Queue :=
  let leaseUntil := now + leaseOf (tuningFor endpoint) in
  match ClaimWebhookJob q (ID job) (runnerID d) leaseUntil storeNow db with
  | Ok (true, q) => (Some leaseUntil, q)
  | Ok (false, _) | Err _ => (None, q)
  end.

(** [FindAsyncJobByID]: the job, [ErrNotFound], or another error. *)
Inductive Found := FoundJob (job : AsyncJob) | FoundNothing | FindFailed.

(** What [attempt] hands to [finalize]. *)
Record Finalize := mkFinalize {
  attemptNo : Z;
  requestID : string;
  attemptOf : attemptResult;
  outcome : WebhookDeliveryOutcome;
  attemptNow : Time;
  touchCounters : bool;
}.

Section Dispatcher.
(** [json.Marshal]; the client. *)
Variable Marshal : eventEnvelope -> result string string.
Variable deliver : TableWebhookEndpoint -> WebhookEvent -> string -> string -> Time -> option HttpRequest * attemptResult.

(** The body of a delivery and the request id; [None] leaves the row claimed. *)
Definition bodyFor (job : TableWebhookJob) (endpoint : TableWebhookEndpoint) (tuning : endpointTuning) (now : Time) (found : Found) : option (string * result string string) :=
  if negb (bool_decide (PayloadJSON job = "")) then Some (""%string, Ok (PayloadJSON job))
  else match found with
       | FoundJob a => Some (RequestID a, Marshal (payloadOf a (Event job) (IncludeResponse endpoint) (maxResponsePayloadBytes tuning) now))
       | FoundNothing => Some (""%string, Marshal (expiredPayloadOf job now))
       | FindFailed => None
       end.

(** [attempt] up to [finalize]: the request sent, if any, and [None] when the
    row is left claimed. *)
Definition attempt (job : TableWebhookJob) (endpoint : option TableWebhookEndpoint) (now : Time) (found : Found) : option HttpRequest * option Finalize :=
  let tuning := tuningFor endpoint in
  let no := AttemptCount job + 1 in
  let retired :=
    let fin rid := (None, Some (mkFinalize no rid (mkResult 0 "webhook endpoint deleted or disabled") OutcomePermanentFailure now false)) in
    match found with
    | FoundJob a => fin (RequestID a)
    | FoundNothing => fin ""%string
    | FindFailed => (None, None)
    end in
  match endpoint with
  | None => retired
  | Some e =>
      if Disabled e then retired
      else match bodyFor job e tuning now found with
           | None => (None, None)
           | Some (rid, Err err) =>
               (None, Some (mkFinalize no rid (mkResult 0 ("rendering payload failed: " ++ err)) OutcomePermanentFailure now false))
           | Some (rid, Ok body) =>
               let '(req, r) := deliver e (Event job) (ID job) body now in
               let o := match classify r with
                        | OutcomeRetryableFailure => if maxRetries tuning <? no then OutcomeExhausted else OutcomeRetryableFailure
                        | o => o
                        end in
               (req, Some (mkFinalize no rid r o now true))
           end
  end.
End Dispatcher.

(** The three parts of [finalize]: the history row, the queue row, the counters. *)
Definition historyRow (d : Dispatcher) (uuid : string) (job : TableWebhookJob) (f : Finalize) : WebhookDelivery :=
  mkDelivery uuid (ID job) (EndpointID job) (AsyncJobID job) (requestID f) (Event job) (attemptNo f) (outcome f)
    (statusCode (attemptOf f)) (errText (attemptOf f)) (attemptNow f) (Some (attemptNow f + historyRetention d)).

Definition settleQueue (jitter : Z -> Z) (d : Dispatcher) (q : Queue) (job : TableWebhookJob) (tuning : endpointTuning) (f : Finalize) (leaseUntil : Time) (db : bool) : result QueueError Queue :=
  match outcome f with
  | OutcomeRetryableFailure =>
      RescheduleWebhookJob q (ID job) (runnerID d) leaseUntil (attemptNow f + retryBackoff jitter (attemptNo f) tuning) db
  | _ => DeleteWebhookJob q (ID job) (runnerID d) leaseUntil db
  end.

Definition settleCounters (c : gmap string Counters) (job : TableWebhookJob) (f : Finalize) (now : Time) (db : bool) : gmap string Counters :=
  if negb (touchCounters f) then c
  else match outcome f with
       | OutcomeDelivered => match RecordWebhookEndpointSuccess c (EndpointID job) now db with Ok c => c | Err _ => c end
       | _ => match RecordWebhookEndpointFailure c (EndpointID job) now db with Ok (_, c) => c | Err _ => c end
       end.

(** ** Queueing deliveries *)

(** [insertWebhookJob], the loop of [EnqueueJobEvent] too: whether the row was
    queued or was there, and the inserts that were tried.  [create i] is the
    answer of the [i]-th insert. *)
Fixpoint insertLoop (create : nat -> option QueueError) (n i : nat) (last : option QueueError) : option QueueError * nat :=
  match n with
  | O => (last, i)
  | S n => match create i with
              | None => (None, S i)
              | Some ErrAlreadyExists => (None, S i)
              | Some err => insertLoop create n (S i) (Some err)
              end
  end.

Definition insertWebhookJob (create : nat -> option QueueError) : option QueueError * nat :=
  insertLoop create enqueueAttempts 0 None.

(** The endpoint a delivery may be queued for. *)
Definition enqueueTarget (resolver : Resolver) (endpointID : string) (event : WebhookEvent) : option TableWebhookEndpoint :=
  endpoint ← resolver !! endpointID;
  if Disabled endpoint || negb (subscribesTo endpoint event) then None else Some endpoint.

(** [EnqueueJobEvent]: the job it inserts. *)
Definition EnqueueJobEvent (resolver : Resolver) (uuid : string) (job : option AsyncJob) : option TableWebhookJob :=
  job ← job;
  endpointID ← WebhookEndpointID job;
  event ← EventForJobStatus (Status job);
  endpoint ← enqueueTarget resolver endpointID event;
  Some (newJob uuid (we_ID endpoint) (aj_ID job) event "").

(** [EnqueueAlertEvent] and [EnqueueBudgetExceeded] with a rendered body: the
    jobs they insert, one per endpoint of the list that takes the event. *)
Definition enqueueRendered (resolver : Resolver) (uuids : nat -> string) (asyncJobID : string) (event : WebhookEvent) (body : string) (endpointIDs : list string) : list TableWebhookJob :=
  omap (fun p => endpoint ← enqueueTarget resolver p.2 event;
                 Some (newJob (uuids p.1) (we_ID endpoint) asyncJobID event body))
       (imap pair endpointIDs).

Definition EnqueueBudgetExceeded (resolver : Resolver) (uuids : nat -> string) (body : string) (endpointIDs : list string) : list TableWebhookJob :=
  enqueueRendered resolver uuids "budget.exceeded" WebhookEventBudgetExceeded body endpointIDs.

(** How many of the jobs are counted as queued. *)
Definition queuedCount (create : string -> nat -> option QueueError) (jobs : list TableWebhookJob) : nat :=
  length (base.filter (fun j => fst (insertWebhookJob (create (ID j))) = None) jobs).

Definition EndpointIDsForEvent (endpoints : list TableWebhookEndpoint) (event : WebhookEvent) : list string :=
  SortStrings (we_ID <$> base.filter (fun e => we_ID e <> "" /\ Disabled e = false /\ subscribesTo e event = true) endpoints).

(** [redeliverWebhook] (src/transports/celer-route-http/handlers/webhooks.go):
    the job it inserts for a row of the history. *)
Definition redeliverWebhook (resolver : Resolver) (delivery : WebhookDelivery) : option TableWebhookJob :=
  endpoint ← resolver !! wd_EndpointID delivery;
  if Disabled endpoint then None
  else Some (newJob (WebhookID delivery) (wd_EndpointID delivery) (wd_AsyncJobID delivery) (wd_Event delivery) "").

End Webhooks.
