(* ===== verification/WebhookNetwork.v ===== *)
(** * The nodes that deliver webhooks, as a transition system

    Several dispatchers work on one queue.  A delivery goroutine ([processDue],
    here a flight) goes through its claim, its attempt and the three parts of
    [finalize], each one step; between any two of its steps the others may do
    anything, and it can panic, be left behind by a storage error, or vanish
    with its node; and the history is reaped.  Clock readings are labels: a
    goroutine does not read a time before its own claim; no other clocks agree. *)

From S2P Require Import Prelude GoStrings Schemas Calendar Webhooks.

Local Open Scope string_scope.
Local Open Scope Z_scope.
Local Open Scope list_scope.

Module WebhookNetwork.
Import Schemas Calendar Webhooks.

(** A claim that was won: the endpoint as it was resolved, the end of the lease,
    and the clock reading of the claim. *)
Record Claim := mkClaim { c_endpoint : option TableWebhookEndpoint; c_lease : Time; c_at : Time }.

Inductive Phase :=
| Listed
| Claimed (c : Claim)
| Finalizing (c : Claim) (f : Finalize)
| Recorded (c : Claim) (f : Finalize)
| Settled (f : Finalize).

Record Flight := mkFlight { f_node : nat; f_job : TableWebhookJob; f_phase : Phase }.

(** [accepted] lists the ids of the rows that were inserted, [claims] is the
    last flight that claimed an id, with its clock reading, and [reaped] holds
    what was deleted from the history, with the clock of the deletion. *)
Record Network := mkNetwork {
  queue : Queue;
  history : list WebhookDelivery;
  counters : gmap string Counters;
  nodes : gmap nat Dispatcher;
  flights : gmap nat Flight;
  requests : list HttpRequest;
  accepted : list string;
  claims : gmap string (nat * Time);
  reaped : list (WebhookDelivery * Time);
}.

Definition initial (c : gmap string Counters) : Network := mkNetwork ∅ [] c ∅ ∅ [] [] ∅ [].

Definition setQueue (s : Network) (q : Queue) : Network :=
  mkNetwork q (history s) (counters s) (nodes s) (flights s) (requests s) (accepted s) (claims s) (reaped s).

Definition setPhase (s : Network) (f : nat) (fl : Flight) (p : Phase) : Network :=
  mkNetwork (queue s) (history s) (counters s) (nodes s) (<[f := mkFlight (f_node fl) (f_job fl) p]> (flights s))
            (requests s) (accepted s) (claims s) (reaped s).

(** The deferred calls of the goroutine. *)
Definition endFlight (s : Network) (f : nat) (fl : Flight) : Network :=
  mkNetwork (queue s) (history s) (counters s)
    (alter (fun d => releaseEndpointSlot d (EndpointID (f_job fl))) (f_node fl) (nodes s))
    (delete f (flights s)) (requests s) (accepted s) (claims s) (reaped s).

Inductive Label :=
| LStart (n : nat) (runnerID : string) (historyRetention : Duration)
| LCrash (n : nat)
| LCreate (job : TableWebhookJob) (now : Time) (db : bool)
| LReap (now : Time) (ids : list string)
| LScan (n : nat) (resolver : Resolver) (order : list string) (now : Time) (db : bool) (fs : list nat)
| LClaim (f : nat) (endpoint : option TableWebhookEndpoint) (now storeNow : Time) (db : bool)
| LAttempt (f : nat) (now : Time) (found : Found) (answer : result string (Z * string))
| LHistory (f : nat) (uuid : string) (db : bool)
| LQueue (f : nat) (seed : Z) (db : bool)
| LCounters (f : nat) (now : Time) (db : bool)
| LPanic (f : nat).

Section Network.
(** [url.Parse], base64, HMAC-SHA256, [json.Marshal], and the truncation of
    [float64(b) * (0.8 + 0.4*rand)] for a state of the random source. *)
Variable parseScheme : string -> option string.
Variable base64Decode : string -> option string.
Variable base64Encode : string -> string.
Variable hmacSHA256 : string -> string -> string.
Variable Marshal : eventEnvelope -> result string string.
Variable jitter : Z -> Z -> Z.

Definition start (s : Network) (n : nat) (runnerID : string) (historyRetention : Duration) : option Network :=
  match nodes s !! n with
  | Some _ => None
  | None => Some (mkNetwork (queue s) (history s) (counters s) (<[n := NewDispatcher runnerID historyRetention]> (nodes s))
                    (flights s) (requests s) (accepted s) (claims s) (reaped s))
  end.

Definition crash (s : Network) (n : nat) : Network :=
  mkNetwork (queue s) (history s) (counters s) (delete n (nodes s))
    (filter (fun p => f_node p.2 <> n) (flights s)) (requests s) (accepted s) (claims s) (reaped s).

Definition create (s : Network) (job : TableWebhookJob) (now : Time) (db : bool) : option Network :=
  match CreateWebhookJob (queue s) job now db with
  | Ok q => Some (mkNetwork q (history s) (counters s) (nodes s) (flights s) (requests s) (ID job :: accepted s) (claims s) (reaped s))
  | Err _ => Some s
  end.

(** One batch of [DeleteExpiredWebhookDeliveries]: any rows that have expired. *)
Definition expiredAt (now : Time) (d : WebhookDelivery) : bool := match wd_ExpiresAt d with Some e => e <? now | None => false end.

Definition reapBatchLimit : nat := 100.

Definition reap (s : Network) (now : Time) (ids : list string) : option Network :=
  let gone d := expiredAt now d && bool_decide (wd_ID d ∈ ids) in
  let batch := filter (fun d => gone d = true) (history s) in
  if bool_decide (length batch <= reapBatchLimit)%nat then
    Some (mkNetwork (queue s) (filter (fun d => gone d = false) (history s)) (counters s) (nodes s) (flights s) (requests s) (accepted s) (claims s)
            (reaped s ++ ((fun d => (d, now)) <$> batch)))
  else None.

(** The flights a scan starts, at the given fresh numbers. *)
Fixpoint launch (n : nat) (fs : list nat) (jobs : list TableWebhookJob) (m : gmap nat Flight) : option (gmap nat Flight) :=
  match fs, jobs with
  | [], [] => Some m
  | f :: fs, job :: jobs =>
      match m !! f with
      | Some _ => None
      | None => launch n fs jobs (<[f := mkFlight n job Listed]> m)
      end
  | _, _ => None
  end.

(** [order] names every row once, in the order the database meets them. *)
Definition scan (s : Network) (n : nat) (resolver : Resolver) (order : list string) (now : Time) (db : bool) (fs : list nat) : option Network :=
  match nodes s !! n with
  | None => None
  | Some d =>
      if bool_decide (NoDup order) && bool_decide (list_to_set order = dom (queue s)) then
        let '(started, d) := dispatchOnce resolver (omap (fun id => queue s !! id) order) now db d in
        match launch n fs started (flights s) with
        | None => None
        | Some m => Some (mkNetwork (queue s) (history s) (counters s) (<[n := d]> (nodes s)) m (requests s) (accepted s) (claims s) (reaped s))
        end
      else None
  end.

Definition claimStep (s : Network) (f : nat) (fl : Flight) (d : Dispatcher) (endpoint : option TableWebhookEndpoint) (now storeNow : Time) (db : bool) : Network :=
  match claim d (queue s) (f_job fl) endpoint now storeNow db with
  | (None, _) => endFlight s f fl
  | (Some lease, q) =>
      let s := setPhase (setQueue s q) f fl (Claimed (mkClaim endpoint lease storeNow)) in
      mkNetwork (queue s) (history s) (counters s) (nodes s) (flights s) (requests s) (accepted s)
                (<[ID (f_job fl) := (f, storeNow)]> (claims s)) (reaped s)
  end.

Definition attemptStep (s : Network) (f : nat) (fl : Flight) (c : Claim) (now : Time) (found : Found) (answer : result string (Z * string)) : Network :=
  let '(req, fin) :=
    attempt Marshal (deliver parseScheme base64Decode base64Encode hmacSHA256 (fun _ => answer)) (f_job fl) (c_endpoint c) now found in
  let s := mkNetwork (queue s) (history s) (counters s) (nodes s) (flights s) (requests s ++ option_list req) (accepted s) (claims s) (reaped s) in
  match fin with
  | None => endFlight s f fl
  | Some fin => setPhase s f fl (Finalizing c fin)
  end.

Definition historyStep (s : Network) (f : nat) (fl : Flight) (d : Dispatcher) (c : Claim) (fin : Finalize) (uuid : string) (db : bool) : Network :=
  if negb db then endFlight s f fl
  else
    let s := setPhase s f fl (Recorded c fin) in
    mkNetwork (queue s) (history s ++ [historyRow d uuid (f_job fl) fin]) (counters s) (nodes s) (flights s) (requests s) (accepted s) (claims s) (reaped s).

(** An error of the queue is logged and ignored. *)
Definition queueStep (s : Network) (f : nat) (fl : Flight) (d : Dispatcher) (c : Claim) (fin : Finalize) (seed : Z) (db : bool) : Network :=
  let q := match settleQueue (jitter seed) d (queue s) (f_job fl) (tuningFor (c_endpoint c)) fin (c_lease c) db with
           | Ok q => q
           | Err _ => queue s
           end in
  setPhase (setQueue s q) f fl (Settled fin).

Definition countersStep (s : Network) (f : nat) (fl : Flight) (fin : Finalize) (now : Time) (db : bool) : Network :=
  endFlight (mkNetwork (queue s) (history s) (settleCounters (counters s) (f_job fl) fin now db) (nodes s) (flights s)
                       (requests s) (accepted s) (claims s) (reaped s)) f fl.

(** A step of a flight, by its phase. *)
Definition flightStep (s : Network) (f : nat) (fl : Flight) (d : Dispatcher) (l : Label) : option Network :=
  match f_phase fl, l with
  | Listed, LClaim _ endpoint now storeNow db => Some (claimStep s f fl d endpoint now storeNow db)
  | Claimed c, LAttempt _ now found answer =>
      if c_at c <=? now then Some (attemptStep s f fl c now found answer) else None
  | Finalizing c fin, LHistory _ uuid db => Some (historyStep s f fl d c fin uuid db)
  | Recorded c fin, LQueue _ seed db => Some (queueStep s f fl d c fin seed db)
  | Settled fin, LCounters _ now db => Some (countersStep s f fl fin now db)
  | _, LPanic _ => Some (endFlight s f fl)
  | _, _ => None
  end.

Definition flightOf (l : Label) : option nat :=
  match l with
  | LClaim f _ _ _ _ | LAttempt f _ _ _ | LHistory f _ _ | LQueue f _ _ | LCounters f _ _ | LPanic f => Some f
  | _ => None
  end.

Definition step (s : Network) (l : Label) : option Network :=
  match l with
  | LStart n runner retention => start s n runner retention
  | LCrash n => Some (crash s n)
  | LCreate job now db => create s job now db
  | LReap now ids => reap s now ids
  | LScan n resolver order now db fs => scan s n resolver order now db fs
  | _ =>
      f ← flightOf l;
      fl ← flights s !! f;
      d ← nodes s !! f_node fl;
      flightStep s f fl d l
  end.

Fixpoint run (s : Network) (ls : list Label) : option Network :=
  match ls with
  | [] => Some s
  | l :: ls => s ← step s l; run s ls
  end.
End Network.
End WebhookNetwork.
