(* ===== verification/WebhooksTheory.v ===== *)
(** * Theorems about webhook deliveries

    The wait before a retry, what a request to a receiver carries, and, over
    all interleavings of [WebhookNetwork], that an accepted delivery is not
    lost and that only the last claim of a delivery can move it. *)

From S2P Require Import Prelude GoStrings Schemas Calendar Webhooks WebhookNetwork.

Local Open Scope string_scope.
Local Open Scope Z_scope.
Local Open Scope list_scope.

Module WebhooksTheory.
Import Schemas Calendar Webhooks WebhookNetwork.

(** ** The wait before a retry *)

(** The backoffs of a tuning are positive and fit a [Duration], the maximum
    with room for the jitter. *)
Definition tuned (t : endpointTuning) : Prop :=
  0 < retryBackoffInitial t < two63 /\ 0 < retryBackoffMax t <= 2 ^ 62.

(** Seconds of which that holds, as an endpoint's knobs. *)
Definition fits (e : TableWebhookEndpoint) : Prop :=
  RetryBackoffInitialSeconds e * Second < two63 /\ RetryBackoffMaxSeconds e * Second <= 2 ^ 62.

Lemma orDefault_tuned set d top :
  top < two63 -> set * Second <= top -> 0 < d <= top -> 0 < orDefault set (wrap64 (set * Second)) d <= top.
Proof.
  unfold orDefault, two63, Second. intros Ht H1 H2. case_match; [|done].
  rewrite wrap64_id; [lia|unfold in_int64, two63; lia].
Qed.

Lemma tuningFor_tuned endpoint : (forall e, endpoint = Some e -> fits e) -> tuned (tuningFor endpoint).
Proof.
  intros Hf. destruct endpoint as [e|]; [|by vm_compute].
  destruct (Hf e eq_refl) as [H1 H2]. split; cbn.
  - pose proof (orDefault_tuned (RetryBackoffInitialSeconds e) defaultRetryBackoffInitial (two63 - 1)) as H.
    assert (0 < defaultRetryBackoffInitial <= two63 - 1) by (split; vm_compute; (done || discriminate)). lia.
  - apply orDefault_tuned; [by vm_compute|done|split; vm_compute; (done || discriminate)].
Qed.

Lemma doubleBackoff_spec M n b :
  0 < M < two63 -> 0 < b < two63 -> doubleBackoff M n b `min` M = (b * 2 ^ Z.of_nat n) `min` M.
Proof.
  intros HM. revert b. induction n as [|n IH]; intros b Hb; cbn [doubleBackoff].
  { f_equal. cbn. lia. }
  assert (0 < 2 ^ Z.of_nat n) by (apply Z.pow_pos_nonneg; lia).
  rewrite Nat2Z.inj_succ, Z.pow_succ_r by lia.
  destruct (Z.ltb_spec b M); [|nia].
  destruct (Z.ltb_spec (Z.quot M 2) b) as [Hq|Hq].
  { rewrite Z.quot_div_nonneg in Hq by lia. assert (M <= 2 * b) by (pose proof (Z.div_mod M 2); pose proof (Z.mod_pos_bound M 2); lia). nia. }
  rewrite Z.quot_div_nonneg in Hq by lia. assert (2 * b <= M) by (pose proof (Z.div_mod M 2); pose proof (Z.mod_pos_bound M 2); lia).
  rewrite wrap64_id by (unfold in_int64; unfold two63 in *; lia).
  rewrite IH by lia. f_equal. lia.
Qed.

(** What rounding may change: a nanosecond, and in [float64] the last bits. *)
Definition slack (b : Z) : Z := 5 + b / 2 ^ 48.

(** A source of jitter within a fifth, up to rounding, for backoffs whose jitter
    fits a [Duration]. *)
Definition withinFifth (j : Z -> Z) : Prop :=
  forall b, 0 <= b <= 2 ^ 62 -> 4 * b - slack b <= 5 * j b <= 6 * b + slack b /\ 0 <= j b.

Lemma retryBackoff_nonneg j no t : (forall b, 0 <= b <= 2 ^ 62 -> 0 <= j b) -> tuned t -> 0 <= retryBackoff j no t.
Proof.
  intros Hj [Hi HM]. unfold retryBackoff. rewrite doubleBackoff_spec by (unfold two63 in *; lia).
  assert (0 < 2 ^ Z.of_nat (Z.to_nat (no - 1))) by (apply Z.pow_pos_nonneg; lia).
  assert (0 <= j ((retryBackoffInitial t * 2 ^ Z.of_nat (Z.to_nat (no - 1))) `min` retryBackoffMax t)) by (apply Hj; nia).
  lia.
Qed.

(** C32. The wait before a retry: never above the effective maximum; and for an
    endpoint whose initial backoff fits a [Duration] (in nanoseconds below 2^63)
    and whose maximum is at most 2^62 nanoseconds (some 146 years), or that sets
    none, the stepwise doubling computes the initial backoff times two to the
    number of earlier retries, capped at the maximum, for every retry number:
    the wait is not negative and within a fifth of that, up to rounding.  A
    maximum of 2^63 to 2^64 nanoseconds wraps: the wait is negative.  The jitter
    is assumed to be within a fifth up to rounding, as Go's is to 2^62. *)
Theorem retryBackoff_spec j endpoint no :
  withinFifth j -> 1 <= no ->
  let t := tuningFor endpoint in
  let b := (retryBackoffInitial t * 2 ^ (no - 1)) `min` retryBackoffMax t in
  retryBackoff j no t <= retryBackoffMax t /\
  ((forall e, endpoint = Some e -> fits e) ->
   0 < b /\ 0 <= retryBackoff j no t /\ 4 * b - slack b <= 5 * retryBackoff j no t <= 6 * b + slack b) /\
  (forall e, endpoint = Some e -> two63 <= RetryBackoffMaxSeconds e * Second < two64 -> retryBackoff j no t < 0).
Proof.
  intros Hj Hno t b. assert (Hmax : retryBackoff j no t <= retryBackoffMax t) by (unfold retryBackoff; lia).
  split; [exact Hmax|]. split.
  - intros Hf. destruct (tuningFor_tuned endpoint Hf) as [Hi HM]. fold t in Hi, HM.
    assert (0 < 2 ^ (no - 1)) by (apply Z.pow_pos_nonneg; lia).
    assert (Hb : 0 < b) by (subst b; nia).
    assert (E : retryBackoff j no t = j b `min` retryBackoffMax t).
    { unfold retryBackoff. rewrite doubleBackoff_spec, Z2Nat.id by (done || unfold two63 in *; lia). done. }
    assert (b <= retryBackoffMax t) by (subst b; lia). specialize (Hj b). rewrite E.
    assert (0 <= slack b) by (unfold slack; pose proof (Z.div_pos b (2 ^ 48)); lia). lia.
  - intros e -> Hw. assert (retryBackoffMax t < 0); [|lia]. subst t. cbn. unfold orDefault. case_match.
    + unfold wrap64, two63, two64 in *. Z.to_euclidean_division_equations. lia.
    + unfold two63, Second in *. lia.
Qed.

Lemma retryBackoff_spec_witness :
  0 <= retryBackoff (fun b => b) 3 (tuningFor None) <= 30 * Minute.
Proof.
  destruct (retryBackoff_spec (fun b => b) None 3) as (H1 & H2 & _).
  - intros b Hb. unfold slack. pose proof (Z.div_pos b (2 ^ 48)). lia.
  - lia.
  - destruct H2 as (_ & H2 & _); [done|]. split; [exact H2|exact H1].
Defined.

(** ** What is sent to a receiver *)

(** The values a header has, whatever the case of its name. *)
Definition headerValues (h : list (string * string)) (name : string) : list string :=
  snd <$> base.filter (fun p => ToLower p.1 = ToLower name) h.

Lemma headerValues_set h n v name :
  headerValues (headerSet h n v) name = if bool_decide (ToLower n = ToLower name) then [v] else headerValues h name.
Proof.
  unfold headerValues, headerSet. rewrite filter_app, fmap_app, list_filter_filter.
  case_bool_decide as E.
  - rewrite (filter_cons_True _ (n, v)) by done. rewrite filter_none; [done|].
    rewrite Forall_forall. intros p _ [H1 H2]. congruence.
  - rewrite (filter_cons_False _ (n, v)) by done. rewrite app_nil_r. f_equal. apply list_filter_iff. intros p.
    split; [tauto|]. intros Hp. split; [done|congruence].
Qed.

(** Whatever an endpoint is configured with, a request is only sent over https, or
    over http to an endpoint that allows private networks; it is signed with a
    key of 24 to 64 bytes decoded from the endpoint's secret, over exactly the
    id, the second and the body it carries; and custom headers, in any case,
    never change a header of the delivery. *)
Theorem delivery_request parse b64d b64e hmac send endpoint event id body ts req r :
  deliver parse b64d b64e hmac send endpoint event id body ts = (Some req, r) ->
  hr_URL req = URL endpoint /\ hr_Body req = body /\ hr_Private req = AllowPrivateNetwork endpoint /\
  (parse (URL endpoint) = Some "https" \/ parse (URL endpoint) = Some "http" /\ AllowPrivateNetwork endpoint = true) /\
  exists secret key, Secret endpoint = Some secret /\ b64d (TrimPrefix secret secretPrefix) = Some key /\
    24 <= Z.of_nat (String.length key) <= 64 /\
    headerValues (hr_Headers req) "webhook-id" = [id] /\
    headerValues (hr_Headers req) "webhook-timestamp" = [Itoa (unixSeconds ts)] /\
    headerValues (hr_Headers req) "webhook-signature" = ["v1," ++ b64e (hmac key (id ++ "." ++ Itoa (unixSeconds ts) ++ "." ++ body))]%string /\
    headerValues (hr_Headers req) "content-type" = ["application/json"] /\
    headerValues (hr_Headers req) "x-bifrost-event" = [event].
Proof.
  unfold deliver. destruct (parse (URL endpoint)) as [scheme|] eqn:Hs; [|done].
  destruct (negb _ && negb _) eqn:H1; [done|]. destruct (bool_decide (scheme = "http") && _) eqn:H2; [done|].
  unfold Sign, decodeSecret. destruct (bool_decide (default "" (Secret endpoint) = "")) eqn:Hsec; [done|].
  destruct (b64d _) as [key|] eqn:Hkey; [|done]. cbv zeta.
  destruct ((Z.of_nat (String.length key) <? 24) || (64 <? Z.of_nat (String.length key))) eqn:Hlen; [done|].
  intros [= <- _]. cbn [hr_URL hr_Body hr_Private hr_Headers]. split_and!; [done..| |].
  - apply andb_false_iff in H1, H2. rewrite !negb_false_iff in H1. rewrite negb_false_iff, bool_decide_eq_false in H2.
    rewrite !bool_decide_eq_true in H1. destruct H1 as [->| ->]; [right|by left]. by destruct H2.
  - destruct (Secret endpoint) as [secret|]; [|by vm_compute in Hsec]. exists secret, key. cbn in Hkey.
    apply orb_false_iff in Hlen. split_and!; try done; try lia; by rewrite !headerValues_set.
Qed.

Definition exampleEndpoint : TableWebhookEndpoint :=
  mkEndpoint "e" "https://receiver" (Some "whsec_0123456789abcdef01234567") [WebhookEventAsyncJobCompleted]
    [("X-Team", "a"); ("Webhook-ID", "forged")] false false 0 0 0 0 0 0 false.

Lemma delivery_request_witness :
  headerValues (hr_Headers (default (mkHttpRequest "" [] "" true)
    (fst (deliver (fun _ => Some "https") Some (fun s => s) (fun k s => s) (fun _ => Ok (200, "")) exampleEndpoint
            WebhookEventAsyncJobCompleted "w" "{}" 0)))) "webhook-id" = ["w"].
Proof.
  destruct (deliver (fun _ => Some "https") Some (fun s => s) (fun k s => s) (fun _ => Ok (200, "")) exampleEndpoint
            WebhookEventAsyncJobCompleted "w" "{}" 0) as [[req|] r] eqn:E; [|by vm_compute in E].
  cbn. destruct (delivery_request _ _ _ _ _ _ _ _ _ _ _ _ E) as (_ & _ & _ & _ & ? & ? & _ & _ & _ & H & _). exact H.
Defined.

(** ** Claims over all interleavings *)

(** The claim a flight still acts on: until its queue row is settled. *)
Definition claimOf (p : Phase) : option Claim :=
  match p with Claimed c | Finalizing c _ | Recorded c _ => Some c | Listed | Settled _ => None end.

(** The end of a lease as the queue keeps it. *)
Definition expiry (c : Claim) : Time := normalizeLeaseTime (c_lease c).

Record Holder := mkHolder { h_id : string; h_claim : Claim; h_runner : string }.

(** The delivery a flight has claimed, its claim, and the runner it claims for. *)
Definition holding (s : Network) (f : nat) : option Holder :=
  fl ← flights s !! f; c ← claimOf (f_phase fl); d ← nodes s !! f_node fl;
  Some (mkHolder (ID (f_job fl)) c (runnerID d)).

(** What the fence rests on: leases end after their claims, the claims of one
    delivery follow each other's leases, and a row is claimed by its last claim
    or is due no earlier than that. *)
Record Fenced (q : Queue) (cl : gmap string (nat * Time)) (p : nat -> option Holder) : Prop := {
  fenced_lease : forall f h, p f = Some h -> c_at (h_claim h) < expiry (h_claim h);
  fenced_last : forall f h, p f = Some h -> exists g t, cl !! h_id h = Some (g, t) /\
    (f = g /\ c_at (h_claim h) = t \/ f <> g /\ expiry (h_claim h) < t);
  fenced_pair : forall f h f' h', p f = Some h -> p f' = Some h' -> f <> f' -> h_id h = h_id h' ->
    expiry (h_claim h) < c_at (h_claim h') \/ expiry (h_claim h') < c_at (h_claim h);
  fenced_row : forall id j g (t : Time), q !! id = Some j -> cl !! id = Some (g, t) ->
    match ClaimedUntil j with None => t <= NextAttemptAt j | Some l => t < l end;
  fenced_holder : forall id g t h, cl !! id = Some (g, t) -> p g = Some h -> h_id h = id ->
    exists j, q !! id = Some j /\ ClaimedUntil j = Some (expiry (h_claim h)) /\ ClaimedBy j = h_runner h;
}.

Lemma fenced_mono q cl p p' :
  (forall f h, p' f = Some h -> p f = Some h) -> Fenced q cl p -> Fenced q cl p'.
Proof.
  intros Hp [H1 H2 H3 H4 H5]. split; [..|done|]; intros *.
  - intros H. by apply (H1 f), Hp.
  - intros H. by apply H2, Hp.
  - intros H H'. by eapply H3; apply Hp.
  - intros H H' E. by eapply H5; [|apply Hp|].
Qed.

(** Every lease of a delivery has ended when its row can be claimed. *)
Lemma fenced_due q cl p id j now f h :
  Fenced q cl p -> q !! id = Some j -> due now j = true -> p f = Some h -> h_id h = id -> expiry (h_claim h) < now.
Proof.
  intros F Hj Hdue Hf Hid. unfold due in Hdue. apply andb_true_iff in Hdue as [Hnext Hl].
  destruct (fenced_last _ _ _ F f h Hf) as (g & t & Hg & Hor). rewrite Hid in Hg.
  pose proof (fenced_row _ _ _ F id j g t Hj Hg) as Hrow.
  destruct Hor as [[-> Ht]|[_ Ht]].
  - destruct (fenced_holder _ _ _ F id g t h Hg Hf Hid) as (j' & Hj' & Hc & _).
    assert (j' = j) as -> by congruence. rewrite Hc in Hl. lia.
  - destruct (ClaimedUntil j); lia.
Qed.

Lemma fenced_claim q cl p id j now f c r :
  Fenced q cl p -> q !! id = Some j -> due now j = true -> p f = None -> c_at c = now -> now < expiry c ->
  Fenced (<[id := claimRow r (expiry c) j]> q) (<[id := (f, now)]> cl)
         (fun x => if decide (x = f) then Some (mkHolder id c r) else p x).
Proof.
  intros F Hj Hdue Hf Hat Hlt.
  assert (Hold : forall x h, p x = Some h -> h_id h = id -> expiry (h_claim h) < now) by eauto using fenced_due.
  pose proof F as [H1 H2 H3 H4 H5]. split.
  - intros x h. case_decide; [intros [= <-]; cbn; lia|apply H1].
  - intros x h. case_decide as Hx.
    { intros [= <-]. cbn. rewrite lookup_insert_eq. exists f, now. auto. }
    intros Hp. destruct (decide (h_id h = id)) as [Hid|Hid].
    + rewrite Hid, lookup_insert_eq. exists f, now. split; [done|]. right. split; [congruence|eauto].
    + rewrite lookup_insert_ne by congruence. eauto.
  - intros x h x' h'. repeat case_decide; subst; try congruence.
    + intros [= <-] Hp _ Hid. right. cbn in *. eauto.
    + intros Hp [= <-] _ Hid. left. cbn in *. eauto.
    + eauto.
  - intros i j' g t. destruct (decide (i = id)) as [->|Hi].
    + rewrite !lookup_insert_eq. intros [= <-] [= <- <-]. cbn. lia.
    + rewrite !lookup_insert_ne by congruence. apply H4.
  - intros i g t h. destruct (decide (i = id)) as [->|Hi].
    + rewrite !lookup_insert_eq. intros [= -> ->]. case_decide; [|done]. intros [= <-] _. cbn. eauto.
    + rewrite !lookup_insert_ne by congruence. intros Hg. case_decide; [intros [= <-] <-; done|]. by eapply H5.
Qed.

(** Only the last claim of a delivery matches its row. *)
Lemma fenced_owner q cl p id j f h :
  Fenced q cl p -> p f = Some h -> h_id h = id -> q !! id = Some j -> ClaimedUntil j = Some (expiry (h_claim h)) ->
  cl !! id = Some (f, c_at (h_claim h)).
Proof.
  intros F Hf Hid Hj Hc. destruct (fenced_last _ _ _ F f h Hf) as (g & t & Hg & Hor). rewrite Hid in Hg.
  pose proof (fenced_row _ _ _ F id j g t Hj Hg) as Hrow. rewrite Hc in Hrow.
  destruct Hor as [[-> Ht]|[_ Ht]]; [congruence|lia].
Qed.

(** The last claim leaves its row: rescheduled, or deleted. *)
Lemma fenced_release q cl p id j f h next :
  Fenced q cl p -> p f = Some h -> h_id h = id -> q !! id = Some j -> ClaimedUntil j = Some (expiry (h_claim h)) ->
  c_at (h_claim h) <= next ->
  let p' := fun x => if decide (x = f) then None else p x in
  Fenced (<[id := rescheduleRow next j]> q) cl p' /\ Fenced (delete id q) cl p'.
Proof.
  intros F Hf Hid Hj Hc Hnext p'.
  pose proof (fenced_owner _ _ _ _ _ _ _ F Hf Hid Hj Hc) as Hlast.
  assert (Fenced q cl p') as [H1 H2 H3 H4 H5].
  { eapply fenced_mono; [|exact F]. intros x h'. unfold p'. by case_decide. }
  assert (Hrest : forall i g t h', cl !! i = Some (g, t) -> p' g = Some h' -> i <> id).
  { intros i g t h' Hg Hp ->. unfold p' in Hp. case_decide; [done|]. congruence. }
  split; (split; [done|done|done| |]).
  - intros i j' g t. destruct (decide (i = id)) as [->|Hi].
    + rewrite lookup_insert_eq. intros [= <-] Hg. cbn. rewrite Hlast in Hg. by injection Hg as <- <-.
    + rewrite lookup_insert_ne by congruence. apply H4.
  - intros i g t h' Hg Hp Hi. assert (id <> i) by (intros <-; by eapply Hrest). rewrite lookup_insert_ne by done. by eapply H5.
  - intros i j' g t. intros [_ Hi]%lookup_delete_Some. by apply H4.
  - intros i g t h' Hg Hp Hi. assert (id <> i) by (intros <-; by eapply Hrest). rewrite lookup_delete_ne by done. by eapply H5.
Qed.

Lemma fenced_create q cl p id j :
  Fenced q cl p -> q !! id = None -> ClaimedUntil j = None ->
  (forall g (t : Time), cl !! id = Some (g, t) -> t <= NextAttemptAt j) ->
  Fenced (<[id := j]> q) cl p.
Proof.
  intros [H1 H2 H3 H4 H5] Hid Hc Hnext. split; [done|done|done| |].
  - intros i j' g t. destruct (decide (i = id)) as [->|Hi].
    + rewrite lookup_insert_eq. intros [= <-] Hg. rewrite Hc. eauto.
    + rewrite lookup_insert_ne by congruence. apply H4.
  - intros i g t h' Hg Hp Hi. destruct (H5 i g t h' Hg Hp Hi) as (j' & Hj' & ?).
    rewrite lookup_insert_ne by congruence. eauto.
Qed.

(** ** The invariant of the network *)

Record Inv (s : Network) : Prop := {
  inv_fenced : Fenced (queue s) (claims s) (holding s);
  inv_node : forall f fl, flights s !! f = Some fl -> is_Some (nodes s !! f_node fl);
  inv_time : forall f fl c fin, flights s !! f = Some fl -> f_phase fl = Finalizing c fin \/ f_phase fl = Recorded c fin ->
    c_at c <= attemptNow fin;
  inv_tuned : forall f fl c, flights s !! f = Some fl -> claimOf (f_phase fl) = Some c -> tuned (tuningFor (c_endpoint c));
}.

(** A flight goes on with the claim it had, for the same runner. *)
Definition goesOn (s s' : Network) (f : nat) (fl' : Flight) : Prop :=
  exists fl, flights s !! f = Some fl /\ f_node fl' = f_node fl /\ f_job fl' = f_job fl /\
    claimOf (f_phase fl') = claimOf (f_phase fl) /\
    runnerID <$> nodes s' !! f_node fl = runnerID <$> nodes s !! f_node fl.

Lemma holding_goesOn s s' f fl' h :
  goesOn s s' f fl' -> flights s' !! f = Some fl' -> holding s' f = Some h -> holding s f = Some h.
Proof.
  intros (fl & Hf & Hn & Hjob & Hc & Hr) Hf'. unfold holding. rewrite Hf, Hf'. cbn. rewrite Hc, Hn, Hjob.
  destruct (claimOf (f_phase fl)); [|done]. cbn.
  destruct (nodes s' !! f_node fl), (nodes s !! f_node fl); cbn in *; congruence.
Qed.

Lemma inv_shrink s s' :
  Inv s -> queue s' = queue s -> claims s' = claims s ->
  (forall f fl', flights s' !! f = Some fl' -> is_Some (nodes s' !! f_node fl') /\
     (claimOf (f_phase fl') = None \/ goesOn s s' f fl')) ->
  (forall f fl' c fin, flights s' !! f = Some fl' -> f_phase fl' = Finalizing c fin \/ f_phase fl' = Recorded c fin ->
     c_at c <= attemptNow fin) ->
  Inv s'.
Proof.
  intros [HF HN HT HU] Hq Hcl Hfl Htime. split; [|naive_solver|done|].
  - rewrite Hq, Hcl. eapply fenced_mono; [|exact HF]. intros f h Hh. pose proof Hh as Hh'. unfold holding in Hh.
    destruct (flights s' !! f) as [fl'|] eqn:E; [|done]. destruct (Hfl f fl' E) as [_ [Hc|Hk]].
    + cbn in Hh. by rewrite Hc in Hh.
    + by eapply holding_goesOn.
  - intros f fl' c Hf Hc. destruct (Hfl f fl' Hf) as [_ [Hn|(fl & Hf' & _ & _ & Hcc & _)]]; [congruence|].
    eapply HU; [exact Hf'|congruence].
Qed.

(** A change that keeps the queue, the claims and every node's runner, and the
    flights but for [f]. *)
Lemma goesOn_same s s' f fl : flights s !! f = Some fl ->
  runnerID <$> nodes s' !! f_node fl = runnerID <$> nodes s !! f_node fl -> goesOn s s' f fl.
Proof. intros. exists fl. auto. Qed.

Lemma released_runner d id : runnerID (releaseEndpointSlot d id) = runnerID d.
Proof. done. Qed.

Lemma alter_release_runner (m : gmap nat Dispatcher) n id k :
  runnerID <$> alter (fun d => releaseEndpointSlot d id) n m !! k = runnerID <$> m !! k.
Proof.
  destruct (decide (n = k)) as [->|]; [|by rewrite lookup_alter_ne].
  rewrite lookup_alter_eq. by destruct (m !! k).
Qed.

Lemma same_runner_some (m m' : gmap nat Dispatcher) n :
  runnerID <$> m' !! n = runnerID <$> m !! n -> is_Some (m !! n) -> is_Some (m' !! n).
Proof. destruct (m !! n), (m' !! n); cbn; intros ? [? ?]; (done || eauto). Qed.

Lemma endFlight_inv s f fl : Inv s -> Inv (endFlight s f fl).
Proof.
  intros I. apply (inv_shrink s); [done..| |].
  - cbn. intros x fl' [_ Hx]%lookup_delete_Some. split.
    + eapply same_runner_some; [apply alter_release_runner|]. by eapply inv_node.
    + right. apply goesOn_same; [done|apply alter_release_runner].
  - cbn. intros x fl' c fin [_ Hx]%lookup_delete_Some. by eapply inv_time.
Qed.

Lemma setPhase_inv s f fl p :
  Inv s -> flights s !! f = Some fl -> claimOf p = None \/ claimOf p = claimOf (f_phase fl) ->
  (forall c fin, p = Finalizing c fin \/ p = Recorded c fin -> c_at c <= attemptNow fin) ->
  Inv (setPhase s f fl p).
Proof.
  intros I Hf Hp Htime. apply (inv_shrink s); [done..| |]; cbn; intros x fl'.
  - intros [[<- <-]|[_ Hx]]%lookup_insert_Some; cbn.
    + split; [by eapply (inv_node s I)|]. destruct Hp as [Hp|Hp]; [by left|right]. by exists fl.
    + split; [by eapply inv_node|]. right. by apply goesOn_same.
  - intros c fin [[<- <-]|[_ Hx]]%lookup_insert_Some; cbn; [eauto|by eapply inv_time].
Qed.

Lemma inv_ext s s' :
  queue s' = queue s -> claims s' = claims s -> flights s' = flights s -> nodes s' = nodes s -> Inv s -> Inv s'.
Proof.
  intros Hq Hc Hf Hn [HF HN HT HU]. split; rewrite ?Hq, ?Hc, ?Hf, ?Hn; try done.
  eapply fenced_mono; [|exact HF]. unfold holding. by rewrite Hf, Hn.
Qed.

Lemma network_initial_inv c : Inv (initial c).
Proof. split; [split|..]; cbn; intros *; unfold holding; cbn; rewrite ?lookup_empty; done. Qed.

Lemma start_inv s n r ret s' : Inv s -> start s n r ret = Some s' -> Inv s'.
Proof.
  unfold start. intros I. case_match eqn:Hn; [done|]. intros [= <-].
  assert (Hne : forall x fl, flights s !! x = Some fl -> n <> f_node fl).
  { intros x fl Hx E. destruct (inv_node s I x fl Hx). congruence. }
  apply (inv_shrink s); [done..| |]; cbn; intros x fl.
  - intros Hx. specialize (Hne x fl Hx). rewrite lookup_insert_ne by done. split; [by eapply inv_node|].
    right. apply goesOn_same; [done|]. cbn. by rewrite lookup_insert_ne.
  - intros c fin Hx. by eapply inv_time.
Qed.

Lemma crash_inv s n : Inv s -> Inv (crash s n).
Proof.
  intros I. apply (inv_shrink s); [done..| |]; cbn; intros x fl.
  - intros [Hx Hn]%map_lookup_filter_Some. cbn in Hn. rewrite lookup_delete_ne by done.
    split; [by eapply inv_node|]. right. apply goesOn_same; [done|]. cbn. by rewrite lookup_delete_ne.
  - intros c fin [Hx _]%map_lookup_filter_Some. by eapply inv_time.
Qed.

(** What an insert that succeeds adds to the queue. *)
Lemma CreateWebhookJob_ok q job now db q' :
  CreateWebhookJob q job now db = Ok q' ->
  q !! ID job = None /\ AttemptCount job = 0 /\ ClaimedUntil job = None /\ IsValid (Event job) = true /\
  q' = <[ID job := mkJob (ID job) (EndpointID job) (AsyncJobID job) (Event job) (PayloadJSON job) 0
                        (if IsZero (NextAttemptAt job) then now else NextAttemptAt job) "" None now]> q.
Proof.
  unfold CreateWebhookJob. do 3 (case_bool_decide; [done|]). destruct (IsValid (Event job)); [|done]. cbn [negb].
  destruct (_ || _) eqn:Hu; [done|]. apply orb_false_iff in Hu as [Hu Hc]. apply orb_false_iff in Hu as [Ha _].
  apply bool_decide_eq_false, eq_None_not_Some in Hc.
  destruct db; [|done]. cbn [negb]. case_bool_decide as Hq; [done|]. intros [= <-].
  split_and!; (done || lia || by apply eq_None_not_Some).
Qed.

(** When a delivery was last claimed. *)
Definition lastClaimAt (s : Network) (id : string) : Time := match claims s !! id with Some (_, t) => t | None => zeroTime end.

(** A delivery is created as its callers create it, due at once, and by a clock
    that is not behind the last claim of a delivery of the same id. *)
Definition timely (s : Network) (l : Label) : Prop :=
  match l with LCreate job now _ => NextAttemptAt job = zeroTime /\ lastClaimAt s (ID job) <= now | _ => True end.

Lemma create_inv s job now db s' : Inv s -> timely s (LCreate job now db) -> create s job now db = Some s' -> Inv s'.
Proof.
  intros I [Hz Hlast]. unfold create. destruct (CreateWebhookJob _ _ _ _) as [q|] eqn:Hc; [|by intros [= <-]].
  apply CreateWebhookJob_ok in Hc as (Hnone & _ & _ & _ & ->). intros [= <-].
  destruct I as [HF HN HT HU]. split; [|done..].
  apply fenced_create; [done|done|done|]. intros g t Ht. cbn. rewrite Hz. cbn.
  unfold lastClaimAt in Hlast. cbn in Ht. rewrite Ht in Hlast. change (IsZero zeroTime) with true. cbn. lia.
Qed.

Lemma reap_inv s now ids s' : Inv s -> reap s now ids = Some s' -> Inv s'.
Proof. intros I. unfold reap. case_match; [|done]. intros [= <-]. by eapply inv_ext; [..|exact I]. Qed.

Lemma launch_lookup n fs jobs m m' f fl :
  launch n fs jobs m = Some m' -> m' !! f = Some fl ->
  m !! f = Some fl \/ exists job, job ∈ jobs /\ f ∈ fs /\ fl = mkFlight n job Listed.
Proof.
  revert jobs m. induction fs as [|g fs IH]; intros [|job jobs] m H; cbn in H; try done; [by injection H as ->; left|].
  case_match; [done|]. intros Hf. destruct (IH _ _ H Hf) as [Hm|(j & Hj & Hfs & ->)].
  - apply lookup_insert_Some in Hm as [[<- <-]|[_ Hm]]; [|by left]. right. exists job. split_and!; [by left|by left|done].
  - right. exists j. split_and!; [by right|by right|done].
Qed.

Lemma reserve_runner d id limit b d' : reserveEndpointSlot d id limit = (b, d') -> runnerID d' = runnerID d.
Proof. unfold reserveEndpointSlot. case_match; by intros [= <- <-]. Qed.

Lemma dispatchJobs_runner r jobs d started d' : dispatchJobs r jobs d = (started, d') -> runnerID d' = runnerID d.
Proof.
  revert d started d'. induction jobs as [|job jobs IH]; intros d started d'; cbn; [by intros [= _ <-]|].
  destruct (reserveEndpointSlot _ _ _) as [ok d1] eqn:E1. destruct (dispatchJobs r jobs d1) as [st d2] eqn:E2.
  intros [= _ <-]. rewrite (IH _ _ _ E2). by eapply reserve_runner.
Qed.

Lemma dispatchOnce_runner r rows now db d started d' : dispatchOnce r rows now db d = (started, d') -> runnerID d' = runnerID d.
Proof. unfold dispatchOnce. destruct db; [apply dispatchJobs_runner|by intros [= _ <-]]. Qed.

Lemma scan_inv s n r order now db fs s' : Inv s -> scan s n r order now db fs = Some s' -> Inv s'.
Proof.
  intros I. unfold scan. case_match eqn:Hn; [|done]. case_match; [|done].
  destruct (dispatchOnce _ _ _ _ _) as [started d'] eqn:Hd. apply dispatchOnce_runner in Hd.
  destruct (launch _ _ _ _) as [m|] eqn:Hl; [|done]. intros [= <-].
  assert (Hr : forall k, runnerID <$> <[n := d']> (nodes s) !! k = runnerID <$> nodes s !! k).
  { intros k. destruct (decide (n = k)) as [->|]; [|by rewrite lookup_insert_ne].
    rewrite lookup_insert_eq, Hn. cbn. by rewrite Hd. }
  apply (inv_shrink s); [done..| |]; cbn; intros x fl.
  - intros Hx. destruct (launch_lookup _ _ _ _ _ _ _ Hl Hx) as [Hx'|(job & _ & _ & ->)].
    + split; [eapply same_runner_some; [apply Hr|by eapply inv_node]|]. right. by apply goesOn_same.
    + cbn. rewrite lookup_insert_eq. eauto.
  - intros c fin Hx. destruct (launch_lookup _ _ _ _ _ _ _ Hl Hx) as [Hx'|(job & _ & _ & ->)]; [by eapply inv_time|].
    cbn. naive_solver.
Qed.

(** A claim that is won was of a due row, ends in the future, and marks the row. *)
Lemma claim_won d q job endpoint now storeNow db lease q' :
  claim d q job endpoint now storeNow db = (Some lease, q') ->
  exists row, q !! ID job = Some row /\ due storeNow row = true /\ storeNow < normalizeLeaseTime lease /\
    q' = <[ID job := claimRow (runnerID d) (normalizeLeaseTime lease) row]> q.
Proof.
  unfold claim, ClaimWebhookJob. destruct (storeNow <? _) eqn:Hl; cbn [negb]; [|done]. destruct db; cbn [negb]; [|done].
  destruct (q !! ID job) as [row|] eqn:Hrow; [|done]. destruct (due storeNow row) eqn:Hdue; [|done].
  intros [= <- <-]. exists row. split_and!; (done || lia).
Qed.

Section Steps.
Variable parseScheme : string -> option string.
Variable base64Decode : string -> option string.
Variable base64Encode : string -> string.
Variable hmacSHA256 : string -> string -> string.
Variable Marshal : eventEnvelope -> result string string.
Variable jitter : Z -> Z -> Z.
Hypothesis jitter_nonneg : forall seed b, 0 <= b <= 2 ^ 62 -> 0 <= jitter seed b.

Local Notation attemptStep := (attemptStep parseScheme base64Decode base64Encode hmacSHA256 Marshal).
Local Notation step := (step parseScheme base64Decode base64Encode hmacSHA256 Marshal jitter).
Local Notation run := (run parseScheme base64Decode base64Encode hmacSHA256 Marshal jitter).

(** The endpoints a run resolves have backoffs that fit a [Duration]. *)
Definition labelFits (l : Label) : Prop :=
  match l with LClaim _ (Some e) _ _ _ => fits e | _ => True end.

Lemma claimStep_inv s f fl d endpoint now storeNow db :
  Inv s -> flights s !! f = Some fl -> nodes s !! f_node fl = Some d -> f_phase fl = Listed ->
  (forall e, endpoint = Some e -> fits e) -> Inv (claimStep s f fl d endpoint now storeNow db).
Proof.
  intros I Hf Hd Hp Hfit. unfold claimStep.
  destruct (claim _ _ _ _ _ _ _) as [[lease|] q] eqn:Hc; [|by apply endFlight_inv].
  apply claim_won in Hc as (row & Hrow & Hdue & Hlt & ->). destruct I as [HF HN HT HU].
  assert (Hnone : holding s f = None) by (unfold holding; by rewrite Hf; cbn; rewrite Hp).
  pose proof (fenced_claim _ _ _ _ _ _ _ (mkClaim endpoint lease storeNow) (runnerID d) HF Hrow Hdue Hnone eq_refl Hlt) as HF'.
  split; cbn.
  - eapply fenced_mono; [|exact HF']. intros x h. unfold holding. cbn. case_decide as Hx.
    + subst x. rewrite lookup_insert_eq. cbn. by rewrite Hd.
    + by rewrite lookup_insert_ne.
  - intros x fl' [[<- <-]|[_ Hx]]%lookup_insert_Some; [cbn; eauto|eauto].
  - intros x fl' c fin [[<- <-]|[_ Hx]]%lookup_insert_Some; [cbn; naive_solver|eauto].
  - intros x fl' c [[<- <-]|[_ Hx]]%lookup_insert_Some; [|eauto]. cbn. intros [= <-]. by apply tuningFor_tuned.
Qed.

(** The attempt hands over the reading of the clock it was given. *)
Lemma attempt_now deliver job endpoint now found req fin :
  attempt Marshal deliver job endpoint now found = (req, Some fin) -> attemptNow fin = now.
Proof.
  unfold attempt. intros H. repeat (case_match; simplify_eq/=; try done).
Qed.

Lemma attemptStep_inv s f fl c now found answer :
  Inv s -> flights s !! f = Some fl -> f_phase fl = Claimed c -> c_at c <= now ->
  Inv (attemptStep s f fl c now found answer).
Proof.
  intros I Hf Hp Hnow. unfold WebhookNetwork.attemptStep. destruct (attempt _ _ _ _ _ _) as [req [fin|]] eqn:Ha.
  - apply attempt_now in Ha. eapply inv_ext; [..|apply (setPhase_inv s f fl (Finalizing c fin) I Hf)]; try done.
    + right. by rewrite Hp.
    + intros c' fin' [[= <- <-]|?]; [lia|done].
  - eapply inv_ext; [..|apply (endFlight_inv s f fl I)]; done.
Qed.

Lemma historyStep_inv s f fl d c fin uuid db :
  Inv s -> flights s !! f = Some fl -> f_phase fl = Finalizing c fin -> Inv (historyStep s f fl d c fin uuid db).
Proof.
  intros I Hf Hp. unfold historyStep. destruct db; cbn [negb]; [|by apply endFlight_inv].
  eapply inv_ext; [..|apply (setPhase_inv s f fl (Recorded c fin) I Hf)]; try done.
  - right. by rewrite Hp.
  - intros c' fin' [?|[= <- <-]]; [done|]. eapply (inv_time s I); eauto.
Qed.

(** Settling a row either fails, or moves the row of the flight's own claim. *)
Lemma settleQueue_ok j d q job tuning fin lease db q' :
  settleQueue j d q job tuning fin lease db = Ok q' ->
  exists row, q !! ID job = Some row /\ ClaimedBy row = runnerID d /\ ClaimedUntil row = Some (normalizeLeaseTime lease) /\
    (outcome fin = OutcomeRetryableFailure /\
     q' = <[ID job := rescheduleRow (attemptNow fin + retryBackoff j (attemptNo fin) tuning) row]> q \/
     outcome fin <> OutcomeRetryableFailure /\ q' = delete (ID job) q).
Proof.
  unfold settleQueue, RescheduleWebhookJob, DeleteWebhookJob, ownedBy. intros H.
  destruct (outcome fin) eqn:Ho; destruct db; cbn [negb] in H; try done;
    (destruct (q !! ID job) as [row|]; [|done]; destruct (_ && _) eqn:Hown; [|done];
     apply andb_true_iff in Hown as [H1%bool_decide_eq_true H2%bool_decide_eq_true];
     injection H as <-; exists row; split_and!; auto).
Qed.

Lemma holding_of s f fl d c : flights s !! f = Some fl -> nodes s !! f_node fl = Some d -> claimOf (f_phase fl) = Some c ->
  holding s f = Some (mkHolder (ID (f_job fl)) c (runnerID d)).
Proof. unfold holding. intros -> Hd Hc. cbn. rewrite Hc. cbn. by rewrite Hd. Qed.

Lemma queueStep_inv s f fl d c fin seed db :
  Inv s -> flights s !! f = Some fl -> nodes s !! f_node fl = Some d -> f_phase fl = Recorded c fin ->
  Inv (queueStep jitter s f fl d c fin seed db).
Proof.
  intros I Hf Hd Hp. unfold queueStep. destruct (settleQueue _ _ _ _ _ _ _ _) as [q|] eqn:Hq.
  2:{ eapply inv_ext; [..|apply (setPhase_inv s f fl (Settled fin) I Hf)]; try done; [by left|naive_solver]. }
  apply settleQueue_ok in Hq as (row & Hrow & Hby & Huntil & Hor).
  assert (Hc : claimOf (f_phase fl) = Some c) by (by rewrite Hp).
  pose proof (holding_of s f fl d c Hf Hd Hc) as Hh. destruct I as [HF HN HT HU].
  assert (Hnext : c_at c <= attemptNow fin + retryBackoff (jitter seed) (attemptNo fin) (tuningFor (c_endpoint c))).
  { pose proof (retryBackoff_nonneg (jitter seed) (attemptNo fin) _ (jitter_nonneg seed) (HU f fl c Hf Hc)).
    specialize (HT f fl c fin Hf (or_intror Hp)). lia. }
  destruct (fenced_release _ _ _ _ _ _ _ _ HF Hh eq_refl Hrow Huntil Hnext) as [Fr Fd].
  split; cbn.
  - assert (Hmono : forall x h, holding (setPhase (setQueue s q) f fl (Settled fin)) x = Some h ->
              (if decide (x = f) then None else holding s x) = Some h).
    { intros x h. unfold holding. cbn. case_decide as Hx.
      - subst x. by rewrite lookup_insert_eq.
      - by rewrite lookup_insert_ne. }
    destruct Hor as [[_ ->]|[_ ->]]; (eapply fenced_mono; [exact Hmono|]); [exact Fr|exact Fd].
  - intros x fl' [[<- <-]|[_ Hx]]%lookup_insert_Some; [cbn; eauto|eauto].
  - intros x fl' c' fin' [[<- <-]|[_ Hx]]%lookup_insert_Some; [cbn; naive_solver|eauto].
  - intros x fl' c' [[<- <-]|[_ Hx]]%lookup_insert_Some; [done|eauto].
Qed.

Lemma countersStep_inv s f fl fin now db : Inv s -> Inv (countersStep s f fl fin now db).
Proof.
  intros I. unfold countersStep. apply (endFlight_inv _ f fl). eapply inv_ext; [..|exact I]; done.
Qed.

Lemma network_step_inv s l s' : Inv s -> labelFits l -> timely s l -> step s l = Some s' -> Inv s'.
Proof.
  intros I Hl Ht Hs. destruct l; cbn in Hs; eauto using start_inv, create_inv, reap_inv, scan_inv.
  { injection Hs as <-. by apply crash_inv. }
  all: destruct (flights s !! f) as [fl|] eqn:Hf; [|done]; cbn in Hs;
       destruct (nodes s !! f_node fl) as [d|] eqn:Hd; [|done]; cbn in Hs;
       unfold flightStep in Hs; destruct (f_phase fl) eqn:Hp; try done; try (by injection Hs as <-; apply endFlight_inv).
  - injection Hs as <-. apply claimStep_inv; try done. intros e ->. exact Hl.
  - destruct (Z.leb_spec (c_at c) now); [|done]. injection Hs as <-. by apply attemptStep_inv.
  - injection Hs as <-. by apply historyStep_inv.
  - injection Hs as <-. by apply queueStep_inv.
  - injection Hs as <-. by apply countersStep_inv.
Qed.

(** Every creation of a run is timely. *)
Fixpoint timelyRun (s : Network) (ls : list Label) : Prop :=
  match ls with
  | [] => True
  | l :: ls => timely s l /\ match step s l with Some s' => timelyRun s' ls | None => True end
  end.

Lemma network_run_inv s ls s' : Inv s -> Forall labelFits ls -> timelyRun s ls -> run s ls = Some s' -> Inv s'.
Proof.
  revert s. induction ls as [|l ls IH]; intros s I Hls Ht Hr; cbn in Hr; [by injection Hr as <-|].
  apply Forall_cons in Hls as [Hl Hls]. cbn in Ht. destruct Ht as [Hl' Ht]. destruct (step s l) as [s1|] eqn:Hs; [|done]. cbn in Hr.
  eapply (IH s1); [by eapply network_step_inv|done|done|done].
Qed.
End Steps.

(** C31. Over all interleavings of nodes, crashes and storage errors: of two flights
    that still act on one delivery, the lease of one ended before the other
    claimed it; and settling a flight's queue row changes the queue only if that
    flight made the last claim of the delivery, so an attempt that outlived its
    lease cannot move or delete it.  Of clocks it is assumed that a goroutine's
    does not go back behind its own claim, and that a delivery that is created
    again under its id (due at once, as its callers do) is created no earlier than
    the last claim of that id; the clocks of claims need not agree.  The backoff of
    an endpoint fits (an initial one below 2^63 nanoseconds and a maximum of at
    most 2^62), and the jitter of such a wait is not negative. *)
Theorem lease_fenced parse b64d b64e hmac Marshal jitter c0 ls s :
  (forall seed b, 0 <= b <= 2 ^ 62 -> 0 <= jitter seed b) -> Forall labelFits ls ->
  timelyRun parse b64d b64e hmac Marshal jitter (initial c0) ls ->
  run parse b64d b64e hmac Marshal jitter (initial c0) ls = Some s ->
  (forall f f' fl fl' c c', f <> f' -> flights s !! f = Some fl -> flights s !! f' = Some fl' ->
     claimOf (f_phase fl) = Some c -> claimOf (f_phase fl') = Some c' -> ID (f_job fl) = ID (f_job fl') ->
     expiry c < c_at c' \/ expiry c' < c_at c) /\
  (forall f fl seed db s', flights s !! f = Some fl ->
     step parse b64d b64e hmac Marshal jitter s (LQueue f seed db) = Some s' ->
     queue s' = queue s \/ exists t, claims s !! ID (f_job fl) = Some (f, t)).
Proof.
  intros Hj Hls Ht Hr. pose proof (network_run_inv _ _ _ _ _ _ Hj _ _ _ (network_initial_inv c0) Hls Ht Hr) as [HF HN HT HU]. split.
  - intros f f' fl fl' c c' Hne Hf Hf' Hc Hc' Hid.
    destruct (HN f fl Hf) as [d Hd], (HN f' fl' Hf') as [d' Hd'].
    apply (fenced_pair _ _ _ HF f _ f' _ (holding_of s f fl d c Hf Hd Hc) (holding_of s f' fl' d' c' Hf' Hd' Hc') Hne Hid).
  - intros f fl seed db s' Hf Hs. cbn in Hs. rewrite Hf in Hs. cbn in Hs.
    destruct (nodes s !! f_node fl) as [d|] eqn:Hd; [|done]. cbn in Hs. unfold flightStep in Hs.
    destruct (f_phase fl) as [|?|?|c fin|?] eqn:Hp; try done. injection Hs as <-. unfold queueStep. cbn.
    destruct (settleQueue _ _ _ _ _ _ _ _) as [q|] eqn:Hq; [|by left]. right.
    apply settleQueue_ok in Hq as (row & Hrow & _ & Huntil & _). exists (c_at c).
    assert (Hc : claimOf (f_phase fl) = Some c) by (by rewrite Hp).
    exact (fenced_owner _ _ _ _ _ _ _ HF (holding_of s f fl d c Hf Hd Hc) eq_refl Hrow Huntil).
Qed.

(** ** Deliveries are not lost *)

Definition terminal (o : WebhookDeliveryOutcome) : bool := negb (bool_decide (o = OutcomeRetryableFailure)).

(** A flight has written the terminal record of delivery [id] and has not
    settled its queue row yet. *)
Definition finishing (id : string) (fl : Flight) : Prop :=
  ID (f_job fl) = id /\ match f_phase fl with Recorded _ fin => terminal (outcome fin) = true | _ => False end.

#[local] Instance finishing_dec id fl : base.Decision (finishing id fl).
Proof. unfold finishing. destruct (f_phase fl); apply _. Defined.

Definition finishers (id : string) (m : gmap nat Flight) : gset nat := dom (filter (fun p => finishing id p.2) m).

Lemma elem_finishers id m f : f ∈ finishers id m <-> exists fl, m !! f = Some fl /\ finishing id fl.
Proof.
  unfold finishers. rewrite elem_of_dom. unfold is_Some. setoid_rewrite map_lookup_filter_Some. done.
Qed.

Lemma finishers_mono id m m' :
  (forall f fl, m' !! f = Some fl -> finishing id fl -> m !! f = Some fl) -> (size (finishers id m') <= size (finishers id m))%nat.
Proof.
  intros H. apply subseteq_size. intros f (fl & Hf & Hp)%elem_finishers. apply elem_finishers. eauto.
Qed.

(** How often [id] was accepted, whether it is queued, its terminal records, the
    reaped ones too. *)
Definition acceptances (s : Network) (id : string) : nat := length (base.filter (fun i => i = id) (accepted s)).
Definition queued (s : Network) (id : string) : nat := match queue s !! id with Some _ => 1 | None => 0 end.
Definition conclusions (s : Network) (id : string) : nat :=
  length (base.filter (fun d => WebhookID d = id /\ terminal (Outcome d) = true) (history s ++ (reaped s).*1)).

(** A test splits what a list has of something. *)
Lemma filter_split {A} (P : A -> Prop) `{!forall x, base.Decision (P x)} (b : A -> bool) (l : list A) :
  length (base.filter P l) = (length (base.filter P (base.filter (fun x => b x = false) l)) + length (base.filter P (base.filter (fun x => b x = true) l)))%nat.
Proof.
  induction l as [|x l IH]; [done|]. rewrite !filter_cons. destruct (b x); repeat (case_decide || rewrite !filter_cons); cbn; try done; lia.
Qed.

Definition Kept (s : Network) : Prop :=
  forall id, (acceptances s id + size (finishers id (flights s)) <= queued s id + conclusions s id)%nat.

Lemma kept_shrink s s' :
  Kept s -> accepted s' = accepted s -> history s' = history s -> reaped s' = reaped s -> queue s' = queue s ->
  (forall id f fl, flights s' !! f = Some fl -> finishing id fl -> flights s !! f = Some fl) -> Kept s'.
Proof.
  intros K Ha Hh Hg Hq Hf id. specialize (K id). unfold acceptances, queued, conclusions in *. rewrite Ha, Hh, Hg, Hq.
  pose proof (finishers_mono id (flights s) (flights s') (Hf id)). lia.
Qed.

Lemma kept_endFlight s f fl : Kept s -> Kept (endFlight s f fl).
Proof. intros K. eapply kept_shrink; [exact K|done..|]. cbn. by intros id x fl' [_ Hx]%lookup_delete_Some. Qed.

(** A phase that is not [Recorded] finishes nothing. *)
Lemma kept_setPhase s f fl p :
  Kept s -> (forall c fin, p <> Recorded c fin) -> Kept (setPhase s f fl p).
Proof.
  intros K Hp. eapply kept_shrink; [exact K|done..|]. cbn.
  intros id x fl' [[<- <-]|[_ Hx]]%lookup_insert_Some; [|done]. intros [_ H]. cbn in H. destruct p; naive_solver.
Qed.

Lemma kept_ext s s' :
  Kept s -> accepted s' = accepted s -> history s' = history s -> reaped s' = reaped s -> flights s' = flights s ->
  (forall id, queued s' id = queued s id) -> Kept s'.
Proof. intros K Ha Hh Hg Hf Hq id. specialize (K id). unfold acceptances, conclusions in *. by rewrite Ha, Hh, Hg, Hf, Hq. Qed.

Lemma queued_insert (s : Network) q id row j :
  queue s !! id = Some row -> q = <[id := j]> (queue s) ->
  forall i, queued (setQueue s q) i = queued s i.
Proof.
  intros Hrow -> i. unfold queued. cbn. destruct (decide (id = i)) as [<-|].
  - by rewrite lookup_insert_eq, Hrow.
  - by rewrite lookup_insert_ne.
Qed.

Section Kept.
Variable parseScheme : string -> option string.
Variable base64Decode : string -> option string.
Variable base64Encode : string -> string.
Variable hmacSHA256 : string -> string -> string.
Variable Marshal : eventEnvelope -> result string string.
Variable jitter : Z -> Z -> Z.
Local Notation step := (step parseScheme base64Decode base64Encode hmacSHA256 Marshal jitter).
Local Notation run := (run parseScheme base64Decode base64Encode hmacSHA256 Marshal jitter).

Lemma kept_create s job now db s' : Kept s -> create s job now db = Some s' -> Kept s'.
Proof.
  intros K. unfold create. destruct (CreateWebhookJob _ _ _ _) as [q|] eqn:Hc; [|by intros [= <-]].
  apply CreateWebhookJob_ok in Hc as (Hnone & _ & _ & _ & ->). intros [= <-] id. specialize (K id).
  unfold acceptances, queued, conclusions in *. cbn [accepted history reaped queue flights]. rewrite filter_cons.
  destruct (decide (ID job = id)) as [<-|].
  - rewrite lookup_insert_eq. rewrite Hnone in K. cbn. lia.
  - rewrite lookup_insert_ne by done. lia.
Qed.

Lemma stamped_fst {A B} (b : B) (l : list A) : ((fun x => (x, b)) <$> l).*1 = l.
Proof. induction l as [|x l IH]; [done|]. cbn. by f_equal. Qed.

Lemma kept_reap s now ids s' : Kept s -> reap s now ids = Some s' -> Kept s'.
Proof.
  intros K. unfold reap. case_match; [|done]. intros [= <-] id. specialize (K id).
  unfold acceptances, queued, conclusions in *. cbn [accepted history reaped queue flights].
  rewrite fmap_app, stamped_fst. rewrite !filter_app, !length_app in *.
  set (P := fun d : WebhookDelivery => WebhookID d = id /\ terminal (Outcome d) = true) in *.
  pose proof (filter_split P (fun d => expiredAt now d && bool_decide (wd_ID d ∈ ids)) (history s)) as Hs. cbn beta in Hs. lia.
Qed.

Lemma kept_scan s n r order now db fs s' : Kept s -> scan s n r order now db fs = Some s' -> Kept s'.
Proof.
  intros K. unfold scan. case_match; [|done]. case_match; [|done]. destruct (dispatchOnce _ _ _ _ _) as [started d'].
  destruct (launch _ _ _ _) as [m|] eqn:Hl; [|done]. intros [= <-]. eapply kept_shrink; [exact K|done..|]. cbn.
  intros id x fl Hx Hp. destruct (launch_lookup _ _ _ _ _ _ _ Hl Hx) as [?|(job & _ & _ & ->)]; [done|]. by destruct Hp.
Qed.

Lemma kept_claimStep s f fl d endpoint now storeNow db : Kept s -> Kept (claimStep s f fl d endpoint now storeNow db).
Proof.
  intros K. unfold claimStep. destruct (claim _ _ _ _ _ _ _) as [[lease|] q] eqn:Hc; [|by apply kept_endFlight].
  apply claim_won in Hc as (row & Hrow & _ & _ & Hq).
  eapply kept_ext; [apply (kept_setPhase (setQueue s q) f fl (Claimed (mkClaim endpoint lease storeNow)))|done..].
  - eapply kept_ext; [exact K|done..|]. by eapply queued_insert.
  - done.
Qed.

Lemma kept_historyStep s f fl d c fin uuid db : Kept s -> Kept (historyStep s f fl d c fin uuid db).
Proof.
  intros K. unfold historyStep. destruct db; cbn [negb]; [|by apply kept_endFlight]. intros id. specialize (K id).
  unfold acceptances, queued, conclusions in *. cbn [accepted history reaped queue flights setPhase].
  rewrite !filter_app, !length_app in *. rewrite filter_cons, filter_nil. cbn [WebhookID Outcome historyRow].
  assert (Hsub : finishers id (<[f := mkFlight (f_node fl) (f_job fl) (Recorded c fin)]> (flights s)) ⊆
            finishers id (flights s) ∪ (if bool_decide (ID (f_job fl) = id /\ terminal (outcome fin) = true) then {[f]} else ∅)).
  { intros x (fl' & Hx & Hp)%elem_finishers. apply lookup_insert_Some in Hx as [[<- <-]|[_ Hx]].
    - rewrite bool_decide_true by exact Hp. set_solver.
    - apply elem_of_union_l, elem_finishers. eauto. }
  apply subseteq_size in Hsub. rewrite size_union_alt in Hsub.
  destruct (decide (ID (f_job fl) = id /\ terminal (outcome fin) = true)) as [Ht|Ht];
    [rewrite bool_decide_true in Hsub by done|rewrite bool_decide_false in Hsub by done]; cbn [length].
  - pose proof (subseteq_size (({[f]} : gset nat) ∖ finishers id (flights s)) {[f]} ltac:(set_solver)) as H1.
    rewrite size_singleton in H1. lia.
  - assert (size ((∅ : gset nat) ∖ finishers id (flights s)) = 0%nat) as H1 by (apply size_empty_iff; set_solver).
    lia.
Qed.

Lemma kept_queueStep s f fl d c fin seed db :
  Kept s -> flights s !! f = Some fl -> f_phase fl = Recorded c fin -> Kept (queueStep jitter s f fl d c fin seed db).
Proof.
  intros K Hf Hp. unfold queueStep. destruct (settleQueue _ _ _ _ _ _ _ _) as [q|] eqn:Hq.
  2:{ apply kept_setPhase; [|done]. by eapply kept_ext. }
  apply settleQueue_ok in Hq as (row & Hrow & _ & _ & [[_ Hq]|[Ho Hq]]).
  { apply kept_setPhase; [|done]. eapply kept_ext; [exact K|done..|]. by eapply queued_insert. }
  intros id. specialize (K id). unfold acceptances, queued, conclusions in *. cbn [accepted history reaped queue flights setPhase setQueue]. subst q.
  set (m' := <[f := _]> (flights s)). assert (Hsub : finishers id m' ⊆ finishers id (flights s) ∖ {[f]}).
  { intros x (fl' & Hx & Hp')%elem_finishers. apply lookup_insert_Some in Hx as [[<- <-]|[Hne Hx]]; [by destruct Hp'|].
    apply elem_of_difference. split; [apply elem_finishers; eauto|set_solver]. }
  apply subseteq_size in Hsub. destruct (decide (ID (f_job fl) = id)) as [<-|Hne].
  - assert (Hin : f ∈ finishers (ID (f_job fl)) (flights s)).
    { apply elem_finishers. exists fl. split; [done|]. split; [done|]. rewrite Hp. unfold terminal. by rewrite bool_decide_false. }
    rewrite size_difference in Hsub by set_solver. rewrite size_singleton in Hsub.
    assert (0 < size (finishers (ID (f_job fl)) (flights s)))%nat.
    { assert (size (finishers (ID (f_job fl)) (flights s)) <> 0%nat); [|lia]. rewrite size_empty_iff. set_solver. }
    rewrite lookup_delete_eq. rewrite Hrow in K. lia.
  - rewrite lookup_delete_ne by done. assert (H1 : finishers id (flights s) ∖ {[f]} ⊆ finishers id (flights s)) by set_solver.
    apply subseteq_size in H1. lia.
Qed.

Lemma kept_step s l s' : Kept s -> step s l = Some s' -> Kept s'.
Proof.
  intros K Hs. destruct l; cbn in Hs; eauto using kept_create, kept_reap, kept_scan.
  { unfold start in Hs. case_match; [done|]. injection Hs as <-. by eapply kept_shrink. }
  { injection Hs as <-. eapply kept_shrink; [exact K|done..|]. cbn. by intros id x fl [Hx _]%map_lookup_filter_Some. }
  all: destruct (flights s !! f) as [fl|] eqn:Hf; [|done]; cbn in Hs;
       destruct (nodes s !! f_node fl) as [d|] eqn:Hd; [|done]; cbn in Hs;
       unfold flightStep in Hs; destruct (f_phase fl) eqn:Hp; try done; try (by injection Hs as <-; apply kept_endFlight).
  - injection Hs as <-. by apply kept_claimStep.
  - case_match; [|done]. injection Hs as <-. unfold attemptStep. destruct (attempt _ _ _ _ _ _) as [req [fin|]].
    + apply kept_setPhase; [|done]. by eapply kept_ext.
    + apply kept_endFlight. by eapply kept_ext.
  - injection Hs as <-. by apply kept_historyStep.
  - injection Hs as <-. by apply kept_queueStep.
Qed.

Lemma kept_run s ls s' : Kept s -> run s ls = Some s' -> Kept s'.
Proof.
  revert s. induction ls as [|l ls IH]; intros s K Hr; cbn in Hr; [by injection Hr as <-|].
  destruct (step s l) as [s1|] eqn:Hs; [|done]. eapply (IH s1); [by eapply kept_step|done].
Qed.
End Kept.

(** What was deleted from the history had expired. *)
Definition Expired (s : Network) : Prop := Forall (fun p => expiredAt p.2 p.1 = true) (reaped s).

Lemma expired_step parse b64d b64e hmac Marshal jitter s l s' :
  Expired s -> step parse b64d b64e hmac Marshal jitter s l = Some s' -> Expired s'.
Proof.
  intros E Hs. unfold Expired in *. destruct l; cbn in Hs.
  1-5: unfold start, crash, create, reap, scan in Hs; repeat (case_match; try done); try (injection Hs as <-; exact E).
  { injection Hs as <-. cbn. apply Forall_app. split; [done|]. apply Forall_fmap, Forall_forall. intros d [Hd _]%list_elem_of_filter.
    cbn. by apply andb_true_iff in Hd as [? _]. }
  all: destruct (flights s !! f) as [fl|]; [|done]; cbn in Hs; destruct (nodes s !! f_node fl) as [d|]; [|done]; cbn in Hs;
       unfold flightStep in Hs; destruct (f_phase fl); try done; try (by injection Hs as <-).
  - injection Hs as <-. unfold claimStep. by destruct (claim _ _ _ _ _ _ _) as [[lease|] q].
  - case_match; [|done]. injection Hs as <-. unfold attemptStep. by destruct (attempt _ _ _ _ _ _) as [req [fin|]].
  - injection Hs as <-. unfold historyStep. by destruct (negb db).
Qed.

Lemma expired_run parse b64d b64e hmac Marshal jitter s ls s' :
  Expired s -> run parse b64d b64e hmac Marshal jitter s ls = Some s' -> Expired s'.
Proof.
  revert s. induction ls as [|l ls IH]; intros s E Hr; cbn in Hr; [by injection Hr as <-|].
  destruct (step _ _ _ _ _ _ s l) as [s1|] eqn:Hs; [|done]. cbn in Hr. eapply (IH s1); [by eapply expired_step|done].
Qed.

(** C30. Over all interleavings, each time a delivery was accepted into the queue it is
    still queued or has a terminal record of its own in the history, unless that
    record was reaped, and only records that had expired are: no crash, panic,
    lost lease, failed write or replay makes a delivery disappear. *)
Theorem webhook_not_lost parse b64d b64e hmac Marshal jitter c0 ls s id :
  run parse b64d b64e hmac Marshal jitter (initial c0) ls = Some s ->
  (acceptances s id <= queued s id + conclusions s id)%nat /\ Expired s.
Proof.
  intros Hr. split; [|by eapply expired_run; [|exact Hr]; constructor]. assert (K : Kept (initial c0)).
  { intros i. assert (size (finishers i ∅) = 0%nat) as H; [|cbn; unfold acceptances; cbn; rewrite H; lia].
    apply size_empty_iff. intros x. rewrite elem_finishers. setoid_rewrite lookup_empty. set_solver. }
  pose proof (kept_run _ _ _ _ _ _ _ _ _ K Hr id). lia.
Qed.

(** ** A delivery that fails once, and a replay of an alert *)

Definition exampleJob : TableWebhookJob := newJob "w" "e" "job" WebhookEventAsyncJobCompleted "{}".
Definition exampleResolver : Resolver := {["e" := exampleEndpoint]}.

(** A node delivers, the receiver answers 503, the job is rescheduled; then a
    second node claims it while the first is done. *)
Definition exampleRun : list Label :=
  [LStart 0 "node-a" 1000; LCreate exampleJob 0 true;
   LScan 0 exampleResolver ["w"] 0 true [0%nat]; LClaim 0 (Some exampleEndpoint) 0 0 true;
   LAttempt 0 0 FoundNothing (Ok (503, "")); LHistory 0 "h" true; LQueue 0 0 true; LCounters 0 0 true;
   LStart 1 "node-b" 1000; LScan 1 exampleResolver ["w"] (60 * Second) true [1%nat];
   LClaim 1 (Some exampleEndpoint) (60 * Second) (60 * Second) true].

Definition exampleNetwork : option Network :=
  run (fun _ => Some "https") Some (fun s => s) (fun _ s => s) (fun _ => Ok "{}") (fun _ b => b) (initial ∅) exampleRun.

Lemma exampleNetwork_some : is_Some exampleNetwork.
Proof. vm_compute. eauto. Qed.

Lemma webhook_not_lost_witness :
  exists s, exampleNetwork = Some s /\ acceptances s "w" = 1%nat /\ (1 <= queued s "w" + conclusions s "w")%nat.
Proof.
  destruct exampleNetwork_some as [s Hs]. exists s. split; [exact Hs|].
  pose proof (proj1 (webhook_not_lost _ _ _ _ _ _ _ _ s "w" Hs)) as H.
  assert (acceptances s "w" = 1%nat) as E.
  { assert ((fun s => acceptances s "w") <$> exampleNetwork = Some 1%nat) as E by (vm_compute; reflexivity).
    rewrite Hs in E. injection E as E. exact E. }
  rewrite E in H. done.
Defined.

Lemma lease_fenced_witness :
  exists s, exampleNetwork = Some s /\
    (forall f fl seed db s', flights s !! f = Some fl ->
       step (fun _ => Some "https") Some (fun s => s) (fun _ s => s) (fun _ => Ok "{}") (fun _ b => b) s (LQueue f seed db) = Some s' ->
       queue s' = queue s \/ exists t, claims s !! ID (f_job fl) = Some (f, t)).
Proof.
  destruct exampleNetwork_some as [s Hs]. exists s. split; [exact Hs|].
  refine (proj2 (lease_fenced _ _ _ _ _ _ _ exampleRun s _ _ _ Hs)).
  - intros _ b Hb. lia.
  - repeat constructor; vm_compute; discriminate.
  - vm_compute. repeat split; discriminate.
Defined.

(** Replaying an alert from the history keeps its id but not its rendered body, so
    the first delivery carries the alert and the replay the body of an async job
    that completed and whose result has expired. *)
Theorem redelivered_alert_degraded Marshal resolver d uuid job fin job' endpoint tuning now :
  PayloadJSON job <> "" -> Event job <> WebhookEventAsyncJobFailed ->
  redeliverWebhook resolver (historyRow d uuid job fin) = Some job' ->
  ID job' = ID job /\ bodyFor Marshal job endpoint tuning now FoundNothing = Some ("", Ok (PayloadJSON job)) /\
  bodyFor Marshal job' endpoint tuning now FoundNothing =
    Some ("", Marshal (mkEnvelope (Event job) now
      (mkEventData (AsyncJobID job) "" AsyncJobStatusCompleted 0 None None "" None None false None false true))).
Proof.
  intros Hp He. unfold redeliverWebhook. cbn [wd_EndpointID historyRow].
  destruct (resolver !! EndpointID job) as [e|]; [|done]. cbn [mbind option_bind]. destruct (Disabled e); [done|].
  intros [= <-]. split; [done|]. unfold bodyFor. rewrite (bool_decide_false (PayloadJSON job = "")) by done.
  split; [done|]. unfold expiredPayloadOf, statusForEvent. cbn [PayloadJSON Event AsyncJobID newJob].
  by rewrite bool_decide_true, (bool_decide_false (Event job = _)).
Qed.

Definition exampleAlert : TableWebhookJob := newJob "w" "e" "event" WebhookEventAlertSpendRate "{alert}".

Lemma redelivered_alert_degraded_witness :
  exists job', redeliverWebhook exampleResolver
    (historyRow (NewDispatcher "" 0) "h" exampleAlert (mkFinalize 1 "" (mkResult 500 "") OutcomeExhausted 0 true)) = Some job' /\
  bodyFor (fun e => Ok (ed_Status (Data e))) job' exampleEndpoint (tuningFor None) 0 FoundNothing = Some ("", Ok "completed").
Proof.
  eexists. split; [vm_compute; reflexivity|].
  eapply (redelivered_alert_degraded (fun e => Ok (ed_Status (Data e))) exampleResolver (NewDispatcher "" 0) "h" exampleAlert
    (mkFinalize 1 "" (mkResult 500 "") OutcomeExhausted 0 true)); done.
Defined.

End WebhooksTheory.
