(* ===== verification/Alerts.v ===== *)
(** * Alerts on budgets
    (src/plugins/governance/alert_evaluator.go, alertrulecache.go,
    src/framework/configstore: alerting_rdb.go, tables/alertrule.go,
    tables/alert_event.go)

    After each evaluation of a request the rules of the owners of its budgets
    are compared with their usage; a rule that fires writes an event and queues
    webhook deliveries, unless an event of its cooldown is found.  The answers
    of the clock and the stores at the [i]-th firing are [io i]. *)

From S2P Require Import Prelude GoStrings Schemas Calendar Windows Webhooks.

Local Open Scope string_scope.
Local Open Scope Z_scope.
Local Open Scope list_scope.

Module Alerts.
Import Calendar Windows Webhooks.

(** ** Names *)

Definition AlertScopeGlobal : string := "global".
Definition AlertScopeTeam : string := "team".
Definition AlertScopeVirtualKey : string := "virtual_key".
Definition AlertScopeCustomer : string := "customer".
Definition AlertScopeUser : string := "user".
Definition AlertScopeModel : string := "model".

Definition ValidAlertScopes : list string :=
  [AlertScopeGlobal; AlertScopeTeam; AlertScopeVirtualKey; AlertScopeCustomer; AlertScopeUser; AlertScopeModel].

Definition AlertMetricBudgetUsagePercent : string := "budget_usage_percent".
Definition AlertMetricBudgetUsageAmount : string := "budget_usage_amount".
Definition AlertMetricSpendRate : string := "spend_rate".
Definition AlertMetricErrorRate : string := "error_rate".
Definition AlertMetricCacheMissRate : string := "cache_miss_rate".

Definition ValidAlertMetrics : list string :=
  [AlertMetricBudgetUsagePercent; AlertMetricBudgetUsageAmount; AlertMetricSpendRate; AlertMetricErrorRate; AlertMetricCacheMissRate].

Definition IsAlertMetricP1Only (metric : string) : bool := bool_decide (metric = AlertMetricCacheMissRate).

Definition AlertComparisonGTE : string := "gte".
Definition AlertComparisonLTE : string := "lte".
Definition AlertStatusEnabled : string := "enabled".
Definition AlertStatusDisabled : string := "disabled".
Definition AlertChannelTypeWebhook : string := "webhook".

(** [AlertEventDeliveryStatusPending] and so on. *)
Inductive DeliveryStatus := Pending | DeliveredStatus | FailedStatus | SkippedStatus.

#[export] Instance DeliveryStatus_eq_dec : EqDecision DeliveryStatus.
Proof. solve_decision. Defined.

Record AlertChannel := mkChannel { ch_Type : string; WebhookRef : string }.

Section Alerts.
Context {F : Type} `{Amount F}.
(** [CurrentUsage / max * 100]; the text of an event, and [RenderAlertPayload]. *)
Variable percentOf : F -> F -> F.

(** ** Rules *)

Record TableAlertRule := mkRule {
  ar_ID : string;
  ar_Name : string;
  ar_ScopeType : string;
  ar_ScopeID : string;
  Metric : string;
  Threshold : F;
  Comparison : string;
  CooldownMinutes : Z;
  ar_Status : string;
  Channels : list AlertChannel;
  ar_CreatedAt : Time;
}.

Definition CooldownDuration (r : TableAlertRule) : Duration :=
  let mins := if CooldownMinutes r <=? 0 then 60 else CooldownMinutes r in (mins *i Minute)%go.

Definition ShouldFire (r : TableAlertRule) (metricValue : F) : bool :=
  if bool_decide (Comparison r = AlertComparisonLTE) then leAmount metricValue (Threshold r) else leAmount (Threshold r) metricValue.

Definition channelError (ch : AlertChannel) : option string :=
  if bool_decide (ch_Type ch = AlertChannelTypeWebhook)
  then if bool_decide (TrimSpace (WebhookRef ch) = "") then Some "alert channel of type webhook must include webhook_id" else None
  else Some "alert channel type is not implemented in this release".

Definition orIfEmpty (s d : string) : string := if bool_decide (s = "") then d else s.

(** The hook that normalizes and checks a rule before it is written. *)
Definition BeforeSave (r : TableAlertRule) : result string TableAlertRule :=
  let name := TrimSpace (ar_Name r) in
  let scopeType := ToLower (TrimSpace (ar_ScopeType r)) in
  let scopeID := TrimSpace (ar_ScopeID r) in
  let metric := ToLower (TrimSpace (Metric r)) in
  let status := orIfEmpty (ToLower (TrimSpace (ar_Status r))) AlertStatusEnabled in
  let comparison := orIfEmpty (ToLower (TrimSpace (Comparison r))) AlertComparisonGTE in
  if bool_decide (name = "") then Err "alert rule name cannot be empty"
  else if negb (bool_decide (scopeType ∈ ValidAlertScopes)) then Err "alert rule scope_type is not supported"
  else if negb (bool_decide (scopeType = AlertScopeGlobal)) && bool_decide (scopeID = "") then Err "alert rule scope_id is required"
  else if negb (bool_decide (metric ∈ ValidAlertMetrics)) then Err "alert rule metric is not supported"
  else if IsAlertMetricP1Only metric then Err "alert rule metric is reserved for a future release (P1)"
  else if negb (bool_decide (comparison = AlertComparisonGTE)) && negb (bool_decide (comparison = AlertComparisonLTE))
       then Err "alert rule comparison is not supported"
  else if negb (finiteAmount (Threshold r)) then Err "alert rule threshold must be finite"
  else if CooldownMinutes r <? 0 then Err "alert rule cooldown_minutes cannot be negative"
  else if negb (bool_decide (status = AlertStatusEnabled)) && negb (bool_decide (status = AlertStatusDisabled))
       then Err "alert rule status is not supported"
  else match omap channelError (Channels r) with
       | e :: _ => Err e
       | [] => Ok (mkRule (ar_ID r) name scopeType (if bool_decide (scopeType = AlertScopeGlobal) then "" else scopeID)
                     metric (Threshold r) comparison (CooldownMinutes r) status (Channels r) (ar_CreatedAt r))
       end.

Fixpoint insertByCreation (x : TableAlertRule) (l : list TableAlertRule) : list TableAlertRule :=
  match l with
  | [] => [x]
  | y :: l' => if ar_CreatedAt x <=? ar_CreatedAt y then x :: l else y :: insertByCreation x l'
  end.

(** [rules] are the rows in the order the database meets them. *)
Definition ListAlertRulesForScope (rules : list TableAlertRule) (scopeType scopeID : string) : list TableAlertRule :=
  foldr insertByCreation [] (base.filter (fun r => bool_decide (ar_Status r = AlertStatusEnabled) &&
    (if bool_decide (scopeType = "") || bool_decide (scopeType = AlertScopeGlobal) then bool_decide (ar_ScopeType r = AlertScopeGlobal)
     else (bool_decide (ar_ScopeType r = scopeType) && bool_decide (ar_ScopeID r = scopeID)) || bool_decide (ar_ScopeType r = AlertScopeGlobal)) = true) rules).

(** ** The cache of rules *)

Record AlertRuleCache := mkCache { entries : gmap (string * string) (list TableAlertRule * Time); ttl : Duration }.

Definition NewAlertRuleCache (t : Duration) : AlertRuleCache := mkCache ∅ (if t <=? 0 then 60 * Second else t).

(** [listed] is what the store answers, if it is asked. *)
Definition Get (c : AlertRuleCache) (scopeType scopeID : string) (now : Time) (listed : option (list TableAlertRule)) :
    option (list TableAlertRule) * AlertRuleCache :=
  let fetch :=
    match listed with
    | Some rules => (Some rules, mkCache (<[(scopeType, scopeID) := (rules, now)]> (entries c)) (ttl c))
    | None => (None, c)
    end in
  match entries c !! (scopeType, scopeID) with
  | Some (rules, fetchedAt) => if Sub now fetchedAt <? ttl c then (Some rules, c) else fetch
  | None => fetch
  end.

Definition Invalidate (c : AlertRuleCache) : AlertRuleCache := mkCache ∅ (ttl c).
Definition InvalidateScope (c : AlertRuleCache) (scopeType scopeID : string) : AlertRuleCache :=
  mkCache (delete (scopeType, scopeID) (entries c)) (ttl c).

(** ** Events *)

Record TableAlertEvent := mkEvent {
  ae_ID : string;
  RuleID : string;
  ae_ScopeType : string;
  ae_ScopeID : string;
  ae_Event : string;
  MetricValue : F;
  ae_Threshold : F;
  Message : string;
  ae_Status : DeliveryStatus;
  TriggeredAt : Time;
  ae_CreatedAt : Time;
}.

Definition setStatus (status : DeliveryStatus) (e : TableAlertEvent) : TableAlertEvent :=
  mkEvent (ae_ID e) (RuleID e) (ae_ScopeType e) (ae_ScopeID e) (ae_Event e) (MetricValue e) (ae_Threshold e) (Message e)
    status (TriggeredAt e) (ae_CreatedAt e).

(** [CreateAlertEvent] with the hook of the table: the row that is inserted.
    [id] is the id that is minted, [now] the clock, [db] the insert. *)
Definition CreateAlertEvent (events : list TableAlertEvent) (e : TableAlertEvent) (id : string) (now : Time) (db : bool) :
    option (list TableAlertEvent * TableAlertEvent) :=
  let rid := TrimSpace (RuleID e) in
  let name := ToLower (TrimSpace (ae_Event e)) in
  if bool_decide (rid = "") || bool_decide (name = "") || negb db then None
  else
    let row := mkEvent (if bool_decide (TrimSpace (ae_ID e) = "") then id else ae_ID e) rid (ToLower (TrimSpace (ae_ScopeType e)))
                 (ae_ScopeID e) name (MetricValue e) (ae_Threshold e) (Message e) (ae_Status e)
                 (if IsZero (TriggeredAt e) then now else TriggeredAt e) now in
    Some (events ++ [row], row).

Definition UpdateAlertEventDeliveryStatus (events : list TableAlertEvent) (id : string) (status : DeliveryStatus) (db : bool) : list TableAlertEvent :=
  if bool_decide (id = "") || negb db then events
  else (fun e => if bool_decide (ae_ID e = id) then setStatus status e else e) <$> events.

(** The later of two events; [id] decides between those of one time. *)
Definition laterEvent (a b : TableAlertEvent) : TableAlertEvent :=
  if (TriggeredAt a <? TriggeredAt b) || ((TriggeredAt a =? TriggeredAt b) && String.ltb (ae_ID a) (ae_ID b)) then b else a.

Definition sinceEvent (ruleID scopeType scopeID : string) (since : Time) (e : TableAlertEvent) : bool :=
  bool_decide (RuleID e = ruleID) && bool_decide (ae_ScopeType e = scopeType) && bool_decide (ae_ScopeID e = scopeID) && (since <=? TriggeredAt e).

Definition LatestAlertEventForRule (events : list TableAlertEvent) (ruleID scopeType scopeID : string) (since : Time) : option TableAlertEvent :=
  match base.filter (fun e => sinceEvent ruleID scopeType scopeID since e = true) events with
  | [] => None
  | e :: es => Some (foldl laterEvent e es)
  end.
(** ** The evaluator *)

(** The owner columns of a budget's row. *)
Record BudgetOwners := mkOwners {
  VirtualKeyID : option string;
  TeamID : option string;
  CustomerID : option string;
  ProviderConfigID : option Z;
  ModelConfigID : option string;
}.

Definition Budget : Type := @TableBudget F * BudgetOwners.

(** A pointer that is set to a non-empty string. *)
Definition named (o : option string) : option string :=
  match o with Some s => if bool_decide (s = "") then None else Some s | None => None end.

Definition budgetsToAlertScopes (o : BudgetOwners) : list (string * string) :=
  let out :=
    option_list (pair AlertScopeVirtualKey <$> named (VirtualKeyID o)) ++
    option_list (pair AlertScopeTeam <$> named (TeamID o)) ++
    option_list (pair AlertScopeCustomer <$> named (CustomerID o)) ++
    (match ProviderConfigID o with Some _ => [(AlertScopeGlobal, "")] | None => [] end) ++
    option_list (pair AlertScopeModel <$> named (ModelConfigID o)) in
  match out with [] => [(AlertScopeGlobal, "")] | _ => out end.

(** [scopeTypeForBudget] and [scopeIDForBudget]. *)
Definition scopeForBudget (o : BudgetOwners) : string * string :=
  match named (VirtualKeyID o), named (TeamID o), named (CustomerID o) with
  | Some id, _, _ => (AlertScopeVirtualKey, id)
  | None, Some id, _ => (AlertScopeTeam, id)
  | None, None, Some id => (AlertScopeCustomer, id)
  | None, None, None => (AlertScopeGlobal, "")
  end.

Definition ruleMetricMatches (r : TableAlertRule) : bool :=
  bool_decide (Metric r = AlertMetricBudgetUsagePercent) || bool_decide (Metric r = AlertMetricBudgetUsageAmount).

Definition eventForMetric (metric : string) : WebhookEvent :=
  if bool_decide (metric = AlertMetricSpendRate) then WebhookEventAlertSpendRate
  else if bool_decide (metric = AlertMetricErrorRate) then WebhookEventAlertErrorRate
  else WebhookEventAlertBudgetThreshold.

Definition resolveChannelEndpoints (r : TableAlertRule) : list string :=
  WebhookRef <$> base.filter (fun ch => ch_Type ch = AlertChannelTypeWebhook /\ WebhookRef ch <> "") (Channels r).

(** What the outside answers while a rule fires: the clock, whether each
    statement reaches the database and its clock, ids, texts, the body, and the
    inserts of webhook jobs. *)
Record FireIO := mkIO {
  io_now : Time;
  io_lookup : bool;
  io_id : string;
  io_createNow : Time;
  io_create : bool;
  io_text : string;
  io_body : result string string;
  io_uuids : nat -> string;
  io_insert : string -> nat -> option QueueError;
  io_status : bool;
}.

(** The events, and the webhook jobs that were inserted. *)
Record World := mkWorld { events : list TableAlertEvent; jobs : list TableWebhookJob }.

Definition newEvent (r : TableAlertRule) (scopeType scopeID : string) (percent : F) (text : string) (status : DeliveryStatus) (now : Time) : TableAlertEvent :=
  mkEvent "" (ar_ID r) scopeType scopeID (eventForMetric (Metric r)) percent (Threshold r) text status now zeroTime.

(** [EnqueueAlertEvent]. *)
Definition EnqueueAlertEvent (resolver : Resolver) (io : FireIO) (event : TableAlertEvent) (endpointIDs : list string) : list TableWebhookJob :=
  match io_body io with
  | Err _ => []
  | Ok body => base.filter (fun j => fst (insertWebhookJob (io_insert io (ID j))) = None)
                 (enqueueRendered resolver (io_uuids io) (ae_ID event) (ae_Event event) body endpointIDs)
  end.

(** The delivery of a new event; [dispatcher] is its endpoints, or [nil]. *)
Definition notify (dispatcher : option Resolver) (io : FireIO) (r : TableAlertRule) (event : TableAlertEvent) (w : World) : World :=
  match dispatcher, Channels r with
  | None, _ | _, [] => w
  | Some resolver, _ =>
      let mark status := UpdateAlertEventDeliveryStatus (events w) (ae_ID event) status (io_status io) in
      match resolveChannelEndpoints r with
      | [] => mkWorld (mark SkippedStatus) (jobs w)
      | endpointIDs =>
          match EnqueueAlertEvent resolver io event endpointIDs with
          | [] => mkWorld (mark FailedStatus) (jobs w)
          | queued => mkWorld (mark DeliveredStatus) (jobs w ++ queued)
          end
      end
  end.

(** The event that holds the rule back; a lookup that fails finds none. *)
Definition cooldownEvent (io : FireIO) (r : TableAlertRule) (scopeType scopeID : string) (w : World) : option TableAlertEvent :=
  if io_lookup io then LatestAlertEventForRule (events w) (ar_ID r) scopeType scopeID (io_now io - CooldownDuration r) else None.

Definition fireAndEnqueue (dispatcher : option Resolver) (io : FireIO) (r : TableAlertRule) (scopeType scopeID : string) (percent : F) (w : World) : World :=
  let create status := CreateAlertEvent (events w) (newEvent r scopeType scopeID percent (io_text io) status (io_now io)) (io_id io) (io_createNow io) (io_create io) in
  match cooldownEvent io r scopeType scopeID w with
  | Some _ => match create SkippedStatus with Some (es, _) => mkWorld es (jobs w) | None => w end
  | None => match create Pending with
            | Some (es, event) => notify dispatcher io r event (mkWorld es (jobs w))
            | None => w
            end
  end.

(** The evaluator's world: the cache, the events and jobs, and the number of
    the next answer of the outside. *)
Record Evaluator := mkEvaluator { cache : AlertRuleCache; world : World; calls : nat }.

Section Evaluate.
Variable dispatcher : option Resolver.
Variable io : nat -> FireIO.
(** What the store lists for a scope, at the time it is asked; the clock of the cache. *)
Variable listed : nat -> string -> string -> option (list TableAlertRule).
Variable clock : nat -> Time.

Definition evaluateRule (scopeType scopeID : string) (percent : F) (e : Evaluator) (r : TableAlertRule) : Evaluator :=
  if negb (ruleMetricMatches r) then e
  else if negb (ShouldFire r percent) then e
  else mkEvaluator (cache e) (fireAndEnqueue dispatcher (io (calls e)) r scopeType scopeID percent (world e)) (S (calls e)).

Definition evaluateOne (b : Budget) (e : Evaluator) (scope : string * string) : Evaluator :=
  let maxLimit := EffectiveMaxLimit b.1 in
  if leAmount maxLimit zeroAmount then e
  else
    let '(rules, c) := Get (cache e) scope.1 scope.2 (clock (calls e)) (listed (calls e) scope.1 scope.2) in
    let e := mkEvaluator c (world e) (S (calls e)) in
    match rules with
    | None => e
    | Some rules => foldl (evaluateRule scope.1 scope.2 (percentOf (CurrentUsage b.1) maxLimit)) e rules
    end.

Definition EvaluateSoftThresholds (budgets : list Budget) (e : Evaluator) : Evaluator :=
  foldl (fun e b => foldl (evaluateOne b) e (budgetsToAlertScopes b.2)) e budgets.
End Evaluate.

(** The hard block ([EnqueueBudgetExceeded] for each exhausted budget of a
    refused request): the jobs inserted. *)
Definition exhausted (b : @TableBudget F) : bool :=
  leAmount (EffectiveMaxLimit b) (CurrentUsage b) && ltAmount zeroAmount (EffectiveMaxLimit b).

Definition EnqueueBudgetExceeded (dispatcher : option Resolver) (uuids : nat -> string) (body : string) (insert : string -> nat -> option QueueError) : list TableWebhookJob :=
  match dispatcher with
  | None => []
  | Some resolver =>
      base.filter (fun j => fst (insertWebhookJob (insert (ID j))) = None)
        (Webhooks.EnqueueBudgetExceeded resolver uuids body (EndpointIDsForEvent (snd <$> map_to_list resolver) WebhookEventBudgetExceeded))
  end.

End Alerts.
End Alerts.
