(* ===== verification/AlertsTheory.v ===== *)
(** * Theorems about alerts

    When a rule that keeps firing sends its notification, and which budgets
    its rules see. *)

From S2P Require Import Prelude GoStrings Schemas Calendar Windows Webhooks Alerts.

Local Open Scope string_scope.
Local Open Scope Z_scope.
Local Open Scope list_scope.

Module AlertsTheory.
Import Calendar Windows Webhooks Alerts.

Section AlertsTheory.
Context {F : Type} `{Amount F}.

(** When the events of one rule and scope were triggered, as they were written. *)
Definition ofRule (ruleID scopeType scopeID : string) (e : TableAlertEvent (F := F)) : Prop :=
  RuleID e = ruleID /\ ae_ScopeType e = scopeType /\ ae_ScopeID e = scopeID.

Definition firings (ruleID scopeType scopeID : string) (es : list (TableAlertEvent (F := F))) : list Time :=
  TriggeredAt <$> base.filter (ofRule ruleID scopeType scopeID) es.

Lemma firings_app rid st sid es es' : firings rid st sid (es ++ es') = firings rid st sid es ++ firings rid st sid es'.
Proof. unfold firings. by rewrite filter_app, fmap_app. Qed.

(** Changing the status of events changes no firing. *)
Lemma firings_status rid st sid es id status db :
  firings rid st sid (UpdateAlertEventDeliveryStatus es id status db) = firings rid st sid es.
Proof.
  unfold UpdateAlertEventDeliveryStatus. case_match; [done|]. unfold firings.
  induction es as [|e es IH]; [done|]. rewrite fmap_cons, !filter_cons.
  assert (Ho : ofRule rid st sid (if bool_decide (ae_ID e = id) then setStatus status e else e) <-> ofRule rid st sid e) by (destruct (bool_decide (ae_ID e = id)); reflexivity).
  assert (Ht : TriggeredAt (if bool_decide (ae_ID e = id) then setStatus status e else e) = TriggeredAt e) by (destruct (bool_decide (ae_ID e = id)); reflexivity).
  destruct (decide (ofRule rid st sid e)) as [He|He].
  - rewrite decide_True by tauto. by rewrite !fmap_cons, IH, Ht.
  - by rewrite decide_False by tauto.
Qed.

Lemma latest_none es rid st sid since :
  LatestAlertEventForRule es rid st sid since = None <-> Forall (fun t => t < since) (firings rid st sid es).
Proof.
  unfold LatestAlertEventForRule.
  assert (base.filter (fun e => sinceEvent rid st sid since e = true) es = [] <-> Forall (fun t => t < since) (firings rid st sid es)) as <-.
  2:{ destruct (base.filter _ es); split; done. }
  unfold firings. rewrite Forall_fmap. induction es as [|e es IH]; [split; [constructor|done]|].
  rewrite !filter_cons.
  assert (Hs : sinceEvent rid st sid since e = true <-> ofRule rid st sid e /\ since <= TriggeredAt e).
  { unfold sinceEvent, ofRule. rewrite !andb_true_iff, !bool_decide_eq_true, Z.leb_le. tauto. }
  destruct (decide (ofRule rid st sid e)) as [Ho|Ho].
  - rewrite Forall_cons. destruct (decide (sinceEvent rid st sid since e = true)) as [He|He].
    + split; [done|]. intros [Hlt _]. apply Hs in He as [_ He]. cbn in Hlt. lia.
    + rewrite IH. cbn. split; [|tauto]. intros Hf. split; [|done].
      destruct (decide (TriggeredAt e < since)); [done|]. destruct He. apply Hs. split; [done|lia].
  - rewrite decide_False; [exact IH|]. rewrite Hs. tauto.
Qed.

(** ** A rule that keeps firing *)

Section OneRule.
Variable dispatcher : option Resolver.
Variable r : TableAlertRule (F := F).
Variables scopeType scopeID : string.
Variable percent : F.

(** The names of the rule and the scope are as the hooks leave them. *)
Definition canonical : Prop :=
  TrimSpace (ar_ID r) = ar_ID r /\ ar_ID r <> "" /\ ToLower (TrimSpace scopeType) = scopeType.

Local Notation fire := (fun w io => fireAndEnqueue dispatcher io r scopeType scopeID percent w).
Local Notation times w := (firings (ar_ID r) scopeType scopeID (events w)).

(** When the event of an evaluation says it was triggered. *)
Definition triggered (io : FireIO) : Time := if IsZero (io_now io) then io_createNow io else io_now io.

(** The event of an evaluation, if it is written at all. *)
Definition written (io : FireIO) : list Time := if io_create io then [triggered io] else [].

(** Nothing was triggered in the last cooldown, or nobody could tell. *)
Definition quiet (earlier : list Time) (io : FireIO) : Prop :=
  io_lookup io = false \/ Forall (fun t => t + CooldownDuration r < io_now io) earlier.

(** Whether one of the tries to insert a job succeeds or finds it there. *)
Definition taken (create : nat -> option QueueError) : bool :=
  existsb (fun i => bool_decide (create i = None \/ create i = Some ErrAlreadyExists)) (seq 0 enqueueAttempts).

(** What a rule sends when it notifies: for each webhook channel, in order, whose
    endpoint there is, is enabled and takes the event, one job with the event's
    ID and the rendered body, if one of the tries to insert it is taken. *)
Definition notification (io : FireIO) : list TableWebhookJob :=
  match dispatcher, io_body io with
  | Some resolver, Ok body =>
      concat (imap (fun i ref =>
        match resolver !! ref with
        | Some endpoint =>
            if negb (Disabled endpoint) && subscribesTo endpoint (eventForMetric (Metric r)) && taken (io_insert io (io_uuids io i))
            then [newJob (io_uuids io i) (we_ID endpoint) (io_id io) (eventForMetric (Metric r)) body] else []
        | None => []
        end)
        (WebhookRef <$> base.filter (fun ch => ch_Type ch = AlertChannelTypeWebhook /\ WebhookRef ch <> "") (Channels r)))
  | _, _ => []
  end.

Lemma insertLoop_taken create n i last : is_Some last ->
  (insertLoop create n i last).1 = None <-> existsb (fun j => bool_decide (create j = None \/ create j = Some ErrAlreadyExists)) (seq i n) = true.
Proof.
  revert i last. induction n as [|n IH]; intros i last Hl; cbn [insertLoop seq existsb]; [split; [by destruct Hl as [? ->]|done]|].
  rewrite orb_true_iff, bool_decide_eq_true. destruct (create i) as [[]|]; cbn [fst]; rewrite ?IH by done; naive_solver.
Qed.

Lemma insertWebhookJob_taken create : (insertWebhookJob create).1 = None <-> taken create = true.
Proof.
  unfold insertWebhookJob, taken. assert (0 < enqueueAttempts)%nat as Hn by (unfold enqueueAttempts; lia).
  destruct enqueueAttempts as [|n]; [lia|]. cbn [insertLoop seq existsb]. rewrite orb_true_iff, bool_decide_eq_true.
  destruct (create 0%nat) as [[]|]; cbn [fst]; rewrite ?insertLoop_taken by done; naive_solver.
Qed.

Lemma eventForMetric_clean m : ToLower (TrimSpace (eventForMetric m)) = eventForMetric m /\ eventForMetric m <> "".
Proof. unfold eventForMetric. by repeat case_bool_decide. Qed.

Lemma create_written es io status : canonical ->
  CreateAlertEvent es (newEvent r scopeType scopeID percent (io_text io) status (io_now io)) (io_id io) (io_createNow io) (io_create io) =
    if io_create io
    then Some (es ++ [mkEvent (io_id io) (ar_ID r) scopeType scopeID (eventForMetric (Metric r)) percent (Threshold r) (io_text io) status
                        (triggered io) (io_createNow io)],
               mkEvent (io_id io) (ar_ID r) scopeType scopeID (eventForMetric (Metric r)) percent (Threshold r) (io_text io) status
                 (triggered io) (io_createNow io))
    else None.
Proof.
  intros (Hid & Hne & Hst). unfold CreateAlertEvent. cbn [RuleID ae_Event newEvent TriggeredAt ae_ScopeType ae_ID].
  destruct (eventForMetric_clean (Metric r)) as [He Hn]. rewrite He, Hid, Hst, !bool_decide_false by done. by destruct (io_create io).
Qed.

Lemma notify_firings io event w : times (notify dispatcher io r event w) = times w.
Proof. unfold notify. repeat case_match; cbn [events]; rewrite ?firings_status; done. Qed.

Lemma enqueueRendered_spec resolver (create : string -> nat -> option QueueError) asyncJobID event body (k : nat -> nat) (uuids : nat -> string) refs :
  base.filter (fun j => fst (insertWebhookJob (create (ID j))) = None)
    (omap (fun p : nat * string => endpoint ← enqueueTarget resolver p.2 event; Some (newJob (uuids p.1) (we_ID endpoint) asyncJobID event body))
       (imap (fun i ref => (k i, ref)) refs)) =
  concat (imap (fun i ref =>
    match resolver !! ref with
    | Some endpoint => if negb (Disabled endpoint) && subscribesTo endpoint event && taken (create (uuids (k i)))
                       then [newJob (uuids (k i)) (we_ID endpoint) asyncJobID event body] else []
    | None => []
    end) refs).
Proof.
  revert k. induction refs as [|ref refs IH]; intros k; [done|]. rewrite !imap_cons. cbn [omap list_omap concat fst snd].
  specialize (IH (k ∘ S)). change ((fun i ref => (k i, ref)) ∘ S) with (fun i (ref : string) => ((k ∘ S) i, ref)).
  unfold enqueueTarget at 1. destruct (resolver !! ref) as [endpoint|]; cbn [mbind option_bind]; [|exact IH].
  destruct (Disabled endpoint); cbn [orb negb andb]; [exact IH|]. destruct (subscribesTo endpoint event); cbn [orb negb andb mbind option_bind]; [|exact IH].
  rewrite filter_cons. change (ID (newJob (uuids (k 0%nat)) (we_ID endpoint) asyncJobID event body)) with (uuids (k 0%nat)).
  destruct (decide _) as [Ht|Ht]; rewrite insertWebhookJob_taken in Ht.
  - rewrite Ht. cbn [app]. f_equal. exact IH.
  - apply not_true_is_false in Ht. rewrite Ht. exact IH.
Qed.

(** A rule that notifies sends its notification. *)
Lemma notify_jobs io event w : ae_ID event = io_id io -> ae_Event event = eventForMetric (Metric r) ->
  jobs (notify dispatcher io r event w) = jobs w ++ notification io.
Proof.
  intros Hid Hev. unfold notify, notification. destruct dispatcher as [resolver|]; [|by rewrite app_nil_r].
  destruct (Channels r) as [|ch chs] eqn:Ec; [cbn; destruct (io_body io); by rewrite app_nil_r|]. rewrite <-Ec.
  unfold resolveChannelEndpoints. set (refs := WebhookRef <$> _).
  assert (He : EnqueueAlertEvent resolver io event refs = match io_body io with Ok body => concat (imap (fun i ref =>
        match resolver !! ref with
        | Some endpoint =>
            if negb (Disabled endpoint) && subscribesTo endpoint (eventForMetric (Metric r)) && taken (io_insert io (io_uuids io i))
            then [newJob (io_uuids io i) (we_ID endpoint) (io_id io) (eventForMetric (Metric r)) body] else []
        | None => []
        end) refs) | Err _ => [] end).
  { unfold EnqueueAlertEvent. destruct (io_body io); [|done]. rewrite Hid, Hev. apply (enqueueRendered_spec resolver (io_insert io) _ _ _ (fun i => i)). }
  destruct refs as [|ref refs']; [cbn; destruct (io_body io); by rewrite app_nil_r|]. rewrite He. destruct (io_body io) as [body|]; [|by rewrite app_nil_r].
  destruct (concat _) as [|j js] eqn:Ej; [by rewrite app_nil_r|done].
Qed.

Lemma cooldownEvent_quiet w io : cooldownEvent io r scopeType scopeID w = None <-> quiet (times w) io.
Proof.
  unfold cooldownEvent, quiet. destruct (io_lookup io); [|tauto]. rewrite latest_none. split.
  - intros Hf. right. eapply Forall_impl; [exact Hf|]. cbn. lia.
  - intros [?|Hf]; [done|]. eapply Forall_impl; [exact Hf|]. cbn. lia.
Qed.

Lemma quiet_dec earlier io : {quiet earlier io} + {~ quiet earlier io}.
Proof. unfold quiet. apply or_dec; solve_decision. Qed.

(** One evaluation. *)
Lemma fire_once w io : canonical ->
  times (fire w io) = times w ++ written io /\
  jobs (fire w io) = jobs w ++ (if quiet_dec (times w) io then if io_create io then notification io else [] else []).
Proof.
  intros Hc. unfold fireAndEnqueue. pose proof (cooldownEvent_quiet w io) as Hq. rewrite !create_written by done. unfold written.
  assert (Hrow : forall status, firings (ar_ID r) scopeType scopeID [mkEvent (io_id io) (ar_ID r) scopeType scopeID (eventForMetric (Metric r)) percent
    (Threshold r) (io_text io) status (triggered io) (io_createNow io)] = [triggered io]).
  { intros status. unfold firings. by rewrite filter_cons_True. }
  destruct (quiet_dec (times w) io) as [Hy|Hy], (cooldownEvent io r scopeType scopeID w) as [e|].
  - apply Hq in Hy. done.
  - destruct (io_create io); [|by rewrite !app_nil_r]. rewrite notify_firings, notify_jobs by done. cbn [events jobs].
    by rewrite firings_app, Hrow.
  - destruct (io_create io); cbn [events jobs]; rewrite ?app_nil_r; [|done]. by rewrite firings_app, Hrow.
  - by destruct Hy; apply Hq.
Qed.

(** The times of the events before an evaluation. *)
Definition earlier (w0 : World) (before : list FireIO) : list Time := times w0 ++ concat (written <$> before).

Lemma fires_times w0 ios : canonical -> times (foldl fire w0 ios) = earlier w0 ios.
Proof.
  intros Hc. unfold earlier. induction ios as [|io ios IH] using rev_ind; [by rewrite app_nil_r|].
  rewrite foldl_snoc, fmap_app, concat_app. cbn [fmap list_fmap concat]. rewrite app_nil_r.
  rewrite (proj1 (fire_once _ io Hc)), IH. by rewrite app_assoc.
Qed.

(** Each evaluation comes within the cooldown of the one before, whose event was
    written, and can look it up. *)
Definition steady (ios : list FireIO) : Prop :=
  forall i a b, ios !! i = Some a -> ios !! S i = Some b -> io_create a = true /\ io_lookup b = true /\ io_now b <= triggered a + CooldownDuration r.

Lemma steady_init ios io : steady (ios ++ [io]) -> steady ios.
Proof. intros Ho i b c Hb Hc. apply (Ho i); by apply lookup_app_l_Some. Qed.

Lemma steady_last w0 ios p io : steady (ios ++ [io]) -> last ios = Some p -> ~ quiet (earlier w0 ios) io.
Proof.
  intros Hs [l ->]%last_Some. destruct (Hs (length l) p io) as (Hc & Hl & Hn); rewrite <-?app_assoc;
    [by rewrite lookup_app_r, Nat.sub_diag by done| |].
  { rewrite lookup_app_r by lia. by replace (S (length l) - length l)%nat with 1%nat by lia. }
  intros [?|Hf]; [congruence|]. rewrite Forall_forall in Hf. specialize (Hf (triggered p)). cbn in Hf.
  assert (triggered p ∈ earlier w0 (l ++ [p])) as Hin; [|specialize (Hf Hin); lia].
  unfold earlier. rewrite fmap_app, concat_app. cbn. unfold written at 2. rewrite Hc. set_solver.
Qed.
End OneRule.

(** C33. Evaluations of one rule and scope whose values fire it, one after the
    other, from any events.  Each sends its notification, once for each webhook
    channel of the rule whose endpoint takes it and none to another, exactly when
    no event of the rule and scope, sent or held back, was triggered within the
    cooldown before it, or the lookup failed, and its own event could be written;
    otherwise it queues nothing; either way it leaves one more event, unless it
    could not be written.  So under steady traffic (every gap within the cooldown,
    the stores answering) only the first evaluation can ever notify, however long
    it goes on.  The rule's ID has no blanks around it and the scope is in lower
    case, as the hooks leave them. *)
Theorem fires_iff_quiet dispatcher r scopeType scopeID percent w0 : canonical r scopeType ->
  let fire := fun w io => fireAndEnqueue dispatcher io r scopeType scopeID percent w in
  let before ios := earlier r scopeType scopeID w0 ios in
  (forall ios io,
     let w := foldl fire w0 ios in
     firings (ar_ID r) scopeType scopeID (events (fire w io)) = firings (ar_ID r) scopeType scopeID (events w) ++ written io /\
     (quiet r (before ios) io -> io_create io = true -> jobs (fire w io) = jobs w ++ notification dispatcher r io) /\
     (~ quiet r (before ios) io \/ io_create io = false -> jobs (fire w io) = jobs w)) /\
  (forall first rest, steady r (first :: rest) -> jobs (foldl fire w0 (first :: rest)) = jobs (fire w0 first)).
Proof.
  intros Hc fire before. assert (H1 : forall ios io,
     let w := foldl fire w0 ios in
     firings (ar_ID r) scopeType scopeID (events (fire w io)) = firings (ar_ID r) scopeType scopeID (events w) ++ written io /\
     (quiet r (before ios) io -> io_create io = true -> jobs (fire w io) = jobs w ++ notification dispatcher r io) /\
     (~ quiet r (before ios) io \/ io_create io = false -> jobs (fire w io) = jobs w)).
  { intros ios io w. destruct (fire_once dispatcher r scopeType scopeID percent w io Hc) as [Ht Hj].
    pose proof (fires_times dispatcher r scopeType scopeID percent w0 ios Hc) as He. fold fire w in He. fold (before ios) in He. rewrite He in Hj.
    split; [exact Ht|]. fold (fire w io) in Hj. rewrite Hj. destruct (quiet_dec _ _ _) as [Hq|Hq].
    - split; [by intros _ ->|]. intros [?| ->]; [done|by rewrite app_nil_r].
    - split; [done|]. intros _. by rewrite app_nil_r. }
  split; [exact H1|]. intros first rest. induction rest as [|io rest IH] using rev_ind; [done|]. intros Hs.
  rewrite app_comm_cons in *. rewrite foldl_snoc. rewrite <-(IH (steady_init _ _ _ Hs)). apply H1. left.
  destruct (last (first :: rest)) as [p|] eqn:Hp; [|by apply last_None in Hp]. by eapply steady_last.
Qed.
End AlertsTheory.

(** ** A rule under steady traffic *)

#[local] Instance natural_amount : Amount Z :=
  { zeroAmount := 0; addAmount := Z.add; leAmount := Z.leb; ltAmount := Z.ltb; finiteAmount := fun _ => true }.

Definition exampleRule : TableAlertRule (F := Z) :=
  mkRule "r" "spend" AlertScopeTeam "t" AlertMetricBudgetUsagePercent 80 AlertComparisonGTE 60 AlertStatusEnabled
    [mkChannel AlertChannelTypeWebhook "e"] 0.

Definition exampleIO (t : Time) : FireIO :=
  mkIO t true "event" t true "fired" (Ok "{}") (fun _ => "job") (fun _ _ => None) true.

Definition exampleEndpoints : Resolver :=
  {["e" := mkEndpoint "e" "https://receiver" None [WebhookEventAlertBudgetThreshold] [] false false 0 0 0 0 0 0 false]}.

(** Evaluations 59 minutes apart, for hours, with a cooldown of an hour: one job. *)
Lemma fires_iff_quiet_witness :
  jobs (foldl (fun w io => fireAndEnqueue (Some exampleEndpoints) io exampleRule AlertScopeTeam "t" 90 w)
    (mkWorld [] []) [exampleIO 0; exampleIO (59 * Minute); exampleIO (118 * Minute)]) =
  [newJob "job" "e" "event" WebhookEventAlertBudgetThreshold "{}"].
Proof.
  destruct (fires_iff_quiet (Some exampleEndpoints) exampleRule AlertScopeTeam "t" 90 (mkWorld [] [])) as [H1 H2]; [by vm_compute|].
  rewrite H2.
  - destruct (H1 [] (exampleIO 0)) as (_ & Hq & _). cbn [foldl] in Hq. rewrite Hq; [by vm_compute| |done].
    right. by vm_compute.
  - intros [|[|[|i]]] a b; cbn; intros [= <-] [= <-]; cbn; (split; [done|]; split; [done|]); vm_compute; discriminate.
Defined.
End AlertsTheory.
