(* ===== verification/McpTools.v ===== *)
(** * Tools of MCP clients (src/core/mcp/utils.go, agent.go, exec.go, clientmanager.go)

    Which tools a request sees, which of them may be called and over which
    connection, and which the agent may call without asking: the allow lists of clients and requests, and
    the check of code before it is run in code mode.  Clients come in the order
    in which Go ranges over their map; text is ASCII. *)

From S2P Require Import Prelude GoStrings Schemas Context GovResolver.
From Stdlib Require Import Ascii.

Local Open Scope string_scope.
Local Open Scope list_scope.

Module McpTools.
Import Schemas Context.

(** ** Clients *)

(** [MCPConnectionStateNone] is the zero value, of an entry that is being added. *)
Inductive MCPConnectionState :=
| MCPConnectionStateNone
| MCPConnectionStateHealthy | MCPConnectionStateUnstable | MCPConnectionStateError
| MCPConnectionStatePendingVerification | MCPConnectionStateDisabled | MCPConnectionStateNeedsReauth.

#[export] Instance MCPConnectionState_eq_dec : EqDecision MCPConnectionState.
Proof. solve_decision. Defined.

(** A list that is [nil] is empty. *)
Record MCPClientConfig := mkConfig {
  cfg_ID : string;
  Name : string;
  IsCodeModeClient : bool;
  ToolsToExecute : WhiteList.t;
  ToolsToAutoExecute : WhiteList.t;
}.

(** [ToolMap] is its set of names, which carry the prefix of the client. *)
Record MCPClientState := mkClient {
  ExecutionConfig : MCPClientConfig;
  ToolMap : gset string;
  ToolNameMapping : gmap string string;
  State : MCPConnectionState;
}.

Definition stripClientPrefix (prefixedToolName clientName : string) : string :=
  if HasPrefix prefixedToolName (clientName +:+ "-") then str_drop (String.length (clientName +:+ "-")) prefixedToolName
  else prefixedToolName.

Definition getOriginalToolName (sanitizedToolName : string) (toolNameMapping : gmap string string) : string :=
  default sanitizedToolName (toolNameMapping !! sanitizedToolName).

(** [None] is a [nil] list: no filter. *)
Definition shouldIncludeClient (clientName : string) (includeClients : option (list string)) : bool :=
  match includeClients with
  | None => true
  | Some [] => false
  | Some l => bool_decide ("*" ∈ l) || bool_decide (clientName ∈ l)
  end.

Definition shouldSkipToolForConfig (toolName : string) (config : MCPClientConfig) : bool :=
  if WhiteList.IsEmpty (ToolsToExecute config) then true
  else if WhiteList.IsUnrestricted (ToolsToExecute config) then false
  else negb (WhiteList.Contains (ToolsToExecute config) (stripClientPrefix toolName (Name config))).

Definition canAutoExecuteTool (toolName : string) (config : MCPClientConfig) : bool :=
  if shouldSkipToolForConfig toolName config then false
  else if WhiteList.IsEmpty (ToolsToAutoExecute config) then false
  else if WhiteList.IsUnrestricted (ToolsToAutoExecute config) then true
  else WhiteList.Contains (ToolsToAutoExecute config) (stripClientPrefix toolName (Name config)).

(** The two lists of the request's context. *)
Definition includeClientsOf (ctx : BifrostContext) : option (list string) :=
  match value ctx GovResolver.KeyMCPIncludeClients with VStrings l => Some l | _ => None end.

Definition includeToolsOf (ctx : BifrostContext) : Value := value ctx GovResolver.KeyMCPIncludeTools.

Definition GetClientForTool (clients : list MCPClientState) (toolName : string) : option MCPClientState :=
  find (fun c => bool_decide (toolName ∈ ToolMap c)) clients.

Definition GetClientByName (clients : list MCPClientState) (clientName : string) : option MCPClientState :=
  find (fun c => bool_decide (Name (ExecutionConfig c) = clientName)) clients.

(** The names of the tools of one client that pass both filters. *)
Definition clientTools (ctx : BifrostContext) (client : MCPClientState) : list string :=
  let config := ExecutionConfig client in
  base.filter (fun toolName => shouldSkipToolForConfig toolName config = false /\
                     GovResolver.shouldSkipToolForRequest (includeToolsOf ctx) (Name config) toolName = false)
    (SortStrings (elements (ToolMap client))).

(** [clientsByName]: the last client of a name. *)
Definition clientNamed (clients : list MCPClientState) (clientName : string) : option MCPClientState :=
  last (base.filter (fun c => Name (ExecutionConfig c) = clientName) clients).

Definition addClientTools (ctx : BifrostContext) (clients : list MCPClientState) (tools : gmap string (list string)) (clientName : string) : gmap string (list string) :=
  match clientNamed clients clientName with
  | None => tools
  | Some client =>
      if bool_decide (State client = MCPConnectionStateDisabled) then tools
      else if negb (shouldIncludeClient clientName (includeClientsOf ctx)) then tools
      else match clientTools ctx client with
           | [] => tools
           | added => <[clientName := default [] (tools !! clientName) ++ added]> tools
           end
  end.

Definition GetToolPerClient (ctx : BifrostContext) (clients : list MCPClientState) : gmap string (list string) :=
  foldl (addClientTools ctx clients) ∅ (SortStrings ((fun c => Name (ExecutionConfig c)) <$> clients)).

(** ** Code mode *)

Definition ToolTypeListToolFiles : string := "listToolFiles".
Definition ToolTypeReadToolFile : string := "readToolFile".
Definition ToolTypeGetToolDocs : string := "getToolDocs".
Definition ToolTypeExecuteToolCode : string := "executeToolCode".

Definition codeModeToolNames : list string :=
  [ToolTypeListToolFiles; ToolTypeReadToolFile; ToolTypeGetToolDocs; ToolTypeExecuteToolCode].

Definition IsCodeModeTool (toolName : string) : bool := bool_decide (toolName ∈ codeModeToolNames).

Definition isDigit (c : ascii) : bool := let n := nat_of_ascii c in (48 <=? n)%nat && (n <=? 57)%nat.
Definition isLetter (c : ascii) : bool :=
  let n := nat_of_ascii c in ((65 <=? n)%nat && (n <=? 90)%nat) || ((97 <=? n)%nat && (n <=? 122)%nat).
Definition isNameStart (c : ascii) : bool := isLetter c || Ascii.eqb c "_" || Ascii.eqb c "$".
Definition isNameChar (c : ascii) : bool := isNameStart c || isDigit c.

(** The characters of [parseToolName] after the first; [endsWithUnderscore] is
    about what is written so far. *)
Fixpoint parseRest (endsWithUnderscore : bool) (s : string) : string :=
  match s with
  | "" => ""
  | String c s =>
      if isNameChar c then String (lower_byte c) (parseRest (Ascii.eqb c "_") s)
      else if is_space c || Ascii.eqb c "-" then
        if endsWithUnderscore then parseRest true s else String "_" (parseRest true s)
      else parseRest endsWithUnderscore s
  end.

Fixpoint trimRightUnderscore (s : string) : string :=
  match s with
  | "" => ""
  | String c s' => match trimRightUnderscore s' with
                   | "" => if Ascii.eqb c "_" then "" else String c ""
                   | t => String c t
                   end
  end.

Definition parseToolName (toolName : string) : string :=
  match toolName with
  | "" => ""
  | String first rest =>
      let start := if isNameStart first then String (lower_byte first) ""
                   else if isDigit first then String "_" (String first "") else "_" in
      let endsWithUnderscore := if isNameStart first then Ascii.eqb first "_" else negb (isDigit first) in
      match trimRightUnderscore (start +:+ parseRest endsWithUnderscore rest) with
      | "" => "tool"
      | parsed => parsed
      end
  end.

(** [strings.ReplaceAll s "-" "_"]. *)
Fixpoint dashesToUnderscores (s : string) : string :=
  match s with
  | "" => ""
  | String c s => String (if Ascii.eqb c "-" then "_"%char else c) (dashesToUnderscores s)
  end.

(** [\s] of Go's regular expressions. *)
Definition isBlank (c : ascii) : bool :=
  let n := nat_of_ascii c in (n =? 9)%nat || (n =? 10)%nat || (n =? 12)%nat || (n =? 13)%nat || (n =? 32)%nat.

Fixpoint skipBlanks (s : string) : string :=
  match s with
  | String c s' => if isBlank c then skipBlanks s' else s
  | "" => ""
  end.

(** The longest name at the start of a text, and the rest. *)
Fixpoint takeName (s : string) : string * string :=
  match s with
  | String c s' => if isNameChar c then let '(n, r) := takeName s' in (String c n, r) else ("", s)
  | "" => ("", "")
  end.

Definition nameAt (s : string) : option (string * string) :=
  match s with
  | String c _ => if isNameStart c then Some (takeName s) else None
  | "" => None
  end.

Record toolCallInfo := mkCallInfo { serverName : string; ci_toolName : string }.

(** [NAME \s* \. \s* NAME \s* \( ] at the start of a text, and what follows. *)
Definition callAt (s : string) : option (toolCallInfo * string) :=
  '(server, s) ← nameAt s;
  match skipBlanks s with
  | String "." s =>
      '(tool, s) ← nameAt (skipBlanks s);
      match skipBlanks s with
      | String "(" s => Some (mkCallInfo server tool, s)
      | _ => None
      end
  | _ => None
  end.

(** [(?:await\s+)?] is tried before the plain call. *)
Definition awaitedCallAt (s : string) : option (toolCallInfo * string) :=
  let awaited :=
    if HasPrefix s "await" then
      match str_drop 5 s with
      | String c s' => if isBlank c then callAt (skipBlanks s') else None
      | "" => None
      end
    else None in
  match awaited with
  | Some r => Some r
  | None => callAt s
  end.

(** The leftmost matches, one after the other. *)
Fixpoint findCalls (fuel : nat) (s : string) : list toolCallInfo :=
  match fuel with
  | O => []
  | S fuel =>
      match awaitedCallAt s with
      | Some (call, rest) => call :: findCalls fuel rest
      | None => match s with
                | String _ s => findCalls fuel s
                | "" => []
                end
      end
  end.

Definition extractToolCallsFromCode (code : string) : list toolCallInfo := findCalls (S (String.length code)) code.

Definition isToolCallAllowedForCodeMode (server toolName : string) (allClientNames : list string) (allowedAutoExecutionTools : gmap string (list string)) : bool :=
  if negb (bool_decide (server ∈ allClientNames)) then true
  else match allowedAutoExecutionTools !! server with
       | None => false
       | Some allowedTools => bool_decide ("*" ∈ allowedTools) || bool_decide (toolName ∈ allowedTools)
       end.

(** The tools of a client as they are called in code. *)
Definition autoExecutableInCode (config : MCPClientConfig) : option (list string) :=
  if negb (IsCodeModeClient config) || WhiteList.IsEmpty (ToolsToAutoExecute config) then None
  else Some (if WhiteList.IsUnrestricted (ToolsToAutoExecute config) then ["*"]
             else (fun n => parseToolName (dashesToUnderscores n)) <$> ToolsToAutoExecute config).

Definition buildAllowedAutoExecutionTools (ctx : BifrostContext) (clients : list MCPClientState) : list string * gmap string (list string) :=
  let available := base.filter (fun n => is_Some (GetClientByName clients n)) (fst <$> map_to_list (GetToolPerClient ctx clients)) in
  (available,
   foldl (fun m n => match client ← GetClientByName clients n; autoExecutableInCode (ExecutionConfig client) with
                     | Some tools => <[n := tools]> m
                     | None => m
                     end) ∅ available).

(** Whether a call of [executeToolCode] may run on its own; [code] is the
    argument of the call, [None] when it cannot be read. *)
Definition codeMayRun (ctx : BifrostContext) (clients : list MCPClientState) (code : option string) : bool :=
  match code with
  | None | Some "" => false
  | Some code =>
      let '(allClientNames, allowed) := buildAllowedAutoExecutionTools ctx clients in
      match extractToolCallsFromCode code with
      | [] => true
      | calls => negb (bool_decide (allowed = ∅)) &&
                 forallb (fun c => isToolCallAllowedForCodeMode (serverName c) (ci_toolName c) allClientNames allowed) calls
      end
  end.

(** The part of [executeAgent] that decides for one call; [codeArgument] reads
    the argument [code] of a call's arguments. *)
Definition mayAutoExecute (codeArgument : string -> option string) (ctx : BifrostContext) (clients : list MCPClientState) (name : option string) (arguments : string) : bool :=
  match name with
  | None => false
  | Some toolName =>
      match GetClientForTool clients toolName with
      | None =>
          if bool_decide (toolName = ToolTypeListToolFiles) || bool_decide (toolName = ToolTypeReadToolFile) || bool_decide (toolName = ToolTypeGetToolDocs) then true
          else if bool_decide (toolName = ToolTypeExecuteToolCode) then codeMayRun ctx clients (codeArgument arguments)
          else false
      | Some client => canAutoExecuteTool toolName (ExecutionConfig client)
      end
  end.

(** ** Executing one tool (exec.go) *)

Inductive Prepared :=
| RunInCodeMode
| RunOn (client : MCPClientState)
| NotRun (message : string).

(** How opening a connection for one call ended: the pipeline of connect
    plugins, the credentials and the dial. [OpenShortCircuited] is a plugin that
    answers itself, without a connection. *)
Inductive PerCallOutcome :=
| Opened
| OpenFailed (authRequired : option string) (message : option string)
| OpenShortCircuited.

(** What [AcquireClientConn] finds: whether calls on a client need connections of
    their own, its shared connection, its URL, and the opening of one. *)
Record Connections := mkConnections {
  requiresPerCall : MCPClientConfig -> bool;
  hasConn : MCPClientState -> bool;
  connectionString : MCPClientConfig -> option string;
  openPerCall : BifrostContext -> MCPClientConfig -> string -> PerCallOutcome;
}.

(** The text of its error, if any (clientmanager.go). *)
Definition AcquireClientConn (o : Connections) (ctx : BifrostContext) (client : MCPClientState) : option string :=
  let config := ExecutionConfig client in
  if negb (requiresPerCall o config) then
    if hasConn o client then None else Some ("MCP client " +:+ Name config +:+ " has no active connection")
  else match connectionString o config with
       | None | Some "" => Some "connection URL is required for ephemeral MCP execution"
       | Some url =>
           match openPerCall o ctx config url with
           | Opened => None
           | OpenFailed (Some auth) _ => Some auth
           | OpenFailed None (Some message) => Some message
           | OpenFailed None None => Some ("ephemeral connection setup failed for " +:+ Name config)
           | OpenShortCircuited => Some ("ephemeral MCP connection was short-circuited by plugin for " +:+ Name config)
           end
       end.

Definition prepareToolExecution (codeMode : bool) (o : Connections) (ctx : BifrostContext) (clients : list MCPClientState) (toolName : string) : Prepared :=
  if bool_decide (toolName = "") then NotRun "tool call missing function name"
  else if codeMode && IsCodeModeTool toolName then RunInCodeMode
  else match GetClientForTool clients toolName with
       | None => NotRun ("tool '" +:+ toolName +:+ "' is not available or not permitted")
       | Some client =>
           let clientName := Name (ExecutionConfig client) in
           if bool_decide (State client = MCPConnectionStateDisabled)
           then NotRun ("tool '" +:+ toolName +:+ "' is not permitted (client " +:+ clientName +:+ " is disabled)")
           else if negb (shouldIncludeClient clientName (includeClientsOf ctx))
           then NotRun ("tool '" +:+ toolName +:+ "' is not permitted (client " +:+ clientName +:+ " is not in request-context include list)")
           else if shouldSkipToolForConfig toolName (ExecutionConfig client)
           then NotRun ("tool '" +:+ toolName +:+ "' is not permitted (not in client's ToolsToExecute allow-list)")
           else if GovResolver.shouldSkipToolForRequest (includeToolsOf ctx) clientName toolName
           then NotRun ("tool '" +:+ toolName +:+ "' is not permitted (filtered by request context)")
           else if bool_decide (State client = MCPConnectionStateNeedsReauth)
           then NotRun ("tool '" +:+ toolName +:+ "' is unavailable: client " +:+ clientName +:+ " needs re-authorization (its admin credential expired or was revoked)")
           else match AcquireClientConn o ctx client with
                | Some message => NotRun message
                | None => RunOn client
                end
       end.
End McpTools.
