(* ===== verification/McpClients.v ===== *)
(** * The clients of the MCP manager (src/core/mcp/clientmanager.go, connectionchecker.go)

    The entries of clients with their connections, and every operation on them
    as the sections that run under the lock of the manager, so that dials,
    checks and edits interleave between sections.  A map entry is a pointer in
    the code; here it carries the number of its allocation.  A connection is the
    ID of its client and a number; [openConns] are those that are open.  Cancel functions, the display
    of a connection and the logs are left out.  Generations do not wrap. *)

From S2P Require Import Prelude GoStrings McpTools.
From Stdlib Require Import Ascii.

Local Open Scope string_scope.
Local Open Scope Z_scope.
Local Open Scope list_scope.

Module McpClients.

#[export] Existing Instance McpTools.MCPConnectionState_eq_dec.

Abbreviation MCPConnectionState := McpTools.MCPConnectionState.
Abbreviation Healthy := McpTools.MCPConnectionStateHealthy.
Abbreviation Unstable := McpTools.MCPConnectionStateUnstable.
Abbreviation PendingVerification := McpTools.MCPConnectionStatePendingVerification.
Abbreviation DisabledState := McpTools.MCPConnectionStateDisabled.
Abbreviation NeedsReauth := McpTools.MCPConnectionStateNeedsReauth.

(** ** Configurations *)

Inductive MCPConnectionType := TypeHTTP | TypeSSE | TypeSTDIO | TypeInProcess.

#[export] Instance MCPConnectionType_eq_dec : EqDecision MCPConnectionType.
Proof. solve_decision. Defined.

Definition MCPAuthTypeNone : string := "none".
Definition MCPAuthTypeHeaders : string := "headers".
Definition MCPAuthTypeOauth : string := "oauth".
Definition MCPAuthTypePerUserOauth : string := "per_user_oauth".
Definition MCPAuthTypePerUserHeaders : string := "per_user_headers".
Definition MCPAuthTypeTokenExchange : string := "token_exchange".

(** Tools by their names, and the names that the server uses. *)
Record Discovered := mkTools { tools : gset string; toolNameMapping : gmap string string }.

Definition noTools : Discovered := mkTools ∅ ∅.

(** [Pending] is whether [PendingOAuthConfig] is set; [DiscoveredTools] is
    [None] for a [nil] map; [Endpoint] is the address, command or server, and
    [Rest] what is only carried along.  An update that leaves the type out is
    one that repeats it. *)
Record MCPClientConfig := mkConfig {
  ID : string; Name : string;
  ConnectionType : MCPConnectionType; AuthType : string;
  NeedsSessionStickiness : option bool;
  Pending : bool; Disabled : bool;
  DiscoveredTools : option Discovered;
  ToolSyncInterval : Z; IsPingAvailable : option bool;
  Headers : option string; Endpoint : option string; Rest : string;
}.

Definition setDisabled (config : MCPClientConfig) (disabled : bool) : MCPClientConfig :=
  mkConfig (ID config) (Name config) (ConnectionType config) (AuthType config) (NeedsSessionStickiness config)
    (Pending config) disabled (DiscoveredTools config) (ToolSyncInterval config) (IsPingAvailable config) (Headers config) (Endpoint config) (Rest config).

(** [credstore.go]: an unknown kind of authorization is shared. *)
Definition needsSessionStickiness (config : MCPClientConfig) : bool :=
  match ConnectionType config with
  | TypeHTTP => bool_decide (NeedsSessionStickiness config = Some true)
  | _ => true
  end.

Definition RequiresPerCallConnection (config : MCPClientConfig) : bool :=
  if bool_decide (AuthType config ∈ [MCPAuthTypePerUserOauth; MCPAuthTypePerUserHeaders; MCPAuthTypeTokenExchange]) then true
  else if bool_decide (AuthType config ∈ [MCPAuthTypeNone; MCPAuthTypeHeaders; MCPAuthTypeOauth]) then negb (needsSessionStickiness config)
  else false.

Definition awaitsOAuth (config : MCPClientConfig) : bool :=
  Pending config && (bool_decide (AuthType config = MCPAuthTypeOauth) || bool_decide (AuthType config = MCPAuthTypePerUserOauth)).

(** ** Entries and the manager *)

Record MCPClientState := mkClient {
  ExecutionConfig : MCPClientConfig;
  ToolMap : Discovered;
  Conn : option (string * nat);
  State : MCPConnectionState;
  ConnGeneration : Z;
  LastToolsHash : string;
}.

Definition setState (e : MCPClientState) (s : MCPConnectionState) : MCPClientState :=
  mkClient (ExecutionConfig e) (ToolMap e) (Conn e) s (ConnGeneration e) (LastToolsHash e).
Definition setConfig (e : MCPClientState) (c : MCPClientConfig) : MCPClientState :=
  mkClient c (ToolMap e) (Conn e) (State e) (ConnGeneration e) (LastToolsHash e).
Definition setTools (e : MCPClientState) (t : Discovered) : MCPClientState :=
  mkClient (ExecutionConfig e) t (Conn e) (State e) (ConnGeneration e) (LastToolsHash e).
Definition setConn (e : MCPClientState) (c : option (string * nat)) : MCPClientState :=
  mkClient (ExecutionConfig e) (ToolMap e) c (State e) (ConnGeneration e) (LastToolsHash e).
Definition bumpGeneration (e : MCPClientState) : MCPClientState :=
  mkClient (ExecutionConfig e) (ToolMap e) (Conn e) (State e) (ConnGeneration e + 1) (LastToolsHash e).
Definition setHash (e : MCPClientState) (h : string) : MCPClientState :=
  mkClient (ExecutionConfig e) (ToolMap e) (Conn e) (State e) (ConnGeneration e) h.

(** The state of an exclusive operation on a client. *)
Inductive inflightClientOp := InFlight | Finished (err : option string).

(** Calls of the two callbacks. *)
Inductive Notice :=
| StateChanged (id name : string) (old new : MCPConnectionState)
| ToolsChanged (id name : string) (t : Discovered).

(** [clientMap] holds the allocation of an entry with it. *)
Record MCPManager := mkManager {
  clientMap : gmap string (nat * MCPClientState);
  reconnectingClients : gmap string inflightClientOp;
  openConns : gset (string * nat);
  nextConn : nat;
  nextEntry : nat;
  notices : list Notice;
}.

Definition setClients (m : MCPManager) (c : gmap string (nat * MCPClientState)) : MCPManager :=
  mkManager c (reconnectingClients m) (openConns m) (nextConn m) (nextEntry m) (notices m).
Definition setOps (m : MCPManager) (o : gmap string inflightClientOp) : MCPManager :=
  mkManager (clientMap m) o (openConns m) (nextConn m) (nextEntry m) (notices m).
Definition notify (m : MCPManager) (l : list Notice) : MCPManager :=
  mkManager (clientMap m) (reconnectingClients m) (openConns m) (nextConn m) (nextEntry m) (notices m ++ l).

Definition NewMCPManager : MCPManager := mkManager ∅ ∅ ∅ 0 0 [].

(** An entry is changed in place. *)
Definition updateEntry (m : MCPManager) (id : string) (p : nat) (e : MCPClientState) : MCPManager :=
  setClients m (<[id := (p, e)]> (clientMap m)).

Definition newEntry (m : MCPManager) (id : string) (e : MCPClientState) : MCPManager :=
  mkManager (<[id := (nextEntry m, e)]> (clientMap m)) (reconnectingClients m) (openConns m) (nextConn m) (S (nextEntry m)) (notices m).

(** [closeConnHandles] and [Conn.Close]: closing twice is closing once. *)
Definition closeConn (m : MCPManager) (c : option (string * nat)) : MCPManager :=
  match c with
  | Some c => mkManager (clientMap m) (reconnectingClients m) (openConns m ∖ {[c]}) (nextConn m) (nextEntry m) (notices m)
  | None => m
  end.

Definition openConn (m : MCPManager) (id : string) : (string * nat) * MCPManager :=
  ((id, nextConn m), mkManager (clientMap m) (reconnectingClients m) ({[(id, nextConn m)]} ∪ openConns m) (S (nextConn m)) (nextEntry m) (notices m)).

Section Clients.
(** [computeToolsHash]: SHA-256 of a JSON text. *)
Variable computeToolsHash : Discovered -> string.

(** [toolsChangedCallback]: the entry with the new hash, and the call. *)
Definition toolsChangedCallback (e : MCPClientState) (id : string) (t : Discovered) : MCPClientState * list Notice :=
  if bool_decide (LastToolsHash e = computeToolsHash t) then (e, [])
  else (setHash e (computeToolsHash t), [ToolsChanged id (Name (ExecutionConfig e)) t]).

(** ** Exclusive operations *)

Definition beginExclusiveClientOp (m : MCPManager) (id : string) : option MCPManager :=
  match reconnectingClients m !! id with
  | Some InFlight => None
  | _ => Some (setOps m (<[id := InFlight]> (reconnectingClients m)))
  end.

Definition finishExclusiveClientOp (m : MCPManager) (id : string) (err : option string) : MCPManager :=
  setOps m (<[id := Finished err]> (reconnectingClients m)).

(** What [AwaitReconnect] gives when it loaded an operation that is as [op]
    when it ends or the budget does; [None] for none. *)
Definition AwaitReconnect (op : option inflightClientOp) : bool * option string :=
  match op with
  | Some (Finished err) => (true, err)
  | _ => (false, None)
  end.

(** ** Operations of one section *)

Definition RemoveClient (m : MCPManager) (id : string) : option string * MCPManager :=
  match clientMap m !! id with
  | None => (Some ("client " +:+ id +:+ " not found"), m)
  | Some (_, e) => (None, setClients (closeConn m (Conn e)) (delete id (clientMap m)))
  end.

Definition BifrostMCPClientKey : string := "bifrostInternal".

(** The body of an operation that holds the slot for one section. *)
Definition exclusively (m : MCPManager) (id refused : string) (body : MCPManager -> option string * MCPManager) : option string * MCPManager :=
  match beginExclusiveClientOp m id with
  | None => (Some refused, m)
  | Some m => let '(err, m) := body m in (err, finishExclusiveClientOp m id err)
  end.

Definition updateInProgress (id : string) : string :=
  "reconnect or connection credential update already in progress for MCP client " +:+ id.

Definition perCallNotApplicable : string := "client uses per-call connections; there is no persistent connection".

Definition CloseAndMarkNeedsReauth (m : MCPManager) (id : string) : option string * MCPManager :=
  exclusively m id (updateInProgress id) (fun m =>
    match clientMap m !! id with
    | None => (Some ("client " +:+ id +:+ " not found"), m)
    | Some (p, e) =>
        if RequiresPerCallConnection (ExecutionConfig e) then (Some perCallNotApplicable, m)
        else if bool_decide (State e = DisabledState) then (None, m)
        else (None, updateEntry (closeConn m (Conn e)) id p (setState (setConn e None) NeedsReauth))
    end).

Definition DisableClient (m : MCPManager) (id : string) : option string * MCPManager :=
  if bool_decide (id = BifrostMCPClientKey) then (Some "cannot disable internal bifrost client", m)
  else exclusively m id (updateInProgress id) (fun m =>
    match clientMap m !! id with
    | None => (Some ("client " +:+ id +:+ " not found"), m)
    | Some (p, e) =>
        if bool_decide (State e = DisabledState) then (Some ("client " +:+ Name (ExecutionConfig e) +:+ " is already disabled"), m)
        else
          let kept := if RequiresPerCallConnection (ExecutionConfig e) then ToolMap e else noTools in
          (None, updateEntry (closeConn m (Conn e)) id p
                   (setConfig (setState (setTools (setConn e None) kept) DisabledState) (setDisabled (ExecutionConfig e) true)))
    end).

(** [maps.Copy] into the tools of the client; the mapping is replaced. *)
Definition SetClientTools (m : MCPManager) (id : string) (t : Discovered) : MCPManager :=
  match clientMap m !! id with
  | None => m
  | Some (p, e) =>
      let '(e, calls) := toolsChangedCallback
        (setState (setTools e (mkTools (tools (ToolMap e) ∪ tools t) (toolNameMapping t))) Healthy) id t in
      notify (updateEntry m id p e) calls
  end.

(** A lost SSE connection of a generation. *)
Definition handleSSEConnectionLost (m : MCPManager) (id : string) (generation : Z) : MCPManager :=
  match clientMap m !! id with
  | None => m
  | Some (p, e) =>
      if negb (ConnGeneration e =? generation) || bool_decide (State e = DisabledState) || bool_decide (State e = NeedsReauth) then m
      else updateEntry m id p (setState e Unstable)
  end.

(** ** Editing a client *)

(** [strings.Cut] of an old name at its first hyphen, under the new prefix. *)
Fixpoint afterHyphen (s : string) : option string :=
  match s with
  | "" => None
  | String c s => if Ascii.eqb c "-" then Some s else afterHyphen s
  end.

Definition renameTool (name t : string) : string :=
  match afterHyphen t with Some suffix => name +:+ "-" +:+ suffix | None => t end.

Definition orHeaders (authType : string) : string := if bool_decide (authType = "") then MCPAuthTypeHeaders else authType.

Definition nameError (name : string) : option string :=
  if bool_decide (TrimSpace name = "") then Some "name is required for MCP client"
  else if existsb (fun c => 127 <? Z.of_nat (Ascii.nat_of_ascii c)) (String.list_ascii_of_string name)
  then Some "name must contain only ASCII characters"
  else if GoStrings.Contains name "-" then Some "name cannot contain hyphens"
  else if GoStrings.Contains name " " then Some "name cannot contain spaces"
  else match name with
       | String c _ => if McpTools.isDigit c then Some "name cannot start with a number" else None
       | "" => None
       end.

(** The new configuration: what cannot be changed comes from the old one, and
    the discovered tools are not carried over. *)
Definition mergedConfig (old updated : MCPClientConfig) : MCPClientConfig :=
  mkConfig (ID old) (Name updated) (ConnectionType old) (AuthType old) (NeedsSessionStickiness updated) (Pending updated)
    (Disabled updated) None (ToolSyncInterval updated) (IsPingAvailable updated) (Headers updated) (Endpoint old) (Rest updated).

(** The first section of [UpdateClient]: an error, or the configuration that is
    still to be dialed. *)
Definition UpdateClientSection (m : MCPManager) (id : string) (updated : MCPClientConfig) : (string + option MCPClientConfig) * MCPManager :=
  match clientMap m !! id with
  | None => (inl ("client " +:+ id +:+ " not found"), m)
  | Some (p, e) =>
      let old := ExecutionConfig e in
      match nameError (Name updated) with
      | Some err => (inl ("invalid MCP client configuration: " +:+ err), m)
      | None =>
          if negb (bool_decide (ConnectionType updated = ConnectionType old)) then (inl ("connection type cannot be updated for client " +:+ id), m)
          else if bool_decide (is_Some (Endpoint updated)) && negb (bool_decide (Endpoint updated = Endpoint old))
          then (inl ("endpoint cannot be updated for client " +:+ id), m)
          else if negb (bool_decide (orHeaders (AuthType updated) = orHeaders (AuthType old))) then (inl ("auth_type cannot be updated for client " +:+ id), m)
          else
            let config := mergedConfig old updated in
            let wasPerCall := RequiresPerCallConnection old in
            let isPerCall := RequiresPerCallConnection config in
            let e := setTools (setConfig e config) (mkTools (set_map (renameTool (Name updated)) (tools (ToolMap e))) (toolNameMapping (ToolMap e))) in
            if negb wasPerCall && isPerCall then
              let closed := bumpGeneration (setConn e None) in
              let closed := if bool_decide (State e = DisabledState) || bool_decide (State e = NeedsReauth) then closed else setState closed Healthy in
              (inr None, updateEntry (closeConn m (Conn e)) id p closed)
            else (inr (if wasPerCall && negb isPerCall then Some config else None), updateEntry m id p e)
      end
  end.

(** The merge of [UpdateClientCredentials]. *)
Definition withCredentials (old updated : MCPClientConfig) : MCPClientConfig :=
  mkConfig (ID old) (Name old) (ConnectionType old) (AuthType old) (NeedsSessionStickiness old) (Pending updated)
    (Disabled old) (DiscoveredTools old) (ToolSyncInterval old) (IsPingAvailable old)
    (match Headers updated with Some h => Some h | None => Headers old end) (Endpoint old) (Rest old).

(** ** Dialing (connectToMCPClient) *)

(** What a dial carries from its first section to its end: the entry it began
    with, the configuration, and the old connection, which a make-before-break
    dial closes at its end and any other before it dials. *)
Record Dial := mkDial { d_entry : nat; d_config : MCPClientConfig; d_old : option (string * nat); makeBeforeBreak : bool }.

Definition clientOf (config : MCPClientConfig) (s : MCPConnectionState) : MCPClientState := mkClient config noTools None s 0 "".

(** The first section. *)
Definition connectBegin (m : MCPManager) (config : MCPClientConfig) : string + Dial * MCPManager :=
  match clientMap m !! ID config with
  | Some (p, e) =>
      if bool_decide (State e = DisabledState) && Disabled config then inl ("client " +:+ Name config +:+ " is disabled")
      else
        let old := Conn e in
        let e := setConfig e config in
        let mbb := bool_decide (is_Some old) && (bool_decide (ConnectionType config = TypeHTTP) || bool_decide (ConnectionType config = TypeSSE)) in
        let e := if mbb then e else bumpGeneration (setConn (setState e Unstable) None) in
        inr (mkDial p config old mbb, updateEntry m (ID config) p e)
  | None => inr (mkDial (nextEntry m) config None false, newEntry m (ID config) (clientOf config Unstable))
  end.

(** Whether the entry of a dial is still the one under its ID. *)
Definition sameEntry (m : MCPManager) (d : Dial) : option MCPClientState :=
  '(p, e) ← clientMap m !! ID (d_config d); if bool_decide (p = d_entry d) then Some e else None.

(** The section of [failConnectAttempt]; the handles are closed after it. *)
Definition failConnectAttempt (m : MCPManager) (d : Dial) (needsReauth : bool) : MCPManager :=
  match sameEntry m d with
  | Some e =>
      if bool_decide (State e = DisabledState) then m
      else
        let new := if needsReauth then NeedsReauth else Unstable in
        notify (updateEntry m (ID (d_config d)) (d_entry d) (setState (bumpGeneration (setConn e None)) new))
          (if bool_decide (State e = new) then [] else [StateChanged (ID (d_config d)) (Name (d_config d)) (State e) new])
  | None => m
  end.

(** The last section of a dial that got a connection, or none from a plugin
    that answered for the server. *)
Definition connectCommit (m : MCPManager) (d : Dial) (new : option (string * nat)) (t : Discovered) : option string * MCPManager :=
  match sameEntry m d with
  | None => (Some ("client " +:+ Name (d_config d) +:+ " was removed during connection setup"), m)
  | Some e =>
      if bool_decide (State e = DisabledState) then (Some ("client " +:+ Name (d_config d) +:+ " was disabled during connection setup"), m)
      else
        let '(e, calls) := toolsChangedCallback (bumpGeneration (setTools (setState (setConn e new) Healthy) t)) (ID (d_config d)) t in
        (None, notify (updateEntry m (ID (d_config d)) (d_entry d) e) calls)
  end.

(** What [connectConfiguredClients] leaves of a client of the configuration
    whose [AddClient] gave an error: it does not take the slot. *)
Definition connectConfiguredFailed (m : MCPManager) (config : MCPClientConfig) : MCPManager :=
  match clientMap m !! ID config with
  | None => newEntry m (ID config) (clientOf config Unstable)
  | Some (p, e) => updateEntry m (ID config) p (setState e Unstable)
  end.

(** ** Checks (connectionchecker.go) *)

Definition DefaultConnectionCheckInterval : Z := 600 * 1000000000.
Definition UnstableConnectionCheckInterval : Z := 10 * 1000000000.

Definition ResolveToolSyncInterval (config : MCPClientConfig) (globalInterval : Z) : Z :=
  if ToolSyncInterval config <? 0 then 0
  else if 0 <? ToolSyncInterval config then ToolSyncInterval config
  else if 0 <? globalInterval then globalInterval
  else DefaultConnectionCheckInterval.

(** [NewClientConnectionChecker] and the first interval of [Start]. *)
Definition healthyInterval (interval : Z) : Z := if interval <=? 0 then DefaultConnectionCheckInterval else interval.

Definition firstInterval (interval : Z) (e : MCPClientState) : Z :=
  if bool_decide (State e = Healthy) then healthyInterval interval else UnstableConnectionCheckInterval.

(** What [performCheck] does with the client as it reads it. *)
Inductive CheckPlan :=
| CheckStops
| CheckIdle
| CheckLive (conn : string * nat) (generation : Z)
| CheckPerCall (generation : Z)
| CheckReconnects.

Definition performCheck (m : MCPManager) (id : string) : CheckPlan :=
  match clientMap m !! id with
  | None => CheckStops
  | Some (_, e) =>
      if bool_decide (State e = DisabledState) then CheckStops
      else if bool_decide (State e = NeedsReauth) then CheckIdle
      else match Conn e with
           | Some c => CheckLive c (ConnGeneration e)
           | None => if RequiresPerCallConnection (ExecutionConfig e) then CheckPerCall (ConnGeneration e) else CheckReconnects
           end
  end.

(** The interval after a check; [ok] is what its requests gave. *)
Definition nextInterval (interval : Z) (plan : CheckPlan) (ok : bool) : Z :=
  match plan with
  | CheckStops | CheckIdle => healthyInterval interval
  | CheckLive _ _ | CheckPerCall _ => if ok then healthyInterval interval else UnstableConnectionCheckInterval
  | CheckReconnects => UnstableConnectionCheckInterval
  end.

Definition writeBackTools (m : MCPManager) (id : string) (generation : Z) (t : Discovered) : MCPManager :=
  match clientMap m !! id with
  | None => m
  | Some (p, e) =>
      if negb (ConnGeneration e =? generation) then m
      else let '(e, calls) := toolsChangedCallback (setTools e t) id t in notify (updateEntry m id p e) calls
  end.

(** [setState] of the checker. *)
Definition checkedState (m : MCPManager) (id : string) (s : MCPConnectionState) (generation : Z) : MCPManager :=
  match clientMap m !! id with
  | None => m
  | Some (p, e) =>
      if negb (ConnGeneration e =? generation) then m
      else if bool_decide (State e = DisabledState) || bool_decide (State e = NeedsReauth) then m
      else if bool_decide (State e = s) then m
      else notify (updateEntry m id p (setState e s)) [StateChanged id (Name (ExecutionConfig e)) (State e) s]
  end.
End Clients.
End McpClients.
