(* ===== verification/McpClientsNet.v ===== *)
(** * Operations on MCP clients, interleaved (src/core/mcp/clientmanager.go, connectionchecker.go)

    A transition system of the manager: operations that hold the slot of a
    client while they dial, checks in flight, and the operations of one section
    run in any order, a section at a time.  Operations are keyed by their
    client, which is what the slot allows (McpClientsTheory proves that none is
    ever overwritten).  What the boot does with a client whose [AddClient] failed
    takes no slot, and may come at any moment and any number of times, with any
    configuration: more than the code's one boot does. *)

From S2P Require Import Prelude GoStrings McpTools McpClients.

Local Open Scope string_scope.
Local Open Scope Z_scope.
Local Open Scope list_scope.

Module McpClientsNet.
Import McpClients.

Section Net.
Variable computeToolsHash : Discovered -> string.

(** ** Operations that hold the slot *)

Inductive Op :=
| OpReconnect
| OpEnable
| OpUpdate (updated : MCPClientConfig)
| OpCredentials (updated : MCPClientConfig)
| OpRestore (old : MCPClientConfig)
| OpAdd (config : MCPClientConfig).

(** Where an operation is: before its own first section; before, in and after
    a dial; in a discovery of tools over a connection of its own. *)
Inductive Phase :=
| PEnter
| PBegin (config : MCPClientConfig)
| PCloseFirst (d : Dial)
| PDial (d : Dial)
| PFail (d : Dial) (new : option (string * nat)) (needsReauth : bool) (err : string)
| PCommit (d : Dial) (new : option (string * nat)) (t : Discovered)
| PClose (d : Dial) (new : option (string * nat)) (err : option string)
| PAfter (err : option string)
| PHealthy
| PVerify (config : MCPClientConfig)
| PRestore (config : MCPClientConfig)
| PDiscover
| PFinish (err : option string).

Record Thread := mkThread { th_op : Op; th_phase : Phase }.

(** A check in flight: the entry it read (not known to the code), and what it
    has still to write: whether its requests went through. *)
Inductive CheckPhase := Checking | Writing (ok : bool).

Record Check := mkCheck { ck_id : string; ck_entry : nat; ck_conn : option (string * nat); ck_generation : Z; ck_phase : CheckPhase }.

(** [adding] are the calls of [AddClient] that passed the check of the name. *)
Record Net := mkNet {
  mgr : MCPManager;
  adding : list MCPClientConfig;
  threads : gmap string Thread;
  checks : list Check;
}.

Definition initial : Net := mkNet NewMCPManager [] ∅ [].

Definition setMgr (s : Net) (m : MCPManager) : Net := mkNet m (adding s) (threads s) (checks s).

(** The operation goes on from a phase over a manager. *)
Definition goOn (s : Net) (id : string) (op : Op) (m : MCPManager) (ph : Phase) : Net :=
  mkNet m (adding s) (<[id := mkThread op ph]> (threads s)) (checks s).

(** ** Starting an operation *)

Definition startOp (s : Net) (id : string) (op : Op) : Net :=
  match beginExclusiveClientOp (mgr s) id with
  | Some m => goOn s id op m PEnter
  | None => s
  end.

(** [EnableClient] looks at the state before it takes the slot. *)
Definition startEnable (s : Net) (id : string) : Net :=
  match clientMap (mgr s) !! id with
  | Some (_, e) => if bool_decide (State e = DisabledState) then startOp s id OpEnable else s
  | None => s
  end.

(** The check of the name in [AddClient], then the section that inserts. *)
Definition nameTaken (m : MCPManager) (name : string) : bool :=
  bool_decide (map_Exists (fun _ pe => Name (ExecutionConfig pe.2) = name) (clientMap m)).

Definition addCheckName (s : Net) (config : MCPClientConfig) : Net :=
  if bool_decide (TrimSpace (ID config) = "") || bool_decide (is_Some (nameError (Name config))) || nameTaken (mgr s) (Name config) then s
  else mkNet (mgr s) (adding s ++ [config]) (threads s) (checks s).

(** What a disabled client of a per-call kind keeps of its tools. *)
Definition restoredTools (config : MCPClientConfig) : option Discovered :=
  match DiscoveredTools config with
  | Some t => if bool_decide (tools t = ∅) then None else Some t
  | None => None
  end.

Definition addEnter (s : Net) (i : nat) : option Net :=
  config ← adding s !! i;
  let s := mkNet (mgr s) (delete i (adding s)) (threads s) (checks s) in
  let m := mgr s in
  match clientMap m !! ID config with
  | Some _ => Some s
  | None =>
      if Disabled config then
        let t := if RequiresPerCallConnection config then default noTools (restoredTools config) else noTools in
        Some (setMgr s (newEntry m (ID config) (setTools (clientOf config DisabledState) t)))
      else
        match beginExclusiveClientOp m (ID config) with
        | None => Some s
        | Some m => Some (goOn s (ID config) (OpAdd config) (newEntry m (ID config) (clientOf config McpTools.MCPConnectionStateNone)) PEnter)
        end
  end.

(** ** The sections of an operation *)

(** The first section of an operation that holds the slot. *)
Definition enterOp (m : MCPManager) (id : string) (op : Op) : MCPManager * Op * Phase :=
  match op with
  | OpReconnect =>
      match clientMap m !! id with
      | None => (m, op, PFinish (Some ("client " +:+ id +:+ " not found")))
      | Some (_, e) =>
          if RequiresPerCallConnection (ExecutionConfig e) then (m, op, PFinish (Some perCallNotApplicable))
          else if awaitsOAuth (ExecutionConfig e) then (m, op, PFinish (Some "client is awaiting admin OAuth authorization"))
          else (m, op, PBegin (ExecutionConfig e))
      end
  | OpEnable =>
      match clientMap m !! id with
      | None => (m, op, PFinish (Some ("client " +:+ id +:+ " not found")))
      | Some (p, e) =>
          if negb (bool_decide (State e = DisabledState)) then (m, op, PFinish (Some ("client " +:+ Name (ExecutionConfig e) +:+ " is not disabled")))
          else
            let config := setDisabled (ExecutionConfig e) false in
            (updateEntry m id p (setConfig e config), op, if RequiresPerCallConnection config then PHealthy else PBegin config)
      end
  | OpUpdate updated =>
      match UpdateClientSection m id updated with
      | (inl err, m) => (m, op, PFinish (Some err))
      | (inr None, m) => (m, op, PFinish None)
      | (inr (Some config), m) => (m, op, PBegin config)
      end
  | OpCredentials updated =>
      match clientMap m !! id with
      | None => (m, op, PFinish (Some ("client " +:+ id +:+ " not found")))
      | Some (_, e) =>
          let old := ExecutionConfig e in
          if RequiresPerCallConnection old then
            (m, op, if bool_decide (State e = PendingVerification) then PVerify updated else PFinish (Some perCallNotApplicable))
          else (m, OpRestore old, PBegin (withCredentials old updated))
      end
  | OpAdd config =>
      if awaitsOAuth config ||
         (bool_decide (AuthType config = MCPAuthTypePerUserHeaders) && bool_decide (DiscoveredTools config = None)) ||
         (bool_decide (AuthType config = MCPAuthTypeTokenExchange) && bool_decide (restoredTools config = None))
      then (match clientMap m !! id with
            | Some (p, e) => updateEntry m id p (setState e PendingVerification)
            | None => m
            end, op, PFinish None)
      else (m, op, if RequiresPerCallConnection config then PRestore config else PBegin config)
  | OpRestore _ => (m, op, PFinish None)
  end.

(** The section after a dial. *)
Definition afterDial (m : MCPManager) (id : string) (op : Op) (err : option string) : MCPManager :=
  match err, clientMap m !! id with
  | None, _ | _, None => m
  | Some _, Some (p, e) =>
      match op with
      | OpEnable | OpUpdate _ =>
          if bool_decide (State e = DisabledState) || bool_decide (State e = NeedsReauth) then m
          else updateEntry m id p (setState e Unstable)
      | OpRestore old => updateEntry m id p (setConfig e old)
      | OpAdd _ => setClients m (delete id (clientMap m))
      | OpReconnect | OpCredentials _ => m
      end
  end.

(** What a dial comes to. *)
Inductive Outcome :=
| Refused (opened needsReauth : bool)
| Connected (opened : bool) (t : Discovered)
| Discovers (t : Discovered)
| DiscoversNothing.

(** The connection that a dial opened, if it did. *)
Definition maybeOpen (m : MCPManager) (id : string) (opened : bool) : option (string * nat) * MCPManager :=
  if opened then let '(c, m) := openConn m id in (Some c, m) else (None, m).

(** One section of an operation; [None] when the outcome does not fit. *)
Definition threadStep (s : Net) (id : string) (out : Outcome) : option Net :=
  th ← threads s !! id;
  let m := mgr s in
  let op := th_op th in
  match th_phase th with
  | PEnter => let '(m, op, ph) := enterOp m id op in Some (goOn s id op m ph)
  | PBegin config =>
      match connectBegin m config with
      | inl err => Some (goOn s id op m (PAfter (Some err)))
      | inr (d, m) => Some (goOn s id op m (if makeBeforeBreak d then PDial d else PCloseFirst d))
      end
  | PCloseFirst d => Some (goOn s id op (closeConn m (d_old d)) (PDial (mkDial (d_entry d) (d_config d) None false)))
  | PDial d =>
      match out with
      | Refused opened needsReauth =>
          let '(new, m) := maybeOpen m id opened in
          Some (goOn s id op m (PFail d new needsReauth "failed to connect MCP client"))
      | Connected opened t =>
          let '(new, m) := maybeOpen m id opened in
          Some (goOn s id op m (PCommit d new (if opened then t else noTools)))
      | _ => None
      end
  | PCommit d new t =>
      match connectCommit computeToolsHash m d new t with
      | (Some err, m) => Some (goOn s id op m (PFail d new false err))
      | (None, m) => Some (goOn s id op m (PClose d None None))
      end
  | PFail d new needsReauth err => Some (goOn s id op (failConnectAttempt m d needsReauth) (PClose d new (Some err)))
  | PClose d new err => Some (goOn s id op (closeConn (closeConn m new) (d_old d)) (PAfter err))
  | PAfter err => Some (goOn s id op (afterDial m id op err) (PFinish err))
  | PHealthy =>
      Some (goOn s id op (match clientMap m !! id with Some (p, e) => updateEntry m id p (setState e Healthy) | None => m end) (PFinish None))
  | PVerify config =>
      Some (goOn s id op
        (match clientMap m !! id with
         | Some (p, e) =>
             if bool_decide (State e = PendingVerification) then
               let t := match restoredTools config with
                        | Some t => mkTools (tools (ToolMap e) ∪ tools t) (toolNameMapping t)
                        | None => ToolMap e
                        end in
               updateEntry m id p (setState (setTools (setConfig e config) t) Healthy)
             else m
         | None => m
         end) (if bool_decide (restoredTools config = None) then PDiscover else PFinish None))
  | PRestore config =>
      Some (goOn s id op
        (match clientMap m !! id with
         | Some (p, e) =>
             updateEntry m id p
               match restoredTools config with
               | Some t => setHash (setState (setTools e (mkTools (tools (ToolMap e) ∪ tools t) (toolNameMapping t))) Healthy) (computeToolsHash t)
               | None => setState e Healthy
               end
         | None => m
         end) (if bool_decide (restoredTools config = None) then PDiscover else PFinish None))
  | PDiscover =>
      match out with
      | Discovers t => Some (goOn s id op (SetClientTools computeToolsHash m id t) (PFinish None))
      | DiscoversNothing => Some (goOn s id op m (PFinish None))
      | _ => None
      end
  | PFinish err => Some (mkNet (finishExclusiveClientOp m id err) (adding s) (delete id (threads s)) (checks s))
  end.

(** ** Checks *)

Definition startCheck (s : Net) (id : string) : Net :=
  match clientMap (mgr s) !! id with
  | None => s
  | Some (p, _) =>
      match performCheck (mgr s) id with
      | CheckLive c g => mkNet (mgr s) (adding s) (threads s) (checks s ++ [mkCheck id p (Some c) g Checking])
      | CheckPerCall g => mkNet (mgr s) (adding s) (threads s) (checks s ++ [mkCheck id p None g Checking])
      | CheckReconnects => startOp s id OpReconnect
      | CheckStops | CheckIdle => s
      end
  end.

(** The next section of a check; [found] is what its requests gave. *)
Definition checkStep (s : Net) (k : nat) (found : option Discovered) : option Net :=
  ck ← checks s !! k;
  match ck_phase ck with
  | Checking =>
      let m := match found with Some t => writeBackTools computeToolsHash (mgr s) (ck_id ck) (ck_generation ck) t | None => mgr s end in
      Some (mkNet m (adding s) (threads s) (<[k := mkCheck (ck_id ck) (ck_entry ck) (ck_conn ck) (ck_generation ck) (Writing (bool_decide (is_Some found)))]> (checks s)))
  | Writing ok => Some (mkNet (checkedState (mgr s) (ck_id ck) (if ok then Healthy else Unstable) (ck_generation ck)) (adding s) (threads s) (delete k (checks s)))
  end.

(** ** Runs *)

Inductive Label :=
| LAddCheck (config : MCPClientConfig)
| LAddEnter (i : nat)
| LBootFailed (config : MCPClientConfig)
| LReconnect (id : string)
| LEnable (id : string)
| LUpdate (id : string) (updated : MCPClientConfig)
| LCredentials (id : string) (updated : MCPClientConfig)
| LRemove (id : string)
| LDisable (id : string)
| LRotate (id : string)
| LSetTools (id : string) (t : Discovered)
| LLost (id : string) (generation : Z)
| LCheck (id : string)
| LThread (id : string) (out : Outcome)
| LCheckStep (k : nat) (found : option Discovered).

Definition step (s : Net) (l : Label) : option Net :=
  match l with
  | LAddCheck config => Some (addCheckName s config)
  | LAddEnter i => addEnter s i
  | LBootFailed config => Some (setMgr s (connectConfiguredFailed (mgr s) config))
  | LReconnect id => Some (startOp s id OpReconnect)
  | LEnable id => Some (startEnable s id)
  | LUpdate id updated => Some (startOp s id (OpUpdate updated))
  | LCredentials id updated => Some (startOp s id (OpCredentials updated))
  | LRemove id => Some (setMgr s (RemoveClient (mgr s) id).2)
  | LDisable id => Some (setMgr s (DisableClient (mgr s) id).2)
  | LRotate id => Some (setMgr s (CloseAndMarkNeedsReauth (mgr s) id).2)
  | LSetTools id t => Some (setMgr s (SetClientTools computeToolsHash (mgr s) id t))
  | LLost id generation => Some (setMgr s (handleSSEConnectionLost (mgr s) id generation))
  | LCheck id => Some (startCheck s id)
  | LThread id out => threadStep s id out
  | LCheckStep k found => checkStep s k found
  end.

Fixpoint run (s : Net) (ls : list Label) : option Net :=
  match ls with
  | [] => Some s
  | l :: ls => s ← step s l; run s ls
  end.
End Net.
End McpClientsNet.
