(* ===== verification/McpClientsTheory.v ===== *)
(** * What holds of MCP clients over all interleavings

    Connections are accounted for at every moment, disabled clients hold none,
    and a check writes on no connection but the one it tested, unless the client
    was removed and added again meanwhile. *)

From S2P Require Import Prelude GoStrings McpTools McpClients McpClientsNet.

Local Open Scope string_scope.
Local Open Scope Z_scope.
Local Open Scope list_scope.

Module McpClientsTheory.
Import McpClients McpClientsNet.

Section Theory.
Variable computeToolsHash : Discovered -> string.

(** ** Where connections are *)

Definition entryConn (m : MCPManager) (id : string) : option (string * nat) := '(_, e) ← clientMap m !! id; Conn e.

(** The connections that an operation has in hand. *)
Definition held (ph : Phase) : list (string * nat) :=
  match ph with
  | PCloseFirst d | PDial d => option_list (d_old d)
  | PFail d new _ _ | PCommit d new _ | PClose d new _ => option_list new ++ option_list (d_old d)
  | _ => []
  end.

(** During a dial the entry has no connection, or is the one the dial began
    with and has the old one. *)
Definition dialing (m : MCPManager) (id : string) (d : Dial) : Prop :=
  ID (d_config d) = id /\
  forall p e, clientMap m !! id = Some (p, e) -> Conn e = None \/ (Conn e = d_old d /\ p = d_entry d).

Definition fresh (m : MCPManager) (d : Dial) (new : option (string * nat)) : Prop :=
  forall c, new = Some c -> c ∈ openConns m /\ d_old d <> Some c.

Definition phaseInv (m : MCPManager) (id : string) (ph : Phase) : Prop :=
  match ph with
  | PBegin config | PVerify config => ID config = id
  | PCloseFirst d => ID (d_config d) = id /\ entryConn m id = None
  | PDial d => dialing m id d
  | PFail d new _ _ | PCommit d new _ => dialing m id d /\ fresh m d new
  | PClose d new err => (forall c, c ∈ held ph -> entryConn m id <> Some c) /\ (err <> None -> entryConn m id = None)
  | PAfter err => err <> None -> entryConn m id = None
  | _ => True
  end.

Definition opInv (id : string) (op : Op) : Prop :=
  match op with
  | OpCredentials config | OpRestore config | OpAdd config => ID config = id
  | _ => True
  end.

Record idInv (m : MCPManager) (id : string) (th : option Thread) : Prop := {
  inv_slot : reconnectingClients m !! id = Some InFlight <-> is_Some th;
  inv_config : forall p e, clientMap m !! id = Some (p, e) -> ID (ExecutionConfig e) = id;
  inv_disabled : forall p e, clientMap m !! id = Some (p, e) -> State e = DisabledState -> Conn e = None;
  inv_conn : forall c, entryConn m id = Some c -> c.1 = id /\ c ∈ openConns m;
  inv_open : forall c, c ∈ openConns m -> c.1 = id -> (c.2 < nextConn m)%nat /\
    (entryConn m id = Some c \/ exists t, th = Some t /\ c ∈ held (th_phase t));
  inv_held : forall t c, th = Some t -> c ∈ held (th_phase t) -> c.1 = id /\ (c.2 < nextConn m)%nat;
  inv_phase : forall t, th = Some t -> phaseInv m id (th_phase t) /\ opInv id (th_op t);
}.

Definition Inv (s : Net) : Prop := forall id, idInv (mgr s) id (threads s !! id).

(** ** Steps concern one client *)

Definition onlyAt (id : string) (m m' : MCPManager) : Prop :=
  (forall j, j <> id -> clientMap m' !! j = clientMap m !! j /\ reconnectingClients m' !! j = reconnectingClients m !! j) /\
  (forall c, c.1 <> id -> c ∈ openConns m' <-> c ∈ openConns m) /\ (nextConn m <= nextConn m')%nat.

Lemma onlyAt_refl id m : onlyAt id m m.
Proof. by split_and!. Qed.

Lemma onlyAt_trans id m1 m2 m3 : onlyAt id m1 m2 -> onlyAt id m2 m3 -> onlyAt id m1 m3.
Proof.
  intros (Hc & Ho & Hn) (Hc' & Ho' & Hn'). split_and!; [|intros c Hj; by rewrite Ho', Ho|lia].
  intros j Hj. destruct (Hc j Hj), (Hc' j Hj). split; congruence.
Qed.

Lemma onlyAt_update id m p e : onlyAt id m (updateEntry m id p e).
Proof. split_and!; [|done|done]. intros j Hj. cbn. by rewrite lookup_insert_ne. Qed.

Lemma onlyAt_new id m e : onlyAt id m (newEntry m id e).
Proof. split_and!; [|done|done]. intros j Hj. cbn. by rewrite lookup_insert_ne. Qed.

Lemma onlyAt_delete id m : onlyAt id m (setClients m (delete id (clientMap m))).
Proof. split_and!; [|done|done]. intros j Hj. cbn. by rewrite lookup_delete_ne. Qed.

Lemma onlyAt_ops id m o : onlyAt id m (setOps m (<[id := o]> (reconnectingClients m))).
Proof. split_and!; [|done|done]. intros j Hj. cbn. by rewrite lookup_insert_ne. Qed.

Lemma onlyAt_notify id m l : onlyAt id m (notify m l).
Proof. by split_and!. Qed.

Lemma onlyAt_close id m c : (forall c', c = Some c' -> c'.1 = id) -> onlyAt id m (closeConn m c).
Proof.
  intros Hc. destruct c as [c|]; [|apply onlyAt_refl]. split_and!; [done| |done].
  intros c' Hne. cbn. rewrite elem_of_difference, elem_of_singleton. split; [tauto|]. intros Hin. split; [done|]. intros ->. by apply Hne, Hc.
Qed.

Lemma onlyAt_open id m opened : onlyAt id m (maybeOpen m id opened).2.
Proof.
  destruct opened; [|apply onlyAt_refl]. split_and!; [done| |cbn; lia].
  intros c Hne. cbn. rewrite elem_of_union, elem_of_singleton. split; [intros [->|?]; done|by right].
Qed.

Lemma idInv_frame id j m m' th : onlyAt id m m' -> j <> id -> idInv m j th -> idInv m' j th.
Proof.
  intros (Hc & Ho & Hn) Hj [H1 H2 H3 H4 H5 H6 H7]. destruct (Hc j Hj) as [He Hs].
  assert (Hec : entryConn m' j = entryConn m j) by (unfold entryConn; by rewrite He).
  assert (Hop : forall c, c.1 = j -> c ∈ openConns m' <-> c ∈ openConns m) by (intros c <-; by apply Ho).
  split.
  - by rewrite Hs.
  - by rewrite He.
  - by rewrite He.
  - intros c Hcc. rewrite Hec in Hcc. destruct (H4 c Hcc). split; [done|]. by apply Hop.
  - intros c Hin Hcj. rewrite Hop in Hin by done. destruct (H5 c Hin Hcj). rewrite Hec. split; [lia|done].
  - intros t c Ht Hin. destruct (H6 t c Ht Hin). split; [done|lia].
  - intros t Ht. destruct (H7 t Ht) as [Hp Hi]. split; [|done].
    assert (Hd : forall d, dialing m j d -> dialing m' j d) by (intros d [Hd1 Hd2]; split; [done|by rewrite He]).
    assert (Hf : forall d new, (forall c, c ∈ held (PFail d new false "") -> c.1 = j) -> fresh m d new -> fresh m' d new).
    { intros d new Hh Hf c ->. destruct (Hf c eq_refl). split; [|done]. apply Hop; [|done]. apply Hh. by left. }
    pose proof (H6 t) as Hh. destruct (th_phase t); cbn in Hp |- *; rewrite ?Hec; try done.
    + by apply Hd.
    + destruct Hp as [Hp Hq]. split; [by apply Hd|]. apply Hf; [|done]. intros c Hin. by apply (Hh c Ht Hin).
    + destruct Hp as [Hp Hq]. split; [by apply Hd|]. apply Hf; [|done]. intros c Hin. by apply (Hh c Ht Hin).
Qed.

(** A step of one client keeps the invariant when it keeps that client's. *)
Lemma Inv_at s id m th adds cks : Inv s -> onlyAt id (mgr s) m -> idInv m id th ->
  Inv (mkNet m adds (match th with Some t => <[id := t]> (threads s) | None => delete id (threads s) end) cks).
Proof.
  intros HI Ho Hid j. cbn. destruct (decide (j = id)) as [->|Hj].
  - destruct th; [by rewrite lookup_insert_eq|by rewrite lookup_delete_eq].
  - specialize (HI j). destruct th; rewrite ?lookup_insert_ne, ?lookup_delete_ne by done; by eapply idInv_frame.
Qed.

Lemma Inv_mgr s id m adds cks : Inv s -> onlyAt id (mgr s) m -> idInv m id (threads s !! id) -> Inv (mkNet m adds (threads s) cks).
Proof.
  intros HI Ho Hid j. cbn. destruct (decide (j = id)) as [->|Hj]; [done|]. by eapply idInv_frame.
Qed.

(** ** What changes keep it *)

Lemma entryConn_Some m id p e : clientMap m !! id = Some (p, e) -> entryConn m id = Conn e.
Proof. unfold entryConn. by intros ->. Qed.

Lemma entryConn_update m id p e : entryConn (updateEntry m id p e) id = Conn e.
Proof. unfold entryConn. cbn. by rewrite lookup_insert_eq. Qed.

Lemma idInv_notify m id th l : idInv m id th -> idInv (notify m l) id th.
Proof. intros []. by split. Qed.

(** An entry that keeps its connection. *)
Lemma idInv_entry m id th p e e' : idInv m id th -> clientMap m !! id = Some (p, e) ->
  Conn e' = Conn e -> ID (ExecutionConfig e') = ID (ExecutionConfig e) -> (State e' = DisabledState -> State e = DisabledState) ->
  idInv (updateEntry m id p e') id th.
Proof.
  intros [H1 H2 H3 H4 H5 H6 H7] He Hc Hi Hd.
  assert (Hec : entryConn (updateEntry m id p e') id = entryConn m id) by (rewrite entryConn_update, (entryConn_Some _ _ _ _ He); done).
  assert (Hl : forall q x, clientMap (updateEntry m id p e') !! id = Some (q, x) -> q = p /\ x = e').
  { intros q x. cbn. rewrite lookup_insert_eq. by intros [= <- <-]. }
  split; [done| | |by rewrite Hec|by rewrite Hec|done|].
  - intros q x [-> ->]%Hl. rewrite Hi. by eapply H2.
  - intros q x [-> ->]%Hl Hs. rewrite Hc. by eapply H3, Hd.
  - intros t Ht. destruct (H7 t Ht) as [Hp Ho]. split; [|done].
    assert (Hdl : forall d, dialing m id d -> dialing (updateEntry m id p e') id d).
    { intros d [Hd1 Hd2]. split; [done|]. intros q x [-> ->]%Hl. rewrite Hc. by apply (Hd2 p e). }
    destruct (th_phase t); cbn [phaseInv] in Hp |- *; rewrite ?Hec; try done; (by apply Hdl) || (destruct Hp; split; [by apply Hdl|done]).
Qed.

(** An entry that loses its connection, which is closed; or the entry is gone. *)
Lemma idInv_closed m id th p e (f : MCPManager -> MCPManager) : idInv m id th -> clientMap m !! id = Some (p, e) ->
  (forall m, reconnectingClients (f m) = reconnectingClients m /\ openConns (f m) = openConns m /\ nextConn (f m) = nextConn m) ->
  (forall m q x, clientMap (f m) !! id = Some (q, x) -> Conn x = None /\ ID (ExecutionConfig x) = ID (ExecutionConfig e)) ->
  idInv (f (closeConn m (Conn e))) id th.
Proof.
  intros [H1 H2 H3 H4 H5 H6 H7] He Hf Hx. set (m1 := closeConn m (Conn e)). destruct (Hf m1) as (Hf1 & Hf2 & Hf3).
  assert (Hn : entryConn (f m1) id = None).
  { unfold entryConn. destruct (clientMap (f m1) !! id) as [[q x]|] eqn:Hl; [|done]. cbn. by apply (Hx m1 q x) in Hl as [? _]. }
  assert (Hm1 : forall c, c ∈ openConns m1 <-> c ∈ openConns m /\ Conn e <> Some c).
  { intros c. subst m1. unfold closeConn. destruct (Conn e) as [c'|]; cbn; [|by intuition]. rewrite elem_of_difference, elem_of_singleton. intuition congruence. }
  assert (Hsl : reconnectingClients m1 = reconnectingClients m /\ nextConn m1 = nextConn m) by (subst m1; by destruct (Conn e)).
  destruct Hsl as [Hs1 Hs2]. rewrite <-(entryConn_Some _ _ _ _ He) in Hm1. split.
  - by rewrite Hf1, Hs1.
  - intros q x Hl. destruct (Hx m1 q x Hl) as [_ ->]. by eapply H2.
  - intros q x Hl _. by destruct (Hx m1 q x Hl).
  - intros c Hc. by rewrite Hn in Hc.
  - intros c Hc Hcid. rewrite Hf2, Hm1 in Hc. destruct Hc as [Hc Hne]. rewrite Hf3, Hs2. destruct (H5 c Hc Hcid) as [Hb [Hh|Hh]]; [done|]. split; [done|by right].
  - intros t c Ht Hc. rewrite Hf3, Hs2. by apply (H6 t).
  - intros t Ht. destruct (H7 t Ht) as [Hp Ho]. split; [|done].
    assert (Hdl : forall d, dialing m id d -> dialing (f m1) id d).
    { intros d [Hd1 Hd2]. split; [done|]. intros q x Hl. left. by destruct (Hx m1 q x Hl). }
    assert (Hfr : forall d new, dialing m id d -> fresh m d new -> fresh (f m1) d new).
    { intros d new [_ Hd2] Hfr c Hc. destruct (Hfr c Hc) as [Hin Hne]. split; [|done]. rewrite Hf2, Hm1. split; [done|].
      rewrite (entryConn_Some _ _ _ _ He). destruct (Hd2 p e He) as [->|[-> _]]; done. }
    destruct (th_phase t); cbn [phaseInv] in Hp |- *; rewrite ?Hn; try done; [by destruct Hp|by apply Hdl| |]; destruct Hp; split; by (apply Hdl || apply Hfr).
Qed.

(** An operation goes on: what it lets go is in the entry. *)
Lemma idInv_rephase m id t op ph : idInv m id (Some t) ->
  (forall c, c ∈ held (th_phase t) -> c ∈ held ph \/ entryConn m id = Some c) ->
  (forall c, c ∈ held ph -> c.1 = id /\ (c.2 < nextConn m)%nat) -> phaseInv m id ph -> opInv id op ->
  idInv m id (Some (mkThread op ph)).
Proof.
  intros [H1 H2 H3 H4 H5 H6 H7] Hh Hh' Hp Ho. split; try done.
  - rewrite H1. split; eauto.
  - intros c Hc Hcid. destruct (H5 c Hc Hcid) as [Hb [He|(t' & [= <-] & Hin)]]; (split; [done|]); [by left|].
    destruct (Hh c Hin); [right; eauto|by left].
  - intros t' c [= <-]. apply Hh'.
  - intros t' [= <-]. by split.
Qed.

Lemma idInv_goes m id t op ph : idInv m id (Some t) -> held (th_phase t) = [] -> held ph = [] -> phaseInv m id ph -> opInv id op ->
  idInv m id (Some (mkThread op ph)).
Proof.
  intros HI Hh Hh' Hp Ho. eapply idInv_rephase; try done; intros c; rewrite ?Hh, ?Hh'; by intros ?%elem_of_nil.
Qed.

(** A connection in hand is closed. *)
Lemma idInv_drop m id op ph op' ph' c : idInv m id (Some (mkThread op ph)) ->
  (forall c', c = Some c' -> c'.1 = id /\ entryConn m id <> Some c') ->
  (forall x, x ∈ held ph -> x ∈ held ph' \/ c = Some x) -> (forall x, x ∈ held ph' -> x ∈ held ph) ->
  phaseInv (closeConn m c) id ph' -> opInv id op' -> idInv (closeConn m c) id (Some (mkThread op' ph')).
Proof.
  intros [H1 H2 H3 H4 H5 H6 H7] Hc Hh Hh' Hp Ho.
  assert (Hsame : clientMap (closeConn m c) = clientMap m /\ reconnectingClients (closeConn m c) = reconnectingClients m /\ nextConn (closeConn m c) = nextConn m) by by destruct c.
  destruct Hsame as (Hs1 & Hs2 & Hs3). assert (Hec : entryConn (closeConn m c) id = entryConn m id) by (unfold entryConn; by rewrite Hs1).
  assert (Hop : forall x, x ∈ openConns (closeConn m c) <-> x ∈ openConns m /\ c <> Some x).
  { intros x. destruct c as [c|]; cbn; [|by intuition]. rewrite elem_of_difference, elem_of_singleton. intuition congruence. }
  split; rewrite ?Hs1, ?Hs2, ?Hs3, ?Hec; try done.
  - rewrite H1. split; eauto.
  - intros x Hx. destruct (H4 x Hx). split; [done|]. apply Hop. split; [done|]. intros ->. by destruct (Hc x eq_refl).
  - intros x [Hx Hne]%Hop Hxid. destruct (H5 x Hx Hxid) as [Hb [He|(t' & [= <-] & Hin)]]; (split; [done|]); [by left|].
    destruct (Hh x Hin); [right; eauto|done].
  - intros t' x [= <-] Hin. by apply (H6 _ x eq_refl), Hh'.
  - intros t' [= <-]. by split.
Qed.

(** Taking the slot, and leaving it. *)
Lemma idInv_begin m m' id th op : idInv m id th -> beginExclusiveClientOp m id = Some m' -> opInv id op ->
  th = None /\ idInv m' id (Some (mkThread op PEnter)).
Proof.
  intros [H1 H2 H3 H4 H5 H6 H7] Hb Ho. unfold beginExclusiveClientOp in Hb.
  assert (Hth : th = None /\ m' = setOps m (<[id := InFlight]> (reconnectingClients m))).
  { destruct (reconnectingClients m !! id) as [[|err]|] eqn:Hs; [done| |]; injection Hb as <-; (split; [|done]);
      (destruct th as [t|]; [|done]); exfalso; assert (Hx : is_Some (Some t)) by eauto; apply H1 in Hx; congruence. }
  destruct Hth as [-> ->]. split; [done|]. split; cbn; try done.
  - rewrite lookup_insert_eq. split; eauto.
  - intros c Hc Hcid. destruct (H5 c Hc Hcid) as [Hb' [He|(t' & [=] & _)]]. split; [done|by left].
  - intros t c [= <-] Hin. by apply elem_of_nil in Hin.
  - intros t [= <-]. done.
Qed.

Lemma idInv_finish m id t err : idInv m id (Some t) -> held (th_phase t) = [] -> idInv (finishExclusiveClientOp m id err) id None.
Proof.
  intros [H1 H2 H3 H4 H5 H6 H7] Hh. split; cbn; try done.
  - rewrite lookup_insert_eq. split; [done|by intros [? [=]]].
  - intros c Hc Hcid. destruct (H5 c Hc Hcid) as [Hb [He|(t' & [= <-] & Hin)]]; [split; [done|by left]|]. rewrite Hh in Hin. by apply elem_of_nil in Hin.
Qed.

(** A new entry without a connection where there was none. *)
Lemma idInv_new m id th e : idInv m id th -> clientMap m !! id = None -> ID (ExecutionConfig e) = id -> Conn e = None ->
  idInv (newEntry m id e) id th.
Proof.
  intros [H1 H2 H3 H4 H5 H6 H7] Hn Hi Hc.
  assert (Hec : entryConn (newEntry m id e) id = entryConn m id) by (unfold entryConn; cbn; rewrite lookup_insert_eq, Hn; done).
  assert (Hl : forall q x, clientMap (newEntry m id e) !! id = Some (q, x) -> x = e).
  { intros q x. cbn. rewrite lookup_insert_eq. by intros [= <- <-]. }
  split; [done| | |by rewrite Hec|by rewrite Hec|done|].
  - by intros q x ->%Hl.
  - by intros q x ->%Hl.
  - intros t Ht. destruct (H7 t Ht) as [Hp Ho]. split; [|done].
    assert (Hdl : forall d, dialing m id d -> dialing (newEntry m id e) id d).
    { intros d [Hd1 Hd2]. split; [done|]. intros q x ->%Hl. by left. }
    destruct (th_phase t); cbn [phaseInv] in Hp |- *; rewrite ?Hec; try done; (by apply Hdl) || (destruct Hp; split; [by apply Hdl|done]).
Qed.

(** ** Operations of one section keep it *)

Lemma conn_of_entry m id th p e c : idInv m id th -> clientMap m !! id = Some (p, e) -> Conn e = Some c -> c.1 = id.
Proof. intros HI He Hc. apply (inv_conn _ _ _ HI). by rewrite (entryConn_Some _ _ _ _ He). Qed.

(** An operation on the manager that concerns one client and keeps what is
    said of it. *)
Definition keeps (id : string) (th : option Thread) (m m' : MCPManager) : Prop :=
  idInv m id th -> onlyAt id m m' /\ idInv m' id th.

Lemma keeps_update id th m p e e' : clientMap m !! id = Some (p, e) ->
  Conn e' = Conn e -> ID (ExecutionConfig e') = ID (ExecutionConfig e) -> (State e' = DisabledState -> State e = DisabledState) ->
  keeps id th m (updateEntry m id p e').
Proof. intros He Hc Hi Hd HI. split; [apply onlyAt_update|by eapply idInv_entry]. Qed.

Lemma keeps_entry id th m p e e' l : clientMap m !! id = Some (p, e) ->
  Conn e' = Conn e -> ID (ExecutionConfig e') = ID (ExecutionConfig e) -> (State e' = DisabledState -> State e = DisabledState) ->
  keeps id th m (notify (updateEntry m id p e') l).
Proof.
  intros He Hc Hi Hd HI. destruct (keeps_update id th m p e e' He Hc Hi Hd HI).
  split; [eapply onlyAt_trans; [done|apply onlyAt_notify]|by apply idInv_notify].
Qed.

Lemma keeps_refl id th m : keeps id th m m.
Proof. intros HI. split; [apply onlyAt_refl|done]. Qed.

Lemma toolsChanged_same e id t : let e' := (toolsChangedCallback computeToolsHash e id t).1 in
  Conn e' = Conn e /\ ExecutionConfig e' = ExecutionConfig e /\ State e' = State e /\ ConnGeneration e' = ConnGeneration e.
Proof. unfold toolsChangedCallback. by case_bool_decide. Qed.

Lemma keeps_SetClientTools id th m t : keeps id th m (SetClientTools computeToolsHash m id t).
Proof.
  unfold SetClientTools. destruct (clientMap m !! id) as [[p e]|] eqn:He; [|apply keeps_refl].
  set (e0 := setState _ Healthy). pose proof (toolsChanged_same e0 id t) as (Hc & Hi & Hs & _). destruct (toolsChangedCallback _ e0 id t) as [e' l].
  apply (keeps_entry id th m p e); [done|exact Hc|cbn in Hi; by rewrite Hi|cbn in Hs; by rewrite Hs].
Qed.

Lemma keeps_lost id th m g : keeps id th m (handleSSEConnectionLost m id g).
Proof.
  unfold handleSSEConnectionLost. destruct (clientMap m !! id) as [[p e]|] eqn:He; [|apply keeps_refl].
  case_match; [apply keeps_refl|]. by apply (keeps_update id th m p e).
Qed.

Lemma keeps_bootFailed th m config : keeps (ID config) th m (connectConfiguredFailed m config).
Proof.
  unfold connectConfiguredFailed. destruct (clientMap m !! ID config) as [[p e]|] eqn:He; [by apply (keeps_update _ th m p e)|].
  intros HI. split; [apply onlyAt_new|by apply idInv_new].
Qed.

Lemma keeps_writeBack id th m g t : keeps id th m (writeBackTools computeToolsHash m id g t).
Proof.
  unfold writeBackTools. destruct (clientMap m !! id) as [[p e]|] eqn:He; [|apply keeps_refl].
  case_match; [apply keeps_refl|].
  pose proof (toolsChanged_same (setTools e t) id t) as (Hc & Hi & Hs & _). destruct (toolsChangedCallback _ _ id t) as [e' l].
  apply (keeps_entry id th m p e); [done|exact Hc|cbn in Hi; by rewrite Hi|cbn in Hs; by rewrite Hs].
Qed.

Lemma keeps_checkedState id th m st g : st <> DisabledState -> keeps id th m (checkedState m id st g).
Proof.
  intros Hst. unfold checkedState. destruct (clientMap m !! id) as [[p e]|] eqn:He; [|apply keeps_refl].
  repeat (case_match; [apply keeps_refl|]). by apply (keeps_entry id th m p e).
Qed.

Lemma keeps_Remove id th m : keeps id th m (RemoveClient m id).2.
Proof.
  unfold RemoveClient. destruct (clientMap m !! id) as [[p e]|] eqn:He; [|apply keeps_refl]. intros HI. cbn.
  replace (setClients (closeConn m (Conn e)) (delete id (clientMap m)))
    with ((fun m => setClients m (delete id (clientMap m))) (closeConn m (Conn e))) by (cbn; by destruct (Conn e)).
  split.
  - eapply onlyAt_trans; [apply onlyAt_close; intros c Hc; by eapply conn_of_entry|]. apply onlyAt_delete.
  - apply (idInv_closed m id th p e (fun m => setClients m (delete id (clientMap m)))); [done|done|done|].
    intros m' q x. cbn. by rewrite lookup_delete_eq.
Qed.

(** An entry that is disconnected, its connection closed. *)
Lemma keeps_disconnect id th m p e e' : clientMap m !! id = Some (p, e) -> Conn e' = None -> ID (ExecutionConfig e') = ID (ExecutionConfig e) ->
  keeps id th m (updateEntry (closeConn m (Conn e)) id p e').
Proof.
  intros He Hc Hi HI. split.
  - eapply onlyAt_trans; [apply onlyAt_close; intros c Hcc; by eapply conn_of_entry|]. apply onlyAt_update.
  - apply (idInv_closed m id th p e (fun m => updateEntry m id p e')); [done|done|done|].
    intros m' q x. cbn. rewrite lookup_insert_eq. by intros [= <- <-].
Qed.

(** The slot is taken and left again. *)
Lemma keeps_exclusively id th m refused body :
  (forall m1, keeps id (Some (mkThread OpReconnect PEnter)) m1 (body m1).2) -> keeps id th m (exclusively m id refused body).2.
Proof.
  intros Hb HI. unfold exclusively. destruct (beginExclusiveClientOp m id) as [m1|] eqn:Hg; [|by apply keeps_refl].
  destruct (idInv_begin m m1 id th OpReconnect HI Hg I) as [-> HI1]. pose proof (Hb m1 HI1) as [Ho HI2].
  destruct (body m1) as [err m2]. cbn in *. split.
  - assert (Hm1 : onlyAt id m m1) by (unfold beginExclusiveClientOp in Hg; repeat case_match; simplify_eq; apply onlyAt_ops).
    eapply onlyAt_trans; [exact Hm1|]. eapply onlyAt_trans; [exact Ho|]. apply onlyAt_ops.
  - by eapply idInv_finish.
Qed.

Lemma keeps_Disable id th m : keeps id th m (DisableClient m id).2.
Proof.
  unfold DisableClient. case_bool_decide; [apply keeps_refl|]. apply keeps_exclusively. intros m1.
  destruct (clientMap m1 !! id) as [[p e]|] eqn:He; [|apply keeps_refl]. case_bool_decide; [apply keeps_refl|]. by apply keeps_disconnect.
Qed.

Lemma keeps_Rotate id th m : keeps id th m (CloseAndMarkNeedsReauth m id).2.
Proof.
  apply keeps_exclusively. intros m1. destruct (clientMap m1 !! id) as [[p e]|] eqn:He; [|apply keeps_refl].
  destruct (RequiresPerCallConnection _); [apply keeps_refl|]. case_bool_decide; [apply keeps_refl|]. by apply keeps_disconnect.
Qed.

Lemma keeps_UpdateSection id th m updated : keeps id th m (UpdateClientSection m id updated).2.
Proof.
  unfold UpdateClientSection. destruct (clientMap m !! id) as [[p e]|] eqn:He; [|apply keeps_refl].
  destruct (nameError _); [apply keeps_refl|]. do 3 (case_match; [apply keeps_refl|]). case_match.
  - cbn. apply keeps_disconnect; [done|by repeat case_match|by repeat case_match].
  - by apply (keeps_update id th m p e).
Qed.

(** ** Sections of an operation keep it *)

(** The manager and the operation after a section of a client. *)
Definition goes (id : string) (t : Thread) (m m' : MCPManager) (op' : Op) (ph' : Phase) : Prop :=
  idInv m id (Some t) -> onlyAt id m m' /\ idInv m' id (Some (mkThread op' ph')).

Lemma keeps_goes id t m m' op' ph' : keeps id (Some t) m m' -> held (th_phase t) = [] -> held ph' = [] ->
  (idInv m id (Some t) -> phaseInv m' id ph') -> (idInv m id (Some t) -> opInv id op') -> goes id t m m' op' ph'.
Proof. intros Hk Hh Hh' Hp Ho HI. destruct (Hk HI) as [? ?]. split; [done|]. apply (idInv_goes m' id t); auto. Qed.

Lemma op_of m id t : idInv m id (Some t) -> opInv id (th_op t).
Proof. intros HI. by destruct (inv_phase _ _ _ HI t eq_refl). Qed.

Lemma phase_of m id op ph : idInv m id (Some (mkThread op ph)) -> phaseInv m id ph.
Proof. intros HI. by destruct (inv_phase _ _ _ HI _ eq_refl). Qed.

Lemma UpdateClientSection_config m id updated config m' : UpdateClientSection m id updated = (inr (Some config), m') ->
  exists p e, clientMap m !! id = Some (p, e) /\ ID config = ID (ExecutionConfig e).
Proof.
  unfold UpdateClientSection. destruct (clientMap m !! id) as [[p e]|]; [|done].
  destruct (nameError _); [done|]. repeat (case_match; try done); intros [= <- _]; exists p, e; by repeat case_match.
Qed.

Lemma enter_goes id op m m' op' ph' : enterOp m id op = (m', op', ph') -> goes id (mkThread op PEnter) m m' op' ph'.
Proof.
  unfold enterOp. destruct op as [| |updated|updated|old|config].
  - destruct (clientMap m !! id) as [[p e]|] eqn:He; [destruct (RequiresPerCallConnection _); [|destruct (awaitsOAuth _)]|]; intros [= <- <- <-];
      (apply keeps_goes; [apply keeps_refl|done|done| |done]); try done. intros HI. by apply (inv_config _ _ _ HI p).
  - destruct (clientMap m !! id) as [[p e]|] eqn:He; [destruct (negb _)|]; intros [= <- <- <-].
    1, 3: apply keeps_goes; [apply keeps_refl|done|done|done|done].
    apply keeps_goes; [by apply (keeps_update id _ m p e)|done|by case_match| |done].
    intros HI. case_match; [done|]. by apply (inv_config _ _ _ HI p).
  - pose proof (keeps_UpdateSection id (Some (mkThread (OpUpdate updated) PEnter)) m updated) as Hk. destruct (UpdateClientSection m id updated) as [r m1] eqn:Hu.
    destruct r as [err|[config|]]; intros [= <- <- <-]; (apply keeps_goes; [done|done|done| |done]); try done.
    intros HI. cbn. apply UpdateClientSection_config in Hu as (p & e & He & Hc). rewrite Hc. by apply (inv_config _ _ _ HI p).
  - destruct (clientMap m !! id) as [[p e]|] eqn:He; [destruct (RequiresPerCallConnection _)|]; intros [= <- <- <-];
      (apply keeps_goes; [apply keeps_refl|done|by repeat case_match| |]); try done; try apply op_of; intros HI.
    + case_bool_decide; [|done]. apply (op_of _ _ _ HI).
    + by apply (inv_config _ _ _ HI p).
    + by apply (inv_config _ _ _ HI p).
  - intros [= <- <- <-]. apply keeps_goes; [apply keeps_refl|done|done|done|apply op_of].
  - case_match; intros [= <- <- <-]; (apply keeps_goes; [|done|by repeat case_match| |apply op_of]); try apply keeps_refl; try done.
    + destruct (clientMap m !! id) as [[p e]|] eqn:He; [by apply (keeps_update id _ m p e)|apply keeps_refl].
    + intros HI. pose proof (op_of _ _ _ HI). by case_match.
Qed.

(** The first section of a dial: the entry keeps its connection, or the dial
    has it in hand. *)
Lemma begin_goes id op config m d m' : connectBegin m config = inr (d, m') ->
  goes id (mkThread op (PBegin config)) m m' op (if makeBeforeBreak d then PDial d else PCloseFirst d).
Proof.
  intros Hb HI. pose proof (phase_of _ _ _ _ HI) as Hid. cbn in Hid. pose proof (op_of _ _ _ HI) as Ho. cbn in Ho.
  unfold connectBegin in Hb. rewrite Hid in Hb. destruct (clientMap m !! id) as [[p e]|] eqn:He.
  - case_match; [done|]. injection Hb as <- <-. cbn [makeBeforeBreak].
    assert (Hec : forall c, Conn e = Some c -> c.1 = id /\ (c.2 < nextConn m)%nat).
    { intros c Hc. rewrite <-(entryConn_Some _ _ _ _ He) in Hc. destruct (inv_conn _ _ _ HI c Hc) as [Hci Hin]. split; [done|].
      by apply (inv_open _ _ _ HI). }
    destruct (bool_decide (is_Some (Conn e)) && _) eqn:Hm.
    + destruct (keeps_update id (Some (mkThread op (PBegin config))) m p e (setConfig e config) He) as [Hon HI']; [done|cbn; rewrite Hid; symmetry; by apply (inv_config _ _ _ HI p)|done|done|].
      split; [done|]. eapply idInv_rephase; [done|by intros c ?%elem_of_nil| | |done].
      * intros c. cbn. destruct (Conn e) as [c'|]; [|by intros ?%elem_of_nil]. intros ->%list_elem_of_singleton. by apply Hec.
      * split; [done|]. intros q x. cbn. rewrite lookup_insert_eq. intros [= <- <-]. by right.
    + split; [apply onlyAt_update|]. set (e' := bumpGeneration _).
      assert (Hn : entryConn (updateEntry m id p e') id = None) by apply entryConn_update.
      destruct HI as [H1 H2 H3 H4 H5 H6 H7]. split.
      * change (reconnectingClients (updateEntry m id p e')) with (reconnectingClients m). rewrite H1. split; eauto.
      * intros q x. cbn. rewrite lookup_insert_eq. by intros [= <- <-].
      * intros q x. cbn. rewrite lookup_insert_eq. by intros [= <- <-].
      * intros c Hc. by rewrite Hn in Hc.
      * intros c Hc Hci. destruct (H5 c Hc Hci) as [Hb [Hx|(t & [= <-] & Hx)]]; [|by apply elem_of_nil in Hx]. split; [done|]. right.
        eexists. split; [done|]. cbn. rewrite (entryConn_Some _ _ _ _ He) in Hx. rewrite Hx. by left.
      * intros t c [= <-] Hc. cbn in Hc. destruct (Conn e) as [c'|]; [|by apply elem_of_nil in Hc]. apply list_elem_of_singleton in Hc as ->. by apply Hec.
      * by intros t [= <-].
  - injection Hb as <- <-. cbn [makeBeforeBreak].
    pose proof (idInv_new m id _ (clientOf config Unstable) HI He Hid eq_refl) as HI'. split; [apply onlyAt_new|].
    apply (idInv_goes _ _ _ op (PCloseFirst (mkDial (nextEntry m) config None false)) HI'); [done|done| |done].
    split; [done|]. unfold entryConn. cbn. by rewrite lookup_insert_eq.
Qed.

Lemma closeFirst_goes id op m d : goes id (mkThread op (PCloseFirst d)) m (closeConn m (d_old d)) op (PDial (mkDial (d_entry d) (d_config d) None false)).
Proof.
  intros HI. pose proof (phase_of _ _ _ _ HI) as [Hid Hn]. pose proof (op_of _ _ _ HI) as Ho. cbn in Ho.
  assert (Hown : forall c, d_old d = Some c -> c.1 = id).
  { intros c Hc. apply (inv_held _ _ _ HI _ c eq_refl). cbn. rewrite Hc. by left. }
  split; [by apply onlyAt_close|]. eapply idInv_drop; [exact HI| | | | |done].
  - intros c Hc. split; [by apply Hown|by rewrite Hn].
  - cbn. intros x Hx. right. destruct (d_old d) as [c|]; [by apply list_elem_of_singleton in Hx as ->|by apply elem_of_nil in Hx].
  - by intros x ?%elem_of_nil.
  - split; [done|]. intros q x Hx. left. assert (Hm : clientMap (closeConn m (d_old d)) = clientMap m) by by destruct (d_old d).
    rewrite Hm in Hx. by rewrite (entryConn_Some _ _ _ _ Hx) in Hn.
Qed.

(** A dial opens a connection, or none, and has it in hand. *)
Lemma open_goes id op m d opened ph : dialing m id d ->
  (forall new, held (ph new) = option_list new ++ option_list (d_old d)) ->
  (forall m new, phaseInv m id (ph new) <-> dialing m id d /\ fresh m d new) ->
  goes id (mkThread op (PDial d)) m (maybeOpen m id opened).2 op (ph (maybeOpen m id opened).1).
Proof.
  intros Hd Hheld Hph HI. pose proof (op_of _ _ _ HI) as Ho. cbn in Ho. split; [apply onlyAt_open|].
  destruct opened; cbn [maybeOpen fst snd openConn].
  - destruct HI as [H1 H2 H3 H4 H5 H6 H7]. cbn in H7.
    set (c0 := (id, nextConn m)). split; try done.
    + change (reconnectingClients _ !! id) with (reconnectingClients m !! id). rewrite H1. split; eauto.
    + intros c Hc. destruct (H4 c Hc). split; [done|]. cbn. rewrite elem_of_union. by right.
    + intros c Hc Hci. cbn in Hc. rewrite elem_of_union, elem_of_singleton in Hc. cbn [nextConn].
      destruct Hc as [->|Hc]; [split; [cbn; lia|]; right; eexists; split; [done|]; cbn [th_phase]; rewrite Hheld; by left|].
      destruct (H5 c Hc Hci) as [Hb [He|(t & [= <-] & Hin)]]; (split; [lia|]); [by left|]. right. eexists. split; [done|]. cbn [th_phase]. rewrite Hheld. cbn. by right.
    + intros t c [= <-] Hc. cbn [th_phase] in Hc. rewrite Hheld in Hc. cbn in Hc. apply elem_of_cons in Hc as [->|Hc]; [split; [done|cbn; lia]|].
      destruct (H6 _ c eq_refl Hc). split; [done|cbn; lia].
    + intros t [= <-]. split; [|done]. cbn [th_phase]. apply Hph. split; [done|]. intros c [= <-]. split; [cbn; rewrite elem_of_union, elem_of_singleton; by left|].
      intros Hold. destruct (H6 _ (id, nextConn m) eq_refl) as [_ Hb]; [cbn; rewrite Hold; by left|]. cbn in Hb. lia.
  - eapply idInv_rephase; [exact HI| | | |done].
    + intros c Hc. left. rewrite Hheld. exact Hc.
    + intros c. rewrite Hheld. cbn. intros Hc. exact (inv_held _ _ _ HI _ c eq_refl Hc).
    + apply Hph. split; [done|]. by intros c [=].
Qed.

Lemma sameEntry_spec m d e : sameEntry m d = Some e <-> clientMap m !! ID (d_config d) = Some (d_entry d, e).
Proof.
  unfold sameEntry. destruct (clientMap m !! ID (d_config d)) as [[p x]|]; cbn; [|done]. case_bool_decide as Hp; split; intros [= ]; congruence.
Qed.

(** The old connection of a dial is in no entry but its own. *)
Lemma dialing_other m id d : dialing m id d -> sameEntry m d = None -> entryConn m id = None.
Proof.
  intros [Hid Hd] Hs. unfold entryConn. destruct (clientMap m !! id) as [[p e]|] eqn:He; [|done]. cbn.
  destruct (Hd p e eq_refl) as [|[_ ->]]; [done|]. rewrite <-Hid in He. apply sameEntry_spec in He. congruence.
Qed.

Lemma fail_goes id op m d new needsReauth err :
  goes id (mkThread op (PFail d new needsReauth err)) m (failConnectAttempt m d needsReauth) op (PClose d new (Some err)).
Proof.
  intros HI. pose proof (phase_of _ _ _ _ HI) as [Hd Hf]. pose proof (op_of _ _ _ HI) as Ho. cbn in Ho.
  assert (Hdone : forall m', onlyAt id m m' -> idInv m' id (Some (mkThread op (PFail d new needsReauth err))) -> entryConn m' id = None ->
    onlyAt id m m' /\ idInv m' id (Some (mkThread op (PClose d new (Some err))))).
  { intros m' Hon HI' Hn. split; [done|]. eapply idInv_rephase; [exact HI'| | | |done].
    - intros c Hc. by left.
    - intros c Hc. exact (inv_held _ _ _ HI' _ c eq_refl Hc).
    - split; [|done]. intros c _. by rewrite Hn. }
  unfold failConnectAttempt. destruct (sameEntry m d) as [e|] eqn:Hs.
  - apply sameEntry_spec in Hs as He. destruct Hd as [Hid Hd]. rewrite Hid in He. case_bool_decide as Hdis.
    + apply Hdone; [apply onlyAt_refl|done|]. rewrite (entryConn_Some _ _ _ _ He). by apply (inv_disabled _ _ _ HI (d_entry d) e).
    + rewrite Hid. match goal with |- context [notify (updateEntry _ _ _ ?x) ?l] => set (e' := x); generalize l; intros l' end.
      assert (Hn : entryConn (notify (updateEntry m id (d_entry d) e') l') id = None) by (change (entryConn (updateEntry m id (d_entry d) e') id = None); by rewrite entryConn_update).
      apply Hdone; [eapply onlyAt_trans; [apply onlyAt_update|apply onlyAt_notify]| |done]. apply idInv_notify.
      destruct HI as [H1 H2 H3 H4 H5 H6 H7]. split; try done.
      * intros q x. cbn. rewrite lookup_insert_eq. intros [= _ <-]. exact (H2 _ _ He).
      * intros q x. cbn. rewrite lookup_insert_eq. by intros [= <- <-].
      * intros c Hc. rewrite entryConn_update in Hc. done.
      * intros c Hc Hci. destruct (H5 c Hc Hci) as [Hb Hw]. split; [done|]. right. destruct Hw as [Hx|Hx]; [|done].
        eexists. split; [done|]. cbn. apply elem_of_app. right. rewrite (entryConn_Some _ _ _ _ He) in Hx.
        destruct (Hd _ _ He) as [Hc'|[Hc' _]]; [congruence|]. rewrite <-Hc', Hx. by left.
      * intros t [= <-]. destruct (H7 _ eq_refl) as [_ Ho']. split; [|done]. split; [|done]. split; [done|].
        intros q x. cbn. rewrite lookup_insert_eq. intros [= <- <-]. by left.
  - apply Hdone; [apply onlyAt_refl|done|]. by eapply dialing_other.
Qed.

Lemma commit_goes id op m d new t r m' : connectCommit computeToolsHash m d new t = (r, m') ->
  goes id (mkThread op (PCommit d new t)) m m' op (match r with Some err => PFail d new false err | None => PClose d None None end).
Proof.
  intros Hc HI. pose proof (phase_of _ _ _ _ HI) as [Hd Hf]. pose proof (op_of _ _ _ HI) as Ho. cbn in Ho.
  assert (Hfail : forall err, onlyAt id m m /\ idInv m id (Some (mkThread op (PFail d new false err)))).
  { intros err. split; [apply onlyAt_refl|]. eapply idInv_rephase; [exact HI| | | |done].
    - intros c Hx. by left.
    - intros c Hx. exact (inv_held _ _ _ HI _ c eq_refl Hx).
    - by split. }
  unfold connectCommit in Hc. destruct (sameEntry m d) as [e|] eqn:Hs; [|injection Hc as <- <-; apply Hfail].
  case_bool_decide; [injection Hc as <- <-; apply Hfail|].
  apply sameEntry_spec in Hs as He. destruct Hd as [Hid Hd]. rewrite Hid in He, Hc.
  set (e0 := bumpGeneration _) in Hc. pose proof (toolsChanged_same e0 id t) as (Hcc & Hci & Hst & _).
  destruct (toolsChangedCallback computeToolsHash e0 id t) as [e' l]. cbn in Hcc, Hci, Hst. injection Hc as <- <-.
  assert (Hec : entryConn (notify (updateEntry m id (d_entry d) e') l) id = new) by (change (entryConn (updateEntry m id (d_entry d) e') id = new); by rewrite entryConn_update).
  split; [eapply onlyAt_trans; [apply onlyAt_update|apply onlyAt_notify]|]. apply idInv_notify.
  destruct HI as [H1 H2 H3 H4 H5 H6 H7]. cbn in H6.
  assert (Hnew : forall c, new = Some c -> c.1 = id) by (intros c ->; apply (H6 _ c eq_refl); by left).
  split; try done.
  - change (reconnectingClients _) with (reconnectingClients m). rewrite H1. split; eauto.
  - intros q x. cbn. rewrite lookup_insert_eq. intros [= <- <-]. rewrite Hci. by apply (H2 (d_entry d)).
  - intros q x. cbn. rewrite lookup_insert_eq. intros [= <- <-]. by rewrite Hst.
  - intros c Hx. rewrite entryConn_update, Hcc in Hx. cbn in Hx. split; [by apply Hnew|]. by apply Hf.
  - intros c Hx Hxi. destruct (H5 c Hx Hxi) as [Hb Hw]. split; [done|]. rewrite entryConn_update, Hcc. cbn.
    destruct Hw as [Hw|(t' & [= <-] & Hin)].
    + right. eexists. split; [done|]. cbn. rewrite (entryConn_Some _ _ _ _ He) in Hw. destruct (Hd _ _ He) as [Hc'|[Hc' _]]; [congruence|]. rewrite <-Hc', Hw. by left.
    + cbn in Hin. apply elem_of_app in Hin as [Hin|Hin]; [|right; by eexists]. left. destruct new as [c'|]; [by apply list_elem_of_singleton in Hin as ->|by apply elem_of_nil in Hin].
  - intros t' c [= <-] Hin. apply (H6 _ c eq_refl). cbn. apply elem_of_app. by right.
  - intros t' [= <-]. split; [|done]. split; [|done]. intros c Hin. change (entryConn _ id) with (entryConn (notify (updateEntry m id (d_entry d) e') l) id). rewrite Hec.
    intros ->. destruct (Hf c eq_refl) as [_ Hne]. apply Hne. cbn in Hin. destruct (d_old d) as [c'|]; [by apply list_elem_of_singleton in Hin as ->|by apply elem_of_nil in Hin].
Qed.

Lemma close_goes id op m d new err : goes id (mkThread op (PClose d new err)) m (closeConn (closeConn m new) (d_old d)) op (PAfter err).
Proof.
  intros HI. pose proof (phase_of _ _ _ _ HI) as [Hn He]. pose proof (op_of _ _ _ HI) as Ho. cbn in Ho, Hn.
  assert (Hown : forall c, c ∈ option_list new ++ option_list (d_old d) -> c.1 = id).
  { intros c Hc. by apply (inv_held _ _ _ HI _ c eq_refl). }
  assert (Hcm : forall m c, clientMap (closeConn m c) = clientMap m) by (by intros ? []).
  assert (Hec : forall m c, entryConn (closeConn m c) id = entryConn m id) by (intros; unfold entryConn; by rewrite Hcm).
  assert (HI1 : idInv (closeConn m new) id (Some (mkThread op (PClose d None err)))).
  { eapply idInv_drop; [exact HI| | | | |done].
    - intros c ->. split; [apply Hown; by left|]. apply Hn. by left.
    - intros x Hx. cbn in Hx. apply elem_of_app in Hx as [Hx|Hx]; [|by left]. right. destruct new as [c|]; [by apply list_elem_of_singleton in Hx as ->|by apply elem_of_nil in Hx].
    - intros x Hx. cbn in Hx |- *. apply elem_of_app. by right.
    - split; [|by rewrite Hec]. intros c Hc. rewrite Hec. apply Hn. cbn in Hc. apply elem_of_app. by right. }
  split.
  - eapply onlyAt_trans; apply onlyAt_close; intros c Hc; apply Hown, elem_of_app; [left|right]; rewrite Hc; by left.
  - eapply idInv_drop; [exact HI1| | | | |done].
    + intros c Hc. rewrite Hec. split; [apply Hown|apply Hn]; apply elem_of_app; right; rewrite Hc; by left.
    + intros x Hx. right. cbn in Hx. destruct (d_old d) as [c|]; [by apply list_elem_of_singleton in Hx as ->|by apply elem_of_nil in Hx].
    + by intros x ?%elem_of_nil.
    + intros Hne. rewrite !Hec. by apply He.
Qed.

Lemma after_goes id op m err : goes id (mkThread op (PAfter err)) m (afterDial m id op err) op (PFinish err).
Proof.
  intros HI. pose proof (phase_of _ _ _ _ HI) as Hn. pose proof (op_of _ _ _ HI) as Ho. cbn in Ho, Hn. revert HI.
  apply keeps_goes; [|done|done|done|done]. unfold afterDial. destruct err as [err|]; [|apply keeps_refl].
  destruct (clientMap m !! id) as [[p e]|] eqn:He; [|apply keeps_refl].
  destruct op as [| |updated|updated|old|config]; try apply keeps_refl.
  - case_match; [apply keeps_refl|]. by apply (keeps_update id _ m p e).
  - case_match; [apply keeps_refl|]. by apply (keeps_update id _ m p e).
  - intros HI. apply (keeps_update id _ m p e); [done|done| |done|done]. cbn in Ho |- *.
    rewrite Ho. symmetry. by apply (inv_config _ _ _ HI p).
  - intros HI. split; [apply onlyAt_delete|]. specialize (Hn ltac:(done)). rewrite (entryConn_Some _ _ _ _ He) in Hn.
    replace (setClients m (delete id (clientMap m))) with ((fun m => setClients m (delete id (clientMap m))) (closeConn m (Conn e))) by by rewrite Hn.
    apply (idInv_closed m id _ p e (fun m => setClients m (delete id (clientMap m)))); [done|done|done|].
    intros m' q x. cbn. by rewrite lookup_delete_eq.
Qed.

(** ** The sections of an operation keep the invariant *)

Lemma verify_goes id op m config m' ph' : ph' = PDiscover \/ ph' = PFinish None ->
  m' = match clientMap m !! id with
       | Some (p, e) =>
           if bool_decide (State e = PendingVerification)
           then updateEntry m id p (setState (setTools (setConfig e config)
                  match restoredTools config with
                  | Some t => mkTools (tools (ToolMap e) ∪ tools t) (toolNameMapping t)
                  | None => ToolMap e
                  end) Healthy)
           else m
       | None => m
       end ->
  goes id (mkThread op (PVerify config)) m m' op ph'.
Proof.
  intros Hph ->. apply keeps_goes; [|done|by destruct Hph as [->| ->]|by destruct Hph as [->| ->]|apply op_of].
  destruct (clientMap m !! id) as [[p e]|] eqn:He; [|apply keeps_refl]. case_bool_decide; [|apply keeps_refl].
  intros HI. apply (keeps_update id _ m p e); [done|done| |done|done]. cbn. rewrite (phase_of _ _ _ _ HI). symmetry. by apply (inv_config _ _ _ HI p).
Qed.

Lemma restore_goes id op m config m' ph' : ph' = PDiscover \/ ph' = PFinish None ->
  m' = match clientMap m !! id with
       | Some (p, e) =>
           updateEntry m id p
             match restoredTools config with
             | Some t => setHash (setState (setTools e (mkTools (tools (ToolMap e) ∪ tools t) (toolNameMapping t))) Healthy) (computeToolsHash t)
             | None => setState e Healthy
             end
       | None => m
       end ->
  goes id (mkThread op (PRestore config)) m m' op ph'.
Proof.
  intros Hph ->. apply keeps_goes; [|done|by destruct Hph as [->| ->]|by destruct Hph as [->| ->]|apply op_of].
  destruct (clientMap m !! id) as [[p e]|] eqn:He; [|apply keeps_refl]. by apply (keeps_update id _ m p e); [done| | |]; destruct (restoredTools config).
Qed.

Lemma Inv_goOn s id th op m ph : Inv s -> threads s !! id = Some th -> goes id th (mgr s) m op ph -> Inv (goOn s id op m ph).
Proof.
  intros HI Hth Hg. pose proof (HI id) as Hid. rewrite Hth in Hid. destruct (Hg Hid).
  by apply (Inv_at s id m (Some (mkThread op ph))).
Qed.

Lemma threadStep_inv s id out s' : Inv s -> threadStep computeToolsHash s id out = Some s' -> Inv s'.
Proof.
  intros HI. unfold threadStep. destruct (threads s !! id) as [[op ph]|] eqn:Hth; [|done]. cbn [mbind option_bind th_op th_phase].
  pose proof (HI id) as Hid. rewrite Hth in Hid. pose proof (fun m op' ph' => Inv_goOn s id _ op' m ph' HI Hth) as Hgo.
  destruct ph as [|config|d|d|d new nr err|d new t|d new err|err| |config|config| |err].
  - destruct (enterOp (mgr s) id op) as [[m op'] ph'] eqn:He. intros [= <-]. by apply Hgo, enter_goes.
  - destruct (connectBegin (mgr s) config) as [err|[d m]] eqn:Hb; intros [= <-].
    + apply Hgo. apply keeps_goes; [apply keeps_refl|done|done| |apply op_of]. intros _ _. unfold entryConn.
      pose proof (phase_of _ _ _ _ Hid) as Hc. cbn in Hc. unfold connectBegin in Hb. rewrite Hc in Hb.
      destruct (clientMap (mgr s) !! id) as [[p e]|] eqn:He; [|done]. case_match eqn:Hd; [|done]. apply andb_true_iff in Hd as [Hd%bool_decide_eq_true _].
      by apply (inv_disabled _ _ _ Hid p e).
    + by apply Hgo, (begin_goes id op config).
  - intros [= <-]. apply Hgo, closeFirst_goes.
  - pose proof (phase_of _ _ _ _ Hid) as Hd. destruct out as [opened nr|opened t|t|]; [| |done|done].
    + pose proof (open_goes id op (mgr s) d opened (fun new => PFail d new nr "failed to connect MCP client") Hd (fun _ => eq_refl) ltac:(done)) as Hg.
      destruct (maybeOpen (mgr s) id opened) as [new m]. intros [= <-]. by apply Hgo.
    + pose proof (open_goes id op (mgr s) d opened (fun new => PCommit d new (if opened then t else noTools)) Hd (fun _ => eq_refl) ltac:(done)) as Hg.
      destruct (maybeOpen (mgr s) id opened) as [new m]. intros [= <-]. by apply Hgo.
  - intros [= <-]. apply Hgo, fail_goes.
  - destruct (connectCommit computeToolsHash (mgr s) d new t) as [[err|] m] eqn:Hc; intros [= <-]; by apply Hgo, (commit_goes _ _ _ _ _ _ _ _ Hc).
  - intros [= <-]. apply Hgo, close_goes.
  - intros [= <-]. apply Hgo, after_goes.
  - intros [= <-]. apply Hgo. apply keeps_goes; [|done|done|done|apply op_of].
    destruct (clientMap (mgr s) !! id) as [[p e]|] eqn:He; [|apply keeps_refl]. by apply (keeps_update id _ (mgr s) p e).
  - intros [= <-]. apply Hgo, verify_goes; [case_bool_decide; tauto|done].
  - intros [= <-]. apply Hgo, restore_goes; [case_bool_decide; tauto|done].
  - destruct out as [|?|t|]; [done|done| |]; intros [= <-]; apply Hgo.
    + apply keeps_goes; [apply keeps_SetClientTools|done|done|done|apply op_of].
    + apply keeps_goes; [apply keeps_refl|done|done|done|apply op_of].
  - intros [= <-]. apply (Inv_at s id (finishExclusiveClientOp (mgr s) id err) None); [done|apply onlyAt_ops|by eapply idInv_finish].
Qed.

(** ** Every step keeps it *)

Lemma startOp_inv s id op : Inv s -> opInv id op -> Inv (startOp s id op).
Proof.
  intros HI Ho. unfold startOp. destruct (beginExclusiveClientOp (mgr s) id) as [m|] eqn:Hb; [|done].
  destruct (idInv_begin _ _ _ _ op (HI id) Hb Ho) as [_ HI']. apply (Inv_at s id m (Some (mkThread op PEnter))); [done| |done].
  unfold beginExclusiveClientOp in Hb. repeat case_match; simplify_eq; apply onlyAt_ops.
Qed.

Lemma Inv_adding s adds cks : Inv s -> Inv (mkNet (mgr s) adds (threads s) cks).
Proof. done. Qed.

Lemma Inv_keeps s id m : Inv s -> (forall th, keeps id th (mgr s) m) -> Inv (setMgr s m).
Proof. intros HI Hk. destruct (Hk _ (HI id)). by apply (Inv_mgr s id). Qed.

Lemma addEnter_inv s i s' : Inv s -> addEnter s i = Some s' -> Inv s'.
Proof.
  intros HI. unfold addEnter. destruct (adding s !! i) as [config|]; [|done]. cbn.
  set (s0 := mkNet (mgr s) _ (threads s) (checks s)). assert (HI0 : Inv s0) by done. change (mgr s) with (mgr s0). clearbody s0.
  destruct (clientMap (mgr s0) !! ID config) as [pe|] eqn:He; [by intros [= <-]|].
  destruct (Disabled config).
  - intros [= <-]. apply (Inv_mgr s0 (ID config)); [done|apply onlyAt_new|]. by apply idInv_new.
  - destruct (beginExclusiveClientOp (mgr s0) (ID config)) as [m|] eqn:Hb; intros [= <-]; [|done].
    destruct (idInv_begin _ _ _ _ (OpAdd config) (HI0 _) Hb eq_refl) as [_ HI'].
    assert (Hm : clientMap m = clientMap (mgr s0) /\ onlyAt (ID config) (mgr s0) m).
    { unfold beginExclusiveClientOp in Hb. repeat case_match; simplify_eq; (split; [done|apply onlyAt_ops]). }
    destruct Hm as [Hm Hon]. apply (Inv_at s0 (ID config) (newEntry m (ID config) (clientOf config McpTools.MCPConnectionStateNone)) (Some (mkThread (OpAdd config) PEnter))); [done| |].
    + eapply onlyAt_trans; [exact Hon|apply onlyAt_new].
    + apply idInv_new; [done|by rewrite Hm|done|done].
Qed.

(** Credentials come with the ID of their client. *)
Definition labelFits (l : Label) : Prop :=
  match l with LCredentials id updated => ID updated = id | _ => True end.

Lemma clients_step_inv s l s' : Inv s -> labelFits l -> step computeToolsHash s l = Some s' -> Inv s'.
Proof.
  intros HI Hl Hs. destruct l as [config|i|config|id|id|id updated|id updated|id|id|id|id t|id g|id|id out|k found]; cbn in Hs.
  - injection Hs as <-. unfold addCheckName. by case_match.
  - by eapply addEnter_inv.
  - injection Hs as <-. apply (Inv_keeps s (ID config)); [done|]. intros th. apply keeps_bootFailed.
  - injection Hs as <-. by apply startOp_inv.
  - injection Hs as <-. unfold startEnable. destruct (clientMap (mgr s) !! id) as [[p e]|]; [|done]. case_bool_decide; [|done]. by apply startOp_inv.
  - injection Hs as <-. by apply startOp_inv.
  - injection Hs as <-. by apply startOp_inv.
  - injection Hs as <-. apply (Inv_keeps s id); [done|]. intros th. apply keeps_Remove.
  - injection Hs as <-. apply (Inv_keeps s id); [done|]. intros th. apply keeps_Disable.
  - injection Hs as <-. apply (Inv_keeps s id); [done|]. intros th. apply keeps_Rotate.
  - injection Hs as <-. apply (Inv_keeps s id); [done|]. intros th. apply keeps_SetClientTools.
  - injection Hs as <-. apply (Inv_keeps s id); [done|]. intros th. apply keeps_lost.
  - injection Hs as <-. unfold startCheck. destruct (clientMap (mgr s) !! id) as [[p e]|]; [|done]. destruct (performCheck (mgr s) id); try done. by apply startOp_inv.
  - by eapply threadStep_inv.
  - unfold checkStep in Hs. destruct (checks s !! k) as [ck|]; [|done]. cbn in Hs. destruct (ck_phase ck) as [|ok]; injection Hs as <-.
    + destruct found as [t|]; [|done]. destruct (keeps_writeBack (ck_id ck) (threads s !! ck_id ck) (mgr s) (ck_generation ck) t (HI _)).
      by apply (Inv_mgr s (ck_id ck)).
    + destruct (keeps_checkedState (ck_id ck) (threads s !! ck_id ck) (mgr s) (if ok then Healthy else Unstable) (ck_generation ck) ltac:(by destruct ok) (HI _)).
      by apply (Inv_mgr s (ck_id ck)).
Qed.

Lemma clients_initial_inv : Inv initial.
Proof.
  intros id. split; cbn; try done.
  all: try (intros; match goal with H : _ |- _ => by rewrite lookup_empty in H end).
  rewrite lookup_empty. split; [done|by intros []].
Qed.

Lemma clients_run_inv ls : forall s s', Inv s -> Forall labelFits ls -> run computeToolsHash s ls = Some s' -> Inv s'.
Proof.
  induction ls as [|l ls IH]; cbn; intros s s' HI Hf Hr; [by injection Hr as <-|].
  destruct (step computeToolsHash s l) as [s1|] eqn:Hs; [|done]. inversion Hf. eapply IH; [by eapply clients_step_inv|done|done].
Qed.

(** C38. In every interleaving of dials, edits, removals and checks, whatever
    the servers answer: a disabled client has no connection; the connection of
    an entry is open and was dialed for that client; an open connection is that
    of its client's entry or in the hands of the operation on its client; the
    slot of a client is taken exactly while an operation on it is under way; and
    when none is, the open connections are those of the entries, so that none
    leaks. *)
Theorem connections_accounted ls s : run computeToolsHash initial ls = Some s -> Forall labelFits ls ->
  (forall id p e, clientMap (mgr s) !! id = Some (p, e) ->
     (State e = DisabledState -> Conn e = None) /\ (forall c, Conn e = Some c -> c.1 = id /\ c ∈ openConns (mgr s))) /\
  (forall c, c ∈ openConns (mgr s) ->
     entryConn (mgr s) c.1 = Some c \/ exists t, threads s !! c.1 = Some t /\ c ∈ held (th_phase t)) /\
  (forall id, reconnectingClients (mgr s) !! id = Some InFlight <-> is_Some (threads s !! id)) /\
  (threads s = ∅ -> forall c, c ∈ openConns (mgr s) <-> entryConn (mgr s) c.1 = Some c).
Proof.
  intros Hr Hf. pose proof (clients_run_inv ls _ _ clients_initial_inv Hf Hr) as HI.
  assert (Ho : forall c, c ∈ openConns (mgr s) -> entryConn (mgr s) c.1 = Some c \/ exists t, threads s !! c.1 = Some t /\ c ∈ held (th_phase t)).
  { intros c Hc. by destruct (inv_open _ _ _ (HI c.1) c Hc eq_refl). }
  split_and!; [| exact Ho | |].
  - intros id p e He. split; [by apply (inv_disabled _ _ _ (HI id) p)|]. intros c Hc. apply (inv_conn _ _ _ (HI id)). by rewrite (entryConn_Some _ _ _ _ He).
  - intros id. apply (inv_slot _ _ _ (HI id)).
  - intros Hn c. split.
    + intros Hc. destruct (Ho c Hc) as [|(t & Ht & _)]; [done|]. by rewrite Hn, lookup_empty in Ht.
    + intros Hc. by apply (inv_conn _ _ _ (HI c.1)).
Qed.

(** ** Generations *)

(** Entries that live on keep their generation and connection, lose the
    connection, or have a later generation; new ones have new allocations. *)
Definition follows (e e' : MCPClientState) : Prop :=
  ConnGeneration e <= ConnGeneration e' /\ (ConnGeneration e' = ConnGeneration e -> Conn e' = Conn e \/ Conn e' = None).

Definition evolves (m m' : MCPManager) : Prop :=
  (nextEntry m <= nextEntry m')%nat /\
  forall id p e', clientMap m' !! id = Some (p, e') ->
    (nextEntry m <= p < nextEntry m')%nat \/ exists e, clientMap m !! id = Some (p, e) /\ follows e e'.

Lemma follows_refl e : follows e e.
Proof. split; [lia|by left]. Qed.

Lemma evolves_clients m m' : clientMap m' = clientMap m -> nextEntry m' = nextEntry m -> evolves m m'.
Proof. intros Hc Hn. split; [lia|]. intros id p e'. rewrite Hc. right. exists e'. split; [done|apply follows_refl]. Qed.

Lemma evolves_refl m : evolves m m.
Proof. by apply evolves_clients. Qed.

Lemma evolves_trans m1 m2 m3 : evolves m1 m2 -> evolves m2 m3 -> evolves m1 m3.
Proof.
  intros [Hn He] [Hn' He']. split; [lia|]. intros id p e3 H3. destruct (He' id p e3 H3) as [|(e2 & H2 & Hg & Hc)]; [left; lia|].
  destruct (He id p e2 H2) as [|(e1 & H1 & Hg1 & Hc1)]; [left; lia|]. right. exists e1. split; [done|]. split; [lia|].
  intros Heq. destruct Hc as [->|]; [lia| |by right]. apply Hc1. lia.
Qed.

Lemma evolves_update m m' id p e e' : clientMap m !! id = Some (p, e) -> clientMap m' = clientMap m -> nextEntry m' = nextEntry m ->
  follows e e' -> evolves m (updateEntry m' id p e').
Proof.
  intros He Hc Hn Hf. split; [cbn; lia|]. intros j q x. cbn. rewrite Hc. destruct (decide (j = id)) as [->|Hj].
  - rewrite lookup_insert_eq. intros [= <- <-]. right. by exists e.
  - rewrite lookup_insert_ne by done. right. exists x. split; [done|apply follows_refl].
Qed.

Lemma evolves_notify m m' l : evolves m m' -> evolves m (notify m' l).
Proof. intros [Hn He]. by split. Qed.

Lemma evolves_new m id e : evolves m (newEntry m id e).
Proof.
  split; [cbn; lia|]. intros j q x. cbn. destruct (decide (j = id)) as [->|Hj].
  - rewrite lookup_insert_eq. intros [= <- <-]. left. lia.
  - rewrite lookup_insert_ne by done. right. exists x. split; [done|apply follows_refl].
Qed.

Lemma evolves_delete m m' id : clientMap m' = clientMap m -> nextEntry m' = nextEntry m -> evolves m (setClients m' (delete id (clientMap m))).
Proof.
  intros Hc Hn. split; [cbn; lia|]. intros j q x. cbn. intros [_ Hx]%lookup_delete_Some. right. exists x. split; [done|apply follows_refl].
Qed.

Lemma closeConn_clients m c : clientMap (closeConn m c) = clientMap m /\ nextEntry (closeConn m c) = nextEntry m.
Proof. by destruct c. Qed.

(** An entry whose generation and connection are kept. *)
Lemma follows_same e e' : ConnGeneration e' = ConnGeneration e -> Conn e' = Conn e \/ Conn e' = None -> follows e e'.
Proof. intros Hg Hc. split; [lia|done]. Qed.

Lemma follows_later e e' : ConnGeneration e' = ConnGeneration e + 1 -> follows e e'.
Proof. intros Hg. split; lia. Qed.

(** An entry that is replaced, over a manager that has the same entries. *)
Ltac evolve_entry :=
  try apply evolves_notify;
  eapply evolves_update; [eassumption|first [done|apply closeConn_clients]|first [done|apply closeConn_clients]|];
  first [apply follows_refl|apply follows_same; cbn; auto; fail|apply follows_later; done].

Ltac evolve := repeat (case_match; subst); try apply evolves_refl; try evolve_entry.

Lemma evolves_Remove m id : evolves m (RemoveClient m id).2.
Proof. unfold RemoveClient. evolve. cbn. by apply evolves_delete; apply closeConn_clients. Qed.

Lemma evolves_begin m m' id : beginExclusiveClientOp m id = Some m' -> clientMap m' = clientMap m /\ nextEntry m' = nextEntry m.
Proof. unfold beginExclusiveClientOp. by repeat case_match; intros; simplify_eq. Qed.

Lemma evolves_exclusively m id refused body : (forall m1, evolves m1 (body m1).2) -> evolves m (exclusively m id refused body).2.
Proof.
  intros Hb. unfold exclusively. destruct (beginExclusiveClientOp m id) as [m1|] eqn:Hg; [|apply evolves_refl].
  apply evolves_begin in Hg as [Hc Hn]. specialize (Hb m1). destruct (body m1) as [err m2]. cbn in *.
  eapply evolves_trans; [by apply evolves_clients|]. eapply evolves_trans; [exact Hb|]. by apply evolves_clients.
Qed.

Lemma evolves_Disable m id : evolves m (DisableClient m id).2.
Proof. unfold DisableClient. case_bool_decide; [apply evolves_refl|]. apply evolves_exclusively. intros m1. evolve. Qed.

Lemma evolves_Rotate m id : evolves m (CloseAndMarkNeedsReauth m id).2.
Proof. apply evolves_exclusively. intros m1. evolve. Qed.

Lemma evolves_tools m id p e e0 t : clientMap m !! id = Some (p, e) -> follows e e0 ->
  evolves m (let '(e', l) := toolsChangedCallback computeToolsHash e0 id t in notify (updateEntry m id p e') l).
Proof.
  intros He Hf. pose proof (toolsChanged_same e0 id t) as (Hc & _ & _ & Hg). destruct (toolsChangedCallback _ e0 id t) as [e' l].
  apply evolves_notify. eapply evolves_update; [exact He|done|done|]. unfold follows in *. cbn in *. by rewrite Hc, Hg.
Qed.

Lemma evolves_SetClientTools m id t : evolves m (SetClientTools computeToolsHash m id t).
Proof.
  unfold SetClientTools. destruct (clientMap m !! id) as [[p e]|] eqn:He; [|apply evolves_refl].
  apply (evolves_tools m id p e); [done|by apply follows_same; [|left]].
Qed.

Lemma evolves_writeBack m id g t : evolves m (writeBackTools computeToolsHash m id g t).
Proof.
  unfold writeBackTools. destruct (clientMap m !! id) as [[p e]|] eqn:He; [|apply evolves_refl]. case_match; [apply evolves_refl|].
  apply (evolves_tools m id p e); [done|by apply follows_same; [|left]].
Qed.

Lemma evolves_lost m id g : evolves m (handleSSEConnectionLost m id g).
Proof. unfold handleSSEConnectionLost. evolve. Qed.

Lemma evolves_bootFailed m config : evolves m (connectConfiguredFailed m config).
Proof. unfold connectConfiguredFailed. case_match; [evolve|apply evolves_new]. Qed.

Lemma evolves_checkedState m id st g : evolves m (checkedState m id st g).
Proof. unfold checkedState. evolve. Qed.

Lemma evolves_UpdateSection m id updated : evolves m (UpdateClientSection m id updated).2.
Proof. unfold UpdateClientSection. evolve. Qed.

Lemma evolves_enter m id op : evolves m (enterOp m id op).1.1.
Proof.
  destruct op as [| |updated| | |]; unfold enterOp; [evolve|evolve| |evolve|evolve|evolve].
  pose proof (evolves_UpdateSection m id updated) as Hu. destruct (UpdateClientSection m id updated) as [[err|[config|]] m1]; exact Hu.
Qed.

Lemma evolves_connectBegin m config d m' : connectBegin m config = inr (d, m') -> evolves m m'.
Proof.
  unfold connectBegin. destruct (clientMap m !! ID config) as [[p e]|] eqn:He; [|intros [= _ <-]; apply evolves_new].
  case_match; [done|]. intros [= _ <-]. eapply evolves_update; [exact He|done|done|]. by case_match; [apply follows_same; [|left]|apply follows_later].
Qed.

Lemma evolves_fail m d nr : evolves m (failConnectAttempt m d nr).
Proof.
  unfold failConnectAttempt. destruct (sameEntry m d) as [e|] eqn:Hs; [|apply evolves_refl]. apply sameEntry_spec in Hs.
  case_bool_decide; [apply evolves_refl|]. evolve_entry.
Qed.

Lemma evolves_commit m d new t : evolves m (connectCommit computeToolsHash m d new t).2.
Proof.
  unfold connectCommit. destruct (sameEntry m d) as [e|] eqn:Hs; [|apply evolves_refl]. apply sameEntry_spec in Hs.
  case_bool_decide; [apply evolves_refl|]. set (e0 := bumpGeneration _).
  pose proof (evolves_tools m (ID (d_config d)) (d_entry d) e e0 t Hs (follows_later e e0 eq_refl)) as He.
  by destruct (toolsChangedCallback _ e0 _ t).
Qed.

Lemma evolves_after m id op err : evolves m (afterDial m id op err).
Proof. unfold afterDial. evolve. by apply evolves_delete. Qed.

Lemma evolves_closeConn m c : evolves m (closeConn m c).
Proof. apply evolves_clients; apply closeConn_clients. Qed.

Lemma evolves_open m id opened : evolves m (maybeOpen m id opened).2.
Proof. by destruct opened; apply evolves_clients. Qed.

Lemma evolves_threadStep s id out s' : threadStep computeToolsHash s id out = Some s' -> evolves (mgr s) (mgr s') /\ checks s' = checks s.
Proof.
  unfold threadStep. destruct (threads s !! id) as [[op ph]|]; [|done]. cbn [mbind option_bind th_op th_phase].
  destruct ph as [|config|d|d|d new nr err|d new t|d new err|err| |config|config| |err].
  - pose proof (evolves_enter (mgr s) id op) as He. destruct (enterOp (mgr s) id op) as [[m op'] ph']. by intros [= <-].
  - destruct (connectBegin (mgr s) config) as [err|[d m]] eqn:Hb; intros [= <-]; (split; [|done]); [apply evolves_refl|by eapply evolves_connectBegin].
  - intros [= <-]. split; [apply evolves_closeConn|done].
  - destruct out as [opened nr|opened t|t|]; [| |done|done]; pose proof (evolves_open (mgr s) id opened) as Ho;
      destruct (maybeOpen (mgr s) id opened) as [new m]; by intros [= <-].
  - intros [= <-]. split; [apply evolves_fail|done].
  - pose proof (evolves_commit (mgr s) d new t) as Hc. destruct (connectCommit computeToolsHash (mgr s) d new t) as [[err|] m]; by intros [= <-].
  - intros [= <-]. split; [|done]. eapply evolves_trans; apply evolves_closeConn.
  - intros [= <-]. split; [apply evolves_after|done].
  - intros [= <-]. split; [|done]. cbn. evolve.
  - intros [= <-]. split; [|done]. cbn. evolve.
  - intros [= <-]. split; [|done]. cbn. evolve.
  - destruct out as [|?|t|]; [done|done| |]; intros [= <-]; (split; [|done]); [apply evolves_SetClientTools|apply evolves_refl].
  - intros [= <-]. split; [by apply evolves_clients|done].
Qed.

(** What is known of a check in flight. *)
Definition checkInv (m : MCPManager) (ck : Check) : Prop :=
  (ck_entry ck < nextEntry m)%nat /\
  forall e, clientMap m !! ck_id ck = Some (ck_entry ck, e) ->
    ck_generation ck <= ConnGeneration e /\ (ConnGeneration e = ck_generation ck -> Conn e = ck_conn ck \/ Conn e = None).

Definition checksInv (s : Net) : Prop :=
  (forall id p e, clientMap (mgr s) !! id = Some (p, e) -> (p < nextEntry (mgr s))%nat) /\ Forall (checkInv (mgr s)) (checks s).

Lemma checkInv_evolves m m' ck : evolves m m' -> checkInv m ck -> checkInv m' ck.
Proof.
  intros [Hn He] [Hp Hg]. split; [lia|]. intros e' H'. destruct (He _ _ _ H') as [|(e & H0 & Hge & Hc)]; [lia|].
  destruct (Hg e H0) as [Hg1 Hg2]. split; [lia|]. intros Heq. destruct Hc as [->|]; [lia| |by right]. apply Hg2. lia.
Qed.

Lemma checksInv_evolves s m' adds ths cks : evolves (mgr s) m' -> checksInv s ->
  (forall ck, ck ∈ cks -> checkInv m' ck \/ exists ck0, ck0 ∈ checks s /\ ck_id ck0 = ck_id ck /\ ck_entry ck0 = ck_entry ck /\ ck_generation ck0 = ck_generation ck /\ ck_conn ck0 = ck_conn ck) ->
  checksInv (mkNet m' adds ths cks).
Proof.
  intros Hev [Hb Hf] Hcks. split; cbn.
  - intros id p e Hl. destruct Hev as [Hn He]. destruct (He id p e Hl) as [|(e0 & H0 & _)]; [lia|]. specialize (Hb _ _ _ H0). lia.
  - apply Forall_forall. intros ck Hck. destruct (Hcks ck Hck) as [|(ck0 & Hin & Hi & Hp & Hg & Hc)]; [done|].
    rewrite Forall_forall in Hf. specialize (checkInv_evolves _ _ _ Hev (Hf ck0 Hin)). unfold checkInv. by rewrite Hi, Hp, Hg, Hc.
Qed.

Lemma checksInv_same s m' adds ths : evolves (mgr s) m' -> checksInv s -> checksInv (mkNet m' adds ths (checks s)).
Proof. intros Hev Hc. apply (checksInv_evolves s); [done|done|]. intros ck Hck. right. by exists ck. Qed.

Lemma startOp_checks s id op : checksInv s -> checksInv (startOp s id op).
Proof.
  intros HI. unfold startOp. destruct (beginExclusiveClientOp (mgr s) id) as [m|] eqn:Hb; [|done].
  apply evolves_begin in Hb as [Hc Hn]. apply (checksInv_same s); [by apply evolves_clients|done].
Qed.

Lemma addEnter_checks s i s' : checksInv s -> addEnter s i = Some s' -> checksInv s'.
Proof.
  intros HI. unfold addEnter. destruct (adding s !! i) as [config|]; [|done]. cbn.
  destruct (clientMap (mgr s) !! ID config) as [pe|] eqn:He; [by intros [= <-]|]. destruct (Disabled config).
  - intros [= <-]. apply (checksInv_same s); [apply evolves_new|done].
  - destruct (beginExclusiveClientOp (mgr s) (ID config)) as [m|] eqn:Hb; intros [= <-]; [|done].
    apply evolves_begin in Hb as [Hc Hn]. apply (checksInv_same s); [|done]. eapply evolves_trans; [by apply evolves_clients|apply evolves_new].
Qed.

Lemma startCheck_checks s id : checksInv s -> checksInv (startCheck s id).
Proof.
  intros HI. unfold startCheck, performCheck. destruct (clientMap (mgr s) !! id) as [[p e]|] eqn:He; [|done].
  assert (Hnew : forall c, Conn e = c -> checksInv (mkNet (mgr s) (adding s) (threads s) (checks s ++ [mkCheck id p c (ConnGeneration e) Checking]))).
  { intros c Hc. apply (checksInv_evolves s); [apply evolves_refl|done|]. intros ck [Hck| ->%list_elem_of_singleton]%elem_of_app; [right; by exists ck|left].
    split; cbn; [by eapply (proj1 HI)|]. rewrite He. intros e' [= <-]. split; [lia|by left]. }
  case_bool_decide; [done|]. case_bool_decide; [done|]. destruct (Conn e) eqn:Hc; [by apply Hnew|].
  destruct (RequiresPerCallConnection _); [by apply Hnew|]. by apply startOp_checks.
Qed.

Lemma step_checks s l s' : checksInv s -> step computeToolsHash s l = Some s' -> checksInv s'.
Proof.
  intros HI Hs. destruct l as [config|i|config|id|id|id updated|id updated|id|id|id|id t|id g|id|id out|k found]; cbn in Hs.
  - injection Hs as <-. unfold addCheckName. by case_match.
  - by eapply addEnter_checks.
  - injection Hs as <-. apply (checksInv_same s); [apply evolves_bootFailed|done].
  - injection Hs as <-. by apply startOp_checks.
  - injection Hs as <-. unfold startEnable. destruct (clientMap (mgr s) !! id) as [[p e]|]; [|done]. case_bool_decide; [|done]. by apply startOp_checks.
  - injection Hs as <-. by apply startOp_checks.
  - injection Hs as <-. by apply startOp_checks.
  - injection Hs as <-. apply (checksInv_same s); [apply evolves_Remove|done].
  - injection Hs as <-. apply (checksInv_same s); [apply evolves_Disable|done].
  - injection Hs as <-. apply (checksInv_same s); [apply evolves_Rotate|done].
  - injection Hs as <-. apply (checksInv_same s); [apply evolves_SetClientTools|done].
  - injection Hs as <-. apply (checksInv_same s); [apply evolves_lost|done].
  - injection Hs as <-. by apply startCheck_checks.
  - destruct (evolves_threadStep _ _ _ _ Hs) as [Hev Hc]. destruct s' as [m' adds ths cks]. cbn in *. subst cks. by apply (checksInv_same s).
  - unfold checkStep in Hs. destruct (checks s !! k) as [ck|] eqn:Hk; [|done]. cbn in Hs. destruct (ck_phase ck) as [|ok]; injection Hs as <-.
    + apply (checksInv_evolves s); [by destruct found; [apply evolves_writeBack|apply evolves_refl]|done|]. intros ck' Hck. right.
      apply list_elem_of_lookup in Hck as [j Hj]. destruct (decide (j = k)) as [->|Hne].
      * rewrite list_lookup_insert_eq in Hj by (by eapply lookup_lt_Some). injection Hj as <-. exists ck. split; [by eapply list_elem_of_lookup_2|done].
      * rewrite list_lookup_insert_ne in Hj by done. exists ck'. split; [by eapply list_elem_of_lookup_2|done].
    + apply (checksInv_evolves s); [apply evolves_checkedState|done|]. intros ck' Hck. right. exists ck'. split; [|done].
      by apply list_elem_of_delete_inv in Hck.
Qed.

Lemma run_checks ls : forall s s', checksInv s -> run computeToolsHash s ls = Some s' -> checksInv s'.
Proof.
  induction ls as [|l ls IH]; cbn; intros s s' HI Hr; [by injection Hr as <-|].
  destruct (step computeToolsHash s l) as [s1|] eqn:Hs; [|done]. eapply IH; [by eapply step_checks|done].
Qed.

(** C39. In every interleaving, while the entry that a check read is still the
    one under its ID: its generation is not below the one the check read, and
    when it has a connection other than the one tested, neither the tools nor
    the state that the check found are written. *)
Theorem checks_fenced ls s k ck e : run computeToolsHash initial ls = Some s -> checks s !! k = Some ck ->
  clientMap (mgr s) !! ck_id ck = Some (ck_entry ck, e) ->
  ck_generation ck <= ConnGeneration e /\
  (Conn e <> ck_conn ck -> Conn e <> None ->
     (forall t, writeBackTools computeToolsHash (mgr s) (ck_id ck) (ck_generation ck) t = mgr s) /\
     (forall st, checkedState (mgr s) (ck_id ck) st (ck_generation ck) = mgr s)).
Proof.
  intros Hr Hk He. assert (Hi : checksInv initial) by (split; [cbn; intros id p x Hx; by rewrite lookup_empty in Hx|constructor]).
  destruct (run_checks ls _ _ Hi Hr) as [_ Hf]. rewrite Forall_lookup in Hf. destruct (Hf k ck Hk) as [_ Hg]. destruct (Hg e He) as [Hg1 Hg2].
  split; [done|]. intros Hc Hn. assert (Hne : (ConnGeneration e =? ck_generation ck) = false) by (apply Z.eqb_neq; intros Heq; by destruct (Hg2 Heq)).
  split; [intros t; unfold writeBackTools|intros st; unfold checkedState]; by rewrite He, Hne.
Qed.

(** ** What checks do to a connection that is there *)

Definition isCheck (l : Label) : Prop :=
  match l with LCheck _ | LCheckStep _ _ | LLost _ _ => True | _ => False end.

(** The entry keeps its connection and its generation. *)
Definition connected (m : MCPManager) (id : string) (p : nat) (c : string * nat) (g : Z) : Prop :=
  exists e, clientMap m !! id = Some (p, e) /\ Conn e = Some c /\ ConnGeneration e = g.

Lemma connected_update m id p c g j q x x' : connected m id p c g -> clientMap m !! j = Some (q, x) ->
  Conn x' = Conn x -> ConnGeneration x' = ConnGeneration x -> connected (updateEntry m j q x') id p c g.
Proof.
  intros (e & He & Hc & Hg) Hj Hcx Hgx. unfold connected. cbn. destruct (decide (j = id)) as [->|Hne].
  - rewrite lookup_insert_eq. exists x'. simplify_eq. by rewrite Hcx, Hgx.
  - rewrite lookup_insert_ne by done. by exists e.
Qed.

Lemma connected_writeBack m id p c g j gen t : connected m id p c g -> connected (writeBackTools computeToolsHash m j gen t) id p c g.
Proof.
  intros Hm. unfold writeBackTools. destruct (clientMap m !! j) as [[q x]|] eqn:Hj; [|done]. case_match; [done|].
  pose proof (toolsChanged_same (setTools x t) j t) as (Hc & _ & _ & Hg). destruct (toolsChangedCallback _ _ j t) as [x' l].
  by apply (connected_update m id p c g j q x x').
Qed.

Lemma connected_checkedState m id p c g j st gen : connected m id p c g -> connected (checkedState m j st gen) id p c g.
Proof.
  intros Hm. unfold checkedState. destruct (clientMap m !! j) as [[q x]|] eqn:Hj; [|done]. repeat (case_match; [done|]).
  by apply (connected_update m id p c g j q x (setState x st)).
Qed.

Lemma connected_lost m id p c g j gen : connected m id p c g -> connected (handleSSEConnectionLost m j gen) id p c g.
Proof.
  intros Hm. unfold handleSSEConnectionLost. destruct (clientMap m !! j) as [[q x]|] eqn:Hj; [|done]. case_match; [done|].
  by apply (connected_update m id p c g j q x (setState x Unstable)).
Qed.

Lemma isCheck_step s l s' id p c g : isCheck l -> step computeToolsHash s l = Some s' -> connected (mgr s) id p c g ->
  connected (mgr s') id p c g /\ threads s' !! id = threads s !! id.
Proof.
  intros Hl Hs Hm. destruct l as [| | | | | | | | | | |j gen|j| |k found]; try done; cbn in Hs.
  - injection Hs as <-. split; [by apply connected_lost|done].
  - injection Hs as <-. unfold startCheck, performCheck. destruct (clientMap (mgr s) !! j) as [[q x]|] eqn:Hj; [|done].
    case_bool_decide; [done|]. case_bool_decide; [done|]. destruct (Conn x) eqn:Hc; [done|]. destruct (RequiresPerCallConnection _); [done|].
    unfold startOp. destruct (beginExclusiveClientOp (mgr s) j) as [m|] eqn:Hb; [|done]. apply evolves_begin in Hb as [Hcm _].
    split; [unfold connected; cbn; by rewrite Hcm|]. cbn. apply lookup_insert_ne. intros ->. destruct Hm as (e & He & Hce & _). congruence.
  - unfold checkStep in Hs. destruct (checks s !! k) as [ck|]; [|done]. cbn in Hs. destruct (ck_phase ck); injection Hs as <-; (split; [|done]); cbn.
    + destruct found; [by apply connected_writeBack|done].
    + by apply connected_checkedState.
Qed.

(** Checks and lost connections, however many and whatever they find, leave a
    client that has a connection with that very connection, and start no
    operation on it: a dead connection of a sticky client is tested forever and
    not dialed again. *)
Theorem checks_never_redial ls : forall s s' id p e c, run computeToolsHash s ls = Some s' -> Forall isCheck ls ->
  clientMap (mgr s) !! id = Some (p, e) -> Conn e = Some c ->
  (exists e', clientMap (mgr s') !! id = Some (p, e') /\ Conn e' = Some c /\ ConnGeneration e' = ConnGeneration e) /\
  threads s' !! id = threads s !! id.
Proof.
  intros s s' id p e c Hr Hf He Hc. assert (Hm : connected (mgr s) id p c (ConnGeneration e)) by by exists e.
  change (connected (mgr s') id p c (ConnGeneration e) /\ threads s' !! id = threads s !! id).
  clear He Hc. revert s Hr Hm. induction Hf as [|l ls Hl _ IH]; cbn; intros s Hr Hm; [by injection Hr as <-|].
  destruct (step computeToolsHash s l) as [s1|] eqn:Hs; [|done]. destruct (isCheck_step s l s1 id p c _ Hl Hs Hm) as [Hm1 Ht]. rewrite <-Ht. by apply IH.
Qed.
End Theory.

(** ** Runs *)

(** A run that adds a client and connects it. *)
Definition addAndConnect (config : MCPClientConfig) (t : Discovered) : list Label :=
  [LAddCheck config; LAddEnter 0] ++ repeat (LThread (ID config) (Connected true t)) 8.

Definition exampleClient (name : string) : MCPClientConfig :=
  mkConfig "a" name TypeHTTP MCPAuthTypeNone (Some true) false false None 0 None None (Some "https://mcp.example") "".

Definition exampleTools : Discovered := mkTools {["weather-now"]} ∅.

Definition exampleHash (t : Discovered) : string := String.concat "," (elements (tools t)).

Example run_ex : exists s e, run exampleHash initial (addAndConnect (exampleClient "weather") exampleTools) = Some s /\
  clientMap (mgr s) !! "a" = Some (0%nat, e) /\ Conn e = Some ("a", 0%nat) /\ ConnGeneration e = 2 /\ threads s = ∅ /\ State e = Healthy.
Proof. do 2 eexists. split; [vm_compute; reflexivity|]. split; [vm_compute; reflexivity|]. by vm_compute. Qed.

(** A reconnect in the middle of its dial: the old connection is still the
    entry's, and the new one is in hand. *)
Definition exampleDial : list Label :=
  addAndConnect (exampleClient "weather") exampleTools ++
  [LReconnect "a"] ++ repeat (LThread "a" (Connected true exampleTools)) 3.

Lemma connections_accounted_witness : exists s, run exampleHash initial exampleDial = Some s /\
  openConns (mgr s) = {[("a", 0%nat); ("a", 1%nat)]} /\
  forall c, c ∈ openConns (mgr s) ->
    entryConn (mgr s) c.1 = Some c \/ exists t, threads s !! c.1 = Some t /\ c ∈ held (th_phase t).
Proof.
  assert (Hr : exists s, run exampleHash initial exampleDial = Some s /\ openConns (mgr s) = {[("a", 0%nat); ("a", 1%nat)]})
    by (eexists; split; [vm_compute; reflexivity|by vm_compute]).
  destruct Hr as (s & Hr & Ho). exists s. split; [exact Hr|]. split; [exact Ho|].
  apply (connections_accounted exampleHash exampleDial s Hr). unfold exampleDial, addAndConnect. cbn. repeat constructor.
Defined.

(** A check begins, and a reconnect gives the client another connection. *)
Definition exampleRace : list Label :=
  addAndConnect (exampleClient "weather") exampleTools ++
  [LCheck "a"; LReconnect "a"] ++ repeat (LThread "a" (Connected true exampleTools)) 4.

Lemma checks_fenced_witness : exists s e, run exampleHash initial exampleRace = Some s /\
  checks s !! 0%nat = Some (mkCheck "a" 0 (Some ("a", 0%nat)) 2 Checking) /\
  clientMap (mgr s) !! "a" = Some (0%nat, e) /\ Conn e = Some ("a", 1%nat) /\
  checkedState (mgr s) "a" Unstable 2 = mgr s.
Proof.
  assert (Hr : exists s e, run exampleHash initial exampleRace = Some s /\
    checks s !! 0%nat = Some (mkCheck "a" 0 (Some ("a", 0%nat)) 2 Checking) /\
    clientMap (mgr s) !! "a" = Some (0%nat, e) /\ Conn e = Some ("a", 1%nat)).
  { do 2 eexists. split; [vm_compute; reflexivity|]. split; [by vm_compute|]. split; [vm_compute; reflexivity|done]. }
  destruct Hr as (s & e & Hr & Hk & He & Hc). exists s, e. split_and!; [exact Hr|exact Hk|exact He|exact Hc|].
  destruct (checks_fenced exampleHash exampleRace s 0 _ e Hr Hk He) as [_ Hf]. cbn in Hf. rewrite Hc in Hf. by apply Hf.
Defined.

(** Two failed checks of a connected client. *)
Definition exampleChecks : list Label :=
  [LCheck "a"; LCheckStep 0 None; LCheckStep 0 None; LCheck "a"; LCheckStep 0 None; LCheckStep 0 None].

Lemma checks_never_redial_witness : exists s s' e',
  run exampleHash initial (addAndConnect (exampleClient "weather") exampleTools) = Some s /\ run exampleHash s exampleChecks = Some s' /\
  clientMap (mgr s') !! "a" = Some (0%nat, e') /\ State e' = Unstable /\ Conn e' = Some ("a", 0%nat) /\ threads s' !! "a" = threads s !! "a".
Proof.
  assert (Hr : exists s s' e e', run exampleHash initial (addAndConnect (exampleClient "weather") exampleTools) = Some s /\
    run exampleHash s exampleChecks = Some s' /\ clientMap (mgr s) !! "a" = Some (0%nat, e) /\ Conn e = Some ("a", 0%nat) /\
    clientMap (mgr s') !! "a" = Some (0%nat, e') /\ State e' = Unstable).
  { do 4 eexists. split; [vm_compute; reflexivity|]. split; [vm_compute; reflexivity|]. split; [vm_compute; reflexivity|].
    split; [done|]. split; [vm_compute; reflexivity|done]. }
  destruct Hr as (s & s' & e & e' & Hr & Hs & He & Hc & He' & Hst). exists s, s', e'.
  assert (Hf : Forall isCheck exampleChecks) by (unfold exampleChecks; repeat constructor).
  destruct (checks_never_redial exampleHash exampleChecks s s' "a" 0 e ("a", 0%nat) Hs Hf He Hc) as [(x & Hx & Hcx & _) Ht].
  rewrite He' in Hx. injection Hx as <-. split_and!; assumption.
Defined.

(** The entry is not part of the fence: a client is removed and another
    added and connected under its ID while a check is in flight.  The generation
    of the new entry is that of the old one, and the tools that the check found
    over the old connection replace those of the new client. *)
Theorem stale_check_hits_readded_client : exists s s' ck e e',
  run exampleHash initial (addAndConnect (exampleClient "weather") exampleTools ++ [LCheck "a"; LRemove "a"] ++
    addAndConnect (exampleClient "forecast") (mkTools {["forecast-week"]} ∅)) = Some s /\
  checks s = [ck] /\ clientMap (mgr s) !! "a" = Some (1%nat, e) /\ ck_entry ck = 0%nat /\ ck_conn ck <> Conn e /\ ToolMap e = mkTools {["forecast-week"]} ∅ /\
  run exampleHash s [LCheckStep 0 (Some exampleTools)] = Some s' /\
  clientMap (mgr s') !! "a" = Some (1%nat, e') /\ Name (ExecutionConfig e') = "forecast" /\ ToolMap e' = exampleTools.
Proof.
  do 5 eexists. split; [vm_compute; reflexivity|]. split; [vm_compute; reflexivity|]. split; [vm_compute; reflexivity|].
  split; [done|]. split; [done|]. split; [by vm_compute|]. split; [vm_compute; reflexivity|]. split; [vm_compute; reflexivity|]. by vm_compute.
Qed.

(** The name is looked up under one lock and inserted under another: two adds
    at once give two clients of one name. *)
Theorem adds_of_one_name : exists s p q e1 e2,
  run exampleHash initial [LAddCheck (exampleClient "weather");
    LAddCheck (mkConfig "b" "weather" TypeHTTP MCPAuthTypeNone None false true None 0 None None None ""); LAddEnter 0; LAddEnter 0] = Some s /\
  clientMap (mgr s) !! "a" = Some (p, e1) /\ clientMap (mgr s) !! "b" = Some (q, e2) /\ Name (ExecutionConfig e1) = Name (ExecutionConfig e2).
Proof. do 5 eexists. split; [vm_compute; reflexivity|]. split; [vm_compute; reflexivity|]. split; [vm_compute; reflexivity|done]. Qed.
End McpClientsTheory.
