(* ===== verification/McpAgent.v ===== *)
(** * The agent loop (src/core/mcp/agent.go, agentadaptors.go, toolmanager.go, mcp.go)

    Rounds of calling tools and asking the model again.  The loop is written
    once over an adapter of an API, as in the code; the adapter of the chat API
    is given here.  Requests to the model, single runs of tools and the order in
    which the goroutines of a round take their steps are arguments; the answers
    of a round come in the order in which the goroutines send them.  The rounds
    that were run are returned with the result. *)

From S2P Require Import Prelude GoStrings Schemas Context Request Windows McpTools.
From Stdlib Require Import Ascii.

Local Open Scope string_scope.
Local Open Scope list_scope.
Local Open Scope Z_scope.

Module McpAgent.
Import Schemas Context Request Windows McpTools.

(** ** Messages *)

Record ToolCall := mkToolCall { tc_ID : option string; tc_Name : option string; tc_Arguments : string }.

Record ContentBlock := mkBlock { cb_Type : string; cb_Text : option string }.

(** Both pointers of [ChatMessageContent] are [nil] in no message built here. *)
Inductive ChatMessageContent :=
| ContentStr (s : string)
| ContentBlocks (l : list ContentBlock).

Record ChatToolMessage := mkToolMessage { ToolCallID : option string; IsError : option bool }.

(** [cm_Assistant] are the tool calls of [ChatAssistantMessage], [None] when it is [nil]. *)
Record ChatMessage := mkMessage {
  cm_Role : string;
  cm_Content : option ChatMessageContent;
  cm_Tool : option ChatToolMessage;
  cm_Assistant : option (list ToolCall);
}.

#[export] Instance ToolCall_eq_dec : EqDecision ToolCall.
Proof. solve_decision. Defined.
#[export] Instance ContentBlock_eq_dec : EqDecision ContentBlock.
Proof. solve_decision. Defined.
#[export] Instance ChatMessageContent_eq_dec : EqDecision ChatMessageContent.
Proof. solve_decision. Defined.
#[export] Instance ChatToolMessage_eq_dec : EqDecision ChatToolMessage.
Proof. solve_decision. Defined.
#[export] Instance ChatMessage_eq_dec : EqDecision ChatMessage.
Proof. solve_decision. Defined.

Record MCPAuthRequiredError := mkAuthRequired { Kind : string; MCPClientID : string; AuthMessage : string }.

(** What running a tool gives: an error with its text, perhaps one that asks
    for authorization, a message, or neither. *)
Inductive ToolAnswer :=
| ToolFailed (auth : option MCPAuthRequiredError) (text : string)
| ToolMessage (message : ChatMessage)
| ToolNothing.

Definition createToolResultMessage (toolCall : ToolCall) (result : string) (err : option string) : ChatMessage :=
  mkMessage "tool"
    (Some (ContentStr match err with
                      | Some text => "Error executing tool " +:+ default "unknown" (tc_Name toolCall) +:+ ": " +:+ text
                      | None => result
                      end))
    (Some (mkToolMessage (tc_ID toolCall) (match err with Some _ => Some true | None => None end)))
    None.

(** [createToolResponseMessage] (utils.go). *)
Definition createToolResponseMessage (toolCall : ToolCall) (responseText : string) (isError : bool) : ChatMessage :=
  mkMessage "tool" (Some (ContentStr responseText))
    (Some (mkToolMessage (tc_ID toolCall) (if isError then Some true else None))) None.

(** The message a finished tool sends to the loop. *)
Definition resultMessage (call : ToolCall) (answer : ToolAnswer) : ChatMessage :=
  match answer with
  | ToolFailed _ text => createToolResultMessage call "" (Some text)
  | ToolMessage message => message
  | ToolNothing => createToolResultMessage call "" None
  end.

Definition authRequired (answer : ToolAnswer) : option MCPAuthRequiredError :=
  match answer with ToolFailed auth _ => auth | _ => None end.

Definition authRequiredError (auth : MCPAuthRequiredError) : BifrostError :=
  mkError None true (Some 401%Z) (Some (mkErrorField (Some "mcp_auth_required") None (AuthMessage auth) None)) None emptyExtra.

(** ** Usage *)

Section Agent.
Context {F : Type} `{Amount F}.

Record ChatPromptTokensDetails := mkPromptDetails {
  pd_TextTokens : Z; pd_AudioTokens : Z; pd_ImageTokens : Z; CachedReadTokens : Z; CachedWriteTokens : Z;
  CachedWriteTokenDetails : option (Z * Z);
}.

Record ChatCompletionTokensDetails := mkCompletionDetails {
  cd_TextTokens : Z; AcceptedPredictionTokens : Z; cd_AudioTokens : Z; ReasoningTokens : Z; RejectedPredictionTokens : Z;
  CitationTokens : option Z; NumSearchQueries : option Z; cd_ImageTokens : option Z;
}.

Record BifrostCost := mkCost {
  InputTokensCost : F; OutputTokensCost : F; ReasoningTokensCost : F; CitationTokensCost : F;
  SearchQueriesCost : F; RequestCost : F; TotalCost : F;
}.

(** The fields after [u_Cost]: [CostInUsdTicks], [Speed], [InferenceGeo],
    [ServerSideFallbackModel], [OriginalPromptTokens], [CompressedPromptTokens]. *)
Record BifrostLLMUsage := mkUsage {
  PromptTokens : Z; CompletionTokens : Z; TotalTokens : Z;
  PromptTokensDetails : option ChatPromptTokensDetails;
  CompletionTokensDetails : option ChatCompletionTokensDetails;
  u_Cost : option BifrostCost;
  CostInUsdTicks : option Z; Speed : option string; InferenceGeo : option string;
  ServerSideFallbackModel : option string; OriginalPromptTokens : option Z; CompressedPromptTokens : option Z;
}.

(** One of two pointers is set: the merge of their values, with a value for [nil]. *)
Definition mergeSet {A B} (merge : A -> A -> B) (zero : A) (base add : option A) : option B :=
  match base, add with
  | None, None => None
  | _, _ => Some (merge (default zero base) (default zero add))
  end.

Definition zeroPromptDetails : ChatPromptTokensDetails := mkPromptDetails 0 0 0 0 0 None.
Definition zeroCompletionDetails : ChatCompletionTokensDetails := mkCompletionDetails 0 0 0 0 0 None None None.
Definition zeroCost : BifrostCost := mkCost zeroAmount zeroAmount zeroAmount zeroAmount zeroAmount zeroAmount zeroAmount.

Definition mergePromptDetails (b a : ChatPromptTokensDetails) : ChatPromptTokensDetails :=
  mkPromptDetails (pd_TextTokens b + pd_TextTokens a) (pd_AudioTokens b + pd_AudioTokens a) (pd_ImageTokens b + pd_ImageTokens a)
    (CachedReadTokens b + CachedReadTokens a) (CachedWriteTokens b + CachedWriteTokens a) None.

Definition mergeCompletionDetails (b a : ChatCompletionTokensDetails) : ChatCompletionTokensDetails :=
  mkCompletionDetails (cd_TextTokens b + cd_TextTokens a) (AcceptedPredictionTokens b + AcceptedPredictionTokens a)
    (cd_AudioTokens b + cd_AudioTokens a) (ReasoningTokens b + ReasoningTokens a)
    (RejectedPredictionTokens b + RejectedPredictionTokens a)
    (mergeSet Z.add 0%Z (CitationTokens b) (CitationTokens a))
    (mergeSet Z.add 0%Z (NumSearchQueries b) (NumSearchQueries a))
    (mergeSet Z.add 0%Z (cd_ImageTokens b) (cd_ImageTokens a)).

Definition mergeCost (b a : BifrostCost) : BifrostCost :=
  mkCost (addAmount (InputTokensCost b) (InputTokensCost a)) (addAmount (OutputTokensCost b) (OutputTokensCost a))
    (addAmount (ReasoningTokensCost b) (ReasoningTokensCost a)) (addAmount (CitationTokensCost b) (CitationTokensCost a))
    (addAmount (SearchQueriesCost b) (SearchQueriesCost a)) (addAmount (RequestCost b) (RequestCost a))
    (addAmount (TotalCost b) (TotalCost a)).

Definition mergeUsage (base add : option BifrostLLMUsage) : option BifrostLLMUsage :=
  match add, base with
  | None, _ => base
  | _, None => add
  | Some a, Some b => Some (mkUsage
      (PromptTokens b + PromptTokens a) (CompletionTokens b + CompletionTokens a) (TotalTokens b + TotalTokens a)
      (mergeSet mergePromptDetails zeroPromptDetails (PromptTokensDetails b) (PromptTokensDetails a))
      (mergeSet mergeCompletionDetails zeroCompletionDetails (CompletionTokensDetails b) (CompletionTokensDetails a))
      (mergeSet mergeCost zeroCost (u_Cost b) (u_Cost a))
      None None None None None None)
  end.

(** ** The loop *)

(** [agentAPIAdapter] over the responses, requests and messages of an API. *)
Record agentAPIAdapter (Resp Req Msg : Type) := mkAdapter {
  getConversationHistory : list Msg;
  getInitialResponse : Resp;
  extractToolCalls : Resp -> list ToolCall;
  addAssistantMessage : list Msg -> Resp -> list Msg;
  addToolResults : list Msg -> list ChatMessage -> list Msg;
  createNewRequest : list Msg -> Req;
  createResponseWithExecutedTools : Resp -> list ChatMessage -> list ToolCall -> list ToolCall -> Resp;
  extractUsage : Resp -> option BifrostLLMUsage;
  applyUsage : Resp -> option BifrostLLMUsage -> Resp;
}.
Global Arguments mkAdapter {Resp Req Msg}.
Global Arguments getConversationHistory {Resp Req Msg}.
Global Arguments getInitialResponse {Resp Req Msg}.
Global Arguments extractToolCalls {Resp Req Msg}.
Global Arguments addAssistantMessage {Resp Req Msg}.
Global Arguments addToolResults {Resp Req Msg}.
Global Arguments createNewRequest {Resp Req Msg}.
Global Arguments createResponseWithExecutedTools {Resp Req Msg}.
Global Arguments extractUsage {Resp Req Msg}.
Global Arguments applyUsage {Resp Req Msg}.

Context {W : Type}.

(** The outside of the loop: the clients at a time, the reader of code
    arguments, a fresh log ID, one run of a tool, the goroutine that takes the
    next step ([pick] is a number, modulo the goroutines that are left), the next
    request ID, and the call of the model, which writes on the context it is
    given. *)
Record Outside (Resp Req : Type) := mkOutside {
  clientsOf : W -> list MCPClientState;
  codeArgument : string -> option string;
  newLogID : W -> string * W;
  executeToolFunc : BifrostContext -> ToolCall -> W -> ToolAnswer * W;
  pick : nat -> W -> nat;
  fetchNewRequestID : option (BifrostContext -> W -> string * W);
  makeLLMCall : BifrostContext -> Req -> W -> (Resp + BifrostError) * BifrostContext * W;
}.
Global Arguments mkOutside {Resp Req}.
Global Arguments clientsOf {Resp Req}.
Global Arguments codeArgument {Resp Req}.
Global Arguments newLogID {Resp Req}.
Global Arguments executeToolFunc {Resp Req}.
Global Arguments pick {Resp Req}.
Global Arguments fetchNewRequestID {Resp Req}.
Global Arguments makeLLMCall {Resp Req}.

Definition KeyMCPLogID : string := "bifrost-mcp-log-id".
Definition KeyMCPAgentOriginalRequestID : string := "bifrost-mcp-agent-original-request-id".

(** The second field is [MCPAuthRequired] of the extra fields of the error. *)
Inductive AgentResult (Resp : Type) :=
| AgentDone (response : Resp)
| AgentFailed (err : BifrostError) (auth : option MCPAuthRequiredError).
Global Arguments AgentDone {Resp}.
Global Arguments AgentFailed {Resp}.

(** A round: the response it began with, the context and the world when its
    calls were judged, the calls that were run with their answers, those that
    were not, the request that followed and the reply to it. *)
Record Round (Resp Req : Type) := mkRound {
  r_response : Resp;
  r_ctx : BifrostContext;
  r_clients : list MCPClientState;
  r_auto : list ToolCall;
  r_answers : list (ToolCall * ToolAnswer);
  r_pending : list ToolCall;
  r_request : option Req;
  r_reply : option Resp;
}.
Global Arguments mkRound {Resp Req}.
Global Arguments r_response {Resp Req}.
Global Arguments r_ctx {Resp Req}.
Global Arguments r_clients {Resp Req}.
Global Arguments r_auto {Resp Req}.
Global Arguments r_answers {Resp Req}.
Global Arguments r_pending {Resp Req}.
Global Arguments r_request {Resp Req}.
Global Arguments r_reply {Resp Req}.

Definition resultMessages (answers : list (ToolCall * ToolAnswer)) : list ChatMessage :=
  (fun '(call, answer) => resultMessage call answer) <$> answers.

(** Whether [executeAgent] puts a call among those it runs. *)
Definition runsAlone (read : string -> option string) (ctx : BifrostContext) (clients : list MCPClientState) (call : ToolCall) : Prop :=
  mayAutoExecute read ctx clients (tc_Name call) (tc_Arguments call) = true.

#[global] Instance runsAlone_dec read ctx clients call : base.Decision (runsAlone read ctx clients call).
Proof. unfold runsAlone. apply _. Defined.

(** The ID for the next request, unless none is given. *)
Definition withNewRequestID (fetch : option (BifrostContext -> W -> string * W)) (ctx : BifrostContext) (w : W) : BifrostContext * W :=
  match fetch with
  | None => (ctx, w)
  | Some f => let '(newID, w) := f ctx w in
              (if bool_decide (newID = "") then ctx else SetValue ctx KeyRequestID (VString newID), w)
  end.

Section Loop.
Context {Resp Req Msg : Type} (A : agentAPIAdapter Resp Req Msg) (E : Outside Resp Req).

(** *** The goroutines of a round *)

(** A child of a context (src/core/schemas/context.go); its deadline and
    cancellation are left out. *)
Definition NewBifrostContext (parent : BifrostContext) : BifrostContext :=
  mkCtx ∅ (userValues parent ∪ parentValues parent) false.

(** What a goroutine has done: nothing, run its tool, noted a demand for
    authorization, sent its message. *)
Inductive Goroutine :=
| Running (call : ToolCall)
| Answered (call : ToolCall) (answer : ToolAnswer)
| Noted (call : ToolCall) (answer : ToolAnswer)
| Finished.

(** The channel holds the answer and the call with the message. *)
Record FanOut := mkFanOut {
  routines : list Goroutine;
  channelToolResults : list (ToolCall * ToolAnswer);
  authRequiredErr : option MCPAuthRequiredError;
  fo_World : W;
}.

Definition goroutineStep (ctx : BifrostContext) (i : nat) (s : FanOut) : FanOut :=
  match routines s !! i with
  | Some (Running call) =>
      let '(logID, w) := newLogID E (fo_World s) in
      let toolCtx := SetValue (NewBifrostContext ctx) KeyMCPLogID (VString logID) in
      let '(answer, w) := executeToolFunc E toolCtx call w in
      mkFanOut (<[i := Answered call answer]> (routines s)) (channelToolResults s) (authRequiredErr s) w
  | Some (Answered call answer) =>
      mkFanOut (<[i := Noted call answer]> (routines s)) (channelToolResults s)
        (match authRequiredErr s with Some first => Some first | None => authRequired answer end) (fo_World s)
  | Some (Noted call answer) =>
      mkFanOut (<[i := Finished]> (routines s)) (channelToolResults s ++ [(call, answer)]) (authRequiredErr s) (fo_World s)
  | _ => s
  end.

Definition unfinished (s : FanOut) : list nat :=
  base.filter (fun i => match routines s !! i with Some Finished | None => false | _ => true end = true) (seq 0 (length (routines s))).

(** Until [wg.Wait] returns; a goroutine takes three steps. *)
Fixpoint runGoroutines (fuel step : nat) (ctx : BifrostContext) (s : FanOut) : FanOut :=
  match fuel with
  | O => s
  | S fuel =>
      match unfinished s with
      | [] => s
      | l => runGoroutines fuel (S step) ctx (goroutineStep ctx (default O (l !! (pick E step (fo_World s) mod length l)%nat)) s)
      end
  end.

Definition runTools (ctx : BifrostContext) (calls : list ToolCall) (w : W) : FanOut :=
  runGoroutines (3 * length calls) 0 ctx (mkFanOut (Running <$> calls) [] None w).

(** The end of a round with calls that were not run. *)
Definition stopWithPending (firstRound : bool) (response : Resp) (results : list ChatMessage) (calls pending : list ToolCall) (usage : option BifrostLLMUsage) : Resp :=
  if firstRound && bool_decide (results = []) then response
  else createResponseWithExecutedTools A (applyUsage A response usage) results calls pending.

(** [fuel] is what is left of [maxAgentDepth]. *)
Fixpoint agentLoop (fuel : nat) (firstRound : bool) (response : Resp) (history : list Msg) (results : list ChatMessage) (calls : list ToolCall) (usage : option BifrostLLMUsage) (ctx : BifrostContext) (w : W) : AgentResult Resp * list (Round Resp Req) * BifrostContext * W :=
  match fuel with
  | O => (AgentDone (applyUsage A response usage), [], ctx, w)
  | S fuel =>
      match extractToolCalls A response with
      | [] => (AgentDone (applyUsage A response usage), [], ctx, w)
      | toolCalls =>
          let clients := clientsOf E w in
          let auto := base.filter (runsAlone (codeArgument E) ctx clients) toolCalls in
          let pending := base.filter (fun c => ~ runsAlone (codeArgument E) ctx clients c) toolCalls in
          let ran := match auto with [] => mkFanOut [] [] None w | _ => runTools ctx auto w end in
          let answers := channelToolResults ran in
          let w := fo_World ran in
          let round := mkRound response ctx clients auto answers pending in
          match authRequiredErr ran with
          | Some auth => (AgentFailed (authRequiredError auth) (Some auth), [round None None], ctx, w)
          | None =>
              let executed := resultMessages answers in
              let history := match auto with
                             | [] => history
                             | _ => addToolResults A (addAssistantMessage A history response) executed
                             end in
              let results := results ++ executed in
              let calls := calls ++ auto in
              match pending with
              | _ :: _ => (AgentDone (stopWithPending firstRound response results calls pending usage), [round None None], ctx, w)
              | [] =>
                  let request := createNewRequest A history in
                  let '(ctx, w) := withNewRequestID (fetchNewRequestID E) ctx w in
                  match makeLLMCall E ctx request w with
                  | (inr err, ctx, w) => (AgentFailed err None, [round (Some request) None], ctx, w)
                  | (inl response', ctx, w) =>
                      let '(res, rounds, ctx, w) :=
                        agentLoop fuel false response' history results calls (mergeUsage usage (extractUsage A response')) ctx w in
                      (res, round (Some request) (Some response') :: rounds, ctx, w)
                  end
              end
          end
      end
  end.

Definition executeAgent (maxAgentDepth : Z) (ctx : BifrostContext) (w : W) : AgentResult Resp * list (Round Resp Req) * BifrostContext * W :=
  let ctx := match value ctx KeyRequestID with
             | VString original => SetValue ctx KeyMCPAgentOriginalRequestID (VString original)
             | _ => ctx
             end in
  agentLoop (Z.to_nat maxAgentDepth) true (getInitialResponse A) (getConversationHistory A) [] []
    (extractUsage A (getInitialResponse A)) ctx w.
End Loop.

(** ** The chat API *)

(** The message of a choice that is not streamed, if any. *)
Record BifrostResponseChoice := mkChoice { FinishReason : option string; ch_Message : option ChatMessage }.

(** [cr_Meta] are the fields that [createChatResponse...] copies; [cr_Extra]
    are [Speed], [InferenceGeo], [Diagnostics] and [ExtraParams], which it does not. *)
Record BifrostChatResponse := mkChatResponse {
  cr_Meta : string; cr_Extra : option string;
  Choices : list BifrostResponseChoice;
  Usage : option BifrostLLMUsage;
}.

(** [cq_Params] and [cq_RawRequestBody] are opaque. *)
Record BifrostChatRequest := mkChatRequest {
  cq_Provider : ModelProvider; cq_Model : string; cq_Fallbacks : list Fallback;
  cq_Params : option string; cq_Input : list ChatMessage; cq_RawRequestBody : option string;
}.

Definition toolCallsOfChoice (choice : BifrostResponseChoice) : list ToolCall :=
  match ch_Message choice with
  | Some message => default [] (cm_Assistant message)
  | None => []
  end.

Definition hasToolCallsForChatResponse (response : BifrostChatResponse) : bool :=
  existsb (fun choice => bool_decide (FinishReason choice = Some "tool_calls") || negb (bool_decide (toolCallsOfChoice choice = [])))
    (Choices response).

Definition extractToolCallsOfChat (response : BifrostChatResponse) : list ToolCall :=
  if hasToolCallsForChatResponse response then concat (toolCallsOfChoice <$> Choices response) else [].

(** [toolResultsMap]: later results of a name replace earlier ones. *)
Definition toolCallIDToName (executedToolCalls : list ToolCall) : gmap string string :=
  foldl (fun m c => match tc_ID c, tc_Name c with
                    | Some id, Some name => <[id := name]> m
                    | _, _ => m
                    end) ∅ executedToolCalls.

Definition resultName (names : gmap string string) (result : ChatMessage) : string :=
  match toolResult ← cm_Tool result; ToolCallID toolResult with
  | Some id => default id (names !! id)
  | None => "unknown_tool"
  end.

Definition toolResultsMap (results : list ChatMessage) (calls : list ToolCall) : gmap string (option ChatMessageContent) :=
  foldl (fun m r => <[resultName (toolCallIDToName calls) r := cm_Content r]> m) ∅ results.

Definition NewLine : string := String "010" EmptyString.

(** [marshal] is [MarshalSorted], or the printed map where it fails. *)
Definition contentText (marshal : gmap string (option ChatMessageContent) -> string) (results : list ChatMessage) (calls : list ToolCall) : string :=
  match results with
  | [] => "Now I shall call these tools next..."
  | _ => "The Output from allowed tools calls is - " +:+ marshal (toolResultsMap results calls) +:+ NewLine +:+ NewLine +:+ "Now I shall call these tools next..."
  end.

Definition createChatResponseWithExecutedTools (marshal : gmap string (option ChatMessageContent) -> string) (original : BifrostChatResponse) (results : list ChatMessage) (calls pending : list ToolCall) : BifrostChatResponse :=
  mkChatResponse (cr_Meta original) None
    [mkChoice (Some "stop") (Some (mkMessage "assistant" (Some (ContentStr (contentText marshal results calls))) None (Some pending)))]
    (Usage original).

Definition messagesOf (response : BifrostChatResponse) : list ChatMessage := omap ch_Message (Choices response).

Definition chatAPIAdapter (marshal : gmap string (option ChatMessageContent) -> string) (originalReq : BifrostChatRequest) (initialResponse : BifrostChatResponse) : agentAPIAdapter BifrostChatResponse BifrostChatRequest ChatMessage :=
  mkAdapter (cq_Input originalReq) initialResponse extractToolCallsOfChat
    (fun conversation response => conversation ++ messagesOf response)
    (fun conversation results => conversation ++ results)
    (fun conversation => mkChatRequest (cq_Provider originalReq) (cq_Model originalReq) (cq_Fallbacks originalReq) (cq_Params originalReq) conversation None)
    (createChatResponseWithExecutedTools marshal)
    Usage
    (fun response usage => mkChatResponse (cr_Meta response) (cr_Extra response) (Choices response) usage).

(** ** The entry points (toolmanager.go, mcp.go) *)

Definition DefaultMaxAgentDepth : Z := 10.

(** [maxAgentDepth] is an [atomic.Int32]. *)
Definition toInt32 (n : Z) : Z := (n + 2 ^ 31) mod 2 ^ 32 - 2 ^ 31.

(** [None] is a [nil] configuration. *)
Definition initialMaxAgentDepth (config : option Z) : Z :=
  toInt32 match config with
          | Some depth => if depth <=? 0 then DefaultMaxAgentDepth else depth
          | None => DefaultMaxAgentDepth
          end.

Definition updateMaxAgentDepth (current : Z) (config : option Z) : Z :=
  match config with
  | Some depth => if 0 <? depth then toInt32 depth else current
  | None => current
  end.

Definition CheckAndExecuteAgentForChatRequest (marshal : gmap string (option ChatMessageContent) -> string) (E : Outside BifrostChatResponse BifrostChatRequest) (maxAgentDepth : Z) (ctx : BifrostContext) (req : BifrostChatRequest) (response : BifrostChatResponse) (w : W) : AgentResult BifrostChatResponse * list (Round BifrostChatResponse BifrostChatRequest) * BifrostContext * W :=
  if hasToolCallsForChatResponse response
  then executeAgent (chatAPIAdapter marshal req response) E maxAgentDepth ctx w
  else (AgentDone response, [], ctx, w).
End Agent.
End McpAgent.
