(* ===== verification/McpToolsTheory.v ===== *)
(** * What a request is offered it may call, and what runs on its own

    The tools listed for a request are those its calls reach, up to clients
    that wait for a new authorization or have no connection; the check of code in code mode sees the
    calls that are written out, and no call through another name. *)

From S2P Require Import Prelude GoStrings Schemas Context GovResolver McpTools GovToolsTheory.
From Stdlib Require Import Ascii.

Local Open Scope string_scope.
Local Open Scope list_scope.

Module McpToolsTheory.
Import Schemas Context McpTools GovToolsTheory.

(** ** Listing and calling *)

Local Abbreviation nameOf c := (Name (ExecutionConfig c)).

(** Names of clients differ and have no hyphen, and every tool carries the
    name of its client in front (what [ValidateMCPClientName] and
    [retrieveExternalTools] give). *)
Definition wellNamed (clients : list MCPClientState) : Prop :=
  NoDup ((fun c => nameOf c) <$> clients) /\
  forall c, c ∈ clients -> hyphenFree (nameOf c) /\ forall t, t ∈ ToolMap c -> exists u, t = nameOf c +:+ "-" +:+ u.

(** What the client of a name adds to the list. *)
Definition listed (ctx : BifrostContext) (clients : list MCPClientState) (n : string) : list string :=
  match clientNamed clients n with
  | Some c => if bool_decide (State c = MCPConnectionStateDisabled) || negb (shouldIncludeClient n (includeClientsOf ctx)) then []
              else clientTools ctx c
  | None => []
  end.

Lemma addClientTools_lookup ctx clients tools n k :
  default [] (addClientTools ctx clients tools n !! k) = default [] (tools !! k) ++ (if decide (n = k) then listed ctx clients n else []).
Proof.
  unfold addClientTools, listed. destruct (clientNamed clients n) as [c|]; [|by case_decide; rewrite app_nil_r].
  destruct (bool_decide _), (negb _); cbn [orb]; try by case_decide; rewrite app_nil_r.
  destruct (clientTools ctx c) as [|t l] eqn:Hl; [by case_decide; rewrite app_nil_r|].
  case_decide as Hk; [subst; by rewrite lookup_insert_eq|by rewrite lookup_insert_ne, app_nil_r].
Qed.

Lemma listing_lookup ctx clients ns tools k : NoDup ns ->
  default [] (foldl (addClientTools ctx clients) tools ns !! k) = default [] (tools !! k) ++ (if decide (k ∈ ns) then listed ctx clients k else []).
Proof.
  intros Hns. revert tools. induction Hns as [|n ns Hn Hns IH]; intros tools; cbn [foldl].
  { rewrite decide_False by apply not_elem_of_nil. by rewrite app_nil_r. }
  rewrite IH, addClientTools_lookup, <-(assoc_L (++)). f_equal.
  destruct (decide (n = k)) as [->|Hk].
  - rewrite (decide_False (P := k ∈ ns)), app_nil_r by done. rewrite decide_True by (by left). done.
  - destruct (decide (k ∈ ns)); [rewrite decide_True by (by right); done|rewrite decide_False; [done|]]. by rewrite elem_of_cons; intros [->|?].
Qed.

Lemma offered_spec ctx clients k : NoDup ((fun c => nameOf c) <$> clients) ->
  default [] (GetToolPerClient ctx clients !! k) = listed ctx clients k.
Proof.
  intros Hd. unfold GetToolPerClient. rewrite listing_lookup by (by rewrite SortStrings_permutes).
  rewrite lookup_empty. cbn. destruct (decide _) as [|Hn]; [done|].
  rewrite SortStrings_permutes in Hn. unfold listed, clientNamed.
  destruct (last _) as [c|] eqn:Hl; [|done]. apply last_Some_elem_of, list_elem_of_filter in Hl as [<- Hc].
  destruct Hn. by apply (list_elem_of_fmap_2 (fun c => nameOf c)).
Qed.

Lemma same_name clients c d : wellNamed clients -> c ∈ clients -> d ∈ clients -> nameOf c = nameOf d -> c = d.
Proof.
  intros [Hd _] (i & Hi)%list_elem_of_lookup (j & Hj)%list_elem_of_lookup Heq.
  assert (i = j) as ->; [|congruence].
  apply (NoDup_lookup _ i j (nameOf c) Hd); rewrite list_lookup_fmap, ?Hi, ?Hj; cbn; congruence.
Qed.

(** A name finds its client, a tool finds the client that has it. *)
Lemma clientNamed_spec clients c : wellNamed clients -> c ∈ clients -> clientNamed clients (nameOf c) = Some c.
Proof.
  intros Hw Hc. unfold clientNamed. destruct (last _) as [d|] eqn:Hl.
  - apply last_Some_elem_of, list_elem_of_filter in Hl as [Hn Hd]. by rewrite (same_name clients d c).
  - apply last_None in Hl. assert (Hf : c ∈ base.filter (fun c' => nameOf c' = nameOf c) clients) by by apply list_elem_of_filter.
    rewrite Hl in Hf. by apply elem_of_nil in Hf.
Qed.

Lemma GetClientForTool_spec clients t c : wellNamed clients ->
  GetClientForTool clients t = Some c <-> c ∈ clients /\ t ∈ ToolMap c.
Proof.
  intros Hw. unfold GetClientForTool. split.
  - intros [Hc Ht]%find_some. apply bool_decide_eq_true in Ht. by rewrite list_elem_of_In.
  - intros [Hc Ht]. destruct (find _ clients) as [d|] eqn:Hf.
    + apply find_some in Hf as [Hd%list_elem_of_In Htd%bool_decide_eq_true]. f_equal. apply (same_name clients); try done.
      destruct Hw as [_ Hp]. destruct (Hp c Hc) as [Hhc (u & Hu)%(fun f => f t Ht)], (Hp d Hd) as [Hhd (v & Hv)%(fun f => f t Htd)].
      rewrite Hu in Hv. by apply hyphen_split in Hv as [-> _].
    + eapply find_none in Hf; [|by apply list_elem_of_In]. by rewrite bool_decide_eq_false in Hf.
Qed.

(** Tools of clients are never tools of code mode: those have no hyphen. *)
Lemma prefixed_not_codeMode n u : IsCodeModeTool (n +:+ "-" +:+ u) = false.
Proof.
  unfold IsCodeModeTool. apply bool_decide_eq_false. intros Hin.
  assert (Hh : Forall (fun t => GoStrings.Contains t "-" = false) codeModeToolNames) by (vm_compute; auto using Forall).
  rewrite Forall_forall in Hh. apply Hh in Hin. apply not_true_iff_false in Hin. apply Hin, Contains_spec. by exists n, u.
Qed.

(** Whether a client may be used for a request at all, and one of its tools. *)
Definition usable (ctx : BifrostContext) (c : MCPClientState) : Prop :=
  State c <> MCPConnectionStateDisabled /\ shouldIncludeClient (nameOf c) (includeClientsOf ctx) = true.

Definition toolAllowed (ctx : BifrostContext) (c : MCPClientState) (t : string) : Prop :=
  shouldSkipToolForConfig t (ExecutionConfig c) = false /\
  GovResolver.shouldSkipToolForRequest (includeToolsOf ctx) (nameOf c) t = false.

Lemma listed_spec ctx clients c t : wellNamed clients -> c ∈ clients ->
  t ∈ listed ctx clients (nameOf c) <-> usable ctx c /\ t ∈ ToolMap c /\ toolAllowed ctx c t.
Proof.
  intros Hw Hc. unfold listed. rewrite (clientNamed_spec clients c) by done. unfold usable, toolAllowed.
  case_bool_decide as Hs; cbn [orb]; [rewrite elem_of_nil; tauto|].
  destruct (shouldIncludeClient _ _); cbn [negb]; [|rewrite elem_of_nil; split; [done|by intros [[_ [=]] _]]].
  unfold clientTools. rewrite list_elem_of_filter, SortStrings_permutes, elem_of_elements. tauto.
Qed.

(** A connection is had: the shared one is there, or, for a client whose calls
    have connections of their own, there is a URL and one is opened. *)
Definition connects (o : Connections) (ctx : BifrostContext) (c : MCPClientState) : Prop :=
  if requiresPerCall o (ExecutionConfig c)
  then exists url, connectionString o (ExecutionConfig c) = Some url /\ url <> "" /\ openPerCall o ctx (ExecutionConfig c) url = Opened
  else hasConn o c = true.

Lemma acquire_spec o ctx c : AcquireClientConn o ctx c = None <-> connects o ctx c.
Proof.
  unfold AcquireClientConn, connects. destruct (requiresPerCall o _); cbn [negb]; [|by destruct (hasConn o c)].
  destruct (connectionString o _) as [[|x url]|]; [by split; [|intros (? & [= <-] & ? & _)]| |by split; [|intros (? & [=] & _)]].
  split.
  - intros Ha. exists (String x url). split; [done|]. split; [done|]. destruct (openPerCall o ctx _ _) as [|[auth|] [m|]|]; done.
  - by intros (? & [= <-] & _ & ->).
Qed.

Lemma prepare_spec codeMode o ctx clients t c : wellNamed clients ->
  prepareToolExecution codeMode o ctx clients t = RunOn c <->
  c ∈ clients /\ t ∈ ToolMap c /\ usable ctx c /\ toolAllowed ctx c t /\ State c <> MCPConnectionStateNeedsReauth /\ connects o ctx c.
Proof.
  intros Hw. rewrite <-acquire_spec. unfold prepareToolExecution, usable, toolAllowed. split.
  - case_bool_decide as Ht; [done|]. destruct (codeMode && _); [done|].
    destruct (GetClientForTool clients t) as [d|] eqn:Hf; [|done]. apply GetClientForTool_spec in Hf as [Hd Htd]; [|done].
    case_bool_decide; [done|]. destruct (shouldIncludeClient _ _) eqn:Hi; [|done].
    destruct (shouldSkipToolForConfig _ _) eqn:Hk; [done|]. destruct (GovResolver.shouldSkipToolForRequest _ _ _) eqn:Hr; [done|].
    case_bool_decide; [done|]. destruct (AcquireClientConn o ctx d) eqn:Ha; [done|]. intros [= ->]. tauto.
  - intros (Hc & Ht & [Hs Hi] & [Hk Hr] & Hn & Ha). destruct Hw as [Hd Hp]. pose proof (Hp c Hc) as [_ (u & Hu)%(fun f => f t Ht)].
    assert (Hcm : IsCodeModeTool t = false) by (rewrite Hu; apply prefixed_not_codeMode).
    rewrite bool_decide_false, Hcm, andb_false_r by (rewrite Hu; by destruct (nameOf c)).
    rewrite (proj2 (GetClientForTool_spec clients t c (conj Hd Hp)) (conj Hc Ht)).
    by rewrite bool_decide_false, Hi, Hk, Hr, bool_decide_false, Ha by done.
Qed.

(** C36. Listing and calling agree: with clients of different names without
    hyphens, whose tools carry them in front, a call by name of one of their tools
    runs on its client exactly when the list made for the same request holds that
    tool under that client, the client does not wait for a new authorization, and
    a connection is had: the shared one is there, or one is opened for the call.
    So no hidden tool can be called by its name.  The list looks neither at the
    authorization nor at the connection: a tool of a client that waits for the one
    or has lost the other is offered all the same, and its calls fail. *)
Theorem runs_iff_offered codeMode o ctx clients t c :
  wellNamed clients -> c ∈ clients -> t ∈ ToolMap c ->
  (prepareToolExecution codeMode o ctx clients t = RunOn c <->
   t ∈ default [] (GetToolPerClient ctx clients !! nameOf c) /\
   State c <> MCPConnectionStateNeedsReauth /\ connects o ctx c) /\
  (State c <> MCPConnectionStateDisabled ->
   t ∈ default [] (GetToolPerClient ctx clients !! nameOf c) <-> shouldIncludeClient (nameOf c) (includeClientsOf ctx) = true /\ toolAllowed ctx c t).
Proof.
  intros Hw Hc Ht. rewrite prepare_spec, offered_spec, listed_spec by (done || apply Hw). split; [tauto|].
  intros Hs. unfold usable. tauto.
Qed.

Definition emptyContext : BifrostContext := mkCtx ∅ ∅ false.

(** Two clients, one of which waits for a new authorization. *)
Definition calendarClient : MCPClientState :=
  mkClient (mkConfig "1" "calendar" false ["list"] []) {["calendar-list"; "calendar-drop"]} ∅ MCPConnectionStateHealthy.
Definition filesClient : MCPClientState :=
  mkClient (mkConfig "2" "files" true ["*"] ["read-file"]) {["files-read_file"; "files-delete_all"]} ∅ MCPConnectionStateNeedsReauth.

Lemma two_clients_wellNamed : wellNamed [calendarClient; filesClient].
Proof.
  split; [by apply (bool_decide_unpack _); vm_compute|].
  intros c [-> | ->%list_elem_of_singleton]%elem_of_cons; (split; [by vm_compute|]); intros t Ht;
    cbn in Ht; apply elem_of_union in Ht as [->%elem_of_singleton | ->%elem_of_singleton]; eexists; reflexivity.
Qed.

(** Shared connections that are there. *)
Definition shared : Connections := mkConnections (fun _ => false) (fun _ => true) (fun _ => None) (fun _ _ _ => OpenShortCircuited).

Lemma runs_iff_offered_witness :
  prepareToolExecution true shared emptyContext [calendarClient; filesClient] "calendar-list" = RunOn calendarClient /\
  "files-delete_all" ∈ default [] (GetToolPerClient emptyContext [calendarClient; filesClient] !! "files").
Proof.
  split.
  - apply (runs_iff_offered true shared emptyContext [calendarClient; filesClient] "calendar-list" calendarClient two_clients_wellNamed);
      [by left|by apply (bool_decide_unpack _); vm_compute|]. by vm_compute; repeat split; [left|discriminate].
  - apply (runs_iff_offered true shared emptyContext [calendarClient; filesClient] "files-delete_all" filesClient two_clients_wellNamed);
      [by right; left|by apply (bool_decide_unpack _); vm_compute|done|]. by vm_compute.
Defined.

(** ** Calls in code *)

(** A name as the search for calls reads it. *)
Fixpoint nameChars (s : string) : bool :=
  match s with String c s => isNameChar c && nameChars s | "" => true end.

Definition identifier (s : string) : Prop :=
  nameChars s = true /\ match s with String c _ => isNameStart c = true | "" => False end.

(** What comes after a name cannot continue it. *)
Definition stopsName (s : string) : Prop :=
  match s with String c _ => isNameChar c = false | "" => True end.

Lemma takeName_app n s : nameChars n = true -> stopsName s -> takeName (n +:+ s) = (n, s).
Proof.
  intros Hn Hs. induction n as [|c n IH]; cbn.
  - destruct s as [|c s]; [done|]. cbn in *. by rewrite Hs.
  - cbn in Hn. apply andb_prop in Hn as [-> Hn]. by rewrite IH.
Qed.

Lemma nameAt_app n s : identifier n -> stopsName s -> nameAt (n +:+ s) = Some (n, s).
Proof. intros [Hn Hf] Hs. unfold nameAt. destruct n as [|c n]; [done|]. cbn [String.append] in *. rewrite Hf. f_equal. by apply (takeName_app (String c n)). Qed.

Lemma nameStart_not_blank c : isNameStart c = true -> isBlank c = false.
Proof. by destruct c as [[] [] [] [] [] [] [] []]. Qed.

Lemma skipBlanks_name n s : identifier n -> skipBlanks (n +:+ s) = n +:+ s.
Proof. intros [_ Hf]. destruct n as [|c n]; [done|]. cbn. by rewrite nameStart_not_blank. Qed.

(** A call that is written out is found, whether awaited or not. *)
Definition written (server tool rest : string) : string := server +:+ "." +:+ tool +:+ String "("%char rest.

Lemma callAt_written server tool rest : identifier server -> identifier tool ->
  callAt (written server tool rest) = Some (mkCallInfo server tool, rest).
Proof.
  intros Hs Ht. unfold callAt, written. rewrite nameAt_app by done. cbn. change (isBlank _) with false. cbn.
  rewrite skipBlanks_name by done. rewrite (nameAt_app tool (String "("%char rest)) by done. done.
Qed.

(** A name that begins with [await] and a blank is [await] itself. *)
Lemma awaited_name n s : nameChars n = true -> stopsName s -> HasPrefix (n +:+ s) "await" = true ->
  (match str_drop 5 (n +:+ s) with String c _ => isBlank c = true | "" => False end) -> n = "await".
Proof.
  intros Hn Hs [r Hr]%HasPrefix_spec Hb. rewrite Hr in Hb. change (str_drop 5 ("await" +:+ r)) with r in Hb.
  destruct r as [|c r]; [done|].
  assert (Hc : stopsName (String c r)) by (revert Hb; by destruct c as [[] [] [] [] [] [] [] []]).
  pose proof (takeName_app n s Hn Hs) as H1. rewrite Hr, (takeName_app "await" (String c r)) in H1 by done. congruence.
Qed.

Lemma awaitedCallAt_name n s : nameChars n = true -> stopsName s ->
  awaitedCallAt (n +:+ s) = callAt (n +:+ s) \/ n = "await".
Proof.
  intros Hn Hs. unfold awaitedCallAt. destruct (HasPrefix _ _) eqn:Hp; [|by left].
  pose proof (awaited_name n s Hn Hs Hp) as Ha. destruct (str_drop 5 _) as [|c r]; [by left|].
  destruct (isBlank c); [right; by apply Ha|by left].
Qed.

Lemma awaitedCallAt_await s r : callAt s = Some r -> awaitedCallAt ("await" +:+ String "010"%char s) = Some r.
Proof.
  intros Hc. unfold awaitedCallAt. rewrite (proj2 (HasPrefix_spec _ _) (ex_intro _ _ eq_refl)).
  change (str_drop 5 ("await" +:+ String "010"%char s)) with (String "010"%char s). change (isBlank "010"%char) with true. cbn match.
  replace (skipBlanks s) with s; [by rewrite Hc|]. destruct s as [|c s]; [done|]. cbn.
  destruct (isBlank c) eqn:Hb; [|done]. exfalso. revert Hc. unfold callAt, nameAt.
  destruct (isNameStart c) eqn:Hn; [|done]. apply nameStart_not_blank in Hn. congruence.
Qed.

Lemma findCalls_found fuel s call rest : awaitedCallAt s = Some (call, rest) -> findCalls (S fuel) s = call :: findCalls fuel rest.
Proof. intros Hc. cbn. by rewrite Hc. Qed.

Lemma findCalls_none fuel c s : awaitedCallAt (String c s) = None -> findCalls (S fuel) (String c s) = findCalls fuel s.
Proof. intros Hc. cbn [findCalls]. by rewrite Hc. Qed.

Lemma awaitedCallAt_written server tool rest : identifier server -> identifier tool ->
  awaitedCallAt (written server tool rest) = Some (mkCallInfo server tool, rest).
Proof.
  intros Hs Ht. rewrite <-(callAt_written server tool rest) by done.
  destruct (awaitedCallAt_name server ("." +:+ tool +:+ String "("%char rest)) as [|He]; [apply Hs|done|done|].
  subst server. unfold awaitedCallAt, written. cbn. by change (isBlank "."%char) with false.
Qed.

Lemma findCalls_paren fuel : findCalls fuel ")" = [].
Proof. by destruct fuel as [|[|fuel]]. Qed.

(** A call through another name: the value of the client is bound to [f] first. *)
Definition direct (server tool : string) : string := written server tool ")".
Definition aliased (server tool : string) : string := "f = " +:+ server +:+ String "010"%char (written "f" tool ")").

Lemma direct_found server tool : identifier server -> identifier tool ->
  extractToolCallsFromCode (direct server tool) = [mkCallInfo server tool].
Proof.
  intros Hs Ht. unfold extractToolCallsFromCode, direct. rewrite (findCalls_found _ _ _ _ (awaitedCallAt_written _ _ _ Hs Ht)).
  by rewrite findCalls_paren.
Qed.

Lemma aliased_tail n tool fuel : nameChars n = true -> identifier tool -> (String.length n + 2 <= fuel)%nat ->
  findCalls fuel (n +:+ String "010"%char (written "f" tool ")")) = [mkCallInfo "f" tool].
Proof.
  intros Hn Ht. revert fuel. induction n as [|c n IH]; intros fuel Hf; cbn in Hf.
  - destruct fuel as [|[|fuel]]; [lia..|]. cbn [String.append]. rewrite findCalls_none by done.
    rewrite (findCalls_found _ _ _ _ (awaitedCallAt_written "f" tool ")" (conj eq_refl eq_refl) Ht)). by rewrite findCalls_paren.
  - destruct fuel as [|fuel]; [lia|]. assert (Hn' : nameChars n = true) by (cbn in Hn; by apply andb_prop in Hn as [_ ?]).
    destruct (awaitedCallAt_name (String c n) (String "010"%char (written "f" tool ")")) Hn eq_refl) as [Ha|Ha].
    + cbn [String.append]. rewrite findCalls_none; [apply IH; [done|lia]|]. cbn [String.append] in Ha. rewrite Ha. unfold callAt, nameAt.
      destruct (isNameStart c); [|done]. pose proof (takeName_app (String c n) (String "010"%char (written "f" tool ")")) Hn eq_refl) as Ht'.
      cbn [String.append] in Ht'. rewrite Ht'. done.
    + rewrite Ha, (findCalls_found _ _ (mkCallInfo "f" tool) ")"), findCalls_paren; [done|].
      apply awaitedCallAt_await. by apply callAt_written.
Qed.

Lemma aliased_found server tool : identifier server -> identifier tool ->
  extractToolCallsFromCode (aliased server tool) = [mkCallInfo "f" tool].
Proof.
  intros Hs Ht. unfold extractToolCallsFromCode, aliased. cbn [String.append String.length].
  do 4 (rewrite findCalls_none by done). apply aliased_tail; [apply Hs|done|]. rewrite str_length_app. cbn. lia.
Qed.

(** C37. The check of code sees names, not values.  In code, a call of a tool of
    a client that its list of tools to run on its own does not hold keeps the
    code from running on its own; the same call, made through a variable that
    was set to the client, does not, whatever the tool: no client has the name
    of the variable.  (One tool of some client must be allowed at all.) *)
Theorem alias_runs_alone ctx clients server tool :
  identifier server -> identifier tool ->
  let '(names, allowed) := buildAllowedAutoExecutionTools ctx clients in
  server ∈ names -> "f" ∉ names -> allowed <> ∅ ->
  "*" ∉ default [] (allowed !! server) -> tool ∉ default [] (allowed !! server) ->
  codeMayRun ctx clients (Some (direct server tool)) = false /\
  codeMayRun ctx clients (Some (aliased server tool)) = true.
Proof.
  intros Hs Ht. destruct (buildAllowedAutoExecutionTools ctx clients) as [names allowed] eqn:Hb.
  intros Hin Hf Hne Hstar Htool. unfold codeMayRun. rewrite Hb, direct_found, aliased_found by done.
  rewrite (bool_decide_false (allowed = ∅)) by done. cbn [forallb negb andb ci_toolName serverName].
  unfold isToolCallAllowedForCodeMode. rewrite (bool_decide_true (server ∈ names)), (bool_decide_false ("f" ∈ names)) by done. cbn [negb andb].
  split.
  - destruct (direct server tool) eqn:Hd; [done|]. destruct (allowed !! server) as [l|]; [|done]. cbn in Hstar, Htool.
    by rewrite !bool_decide_false by done.
  - done.
Qed.

Lemma alias_runs_alone_witness :
  let clients := [calendarClient; filesClient] in
  codeMayRun emptyContext clients (Some (direct "files" "delete_all")) = false /\
  codeMayRun emptyContext clients (Some (aliased "files" "delete_all")) = true.
Proof.
  apply (alias_runs_alone emptyContext [calendarClient; filesClient] "files" "delete_all"); try (by vm_compute; split);
    by apply (bool_decide_unpack _); vm_compute.
Defined.
End McpToolsTheory.
