(* ===== verification/McpAgentTheory.v ===== *)
(** * What a run of the agent does

    Every run of the loop is a [Run], the relation below that forgets the
    outside world; from it: when a run ends and with what, what the model is
    asked in each round, and which calls are run at all. *)

From S2P Require Import Prelude GoStrings Schemas Context Request Windows McpTools McpAgent.

Local Open Scope string_scope.
Local Open Scope list_scope.

Module McpAgentTheory.
Import Schemas Context Request Windows McpTools McpAgent.

Section Theory.
Context {F : Type} `{Amount F} {W : Type}.

Section Loop.
Context {Resp Req Msg : Type} (A : agentAPIAdapter (F := F) Resp Req Msg) (E : Outside (W := W) Resp Req).

Local Abbreviation Round := (Round Resp Req).

(** *** The goroutines of a round *)

Definition calledBy (g : Goroutine) : option ToolCall :=
  match g with Running c | Answered c _ | Noted c _ => Some c | Finished => None end.

(** The answers whose demand for authorization was noted. *)
Definition notedOf (g : Goroutine) : option ToolAnswer := match g with Noted _ a => Some a | _ => None end.

Definition stepsLeft (g : Goroutine) : nat := match g with Running _ => 3 | Answered _ _ => 2 | Noted _ _ => 1 | Finished => 0 end.

(** The demand for authorization that stops a round is one of the answers;
    without one there is none. *)
Definition stops (auth : option MCPAuthRequiredError) (answers : list ToolAnswer) : Prop :=
  match auth with
  | Some a => exists text, ToolFailed (Some a) text ∈ answers
  | None => forall a text, ToolFailed (Some a) text ∉ answers
  end.

Lemma stops_permutes auth l l' : l ≡ₚ l' -> stops auth l -> stops auth l'.
Proof.
  intros Hp. destruct auth as [a|]; cbn.
  - intros [text Ht]. exists text. by rewrite <-Hp.
  - intros Hno a text Hin. apply (Hno a text). by rewrite Hp.
Qed.

Lemma stops_more auth answer l : stops auth l -> stops (match auth with Some first => Some first | None => authRequired answer end) (answer :: l).
Proof.
  destruct auth as [a|]; cbn; [intros [text Ht]; exists text; by right|]. intros Hno.
  destruct answer as [[a|] text| |]; cbn; [exists text; by left|..]; intros a' text' [Heq|Hin]%elem_of_cons; first [discriminate Heq|exact (Hno _ _ Hin)].
Qed.

(** The calls that are not answered yet and those that are, together; the steps left. *)
Record Progress (calls : list ToolCall) (s : FanOut (W := W)) : Prop := {
  progress_calls : omap calledBy (routines s) ++ (channelToolResults s).*1 ≡ₚ calls;
  progress_auth : stops (authRequiredErr s) (omap notedOf (routines s) ++ (channelToolResults s).*2);
}.

Definition work (s : FanOut (W := W)) : nat := sum_list_with stepsLeft (routines s).

Lemma insert_split {X} (l : list X) i x y : l !! i = Some x -> exists a b, l = a ++ x :: b /\ <[i := y]> l = a ++ y :: b.
Proof.
  intros Hl. apply list_elem_of_split_length in Hl as (a & b & -> & ->). exists a, b. split; [done|].
  by rewrite insert_app_r_alt, Nat.sub_diag by done.
Qed.

Lemma goroutineStep_progress calls ctx i s : Progress calls s ->
  Progress calls (goroutineStep E ctx i s) /\ (i ∈ unfinished s -> S (work (goroutineStep E ctx i s)) = work s).
Proof.
  intros [Hc Ha]. unfold goroutineStep, work. assert (Hun : i ∈ unfinished s -> routines s !! i <> Some Finished /\ is_Some (routines s !! i)).
  { unfold unfinished. rewrite list_elem_of_filter. intros [Hb _]. destruct (routines s !! i) as [[]|]; split; done. }
  destruct (routines s !! i) as [[call|call answer|call answer|]|] eqn:Hi; [| | |by split; [|intros [? _]%Hun]|by split; [|intros [_ [? ?]]%Hun]].
  - destruct (newLogID E (fo_World s)) as [logID w1]. destruct (executeToolFunc E _ call w1) as [answer w2].
    destruct (insert_split _ _ _ (Answered call answer) Hi) as (a & b & Hr & Hr'). rewrite Hr in Hc, Ha. rewrite Hr', Hr. cbn [routines].
    rewrite !omap_app in *. rewrite !sum_list_with_app. split; [|cbn; lia]. split; cbn [routines channelToolResults authRequiredErr]; by rewrite omap_app.
  - destruct (insert_split _ _ _ (Noted call answer) Hi) as (a & b & Hr & Hr'). rewrite Hr in Hc, Ha. rewrite Hr', Hr. cbn [routines].
    rewrite !omap_app in *. rewrite !sum_list_with_app. split; [|cbn; lia]. split; cbn [routines channelToolResults authRequiredErr]; rewrite omap_app; [done|].
    eapply stops_permutes; [|by apply (stops_more _ answer)]. cbn. rewrite <-!(assoc_L (++)). apply Permutation_middle.
  - destruct (insert_split _ _ _ Finished Hi) as (a & b & Hr & Hr'). rewrite Hr in Hc, Ha. rewrite Hr', Hr. cbn [routines].
    rewrite !omap_app in *. rewrite !sum_list_with_app. split; [|cbn; lia]. split; cbn [routines channelToolResults authRequiredErr]; rewrite omap_app, fmap_app; cbn.
    + rewrite <-Hc. cbn. rewrite <-!(assoc_L (++)). f_equiv. cbn. rewrite (assoc_L (++)). by rewrite (comm (++) _ [call]).
    + eapply stops_permutes; [|exact Ha]. cbn. rewrite <-!(assoc_L (++)). f_equiv. cbn. rewrite (assoc_L (++)). by rewrite (comm (++) _ [answer]).
Qed.

Lemma runGoroutines_progress calls ctx fuel step s : Progress calls s -> (work s <= fuel)%nat ->
  Progress calls (runGoroutines E fuel step ctx s) /\ unfinished (runGoroutines E fuel step ctx s) = [].
Proof.
  revert step s. induction fuel as [|fuel IH]; intros step s Hp Hw; cbn [runGoroutines].
  - split; [done|]. destruct (unfinished s) as [|i l] eqn:Hu; [done|]. exfalso.
    destruct (goroutineStep_progress calls ctx i s Hp) as [_ Hstep]. rewrite Hu in Hstep. specialize (Hstep ltac:(by left)). lia.
  - destruct (unfinished s) as [|i0 l] eqn:Hu; [done|]. set (k := (pick E step (fo_World s) mod length (i0 :: l))%nat).
    destruct (lookup_lt_is_Some_2 (i0 :: l) k) as [i Hi]; [apply Nat.mod_upper_bound; done|]. rewrite Hi. change (default O (Some i)) with i.
    destruct (goroutineStep_progress calls ctx i s Hp) as [Hp' Hstep]. apply IH; [exact Hp'|].
    specialize (Hstep ltac:(rewrite Hu; by eapply list_elem_of_lookup_2)). lia.
Qed.

Lemma work_started calls : sum_list_with stepsLeft (Running <$> calls) = (3 * length calls)%nat.
Proof. induction calls as [|c calls IH]; [done|]. cbn in *. lia. Qed.

Lemma unfinished_nil s : unfinished (W := W) s = [] -> forall g, g ∈ routines s -> g = Finished.
Proof.
  intros Hu g (i & Hi)%list_elem_of_lookup.
  assert (Hin : (match g with Finished => false | _ => true end) = true -> i ∈ unfinished s).
  { intros Hg. unfold unfinished. apply list_elem_of_filter. rewrite Hi. split; [by destruct g|].
    apply elem_of_seq. apply lookup_lt_Some in Hi. lia. }
  rewrite Hu in Hin. destruct g; [..|done]; by specialize (Hin eq_refl) as ?%elem_of_nil.
Qed.

Lemma omap_none {X Y} (f : X -> option Y) (l : list X) : (forall x, x ∈ l -> f x = None) -> omap f l = [].
Proof. induction l as [|x l IH]; [done|]. intros Hn. cbn. rewrite Hn by by left. apply IH. intros y Hy. apply Hn. by right. Qed.

(** The goroutines of a round end, each with one message in the channel. *)
Lemma runTools_answers ctx calls w :
  (channelToolResults (runTools E ctx calls w)).*1 ≡ₚ calls /\
  stops (authRequiredErr (runTools E ctx calls w)) (channelToolResults (runTools E ctx calls w)).*2.
Proof.
  unfold runTools. set (s0 := mkFanOut (Running <$> calls) [] None w).
  assert (Hp : Progress calls s0).
  { assert (Hc : omap calledBy (Running <$> calls) = calls) by (induction calls as [|c calls' IH]; [done|]; cbn; by rewrite IH).
    assert (Hn : omap notedOf (Running <$> calls) = []) by (apply omap_none; by intros g (c & -> & _)%list_elem_of_fmap).
    split; cbn; rewrite ?Hc, ?Hn, ?app_nil_r; [done|]. intros a text. apply not_elem_of_nil. }
  destruct (runGoroutines_progress calls ctx (3 * length calls) 0 s0 Hp) as [[Hc Ha] Hu]; [unfold work; cbn [routines s0]; by rewrite work_started|].
  set (s := runGoroutines _ _ _ _ _) in *. pose proof (unfinished_nil s Hu) as Hf.
  rewrite (omap_none calledBy) in Hc by (intros g Hg; by rewrite (Hf g Hg)). rewrite (omap_none notedOf) in Ha by (intros g Hg; by rewrite (Hf g Hg)). done.
Qed.

(** The calls of a round are split by the rule, and those run are answered. *)
Record goodRound (r : Round) : Prop := {
  round_calls : extractToolCalls A (r_response r) <> [];
  round_auto : r_auto r = base.filter (runsAlone (codeArgument E) (r_ctx r) (r_clients r)) (extractToolCalls A (r_response r));
  round_pending : r_pending r = base.filter (fun c => ~ runsAlone (codeArgument E) (r_ctx r) (r_clients r) c) (extractToolCalls A (r_response r));
  round_answers : fst <$> r_answers r ≡ₚ r_auto r;
}.

(** The conversation after a round that ran something. *)
Definition afterRound (history : list Msg) (r : Round) : list Msg :=
  addToolResults A (addAssistantMessage A history (r_response r)) (resultMessages (r_answers r)).

Inductive Run : nat -> bool -> Resp -> list Msg -> list ChatMessage -> list ToolCall -> option BifrostLLMUsage -> AgentResult Resp -> list Round -> Prop :=
| run_ends fuel b response history results calls usage :
    fuel = O \/ extractToolCalls A response = [] ->
    Run fuel b response history results calls usage (AgentDone (applyUsage A response usage)) []
| run_unauthorized fuel b r history results calls usage auth :
    goodRound r -> stops (Some auth) (r_answers r).*2 -> r_request r = None -> r_reply r = None ->
    Run (S fuel) b (r_response r) history results calls usage (AgentFailed (authRequiredError auth) (Some auth)) [r]
| run_pending fuel b r history results calls usage :
    goodRound r -> stops None (r_answers r).*2 -> r_pending r <> [] -> r_request r = None -> r_reply r = None ->
    Run (S fuel) b (r_response r) history results calls usage
      (AgentDone (stopWithPending A b (r_response r) (results ++ resultMessages (r_answers r)) (calls ++ r_auto r) (r_pending r) usage)) [r]
| run_refused fuel b r history results calls usage err :
    goodRound r -> stops None (r_answers r).*2 -> r_pending r = [] ->
    r_request r = Some (createNewRequest A (afterRound history r)) -> r_reply r = None ->
    Run (S fuel) b (r_response r) history results calls usage (AgentFailed err None) [r]
| run_continues fuel b r history results calls usage reply res rounds :
    goodRound r -> stops None (r_answers r).*2 -> r_pending r = [] ->
    r_request r = Some (createNewRequest A (afterRound history r)) -> r_reply r = Some reply ->
    Run fuel false reply (afterRound history r) (results ++ resultMessages (r_answers r)) (calls ++ r_auto r)
      (mergeUsage usage (extractUsage A reply)) res rounds ->
    Run (S fuel) b (r_response r) history results calls usage res (r :: rounds).

(** What passes a test and what does not, together. *)
Lemma filter_split_at {X} (P : X -> Prop) `{!forall x, base.Decision (P x)} (l : list X) :
  base.filter P l ++ base.filter (fun x => ~ P x) l ≡ₚ l.
Proof.
  induction l as [|x l IH]; [done|]. rewrite !filter_cons. destruct (decide (P x)).
  - rewrite decide_False by tauto. cbn. by rewrite IH.
  - rewrite decide_True by done. by rewrite <-Permutation_middle, IH.
Qed.

(** Without calls left over, some were run. *)
Lemma all_run_some {X} (P : X -> Prop) `{!forall x, base.Decision (P x)} (l : list X) :
  l <> [] -> base.filter (fun x => ~ P x) l = [] -> base.filter P l <> [].
Proof.
  destruct l as [|x l]; [done|]. intros _. rewrite !filter_cons.
  destruct (decide (P x)); [done|]. by rewrite decide_True.
Qed.

Lemma agentLoop_run fuel b response history results calls usage ctx w res rounds ctx' w' :
  agentLoop A E fuel b response history results calls usage ctx w = (res, rounds, ctx', w') ->
  Run fuel b response history results calls usage res rounds.
Proof.
  revert b response history results calls usage ctx w res rounds ctx' w'.
  induction fuel as [|fuel IH]; intros b response history results calls usage ctx w res rounds ctx' w'; cbn [agentLoop].
  { intros [= <- <- _ _]. apply run_ends. by left. }
  destruct (extractToolCalls A response) as [|tc tcs] eqn:Hx.
  { intros [= <- <- _ _]. apply run_ends. by right. }
  set (l := tc :: tcs) in *. set (auto := base.filter (runsAlone _ _ _) l). set (pending := base.filter (fun c => ~ _) l).
  set (ran := match auto with [] => mkFanOut [] [] None w | _ => runTools E ctx auto w end).
  assert (Hans : (channelToolResults ran).*1 ≡ₚ auto /\ stops (authRequiredErr ran) (channelToolResults ran).*2).
  { subst ran. destruct auto as [|a auto]; [|apply runTools_answers]. split; [done|]. intros ? ?. apply not_elem_of_nil. }
  destruct ran as [gs answers auth w1]. cbn [channelToolResults authRequiredErr fo_World] in *. destruct Hans as [Hp Hf].
  assert (Hg : forall q p, goodRound (mkRound response ctx (clientsOf E w) auto answers pending q p)).
  { intros q p. by split; cbn; rewrite ?Hx. }
  destruct auth as [auth|].
  { intros [= <- <- _ _]. apply (run_unauthorized fuel b (mkRound response ctx (clientsOf E w) auto answers pending None None)); [apply Hg|done..]. }
  destruct pending as [|c more] eqn:Hpe.
  2:{ intros [= <- <- _ _]. by apply (run_pending fuel b (mkRound response ctx (clientsOf E w) auto answers (c :: more) None None)). }
  assert (Hne : auto <> []) by by apply all_run_some.
  replace (match auto with [] => history | _ => addToolResults A (addAssistantMessage A history response) (resultMessages answers) end)
    with (addToolResults A (addAssistantMessage A history response) (resultMessages answers)) by by destruct auto.
  destruct (withNewRequestID _ ctx w1) as [ctx2 w2].
  destruct (makeLLMCall E ctx2 _ w2) as [[[reply|err] ctx3] w3].
  - destruct (agentLoop A E fuel false reply _ _ _ _ ctx3 w3) as [[[res' rounds'] ctx4] w4] eqn:Hl.
    intros [= <- <- _ _]. apply IH in Hl. by eapply (run_continues fuel b (mkRound response ctx (clientsOf E w) auto answers [] _ _)).
  - intros [= <- <- _ _]. by eapply (run_refused fuel b (mkRound response ctx (clientsOf E w) auto answers [] _ _)).
Qed.

(** ** How a run ends *)

Definition replied (r : Round) : Prop := is_Some (r_reply r).

Definition lastResponse (initial : Resp) (rounds : list Round) : Resp := default initial (last (omap r_reply rounds)).

Definition usageAfter (usage : option BifrostLLMUsage) (rounds : list Round) : option BifrostLLMUsage :=
  foldl (fun u reply => mergeUsage u (extractUsage A reply)) usage (omap r_reply rounds).

Definition allResults (rounds : list Round) : list ChatMessage := concat ((fun r => resultMessages (r_answers r)) <$> rounds).
Definition allCalls (rounds : list Round) : list ToolCall := concat (r_auto <$> rounds).

Lemma lastResponse_cons initial r reply rounds : r_reply r = Some reply ->
  lastResponse initial (r :: rounds) = lastResponse reply rounds.
Proof.
  intros Hr. unfold lastResponse. cbn. rewrite Hr, last_cons. by destruct (last _).
Qed.

Lemma usageAfter_cons usage r reply rounds : r_reply r = Some reply ->
  usageAfter usage (r :: rounds) = usageAfter (mergeUsage usage (extractUsage A reply)) rounds.
Proof. intros Hr. unfold usageAfter. cbn. by rewrite Hr. Qed.

(** The three ends of a run that was given results and calls of earlier rounds. *)
Definition endsWithoutCalls (depth : nat) (initial : Resp) (usage : option BifrostLLMUsage) (res : AgentResult Resp) (rounds : list Round) : Prop :=
  Forall replied rounds /\ (length rounds = depth \/ extractToolCalls A (lastResponse initial rounds) = []) /\
  res = AgentDone (applyUsage A (lastResponse initial rounds) (usageAfter usage rounds)).

Definition endsWithPending (b : bool) (results : list ChatMessage) (calls : list ToolCall) (initial : Resp) (usage : option BifrostLLMUsage) (res : AgentResult Resp) (rounds : list Round) : Prop :=
  exists rs r, rounds = rs ++ [r] /\ Forall replied rs /\ r_request r = None /\ r_pending r <> [] /\ r_response r = lastResponse initial rs /\
    res = AgentDone (stopWithPending A (match rs with [] => b | _ => false end) (r_response r)
                       (results ++ allResults rounds) (calls ++ allCalls rounds) (r_pending r) (usageAfter usage rs)).

Definition endsInError (res : AgentResult Resp) (rounds : list Round) : Prop :=
  exists rs r err auth, rounds = rs ++ [r] /\ Forall replied rs /\ r_reply r = None /\ res = AgentFailed err auth /\
    match auth with
    | Some a => err = authRequiredError a /\ r_request r = None /\ exists call text, (call, ToolFailed (Some a) text) ∈ r_answers r
    | None => is_Some (r_request r) /\ r_pending r = []
    end.

Lemma stops_in (answers : list (ToolCall * ToolAnswer)) auth : stops (Some auth) answers.*2 ->
  exists call text, (call, ToolFailed (Some auth) text) ∈ answers.
Proof. intros (text & ([call a] & Ha & Hin)%list_elem_of_fmap). cbn in Ha. subst a. eauto. Qed.

Lemma run_outcome fuel b response history results calls usage res rounds :
  Run fuel b response history results calls usage res rounds ->
  (length rounds <= fuel)%nat /\
  (endsWithoutCalls fuel response usage res rounds \/ endsWithPending b results calls response usage res rounds \/ endsInError res rounds).
Proof.
  induction 1 as [fuel b response history results calls usage Hend
                 |fuel b r history results calls usage auth Hg Ha Hq Hr
                 |fuel b r history results calls usage Hg Ha Hp Hq Hr
                 |fuel b r history results calls usage err Hg Ha Hp Hq Hr
                 |fuel b r history results calls usage reply res rounds Hg Ha Hp Hq Hr Hrun [IHl IH]].
  - split; [cbn; lia|]. left. split; [done|]. split; [cbn; destruct Hend; [left|right]; done|done].
  - split; [cbn; lia|]. right; right. exists [], r, (authRequiredError auth), (Some auth). do 4 (split; [done|]).
    do 2 (split; [done|]). by apply stops_in.
  - split; [cbn; lia|]. right; left. exists [], r. do 5 (split; [done|]). unfold allResults, allCalls. cbn. by rewrite !app_nil_r.
  - split; [cbn; lia|]. right; right. exists [], r, err, None. do 4 (split; [done|]). by rewrite Hq.
  - split; [cbn; lia|]. assert (Hrep : replied r) by (unfold replied; by rewrite Hr).
    destruct IH as [(Hf & Hend & Hres)|[(rs & r' & -> & Hf & Hq' & Hp' & Hr' & Hres)|(rs & r' & err & auth & -> & Hf & Hx)]].
    + left. split; [by constructor|]. rewrite (lastResponse_cons _ _ _ _ Hr), (usageAfter_cons _ _ _ _ Hr).
      split; [cbn; destruct Hend; [left; lia|by right]|done].
    + right; left. exists (r :: rs), r'. split; [done|]. split; [by constructor|]. do 2 (split; [done|]).
      rewrite (lastResponse_cons _ _ _ _ Hr), (usageAfter_cons _ _ _ _ Hr). split; [done|].
      rewrite Hres. unfold allResults, allCalls. cbn. rewrite !(assoc_L (++)). by destruct rs.
    + right; right. exists (r :: rs), r', err, auth. split; [done|]. split; [by constructor|done].
Qed.

(** ** What the model is asked *)

Lemma run_good fuel b response history results calls usage res rounds :
  Run fuel b response history results calls usage res rounds -> Forall goodRound rounds.
Proof. induction 1; auto. Qed.

Lemma run_requests fuel b response history results calls usage res rounds :
  Run fuel b response history results calls usage res rounds ->
  forall k r q, rounds !! k = Some r -> r_request r = Some q ->
  q = createNewRequest A (foldl afterRound history (take (S k) rounds)) /\ r_pending r = [] /\ stops None (r_answers r).*2.
Proof.
  induction 1 as [ | | | |fuel b r history results calls usage reply res rounds Hg Ha Hp Hq Hr Hrun IH]; intros [|k] r' q; cbn; try done;
    try (intros [= <-]; congruence).
  - intros [= <-] Hq'. split; [congruence|done].
  - intros [= <-] Hq'. rewrite Hq in Hq'. injection Hq' as <-. by rewrite take_0.
  - intros Hk Hq'. exact (IH k r' q Hk Hq').
Qed.

(** Each round begins with the reply to the round before. *)
Lemma run_begins fuel b response history results calls usage res rounds :
  Run fuel b response history results calls usage res rounds -> forall r, head rounds = Some r -> r_response r = response.
Proof. by destruct 1; intros ? [= <-]. Qed.

Lemma run_chained fuel b response history results calls usage res rounds :
  Run fuel b response history results calls usage res rounds ->
  forall k r r' reply, rounds !! k = Some r -> rounds !! S k = Some r' -> r_reply r = Some reply -> r_response r' = reply.
Proof.
  induction 1 as [ | | | |fuel b r history results calls usage reply res rounds Hg Ha Hp Hq Hr Hrun IH]; intros [|k] r1 r2 reply'; cbn; try done.
  - intros [= <-] Hk Hr'. rewrite Hr in Hr'. injection Hr' as <-. apply (run_begins _ _ _ _ _ _ _ _ _ Hrun). by rewrite head_lookup.
  - apply IH.
Qed.

(** Calls are left over in the last round only. *)
Lemma run_pending_last fuel b response history results calls usage res rounds :
  Run fuel b response history results calls usage res rounds ->
  forall k r, rounds !! k = Some r -> r_pending r <> [] -> S k = length rounds.
Proof.
  induction 1 as [ | | | |fuel b r history results calls usage reply res rounds Hg Ha Hp Hq Hr Hrun IH]; intros [|k] r' Hk Hne; cbn in *; try done.
  - by injection Hk as <-.
  - f_equal. by apply (IH k r').
Qed.

Lemma executeAgent_run d ctx w res rounds ctx' w' :
  executeAgent A E d ctx w = (res, rounds, ctx', w') ->
  Run (Z.to_nat d) true (getInitialResponse A) (getConversationHistory A) [] [] (extractUsage A (getInitialResponse A)) res rounds.
Proof. apply agentLoop_run. Qed.

(** A run of the agent ends, within as many rounds as its depth, in one of
    three ways.  Every round was answered by the model and the last reply has no
    calls, or the depth is used up: the last reply is returned, calls or not,
    with the usage of all replies merged in order.  Or the last round has calls
    that may not run alone: nothing more is asked, and they are returned with the
    results of all rounds and the usage so far (the first response as it came
    when nothing was run at all).  Or a tool asks for authorization or the model
    fails, and that is the error. *)
Theorem agent_ends d ctx w res rounds ctx' w' :
  executeAgent A E d ctx w = (res, rounds, ctx', w') ->
  let initial := getInitialResponse A in
  let usage := extractUsage A initial in
  (length rounds <= Z.to_nat d)%nat /\
  (endsWithoutCalls (Z.to_nat d) initial usage res rounds \/
   endsWithPending true [] [] initial usage res rounds \/
   endsInError res rounds).
Proof. intros Hx. apply (run_outcome _ _ _ _ _ _ _ _ _ (executeAgent_run _ _ _ _ _ _ _ Hx)). Qed.

(** ** Which calls are run *)

Lemma canAutoExecuteTool_spec n config : canAutoExecuteTool n config =
  WhiteList.IsAllowed (ToolsToExecute config) (stripClientPrefix n (Name config)) &&
  WhiteList.IsAllowed (ToolsToAutoExecute config) (stripClientPrefix n (Name config)).
Proof.
  unfold canAutoExecuteTool, shouldSkipToolForConfig, WhiteList.IsAllowed.
  assert (Hempty : forall l, WhiteList.IsEmpty l = true -> l = []).
  { intros l He. apply bool_decide_eq_true in He. by apply nil_length_inv. }
  destruct (WhiteList.IsEmpty (ToolsToExecute config)) eqn:He; [by rewrite (Hempty _ He)|].
  destruct (WhiteList.IsUnrestricted (ToolsToExecute config)), (WhiteList.Contains (ToolsToExecute config) _); cbn; try done;
    (destruct (WhiteList.IsEmpty (ToolsToAutoExecute config)) eqn:Ha; [by rewrite (Hempty _ Ha)|]);
    by destruct (WhiteList.IsUnrestricted (ToolsToAutoExecute config)).
Qed.

(** The calls that may run without asking. *)
Definition mayRunAlone (read : string -> option string) (ctx : BifrostContext) (clients : list MCPClientState) (call : ToolCall) : Prop :=
  exists n, tc_Name call = Some n /\
  ((exists c, c ∈ clients /\ n ∈ ToolMap c /\
      WhiteList.IsAllowed (ToolsToExecute (ExecutionConfig c)) (stripClientPrefix n (Name (ExecutionConfig c))) = true /\
      WhiteList.IsAllowed (ToolsToAutoExecute (ExecutionConfig c)) (stripClientPrefix n (Name (ExecutionConfig c))) = true) \/
   ((forall c, c ∈ clients -> n ∉ ToolMap c) /\
    (n ∈ [ToolTypeListToolFiles; ToolTypeReadToolFile; ToolTypeGetToolDocs] \/
     n = ToolTypeExecuteToolCode /\ codeMayRun ctx clients (read (tc_Arguments call)) = true))).

Lemma runsAlone_spec read ctx clients call : runsAlone read ctx clients call -> mayRunAlone read ctx clients call.
Proof.
  unfold runsAlone, mayAutoExecute, GetClientForTool. intros Hr. destruct (tc_Name call) as [n|] eqn:Hn; [|done].
  exists n. split; [done|]. destruct (find _ clients) as [c|] eqn:Hf.
  - left. apply find_some in Hf as [Hc%list_elem_of_In Ht%bool_decide_eq_true]. exists c. rewrite canAutoExecuteTool_spec in Hr. apply andb_prop in Hr. tauto.
  - right. split.
    + intros c Hc%list_elem_of_In. eapply find_none in Hf; [|done]. by apply bool_decide_eq_false in Hf.
    + rewrite !elem_of_cons. repeat case_bool_decide; try tauto; done.
Qed.

(** C34. No tool runs unasked: over all rounds of a run, a call that was run is a
    call of the response its round began with, and at that time it named a tool
    that its client's two lists allow to be called and to be called alone, or one
    of the three tools that only read in code mode, or code whose calls passed
    the check.  The calls of the response that were not are those left over, and
    when there are any the round is the last. *)
Theorem agent_runs_permitted d ctx w res rounds ctx' w' :
  executeAgent A E d ctx w = (res, rounds, ctx', w') ->
  (forall r call answer, r ∈ rounds -> (call, answer) ∈ r_answers r ->
    call ∈ extractToolCalls A (r_response r) /\ mayRunAlone (codeArgument E) (r_ctx r) (r_clients r) call) /\
  (forall r, r ∈ rounds -> (fst <$> r_answers r) ++ r_pending r ≡ₚ extractToolCalls A (r_response r)) /\
  (forall k r, rounds !! k = Some r -> r_pending r <> [] -> S k = length rounds).
Proof.
  intros Hx. apply executeAgent_run in Hx. pose proof (run_good _ _ _ _ _ _ _ _ _ Hx) as Hg. rewrite Forall_forall in Hg. split_and!.
  - intros r call answer Hr Hin. destruct (Hg r Hr) as [_ Ha _ Hp].
    apply (list_elem_of_fmap_2 fst) in Hin. rewrite Hp, Ha, list_elem_of_filter in Hin. destruct Hin as [Hal Hin].
    split; [done|]. by apply runsAlone_spec.
  - intros r Hr. destruct (Hg r Hr) as [_ Ha Hpe Hp]. rewrite Hp, Ha, Hpe. apply filter_split_at.
  - intros k r Hk Hne. apply run_pending_last with (k := k) (r := r) in Hx; done.
Qed.
End Loop.

(** ** The chat API *)

Local Abbreviation ChatResp := (BifrostChatResponse (F := F)).

Definition exchanged (r : Round ChatResp BifrostChatRequest) : list ChatMessage :=
  messagesOf (r_response r) ++ resultMessages (r_answers r).

Lemma chat_conversation marshal req initial history rounds :
  foldl (afterRound (chatAPIAdapter (F := F) marshal req initial)) history rounds = history ++ concat (exchanged <$> rounds).
Proof.
  revert history. induction rounds as [|r rounds IH]; intros history; cbn; [by rewrite app_nil_r|].
  rewrite IH. unfold afterRound, exchanged. cbn. by rewrite !(assoc_L (++)).
Qed.

Definition answeredID (m : ChatMessage) : option string := toolMessage ← cm_Tool m; ToolCallID toolMessage.

Lemma resultMessage_id call answer : (forall m, answer = ToolMessage m -> answeredID m = tc_ID call) ->
  answeredID (resultMessage call answer) = tc_ID call.
Proof. intros Hm. destruct answer as [auth text|m|]; cbn; [done|by apply Hm|done]. Qed.

(** C35. What the model is asked in a chat: the request of each round is the
    original one with the same provider, model, fallbacks and parameters, and its
    messages are the original messages followed, for this round and every round
    before it, by the messages of the response and one result for each of its
    calls, whatever steps the goroutines of the round take in whatever order: no
    call is left without a result and no result is added twice.  The result of a
    tool that fails or gives no message carries the ID of its call; a message
    that a tool gives is passed on as it is, so when those carry the IDs of their
    calls, the IDs answered are those of the calls.  The raw body of the original
    request is not sent again; each round begins with the reply to the one before. *)
Theorem agent_conversation (E : Outside (W := W) ChatResp BifrostChatRequest) marshal req initial d ctx w res rounds ctx' w' :
  executeAgent (chatAPIAdapter (F := F) marshal req initial) E d ctx w = (res, rounds, ctx', w') ->
  (forall k r q, rounds !! k = Some r -> r_request r = Some q ->
    let calls := concat (toolCallsOfChoice <$> Choices (r_response r)) in
    q = mkChatRequest (cq_Provider req) (cq_Model req) (cq_Fallbacks req) (cq_Params req)
          (cq_Input req ++ concat (exchanged <$> take (S k) rounds)) None /\
    fst <$> r_answers r ≡ₚ calls /\
    (forall call answer, (call, answer) ∈ r_answers r ->
       match answer with ToolMessage m => resultMessage call answer = m | _ => answeredID (resultMessage call answer) = tc_ID call end) /\
    ((forall call m, (call, ToolMessage m) ∈ r_answers r -> answeredID m = tc_ID call) ->
     answeredID <$> resultMessages (r_answers r) ≡ₚ tc_ID <$> calls)) /\
  (forall k r r' reply, rounds !! k = Some r -> rounds !! S k = Some r' -> r_reply r = Some reply -> r_response r' = reply).
Proof.
  intros Hrun. pose proof (executeAgent_run _ E d ctx w _ _ _ _ Hrun) as Hx. pose proof (run_good _ E _ _ _ _ _ _ _ _ _ Hx) as Hg. rewrite Forall_forall in Hg. split.
  - intros k r q Hk Hq. destruct (run_requests _ E _ _ _ _ _ _ _ _ _ Hx k r q Hk Hq) as (-> & Hp & _).
    rewrite chat_conversation. split; [done|]. destruct (Hg r) as [Hne Ha Hpe Hans]; [by eapply list_elem_of_lookup_2|].
    assert (Hall : fst <$> r_answers r ≡ₚ concat (toolCallsOfChoice <$> Choices (r_response r))).
    { assert (Hall : fst <$> r_answers r ≡ₚ extractToolCallsOfChat (r_response r)).
      { rewrite Hans, Ha. etransitivity; [|apply (filter_split_at (runsAlone (codeArgument E) (r_ctx r) (r_clients r)))].
        rewrite Hpe in Hp. change (extractToolCalls _ (r_response r)) with (extractToolCallsOfChat (r_response r)) in *. by rewrite Hp, app_nil_r. }
      revert Hall Hne. cbn. unfold extractToolCallsOfChat. by destruct (hasToolCallsForChatResponse _). }
    split; [exact Hall|]. split; [by intros call [auth text|m|] _|]. intros Hids.
    rewrite <-Hall. unfold resultMessages. rewrite <-!list_fmap_compose. erewrite list_fmap_ext; [reflexivity|].
    intros i [call answer] Hi. cbn. apply resultMessage_id. intros m Hm. apply (Hids call).
    rewrite <-Hm. by apply (list_elem_of_lookup_2 _ i).
  - intros k r r' reply Hk Hk' Hr. exact (run_chained _ E _ _ _ _ _ _ _ _ _ Hx k r r' reply Hk Hk' Hr).
Qed.
End Theory.

(** ** Witnesses *)

#[local] Instance whole : Amount Z := mkAmount Z 0%Z Z.add Z.leb Z.ltb (fun _ => true).

Definition nowhere : BifrostContext := mkCtx {["request-id" := VString "r1"]} ∅ false.

Definition calendar : MCPClientState :=
  mkClient (mkConfig "1" "calendar" false ["*"] ["list"]) {["calendar-list"; "calendar-drop"]} ∅ MCPConnectionStateHealthy.

Definition callOf (id name : string) : ToolCall := mkToolCall (Some id) (Some name) "{}".

Definition replyWith (calls : list ToolCall) (tokens : Z) : BifrostChatResponse (F := Z) :=
  mkChatResponse "m" None [mkChoice (Some "stop") (Some (mkMessage "assistant" None None (Some calls)))]
    (Some (mkUsage tokens 0 tokens None None None None None None None None None)).

(** A model that asks for two lists, then for one, then for a removal; the
    world counts its calls.  The goroutine started last goes first. *)
Definition asking : Outside (W := nat) (BifrostChatResponse (F := Z)) BifrostChatRequest :=
  mkOutside (fun _ => [calendar]) (fun _ => None) (fun w => ("log", w))
    (fun ctx c w => (ToolMessage (createToolResponseMessage c "monday" false), w)) (fun step _ => if (step <? 3)%nat then 1 else 0)%nat
    None
    (fun ctx _ w => (inl (match w with
                          | O => replyWith [callOf "c" "calendar-list"] 20
                          | _ => replyWith [callOf "d" "calendar-list"; callOf "e" "calendar-drop"] 30
                          end), ctx, S w)).

Definition question : BifrostChatRequest :=
  mkChatRequest "openai" "gpt" [] None [mkMessage "user" (Some (ContentStr "what is on?")) None None] None.

Definition firstReply : BifrostChatResponse (F := Z) := replyWith [callOf "a" "calendar-list"; callOf "b" "calendar-list"] 10.

Definition asked := executeAgent (chatAPIAdapter (F := Z) (fun _ => "results") question firstReply) asking 10 nowhere O.

Lemma asked_eq : executeAgent (chatAPIAdapter (F := Z) (fun _ => "results") question firstReply) asking 10 nowhere O =
  (asked.1.1.1, asked.1.1.2, asked.1.2, asked.2).
Proof. fold asked. by destruct asked as [[[? ?] ?] ?]. Qed.

Lemma agent_ends_witness : (length asked.1.1.2 <= 10)%nat /\ length asked.1.1.2 = 3%nat.
Proof.
  split; [|by vm_compute].
  exact (proj1 (agent_ends (chatAPIAdapter (F := Z) (fun _ => "results") question firstReply) asking 10 nowhere O _ _ _ _ asked_eq)).
Defined.

Lemma agent_runs_permitted_witness :
  exists r, asked.1.1.2 !! 2%nat = Some r /\ (fst <$> r_answers r) ++ r_pending r ≡ₚ [callOf "d" "calendar-list"; callOf "e" "calendar-drop"].
Proof.
  assert (exists r, asked.1.1.2 !! 2%nat = Some r /\ extractToolCallsOfChat (r_response r) = [callOf "d" "calendar-list"; callOf "e" "calendar-drop"])
    as (r & Hr & He) by (eexists; split; [vm_compute; reflexivity|reflexivity]).
  exists r. split; [exact Hr|]. rewrite <-He.
  exact (proj1 (proj2 (agent_runs_permitted (chatAPIAdapter (F := Z) (fun _ => "results") question firstReply) asking 10 nowhere O _ _ _ _ asked_eq))
    r (list_elem_of_lookup_2 _ _ _ Hr)).
Defined.

Lemma agent_conversation_witness :
  exists r q, asked.1.1.2 !! 0%nat = Some r /\ r_request r = Some q /\ length (cq_Input q) = 4%nat /\
    (fst <$> r_answers r) = [callOf "b" "calendar-list"; callOf "a" "calendar-list"] /\
    answeredID <$> resultMessages (r_answers r) ≡ₚ [Some "a"; Some "b"].
Proof.
  assert (exists r q, asked.1.1.2 !! 0%nat = Some r /\ r_request r = Some q /\ length (cq_Input q) = 4%nat /\
    (fst <$> r_answers r) = [callOf "b" "calendar-list"; callOf "a" "calendar-list"] /\
    tc_ID <$> concat (toolCallsOfChoice <$> Choices (r_response r)) = [Some "a"; Some "b"] /\
    Forall (fun p => match p.2 with ToolMessage m => answeredID m = tc_ID p.1 | _ => True end) (r_answers r))
    as (r & q & Hr & Hq & Hl & Hf & Hc & Hm).
  { do 2 eexists. split; [vm_compute; reflexivity|]. split; [reflexivity|]. split; [reflexivity|]. split; [reflexivity|]. split; [reflexivity|].
    repeat constructor. }
  exists r, q. do 4 (split; [done|]). rewrite <-Hc.
  apply (proj1 (agent_conversation asking (fun _ => "results") question firstReply 10 nowhere O _ _ _ _ asked_eq) 0%nat r q Hr Hq).
  intros call m Hin. rewrite Forall_forall in Hm. exact (Hm _ Hin).
Defined.
End McpAgentTheory.
