(* ===== verification/Prices.v ===== *)
(** * Prices (src/framework/modelcatalog/datasheet: types.go, overrides.go, cost.go)

    The rates of a model, the overrides that patch them and their scopes, the
    row of the catalogue that prices a request, and the cost of a call for every
    kind of request.  Prices are of a type with the operations of floats. *)

From S2P Require Import Prelude GoStrings Schemas Windows McpTools McpAgent.
From Stdlib Require Import Ascii.

Local Open Scope string_scope.
Local Open Scope Z_scope.
Local Open Scope list_scope.

Module Prices.
Import Schemas Windows McpAgent.

(** ** Rates *)

(** The fields of [Options], those of a price row. *)
Inductive Rate :=
| InputCostPerToken | OutputCostPerToken | InputCostPerTokenBatches | OutputCostPerTokenBatches
| InputCostPerTokenPriority | OutputCostPerTokenPriority | InputCostPerTokenFlex | OutputCostPerTokenFlex
| InputCostPerTokenFast | OutputCostPerTokenFast | InputCostPerCharacter
| InputCostPerTokenAbove128kTokens | InputCostPerImageAbove128kTokens
| InputCostPerVideoPerSecondAbove128kTokens | InputCostPerAudioPerSecondAbove128kTokens
| OutputCostPerTokenAbove128kTokens | InputCostPerTokenAbove200kTokens
| InputCostPerTokenAbove200kTokensPriority | OutputCostPerTokenAbove200kTokens
| OutputCostPerTokenAbove200kTokensPriority | InputCostPerTokenAbove272kTokens
| InputCostPerTokenAbove272kTokensPriority | InputCostPerTokenFlexAbove272kTokens
| OutputCostPerTokenAbove272kTokens | OutputCostPerTokenAbove272kTokensPriority
| OutputCostPerTokenFlexAbove272kTokens | CacheCreationInputTokenCost | CacheReadInputTokenCost
| CacheCreationInputTokenCostAbove200kTokens | CacheReadInputTokenCostAbove200kTokens
| CacheReadInputTokenCostAbove200kTokensPriority | CacheCreationInputTokenCostAbove1hr
| CacheCreationInputTokenCostAbove1hrAbove200kTokens | CacheCreationInputAudioTokenCost
| CacheReadInputTokenCostPriority | CacheReadInputTokenCostFlex | CacheReadInputImageTokenCost
| CacheReadInputTokenCostAbove272kTokens | CacheReadInputTokenCostAbove272kTokensPriority
| CacheReadInputTokenCostFlexAbove272kTokens | CacheCreationInputTokenCostAbove272kTokens
| CacheCreationInputTokenCostFlex | CacheCreationInputTokenCostFlexAbove272kTokens
| CacheCreationInputTokenCostPriority | CacheCreationInputTokenCostFast
| CacheCreationInputTokenCostAbove1hrFast | CacheReadInputTokenCostFast | InputCostPerImage
| InputCostPerPixel | OutputCostPerImage | OutputCostPerPixel | OutputCostPerImagePremiumImage
| OutputCostPerImageAbove512x512Pixels | OutputCostPerImageAbove512x512PixelsPremium
| OutputCostPerImageAbove1024x1024Pixels | OutputCostPerImageAbove1024x1024PixelsPremium
| OutputCostPerImageAbove2048x2048Pixels | OutputCostPerImageAbove4096x4096Pixels
| OutputCostPerImageLowQuality | OutputCostPerImageMediumQuality | OutputCostPerImageHighQuality
| OutputCostPerImageAutoQuality | InputCostPerImageToken | OutputCostPerImageToken
| InputCostPerAudioToken | InputCostPerAudioPerSecond | InputCostPerSecond | InputCostPerVideoPerSecond
| OutputCostPerAudioToken | OutputCostPerVideoPerSecond | OutputCostPerSecond | SearchContextCostPerQuery
| CodeInterpreterCostPerSession | InferenceGeoUSMultiplier | CostPerRequest | OCRCostPerPage
| AnnotationCostPerPage.

Section Prices.
(** Prices: amounts that are also subtracted and multiplied. *)
Class Price (F : Type) := mkPrice { subPrice : F -> F -> F; mulPrice : F -> F -> F; ofInt : Z -> F }.

Context {F : Type} `{Amount F} `{Price F}.

(** [Options], and the rates of a row: [None] for a [nil] pointer. *)
Definition Options : Type := Rate -> option F.

Definition noRates : Options := fun _ => None.

(** A price row, of which only the rates are read here. *)
Definition TableModelPricing : Type := Options.

(** The loop over all fields. *)
Definition patchPricing (pricing : TableModelPricing) (override : Options) : TableModelPricing :=
  fun rate => match override rate with Some v => Some v | None => pricing rate end.

(** ** Overrides *)

Inductive ScopeKind :=
| Global | ProviderScope | ProviderKey
| VirtualKeyScope | VirtualKeyProvider | VirtualKeyProviderKey
| UserScope | UserProvider | UserProviderKey.

#[export] Instance ScopeKind_eq_dec : EqDecision ScopeKind.
Proof. solve_decision. Defined.

Inductive MatchType := Exact | Wildcard.

#[export] Instance MatchType_eq_dec : EqDecision MatchType.
Proof. solve_decision. Defined.

(** An unknown scope or kind of match is [None]. *)
Record Override := mkOverride {
  o_ID : string; o_ScopeKind : option ScopeKind;
  o_UserID : option string; o_VirtualKeyID : option string; o_ProviderID : option string; o_ProviderKeyID : option string;
  o_MatchType : option MatchType; o_Pattern : string; o_RequestTypes : list RequestType; o_Options : Options;
}.

Record LookupScopes := mkScopes { UserID : string; VirtualKeyID : string; SelectedKeyID : string; ScopeProvider : string }.

Definition noScopes : LookupScopes := mkScopes "" "" "" "".

(** [LookupScopesFromContext]: the values of the two keys, or none. *)
Definition LookupScopesFromContext (virtualKeyID selectedKeyID : option string) (provider : string) : LookupScopes :=
  mkScopes "" (default "" virtualKeyID) (default "" selectedKeyID) provider.

(** *** Kinds of requests *)

Definition normalizeRequestType (reqType : RequestType) : string :=
  if bool_decide (reqType ∈ [TextCompletionRequest; TextCompletionStreamRequest]) then "completion"
  else if bool_decide (reqType ∈ [ChatCompletionRequest; ChatCompletionStreamRequest]) then "chat"
  else if bool_decide (reqType ∈ [ResponsesRequest; ResponsesStreamRequest; WebSocketResponsesRequest; RealtimeRequest; CompactionRequest]) then "responses"
  else if bool_decide (reqType = EmbeddingRequest) then "embedding"
  else if bool_decide (reqType = RerankRequest) then "rerank"
  else if bool_decide (reqType ∈ [SpeechRequest; SpeechStreamRequest]) then "audio_speech"
  else if bool_decide (reqType ∈ [TranscriptionRequest; TranscriptionStreamRequest]) then "audio_transcription"
  else if bool_decide (reqType ∈ [ImageGenerationRequest; ImageGenerationStreamRequest; ImageVariationRequest]) then "image_generation"
  else if bool_decide (reqType ∈ [ImageEditRequest; ImageEditStreamRequest]) then "image_edit"
  else if bool_decide (reqType ∈ [VideoGenerationRequest; VideoRemixRequest]) then "video_generation"
  else if bool_decide (reqType = OCRRequest) then "ocr"
  else if bool_decide (reqType = ContainerCreateRequest) then "container_create"
  else "unknown".

Definition chatResponsesFallbackMode (reqType : RequestType) : option string :=
  if bool_decide (reqType ∈ [ResponsesRequest; ResponsesStreamRequest; WebSocketResponsesRequest; RealtimeRequest; CompactionRequest])
  then Some (normalizeRequestType ChatCompletionRequest)
  else if bool_decide (reqType ∈ [ChatCompletionRequest; ChatCompletionStreamRequest]) then Some (normalizeRequestType ResponsesRequest)
  else None.

Definition normalizeStreamRequestType (rt : RequestType) : RequestType :=
  if bool_decide (rt = TextCompletionStreamRequest) then TextCompletionRequest
  else if bool_decide (rt = ChatCompletionStreamRequest) then ChatCompletionRequest
  else if bool_decide (rt ∈ [ResponsesStreamRequest; WebSocketResponsesRequest]) then ResponsesRequest
  else if bool_decide (rt = RealtimeRequest) then RealtimeRequest
  else if bool_decide (rt = SpeechStreamRequest) then SpeechRequest
  else if bool_decide (rt = TranscriptionStreamRequest) then TranscriptionRequest
  else if bool_decide (rt = ImageGenerationStreamRequest) then ImageGenerationRequest
  else if bool_decide (rt = ImageEditStreamRequest) then ImageEditRequest
  else rt.

(** *** Validation *)

Definition isSet (id : option string) : bool := bool_decide (is_Some id).

Definition validateScopeKind (o : Override) : option string :=
  let u := isSet (o_UserID o) in let v := isSet (o_VirtualKeyID o) in
  let p := isSet (o_ProviderID o) in let k := isSet (o_ProviderKeyID o) in
  match o_ScopeKind o with
  | Some Global => if u || v || p || k then Some "global scope_kind must not include scope identifiers" else None
  | Some UserScope =>
      if negb u then Some "user_id is required for user scope_kind"
      else if v || p || k then Some "user scope_kind only supports user_id" else None
  | Some UserProvider =>
      if negb u || negb p then Some "user_id and provider_id are required for user_provider scope_kind"
      else if v || k then Some "user_provider scope_kind does not support virtual_key_id or provider_key_id" else None
  | Some UserProviderKey =>
      if negb u || negb p || negb k then Some "user_id, provider_id, and provider_key_id are required for user_provider_key scope_kind"
      else if v then Some "user_provider_key scope_kind does not support virtual_key_id" else None
  | Some ProviderScope =>
      if negb p then Some "provider_id is required for provider scope_kind"
      else if u || v || k then Some "provider scope_kind only supports provider_id" else None
  | Some ProviderKey =>
      if negb k then Some "provider_key_id is required for provider_key scope_kind"
      else if u || v || p then Some "provider_key scope_kind only supports provider_key_id" else None
  | Some VirtualKeyScope =>
      if negb v then Some "virtual_key_id is required for virtual_key scope_kind"
      else if u || p || k then Some "virtual_key scope_kind only supports virtual_key_id" else None
  | Some VirtualKeyProvider =>
      if negb v || negb p then Some "virtual_key_id and provider_id are required for virtual_key_provider scope_kind"
      else if u || k then Some "virtual_key_provider scope_kind does not support provider_key_id or user_id" else None
  | Some VirtualKeyProviderKey =>
      if negb v || negb p || negb k then Some "virtual_key_id, provider_id, and provider_key_id are required for virtual_key_provider_key scope_kind"
      else if u then Some "virtual_key_provider_key scope_kind does not support user_id" else None
  | None => Some "unsupported scope_kind"
  end.

(** How often [*] occurs, and what is before a final [*]. *)
Fixpoint stars (s : string) : nat :=
  match s with "" => 0%nat | String c s => ((if Ascii.eqb c "*" then 1 else 0) + stars s)%nat end.

Fixpoint trimStar (s : string) : string :=
  match s with
  | "" => ""
  | String c "" => if Ascii.eqb c "*" then "" else s
  | String c s => String c (trimStar s)
  end.

Definition validatePattern (o : Override) : option string :=
  let pattern := TrimSpace (o_Pattern o) in
  if bool_decide (pattern = "") then Some "pattern is required"
  else match o_MatchType o with
       | Some Exact => if Contains pattern "*" then Some "exact match pattern must not contain wildcards" else None
       | Some Wildcard =>
           if bool_decide (trimStar pattern = pattern) then Some "wildcard pattern must end with *"
           else if negb (Nat.eqb (stars pattern) 1) then Some "wildcard pattern must contain exactly one trailing *"
           else None
       | None => Some "unsupported match_type"
       end.

Fixpoint firstBadRequestType (l : list RequestType) : option string :=
  match l with
  | [] => None
  | rt :: l =>
      if negb (bool_decide (normalizeStreamRequestType rt = rt)) then Some ("unsupported request_type " +:+ Quote rt +:+ ": use the base type (e.g. " +:+ Quote (normalizeStreamRequestType rt) +:+ " covers both streaming and non-streaming)")
      else if bool_decide (normalizeRequestType rt = "unknown") then Some ("unsupported request_type " +:+ Quote rt)
      else firstBadRequestType l
  end.

Definition validateRequestTypes (o : Override) : option string :=
  if bool_decide (o_RequestTypes o = []) then Some "request_types is required and must contain at least one value"
  else firstBadRequestType (o_RequestTypes o).

Definition IsValid (o : Override) : option string :=
  match validateScopeKind o with
  | Some err => Some err
  | None => match validatePattern o with Some err => Some err | None => validateRequestTypes o end
  end.

(** *** Entries and their order *)

Record customPricingEntry := mkPricingEntry {
  id : string; scopeKind : option ScopeKind;
  userID : string; virtualKeyID : string; providerID : string; providerKeyID : string;
  pattern : string; wildcard : bool; requestModes : gset string; options : Options;
}.

(** [exact] by model, [wildcards] with the longest prefix first. *)
Record customPricingData := mkCustom { exact : gmap string (list customPricingEntry); wildcards : list customPricingEntry }.

Definition matchesScope (e : customPricingEntry) (s : LookupScopes) : bool :=
  let u := bool_decide (userID e = UserID s) in let v := bool_decide (virtualKeyID e = VirtualKeyID s) in
  let p := bool_decide (providerID e = ScopeProvider s) in let k := bool_decide (providerKeyID e = SelectedKeyID s) in
  match scopeKind e with
  | Some Global => true
  | Some UserScope => u
  | Some UserProvider => u && p
  | Some UserProviderKey => u && p && k
  | Some ProviderScope => p
  | Some ProviderKey => k
  | Some VirtualKeyScope => v
  | Some VirtualKeyProvider => v && p
  | Some VirtualKeyProviderKey => v && p && k
  | None => false
  end.

Definition matchesMode (e : customPricingEntry) (mode : string) : bool := bool_decide (mode ∈ requestModes e).

Definition scopePriorityOrder (s : LookupScopes) : list ScopeKind :=
  let u := negb (bool_decide (UserID s = "")) in let v := negb (bool_decide (VirtualKeyID s = "")) in
  let p := negb (bool_decide (ScopeProvider s = "")) in let k := negb (bool_decide (SelectedKeyID s = "")) in
  (if v && p && k then [VirtualKeyProviderKey] else []) ++
  (if v && p then [VirtualKeyProvider] else []) ++
  (if v then [VirtualKeyScope] else []) ++
  (if u && p && k then [UserProviderKey] else []) ++
  (if u && p then [UserProvider] else []) ++
  (if u then [UserScope] else []) ++
  (if k then [ProviderKey] else []) ++
  (if p then [ProviderScope] else []) ++
  [Global].

(** The first entry of a list, for a scope, that the request meets. *)
Definition firstOf (model mode : string) (s : LookupScopes) (kind : ScopeKind) (l : list customPricingEntry) : option customPricingEntry :=
  List.find (fun e => bool_decide (scopeKind e = Some kind) && matchesScope e s &&
                      (negb (wildcard e) || HasPrefix model (pattern e)) && matchesMode e mode) l.

Fixpoint resolveIn (c : customPricingData) (model mode : string) (s : LookupScopes) (kinds : list ScopeKind) : option customPricingEntry :=
  match kinds with
  | [] => None
  | kind :: kinds =>
      match firstOf model mode s kind (default [] (exact c !! model)) with
      | Some e => Some e
      | None =>
          match firstOf model mode s kind (wildcards c) with
          | Some e => Some e
          | None => resolveIn c model mode s kinds
          end
      end
  end.

Definition resolve (c : customPricingData) (model mode : string) (s : LookupScopes) : option Options :=
  options <$> resolveIn c model mode s (scopePriorityOrder s).

(** [sort.Slice] on the wildcards, longest prefix first; it is not stable. *)
Variable sortWildcards : list customPricingEntry -> list customPricingEntry.

Definition entryOf (o : Override) : customPricingEntry :=
  let p := TrimSpace (o_Pattern o) in
  let wild := bool_decide (o_MatchType o = Some Wildcard) in
  mkPricingEntry (o_ID o) (o_ScopeKind o) (default "" (o_UserID o)) (default "" (o_VirtualKeyID o)) (default "" (o_ProviderID o))
    (default "" (o_ProviderKeyID o)) (if wild then trimStar p else p) wild (list_to_set (normalizeRequestType <$> o_RequestTypes o)) (o_Options o).

Definition addExact (m : gmap string (list customPricingEntry)) (e : customPricingEntry) : gmap string (list customPricingEntry) :=
  <[pattern e := default [] (m !! pattern e) ++ [e]]> m.

Definition buildCustomPricingData (overrides : list Override) : customPricingData :=
  mkCustom
    (fold_left (fun m o => match o_MatchType o with Some Exact => addExact m (entryOf o) | _ => m end) overrides ∅)
    (sortWildcards (entryOf <$> List.filter (fun o => bool_decide (o_MatchType o = Some Wildcard)) overrides)).

(** ** The overrides in memory *)

(** [pricingData] is keyed by [makeKey]; [customPricing] is [nil] before the
    first load. *)
Record Store := mkStore {
  pricingData : gmap string TableModelPricing;
  rawOverrides : list Override;
  customPricing : option customPricingData;
}.

(** A row of the table: its override, or an error of its JSON. *)
Definition Row : Type := string + Override.

Definition convertTableOverride (row : Row) : result string Override :=
  match row with inl err => Err err | inr o => Ok o end.

(** The last of the rows of an ID, at the place of the first. *)
Fixpoint upsertByID (o : Override) (l : list Override) : list Override :=
  match l with
  | [] => [o]
  | x :: l => if bool_decide (o_ID x = o_ID o) then o :: l else x :: upsertByID o l
  end.

Fixpoint convertAll (rows : list Row) (overrides : list Override) : result string (list Override) :=
  match rows with
  | [] => Ok overrides
  | row :: rows => match convertTableOverride row with Err err => Err err | Ok o => convertAll rows (upsertByID o overrides) end
  end.

Definition setOverrides (s : Store) (l : list Override) : Store := mkStore (pricingData s) l (Some (buildCustomPricingData l)).

Definition SetOverrides (s : Store) (rows : list Row) : option string * Store :=
  match convertAll rows [] with
  | Err err => (Some err, s)
  | Ok overrides => (None, setOverrides s overrides)
  end.

Definition UpsertOverrides (s : Store) (rows : list Row) : option string * Store :=
  match convertAll rows [] with
  | Err err => (Some err, s)
  | Ok overrides =>
      (None, setOverrides s (List.filter (fun o => negb (bool_decide (o_ID o ∈ o_ID <$> overrides))) (rawOverrides s) ++ overrides))
  end.

Definition DeleteOverride (s : Store) (id : string) : Store :=
  setOverrides s (List.filter (fun o => negb (bool_decide (o_ID o = id))) (rawOverrides s)).

Definition applyPricingOverrides (s : Store) (model : string) (requestType : RequestType) (pricing : TableModelPricing)
    (scopes : LookupScopes) : TableModelPricing * bool :=
  match customPricing s with
  | None => (pricing, false)
  | Some custom =>
      let mode := normalizeRequestType requestType in
      if bool_decide (mode = "unknown") then (pricing, false)
      else match resolve custom model mode scopes with
           | Some patch => (patchPricing pricing patch, true)
           | None => (pricing, false)
           end
  end.

(** ** The row of a request *)

Definition makeKey (model provider mode : string) : string := model +:+ "|" +:+ provider +:+ "|" +:+ mode.

Definition IsAnthropicModel (model : string) : bool := Contains model "anthropic." || Contains model "claude".

(** What follows the last slash or colon. *)
Fixpoint afterLastSeparator (s acc : string) : string :=
  match s with
  | "" => acc
  | String c s => if Ascii.eqb c "/" || Ascii.eqb c ":" then afterLastSeparator s s else afterLastSeparator s acc
  end.

Definition isOpenAIReasoningModel (model : string) : bool :=
  match afterLastSeparator model model with
  | String o (String d rest) =>
      Ascii.eqb o "o" && McpTools.isDigit d && match rest with "" => true | String c _ => Ascii.eqb c "-" end
  | _ => false
  end.

Definition IsOpenAIModel (model : string) : bool :=
  Contains model "gpt-" || Contains model "text-embedding-" || isOpenAIReasoningModel model.

Definition IsGemmaModel (model : string) : bool := Contains model "gemma".
Definition IsGeminiModel (model : string) : bool := Contains model "gemini".
Definition IsGrokModel (model : string) : bool := Contains model "grok".
Definition IsAzureModelRouter (model : string) : bool := Contains model "model-router".

Definition vendorPrefix (model : string) : option string :=
  if negb (Contains model "anthropic.") && IsAnthropicModel model then Some "anthropic."
  else if negb (Contains model "openai.") && IsOpenAIModel model then Some "openai."
  else if negb (Contains model "google.") && (IsGemmaModel model || IsGeminiModel model) then Some "google."
  else if negb (Contains model "xai.") && IsGrokModel model then Some "xai."
  else None.

(** A model in its mode, then in the counterpart mode. *)
Definition inModes (model provider mode : string) (fallbackMode : option string) : list string :=
  makeKey model provider mode :: option_list (makeKey model provider <$> fallbackMode).

(** The keys that [getBasePricing] looks up, in order. *)
Definition basePricingKeys (model provider : string) (requestType : RequestType) : list string :=
  let mode := normalizeRequestType requestType in
  let fallbackMode := chatResponsesFallbackMode requestType in
  let provider := if bool_decide (provider = BedrockMantle) then Bedrock else provider in
  [makeKey model provider mode] ++
  (if bool_decide (provider = Gemini) then inModes model "vertex" mode fallbackMode else []) ++
  (if bool_decide (provider = Vertex) then
     match Index model "/" with
     | Some i => inModes (str_drop (S i) model) "vertex" mode fallbackMode
     | None => []
     end
   else []) ++
  (if bool_decide (provider = Bedrock) then
     match vendorPrefix model with
     | Some vendor => inModes (vendor +:+ model) provider mode fallbackMode
     | None => []
     end
   else []) ++
  option_list (makeKey model provider <$> fallbackMode) ++
  (if bool_decide (requestType ∈ [ImageEditRequest; ImageEditStreamRequest; ImageVariationRequest])
   then [makeKey model provider (normalizeRequestType ImageGenerationRequest)] else []) ++
  (if bool_decide (requestType = ContainerCreateRequest) then
     makeKey model provider (normalizeRequestType ChatCompletionRequest) ::
     (if bool_decide (model = "container") then [] else [makeKey "container" provider (normalizeRequestType ChatCompletionRequest)])
   else []).

Fixpoint firstRow (s : Store) (keys : list string) : option TableModelPricing :=
  match keys with
  | [] => None
  | key :: keys => match pricingData s !! key with Some row => Some row | None => firstRow s keys end
  end.

Definition getBasePricing (s : Store) (model provider : string) (requestType : RequestType) : option TableModelPricing :=
  firstRow s (basePricingKeys model provider requestType).

(** The part of [RoutingInfo] that prices read: who served the call. *)
Record Served := mkServed {
  sv_Provider : ModelProvider; sv_Model : string;
  sv_Alias : option (string * option string);
  sv_ServerSideFallbackModel : option string;
}.

Definition aliasModelID (r : Served) : string := match sv_Alias r with Some (modelID, _) => modelID | None => "" end.
Definition aliasModelName (r : Served) : string := match sv_Alias r with Some (_, Some name) => name | _ => "" end.
Definition servedFallback (r : Served) : string := default "" (sv_ServerSideFallbackModel r).

Definition orElse (a b : string) : string := if bool_decide (a = "") then b else a.

Definition overrideKey (r : Served) : string := orElse (orElse (servedFallback r) (aliasModelID r)) (sv_Model r).

Fixpoint firstBase (s : Store) (provider : string) (requestType : RequestType) (candidates : list string) : option TableModelPricing :=
  match candidates with
  | [] => None
  | candidate :: candidates =>
      if bool_decide (candidate = "") then firstBase s provider requestType candidates
      else match getBasePricing s candidate provider requestType with
           | Some base => Some base
           | None => firstBase s provider requestType candidates
           end
  end.

Definition candidates (r : Served) : list string := [servedFallback r; aliasModelName r; aliasModelID r; sv_Model r].

Definition withProvider (scopes : LookupScopes) (provider : string) : LookupScopes :=
  mkScopes (UserID scopes) (VirtualKeyID scopes) (SelectedKeyID scopes) (orElse (ScopeProvider scopes) provider).

Definition resolvePricing (s : Store) (r : Served) (requestType : RequestType) (scopes : LookupScopes) : option TableModelPricing :=
  let scopes := withProvider scopes (sv_Provider r) in
  match firstBase s (sv_Provider r) requestType (candidates r) with
  | Some base => Some (applyPricingOverrides s (overrideKey r) requestType base scopes).1
  | None =>
      let '(pricing, applied) := applyPricingOverrides s (overrideKey r) requestType noRates scopes in
      if applied then Some pricing else None
  end.

(** ** Rates of a request *)

Definition TokenTierAbove272K : Z := 272000.
Definition TokenTierAbove200K : Z := 200000.
Definition TokenTierAbove128K : Z := 128000.

Record serviceTier := mkTier { isPriority : bool; isFlex : bool; isFast : bool; inferenceGeoUS : bool }.

Definition noTier : serviceTier := mkTier false false false false.

(** [strings.EqualFold] is on ASCII text. *)
Definition tierFromResponse (tier speed inferenceGeo : option string) : serviceTier :=
  mkTier (bool_decide (tier = Some "priority")) (bool_decide (tier = Some "flex")) (bool_decide (speed = Some "fast"))
    (bool_decide (ToLower <$> inferenceGeo = Some "us")).

(** The first of some rates that applies and is set. *)
Fixpoint firstRate (pricing : TableModelPricing) (l : list (bool * Rate)) (otherwise : F) : F :=
  match l with
  | [] => otherwise
  | (applies, rate) :: l =>
      match (if applies then pricing rate else None) with
      | Some v => v
      | None => firstRate pricing l otherwise
      end
  end.

Definition above (n tier : Z) : bool := tier <? n.

Definition tieredInputRate (pricing : TableModelPricing) (n : Z) (t : serviceTier) : F :=
  firstRate pricing
    [(isFast t, InputCostPerTokenFast);
     (isFlex t && above n TokenTierAbove272K, InputCostPerTokenFlexAbove272kTokens); (isFlex t, InputCostPerTokenFlex);
     (above n TokenTierAbove272K && isPriority t, InputCostPerTokenAbove272kTokensPriority);
     (above n TokenTierAbove272K, InputCostPerTokenAbove272kTokens);
     (above n TokenTierAbove200K && isPriority t, InputCostPerTokenAbove200kTokensPriority);
     (above n TokenTierAbove200K, InputCostPerTokenAbove200kTokens);
     (above n TokenTierAbove128K, InputCostPerTokenAbove128kTokens);
     (isPriority t, InputCostPerTokenPriority); (true, InputCostPerToken)] zeroAmount.

Definition tieredOutputRate (pricing : TableModelPricing) (n : Z) (t : serviceTier) : F :=
  firstRate pricing
    [(isFast t, OutputCostPerTokenFast);
     (isFlex t && above n TokenTierAbove272K, OutputCostPerTokenFlexAbove272kTokens); (isFlex t, OutputCostPerTokenFlex);
     (above n TokenTierAbove272K && isPriority t, OutputCostPerTokenAbove272kTokensPriority);
     (above n TokenTierAbove272K, OutputCostPerTokenAbove272kTokens);
     (above n TokenTierAbove200K && isPriority t, OutputCostPerTokenAbove200kTokensPriority);
     (above n TokenTierAbove200K, OutputCostPerTokenAbove200kTokens);
     (above n TokenTierAbove128K, OutputCostPerTokenAbove128kTokens);
     (isPriority t, OutputCostPerTokenPriority); (true, OutputCostPerToken)] zeroAmount.

Definition tieredImageInputRate (pricing : TableModelPricing) (n : Z) (t : serviceTier) : F :=
  firstRate pricing [(above n TokenTierAbove128K, InputCostPerImageAbove128kTokens); (true, InputCostPerImageToken)] (tieredInputRate pricing n t).

Definition tieredImageOutputRate (pricing : TableModelPricing) (n : Z) (t : serviceTier) : F :=
  firstRate pricing [(true, OutputCostPerImageToken)] (tieredOutputRate pricing n t).

Definition tieredAudioInputPerSecondRate (pricing : TableModelPricing) (n : Z) : F :=
  firstRate pricing [(above n TokenTierAbove128K, InputCostPerAudioPerSecondAbove128kTokens); (true, InputCostPerAudioPerSecond);
    (true, InputCostPerSecond)] zeroAmount.

Definition tieredVideoInputPerSecondRate (pricing : TableModelPricing) (n : Z) : F :=
  firstRate pricing [(above n TokenTierAbove128K, InputCostPerVideoPerSecondAbove128kTokens); (true, InputCostPerVideoPerSecond)] zeroAmount.

Definition tieredAudioTokenInputRate (pricing : TableModelPricing) (n : Z) (t : serviceTier) : F :=
  firstRate pricing [(true, InputCostPerAudioToken)] (tieredInputRate pricing n t).

Definition tieredAudioTokenOutputRate (pricing : TableModelPricing) (n : Z) (t : serviceTier) : F :=
  firstRate pricing [(true, OutputCostPerAudioToken)] (tieredOutputRate pricing n t).

Definition tieredCacheReadInputTokenRate (pricing : TableModelPricing) (n : Z) (t : serviceTier) : F :=
  firstRate pricing
    [(isFast t, CacheReadInputTokenCostFast);
     (isFlex t && above n TokenTierAbove272K, CacheReadInputTokenCostFlexAbove272kTokens); (isFlex t, CacheReadInputTokenCostFlex);
     (above n TokenTierAbove272K && isPriority t, CacheReadInputTokenCostAbove272kTokensPriority);
     (above n TokenTierAbove272K, CacheReadInputTokenCostAbove272kTokens);
     (above n TokenTierAbove200K && isPriority t, CacheReadInputTokenCostAbove200kTokensPriority);
     (above n TokenTierAbove200K, CacheReadInputTokenCostAbove200kTokens);
     (isPriority t, CacheReadInputTokenCostPriority); (true, CacheReadInputTokenCost)] (tieredInputRate pricing n t).

Definition tieredCacheCreationInputTokenRate (pricing : TableModelPricing) (n : Z) (t : serviceTier) : F :=
  firstRate pricing
    [(isFast t, CacheCreationInputTokenCostFast);
     (isFlex t && above n TokenTierAbove272K, CacheCreationInputTokenCostFlexAbove272kTokens); (isFlex t, CacheCreationInputTokenCostFlex);
     (isPriority t, CacheCreationInputTokenCostPriority);
     (above n TokenTierAbove272K, CacheCreationInputTokenCostAbove272kTokens);
     (above n TokenTierAbove200K, CacheCreationInputTokenCostAbove200kTokens);
     (true, CacheCreationInputTokenCost)] (tieredInputRate pricing n t).

Definition tieredCacheCreationInputAbove1hrTokenRate (pricing : TableModelPricing) (n : Z) (t : serviceTier) : F :=
  firstRate pricing
    [(isFast t, CacheCreationInputTokenCostAbove1hrFast);
     (above n TokenTierAbove200K, CacheCreationInputTokenCostAbove1hrAbove200kTokens);
     (true, CacheCreationInputTokenCostAbove1hr)] (tieredCacheCreationInputTokenRate pricing n t).

(** ** The cost of a kind of request *)

Definition times (n : Z) (rate : F) : F := mulPrice (ofInt n) rate.

(** A price times a number, when it is set; [0.0] otherwise. *)
Definition timesSet (n : Z) (rate : option F) : F := match rate with Some v => times n v | None => zeroAmount end.

Definition clampTo (n limit : Z) : Z := if limit <? n then limit else n.
Definition clampBoth (n limit : Z) : Z := if n <? 0 then 0 else if limit <? n then limit else n.

Definition writtenFor1h (d : ChatPromptTokensDetails) : Z := match CachedWriteTokenDetails d with Some (_, w) => w | None => 0 end.

Definition computeTextCost (pricing : TableModelPricing) (usage : option (BifrostLLMUsage (F := F))) (tier : serviceTier) : F :=
  match usage with
  | None => zeroAmount
  | Some u =>
      let promptTokens := PromptTokens u in
      let completionTokens := CompletionTokens u in
      let details := default zeroPromptDetails (PromptTokensDetails u) in
      let inputRate := tieredInputRate pricing promptTokens tier in
      let outputRate := tieredOutputRate pricing promptTokens tier in
      let cachedReadTokens := clampTo (CachedReadTokens details) promptTokens in
      let cachedWriteTokens := clampTo (CachedWriteTokens details) (promptTokens - cachedReadTokens) in
      let above1hr := clampTo (writtenFor1h details) cachedWriteTokens in
      let inputCost := times (promptTokens - cachedReadTokens - cachedWriteTokens) inputRate in
      let inputCost :=
        if 0 <? cachedReadTokens
        then addAmount inputCost (times cachedReadTokens (tieredCacheReadInputTokenRate pricing promptTokens tier)) else inputCost in
      let inputCost :=
        if 0 <? cachedWriteTokens then
          let inputCost :=
            if 0 <? above1hr
            then addAmount inputCost (times above1hr (tieredCacheCreationInputAbove1hrTokenRate pricing promptTokens tier)) else inputCost in
          addAmount inputCost (times (cachedWriteTokens - above1hr) (tieredCacheCreationInputTokenRate pricing promptTokens tier))
        else inputCost in
      let outputCost := times completionTokens outputRate in
      let inputAudio := clampBoth (pd_AudioTokens details) promptTokens in
      let outputAudio := clampBoth (match CompletionTokensDetails u with Some d => cd_AudioTokens d | None => 0 end) completionTokens in
      let audioCost := zeroAmount in
      let audioCost := match pricing InputCostPerAudioToken with
                       | Some rate => if 0 <? inputAudio then addAmount audioCost (times inputAudio (subPrice rate inputRate)) else audioCost
                       | None => audioCost end in
      let audioCost := match pricing OutputCostPerAudioToken with
                       | Some rate => if 0 <? outputAudio then addAmount audioCost (times outputAudio (subPrice rate outputRate)) else audioCost
                       | None => audioCost end in
      let searchCost := match d ← CompletionTokensDetails u; NumSearchQueries d with
                        | Some queries => timesSet queries (pricing SearchContextCostPerQuery)
                        | None => zeroAmount end in
      let tokenCost := addAmount (addAmount inputCost outputCost) audioCost in
      let tokenCost := match pricing InferenceGeoUSMultiplier with
                       | Some m => if inferenceGeoUS tier then mulPrice tokenCost m else tokenCost
                       | None => tokenCost end in
      addAmount tokenCost searchCost
  end.

Definition computeEmbeddingCost (pricing : TableModelPricing) (usage : option (BifrostLLMUsage (F := F))) (tier : serviceTier) : F :=
  match usage with
  | None => zeroAmount
  | Some u => times (PromptTokens u) (tieredInputRate pricing (PromptTokens u) tier)
  end.

Definition computeRerankCost (pricing : TableModelPricing) (usage : option (BifrostLLMUsage (F := F))) (tier : serviceTier) : F :=
  match usage with
  | None => zeroAmount
  | Some u =>
      let searchCost := match d ← CompletionTokensDetails u; NumSearchQueries d with
                        | Some queries => timesSet queries (pricing SearchContextCostPerQuery)
                        | None => zeroAmount end in
      addAmount (addAmount (times (PromptTokens u) (tieredInputRate pricing (PromptTokens u) tier))
                           (times (CompletionTokens u) (tieredOutputRate pricing (PromptTokens u) tier))) searchCost
  end.

Definition inputTierTokens (usage : option (BifrostLLMUsage (F := F))) : Z := match usage with Some u => PromptTokens u | None => 0 end.

(** [computeAudioOutputCost] and [computeAudioInputCost]: seconds are [None]
    for a [nil] pointer, the details are audio and text tokens. *)
Definition computeAudioOutputCost (pricing : TableModelPricing) (usage : option (BifrostLLMUsage (F := F))) (audioSeconds : option Z)
    (totalTokens : Z) (tier : serviceTier) : F :=
  let completionTokens := match usage with Some u => CompletionTokens u | None => 0 end in
  if 0 <? completionTokens then times completionTokens (tieredAudioTokenOutputRate pricing totalTokens tier)
  else match audioSeconds with
       | Some seconds => if 0 <? seconds then timesSet seconds (pricing OutputCostPerSecond) else zeroAmount
       | None => zeroAmount
       end.

Definition positive (rate : F) : bool := ltAmount zeroAmount rate.

Definition computeAudioInputCost (pricing : TableModelPricing) (usage : option (BifrostLLMUsage (F := F))) (audioSeconds : option Z)
    (audioTokenDetails : option (Z * Z)) (totalTokens : Z) (tier : serviceTier) : F :=
  let promptTokens := inputTierTokens usage in
  let generic :=
    if 0 <? promptTokens then times promptTokens (tieredInputRate pricing totalTokens tier)
    else match audioSeconds with
         | Some seconds =>
             let rate := tieredAudioInputPerSecondRate pricing totalTokens in
             if (0 <? seconds) && positive rate then times seconds rate else zeroAmount
         | None => zeroAmount
         end in
  match audioTokenDetails with
  | Some (audio, text) =>
      if (0 <? audio) || (0 <? text)
      then addAmount (times audio (tieredAudioTokenInputRate pricing totalTokens tier)) (times text (tieredInputRate pricing totalTokens tier))
      else generic
  | None => generic
  end.

Definition computeSpeechCost (pricing : TableModelPricing) (usage : option (BifrostLLMUsage (F := F))) (audioSeconds : option Z)
    (audioTextInputChars : Z) (tier : serviceTier) : F :=
  let tierTokens := inputTierTokens usage in
  let inputCost :=
    if 0 <? audioTextInputChars then
      match pricing InputCostPerCharacter with
      | Some rate => times audioTextInputChars rate
      | None => times audioTextInputChars (tieredInputRate pricing tierTokens tier)
      end
    else if 0 <? tierTokens then times tierTokens (tieredInputRate pricing tierTokens tier) else zeroAmount in
  addAmount inputCost (computeAudioOutputCost pricing usage audioSeconds tierTokens tier).

Definition computeTranscriptionCost (pricing : TableModelPricing) (usage : option (BifrostLLMUsage (F := F))) (audioSeconds : option Z)
    (audioTokenDetails : option (Z * Z)) (tier : serviceTier) : F :=
  let tierTokens := inputTierTokens usage in
  let completionTokens := match usage with Some u => CompletionTokens u | None => 0 end in
  addAmount (computeAudioInputCost pricing usage audioSeconds audioTokenDetails tierTokens tier)
    (if 0 <? completionTokens then times completionTokens (tieredOutputRate pricing tierTokens tier) else zeroAmount).

(** *** Images *)

Record ImageTokenDetails := mkImageDetails { NImages : Z; i_ImageTokens : Z; i_TextTokens : Z }.

Record ImageUsage := mkImageUsage {
  i_InputTokens : Z; i_InputTokensDetails : option ImageTokenDetails; i_TotalTokens : Z;
  i_OutputTokens : Z; i_OutputTokensDetails : option ImageTokenDetails; NumInputImages : Z; i_Cost : option F;
}.

Definition imageOutputTokens (u : ImageUsage) : Z :=
  match i_OutputTokensDetails u with Some d => i_TextTokens d + i_ImageTokens d | None => i_OutputTokens u end.

Definition imageInputTierTokens (u : ImageUsage) : Z :=
  match i_InputTokensDetails u with
  | Some d => i_TextTokens d + i_ImageTokens d
  | None =>
      if 0 <? i_InputTokens u then i_InputTokens u
      else if imageOutputTokens u <? i_TotalTokens u then i_TotalTokens u - imageOutputTokens u else 0
  end.

Definition parseImagePixels (size : string) : Z :=
  match Index size "x" with
  | None => 0
  | Some i =>
      match Atoi (str_take i size), Atoi (str_drop (S i) size) with
      | Some w, Some h => if (w <=? 0) || (h <=? 0) then 0 else wrap64 (w * h)
      | _, _ => 0
      end
  end.

Definition computeImageInputCost (pricing : TableModelPricing) (u : ImageUsage) (totalTokens pixels : Z) (tier : serviceTier) : F :=
  let '(text, image) := match i_InputTokensDetails u with Some d => (i_TextTokens d, i_ImageTokens d) | None => (i_InputTokens u, 0) end in
  if (0 <? text) || (0 <? image)
  then addAmount (times text (tieredInputRate pricing totalTokens tier)) (times image (tieredImageInputRate pricing totalTokens tier))
  else match pricing InputCostPerPixel, (0 <? pixels) && (0 <? NumInputImages u) with
       | Some rate, true => times (wrap64 (pixels * NumInputImages u)) rate
       | _, _ => if 0 <? NumInputImages u then timesSet (NumInputImages u) (pricing InputCostPerImage) else zeroAmount
       end.

(** The rate of an image: by quality, else by size. *)
Definition qualityRate (pricing : TableModelPricing) (quality : string) : option F :=
  let q := orElse quality "auto" in
  if bool_decide (q = "low") then pricing OutputCostPerImageLowQuality
  else if bool_decide (q = "medium") then pricing OutputCostPerImageMediumQuality
  else if bool_decide (q = "high") then pricing OutputCostPerImageHighQuality
  else if bool_decide (q = "auto") then pricing OutputCostPerImageAutoQuality
  else None.

Fixpoint sizeRate (pricing : TableModelPricing) (pixels : Z) (l : list (Z * Rate)) : option F :=
  match l with
  | [] => pricing OutputCostPerImage
  | (side, rate) :: l =>
      match (if side * side <=? pixels then pricing rate else None) with
      | Some v => Some v
      | None => sizeRate pricing pixels l
      end
  end.

Definition perImageRate (pricing : TableModelPricing) (pixels : Z) (quality : string) : option F :=
  match qualityRate pricing quality with
  | Some v => Some v
  | None => sizeRate pricing pixels
      [(4096, OutputCostPerImageAbove4096x4096Pixels); (2048, OutputCostPerImageAbove2048x2048Pixels);
       (1024, OutputCostPerImageAbove1024x1024Pixels); (512, OutputCostPerImageAbove512x512Pixels)]
  end.

Definition computeImageOutputCost (pricing : TableModelPricing) (u : ImageUsage) (totalTokens pixels : Z) (quality : string) (tier : serviceTier) : F :=
  let '(text, image) := match i_OutputTokensDetails u with Some d => (i_TextTokens d, i_ImageTokens d) | None => (0, i_OutputTokens u) end in
  let images := match i_OutputTokensDetails u with Some d => if 0 <? NImages d then NImages d else 1 | None => 1 end in
  if (0 <? text) || (0 <? image)
  then addAmount (times text (tieredOutputRate pricing totalTokens tier)) (times image (tieredImageOutputRate pricing totalTokens tier))
  else match pricing OutputCostPerPixel, 0 <? pixels with
       | Some rate, true => times (wrap64 (pixels * images)) rate
       | _, _ => timesSet images (perImageRate pricing pixels quality)
       end.

Definition computeImageCost (pricing : TableModelPricing) (usage : option ImageUsage) (size quality : string) (tier : serviceTier) : F :=
  match usage with
  | None => zeroAmount
  | Some u =>
      let tierTokens := imageInputTierTokens u in
      let pixels := parseImagePixels size in
      addAmount (computeImageInputCost pricing u tierTokens pixels tier) (computeImageOutputCost pricing u tierTokens pixels quality tier)
  end.

(** *** Video, text recognition and containers *)

Definition computeVideoCost (pricing : TableModelPricing) (usage : option (BifrostLLMUsage (F := F))) (videoSeconds : option Z) (tier : serviceTier) : F :=
  let tierTokens := inputTierTokens usage in
  let completionTokens := match usage with Some u => CompletionTokens u | None => 0 end in
  let seconds := default 0 videoSeconds in
  let inputCost :=
    if 0 <? tierTokens then times tierTokens (tieredInputRate pricing tierTokens tier)
    else if (0 <? seconds) && positive (tieredVideoInputPerSecondRate pricing tierTokens)
    then times seconds (tieredVideoInputPerSecondRate pricing tierTokens) else zeroAmount in
  let outputCost :=
    if 0 <? completionTokens then times completionTokens (tieredOutputRate pricing tierTokens tier)
    else if 0 <? seconds then
      match pricing OutputCostPerVideoPerSecond with
      | Some rate => times seconds rate
      | None => timesSet seconds (pricing OutputCostPerSecond)
      end
    else zeroAmount in
  addAmount inputCost outputCost.

Definition computeOCRCost (pricing : TableModelPricing) (pages : option Z) (annotated : option bool) : F :=
  match pages with
  | None => zeroAmount
  | Some pages =>
      let cost := match pricing OCRCostPerPage with Some rate => addAmount zeroAmount (times pages rate) | None => zeroAmount end in
      match pricing AnnotationCostPerPage with
      | Some rate => if bool_decide (annotated = Some true) then addAmount cost (times pages rate) else cost
      | None => cost
      end
  end.

Definition computeContainerCreationCost (pricing : TableModelPricing) : F := default zeroAmount (pricing CodeInterpreterCostPerSession).

(** ** The cost of a call *)

Record costInput := mkInput {
  ci_usage : option (BifrostLLMUsage (F := F));
  ci_audioTextInputChars : Z; ci_audioSeconds : option Z; ci_audioTokenDetails : option (Z * Z);
  ci_imageUsage : option ImageUsage; ci_imageSize : string; ci_imageQuality : string;
  ci_videoSeconds : option Z; ci_ocrProcessedPages : option Z; ci_ocrIsAnnotated : option bool;
  ci_container : string; ci_tier : serviceTier;
}.

Definition usageOnly (u : BifrostLLMUsage (F := F)) (tier : serviceTier) : costInput :=
  mkInput (Some u) 0 None None None "" "" None None None "" tier.

(** The cost by kind of request; [None] for a kind that is not billed. *)
Definition costOfKind (pricing : TableModelPricing) (input : costInput) (requestType : RequestType) : option F :=
  if bool_decide (requestType ∈ [ChatCompletionRequest; TextCompletionRequest; ResponsesRequest; RealtimeRequest; CompactionRequest])
  then Some (computeTextCost pricing (ci_usage input) (ci_tier input))
  else if bool_decide (requestType = EmbeddingRequest) then Some (computeEmbeddingCost pricing (ci_usage input) (ci_tier input))
  else if bool_decide (requestType = RerankRequest) then Some (computeRerankCost pricing (ci_usage input) (ci_tier input))
  else if bool_decide (requestType = SpeechRequest)
  then Some (computeSpeechCost pricing (ci_usage input) (ci_audioSeconds input) (ci_audioTextInputChars input) (ci_tier input))
  else if bool_decide (requestType = TranscriptionRequest)
  then Some (computeTranscriptionCost pricing (ci_usage input) (ci_audioSeconds input) (ci_audioTokenDetails input) (ci_tier input))
  else if bool_decide (requestType ∈ [ImageGenerationRequest; ImageEditRequest; ImageVariationRequest])
  then Some (computeImageCost pricing (ci_imageUsage input) (ci_imageSize input) (ci_imageQuality input) (ci_tier input))
  else if bool_decide (requestType ∈ [VideoGenerationRequest; VideoRemixRequest])
  then Some (computeVideoCost pricing (ci_usage input) (ci_videoSeconds input) (ci_tier input))
  else if bool_decide (requestType = OCRRequest) then Some (computeOCRCost pricing (ci_ocrProcessedPages input) (ci_ocrIsAnnotated input))
  else if bool_decide (requestType = ContainerCreateRequest) then Some (computeContainerCreationCost pricing)
  else None.

Definition computeCostFromInput (s : Store) (input : costInput) (r : Served) (requestType : RequestType) (scopes : LookupScopes) : F :=
  let r := if bool_decide (ci_container input = "") then r else mkServed (sv_Provider r) (ci_container input) None None in
  match resolvePricing s r requestType scopes with
  | None => zeroAmount
  | Some pricing =>
      match costOfKind pricing input requestType with
      | None => zeroAmount
      | Some cost => match pricing CostPerRequest with Some fee => addAmount cost fee | None => cost end
      end
  end.

(** The cost that a provider reports, when it is positive. *)
Definition reportedCost (cost : option F) : option F := c ← cost; if positive c then Some c else None.

Definition CalculateCostForUsage (s : Store) (usage : option (BifrostLLMUsage (F := F))) (provider model : string) (requestType : RequestType)
    (scopes : option LookupScopes) : F :=
  match usage with
  | None => zeroAmount
  | Some u =>
      match reportedCost (TotalCost <$> u_Cost u) with
      | Some cost => cost
      | None =>
          computeCostFromInput s (usageOnly u (tierFromResponse None (Speed u) (InferenceGeo u)))
            (mkServed provider model None (ServerSideFallbackModel u)) (normalizeStreamRequestType requestType) (default noScopes scopes)
      end
  end.

(** *** Guardrails and the semantic cache *)

Record BifrostGuardrailJudgeCall := mkJudge {
  JudgeProvider : ModelProvider; JudgeModel : string; JudgeRequestType : RequestType;
  j_PromptTokens : Z; j_PromptTokensDetails : option ChatPromptTokensDetails;
  j_CompletionTokens : Z; j_CompletionTokensDetails : option ChatCompletionTokensDetails; j_TotalTokens : Z;
}.

Definition computeGuardrailJudgeCost (s : Store) (call : BifrostGuardrailJudgeCall) (scopes : option LookupScopes) : F :=
  if bool_decide (JudgeProvider call = "") || bool_decide (JudgeModel call = "") then zeroAmount
  else
    CalculateCostForUsage s
      (Some (mkUsage (j_PromptTokens call) (j_CompletionTokens call) (j_TotalTokens call) (j_PromptTokensDetails call)
        (j_CompletionTokensDetails call) None None None None None None None))
      (JudgeProvider call) (JudgeModel call) (orElse (JudgeRequestType call) ChatCompletionRequest)
      (Some (mkScopes "" (match scopes with Some sc => VirtualKeyID sc | None => "" end) "" (JudgeProvider call))).

Definition CalculateGuardrailCost (s : Store) (judgeCalls : list BifrostGuardrailJudgeCall) (scopes : option LookupScopes) : F :=
  fold_left (fun total call => addAmount total (computeGuardrailJudgeCost s call scopes)) judgeCalls zeroAmount.

Record BifrostCacheDebug := mkCacheDebug {
  CacheHit : bool; HitType : option string;
  ProviderUsed : option string; ModelUsed : option string; InputTokens : option Z;
}.

Definition computeCacheEmbeddingCost (s : Store) (d : BifrostCacheDebug) (scopes : LookupScopes) : F :=
  match ProviderUsed d, ModelUsed d, InputTokens d with
  | Some provider, Some model, Some tokens =>
      match resolvePricing s (mkServed provider model None None) EmbeddingRequest (withProvider scopes provider) with
      | Some pricing => times tokens (tieredInputRate pricing tokens noTier)
      | None => zeroAmount
      end
  | _, _, _ => zeroAmount
  end.

(** *** The cost of a response *)

(** A response as far as it is billed: [ExtraFields], what [extractCostInput]
    reads, the usage of a passthrough, and the model of its body. *)
Record PassthroughUsage := mkPassthrough {
  pt_Container : string; pt_HasImageUsage : bool; pt_AudioInputChars : Z; pt_HasAudioTokenDetails : bool; pt_HasAudioSeconds : bool; pt_HasVideoSeconds : bool;
}.

Record Response := mkResponse {
  RoutingInfoOf : Served; x_Provider : ModelProvider; OriginalModelRequested : string; ResolvedModelUsed : string;
  x_RequestType : RequestType; PassthroughPath : string;
  CacheDebug : option BifrostCacheDebug; GuardrailDebug : option (list BifrostGuardrailJudgeCall);
  extracted : costInput; Passthrough : option (option PassthroughUsage); bodyModel : string;
}.

(** [RoutingInfo], or one made from the deprecated fields. *)
Definition routingInfoOf (r : Response) : Served :=
  let ri := RoutingInfoOf r in
  if bool_decide (sv_Provider ri = "") && bool_decide (sv_Model ri = "") && bool_decide (sv_Alias ri = None) then
    mkServed (x_Provider r) (OriginalModelRequested r)
      (if bool_decide (ResolvedModelUsed r = "") || bool_decide (ResolvedModelUsed r = OriginalModelRequested r) then None
       else Some (ResolvedModelUsed r, None)) (sv_ServerSideFallbackModel ri)
  else ri.

Definition HasSuffix (s suffix : string) : bool :=
  Nat.leb (String.length suffix) (String.length s) && bool_decide (str_drop (String.length s - String.length suffix) s = suffix).

Fixpoint trimRightSlash (s : string) : string :=
  match s with
  | "" => ""
  | String c s => match trimRightSlash s with "" => if Ascii.eqb c "/" then "" else String c "" | s => String c s end
  end.

Fixpoint firstSuffix (path : string) (l : list (string * RequestType)) (otherwise : RequestType) : RequestType :=
  match l with
  | [] => otherwise
  | (suffix, rt) :: l => if HasSuffix path suffix then rt else firstSuffix path l otherwise
  end.

Definition detectPassthroughRequestType (provider : ModelProvider) (path : string) : RequestType :=
  let path := match Index path "?" with Some i => str_take i path | None => path end in
  let path := trimRightSlash path in
  if bool_decide (provider ∈ [OpenAI; Azure]) then
    firstSuffix path
      [("/chat/completions", ChatCompletionRequest); ("/completions", TextCompletionRequest); ("/embeddings", EmbeddingRequest);
       ("/responses/compact", CompactionRequest); ("/responses", ResponsesRequest); ("/images/generations", ImageGenerationRequest);
       ("/images/edits", ImageEditRequest); ("/images/variations", ImageVariationRequest); ("/audio/speech", SpeechRequest);
       ("/audio/transcriptions", TranscriptionRequest); ("/audio/translations", TranscriptionRequest); ("/containers", ContainerCreateRequest)]
      (if Contains path "/video" then VideoGenerationRequest else ChatCompletionRequest)
  else if bool_decide (provider ∈ [Gemini; Vertex]) then
    if Contains path "/interactions" then ResponsesRequest
    else match LastIndex path ":" with
         | None => ChatCompletionRequest
         | Some i =>
             let action := str_drop (S i) path in
             if bool_decide (action ∈ ["generateContent"; "streamGenerateContent"]) then ResponsesRequest
             else if bool_decide (action ∈ ["embedContent"; "batchEmbedContents"]) then EmbeddingRequest
             else if bool_decide (action = "generateImages") then ImageGenerationRequest
             else if bool_decide (action = "predict") then EmbeddingRequest
             else if bool_decide (action = "predictLongRunning") then VideoGenerationRequest
             else ChatCompletionRequest
         end
  else if bool_decide (provider = Anthropic) then
    if HasSuffix path "/messages" then ResponsesRequest else if HasSuffix path "/complete" then TextCompletionRequest else ResponsesRequest
  else ChatCompletionRequest.

Definition inferPassthroughRequestType (provider : ModelProvider) (path : string) (usage : option PassthroughUsage) : RequestType :=
  let byPath := detectPassthroughRequestType provider path in
  match usage with
  | None => byPath
  | Some u =>
      if negb (bool_decide (pt_Container u = "")) then ContainerCreateRequest
      else if pt_HasImageUsage u then ImageGenerationRequest
      else if 0 <? pt_AudioInputChars u then SpeechRequest
      else if pt_HasAudioTokenDetails u || pt_HasAudioSeconds u then TranscriptionRequest
      else if pt_HasVideoSeconds u then VideoGenerationRequest
      else byPath
  end.

(** Nothing that could be priced. *)
Definition noUsage (i : costInput) : bool :=
  bool_decide (ci_usage i = None) && bool_decide (ci_audioSeconds i = None) && bool_decide (ci_audioTokenDetails i = None) &&
  bool_decide (ci_imageUsage i = None) && bool_decide (ci_videoSeconds i = None) && (ci_audioTextInputChars i =? 0) &&
  bool_decide (ci_ocrProcessedPages i = None) && bool_decide (ci_container i = "").

Definition calculateAzureModelRouterCost (s : Store) (r : Response) (ri : Served) (requestType : RequestType) (scopes : LookupScopes) : F :=
  let requestType := if bool_decide (requestType = TextCompletionRequest) then ChatCompletionRequest else requestType in
  let cost := computeCostFromInput s (extracted r) ri requestType scopes in
  if bool_decide (bodyModel r = "") || bool_decide (bodyModel r = sv_Model ri) then cost
  else addAmount cost (computeCostFromInput s (extracted r) (mkServed (sv_Provider ri) (bodyModel r) None None) requestType scopes).

Definition calculateBaseCost (s : Store) (r : Response) (scopes : LookupScopes) : F :=
  let ri := routingInfoOf r in
  let input := extracted r in
  match reportedCost (u ← ci_usage input; TotalCost <$> u_Cost u), reportedCost (u ← ci_imageUsage input; i_Cost u) with
  | Some cost, _ => cost
  | None, Some cost => cost
  | None, None =>
      if noUsage input then zeroAmount
      else match Passthrough r with
           | Some usage => computeCostFromInput s input ri (inferPassthroughRequestType (sv_Provider ri) (PassthroughPath r) usage) scopes
           | None =>
               let requestType := normalizeStreamRequestType (x_RequestType r) in
               if bool_decide (sv_Provider ri = Azure) && IsAzureModelRouter (sv_Model ri) &&
                  bool_decide (requestType ∈ [TextCompletionRequest; ChatCompletionRequest; ResponsesRequest])
               then calculateAzureModelRouterCost s r ri requestType scopes
               else computeCostFromInput s input ri requestType scopes
           end
  end.

Definition calculateCostWithCache (s : Store) (r : Response) (d : BifrostCacheDebug) (scopes : LookupScopes) : F :=
  if CacheHit d then
    if bool_decide (HitType d = Some "direct") then zeroAmount else computeCacheEmbeddingCost s d scopes
  else addAmount (calculateBaseCost s r scopes) (computeCacheEmbeddingCost s d scopes).

Definition CalculateCost (s : Store) (result : option Response) (scopes : option LookupScopes) : F :=
  match result with
  | None => zeroAmount
  | Some r =>
      let scopes := default noScopes scopes in
      let requestCost := match CacheDebug r with
                         | Some d => calculateCostWithCache s r d scopes
                         | None => calculateBaseCost s r scopes end in
      match GuardrailDebug r with
      | None => requestCost
      | Some calls => addAmount requestCost (CalculateGuardrailCost s calls (Some scopes))
      end
  end.
End Prices.
End Prices.
