(* ===== verification/PricesTheory.v ===== *)
(** * What holds of prices

    The override that patches a row is the best of those that match, the
    overrides in memory are a table by ID, and every token of a text request is
    billed once, at the rate of its kind. *)

From S2P Require Import Prelude GoStrings Schemas Windows McpTools McpAgent Prices.
From Stdlib Require Import Ascii Ring Sorted.

Local Open Scope string_scope.
Local Open Scope Z_scope.
Local Open Scope list_scope.

Module PricesTheory.
Import Schemas Windows McpAgent Prices.

Section Overrides.
Context {F : Type} `{Amount F} `{Price F}.

(** ** The order of overrides *)

Definition scopeRank (kind : ScopeKind) : nat :=
  match kind with
  | VirtualKeyProviderKey => 0 | VirtualKeyProvider => 1 | VirtualKeyScope => 2
  | UserProviderKey => 3 | UserProvider => 4 | UserScope => 5
  | ProviderKey => 6 | ProviderScope => 7 | Global => 8
  end.

Lemma scopePriorityOrder_sorted s : StronglySorted (fun k k' => (scopeRank k < scopeRank k')%nat) (scopePriorityOrder s).
Proof. unfold scopePriorityOrder. repeat case_bool_decide; cbn; repeat constructor. Qed.

Definition isWildcard (o : Override (F := F)) : bool := bool_decide (o_MatchType o = Some Wildcard).

(** The model is the pattern of an override, or begins with it. *)
Definition patternMeets (o : Override (F := F)) (model : string) : Prop :=
  match o_MatchType o with
  | Some Exact => TrimSpace (o_Pattern o) = model
  | Some Wildcard => HasPrefix model (trimStar (TrimSpace (o_Pattern o))) = true
  | None => False
  end.

(** An override is for a request: its scope is one of those asked for, with
    the same identifiers, and it names the kind of request and the model. *)
Definition meets (o : Override (F := F)) (model mode : string) (s : LookupScopes) : Prop :=
  (exists kind, o_ScopeKind o = Some kind /\ kind ∈ scopePriorityOrder s) /\
  matchesScope (entryOf o) s = true /\ mode ∈ normalizeRequestType <$> o_RequestTypes o /\ patternMeets o model.

(** By scope, then exact before wildcards, then by the length of the prefix. *)
Definition notWorse (o o' : Override (F := F)) : Prop :=
  match o_ScopeKind o, o_ScopeKind o' with
  | Some k, Some k' =>
      (scopeRank k < scopeRank k')%nat \/
      k = k' /\
      (isWildcard o = false \/
       isWildcard o' = true /\ (String.length (trimStar (TrimSpace (o_Pattern o'))) <= String.length (trimStar (TrimSpace (o_Pattern o))))%nat)
  | _, _ => False
  end.

Lemma find_sorted {A} (R : A -> A -> Prop) (f : A -> bool) l x y :
  StronglySorted R l -> List.find f l = Some x -> y ∈ l -> f y = true -> x = y \/ R x y.
Proof.
  induction 1 as [|z l Hl IH Hz]; cbn; [done|]. destruct (f z) eqn:Hf.
  - intros [= ->] [->|Hy]%elem_of_cons _; [by left|right]. rewrite List.Forall_forall in Hz. by apply Hz, list_elem_of_In.
  - intros Hx [->|Hy]%elem_of_cons Hfy; [congruence|]. by apply IH.
Qed.

Variable sortWildcards : list (customPricingEntry (F := F)) -> list (customPricingEntry (F := F)).
Hypothesis sort_permutes : forall l, sortWildcards l ≡ₚ l.
Hypothesis sort_sorts : forall l, StronglySorted (fun e e' => (String.length (pattern e') <= String.length (pattern e))%nat) (sortWildcards l).

Local Abbreviation build := (buildCustomPricingData sortWildcards).

Lemma exact_entries l model e :
  e ∈ default [] (exact (build l) !! model) <-> exists o, o ∈ l /\ o_MatchType o = Some Exact /\ entryOf o = e /\ pattern e = model.
Proof.
  cbn. assert (Hgen : forall m, e ∈ default [] (fold_left (fun m o => match o_MatchType o with Some Exact => addExact m (entryOf o) | _ => m end) l m !! model) <->
    e ∈ default [] (m !! model) \/ exists o, o ∈ l /\ o_MatchType o = Some Exact /\ entryOf o = e /\ pattern e = model).
  { induction l as [|o l IH]; intros m; cbn.
    - split; [by left|]. intros [|(o & Ho & _)]; [done|]. by apply elem_of_nil in Ho.
    - rewrite IH. setoid_rewrite elem_of_cons. destruct (o_MatchType o) as [[]|] eqn:Hm.
      + unfold addExact. destruct (decide (pattern (entryOf o) = model)) as [<-|Hp].
        * rewrite lookup_insert_eq. cbn. rewrite elem_of_app, list_elem_of_singleton. split.
          -- intros [[?| ->]|(o' & ? & ?)]; [by left|right; exists o; auto|right; exists o'; intuition].
          -- intros [?|(o' & [->|?] & Hm' & <- & ?)]; [by left; left|by left; right|right; exists o'; auto].
        * rewrite lookup_insert_ne by done. split.
          -- intros [?|(o' & ? & ?)]; [by left|right; exists o'; auto].
          -- intros [?|(o' & [->|?] & Hm' & <- & ?)]; [by left|done|right; exists o'; auto].
      + split; [intros [?|(o' & ? & ?)]; [by left|right; exists o'; auto]|]. intros [?|(o' & [->|?] & Hm' & ?)]; [by left|congruence|right; exists o'; auto].
      + split; [intros [?|(o' & ? & ?)]; [by left|right; exists o'; auto]|]. intros [?|(o' & [->|?] & Hm' & ?)]; [by left|congruence|right; exists o'; auto]. }
  rewrite Hgen, lookup_empty. cbn. split; [intros [?%elem_of_nil|?]; done|by right].
Qed.

Lemma wildcard_entries l e : e ∈ wildcards (build l) <-> exists o, o ∈ l /\ o_MatchType o = Some Wildcard /\ entryOf o = e.
Proof.
  cbn. rewrite sort_permutes, list_elem_of_fmap. split.
  - intros (o & -> & Ho). rewrite list_elem_of_In, filter_In, <-list_elem_of_In in Ho. destruct Ho as [Ho Hm]. exists o. split; [done|]. split; [by apply bool_decide_eq_true in Hm|done].
  - intros (o & Ho & Hm & <-). exists o. split; [done|]. rewrite list_elem_of_In, filter_In, <-list_elem_of_In. split; [done|]. by apply bool_decide_eq_true.
Qed.

Section Resolve.
Variables (l : list (Override (F := F))) (model mode : string) (s : LookupScopes).

(** An override of one of some scopes that is for the request. *)
Definition meetsIn (kinds : list ScopeKind) (o : Override (F := F)) : Prop :=
  (exists kind, o_ScopeKind o = Some kind /\ kind ∈ kinds) /\
  matchesScope (entryOf o) s = true /\ mode ∈ normalizeRequestType <$> o_RequestTypes o /\ patternMeets o model.

Definition passes (kind : ScopeKind) (e : customPricingEntry (F := F)) : bool :=
  bool_decide (scopeKind e = Some kind) && matchesScope e s && (negb (wildcard e) || HasPrefix model (pattern e)) && matchesMode e mode.

Lemma passes_entry kind o : passes kind (entryOf o) = true <->
  o_ScopeKind o = Some kind /\ matchesScope (entryOf o) s = true /\ mode ∈ normalizeRequestType <$> o_RequestTypes o /\
  (o_MatchType o = Some Wildcard -> patternMeets o model).
Proof.
  unfold passes, matchesMode, patternMeets. rewrite !andb_true_iff, !bool_decide_eq_true, orb_true_iff, negb_true_iff. cbn [entryOf scopeKind wildcard pattern requestModes].
  rewrite elem_of_list_to_set. destruct (decide (o_MatchType o = Some Wildcard)) as [Hm|Hm].
  - rewrite Hm, bool_decide_eq_true_2 by done. naive_solver.
  - rewrite (bool_decide_eq_false_2 _ Hm). naive_solver.
Qed.

Lemma firstOf_find kind l' : firstOf model mode s kind l' = List.find (passes kind) l'.
Proof. done. Qed.

(** What the two lists give for a scope. *)
Lemma exact_for kind : match firstOf model mode s kind (default [] (exact (build l) !! model)) with
  | Some e => exists o, o ∈ l /\ entryOf o = e /\ o_MatchType o = Some Exact /\ o_ScopeKind o = Some kind /\ meetsIn [kind] o
  | None => forall o, o ∈ l -> o_MatchType o = Some Exact -> ~ meetsIn [kind] o
  end.
Proof.
  rewrite firstOf_find. destruct (List.find (passes kind) _) as [e|] eqn:Hf.
  - apply List.find_some in Hf as [Hin Hp]. apply list_elem_of_In, exact_entries in Hin as (o & Ho & Hm & <- & Hpat).
    apply passes_entry in Hp as (Hk & Hs & Hmo & _). exists o. split_and!; try done. split; [exists kind; split; [done|by left]|]. split_and!; try done.
    unfold patternMeets. rewrite Hm. unfold entryOf in Hpat. cbn in Hpat. by rewrite Hm in Hpat.
  - intros o Ho Hm ((k & Hk & Hin) & Hs & Hmo & Hpat). apply list_elem_of_singleton in Hin as ->.
    assert (Hx : passes kind (entryOf o) = false).
    { apply (List.find_none _ _ Hf), list_elem_of_In, exact_entries. exists o. split_and!; try done.
      unfold patternMeets in Hpat. rewrite Hm in Hpat. unfold entryOf. cbn. by rewrite Hm. }
    apply not_true_iff_false in Hx. apply Hx, passes_entry. by split_and!.
Qed.

Lemma wildcard_for kind : match firstOf model mode s kind (wildcards (build l)) with
  | Some e => exists o, o ∈ l /\ entryOf o = e /\ o_MatchType o = Some Wildcard /\ o_ScopeKind o = Some kind /\ meetsIn [kind] o /\
      forall o', o' ∈ l -> o_MatchType o' = Some Wildcard -> meetsIn [kind] o' ->
        (String.length (trimStar (TrimSpace (o_Pattern o'))) <= String.length (trimStar (TrimSpace (o_Pattern o))))%nat
  | None => forall o, o ∈ l -> o_MatchType o = Some Wildcard -> ~ meetsIn [kind] o
  end.
Proof.
  assert (Hin' : forall o, o ∈ l -> o_MatchType o = Some Wildcard -> entryOf o ∈ wildcards (build l)) by (intros o Ho Hm; apply wildcard_entries; by exists o).
  assert (Hps : forall o, meetsIn [kind] o -> passes kind (entryOf o) = true).
  { intros o ((k & Hk & Hin) & Hs & Hmo & Hpat). apply list_elem_of_singleton in Hin as ->. by apply passes_entry. }
  assert (Hpo : forall o : Override (F := F), o_MatchType o = Some Wildcard -> pattern (entryOf o) = trimStar (TrimSpace (o_Pattern o))) by (intros o Hm; unfold entryOf; cbn; by rewrite Hm).
  rewrite firstOf_find. destruct (List.find (passes kind) _) as [e|] eqn:Hf.
  - pose proof Hf as [Hin Hp]%List.find_some. apply list_elem_of_In, wildcard_entries in Hin as (o & Ho & Hm & <-).
    apply passes_entry in Hp as (Hk & Hs & Hmo & Hpat). exists o. split_and!; try done.
    + split; [exists kind; split; [done|by left]|]. split_and!; try done. by apply Hpat.
    + intros o' Ho' Hm' Hx. rewrite <-!Hpo by done.
      destruct (find_sorted _ _ _ _ (entryOf o') (sort_sorts _) Hf (Hin' _ Ho' Hm') (Hps _ Hx)) as [<-|]; [lia|done].
  - intros o Ho Hm Hx. specialize (Hin' o Ho Hm). apply list_elem_of_In in Hin'. pose proof (List.find_none _ _ Hf _ Hin') as Hy. by rewrite Hps in Hy.
Qed.

Lemma resolveIn_spec kinds : StronglySorted (fun k k' => (scopeRank k < scopeRank k')%nat) kinds ->
  match resolveIn (build l) model mode s kinds with
  | Some e => exists o, o ∈ l /\ entryOf o = e /\ meetsIn kinds o /\ forall o', o' ∈ l -> meetsIn kinds o' -> notWorse o o'
  | None => forall o, o ∈ l -> ~ meetsIn kinds o
  end.
Proof.
  assert (Hcons : forall kind kinds o, meetsIn (kind :: kinds) o <-> meetsIn [kind] o \/ meetsIn kinds o).
  { intros kind ks o. unfold meetsIn. setoid_rewrite elem_of_cons. setoid_rewrite elem_of_nil. naive_solver. }
  assert (Htype : forall kind o, meetsIn [kind] o -> o_ScopeKind o = Some kind /\ (o_MatchType o = Some Exact \/ o_MatchType o = Some Wildcard)).
  { intros kind o ((k & Hk & Hin) & _ & _ & Hp). apply list_elem_of_singleton in Hin as ->. split; [done|]. unfold patternMeets in Hp. destruct (o_MatchType o) as [[]|]; [by left|by right|done]. }
  induction 1 as [|kind kinds Hs IH Hlt]; cbn [resolveIn].
  { intros o _ ((k & _ & Hk) & _). by apply elem_of_nil in Hk. }
  assert (Hworse : forall o o', o_ScopeKind o = Some kind -> meetsIn kinds o' -> notWorse o o').
  { intros o o' Hk ((k' & Hk' & Hin') & _). unfold notWorse. rewrite Hk, Hk'. left. rewrite List.Forall_forall in Hlt. by apply Hlt, list_elem_of_In. }
  pose proof (exact_for kind) as He. destruct (firstOf model mode s kind (default [] _)) as [e|].
  { destruct He as (o & Ho & He & Hm & Hk & Hx). exists o. split_and!; [done|done|by apply Hcons; left|]. intros o' Ho' [Hx'|Hx']%Hcons; [|by apply Hworse].
    destruct (Htype _ _ Hx') as [Hk' _]. unfold notWorse. rewrite Hk, Hk'. right. split; [done|]. left. unfold isWildcard. by rewrite Hm. }
  pose proof (wildcard_for kind) as Hw. destruct (firstOf model mode s kind (wildcards _)) as [e|].
  { destruct Hw as (o & Ho & Hw & Hm & Hk & Hx & Hlen). exists o. split_and!; [done|done|by apply Hcons; left|]. intros o' Ho' [Hx'|Hx']%Hcons; [|by apply Hworse].
    destruct (Htype _ _ Hx') as [Hk' [Hm'|Hm']]; [by destruct (He o' Ho' Hm')|]. unfold notWorse. rewrite Hk, Hk'. right. split; [done|]. right.
    split; [unfold isWildcard; by rewrite Hm'|by apply Hlen]. }
  destruct (resolveIn (build l) model mode s kinds) as [e|].
  - destruct IH as (o & Ho & Heo & Hx & Hb). exists o. split_and!; [done|done|by apply Hcons; right|]. intros o' Ho' [Hx'|Hx']%Hcons; [|by apply Hb].
    destruct (Htype _ _ Hx') as [_ [Hm'|Hm']]; [by destruct (He o' Ho' Hm')|by destruct (Hw o' Ho' Hm')].
  - intros o' Ho' [Hx'|Hx']%Hcons; [|by apply (IH o')]. destruct (Htype _ _ Hx') as [_ [Hm'|Hm']]; [by apply (He o')|by apply (Hw o')].
Qed.
End Resolve.

(** The best override that is for a request is the one that is found. *)
Lemma best_of_overrides l model mode s :
  match resolve (build l) model mode s with
  | Some patch => exists o, o ∈ l /\ o_Options o = patch /\ meets o model mode s /\
      forall o', o' ∈ l -> meets o' model mode s -> notWorse o o'
  | None => forall o, o ∈ l -> ~ meets o model mode s
  end.
Proof.
  unfold resolve. pose proof (resolveIn_spec l model mode s _ (scopePriorityOrder_sorted s)) as Hr.
  destruct (resolveIn (build l) model mode s (scopePriorityOrder s)) as [e|]; [|exact Hr].
  destruct Hr as (o & Ho & <- & Hx & Hb). by exists o.
Qed.
End Overrides.

(** ** The overrides in memory are a table by ID *)

Section Table.
Context {F : Type} `{Amount F} `{Price F}.
Variable sortWildcards : list (customPricingEntry (F := F)) -> list (customPricingEntry (F := F)).

Inductive Edit := Set_ (rows : list (Row (F := F))) | Upsert (rows : list (Row (F := F))) | Delete (id : string).

Definition edit (s : Store) (e : Edit) : Store :=
  match e with
  | Set_ rows => (SetOverrides sortWildcards s rows).2
  | Upsert rows => (UpsertOverrides sortWildcards s rows).2
  | Delete id => DeleteOverride sortWildcards s id
  end.

(** The abstract table; a row whose JSON cannot be read fails the whole edit. *)
Definition parsed (rows : list (Row (F := F))) : option (list (Override (F := F))) :=
  mapM (fun row => match row with inl _ => None | inr o => Some o end) rows.

Definition putAll (m : gmap string (Override (F := F))) (l : list (Override (F := F))) : gmap string (Override (F := F)) :=
  fold_left (fun m o => <[o_ID o := o]> m) l m.

Definition specEdit (m : gmap string (Override (F := F))) (e : Edit) : gmap string (Override (F := F)) :=
  match e with
  | Set_ rows => match parsed rows with Some l => putAll ∅ l | None => m end
  | Upsert rows => match parsed rows with Some l => putAll m l | None => m end
  | Delete id => delete id m
  end.

(** One override of each ID, and those are the table. *)
Definition isTable (l : list (Override (F := F))) (m : gmap string (Override (F := F))) : Prop :=
  NoDup (o_ID <$> l) /\ forall id o, m !! id = Some o <-> o ∈ l /\ o_ID o = id.

Lemma upsertByID_elem (o : Override (F := F)) l x : NoDup (o_ID <$> l) -> x ∈ upsertByID o l <-> x = o \/ x ∈ l /\ o_ID x <> o_ID o.
Proof.
  induction l as [|y l IH]; cbn [upsertByID]; intros Hn.
  - rewrite list_elem_of_singleton. split; [by left|]. intros [?|[?%elem_of_nil _]]; done.
  - inversion Hn as [|? ? Hy Hn']; subst. case_bool_decide as Hid.
    + rewrite !elem_of_cons. split; [|naive_solver]. intros [->|Hx]; [by left|]. right. split; [by right|]. intros He. apply Hy. rewrite Hid, <-He.
      apply list_elem_of_fmap. by exists x.
    + rewrite !elem_of_cons, IH by done. naive_solver.
Qed.

Lemma upsertByID_ids (o : Override (F := F)) l : NoDup (o_ID <$> l) -> NoDup (o_ID <$> upsertByID o l).
Proof.
  induction l as [|y l IH]; cbn [upsertByID fmap list_fmap]; intros Hn; [by apply NoDup_singleton|].
  inversion Hn as [|? ? Hy Hn']; subst. case_bool_decide as Hid; cbn [fmap list_fmap]; [by rewrite <-Hid|].
  constructor; [|by apply IH]. rewrite list_elem_of_fmap. intros (x & Hx & Hin). apply upsertByID_elem in Hin as [->|[Hin _]]; [done| |done].
  apply Hy, list_elem_of_fmap. by exists x.
Qed.

Lemma isTable_upsert o l m : isTable l m -> isTable (upsertByID o l) (<[o_ID o := o]> m).
Proof.
  intros [Hn Hm]. split; [by apply upsertByID_ids|]. intros id x. rewrite lookup_insert_Some, Hm, upsertByID_elem by done. naive_solver.
Qed.

Lemma convertAll_spec rows : forall acc m, isTable acc m ->
  match parsed rows with
  | Some os => exists l, convertAll rows acc = Ok l /\ isTable l (putAll m os)
  | None => exists err, convertAll rows acc = Err err
  end.
Proof.
  induction rows as [|row rows IH]; intros acc m Ht; cbn [parsed mapM convertAll]; [by exists acc|].
  destruct row as [err|o]; cbn; [by exists err|]. specialize (IH (upsertByID o acc) (<[o_ID o := o]> m) (isTable_upsert o acc m Ht)).
  unfold parsed in IH. by destruct (mapM _ rows) as [os|].
Qed.

Lemma putAll_lookup os : forall (m : gmap string (Override (F := F))) id, putAll m os !! id = match putAll ∅ os !! id with Some o => Some o | None => m !! id end.
Proof.
  induction os as [|o os IH]; intros m id; cbn; [done|]. change (putAll (<[o_ID o := o]> m) os !! id = match putAll (<[o_ID o := o]> ∅) os !! id with Some o => Some o | None => m !! id end).
  rewrite IH, (IH (<[o_ID o := o]> ∅)). destruct (putAll ∅ os !! id); [done|]. destruct (decide (o_ID o = id)) as [->|Hne]; [by rewrite !lookup_insert_eq|].
  by rewrite !lookup_insert_ne, lookup_empty by done.
Qed.

Lemma isTable_nil : isTable [] ∅.
Proof. split; [constructor|]. intros id o. rewrite lookup_empty. split; [done|]. intros [?%elem_of_nil _]. done. Qed.

Lemma elem_of_lfilter {A} (f : A -> bool) (l : list A) x : x ∈ List.filter f l <-> x ∈ l /\ f x = true.
Proof. by rewrite !list_elem_of_In, filter_In. Qed.

Lemma isTable_filter (keep : string -> bool) l m : isTable l m ->
  isTable (List.filter (fun o => keep (o_ID o)) l) (filter (fun x => keep x.1 = true) m).
Proof.
  intros [Hn Hm]. split.
  - clear Hm. induction l as [|y l IH]; cbn; [constructor|]. inversion Hn as [|? ? Hy Hn']; subst. destruct (keep (o_ID y)); cbn; [|by apply IH].
    constructor; [|by apply IH]. rewrite list_elem_of_fmap. intros (x & Hx & Hin). apply elem_of_lfilter in Hin.
    apply Hy, list_elem_of_fmap. exists x. tauto.
  - intros id o. rewrite map_lookup_filter_Some, Hm, elem_of_lfilter. cbn. naive_solver.
Qed.

Lemma isTable_app l1 m1 l2 m2 : isTable l1 m1 -> isTable l2 m2 -> (forall id, is_Some (m2 !! id) -> m1 !! id = None) -> isTable (l1 ++ l2) (m2 ∪ m1).
Proof.
  intros [Hn1 Hm1] [Hn2 Hm2] Hd. split.
  - rewrite fmap_app. apply NoDup_app. split_and!; [done| |done]. intros id Hi1 Hi2. apply list_elem_of_fmap in Hi1 as (o1 & -> & Ho1), Hi2 as (o2 & He & Ho2).
    assert (H2 : m2 !! o_ID o1 = Some o2) by by apply Hm2. assert (H1 : m1 !! o_ID o1 = Some o1) by by apply Hm1.
    rewrite Hd in H1; [done|by eexists].
  - intros id o. rewrite lookup_union_Some_raw, Hm1, Hm2, elem_of_app. split; [naive_solver|].
    intros [[Ho|Ho] He]; [|by left]. destruct (m2 !! id) as [o2|] eqn:H2; [|by right].
    assert (H1 : m1 !! id = Some o) by by apply Hm1. rewrite Hd in H1; [done|by eexists].
Qed.

Lemma edit_table s e m : isTable (rawOverrides s) m -> isTable (rawOverrides (edit s e)) (specEdit m e).
Proof.
  intros Ht. destruct e as [rows|rows|id]; cbn.
  - unfold SetOverrides. pose proof (convertAll_spec rows [] ∅ isTable_nil) as Hc. destruct (parsed rows) as [os|].
    + by destruct Hc as (l & -> & Hl).
    + by destruct Hc as (err & ->).
  - unfold UpsertOverrides. pose proof (convertAll_spec rows [] ∅ isTable_nil) as Hc. destruct (parsed rows) as [os|]; [|by destruct Hc as (err & ->)].
    destruct Hc as (l & -> & Hl). cbn. pose proof (isTable_filter (fun id => negb (bool_decide (id ∈ o_ID <$> l))) _ _ Ht) as Hf.
    assert (Hin : forall id, is_Some (putAll ∅ os !! id) <-> id ∈ o_ID <$> l).
    { intros id. rewrite list_elem_of_fmap. split.
      - intros [o Ho]. apply Hl in Ho as [Ho <-]. by exists o.
      - intros (o & -> & Ho). exists o. by apply Hl. }
    replace (putAll m os) with (putAll ∅ os ∪ filter (fun x => negb (bool_decide (x.1 ∈ o_ID <$> l)) = true) m).
    + apply isTable_app; [exact Hf|done|]. intros id Hid%Hin. apply map_lookup_filter_None. right. intros o _. cbn. by rewrite bool_decide_eq_true_2.
    + apply map_eq. intros id. rewrite putAll_lookup, lookup_union. destruct (putAll ∅ os !! id) as [o|] eqn:Ho.
      * by destruct (filter _ m !! id).
      * rewrite (left_id_L None _). destruct (m !! id) as [o|] eqn:Hm.
        -- apply map_lookup_filter_Some. split; [done|]. cbn. rewrite bool_decide_eq_false_2; [done|]. rewrite <-Hin, Ho. by intros [? ?].
        -- apply map_lookup_filter_None. by left.
  - pose proof (isTable_filter (fun x => negb (bool_decide (x = id))) _ _ Ht) as Hf.
    replace (delete id m) with (filter (fun x : string * Override => negb (bool_decide (x.1 = id)) = true) m); [exact Hf|].
    apply map_eq. intros j. apply option_eq. intros o. rewrite map_lookup_filter_Some, lookup_delete_Some, negb_true_iff, bool_decide_eq_false. cbn. naive_solver.
Qed.

(** A store that was never loaded, or whose lookup structure is that of its
    overrides. *)
Definition inStep (s : Store) : Prop :=
  customPricing s = None /\ rawOverrides s = [] \/ customPricing s = Some (buildCustomPricingData sortWildcards (rawOverrides s)).

Lemma edit_inStep s e : inStep s -> inStep (edit s e).
Proof.
  intros Hs. destruct e as [rows|rows|id]; cbn; [| |by right]; unfold SetOverrides, UpsertOverrides; destruct (convertAll rows []); [by right|done|by right|done].
Qed.

(** After any edits the overrides in memory are those of the table, and the
    lookup structure is built from them. *)
Lemma edits_table edits : forall s m, isTable (rawOverrides s) m -> inStep s ->
  let s' := fold_left edit edits s in
  isTable (rawOverrides s') (fold_left specEdit edits m) /\ inStep s' /\ pricingData s' = pricingData s.
Proof.
  induction edits as [|e edits IH]; cbn; intros s m Ht Hs; [done|].
  destruct (IH (edit s e) (specEdit m e) (edit_table s e m Ht) (edit_inStep s e Hs)) as (H1 & H2 & H3). split_and!; [done|done|]. rewrite H3.
  destruct e as [rows|rows|id]; cbn; [| |done]; unfold SetOverrides, UpsertOverrides; by destruct (convertAll rows []).
Qed.

Hypothesis sort_permutes : forall l, sortWildcards l ≡ₚ l.
Hypothesis sort_sorts : forall l, StronglySorted (fun e e' => (String.length (pattern e') <= String.length (pattern e))%nat) (sortWildcards l).

(** C19. Whatever sequence of loads, upserts and deletions the overrides in
    memory went through, rows that cannot be read included, the rates of a
    request are patched by an override of the table of the last override of each
    ID: one that is for the request and that no other one for it comes before,
    by scope (virtual key, user, provider key, provider, global, the more
    identifiers the earlier), then exact names before prefixes, then longer
    prefixes before shorter ones; and by none exactly when none is for it. *)
Theorem best_override_wins edits s0 model requestType base scopes :
  rawOverrides s0 = [] -> customPricing s0 = None -> normalizeRequestType requestType <> "unknown" ->
  let m := fold_left specEdit edits ∅ in
  let mode := normalizeRequestType requestType in
  let '(row, applied) := applyPricingOverrides (fold_left edit edits s0) model requestType base scopes in
  if applied then
    exists id o, m !! id = Some o /\ meets o model mode scopes /\ row = patchPricing base (o_Options o) /\
      forall id' o', m !! id' = Some o' -> meets o' model mode scopes -> notWorse o o'
  else row = base /\ forall id o, m !! id = Some o -> ~ meets o model mode scopes.
Proof.
  intros Hr0 Hc0 Hk m mode. assert (Ht : isTable (rawOverrides s0) ∅) by (rewrite Hr0; apply isTable_nil).
  destruct (edits_table edits s0 ∅ Ht (or_introl (conj Hc0 Hr0))) as ([Hn Hm] & Hstep & _). fold m in Hm. set (s := fold_left edit edits s0) in *.
  unfold applyPricingOverrides. destruct Hstep as [[-> Hnil]| ->].
  { split; [done|]. intros id o Ho. apply Hm in Ho as [Ho _]. rewrite Hnil in Ho. by apply elem_of_nil in Ho. }
  rewrite bool_decide_eq_false_2 by exact Hk.
  pose proof (best_of_overrides sortWildcards sort_permutes sort_sorts (rawOverrides s) model mode scopes) as Hb. fold mode.
  destruct (resolve _ model mode scopes) as [patch|].
  - destruct Hb as (o & Ho & <- & Hx & Hb). exists (o_ID o), o. split_and!; [by apply Hm|done|done|]. intros id' o' Ho'. apply Hm in Ho' as [Ho' _]. by apply Hb.
  - split; [done|]. intros id o Ho. apply Hm in Ho as [Ho _]. by apply Hb.
Qed.
End Table.

(** ** Every token of a text request is billed once *)

Section Text.
Context {F : Type} `{Amount F} `{Price F}.

(** Prices without rounding: a ring that whole numbers embed in. *)
Class ExactPrice : Prop := {
  add_zero_l : forall x : F, addAmount zeroAmount x = x;
  add_comm : forall x y : F, addAmount x y = addAmount y x;
  add_assoc : forall x y z : F, addAmount (addAmount x y) z = addAmount x (addAmount y z);
  zero_times : forall x : F, mulPrice (ofInt 0) x = zeroAmount;
}.
Context `{!ExactPrice}.

Lemma add_zero_r (x : F) : addAmount x zeroAmount = x.
Proof. by rewrite add_comm, add_zero_l. Qed.

Definition sum (l : list F) : F := foldr addAmount zeroAmount l.

(** How many tokens of each kind a usage has. *)
Record Split := mkSplit { plain : Z; read : Z; write5m : Z; write1h : Z; audioIn : Z; audioOut : Z }.

(** Cached tokens, then written ones, then those written for an hour, each as
    many as were reported and as there is room for in the prompt; the rest is
    plain. Audio is part of the prompt and of the completion. *)
Definition splitOf (u : BifrostLLMUsage (F := F)) : Split :=
  let d := default zeroPromptDetails (PromptTokensDetails u) in
  let r := Z.min (CachedReadTokens d) (PromptTokens u) in
  let w := Z.min (CachedWriteTokens d) (PromptTokens u - r) in
  let w1 := Z.min (writtenFor1h d) w in
  mkSplit (PromptTokens u - r - w) r (w - w1) w1
    (Z.max 0 (Z.min (pd_AudioTokens d) (PromptTokens u)))
    (Z.max 0 (Z.min (match CompletionTokensDetails u with Some c => cd_AudioTokens c | None => 0 end) (CompletionTokens u))).

(** The bill of a split. *)
Definition textBill (pricing : TableModelPricing) (u : BifrostLLMUsage (F := F)) (t : serviceTier) (x : Split) : F :=
  let n := PromptTokens u in
  let tokens := sum
    [times (plain x) (tieredInputRate pricing n t);
     times (read x) (tieredCacheReadInputTokenRate pricing n t);
     times (write1h x) (tieredCacheCreationInputAbove1hrTokenRate pricing n t);
     times (write5m x) (tieredCacheCreationInputTokenRate pricing n t);
     times (CompletionTokens u) (tieredOutputRate pricing n t);
     match pricing InputCostPerAudioToken with Some r => times (audioIn x) (subPrice r (tieredInputRate pricing n t)) | None => zeroAmount end;
     match pricing OutputCostPerAudioToken with Some r => times (audioOut x) (subPrice r (tieredOutputRate pricing n t)) | None => zeroAmount end] in
  addAmount
    match pricing InferenceGeoUSMultiplier with Some m => if inferenceGeoUS t then mulPrice tokens m else tokens | None => tokens end
    match d ← CompletionTokensDetails u; NumSearchQueries d with Some q => timesSet q (pricing SearchContextCostPerQuery) | None => zeroAmount end.

(** A term that is only added when its count is positive. *)
Lemma add_if (n : Z) (r x : F) : 0 <= n -> (if 0 <? n then addAmount x (times n r) else x) = addAmount x (times n r).
Proof.
  intros Hn. destruct (0 <? n) eqn:Hp; [done|]. apply Z.ltb_ge in Hp. replace n with 0 by lia. unfold times. by rewrite zero_times, add_zero_r.
Qed.

(** The cached writes: those of an hour, then the others. *)
Lemma writes_added (w w1 : Z) (r r1 x : F) : 0 <= w1 <= w ->
  (if 0 <? w then addAmount (if 0 <? w1 then addAmount x (times w1 r1) else x) (times (w - w1) r) else x) =
  addAmount (addAmount x (times w1 r1)) (times (w - w1) r).
Proof.
  intros Hw. rewrite add_if by lia. destruct (0 <? w) eqn:Hp; [done|]. apply Z.ltb_ge in Hp. replace w1 with 0 by lia. replace w with 0 by lia.
  unfold times. by rewrite !zero_times, !add_zero_r.
Qed.

(** A price of audio, when there is a rate for it. *)
Lemma audio_added (rate : option F) (n : Z) (text x : F) : 0 <= n ->
  match rate with Some r => if 0 <? n then addAmount x (times n (subPrice r text)) else x | None => x end =
  addAmount x (match rate with Some r => times n (subPrice r text) | None => zeroAmount end).
Proof. intros Hn. destruct rate; [by apply add_if|by rewrite add_zero_r]. Qed.

Definition wellFormed (u : BifrostLLMUsage (F := F)) : Prop :=
  let d := default zeroPromptDetails (PromptTokensDetails u) in
  0 <= PromptTokens u /\ 0 <= CompletionTokens u /\ 0 <= CachedReadTokens d /\ 0 <= CachedWriteTokens d /\ 0 <= writtenFor1h d.

Lemma clampTo_min n limit : clampTo n limit = Z.min n limit.
Proof. unfold clampTo. case_match; lia. Qed.

Lemma clampBoth_max n limit : 0 <= limit -> clampBoth n limit = Z.max 0 (Z.min n limit).
Proof. unfold clampBoth. repeat case_match; lia. Qed.

(** Every token is of one kind and billed at the rate of its kind; the audio
    tokens are billed on top, by the difference to text. *)
Lemma text_tokens_billed_once pricing u t : wellFormed u -> computeTextCost pricing (Some u) t = textBill pricing u t (splitOf u).
Proof.
  intros (Hp & Hc & Hr & Hw & Hh). cbv zeta in *. unfold computeTextCost, splitOf. cbv zeta. rewrite !clampTo_min, !clampBoth_max by lia.
  set (d := default zeroPromptDetails (PromptTokensDetails u)) in *.
  set (rd := Z.min (CachedReadTokens d) (PromptTokens u)).
  set (wr := Z.min (CachedWriteTokens d) (PromptTokens u - rd)).
  set (w1 := Z.min (writtenFor1h d) wr). set (ai := Z.max 0 (Z.min (pd_AudioTokens d) _)). set (ao := Z.max 0 (Z.min _ (CompletionTokens u))).
  assert (0 <= rd) by lia. assert (0 <= w1 <= wr) by lia. assert (0 <= ai) by lia. assert (0 <= ao) by lia. clearbody rd wr w1 ai ao.
  unfold textBill. cbn [plain read write5m write1h audioIn audioOut sum foldr].
  set (inR := tieredInputRate _ _ _). set (outR := tieredOutputRate _ _ _). set (rdR := tieredCacheReadInputTokenRate _ _ _).
  set (c1R := tieredCacheCreationInputAbove1hrTokenRate _ _ _). set (cR := tieredCacheCreationInputTokenRate _ _ _).
  rewrite (add_if rd) by lia. rewrite (writes_added wr w1) by lia.
  assert (Hsum : forall a b c e f g h : F, addAmount (addAmount (addAmount (addAmount (addAmount a b) c) e) f) (addAmount (addAmount zeroAmount g) h) =
    addAmount a (addAmount b (addAmount c (addAmount e (addAmount f (addAmount g (addAmount h zeroAmount)))))))
    by (intros; by rewrite add_zero_l, add_zero_r, !add_assoc).
  rewrite !audio_added by lia. rewrite Hsum. done.
Qed.

(** The kinds of tokens of a prompt are all of it. *)
Lemma splitOf_whole u : wellFormed u ->
  let x := splitOf u in
  0 <= plain x /\ 0 <= read x /\ 0 <= write5m x /\ 0 <= write1h x /\ plain x + read x + write5m x + write1h x = PromptTokens u.
Proof. intros (? & ? & ? & ? & ?). cbv zeta in *. unfold splitOf. cbn [plain read write5m write1h]. lia. Qed.

(** The row that prices a request: the base row, patched by the best of the
    overrides that are for it. *)
Definition pricedBy (l : list (Override (F := F))) (model mode : string) (scopes : LookupScopes) (base row : TableModelPricing) : Prop :=
  (exists o, o ∈ l /\ meets o model mode scopes /\ (forall o', o' ∈ l -> meets o' model mode scopes -> notWorse o o') /\
     row = patchPricing base (o_Options o)) \/
  (forall o, o ∈ l -> ~ meets o model mode scopes) /\ row = base.

Section Bill.
Variable sortWildcards : list (customPricingEntry (F := F)) -> list (customPricingEntry (F := F)).
Hypothesis sort_permutes : forall l, sortWildcards l ≡ₚ l.
Hypothesis sort_sorts : forall l, StronglySorted (fun e e' => (String.length (pattern e') <= String.length (pattern e))%nat) (sortWildcards l).

Lemma overrides_applied s model requestType base scopes :
  inStep sortWildcards s -> normalizeRequestType requestType <> "unknown" ->
  let '(row, applied) := applyPricingOverrides s model requestType base scopes in
  pricedBy (rawOverrides s) model (normalizeRequestType requestType) scopes base row /\
  if applied then exists o, o ∈ rawOverrides s /\ meets o model (normalizeRequestType requestType) scopes
  else row = base /\ forall o, o ∈ rawOverrides s -> ~ meets o model (normalizeRequestType requestType) scopes.
Proof.
  intros [[Hc Hnil]|Hc] Hk; unfold applyPricingOverrides; rewrite Hc.
  { rewrite Hnil. assert (Hno : forall o : Override (F := F), o ∈ [] -> ~ meets o model (normalizeRequestType requestType) scopes) by (by intros o ?%elem_of_nil).
    split; [by right|done]. }
  rewrite bool_decide_eq_false_2 by done.
  pose proof (best_of_overrides sortWildcards sort_permutes sort_sorts (rawOverrides s) model (normalizeRequestType requestType) scopes) as Hb.
  destruct (resolve _ model (normalizeRequestType requestType) scopes) as [patch|]; cbn; [|by split; [right|]].
  destruct Hb as (o & Ho & <- & Hm & Hb). split; [left|]; by exists o.
Qed.

Definition textKinds : list RequestType := [ChatCompletionRequest; TextCompletionRequest; ResponsesRequest; RealtimeRequest; CompactionRequest].

Lemma textKinds_known rt : rt ∈ textKinds -> normalizeRequestType rt <> "unknown".
Proof. unfold textKinds. rewrite !elem_of_cons, elem_of_nil. by intros [->|[->|[->|[->|[->|[]]]]]]. Qed.

(** C18. The price of a usage that no response carries, for a text request.  A
    positive cost the provider reports is the price.  Otherwise the rates are
    those of the row of the first name of the model that has one, or none at all,
    patched by the best override for the model that served the call; without a
    row and an override the price is nothing.  Cached tokens come first, then
    written ones, each as many as reported and as fit in the prompt, of the
    written those for an hour first; the rest of the prompt is plain: each kind
    is billed once at its rate for the size of the prompt and the tier, and the
    completion at its own.  Audio tokens, as many as fit, are corrected by the
    difference to text; residency multiplies; searches and the fee of the request
    are added once.  Prices are exact (addition is commutative and associative),
    counts are not negative, and the overrides came by any edits from none. *)
Theorem usage_billed edits s0 u provider model requestType scopes :
  let s := fold_left (edit sortWildcards) edits s0 in
  let rt := normalizeStreamRequestType requestType in
  let served := mkServed provider model None (ServerSideFallbackModel u) in
  let found := firstBase s provider rt (candidates served) in
  let forRequest o := o ∈ rawOverrides s /\ meets o (overrideKey served) (normalizeRequestType rt) (withProvider (default noScopes scopes) provider) in
  let cost := CalculateCostForUsage s (Some u) provider model requestType scopes in
  rt ∈ textKinds -> wellFormed u -> rawOverrides s0 = [] -> customPricing s0 = None ->
  match reportedCost (TotalCost <$> u_Cost u) with
  | Some reported => cost = reported
  | None =>
      (exists row,
        pricedBy (rawOverrides s) (overrideKey served) (normalizeRequestType rt) (withProvider (default noScopes scopes) provider) (default noRates found) row /\
        (is_Some found \/ exists o, forRequest o) /\
        let bill := textBill row u (tierFromResponse None (Speed u) (InferenceGeo u)) (splitOf u) in
        cost = match row CostPerRequest with Some fee => addAmount bill fee | None => bill end) \/
      found = None /\ (forall o, ~ forRequest o) /\ cost = zeroAmount
  end.
Proof.
  intros s rt served found forRequest cost Hrt Hu Hr0 Hc0.
  assert (Hs : inStep sortWildcards s).
  { apply (edits_table sortWildcards edits s0 ∅); [rewrite Hr0; apply isTable_nil|by left]. }
  unfold cost, CalculateCostForUsage. destruct (reportedCost _) as [reported|]; [done|].
  unfold computeCostFromInput. cbn [ci_container usageOnly]. rewrite bool_decide_eq_true_2 by done. fold rt served.
  pose proof (overrides_applied s (overrideKey served) rt (default noRates found) (withProvider (default noScopes scopes) provider) Hs (textKinds_known rt Hrt)) as Hp.
  unfold resolvePricing. cbn [sv_Provider served]. change (sv_Provider served) with provider. fold found.
  assert (Hbill : forall row, costOfKind row (usageOnly u (tierFromResponse None (Speed u) (InferenceGeo u))) rt =
    Some (textBill row u (tierFromResponse None (Speed u) (InferenceGeo u)) (splitOf u))).
  { intros row. unfold costOfKind. rewrite bool_decide_eq_true_2 by exact Hrt. cbn [ci_usage ci_tier usageOnly]. by rewrite text_tokens_billed_once. }
  destruct found as [base|]; cbn [default] in Hp; destruct (applyPricingOverrides s _ rt _ _) as [row applied]; destruct Hp as [Hp Ha].
  - left. exists row. cbn [fst]. rewrite Hbill. split; [exact Hp|]. split; [by left|done].
  - destruct applied; [left; exists row; rewrite Hbill; by split; [|split; [right|]]|]. destruct Ha as [-> Ha]. right. split; [done|]. split; [|done].
    intros o [Ho Hm]. by apply (Ha o).
Qed.
End Bill.
End Text.

(** ** Runs, with whole numbers for prices *)

#[local] Instance whole_amount : Amount Z :=
  { zeroAmount := 0; addAmount := Z.add; leAmount := Z.leb; ltAmount := Z.ltb; finiteAmount := fun _ => true }.
#[local] Instance whole_price : Price Z := { subPrice := Z.sub; mulPrice := Z.mul; ofInt := fun n => n }.

Lemma whole_exact : ExactPrice (F := Z).
Proof. split; cbn; intros; lia. Qed.

Fixpoint insertEntry (e : customPricingEntry (F := Z)) (l : list (customPricingEntry (F := Z))) : list (customPricingEntry (F := Z)) :=
  match l with
  | [] => [e]
  | x :: l => if Nat.leb (String.length (pattern x)) (String.length (pattern e)) then e :: x :: l else x :: insertEntry e l
  end.

Definition sortEntries (l : list (customPricingEntry (F := Z))) : list (customPricingEntry (F := Z)) := foldr insertEntry [] l.

Lemma insertEntry_permutes e l : insertEntry e l ≡ₚ e :: l.
Proof. induction l as [|x l IH]; cbn; [done|]. destruct (Nat.leb _ _); [done|]. rewrite IH. apply Permutation_swap. Qed.

Lemma sortEntries_permutes l : sortEntries l ≡ₚ l.
Proof. induction l as [|e l IH]; cbn; [done|]. by rewrite insertEntry_permutes, IH. Qed.

Lemma sortEntries_sorts l : StronglySorted (fun e e' => (String.length (pattern e') <= String.length (pattern e))%nat) (sortEntries l).
Proof.
  induction l as [|e l IH]; [constructor|]. change (sortEntries (e :: l)) with (insertEntry e (sortEntries l)). revert IH. generalize (sortEntries l). intros l' IH.
  induction IH as [|x l' Hl IH Hx]; cbn; [repeat constructor|]. destruct (Nat.leb_spec (String.length (pattern x)) (String.length (pattern e))).
  - constructor; [by constructor|]. constructor; [done|]. eapply List.Forall_impl; [|exact Hx]. cbn. lia.
  - constructor; [done|]. rewrite List.Forall_forall in Hx |- *. intros y Hy.
    apply list_elem_of_In in Hy. rewrite insertEntry_permutes in Hy. apply elem_of_cons in Hy as [->|Hy]; [lia|]. by apply Hx, list_elem_of_In.
Qed.

Definition halfPrice : Options (F := Z) := fun r => match r with InputCostPerToken => Some 1 | _ => None end.
Definition fullPrice : Options (F := Z) := fun r => match r with InputCostPerToken => Some 2 | OutputCostPerToken => Some 8 | CacheReadInputTokenCost => Some 1 | _ => None end.

Definition overrideOf (i : string) (kind : ScopeKind) (vk provider : option string) (m : MatchType) (p : string) (o : Options (F := Z)) : Override (F := Z) :=
  mkOverride i (Some kind) None vk provider None (Some m) p [ChatCompletionRequest] o.

Definition exampleOverrides : list (Override (F := Z)) :=
  [overrideOf "o1" ProviderScope None (Some "openai") Exact "gpt-4o" fullPrice;
   overrideOf "o2" VirtualKeyScope (Some "vk1") None Wildcard "gpt-*" noRates;
   overrideOf "o3" VirtualKeyScope (Some "vk1") None Wildcard "gpt-4*" halfPrice].

Definition emptyStore : Store (F := Z) := mkStore ∅ [] None.

Definition exampleEdits : list (Edit (F := Z)) := [Set_ (inr <$> exampleOverrides); Upsert [inl "bad JSON"]; Delete "o4"].

(** The key's longest wildcard goes before the exact name of the provider. *)
Lemma best_override_wins_witness :
  (applyPricingOverrides (fold_left (edit sortEntries) exampleEdits emptyStore) "gpt-4o" ChatCompletionRequest fullPrice (mkScopes "" "vk1" "" "openai")).2 = true /\
  exists id o, fold_left specEdit exampleEdits ∅ !! id = Some o /\ meets o "gpt-4o" "chat" (mkScopes "" "vk1" "" "openai") /\
    patchPricing fullPrice (o_Options o) InputCostPerToken = Some 1 /\
    forall id' o', fold_left specEdit exampleEdits ∅ !! id' = Some o' -> meets o' "gpt-4o" "chat" (mkScopes "" "vk1" "" "openai") -> notWorse o o'.
Proof.
  assert (Ha : exists row, applyPricingOverrides (fold_left (edit sortEntries) exampleEdits emptyStore) "gpt-4o" ChatCompletionRequest fullPrice (mkScopes "" "vk1" "" "openai") = (row, true) /\
    row InputCostPerToken = Some 1) by (eexists; split; reflexivity).
  destruct Ha as (row & Ha & Hrow). split; [by rewrite Ha|].
  pose proof (best_override_wins sortEntries sortEntries_permutes sortEntries_sorts exampleEdits emptyStore "gpt-4o" ChatCompletionRequest fullPrice (mkScopes "" "vk1" "" "openai")
    eq_refl eq_refl ltac:(discriminate)) as Hb.
  cbv zeta in Hb. rewrite Ha in Hb. destruct Hb as (id & o & Ho & Hm & Hp & Hbest). exists id, o. split; [exact Ho|]. split; [exact Hm|]. split; [by rewrite <-Hp|exact Hbest].
Defined.

Definition exampleUsage (prompt cached completion : Z) (audio : Z) : BifrostLLMUsage (F := Z) :=
  mkUsage prompt completion (prompt + completion) (Some (mkPromptDetails 0 audio 0 cached 0 None)) None None None None None None None None.

Definition catalogueOnly : Store (F := Z) := mkStore {[makeKey "gpt-4o" "openai" "chat" := fullPrice]} [] None.
Definition pricedStore : Store (F := Z) := fold_left (edit sortEntries) [Set_ (inr <$> exampleOverrides)] catalogueOnly.

Lemma usage_billed_witness :
  CalculateCostForUsage pricedStore (Some (exampleUsage 100 40 10 0)) "openai" "gpt-4o" ChatCompletionStreamRequest None = 240 /\
  exists row, pricedBy exampleOverrides "gpt-4o" "chat" (mkScopes "" "" "" "openai") fullPrice row /\
    match row CostPerRequest with
    | Some fee => textBill row (exampleUsage 100 40 10 0) noTier (mkSplit 60 40 0 0 0 0) + fee
    | None => textBill row (exampleUsage 100 40 10 0) noTier (mkSplit 60 40 0 0 0 0)
    end = 240.
Proof.
  assert (Hc : CalculateCostForUsage pricedStore (Some (exampleUsage 100 40 10 0)) "openai" "gpt-4o" ChatCompletionStreamRequest None = 240) by reflexivity.
  split; [exact Hc|].
  pose proof (@usage_billed Z whole_amount whole_price whole_exact sortEntries sortEntries_permutes sortEntries_sorts [Set_ (inr <$> exampleOverrides)]
    catalogueOnly (exampleUsage 100 40 10 0) "openai" "gpt-4o" ChatCompletionStreamRequest None) as Hb. cbv zeta in Hb.
  destruct Hb as [(row & Hp & _ & He)|(Hn & _)]; [by left|unfold wellFormed; cbn; lia|reflexivity|reflexivity| |discriminate Hn].
  exists row. split; [exact Hp|]. symmetry. rewrite <-Hc. exact He.
Defined.

(** Cached audio is billed at the rate of cached tokens and corrected by the
    difference to uncached text: its bill can be negative. *)
Example cached_audio_negative :
  computeTextCost (fun r => match r with InputCostPerToken => Some 10 | CacheReadInputTokenCost => Some 1 | InputCostPerAudioToken => Some 5 | _ => None end)
    (Some (exampleUsage 100 100 0 100)) noTier = -400.
Proof. reflexivity. Qed.

(** The scopes of a request never name a user, so that no override of a user
    applies to it. *)
Lemma user_overrides_never_apply (o : Override (F := Z)) model mode virtualKeyID selectedKeyID provider :
  meets o model mode (LookupScopesFromContext virtualKeyID selectedKeyID provider) ->
  o_ScopeKind o <> Some UserScope /\ o_ScopeKind o <> Some UserProvider /\ o_ScopeKind o <> Some UserProviderKey.
Proof.
  intros ((kind & Hk & Hin) & _). rewrite Hk. unfold scopePriorityOrder, LookupScopesFromContext in Hin. cbn in Hin.
  rewrite !elem_of_app in Hin. repeat case_bool_decide; cbn in Hin; set_unfold in Hin; split_and!; intros [= ->]; intuition congruence.
Qed.
End PricesTheory.
