(* ===== verification/Flags.v ===== *)
(** * Feature flags (src/framework/featureflags; src/transports/celer-route-http: lib/config.go, handlers/featureflags.go)

    The registry of flags and the grammar of their ids, the layered store of
    overrides, its bootstrap from the database and the file, and the handler that
    toggles a flag, as updates whose parts interleave. *)

From S2P Require Import Prelude GoStrings.
From Stdlib Require Import Ascii.

Local Open Scope string_scope.
Local Open Scope Z_scope.
Local Open Scope list_scope.

Module Flags.

(** ** Registry *)

Record FlagDef := mkDef { d_ID : string; d_DisplayName : string; d_Description : string; d_Default : bool }.

Inductive FlagError :=
| ErrFlagIDInvalid | ErrFlagAlreadyRegistered | ErrFlagNotFound | ErrFlagLocked | ErrFlagUnregistered.

#[export] Instance FlagError_eq_dec : EqDecision FlagError.
Proof. solve_decision. Defined.

(** The classes [[a-z0-9]] and [[._-]]. *)
Definition isWordByte (c : ascii) : bool :=
  let n := nat_of_ascii c in
  (97 <=? n)%nat && (n <=? 122)%nat || (48 <=? n)%nat && (n <=? 57)%nat.

Definition isSeparator (c : ascii) : bool :=
  let n := nat_of_ascii c in (n =? 46)%nat || (n =? 95)%nat || (n =? 45)%nat.

(** [^[a-z0-9]+([._-][a-z0-9]+)*$], read from left to right: [inWord] says that
    the byte before is one of a word. *)
Fixpoint matchFlagID (inWord : bool) (id : string) : bool :=
  match id with
  | EmptyString => inWord
  | String c id =>
      if isWordByte c then matchFlagID true id
      else isSeparator c && inWord && matchFlagID false id
  end.

Definition flagIDPattern (id : string) : bool := matchFlagID false id.

Notation Registry := (gmap string FlagDef).

Definition Register (registry : Registry) (def : FlagDef) : FlagError + Registry :=
  if negb (flagIDPattern (d_ID def)) then inl ErrFlagIDInvalid
  else match registry !! d_ID def with
       | Some _ => inl ErrFlagAlreadyRegistered
       | None => inr (<[d_ID def := def]> registry)
       end.

Definition LookupDef (registry : Registry) (id : string) : option FlagDef := registry !! id.

(** ** Store *)

Inductive Source := SourceDefault | SourceDB | SourceRemote | SourceFile.

#[export] Instance Source_eq_dec : EqDecision Source.
Proof. solve_decision. Defined.

Record entry := mkEntry { e_enabled : bool; e_source : Source; e_writtenAt : Z; e_fromFile : bool }.

#[export] Instance entry_eq_dec : EqDecision entry.
Proof. solve_decision. Defined.

Notation Store := (gmap string entry).

Definition New : Store := ∅.

Record FlagStatus := mkStatus {
  s_ID : string; s_DisplayName : string; s_Description : string; s_Default : bool;
  s_Enabled : bool; s_Source : Source; s_Locked : bool; s_Registered : bool; s_UpdatedAt : Z;
}.

#[export] Instance FlagStatus_eq_dec : EqDecision FlagStatus.
Proof. solve_decision. Defined.

Record HydrationRow := mkRow { r_ID : string; r_Enabled : bool; r_UpdatedAt : Z }.

Definition IsEnabled (registry : Registry) (s : Store) (id : string) : bool :=
  match s !! id with
  | Some e => e_enabled e
  | None => match LookupDef registry id with Some def => d_Default def | None => false end
  end.

(** [statusForLocked], which [statusFor] calls under the lock. *)
Definition statusFor (s : Store) (def : FlagDef) (registered : bool) : FlagStatus :=
  match s !! d_ID def with
  | Some e => mkStatus (d_ID def) (d_DisplayName def) (d_Description def) (d_Default def)
                (e_enabled e) (e_source e) (e_fromFile e) registered (e_writtenAt e)
  | None => mkStatus (d_ID def) (d_DisplayName def) (d_Description def) (d_Default def)
              (d_Default def) SourceDefault false registered 0
  end.

(** What [Set] does under its lock: the entry it writes, unless the flag is locked. *)
Definition setEntry (s : Store) (id : string) (enabled : bool) (now : Z) : FlagError + Store :=
  match s !! id with
  | Some cur => if e_fromFile cur then inl ErrFlagLocked else inr (<[id := mkEntry enabled SourceDB now false]> s)
  | None => inr (<[id := mkEntry enabled SourceDB now false]> s)
  end.

(** [Set], when nothing comes between its write and its read of the status. *)
Definition Set_ (registry : Registry) (s : Store) (id : string) (enabled : bool) (now : Z) : Store * (FlagError + FlagStatus) :=
  match LookupDef registry id with
  | None => (s, inl ErrFlagUnregistered)
  | Some def =>
      match setEntry s id enabled now with
      | inl err => (s, inl err)
      | inr s' => (s', inr (statusFor s' def true))
      end
  end.

Definition ApplyRemote (s : Store) (id : string) (enabled : bool) (writtenAt : Z) : Store :=
  match s !! id with
  | Some cur =>
      if e_fromFile cur then s
      else if writtenAt <? e_writtenAt cur then s
      else <[id := mkEntry enabled SourceRemote writtenAt false]> s
  | None => <[id := mkEntry enabled SourceRemote writtenAt false]> s
  end.

Definition ApplyFile (s : Store) (id : string) (enabled : bool) (now : Z) : Store :=
  <[id := mkEntry enabled SourceFile now true]> s.

(** [Snapshot], its two results as one option. *)
Definition Snapshot (s : Store) (id : string) : option entry := s !! id.

Definition Restore (s : Store) (id : string) (snap : option entry) : Store :=
  match snap with Some e => <[id := e]> s | None => delete id s end.

Definition hydrateRow (s : Store) (row : HydrationRow) : Store :=
  <[r_ID row := mkEntry (r_Enabled row) SourceDB (r_UpdatedAt row) false]> s.

Definition Hydrate (s : Store) (rows : list HydrationRow) : Store := foldl hydrateRow s rows.

Definition Status (registry : Registry) (s : Store) (id : string) : FlagError + FlagStatus :=
  match LookupDef registry id, s !! id with
  | None, None => inl ErrFlagNotFound
  | Some def, _ => inr (statusFor s def true)
  | None, Some _ => inr (statusFor s (mkDef id "" "" false) false)
  end.

(** [List], before it is sorted by id: one status per id of the union. *)
Definition List_ (registry : Registry) (s : Store) : list FlagStatus :=
  (fun id => match registry !! id with
             | Some def => statusFor s def true
             | None => statusFor s (mkDef id "" "" false) false
             end) <$> elements (dom registry ∪ dom s).

(** ** Bootstrap *)

(** The table of overrides: the state of each row by its id, the primary key. *)
Notation Rows := (gmap string (bool * Z)).

(** [ListFeatureFlags] and the loop that copies its rows. *)
Definition hydrationRows (rows : Rows) : list HydrationRow :=
  (fun '(id, (enabled, updatedAt)) => mkRow id enabled updatedAt) <$> map_to_list rows.

(** [UpsertFeatureFlag]. *)
Definition UpsertFeatureFlag (rows : Rows) (id : string) (enabled : bool) (updatedAt : Z) : Rows :=
  <[id := (enabled, updatedAt)]> rows.

(** The flags of the file, in the order the map of the file is traversed, each
    with the time at which it is installed. *)
Definition applyFiles (s : Store) (files : list (string * (bool * Z))) : Store :=
  foldl (fun s '(id, (enabled, now)) => ApplyFile s id enabled now) s files.

(** [initFeatureFlags]: [None] for no configuration store, or one that could not be read. *)
Definition initFeatureFlags (rows : option Rows) (files : list (string * (bool * Z))) : Store :=
  applyFiles (match rows with Some rows => Hydrate New (hydrationRows rows) | None => New end) files.

(** ** The handler of toggles *)

Inductive Response :=
| BadRequest (message : string)
| Conflict | NotFound | UpdateFailed | PersistFailed
| OK (status : FlagStatus).

#[export] Instance Response_eq_dec : EqDecision Response.
Proof. solve_decision. Defined.

(** The switch over the errors of [Set]. *)
Definition answerSetError (err : FlagError) : Response :=
  match err with ErrFlagLocked => Conflict | ErrFlagUnregistered => NotFound | _ => UpdateFailed end.

(** [updateFlag] when nothing interleaves: [id] of the path and [req.Enabled] once
    the body is decoded; [now] the clock of [Set], [persists] whether the upsert succeeds. *)
Definition updateFlag (registry : Registry) (s : Store) (configStore : option Rows) (id : string) (enabled : option bool)
    (now : Z) (persists : bool) : Store * option Rows * Response :=
  if bool_decide (id = "") then (s, configStore, BadRequest "Invalid flag id")
  else match enabled with
  | None => (s, configStore, BadRequest "Missing required field: enabled")
  | Some enabled =>
      let prior := Snapshot s id in
      match Set_ registry s id enabled now with
      | (s, inl err) => (s, configStore, answerSetError err)
      | (s, inr status) =>
          match configStore with
          | None => (s, None, OK status)
          | Some rows =>
              if persists then (s, Some (UpsertFeatureFlag rows id enabled (s_UpdatedAt status)), OK status)
              else (Restore s id prior, configStore, PersistFailed)
          end
      end
  end.

(** *** Updates that interleave *)

(** Where an update stands: after its snapshot, after the write of [Set], after
    the status is read, and after an upsert that failed. *)
Inductive Phase :=
| Snapped (id : string) (enabled : bool) (prior : option entry)
| Written (id : string) (enabled : bool) (prior : option entry) (def : FlagDef)
| Persisting (id : string) (enabled : bool) (prior : option entry) (status : FlagStatus)
| RollingBack (id : string) (prior : option entry).

Definition phaseID (p : Phase) : string :=
  match p with Snapped id _ _ | Written id _ _ _ | Persisting id _ _ _ | RollingBack id _ => id end.

Record State := mkState {
  store : Store; configStore : option Rows; updates : gmap nat Phase; answers : list (string * Response);
}.

Inductive Event :=
| Begin (u : nat) (id : string) (enabled : bool)
| Write (u : nat) (now : Z)
| ReadStatus (u : nat)
| Persist (u : nat) (persists : bool)
| Rollback (u : nat)
| Gossip (id : string) (enabled : bool) (writtenAt : Z).

Definition answer (st : State) (s : Store) (rows : option Rows) (u : nat) (id : string) (r : Response) : State :=
  mkState s rows (delete u (updates st)) (answers st ++ [(id, r)]).

Definition advance (st : State) (s : Store) (u : nat) (p : Phase) : State :=
  mkState s (configStore st) (<[u := p]> (updates st)) (answers st).

Definition step (registry : Registry) (st : State) (ev : Event) : option State :=
  match ev with
  | Begin u id enabled =>
      match updates st !! u with
      | Some _ => None
      | None => if bool_decide (id = "") then None
                else Some (advance st (store st) u (Snapped id enabled (Snapshot (store st) id)))
      end
  | Write u now =>
      match updates st !! u with
      | Some (Snapped id enabled prior) =>
          match LookupDef registry id with
          | None => Some (answer st (store st) (configStore st) u id (answerSetError ErrFlagUnregistered))
          | Some def =>
              match setEntry (store st) id enabled now with
              | inl err => Some (answer st (store st) (configStore st) u id (answerSetError err))
              | inr s => Some (advance st s u (Written id enabled prior def))
              end
          end
      | _ => None
      end
  | ReadStatus u =>
      match updates st !! u with
      | Some (Written id enabled prior def) =>
          Some (advance st (store st) u (Persisting id enabled prior (statusFor (store st) def true)))
      | _ => None
      end
  | Persist u persists =>
      match updates st !! u with
      | Some (Persisting id enabled prior status) =>
          match configStore st with
          | None => Some (answer st (store st) None u id (OK status))
          | Some rows =>
              if persists
              then Some (answer st (store st) (Some (UpsertFeatureFlag rows id enabled (s_UpdatedAt status))) u id (OK status))
              else Some (advance st (store st) u (RollingBack id prior))
          end
      | _ => None
      end
  | Rollback u =>
      match updates st !! u with
      | Some (RollingBack id prior) => Some (answer st (Restore (store st) id prior) (configStore st) u id PersistFailed)
      | _ => None
      end
  | Gossip id enabled writtenAt =>
      Some (mkState (ApplyRemote (store st) id enabled writtenAt) (configStore st) (updates st) (answers st))
  end.

Fixpoint run (registry : Registry) (st : State) (evs : list Event) : option State :=
  match evs with
  | [] => Some st
  | ev :: evs => match step registry st ev with Some st => run registry st evs | None => None end
  end.

(** The process after its bootstrap. *)
Definition boot (rows : option Rows) (files : list (string * (bool * Z))) : State :=
  mkState (initFeatureFlags rows files) rows ∅ [].

(** An event that neither starts a second update of a flag nor comes from a peer. *)
Definition serialEvent (st : State) (ev : Event) : bool :=
  match ev with
  | Begin _ id _ => bool_decide (map_Forall (fun _ p => phaseID p <> id) (updates st))
  | Gossip _ _ _ => false
  | _ => true
  end.

Fixpoint serialRun (registry : Registry) (st : State) (evs : list Event) : option State :=
  match evs with
  | [] => Some st
  | ev :: evs =>
      if serialEvent st ev
      then match step registry st ev with Some st => serialRun registry st evs | None => None end
      else None
  end.

End Flags.
