(* ===== verification/FlagsTheory.v ===== *)
(** * Properties of the feature flags

    The grammar of ids, the entries after a bootstrap and their precedence, the
    order in which messages of peers arrive, one update alone and updates that
    interleave: the flags of the file never move, a restart finds what the
    toggles left, and what two overlapping toggles of one flag can leave. *)

From S2P Require Import Prelude GoStrings Flags.
From Stdlib Require Import Ascii.

Local Open Scope string_scope.
Local Open Scope Z_scope.
Local Open Scope list_scope.

Module FlagsTheory.
Import Flags.

(** ** Entries written from lists *)

Lemma foldl_insert {V : Type} (l : list (string * V)) (s : gmap string V) :
  NoDup l.*1 -> foldl (fun s '(k, v) => <[k := v]> s) s l = list_to_map l ∪ s.
Proof.
  revert s. induction l as [|[k v] l IH]; intros s Hnd; cbn; [by rewrite (left_id_L ∅ (∪))|].
  apply NoDup_cons in Hnd as [Hk Hnd]. rewrite IH by done.
  rewrite <-insert_union_l, insert_union_r; [done|]. by apply not_elem_of_list_to_map.
Qed.

(** The entries of the file, and those of the rows. *)
Definition fileEntries (files : list (string * (bool * Z))) : gmap string entry :=
  list_to_map ((fun '(id, (enabled, now)) => (id, mkEntry enabled SourceFile now true)) <$> files).

Definition rowEntry (row : bool * Z) : entry := mkEntry (row.1) SourceDB (row.2) false.

Definition rowEntries (rows : Rows) : gmap string entry := rowEntry <$> rows.

Lemma applyFiles_entries s files : NoDup files.*1 -> applyFiles s files = fileEntries files ∪ s.
Proof.
  intros Hnd. unfold fileEntries. etrans; [|apply foldl_insert].
  - unfold applyFiles, ApplyFile. revert s. induction files as [|[id [en now]] files IH]; intros s; cbn; [done|].
    apply IH. by apply NoDup_cons in Hnd as [_ Hnd].
  - rewrite <-list_fmap_compose. erewrite list_fmap_ext; [exact Hnd|]. by intros ? [? []].
Qed.

Lemma Hydrate_entries rows : Hydrate New (hydrationRows rows) = rowEntries rows.
Proof.
  transitivity (foldl (fun s '(k, v) => <[k := v]> s) (∅ : Store) (prod_map id rowEntry <$> map_to_list rows)).
  - unfold Hydrate, hydrationRows, New. generalize (∅ : Store) at 1 2.
    induction (map_to_list rows) as [|[k [en t]] l IH]; intros s; cbn; [done|]. apply IH.
  - etrans; [apply foldl_insert|].
    2:{ rewrite (right_id_L ∅ (∪)). unfold rowEntries.
        rewrite (list_to_map_fmap (M:=gmap string) rowEntry). f_equal. apply list_to_map_to_list. }
    rewrite <-list_fmap_compose. erewrite list_fmap_ext; [apply NoDup_fst_map_to_list|]. by intros ? [].
Qed.

Lemma rowEntries_lookup rows id : rowEntries rows !! id = rowEntry <$> rows !! id.
Proof. apply lookup_fmap. Qed.

(** What the bootstrap leaves for one flag. *)
Definition bootEntry (files : list (string * (bool * Z))) (rows : Rows) (id : string) : option entry :=
  match fileEntries files !! id with Some e => Some e | None => rowEntries rows !! id end.

Lemma boot_lookup rows files id :
  NoDup files.*1 -> initFeatureFlags (Some rows) files !! id = bootEntry files rows id.
Proof.
  intros Hnd. unfold initFeatureFlags, bootEntry. rewrite applyFiles_entries, Hydrate_entries by done.
  etrans; [apply lookup_union|].
  destruct (fileEntries files !! id) as [e|], (rowEntries rows !! id); reflexivity.
Qed.

Lemma fileEntries_lookup files id enabled now :
  NoDup files.*1 -> (id, (enabled, now)) ∈ files ->
  fileEntries files !! id = Some (mkEntry enabled SourceFile now true).
Proof.
  intros Hnd Hin. apply elem_of_list_to_map.
  - rewrite <-list_fmap_compose. erewrite list_fmap_ext; [exact Hnd|]. by intros ? [? []].
  - apply list_elem_of_fmap. by exists (id, (enabled, now)).
Qed.

Lemma fileEntries_locked files id e : fileEntries files !! id = Some e -> e_fromFile e = true.
Proof.
  intros He. apply elem_of_list_to_map_2, list_elem_of_fmap in He as ([? []] & [= -> ->] & _). done.
Qed.

Lemma fileEntries_None files id :
  (list_to_map files : gmap string (bool * Z)) !! id = None -> fileEntries files !! id = None.
Proof.
  intros Hf. apply not_elem_of_list_to_map. apply not_elem_of_list_to_map in Hf. intros Hin. apply Hf.
  rewrite <-list_fmap_compose in Hin. erewrite list_fmap_ext in Hin; [exact Hin|]. by intros ? [? []].
Qed.

(** [initFeatureFlags]: the file wins over the rows, the rows over the default of the code. *)
Lemma boot_precedence registry rows files id :
  NoDup files.*1 ->
  IsEnabled registry (initFeatureFlags (Some rows) files) id =
  match (list_to_map files : gmap string (bool * Z)) !! id, rows !! id, registry !! id with
  | Some (enabled, _), _, _ | None, Some (enabled, _), _ => enabled
  | None, None, Some def => d_Default def
  | None, None, None => false
  end.
Proof.
  intros Hnd. unfold IsEnabled, LookupDef. rewrite boot_lookup by done. unfold bootEntry.
  destruct ((list_to_map files : gmap string (bool * Z)) !! id) as [[en now]|] eqn:Hf.
  - apply elem_of_list_to_map_2 in Hf. by rewrite (fileEntries_lookup _ _ _ _ Hnd Hf).
  - rewrite fileEntries_None, rowEntries_lookup by done. by destruct (rows !! id) as [[]|].
Qed.

(** ** The grammar of ids *)

Definition isWord (w : list ascii) : Prop := w <> [] /\ Forall (fun c => isWordByte c = true) w.

Lemma separator_not_word c : isSeparator c = true -> isWordByte c = false.
Proof.
  unfold isSeparator, isWordByte. destruct (nat_of_ascii c =? 46)%nat eqn:H1; [apply Nat.eqb_eq in H1; by rewrite H1|].
  destruct (nat_of_ascii c =? 95)%nat eqn:H2; [apply Nat.eqb_eq in H2; by rewrite H2|].
  destruct (nat_of_ascii c =? 45)%nat eqn:H3; [apply Nat.eqb_eq in H3; by rewrite H3|done].
Qed.

Lemma matchFlagID_word w rest inWord :
  Forall (fun c => isWordByte c = true) w -> matchFlagID inWord (String.string_of_list_ascii (w ++ rest)) =
  matchFlagID (match w with [] => inWord | _ => true end) (String.string_of_list_ascii rest).
Proof.
  revert inWord. induction w as [|c w IH]; intros inWord Hw; cbn; [done|].
  apply Forall_cons in Hw as [-> Hw]. rewrite IH by done. by destruct w.
Qed.

(** Words joined by single separators: what the pattern stands for. *)
Definition flagID (id : string) : Prop :=
  exists w tail, isWord w /\ Forall (fun t => isSeparator (t.1) = true /\ isWord (t.2)) tail /\
    id = String.string_of_list_ascii (w ++ (tail ≫= fun t => t.1 :: t.2)).

Lemma matchFlagID_tail tail :
  Forall (fun t : ascii * list ascii => isSeparator (t.1) = true /\ isWord (t.2)) tail ->
  matchFlagID true (String.string_of_list_ascii (tail ≫= fun t => t.1 :: t.2)) = true.
Proof.
  induction tail as [|[sep w] tail IH]; intros Ht; cbn; [done|].
  apply Forall_cons in Ht as [[Hs [Hne Hw]] Ht]. cbn in *. rewrite (separator_not_word _ Hs), Hs. cbn.
  rewrite matchFlagID_word by done. destruct w; [done|]. by apply IH.
Qed.

Lemma matchFlagID_sound l inWord :
  matchFlagID inWord (String.string_of_list_ascii l) = true ->
  exists w tail, Forall (fun c => isWordByte c = true) w /\ (inWord = false -> w <> []) /\
    Forall (fun t => isSeparator (t.1) = true /\ isWord (t.2)) tail /\ l = w ++ (tail ≫= fun t => t.1 :: t.2).
Proof.
  revert inWord. induction l as [|c l IH]; intros inWord; cbn.
  { intros ->. exists [], []. by split_and!. }
  destruct (isWordByte c) eqn:Hc.
  - intros (w & tail & Hw & _ & Ht & ->)%IH. exists (c :: w), tail. split_and!; [by constructor|done..].
  - intros [[Hs ->]%andb_prop (w & tail & Hw & Hne & Ht & ->)%IH]%andb_prop.
    exists [], ((c, w) :: tail). split_and!; [done|done| |done]. constructor; [|done]. split; [done|]. split; [by apply Hne|done].
Qed.

Lemma flagIDPattern_spec id : flagIDPattern id = true <-> flagID id.
Proof.
  unfold flagIDPattern. split.
  - rewrite <-(String.string_of_list_ascii_of_string id) at 1.
    intros (w & tail & Hw & Hne & Ht & Hl)%matchFlagID_sound. exists w, tail. split_and!; [by split; [apply Hne|]|done|].
    by rewrite <-Hl, String.string_of_list_ascii_of_string.
  - intros (w & tail & [Hne Hw] & Ht & ->). rewrite matchFlagID_word by done. destruct w; [done|]. by apply matchFlagID_tail.
Qed.

(** Each definition is registered under its own id, which follows the grammar. *)
Definition registryWf (registry : Registry) : Prop :=
  map_Forall (fun id def => d_ID def = id /\ flagID id) registry.

Lemma Register_wf registry def registry' :
  registryWf registry -> Register registry def = inr registry' ->
  registryWf registry' /\ registry !! d_ID def = None /\ registry' = <[d_ID def := def]> registry.
Proof.
  unfold Register. intros Hwf. destruct (flagIDPattern (d_ID def)) eqn:Hp; cbn; [|done].
  destruct (registry !! d_ID def) eqn:Hr; [done|]. intros [= <-]. split_and!; [|done..].
  apply map_Forall_insert_2; [|done]. split; [done|]. by apply flagIDPattern_spec.
Qed.

(** ** Messages of peers *)

Lemma ApplyRemote_other s id id' enabled writtenAt :
  id <> id' -> ApplyRemote s id enabled writtenAt !! id' = s !! id'.
Proof. intros Hid. unfold ApplyRemote. repeat case_match; rewrite ?lookup_insert_ne by done; done. Qed.

(** The entry a message leaves for its own flag. *)
Definition remoteEntry (cur : option entry) (enabled : bool) (writtenAt : Z) : entry :=
  match cur with
  | Some cur => if e_fromFile cur || (writtenAt <? e_writtenAt cur) then cur else mkEntry enabled SourceRemote writtenAt false
  | None => mkEntry enabled SourceRemote writtenAt false
  end.

Lemma ApplyRemote_self s id enabled writtenAt :
  ApplyRemote s id enabled writtenAt !! id = Some (remoteEntry (s !! id) enabled writtenAt).
Proof.
  unfold ApplyRemote, remoteEntry. destruct (s !! id) as [cur|] eqn:Hc; [|by rewrite lookup_insert_eq].
  destruct (e_fromFile cur); cbn; [done|]. case_match; [done|]. by rewrite lookup_insert_eq.
Qed.

Lemma remoteEntry_comm cur en1 t1 en2 t2 :
  t1 <> t2 -> remoteEntry (Some (remoteEntry cur en1 t1)) en2 t2 = remoteEntry (Some (remoteEntry cur en2 t2)) en1 t1.
Proof.
  intros Ht. unfold remoteEntry. destruct cur as [[en src t locked]|]; cbn; [destruct locked; cbn; [done|]|];
    repeat match goal with |- context [?x <? ?y] => destruct (Z.ltb_spec x y); cbn end; try done; lia.
Qed.

(** Messages with different times leave the same store in any order. *)
Lemma gossip_order_irrelevant (messages messages' : list (string * (bool * Z))) s :
  messages ≡ₚ messages' -> NoDup (snd ∘ snd <$> messages) ->
  foldr (fun '(id, (enabled, t)) s => ApplyRemote s id enabled t) s messages =
  foldr (fun '(id, (enabled, t)) s => ApplyRemote s id enabled t) s messages'.
Proof.
  intros Hperm Hnd. apply (foldr_permutation (=)); [intros [? []]; solve_proper| |done].
  intros j1 [id1 [en1 t1]] j2 [id2 [en2 t2]] s' Hj H1 H2.
  assert (t1 <> t2) as Ht.
  { intros ->. apply Hj. eapply (NoDup_lookup _ j1 j2 t2 Hnd); rewrite list_lookup_fmap; [by rewrite H1|by rewrite H2]. }
  apply map_eq. intros id.
  destruct (decide (id1 = id)) as [->|Hn1], (decide (id2 = id)) as [->|Hn2];
    rewrite ?ApplyRemote_self, ?ApplyRemote_other by done; rewrite ?ApplyRemote_self, ?ApplyRemote_other by done; try done.
  f_equal. by apply remoteEntry_comm.
Qed.

(** ** One update *)

Lemma setEntry_spec s id enabled now :
  setEntry s id enabled now =
  if from_option e_fromFile false (s !! id) then inl ErrFlagLocked else inr (<[id := mkEntry enabled SourceDB now false]> s).
Proof. unfold setEntry. by destruct (s !! id). Qed.

Lemma statusFor_ext s s' def registered :
  s !! d_ID def = s' !! d_ID def -> statusFor s def registered = statusFor s' def registered.
Proof. intros H. unfold statusFor. by rewrite H. Qed.

(** Plays the events of one update, alone. *)
Ltac play :=
  repeat (progress (unfold answer, advance; cbn -[delete];
    rewrite ?lookup_empty, ?lookup_insert_eq, ?insert_insert_eq, ?bool_decide_false by done)).

(** [updateFlag] is the run of its own parts. *)
Lemma updateFlag_runs registry s rows u id enabled now persists sent :
  id <> "" ->
  let '(s', rows', r) := updateFlag registry s rows id (Some enabled) now persists in
  exists evs, run registry (mkState s rows ∅ sent) (Begin u id enabled :: Write u now :: evs) =
    Some (mkState s' rows' ∅ (sent ++ [(id, r)])).
Proof.
  intros Hid. unfold updateFlag, Set_. rewrite bool_decide_false by done.
  destruct (LookupDef registry id) as [def|] eqn:Hdef.
  2:{ exists []. play. rewrite Hdef. play. by rewrite delete_insert_eq. }
  destruct (setEntry s id enabled now) as [err|s1] eqn:Hset.
  { exists []. play. rewrite Hdef. play. rewrite Hset. play. by rewrite delete_insert_eq. }
  destruct rows as [rows|]; [destruct persists|].
  - exists [ReadStatus u; Persist u true]. play. rewrite Hdef. play. rewrite Hset. play. by rewrite delete_insert_eq.
  - exists [ReadStatus u; Persist u false; Rollback u]. play. rewrite Hdef. play. rewrite Hset. play. by rewrite delete_insert_eq.
  - exists [ReadStatus u; Persist u true]. play. rewrite Hdef. play. rewrite Hset. play. by rewrite delete_insert_eq.
Qed.

(** A snapshot put back after a toggle leaves the store as it was. *)
Lemma Restore_Snapshot s id enabled now s' :
  setEntry s id enabled now = inr s' -> Restore s' id (Snapshot s id) = s.
Proof.
  rewrite setEntry_spec. case_match; [done|]. intros [= <-]. unfold Restore, Snapshot.
  destruct (s !! id) eqn:Hs; [by rewrite insert_insert_eq, insert_id|by rewrite delete_insert_id].
Qed.

(** ** Updates that interleave *)

Lemma run_keeps registry (I : State -> Prop) :
  (forall st ev st', I st -> step registry st ev = Some st' -> I st') ->
  forall evs st st', I st -> run registry st evs = Some st' -> I st'.
Proof.
  intros Hstep evs. induction evs as [|ev evs IH]; intros st st' HI; cbn; [by intros [= <-]|].
  destruct (step registry st ev) as [st1|] eqn:Hs; [|done]. apply IH. by eapply Hstep.
Qed.

(** The row of a flag, if there is a table. *)
Definition rowOf (rows : option Rows) (id : string) : option (bool * Z) := rows ≫= fun rows => rows !! id.

(** What is true of a flag whose entry comes from the file. *)
Record locked (id : string) (e : entry) (row : option (bool * Z)) (st : State) : Prop := mkLocked {
  lk_entry : store st !! id = Some e;
  lk_row : rowOf (configStore st) id = row;
  lk_updates : map_Forall (fun _ p => phaseID p = id -> exists enabled prior, p = Snapped id enabled prior) (updates st);
  lk_answers : Forall (fun '(id', r) => id' = id -> r = Conflict \/ r = NotFound) (answers st);
}.

Lemma locked_answer id e row st s rows u id' r :
  locked id e row st -> s !! id = Some e -> rowOf rows id = row ->
  (id' = id -> r = Conflict \/ r = NotFound) -> locked id e row (answer st s rows u id' r).
Proof.
  intros [He Hr Hu Ha] Hs Hrow Hans. constructor; cbn; [done|done|by apply map_Forall_delete|].
  apply Forall_app. split; [done|]. by constructor.
Qed.

Lemma locked_advance id e row st s u p :
  locked id e row st -> s !! id = Some e ->
  (phaseID p = id -> exists enabled prior, p = Snapped id enabled prior) -> locked id e row (advance st s u p).
Proof. intros [He Hr Hu Ha] Hs Hp. constructor; cbn; [done|done|by apply map_Forall_insert_2|done]. Qed.

Lemma rowOf_other rows id id' enabled t : id' <> id -> rowOf (Some (UpsertFeatureFlag rows id' enabled t)) id = rowOf (Some rows) id.
Proof. intros Hid. unfold rowOf, UpsertFeatureFlag. cbn. by rewrite lookup_insert_ne. Qed.

Lemma Restore_other s id id' prior : id' <> id -> Restore s id' prior !! id = s !! id.
Proof. intros Hid. unfold Restore. destruct prior; [by rewrite lookup_insert_ne|by rewrite lookup_delete_ne]. Qed.

Lemma step_locked registry id e row st ev st' :
  e_fromFile e = true -> locked id e row st -> step registry st ev = Some st' -> locked id e row st'.
Proof.
  intros Hfile HI. pose proof HI as [He Hr Hu Ha]. destruct ev as [u id' en|u now|u|u persists|u|id' en t]; cbn.
  - destruct (updates st !! u) eqn:Hp; [done|]. case_bool_decide; [done|]. intros [= <-].
    apply locked_advance; [done..|]. cbn. intros ->. eauto.
  - destruct (updates st !! u) as [[id' en prior| | |]|] eqn:Hp; try done.
    destruct (LookupDef registry id') as [def|]; [|intros [= <-]; apply locked_answer; auto].
    rewrite setEntry_spec. destruct (decide (id' = id)) as [->|Hid].
    { rewrite He. cbn. rewrite Hfile. intros [= <-]. apply locked_answer; auto. }
    destruct (from_option e_fromFile false (store st !! id')); intros [= <-]; [by apply locked_answer|].
    apply locked_advance; [done|by rewrite lookup_insert_ne|done].
  - destruct (updates st !! u) as [[|id' en prior def| |]|] eqn:Hp; try done. intros [= <-].
    apply locked_advance; [done..|]. cbn. intros ->. by destruct (Hu _ _ Hp eq_refl) as (?&?&?).
  - destruct (updates st !! u) as [[| |id' en prior status|]|] eqn:Hp; try done.
    assert (id' <> id) as Hid by (intros ->; by destruct (Hu _ _ Hp eq_refl) as (?&?&?)).
    destruct (configStore st) as [rows|] eqn:Hrows; [|intros [= <-]; by apply locked_answer].
    destruct persists; intros [= <-]; [apply locked_answer; [done|done|by rewrite rowOf_other|done]|].
    by apply locked_advance.
  - destruct (updates st !! u) as [[| | |id' prior]|] eqn:Hp; try done. intros [= <-].
    assert (id' <> id) as Hid by (intros ->; by destruct (Hu _ _ Hp eq_refl) as (?&?&?)).
    apply locked_answer; [done|by rewrite Restore_other|done|done].
  - intros [= <-]. constructor; cbn; [|done..]. destruct (decide (id' = id)) as [->|Hid]; [|by rewrite ApplyRemote_other].
    rewrite ApplyRemote_self, He. cbn. by rewrite Hfile.
Qed.

(** A flag of the file keeps the value of the file: whatever toggles and
    messages of peers interleave, in whatever order and with whatever failures of
    the database, its entry stays the one the bootstrap installed, its row in the
    database is not touched, so that it comes back when the file drops the flag,
    and every toggle of it is refused. *)
Theorem file_flags_fixed registry rows files evs st id enabled now
    (Hnodup : NoDup files.*1) (Hfile : (id, (enabled, now)) ∈ files)
    (Hrun : run registry (boot rows files) evs = Some st) :
  store st !! id = Some (mkEntry enabled SourceFile now true) /\
  IsEnabled registry (store st) id = enabled /\
  rowOf (configStore st) id = rowOf rows id /\
  Forall (fun '(id', r) => id' = id -> r = Conflict \/ r = NotFound) (answers st).
Proof.
  assert (locked id (mkEntry enabled SourceFile now true) (rowOf rows id) st) as [He Hr _ Ha].
  { eapply run_keeps; [|..|exact Hrun]; [intros ???; by apply step_locked|].
    constructor; cbn; [|done|done|done]. unfold initFeatureFlags. rewrite applyFiles_entries by done.
    apply lookup_union_Some_l. by apply fileEntries_lookup. }
  split_and!; [done| |done|done]. unfold IsEnabled. by rewrite He.
Qed.

(** ** Toggles and a restart *)

(** The updates of a flag that are under way. *)
Definition pending (id : string) (us : gmap nat Phase) : gmap nat Phase := filter (fun kv => phaseID (kv.2) = id) us.

Lemma pending_lookup id us u p : us !! u = Some p -> phaseID p = id -> pending id us !! u = Some p.
Proof. intros Hu Hp. by apply map_lookup_filter_Some. Qed.

Lemma pending_insert id us u p : phaseID p = id -> pending id (<[u := p]> us) = <[u := p]> (pending id us).
Proof. intros Hp. by apply map_filter_insert_True. Qed.

Lemma pending_None id us u : (forall q, us !! u = Some q -> phaseID q <> id) -> pending id us !! u = None.
Proof. intros Hu. apply map_lookup_filter_None. right. intros q Hq. by apply Hu. Qed.

Lemma pending_delete id us u : pending id (delete u us) = delete u (pending id us).
Proof. apply map_filter_delete. Qed.

Lemma pending_insert_other id us u p :
  phaseID p <> id -> (forall q, us !! u = Some q -> phaseID q <> id) -> pending id (<[u := p]> us) = pending id us.
Proof.
  intros Hp Hu. unfold pending. rewrite map_filter_insert_False by done. rewrite map_filter_delete.
  apply delete_id. by apply pending_None.
Qed.

Lemma pending_delete_other id us u :
  (forall q, us !! u = Some q -> phaseID q <> id) -> pending id (delete u us) = pending id us.
Proof. intros Hu. rewrite pending_delete. apply delete_id. by apply pending_None. Qed.

(** The status of the last toggle of a flag that was answered without an error. *)
Definition lastOK (id : string) (rs : list (string * Response)) : option FlagStatus :=
  last (omap (fun '(id', r) => if bool_decide (id' = id) then match r with OK s => Some s | _ => None end else None) rs).

Lemma lastOK_snoc id rs id' r :
  lastOK id (rs ++ [(id', r)]) =
  match (if bool_decide (id' = id) then match r with OK s => Some s | _ => None end else None) with
  | Some s => Some s
  | None => lastOK id rs
  end.
Proof.
  unfold lastOK. rewrite omap_app. cbn. case_match; [by rewrite last_snoc|by rewrite app_nil_r].
Qed.

Section restart.
Context (registry : Registry) (files : list (string * (bool * Z))) (rows0 : Rows) (id : string).
Hypothesis Hwf : registryWf registry.
Hypothesis Hnodup : NoDup files.*1.

(** What an update under way knows, by its phase. *)
Definition phaseInv (rows : Rows) (s : Store) (p : Phase) : Prop :=
  match p with
  | Snapped _ _ prior => s !! id = bootEntry files rows id /\ prior = bootEntry files rows id
  | Written _ enabled prior def =>
      prior = bootEntry files rows id /\ fileEntries files !! id = None /\ registry !! id = Some def /\
      exists now, s !! id = Some (mkEntry enabled SourceDB now false)
  | Persisting _ enabled prior status =>
      prior = bootEntry files rows id /\ fileEntries files !! id = None /\
      exists def now, registry !! id = Some def /\ s !! id = Some (mkEntry enabled SourceDB now false) /\
        status = statusFor s def true
  | RollingBack _ prior => prior = bootEntry files rows id
  end.

(** The row of the flag is that of its last successful toggle, or the first one. *)
Definition settled (rows : Rows) (rs : list (string * Response)) : Prop :=
  match lastOK id rs with
  | Some status => exists def, registry !! id = Some def /\ statusFor (initFeatureFlags (Some rows) files) def true = status
  | None => rows !! id = rows0 !! id
  end.

Definition serialInv (st : State) : Prop :=
  exists rows, configStore st = Some rows /\ settled rows (answers st) /\
  ((pending id (updates st) = ∅ /\ store st !! id = bootEntry files rows id) \/
   exists u p, pending id (updates st) = {[u := p]} /\ phaseInv rows (store st) p).

Lemma phaseInv_frame rows rows' s s' p :
  s' !! id = s !! id -> rows' !! id = rows !! id -> phaseInv rows s p -> phaseInv rows' s' p.
Proof.
  intros Hs Hr. assert (bootEntry files rows' id = bootEntry files rows id) as Hb.
  { unfold bootEntry. by rewrite !rowEntries_lookup, Hr. }
  destruct p; cbn; rewrite Hb, ?Hs; try done.
  intros (-> & Hf & def & now & Hdef & Hs' & ->). split_and!; [done..|]. exists def, now. split_and!; [done|done|].
  apply statusFor_ext. by destruct (Hwf _ _ Hdef) as [-> _].
Qed.

Lemma settled_frame rows rows' rs rs' :
  rows' !! id = rows !! id -> lastOK id rs' = lastOK id rs -> settled rows rs -> settled rows' rs'.
Proof.
  intros Hr Hl. unfold settled. rewrite Hl. destruct (lastOK id rs); [|by rewrite Hr].
  intros (def & Hdef & <-). exists def. split; [done|]. apply statusFor_ext. destruct (Hwf _ _ Hdef) as [-> _].
  rewrite !boot_lookup by done. unfold bootEntry. by rewrite !rowEntries_lookup, Hr.
Qed.

(** What concerns another flag changes nothing of this one. *)
Lemma serialInv_frame st st' rows' :
  serialInv st -> configStore st' = Some rows' ->
  (forall rows, configStore st = Some rows -> rows' !! id = rows !! id) ->
  store st' !! id = store st !! id -> pending id (updates st') = pending id (updates st) ->
  lastOK id (answers st') = lastOK id (answers st) -> serialInv st'.
Proof.
  intros (rows & Hrows & Hset & HI) Hrows' Hr Hs Hp Hl. specialize (Hr _ Hrows). exists rows'. split_and!; [done|by eapply settled_frame|].
  rewrite Hp, Hs. destruct HI as [[-> ->]|(u & p & -> & HI)].
  - left. split; [done|]. unfold bootEntry. by rewrite !rowEntries_lookup, Hr.
  - right. exists u, p. split; [done|]. by eapply phaseInv_frame.
Qed.

(** The update under way is the only one of its flag. *)
Lemma serialInv_at st u p :
  serialInv st -> updates st !! u = Some p -> phaseID p = id ->
  exists rows, configStore st = Some rows /\ settled rows (answers st) /\ phaseInv rows (store st) p /\
    (forall p', phaseID p' = id -> pending id (<[u := p']> (updates st)) = {[u := p']}) /\
    pending id (delete u (updates st)) = ∅.
Proof.
  intros (rows & Hrows & Hset & HI) Hu Hp. pose proof (pending_lookup _ _ _ _ Hu Hp) as Hpu. exists rows.
  destruct HI as [[He _]|(u' & q & He & HI)]; rewrite He in Hpu; [done|].
  apply lookup_singleton_Some in Hpu as [-> ->]. split_and!; [done..| |].
  - intros p' Hp'. rewrite pending_insert, He by done. apply insert_singleton_eq.
  - rewrite pending_delete, He. apply delete_singleton_eq.
Qed.

(** Steps of updates of other flags. *)
Lemma serial_advance_other st u p rows s :
  serialInv st -> configStore st = Some rows -> (forall q, updates st !! u = Some q -> phaseID q <> id) ->
  phaseID p <> id -> s !! id = store st !! id -> serialInv (advance st s u p).
Proof.
  intros HI Hr Hu Hp Hs. eapply serialInv_frame; [done|cbn; done| |done|cbn; by apply pending_insert_other|done].
  intros rows1 Hrows1. by simplify_eq.
Qed.

Lemma serial_answer_other st u rows rows' s id' r :
  serialInv st -> configStore st = Some rows -> (forall q, updates st !! u = Some q -> phaseID q <> id) ->
  id' <> id -> s !! id = store st !! id -> rows' !! id = rows !! id -> serialInv (answer st s (Some rows') u id' r).
Proof.
  intros HI Hr Hu Hid Hs Hrow. eapply serialInv_frame; [done|cbn; done| |done|cbn; by apply pending_delete_other|].
  - intros rows1 Hrows1. by simplify_eq.
  - cbn. rewrite lastOK_snoc. by rewrite bool_decide_false.
Qed.

(** An update that ends with an error leaves the entry of before. *)
Lemma serial_refused st u p rows s r :
  serialInv st -> updates st !! u = Some p -> phaseID p = id -> configStore st = Some rows ->
  s !! id = bootEntry files rows id -> (forall status, r <> OK status) -> serialInv (answer st s (Some rows) u id r).
Proof.
  intros HI Hu Hp Hrows Hs Hr. destruct (serialInv_at _ _ _ HI Hu Hp) as (rows1 & Hrows1 & Hset & _ & _ & Hdel).
  simplify_eq. exists rows. split_and!; [done| |left; done]. eapply settled_frame; [done| |done]. cbn.
  rewrite lastOK_snoc, bool_decide_true by done. destruct r; try done. by destruct (Hr status).
Qed.

Lemma serial_write st u id' en prior now st' :
  serialInv st -> updates st !! u = Some (Snapped id' en prior) -> step registry st (Write u now) = Some st' -> serialInv st'.
Proof.
  intros HI Hu Hs. cbn in Hs. rewrite Hu in Hs. pose proof HI as (rows & Hrows & _). destruct (decide (id' = id)) as [->|Hid].
  - destruct (serialInv_at _ _ _ HI Hu eq_refl) as (rows1 & Hrows1 & Hset & [He ->] & Hins & _). simplify_eq.
    unfold LookupDef in Hs. destruct (registry !! id) as [def|] eqn:Hdef.
    2:{ simplify_eq. rewrite Hrows. by eapply serial_refused. }
    rewrite setEntry_spec in Hs. destruct (from_option e_fromFile false (store st !! id)) eqn:Hfile; simplify_eq.
    { rewrite Hrows. by eapply serial_refused. }
    exists rows. split_and!; [done..|]. right. exists u, (Written id en (bootEntry files rows id) def).
    split; [by apply Hins|]. split_and!; [done| |done|].
    + destruct (fileEntries files !! id) eqn:Hf; [|done]. rewrite He in Hfile. unfold bootEntry in Hfile.
      rewrite Hf in Hfile. cbn in Hfile. by rewrite (fileEntries_locked _ _ _ Hf) in Hfile.
    + exists now. cbn. by rewrite lookup_insert_eq.
  - assert (forall q, updates st !! u = Some q -> phaseID q <> id) as Hq by (intros q Hq; by simplify_eq).
    destruct (LookupDef registry id'); [|simplify_eq; rewrite Hrows; by eapply serial_answer_other].
    rewrite setEntry_spec in Hs. destruct (from_option e_fromFile false (store st !! id')); simplify_eq.
    + rewrite Hrows. by eapply serial_answer_other.
    + eapply serial_advance_other; try done. by rewrite lookup_insert_ne.
Qed.

Lemma serial_status st u id' en prior def st' :
  serialInv st -> updates st !! u = Some (Written id' en prior def) -> step registry st (ReadStatus u) = Some st' -> serialInv st'.
Proof.
  intros HI Hu Hs. cbn in Hs. rewrite Hu in Hs. simplify_eq. pose proof HI as (rows & Hrows & _).
  destruct (decide (id' = id)) as [->|Hid].
  - destruct (serialInv_at _ _ _ HI Hu eq_refl) as (rows1 & Hrows1 & Hset & (-> & Hf & Hdef & now & He) & Hins & _).
    exists rows1. split_and!; [done..|]. right. eexists u, _. split; [by apply Hins|]. split_and!; [done..|].
    by exists def, now.
  - eapply serial_advance_other; try done. intros q Hq. by simplify_eq.
Qed.

Lemma serial_persist st u id' en prior status persists st' :
  serialInv st -> updates st !! u = Some (Persisting id' en prior status) ->
  step registry st (Persist u persists) = Some st' -> serialInv st'.
Proof.
  intros HI Hu Hs. cbn in Hs. rewrite Hu in Hs. pose proof HI as (rows & Hrows & _). rewrite Hrows in Hs.
  destruct (decide (id' = id)) as [->|Hid].
  - destruct (serialInv_at _ _ _ HI Hu eq_refl) as (rows1 & Hrows1 & Hset & (-> & Hf & def & now & Hdef & He & ->) & Hins & Hdel).
    simplify_eq. destruct (Hwf _ _ Hdef) as [HdefID _].
    destruct persists; simplify_eq; [|exists rows; split_and!; [done..|]; right; eexists u, _; by split; [apply Hins|]].
    assert (s_UpdatedAt (statusFor (store st) def true) = now) as -> by (unfold statusFor; by rewrite HdefID, He).
    assert (store st !! id = bootEntry files (UpsertFeatureFlag rows id en now) id) as Hb.
    { unfold bootEntry. rewrite Hf, He, rowEntries_lookup. unfold UpsertFeatureFlag. by rewrite lookup_insert_eq. }
    exists (UpsertFeatureFlag rows id en now). split_and!; [done| |left; done].
    unfold settled. cbn. rewrite lastOK_snoc, bool_decide_true by done. exists def. split; [done|]. apply statusFor_ext.
    rewrite HdefID. by rewrite boot_lookup.
  - assert (forall q, updates st !! u = Some q -> phaseID q <> id) as Hq by (intros q Hq; by simplify_eq).
    destruct persists; simplify_eq; [|by eapply serial_advance_other].
    eapply serial_answer_other; try done. unfold UpsertFeatureFlag. by rewrite lookup_insert_ne.
Qed.

Lemma serial_rollback st u id' prior st' :
  serialInv st -> updates st !! u = Some (RollingBack id' prior) -> step registry st (Rollback u) = Some st' -> serialInv st'.
Proof.
  intros HI Hu Hs. cbn in Hs. rewrite Hu in Hs. simplify_eq. pose proof HI as (rows & Hrows & _). rewrite Hrows.
  destruct (decide (id' = id)) as [->|Hid].
  - destruct (serialInv_at _ _ _ HI Hu eq_refl) as (rows1 & Hrows1 & _ & -> & _). simplify_eq.
    eapply serial_refused; [done..| |done]. unfold Restore. destruct (bootEntry files rows id); [by rewrite lookup_insert_eq|by rewrite lookup_delete_eq].
  - eapply serial_answer_other; try done; [intros q Hq; by simplify_eq|by apply Restore_other].
Qed.

Lemma serial_step st ev st' :
  serialInv st -> serialEvent st ev = true -> step registry st ev = Some st' -> serialInv st'.
Proof.
  intros HI Hev Hs. pose proof HI as (rows & Hrows & Hset & Hu). destruct ev as [u id' en|u now|u|u persists|u|id' en t]; [| | | | |done].
  - cbn in Hs, Hev. destruct (updates st !! u) eqn:Hnone; [done|]. case_bool_decide; [done|]. simplify_eq.
    destruct (decide (id' = id)) as [->|Hid]; [|by eapply serial_advance_other; [..|done]; try done; intros; simplify_eq].
    apply bool_decide_eq_true_1 in Hev.
    assert (pending id (updates st) = ∅) as Hempty.
    { apply map_empty. intros w. apply pending_None. intros q Hq. by apply (Hev _ _ Hq). }
    destruct Hu as [[_ He]|(w & q & Hw & _)]; [|rewrite Hempty in Hw; by destruct (map_non_empty_singleton w q)].
    exists rows. split_and!; [done..|]. right. eexists u, _. split; [cbn; rewrite pending_insert, Hempty by done; done|]. done.
  - cbn in Hs. destruct (updates st !! u) as [[]|] eqn:Hp; try done. eapply serial_write; [done..|]. cbn. by rewrite Hp.
  - cbn in Hs. destruct (updates st !! u) as [[]|] eqn:Hp; try done. eapply serial_status; [done..|]. cbn. by rewrite Hp.
  - cbn in Hs. destruct (updates st !! u) as [[]|] eqn:Hp; try done. eapply serial_persist; [done..|]. cbn. by rewrite Hp.
  - cbn in Hs. destruct (updates st !! u) as [[]|] eqn:Hp; try done. eapply serial_rollback; [done..|]. cbn. by rewrite Hp.
Qed.

Lemma serialRun_inv evs st st' : serialInv st -> serialRun registry st evs = Some st' -> serialInv st'.
Proof.
  revert st. induction evs as [|ev evs IH]; intros st HI; cbn; [by intros [= <-]|].
  destruct (serialEvent st ev) eqn:Hev; [|done]. destruct (step registry st ev) as [st1|] eqn:Hs; [|done].
  apply IH. by eapply serial_step.
Qed.

Lemma boot_serial : serialInv (boot (Some rows0) files).
Proof. exists rows0. split_and!; [done|done|]. left. split; [done|]. cbn. by rewrite boot_lookup. Qed.

End restart.

(** C24. Toggles survive a restart: when no two updates of one flag overlap (those
    of different flags may, and the database may fail), and none is under way, the
    store is exactly what a restart would build from the table and the file, and a
    flag has the status answered to its last successful toggle, or the row it
    started with. *)
Theorem toggles_survive_restart registry rows files evs st
    (Hwf : registryWf registry) (Hnodup : NoDup files.*1)
    (Hrun : serialRun registry (boot (Some rows) files) evs = Some st) (Hidle : updates st = ∅) :
  exists rows', configStore st = Some rows' /\ store st = initFeatureFlags (Some rows') files /\
    forall id, match lastOK id (answers st) with
               | Some status => Status registry (store st) id = inr status
               | None => rows' !! id = rows !! id
               end.
Proof.
  assert (forall id, serialInv registry files rows id st) as HI.
  { intros id. eapply serialRun_inv; [done..| |exact Hrun]. by apply boot_serial. }
  destruct (HI "") as (rows' & Hrows & _). exists rows'. split; [done|].
  assert (store st = initFeatureFlags (Some rows') files) as Hs.
  { apply map_eq. intros id. rewrite boot_lookup by done. destruct (HI id) as (rows1 & Hrows1 & _ & HU). simplify_eq.
    rewrite Hidle in HU. destruct HU as [[_ He]|(u & p & Hp & _)]; [done|].
    by destruct (map_non_empty_singleton u p). }
  split; [done|]. intros id. destruct (HI id) as (rows1 & Hrows1 & Hset & _). simplify_eq. unfold settled in Hset.
  destruct (lastOK id (answers st)); [|done]. destruct Hset as (def & Hdef & <-).
  unfold Status, LookupDef. by rewrite Hdef, Hs.
Qed.

(** ** On concrete flags *)

Definition mux : FlagDef := mkDef "experimental.mux" "Mux" "" false.
Definition cache : FlagDef := mkDef "cache-v2" "Cache" "" true.
Definition audit : FlagDef := mkDef "audit" "Audit" "" false.

Definition demo : Registry := <["experimental.mux" := mux]> (<["cache-v2" := cache]> {["audit" := audit]}).

Example demo_registered :
  (match Register ∅ mux with inr r => match Register r cache with inr r => Register r audit | e => e end | e => e end) = inr demo.
Proof. reflexivity. Qed.

Example ids_rejected :
  flagIDPattern <$> [""; "UPPERCASE"; "has space"; "_leading"; "trailing_"; "dou--ble"; "simple"; "dot.namespace"; "with-dash"; "a1.b2-c3"] =
  [false; false; false; false; false; false; true; true; true; true].
Proof. reflexivity. Qed.

Lemma demo_wf : registryWf demo.
Proof.
  unfold demo, registryWf. repeat (apply map_Forall_insert_2; [split; [done|by apply flagIDPattern_spec]|]). apply map_Forall_empty.
Qed.

Definition demoRows : Rows := {["cache-v2" := (false, 5)]}.
Definition demoFiles : list (string * (bool * Z)) := [("audit", (true, 9))].

(** Two overlapping toggles of different flags, one that the database fails, and
    one of the flag of the file; the messages are for the run with peers. *)
Definition demoToggles : list Event :=
  [Begin 1 "experimental.mux" true; Begin 2 "cache-v2" true; Write 2 20; Write 1 21; ReadStatus 1; Begin 3 "audit" false;
   Persist 1 true; ReadStatus 2; Write 3 22; Persist 2 false; Rollback 2].

Lemma file_flags_fixed_witness :
  exists st, run demo (boot (Some demoRows) demoFiles) (Gossip "audit" false 99 :: demoToggles) = Some st /\
    IsEnabled demo (store st) "audit" = true.
Proof.
  eexists. split; [vm_compute; reflexivity|].
  eapply (file_flags_fixed demo (Some demoRows) demoFiles (Gossip "audit" false 99 :: demoToggles) _ "audit" true 9).
  - apply NoDup_singleton.
  - apply list_elem_of_here.
  - vm_compute. reflexivity.
Defined.

Lemma toggles_survive_restart_witness :
  exists st rows', serialRun demo (boot (Some demoRows) demoFiles) demoToggles = Some st /\
    configStore st = Some rows' /\ store st = initFeatureFlags (Some rows') demoFiles /\
    IsEnabled demo (store st) "experimental.mux" = true /\ IsEnabled demo (store st) "cache-v2" = false.
Proof.
  destruct (serialRun demo (boot (Some demoRows) demoFiles) demoToggles) as [st|] eqn:Hrun; [|vm_compute in Hrun; discriminate].
  assert (updates st = ∅) as Hidle by (vm_compute in Hrun; injection Hrun as <-; reflexivity).
  destruct (toggles_survive_restart demo demoRows demoFiles demoToggles st demo_wf (NoDup_singleton _) Hrun Hidle) as (rows' & Hr & Hs & _).
  exists st, rows'. split_and!; [done|done|done|..]; vm_compute in Hrun; injection Hrun as <-; reflexivity.
Defined.

(** Overlapping toggles of one flag, both answered without an error, after which
    the store says off and the table, hence a restart, says on. *)
Lemma overlapping_toggles_diverge :
  exists evs st rows', run demo (boot (Some ∅) []) evs = Some st /\ updates st = ∅ /\ configStore st = Some rows' /\
    IsEnabled demo (store st) "experimental.mux" = false /\
    IsEnabled demo (initFeatureFlags (Some rows') []) "experimental.mux" = true.
Proof.
  exists [Begin 1 "experimental.mux" true; Begin 2 "experimental.mux" false; Write 1 20; ReadStatus 1; Write 2 21; ReadStatus 2;
          Persist 2 true; Persist 1 true].
  eexists _, _. split; [vm_compute; reflexivity|]. split_and!; reflexivity.
Qed.

(** An update whose row is refused undoes the one that succeeded in between. *)
Lemma rollback_undoes_other :
  exists evs st rows', run demo (boot (Some ∅) []) evs = Some st /\ updates st = ∅ /\ configStore st = Some rows' /\
    IsEnabled demo (store st) "cache-v2" = true /\
    IsEnabled demo (initFeatureFlags (Some rows') []) "cache-v2" = false.
Proof.
  exists [Begin 1 "cache-v2" true; Write 1 20; ReadStatus 1; Begin 2 "cache-v2" false; Write 2 21; ReadStatus 2;
          Persist 2 true; Persist 1 false; Rollback 1].
  eexists _, _. split; [vm_compute; reflexivity|]. split_and!; reflexivity.
Qed.

End FlagsTheory.
