(* ===== verification/TempTokens.v ===== *)
(** * Temporary tokens (src/framework/temptoken; src/transports/celer-route-http/handlers: temptokens.go, middlewares.go)

    The scopes and their routes, minting, validating and deleting tokens over the
    rows of the database, the scopes of the gateway and the last step of its
    authentication. *)

From S2P Require Import Prelude GoStrings.
From Stdlib Require Import Ascii.

Local Open Scope string_scope.
Local Open Scope Z_scope.
Local Open Scope list_scope.

Module TempTokens.

(** ** Strings *)

Definition upper_byte (c : ascii) : ascii :=
  let n := nat_of_ascii c in
  if (97 <=? n)%nat && (n <=? 122)%nat then ascii_of_nat (n - 32) else c.

(** [strings.ToUpper], on ASCII text. *)
Fixpoint ToUpper (s : string) : string :=
  match s with
  | EmptyString => EmptyString
  | String c s => String (upper_byte c) (ToUpper s)
  end.

(** [strings.ReplaceAll] for a non-empty [old]: [skip] bytes are left of the last
    occurrence. *)
Fixpoint replaceFrom (skip : nat) (s old new : string) : string :=
  match s with
  | EmptyString => EmptyString
  | String c s' =>
      match skip with
      | S skip => replaceFrom skip s' old new
      | O => if HasPrefix s old then new +:+ replaceFrom (String.length old - 1) s' old new
             else String c (replaceFrom 0 s' old new)
      end
  end.

Definition ReplaceAll (s old new : string) : string := replaceFrom 0 s old new.

(** ** Scopes *)

Record RoutePattern := mkRoute { Method : string; Path : string }.

Record Scope := mkScope { Name : string; AllowedRoutes : list RoutePattern; ResourceIDInPath : string; MaxTTL : Z }.

(** The path a route stands for, for one resource. *)
Definition expectedPath (s : Scope) (r : RoutePattern) (resourceID : string) : string :=
  if bool_decide (ResourceIDInPath s = "") then Path r else ReplaceAll (Path r) (ResourceIDInPath s) resourceID.

Definition matchesRequest (s : Scope) (method path resourceID : string) : bool :=
  let method := ToUpper method in
  existsb (fun r => bool_decide (ToUpper (Method r) = method) && bool_decide (expectedPath s r resourceID = path))
    (AllowedRoutes s).

Notation Registry := (gmap string Scope).

Definition NewRegistry : Registry := ∅.

Inductive RegisterError := NameRequired | NoRoutes | NoMaxTTL | PlaceholderMissing (r : RoutePattern) | AlreadyRegistered.

Definition Register (registry : Registry) (s : Scope) : RegisterError + Registry :=
  if bool_decide (Name s = "") then inl NameRequired
  else if bool_decide (AllowedRoutes s = []) then inl NoRoutes
  else if MaxTTL s <=? 0 then inl NoMaxTTL
  else match (if bool_decide (ResourceIDInPath s = "") then None
              else List.find (fun r => negb (Contains (Path r) (ResourceIDInPath s))) (AllowedRoutes s)) with
       | Some r => inl (PlaceholderMissing r)
       | None => match registry !! Name s with
                 | Some _ => inl AlreadyRegistered
                 | None => inr (<[Name s := s]> registry)
                 end
       end.

Definition Lookup_ (registry : Registry) (name : string) : option Scope := registry !! name.

(** ** Rows *)

(** A row, less the token itself, encrypted or not, that no lookup reads. *)
Record TempToken := mkToken { ID : string; TokenHash : string; ScopeName : string; ResourceID : string; ExpiresAt : Z }.

#[export] Instance TempToken_eq_dec : EqDecision TempToken.
Proof. solve_decision. Defined.

Definition Rows : Type := list TempToken.

(** [CreateTempToken]: the id is the primary key and the hash has a unique index. *)
Definition CreateTempToken (rows : Rows) (row : TempToken) : option Rows :=
  if existsb (fun r => bool_decide (ID r = ID row) || bool_decide (TokenHash r = TokenHash row)) rows then None
  else Some (rows ++ [row]).

Definition GetTempTokenByHash (rows : Rows) (tokenHash : string) : option TempToken :=
  List.find (fun r => bool_decide (TokenHash r = tokenHash)) rows.

Definition DeleteTempTokensByResourceID (rows : Rows) (scope resourceID : string) : Rows * Z :=
  let hit := fun r : TempToken => ScopeName r = scope /\ ResourceID r = resourceID in
  (filter (fun r => ~ hit r) rows, Z.of_nat (length (filter hit rows))).

Definition DeleteExpiredTempTokens (rows : Rows) (before : Z) : Rows * Z :=
  (filter (fun r => before < ExpiresAt r) rows, Z.of_nat (length (filter (fun r => ExpiresAt r <= before) rows))).

(** ** Service *)

Inductive TokenError :=
| ErrTokenNotFound | ErrTokenExpired | ErrScopeUnknown | ErrRouteNotAllowed | ErrTTLExceedsMax
| ErrGenerate | ErrStore.

Record ValidatedToken := mkValidated { v_ID : string; v_Scope : string; v_ResourceID : string }.

Record Service := mkService { rows : Rows; registry : Registry }.

Section service.
(** [encrypt.HashSHA256]. *)
Context (HashSHA256 : string -> string).

(** [BeforeSave] on the row of [Mint]: the hash of the token, if it has one. *)
Definition savedRow (id plaintext scope resourceID : string) (expiresAt : Z) : TempToken :=
  mkToken id (if bool_decide (plaintext = "") then "" else HashSHA256 plaintext) scope resourceID expiresAt.

(** [Mint]: [random] the plaintext generated, if it could be, [id] the new UUID,
    [stores] whether the database answers. *)
Definition Mint (s : Service) (scopeName resourceID : string) (ttl : Z) (random : option string) (id : string) (now : Z)
    (stores : bool) : Service * (TokenError + string) :=
  match Lookup_ (registry s) scopeName with
  | None => (s, inl ErrScopeUnknown)
  | Some scope =>
      if (ttl <=? 0) || (MaxTTL scope <? ttl) then (s, inl ErrTTLExceedsMax)
      else match random with
      | None => (s, inl ErrGenerate)
      | Some plaintext =>
          if stores
          then match CreateTempToken (rows s) (savedRow id plaintext (Name scope) resourceID (now + ttl)) with
               | None => (s, inl ErrStore)
               | Some rows => (mkService rows (registry s), inr plaintext)
               end
          else (s, inl ErrStore)
      end
  end.

Definition Validate (s : Service) (plaintext method path : string) (now : Z) (reads : bool) : TokenError + ValidatedToken :=
  if bool_decide (plaintext = "") then inl ErrTokenNotFound
  else if negb reads then inl ErrStore
  else match GetTempTokenByHash (rows s) (HashSHA256 plaintext) with
  | None => inl ErrTokenNotFound
  | Some row =>
      if ExpiresAt row <=? now then inl ErrTokenExpired
      else match Lookup_ (registry s) (ScopeName row) with
      | None => inl ErrScopeUnknown
      | Some scope =>
          if matchesRequest scope method path (ResourceID row)
          then inr (mkValidated (ID row) (ScopeName row) (ResourceID row))
          else inl ErrRouteNotAllowed
      end
  end.

(** The end of [tryTempTokenOrUnauthorized]: the scope and the resource attached to
    the request that goes on, or [None] for the answer 401. *)
Definition tryTempTokenOrUnauthorized (service : option Service) (enabled : bool) (token method path : string) (now : Z)
    (reads : bool) : option (string * string) :=
  match service with
  | Some s =>
      if enabled && negb (bool_decide (token = ""))
      then match Validate s token method path now reads with
           | inr validated => Some (v_Scope validated, v_ResourceID validated)
           | inl _ => None
           end
      else None
  | None => None
  end.

Definition DeleteExpired (s : Service) (before : Z) (stores : bool) : Service * (TokenError + Z) :=
  if stores then let '(rs, n) := DeleteExpiredTempTokens (rows s) before in (mkService rs (registry s), inr n)
  else (s, inl ErrStore).

Definition DeleteByResourceID (s : Service) (scope resourceID : string) (stores : bool) : Service * (TokenError + Z) :=
  if bool_decide (scope = "") || bool_decide (resourceID = "") then (s, inr 0)
  else if stores
  then let '(rs, n) := DeleteTempTokensByResourceID (rows s) scope resourceID in (mkService rs (registry s), inr n)
  else (s, inl ErrStore).

(** *** Everything that changes a service, in order *)

Inductive Event :=
| Minting (scopeName resourceID : string) (ttl : Z) (random : option string) (id : string) (now : Z) (stores : bool)
| Sweeping (before : Z) (stores : bool)
| Finishing (scope resourceID : string) (stores : bool)
| Registering (scope : Scope).

Definition exec (s : Service) (ev : Event) : Service :=
  match ev with
  | Minting scopeName resourceID ttl random id now stores => (Mint s scopeName resourceID ttl random id now stores).1
  | Sweeping before stores => (DeleteExpired s before stores).1
  | Finishing scope resourceID stores => (DeleteByResourceID s scope resourceID stores).1
  | Registering scope => match Register (registry s) scope with inr r => mkService (rows s) r | inl _ => s end
  end.

Definition NewService : Service := mkService [] NewRegistry.

Definition runService (evs : list Event) : Service := foldl exec NewService evs.

End service.

(** ** The scopes of the gateway *)

Definition mcpAuthScope : Scope :=
  mkScope "mcp_auth"
    [mkRoute "GET" "/api/oauth/per-user/flows/{id}"; mkRoute "GET" "/api/oauth/per-user/flows/{id}/start"]
    "{id}" (15 * Minute).

Definition mcpHeadersAuthScope : Scope :=
  mkScope "mcp_headers_auth"
    [mkRoute "GET" "/api/mcp/per-user-headers/flows/{id}"; mkRoute "PUT" "/api/mcp/per-user-headers/flows/{id}"]
    "{id}" (15 * Minute).

Definition oauth2ConsentScope : Scope :=
  mkScope "oauth2_consent"
    [mkRoute "GET" "/api/oauth2/consent/flows/{id}"; mkRoute "PUT" "/api/oauth2/consent/flows/{id}"]
    "{id}" (15 * Minute).

Inductive ScopesError := ServiceNil | InScope (name : string) (err : RegisterError).

(** One registration of [RegisterTempTokenScopes], which stops at the first error
    with what is registered so far. *)
Definition registerScope (scope : Scope) (st : Service * option ScopesError) : Service * option ScopesError :=
  match st with
  | (s, Some err) => (s, Some err)
  | (s, None) => match Register (registry s) scope with
                 | inl err => (s, Some (InScope (Name scope) err))
                 | inr r => (mkService (rows s) r, None)
                 end
  end.

Definition RegisterTempTokenScopes (svc : option Service) : option Service * option ScopesError :=
  match svc with
  | None => (None, Some ServiceNil)
  | Some s =>
      let '(s, err) := registerScope oauth2ConsentScope (registerScope mcpHeadersAuthScope (registerScope mcpAuthScope (s, None))) in
      (Some s, err)
  end.

End TempTokens.
