(* ===== verification/TempTokensTheory.v ===== *)
(** * Properties of the temporary tokens

    What a run of the service leaves in the table, which requests a token opens,
    and that a token of one flow opens nothing of another. *)

From S2P Require Import Prelude GoStrings TempTokens.
From Stdlib Require Import Ascii.

Local Open Scope string_scope.
Local Open Scope Z_scope.
Local Open Scope list_scope.

Module TempTokensTheory.
Import TempTokens.

Section run.
Context (HashSHA256 : string -> string).

Local Notation exec := (exec HashSHA256).
Local Notation Mint := (Mint HashSHA256).
Local Notation runService := (runService HashSHA256).

Lemma runService_snoc evs ev : runService (evs ++ [ev]) = exec (runService evs) ev.
Proof. unfold TempTokens.runService. by rewrite foldl_app. Qed.

(** ** The table *)

(** The row that an event adds. *)
Definition minted (s : Service) (ev : Event) (row : TempToken) : Prop :=
  exists scopeName resourceID ttl plaintext id now scope,
    ev = Minting scopeName resourceID ttl (Some plaintext) id now true /\
    registry s !! scopeName = Some scope /\ 0 < ttl <= MaxTTL scope /\
    (Mint s scopeName resourceID ttl (Some plaintext) id now true).2 = inr plaintext /\
    row = savedRow HashSHA256 id plaintext (Name scope) resourceID (now + ttl).

(** The events that leave a row in place. *)
Definition spares (row : TempToken) (ev : Event) : Prop :=
  match ev with
  | Sweeping before stores => stores = true -> before < ExpiresAt row
  | Finishing scope resourceID stores =>
      stores = true -> scope <> "" -> resourceID <> "" -> ~ (ScopeName row = scope /\ ResourceID row = resourceID)
  | _ => True
  end.

Lemma Mint_spec s scopeName resourceID ttl random id now stores :
  ((Mint s scopeName resourceID ttl random id now stores).1 = s /\
   forall row, ~ minted s (Minting scopeName resourceID ttl random id now stores) row) \/
  exists plaintext scope, random = Some plaintext /\ stores = true /\ registry s !! scopeName = Some scope /\
    0 < ttl <= MaxTTL scope /\
    existsb (fun r => bool_decide (ID r = id) ||
      bool_decide (TokenHash r = TokenHash (savedRow HashSHA256 id plaintext (Name scope) resourceID (now + ttl)))) (rows s) = false /\
    Mint s scopeName resourceID ttl random id now stores =
      (mkService (rows s ++ [savedRow HashSHA256 id plaintext (Name scope) resourceID (now + ttl)]) (registry s), inr plaintext).
Proof.
  unfold minted, TempTokens.Mint, Lookup_. destruct (registry s !! scopeName) as [scope|] eqn:Hs.
  2:{ left. split; [done|]. intros row (?&?&?&?&?&?&?&[= <- <- <- -> <- <- ->]&Hs'&_). congruence. }
  destruct ((ttl <=? 0) || (MaxTTL scope <? ttl)) eqn:Httl; cbn.
  { left. split; [done|]. intros row (?&?&?&?&?&?&?&[= <- <- <- -> <- <- ->]&Hs'&Ht&_). simplify_eq. lia. }
  destruct random as [plaintext|]; [|left; split; [done|]; by intros row (?&?&?&?&?&?&?&?&_)].
  destruct stores; [|left; split; [done|]; by intros row (?&?&?&?&?&?&?&?&_)].
  unfold CreateTempToken. destruct (existsb _ (rows s)) eqn:Hex; cbn.
  - left. split; [done|]. intros row (?&?&?&?&?&?&?&[= <- <- <- <- <- <-]&Hs'&Ht&Hm&_). simplify_eq.
    rewrite Hs, Httl in Hm. cbn in Hm, Hex. by rewrite Hex in Hm.
  - right. exists plaintext, scope. split_and!; [done|done|done|lia|lia|done|done].
Qed.

Lemma rows_exec s ev row :
  row ∈ rows (exec s ev) <-> (row ∈ rows s /\ spares row ev) \/ minted s ev row.
Proof.
  destruct ev as [scopeName resourceID ttl random id now stores|before stores|scope resourceID stores|scope].
  - cbn [TempTokens.exec spares]. destruct (Mint_spec s scopeName resourceID ttl random id now stores) as [[-> Hno]|Hm].
    + split; [by left|]. intros [[? _]|Hm]; [done|]. by destruct (Hno row).
    + destruct Hm as (plaintext & scope & -> & -> & Hs & Ht & _ & Heq). rewrite Heq. cbn. rewrite elem_of_app, list_elem_of_singleton.
      assert (minted s (Minting scopeName resourceID ttl (Some plaintext) id now true) row <->
        row = savedRow HashSHA256 id plaintext (Name scope) resourceID (now + ttl)) as ->; [|naive_solver].
      split.
      * intros (?&?&?&?&?&?&?&[= <- <- <- <- <- <-]&Hs'&_&_&->). by simplify_eq.
      * intros ->. exists scopeName, resourceID, ttl, plaintext, id, now, scope. by rewrite Heq.
  - assert (forall row, ~ minted s (Sweeping before stores) row) as Hno by (intros ? (?&?&?&?&?&?&?&?&_); done).
    cbn. unfold DeleteExpired. destruct stores; cbn; rewrite ?list_elem_of_filter; naive_solver.
  - assert (forall row, ~ minted s (Finishing scope resourceID stores) row) as Hno by (intros ? (?&?&?&?&?&?&?&?&_); done).
    cbn. unfold DeleteByResourceID. repeat case_bool_decide; cbn; [naive_solver..|].
    destruct stores; cbn; rewrite ?list_elem_of_filter; naive_solver.
  - assert (forall row, ~ minted s (Registering scope) row) as Hno by (intros ? (?&?&?&?&?&?&?&?&_); done).
    cbn. destruct (Register (registry s) scope); cbn; naive_solver.
Qed.

(** The rows are those minted and spared since. *)
Lemma rows_history evs row :
  row ∈ rows (runService evs) <->
  exists pre ev post, evs = pre ++ ev :: post /\ minted (runService pre) ev row /\ Forall (spares row) post.
Proof.
  induction evs as [|ev evs IH] using rev_ind.
  { cbn. split; [by intros ?%not_elem_of_nil|]. by intros ([] & ? & ? & ? & _). }
  rewrite runService_snoc, rows_exec, IH. split.
  - intros [[(pre & ev' & post & -> & Hm & Hp) Hs]|Hm].
    + exists pre, ev', (post ++ [ev]). rewrite <-app_assoc. split_and!; [done..|]. apply Forall_app. by repeat constructor.
    + exists evs, ev, []. by split_and!.
  - intros (pre & ev' & post & Heq & Hm & Hp). destruct post as [|last post _] using rev_ind.
    + apply app_inj_tail in Heq as [-> ->]. by right.
    + left. rewrite app_comm_cons, app_assoc in Heq. apply app_inj_tail in Heq as [Heq ->].
      apply Forall_app in Hp as [Hp Hl]. rewrite Forall_singleton in Hl. split; [by exists pre, ev', post|done].
Qed.

(** No two rows have the same hash. *)
Definition uniqueHashes (rs : Rows) : Prop :=
  forall r1 r2, r1 ∈ rs -> r2 ∈ rs -> TokenHash r1 = TokenHash r2 -> r1 = r2.

Lemma uniqueHashes_exec s ev : uniqueHashes (rows s) -> uniqueHashes (rows (exec s ev)).
Proof.
  intros Hu.
  assert ((forall row, row ∈ rows (exec s ev) -> row ∈ rows s) -> uniqueHashes (rows (exec s ev))) as Hsub by (intros Hsub r1 r2 ??; eauto).
  destruct ev as [scopeName resourceID ttl random id now stores|before stores|scope resourceID stores|scope];
    [|apply Hsub; intros row [[? _]|(?&?&?&?&?&?&?&?&_)]%rows_exec; done..].
  cbn [TempTokens.exec] in *. destruct (Mint_spec s scopeName resourceID ttl random id now stores) as [[Heq _]|Hm]; [by rewrite Heq|].
  destruct Hm as (plaintext & scope & -> & -> & _ & _ & Hex & ->). cbn. set (new := savedRow _ _ _ _ _ _) in *.
  assert (forall r, r ∈ rows s -> TokenHash r <> TokenHash new) as Hnew.
  { intros r Hr Heq. rewrite <-not_true_iff_false in Hex. apply Hex, existsb_exists. exists r.
    split; [by apply list_elem_of_In|]. rewrite (bool_decide_true (TokenHash r = _)) by done. apply orb_true_r. }
  intros r1 r2 [H1| ->%list_elem_of_singleton]%elem_of_app [H2| ->%list_elem_of_singleton]%elem_of_app Heq; [by apply Hu| | |done].
  - by destruct (Hnew _ H1).
  - by destruct (Hnew _ H2).
Qed.

Lemma runService_unique evs : uniqueHashes (rows (runService evs)).
Proof.
  induction evs as [|ev evs IH] using rev_ind; [by intros ?? ?%not_elem_of_nil|].
  rewrite runService_snoc. by apply uniqueHashes_exec.
Qed.

(** A scope stays as it was registered. *)
Lemma registry_exec s ev name scope : registry s !! name = Some scope -> registry (exec s ev) !! name = Some scope.
Proof.
  destruct ev as [scopeName resourceID ttl random id now stores|before stores|sc resourceID stores|sc]; cbn [TempTokens.exec]; intros Hs.
  - destruct (Mint_spec s scopeName resourceID ttl random id now stores) as [[-> _]|(?&?&?&?&?&?&?&->)]; done.
  - unfold DeleteExpired. by destruct stores.
  - unfold DeleteByResourceID. repeat case_bool_decide; try done. by destruct stores.
  - unfold Register. repeat case_bool_decide; try done; repeat (case_match; try done); simplify_eq; cbn;
      (rewrite lookup_insert_ne by congruence; done).
Qed.

Lemma registry_runService pre post name scope :
  registry (runService pre) !! name = Some scope -> registry (runService (pre ++ post)) !! name = Some scope.
Proof.
  intros Hs. induction post as [|ev post IH] using rev_ind; [by rewrite app_nil_r|].
  rewrite app_assoc, runService_snoc. by apply registry_exec.
Qed.

Lemma registry_named evs name scope : registry (runService evs) !! name = Some scope -> Name scope = name.
Proof.
  revert name scope. induction evs as [|ev evs IH] using rev_ind; [done|]. intros name scope. rewrite runService_snoc.
  destruct ev as [scopeName resourceID ttl random id now stores|before stores|sc resourceID stores|sc]; cbn [TempTokens.exec].
  - destruct (Mint_spec (runService evs) scopeName resourceID ttl random id now stores) as [[-> _]|(?&?&?&?&?&?&?&->)]; apply IH.
  - unfold DeleteExpired. destruct stores; apply IH.
  - unfold DeleteByResourceID. repeat case_bool_decide; try apply IH. destruct stores; apply IH.
  - unfold Register. repeat case_bool_decide; try apply IH; repeat (case_match; try apply IH); simplify_eq; cbn;
      (intros [[<- ->]|[_ Hl]]%lookup_insert_Some; [done|by apply IH]).
Qed.

Lemma find_hash rs r :
  uniqueHashes rs -> r ∈ rs -> GetTempTokenByHash rs (TokenHash r) = Some r.
Proof.
  intros Hu Hr. unfold GetTempTokenByHash. destruct (List.find _ rs) as [r'|] eqn:Hf.
  - apply find_some in Hf as [Hin Heq%bool_decide_eq_true_1]. f_equal. apply Hu; [by apply list_elem_of_In|done|done].
  - exfalso. apply list_elem_of_In in Hr. apply (find_none _ _ Hf) in Hr. by rewrite bool_decide_true in Hr.
Qed.

(** ** What a token opens *)

Lemma Validate_spec s token method path now v :
  Validate HashSHA256 s token method path now true = inr v <->
  token <> "" /\ exists row scope, GetTempTokenByHash (rows s) (HashSHA256 token) = Some row /\ now < ExpiresAt row /\
    registry s !! ScopeName row = Some scope /\ matchesRequest scope method path (ResourceID row) = true /\
    v = mkValidated (ID row) (ScopeName row) (ResourceID row).
Proof.
  unfold Validate, Lookup_. case_bool_decide as Ht; [naive_solver|]. cbn.
  destruct (GetTempTokenByHash (rows s) (HashSHA256 token)) as [row|]; [|split; [done|by intros (_ & ? & ? & ? & _)]].
  destruct (Z.leb_spec (ExpiresAt row) now) as [Hle|Hlt]; [split; [done|]; intros (_ & ? & ? & [= <-] & ? & _); lia|].
  destruct (registry s !! ScopeName row) as [scope|] eqn:Hs;
    [|split; [done|]; intros (_ & ? & ? & [= <-] & _ & ? & _); congruence].
  destruct (matchesRequest scope method path (ResourceID row)) eqn:Hm;
    [|split; [done|]; intros (_ & ? & ? & [= <-] & _ & ? & ? & _); congruence].
  split; [intros [= <-]; split; [done|]; by exists row, scope|]. by intros (_ & ? & ? & [= <-] & _ & _ & _ & ->).
Qed.

Lemma opened_by_row evs token method path now scope resourceID :
  tryTempTokenOrUnauthorized HashSHA256 (Some (runService evs)) true token method path now true = Some (scope, resourceID) <->
  token <> "" /\ exists row def, row ∈ rows (runService evs) /\ TokenHash row = HashSHA256 token /\ now < ExpiresAt row /\
    ScopeName row = scope /\ ResourceID row = resourceID /\ registry (runService evs) !! scope = Some def /\
    matchesRequest def method path resourceID = true.
Proof.
  unfold tryTempTokenOrUnauthorized. case_bool_decide as Ht; cbn; [naive_solver|].
  destruct (Validate HashSHA256 (runService evs) token method path now true) as [err|v] eqn:Hv.
  - split; [done|]. intros (_ & row & def & Hin & Hh & Hlt & <- & <- & Hd & Hm).
    assert (Validate HashSHA256 (runService evs) token method path now true = inr (mkValidated (ID row) (ScopeName row) (ResourceID row))); [|congruence].
    apply Validate_spec. split; [done|]. exists row, def. split_and!; try done. rewrite <-Hh. apply find_hash; [apply runService_unique|done].
  - apply Validate_spec in Hv as (_ & row & def & Hf & Hlt & Hd & Hm & ->). cbn.
    pose proof Hf as [Hin Heq%bool_decide_eq_true_1]%find_some. split.
    + intros [= <- <-]. split; [done|]. exists row, def. split_and!; try done. by apply list_elem_of_In.
    + intros (_ & row' & def' & Hin' & Hh' & _ & <- & <- & _).
      rewrite (runService_unique evs row' row Hin'); [done|by apply list_elem_of_In|congruence].
Qed.

(** C26. A temporary token lets a request through exactly when: it was minted, under
    a scope that is registered and for a time within the limit of the scope; its time
    is not over; since then neither a sweep at or after its expiry nor the end of
    its resource deleted it; and the request is one of the routes of the scope for
    the resource of the token.  This holds after any sequence of mints, sweeps,
    deletions and registrations, with any failures of the database among them. *)
Theorem token_opens_iff evs token method path now scope resourceID :
  tryTempTokenOrUnauthorized HashSHA256 (Some (runService evs)) true token method path now true = Some (scope, resourceID) <->
  exists pre post ttl plaintext id at_ def,
    evs = pre ++ Minting scope resourceID ttl (Some plaintext) id at_ true :: post /\
    (Mint (runService pre) scope resourceID ttl (Some plaintext) id at_ true).2 = inr plaintext /\
    registry (runService pre) !! scope = Some def /\ 0 < ttl <= MaxTTL def /\
    let row := savedRow HashSHA256 id plaintext scope resourceID (at_ + ttl) in
    token <> "" /\ TokenHash row = HashSHA256 token /\ now < at_ + ttl /\
    Forall (spares row) post /\ matchesRequest def method path resourceID = true.
Proof.
  rewrite opened_by_row. split.
  - intros (Ht & row & def & Hin & Hh & Hlt & Hsc & Hr & Hd & Hm).
    apply rows_history in Hin as (pre & ev & post & -> & Hmint & Hsp).
    destruct Hmint as (name & rid & ttl & plaintext & id & at_ & def' & -> & Hdef & Httl & Hok & ->). cbn in Hsc, Hr, Hlt. subst.
    pose proof (registry_named _ _ _ Hdef) as Hname. rewrite Hname in *.
    rewrite (registry_runService _ _ _ _ Hdef) in Hd. simplify_eq. by exists pre, post, ttl, plaintext, id, at_, def.
  - intros (pre & post & ttl & plaintext & id & at_ & def & -> & Hok & Hdef & Httl & Ht & Hh & Hlt & Hsp & Hm).
    split; [done|]. eexists _, def. split_and!; [apply rows_history| exact Hh|done|done|done|by apply registry_runService|done].
    eexists pre, _, post. split_and!; [done| |done].
    exists scope, resourceID, ttl, plaintext, id, at_, def. by rewrite (registry_named _ _ _ Hdef).
Qed.

End run.

(** ** The scopes of the gateway *)

Definition gatewayRegistry : Registry :=
  <["oauth2_consent" := oauth2ConsentScope]> (<["mcp_headers_auth" := mcpHeadersAuthScope]> {["mcp_auth" := mcpAuthScope]}).

Lemma RegisterTempTokenScopes_new rs :
  RegisterTempTokenScopes (Some (mkService rs NewRegistry)) = (Some (mkService rs gatewayRegistry), None).
Proof. reflexivity. Qed.

(** The requests of each scope, for one resource. *)
Definition gatewayRoutes (scope resourceID : string) : list (string * string) :=
  if bool_decide (scope = "mcp_auth") then
    [("GET", "/api/oauth/per-user/flows/" +:+ resourceID); ("GET", "/api/oauth/per-user/flows/" +:+ resourceID +:+ "/start")]
  else if bool_decide (scope = "mcp_headers_auth") then
    [("GET", "/api/mcp/per-user-headers/flows/" +:+ resourceID); ("PUT", "/api/mcp/per-user-headers/flows/" +:+ resourceID)]
  else [("GET", "/api/oauth2/consent/flows/" +:+ resourceID); ("PUT", "/api/oauth2/consent/flows/" +:+ resourceID)].

Lemma gateway_matches scope def method path resourceID :
  gatewayRegistry !! scope = Some def ->
  matchesRequest def method path resourceID = true <-> (ToUpper method, path) ∈ gatewayRoutes scope resourceID.
Proof.
  assert (forall (m p : string) r1 r2, existsb (fun r => bool_decide (ToUpper (Method r) = m) && bool_decide (r2 r = p)) r1 = true <->
    (m, p) ∈ (fun r => (ToUpper (Method r), r2 r)) <$> (r1 : list RoutePattern)) as Hspec.
  { intros m p r1 r2. rewrite existsb_exists, list_elem_of_fmap. split.
    - intros (r & Hin & [Hm%bool_decide_eq_true_1 Hp%bool_decide_eq_true_1]%andb_prop). exists r. split; [congruence|by apply list_elem_of_In].
    - intros (r & [= -> ->] & Hin). exists r. split; [by apply list_elem_of_In|]. by rewrite !bool_decide_true. }
  unfold matchesRequest. rewrite Hspec. unfold gatewayRegistry.
  intros [[<- <-]|[_ [[<- <-]|[_ [<- <-]%lookup_singleton_Some]]%lookup_insert_Some]]%lookup_insert_Some;
    unfold gatewayRoutes, expectedPath, ReplaceAll; cbn; rewrite ?str_app_nil_r; reflexivity.
Qed.

Lemma gateway_scopes scope def :
  gatewayRegistry !! scope = Some def -> scope = "mcp_auth" \/ scope = "mcp_headers_auth" \/ scope = "oauth2_consent".
Proof.
  unfold gatewayRegistry.
  intros [[<- _]|[_ [[<- _]|[_ [<- _]%lookup_singleton_Some]]%lookup_insert_Some]]%lookup_insert_Some; auto.
Qed.

Lemma slash_free_start r r' : Contains r "/" = false -> r = r' +:+ "/start" -> False.
Proof. intros Hr ->. by rewrite Contains_app_l in Hr. Qed.

Lemma start_inj r1 r2 : r1 +:+ "/start" = r2 +:+ "/start" -> r1 = r2.
Proof.
  revert r2. induction r1 as [|a r1 IH]; intros [|b r2] Heq; [done|..].
  - apply (f_equal String.length) in Heq. rewrite !str_length_app in Heq. cbn in Heq. lia.
  - apply (f_equal String.length) in Heq. rewrite !str_length_app in Heq. cbn in Heq. lia.
  - injection Heq as -> Heq. f_equal. by apply IH.
Qed.

Lemma gateway_routes_apart scope1 scope2 r1 r2 def1 def2 m p :
  gatewayRegistry !! scope1 = Some def1 -> gatewayRegistry !! scope2 = Some def2 ->
  Contains r1 "/" = false -> Contains r2 "/" = false ->
  (m, p) ∈ gatewayRoutes scope1 r1 -> (m, p) ∈ gatewayRoutes scope2 r2 -> scope1 = scope2 /\ r1 = r2.
Proof.
  intros Hd1 Hd2 Hs1 Hs2 H1 H2.
  assert (forall r, gatewayRoutes "mcp_auth" r =
    [("GET", "/api/oauth/per-user/flows/" +:+ r); ("GET", "/api/oauth/per-user/flows/" +:+ r +:+ "/start")]) as E1 by reflexivity.
  assert (forall r, gatewayRoutes "mcp_headers_auth" r =
    [("GET", "/api/mcp/per-user-headers/flows/" +:+ r); ("PUT", "/api/mcp/per-user-headers/flows/" +:+ r)]) as E2 by reflexivity.
  assert (forall r, gatewayRoutes "oauth2_consent" r =
    [("GET", "/api/oauth2/consent/flows/" +:+ r); ("PUT", "/api/oauth2/consent/flows/" +:+ r)]) as E3 by reflexivity.
  apply gateway_scopes in Hd1 as [-> |[-> | ->]], Hd2 as [-> |[-> | ->]]; rewrite ?E1, ?E2, ?E3 in H1, H2;
    apply elem_of_cons in H1 as [H1|[H1|H1%not_elem_of_nil]%elem_of_cons]; try done; injection H1 as -> ->;
    apply elem_of_cons in H2 as [H2|[H2|H2%not_elem_of_nil]%elem_of_cons]; try done; try discriminate H2;
    injection H2 as H2; split; try done; try (by apply start_inj in H2);
    exfalso; eauto using slash_free_start.
Qed.

Lemma opened_by HashSHA256 rs reg token method path now scope resourceID :
  tryTempTokenOrUnauthorized HashSHA256 (Some (mkService rs reg)) true token method path now true = Some (scope, resourceID) ->
  exists def, reg !! scope = Some def /\ matchesRequest def method path resourceID = true.
Proof.
  unfold tryTempTokenOrUnauthorized. case_bool_decide; cbn; [done|].
  destruct (Validate _ _ _ _ _ _ _) as [|v] eqn:Hv; [done|]. intros [= <- <-].
  apply Validate_spec in Hv as (_ & row & def & _ & _ & Hd & Hm & ->). by exists def.
Qed.

(** Tokens do not cross: with the scopes the gateway registers, two tokens that
    both open one request are tokens of one scope and one flow, whatever rows the
    table holds, as long as the ids of flows have no slash. *)
Theorem tokens_do_not_cross HashSHA256 rs svc token1 token2 method path now1 now2 scope1 scope2 r1 r2
    (Hreg : RegisterTempTokenScopes (Some (mkService rs NewRegistry)) = (Some svc, None))
    (H1 : tryTempTokenOrUnauthorized HashSHA256 (Some svc) true token1 method path now1 true = Some (scope1, r1))
    (H2 : tryTempTokenOrUnauthorized HashSHA256 (Some svc) true token2 method path now2 true = Some (scope2, r2))
    (Hs1 : Contains r1 "/" = false) (Hs2 : Contains r2 "/" = false) :
  scope1 = scope2 /\ r1 = r2 /\ (ToUpper method, path) ∈ gatewayRoutes scope1 r1.
Proof.
  rewrite RegisterTempTokenScopes_new in Hreg. injection Hreg as <-.
  apply opened_by in H1 as (def1 & Hd1 & Hm1). apply opened_by in H2 as (def2 & Hd2 & Hm2).
  rewrite (gateway_matches _ _ _ _ _ Hd1) in Hm1. rewrite (gateway_matches _ _ _ _ _ Hd2) in Hm2.
  destruct (gateway_routes_apart _ _ _ _ _ _ _ _ Hd1 Hd2 Hs1 Hs2 Hm1 Hm2) as [-> ->]. by split_and!.
Qed.

(** ** On a concrete service *)

(** A hash with distinct values, for examples. *)
Definition demoHash (s : string) : string := "sha256:" +:+ s.

(** Two tokens of one flow, and one of another flow, of which one is deleted. *)
Definition demoEvents : list Event :=
  [Registering mcpAuthScope; Minting "mcp_auth" "flow-1" Minute (Some "secret-1") "id-1" 0 true;
   Minting "mcp_auth" "flow-2" Minute (Some "secret-2") "id-2" 5 true;
   Minting "mcp_auth" "flow-1" (16 * Minute) (Some "secret-3") "id-3" 6 true;
   Minting "mcp_auth" "flow-1" Minute (Some "secret-4") "id-4" 7 true; Finishing "mcp_auth" "flow-2" true; Sweeping 10 true].

Definition demoOpens (token method path : string) (now : Z) : option (string * string) :=
  tryTempTokenOrUnauthorized demoHash (Some (runService demoHash demoEvents)) true token method path now true.

Example demo_opens :
  demoOpens "secret-1" "get" "/api/oauth/per-user/flows/flow-1/start" 100 = Some ("mcp_auth", "flow-1") /\
  demoOpens "secret-1" "POST" "/api/oauth/per-user/flows/flow-1" 100 = None /\
  demoOpens "secret-1" "GET" "/api/oauth/per-user/flows/flow-2" 100 = None /\
  demoOpens "secret-2" "GET" "/api/oauth/per-user/flows/flow-2" 100 = None /\
  demoOpens "secret-3" "GET" "/api/oauth/per-user/flows/flow-1" 100 = None /\
  demoOpens "secret-4" "GET" "/api/oauth/per-user/flows/flow-1" Minute = Some ("mcp_auth", "flow-1") /\
  demoOpens "secret-1" "GET" "/api/oauth/per-user/flows/flow-1" Minute = None.
Proof. by vm_compute. Qed.

Definition demoRows : Rows :=
  [mkToken "id-1" (demoHash "secret-1") "mcp_auth" "flow-1" Minute; mkToken "id-4" (demoHash "secret-4") "mcp_auth" "flow-1" Minute].

Lemma tokens_do_not_cross_witness :
  let svc := mkService demoRows gatewayRegistry in
  tryTempTokenOrUnauthorized demoHash (Some svc) true "secret-1" "GET" "/api/oauth/per-user/flows/flow-1" 9 true = Some ("mcp_auth", "flow-1") /\
  "mcp_auth" = "mcp_auth" /\ "flow-1" = "flow-1" /\ ("GET", "/api/oauth/per-user/flows/flow-1") ∈ gatewayRoutes "mcp_auth" "flow-1".
Proof.
  intros svc. split; [reflexivity|].
  apply (tokens_do_not_cross demoHash demoRows svc "secret-1" "secret-4" "GET" "/api/oauth/per-user/flows/flow-1" 9 10 "mcp_auth" "mcp_auth" "flow-1" "flow-1");
    reflexivity.
Defined.

End TempTokensTheory.
